(* ===== verification/_CoqProject ===== *)
-Q . S2P
Prelude.v
Kernel.v
Globalmem.v
Globalfifo.v
Pthread.v
LinkedList.v
VmemDisk.v
Rwlock.v
Barrier.v
Workq.v
ProduceConsume.v
Alarm.v
Crew.v
UsbSkeleton.v
Minivosc.v
PciMemory.v
Pipe.v
Backoff.v
Server.v
Susp.v
BarrierMain.v
Snull.v
Second.v
TlpiIo.v
TlpiNum.v
Seqnum.v
RtosList.v
RtosHeap.v
RtosAlloc.v
RtosTask.v
RtosSched.v
RtosSys.v
RtosCalls.v
RtosRun.v
RtosFrame.v
RtosQueue.v
RtosQueueRun.v
RtosQueueOk.v
RtosQueueThm.v
RtosLibc.v
RtosEcho.v
