(* ===== verification/Prelude.v ===== *)
(** * Verification of the driver and thread samples

    The repository collects Linux sample code.  This development covers the
    programs in it that keep state of their own: character, block, network, USB,
    sound and PCI drivers, packages and programs written against POSIX threads, and
    input, text and a network service of The Linux Programming Interface (TLPI), and
    the kernel of FreeRTOS for an ARM926 (lists, heaps, scheduler and queues) with
    its demo application.
    Most are separate programs; what they share is the kernel or the libraries below
    them, and here the files [Prelude], [Kernel], [Pthread] and [LinkedList].
    Compositions are proved where programs are layered: the test program of the
    barrier against an interface that the barrier discharges ([BarrierMain]), the
    sequence number service over line input and number parsing ([Seqnum]), the
    FreeRTOS scheduler over its linked lists ([RtosRun]), and the queues over the
    scheduler and over any heap that keeps the contract of an allocator
    ([RtosQueueThm], [RtosAlloc]).

    ** Files and the code they model

    - [Prelude] (this file): C integers ([uwrap], [swrap]), byte buffers with
      checked access ([load], [store], [slice], [splice]), errno values, tactics,
      and runs of a step function ([reachable], [run], [invariant_reachable]).
    - [Kernel]: kernel services as type classes ([UserCopy], [ChrdevKernel]) with
      their documented behaviour as laws ([UserCopyOk], [ChrdevKernelOk]); memcpy as
      the class [Memcpy], whose law [MemcpyOk] is about blocks that do not overlap; and
      the module set-up that single-device drivers share.  The instances at its end
      are what witnesses compute with.
    - [Globalmem]: ldd-k4/kernel/drivers/globalmem/ch7/globalmem.c and
      ch6/multi_globalmem.c.  One definition per file operation, on the record
      [globalmem_dev] and the file position.
    - [Globalfifo]: ldd-k4/kernel/drivers/globalfifo/ch9/globalfifo.c.  Blocking
      read and write with wait queues, poll, ioctl; [step] interleaves tasks.
    - [VmemDisk]: ldd-k4/kernel/drivers/vmem_disk/vmem_disk.c.  Sector transfer,
      bio and request paths, geometry, load and unload of the four disks.
    - [Pthread]: threads as a map of program counters, counting them, signal and
      broadcast.  [LinkedList]: list segments in a heap.
    - [Rwlock], [Barrier], [Workq], [Alarm], [Crew]: rwlock.c, barrier.c, workq.c,
      alarm_mutex.c and alarm_cond.c, crew.c (over the class [WorkQueue], of which
      the linked list is one instance and its specification another) of
      ldd-k4/thread/programming_with_posix_thread; [ProduceConsume]:
      ldd-k4/thread/produce_consume.c.
    - [UsbSkeleton]: kernel_module/skeleton/usb/usb_skeleton.c.
    - [Minivosc]: kernel_module/skeleton/alsa-minivosc-src/minivosc.c.
    - [PciMemory]: kernel_module/skeleton/pci_memory/pci_core.c and pci_cdev.c.
    - [Pipe], [Backoff], [Server], [Susp], [BarrierMain]: pipe.c, backoff.c, server.c,
      susp.c and barrier_main.c of the same directory as [Rwlock].  [BarrierMain] has
      the type classes [BarrierOps] and [BarrierOk] between program and barrier.
    - [Snull]: kernel_module/16_1_Network_Device_Driver_simple_snull.c.
    - [Second]: ldd-k4/kernel/drivers/second/second.c.
    - [TlpiIo]: sockets/rdwrn.c, read_line.c and read_line_buf.c of
      The_Linux_Programming_Interface/tlpi-dist; a descriptor is the bytes to come and
      what each call does with them.  [TlpiNum]: lib/get_num.c, with strtol and atoi.
      [Seqnum]: the loops of sockets/is_seqnum_sv.c and pipes/fifo_seqnum_server.c and
      the dialogue of sockets/is_seqnum_cl.c.
    - FreeRTOS, in ldd-k4/arm/FreeRTOS-GCC-ARM926ejs/FreeRTOS/Source.  [RtosList]:
      list.c and the macros of include/list.h, the rings its scheduler keeps tasks in.
      [RtosHeap]: portable/MemMang/heap_4.c, with the headers of the blocks in the
      memory they manage.  [RtosAlloc]: heap_1.c and the type class [Allocator] that
      both heaps are instances of.  [RtosTask]: tasks.c and the timer interrupt of
      portISR.c, as calls on the record [sched] and on lists behind the class
      [ListMem], which are linked rings ([mem]) or sequences ([astate]); [sim] relates
      the two runs of a call.  [RtosSched], [RtosSys], [RtosCalls]: total correctness
      of calls ([wp]), the invariant of the scheduler ([sinv]), and that each call
      keeps it.  [RtosRun]: runs of calls and what time does.  [RtosFrame]: what calls
      leave alone.  [RtosQueue]: queue.c and its ring of bytes.  [RtosQueueRun]: the
      loops of blocking calls, cut where interrupts and other tasks can come in, and
      the system they run in.  [RtosQueueOk], [RtosQueueThm]: its invariant ([qinv])
      and the theorems about it.  [RtosLibc]: Demo/nostdlib.c.  [RtosEcho]: the
      application of the demo, Demo/receive.c and Demo/print.c, over such queues.

    Inside a file, definitions carry the names of the C functions they
    translate.  A function whose body sleeps or releases a lock in the middle is
    split there, and an executable [step : state → event → option state] runs the
    pieces; an event names the thread that moves and what the calls it makes
    outside the source return (allocation, copies, pthread statuses, answers of a
    device).  A result [None] of [step] is an event that cannot happen in that
    state; where it could also be an undefined access, the theorems say that the
    step exists.

    ** What the theorems show

    - FreeRTOS: every call that meets the conditions in [legal] (mostly the assertions
      of the code) runs to its end on the linked rings and keeps every task in one list
      ([rtos_kernel_safe]); the
      running task is a most urgent one ([rtos_highest_runs]); delays, periods, ticks
      of a suspended scheduler and time outs are exact over overflows of the clock
      ([rtos_delay_exact], [rtos_period_exact], [rtos_suspended_ticks],
      [rtos_timeout_exact]).  heap_4.c is first fit over a tiling of its array, whose
      blocks never overlap and join again ([heap4_refines], [heap4_safe],
      [heap4_reclaims]).  With tasks anywhere inside their queue calls the system stays
      safe ([queue_system_safe], [queue_type]) and queues are bounded sequences
      ([queue_delivers]), whatever [permitted] events come; in [fair] runs, which leave
      out three things that the code does not handle, no wake-up is lost
      ([queue_no_lost_wakeup]); calls that do
      not wait give the right answer ([queue_poll]), and a new queue lies in its block
      ([queue_create_fits]).  The demo echoes the lines that the keys struck
      give as long as its three line buffers are enough ([echo_prints], [echo_safe]);
      its memcpy is memmove except for the last byte of the address space
      ([memcpy_moves], [memcpy_last_byte]).
    - Queues: the globalfifo buffer (given a memcpy that moves overlapping bytes down,
      [fifo_order], [fifo_order_needs_down]), the linked lists of the work
      queue ([workq_fifo]) and of the terminal server ([server_fifo]), the ring of the
      producer ([produce_consume]), the pipeline ([pipe_order]) and the bulk-in buffer
      of the USB driver ([usb_read_stream]) refine a sequence: what went in is what
      came out followed by what is stored.
    - Other refinements: the doubly linked rings of FreeRTOS are sequences with a
      sorted insertion and a fair walk ([rtos_list_refines], [rtos_round_robin]), the
      array of susp.c is the set of suspended threads up
      to the first call that leaves it ([susp_set]), the sequence number server writes
      replies that give every number once ([seqnum_unique]), the block-wise line reader the one that reads byte by
      byte ([read_line_buf_equiv]), and the seconds counter the time ([second_counts]).
    - Counters and exclusion: the counts of the rwlock ([rwl_exclusion]), the
      barrier ([barrier_rounds]), the USB semaphore ([usb_write_limit]) and the
      reference count of the USB device ([usb_lifetime]) are what they stand for; a
      thread of backoff.c holds the mutexes before its position ([backoff_ownership]).
    - Wake-ups and progress: [fifo_reader_wakeup], [fifo_writer_wakeup],
      [fifo_progress], [rwl_no_lost_wakeup], [workq_rundown], [crew_progress],
      [server_progress], [backoff_progress], [alarm_cond_timely], [minivosc_period]; the
      pipeline comes to rest after a bounded number of steps ([pipe_terminates]).
    - Results: the crew examines every file once ([crew_complete]), insertion
      through a pointer to a link is sorted insertion ([alarm_insert_sorted]), the
      sound card's position is that of an ideal clock ([minivosc_position]),
      reads return what was written ([globalmem_write_read], [vmem_write_read],
      [vmem_bio_roundtrip], [writen_readn]), the barrier program prints one result
      ([barrier_main_result]), a frame arrives as a function of the packet, apart from the
      header checksum of short frames ([snull_deliver], [snull_stale_checksum]), text stands for the number it says ([getInt_decimal],
      [print_getInt], [seqnum_dialogue]).
    - Bounds: [globalmem_run_safe], [globalmem_write_frame],
      [globalmem_llseek_range], [vmem_transfer_bounds], [minivosc_marks],
      [pci_mem_test], [snull_run], [susp_main], [susp_out_of_bounds], [server_overrun]
      say which accesses stay inside a buffer, and where the code lets one out.
    - Set-up and tear-down: [globalmem_init_exit], [multi_init_exit],
      [globalfifo_init_exit], [vmem_load_unload], [rwl_init_destroy],
      [pci_probe_remove] say what is left after failures and after unloading.
    - Where the code does less than it means to, a lemma has the run that shows
      it ([fifo_clear_strands_writer], [rwl_cancel_strands_writer], [rwl_destroy_race],
      [alarm_cond_zero],
      [barrier_missed_release], [workq_add_without_signal], [crew_opendir_hangs],
      [usb_read_after_free], [minivosc_wrap_overruns], [pci_mem_test_wraps],
      [pipe_overfeed_hangs], [server_create_race], [susp_continue_lost],
      [barrier_main_print_race], [snull_leak], [second_release_race],
      [readLineBuf_interrupted], [fifo_repeats], [rtos_resume_notify_clash],
      [queue_lock_overflow], [queue_size_overflow], [queue_reset_wakes_one],
      [echo_overwritten] and others).

    ** Fuel and bounds

    Recursion is structural except for loops of the code that are not: the retry
    of skel_read runs on two rounds ([read_retry_total]), link training on eleven
    attempts of at most fifty polls ([retrain_gen2_total]), the server of the
    work queue on one round between two waits ([server_top_total]), the walk
    along a linked list on the size of the heap ([insert_walk_spec]), the alarm
    thread on one round per element of its list ([empty_loop_inv]), and the silence loop
    of minivosc on three rounds (it is never entered, [minivosc_marks]).  The scans of
    susp.c run on one round per element and one behind the last ([scan_fuel]), readn and
    writen on one per byte and event ([io_fuel]), the search of vListInsert on the number
    of items in memory ([il_size]), the lists of heap_4.c on the size of its array
    ([fuel_size]), the loops of the scheduler over due and pending tasks on the number
    of tasks and one, the loop of prvUnlockQueue on the count of the lock, strcpy of the demo on the
    length of the string ([strcpy_copies]), the line readers on one per byte and
    event of what is left to read; their theorems say that this is enough.  Integers keep their width
    where the code can overflow; theorems that need a range say so.

    ** Not modelled

    Text output and logging; scheduling and memory ordering below the level of
    locks; the contents of USB write transfers; the COPYALG variants of minivosc,
    which no build enables; the lengths of the path buffers of the crew.  Programs that only
    demonstrate one interface, the vendored projects of the repository, and code
    in other languages are left out, as are the hooks of snull that only call the
    Ethernet default, and the set-up of sockets and FIFOs in the sequence number
    programs.
    The System V semaphore protocols of TLPI (binary_sems.c, event_flags.c) and its
    region locks, and the drivers of the rwlock and workq test programs, are left out.
    Of FreeRTOS, the parts that the demo does not configure or link are not there:
    mutexes and priority inheritance, queue sets, event groups, software timers,
    co-routines, trace and statistics, the other heaps; nor are the context switch in
    assembler, stacks and the device drivers.  vTaskSuspendAll and xTaskResumeAll around
    an allocation are those of the scheduler and are not repeated in the heaps. *)

From stdpp Require Export base list gmap sets.
From Stdlib Require Export ZArith Lia.

#[global] Open Scope Z_scope.

Declare Scope c_scope.
Delimit Scope c_scope with C.

Create Rewrite HintDb cint.
Create Rewrite HintDb buf.

(** ** C integers

    A w-bit unsigned value is a [Z] in [0, 2^w); assigning to an object of
    that type wraps.  Signed values are reduced to [-2^(w-1), 2^(w-1)). *)

Definition uwrap (w x : Z) : Z := x mod 2 ^ w.
Definition swrap (w x : Z) : Z := (x + 2 ^ (w - 1)) mod 2 ^ w - 2 ^ (w - 1).

Notation "'u8' x" := (uwrap 8 x) (at level 10, x at level 9) : c_scope.
Notation "'u32' x" := (uwrap 32 x) (at level 10, x at level 9) : c_scope.
Notation "'u64' x" := (uwrap 64 x) (at level 10, x at level 9) : c_scope.
Notation "'s32' x" := (swrap 32 x) (at level 10, x at level 9) : c_scope.
Notation "'s64' x" := (swrap 64 x) (at level 10, x at level 9) : c_scope.
#[global] Open Scope c_scope.

Definition fits_u (w x : Z) : Prop := 0 ≤ x < 2 ^ w.
Definition fits_s (w x : Z) : Prop := - 2 ^ (w - 1) ≤ x < 2 ^ (w - 1).

Lemma uwrap_id w x : fits_u w x → uwrap w x = x.
Proof. apply Z.mod_small. Qed.

Lemma uwrap_bound w x : 0 ≤ w → fits_u w (uwrap w x).
Proof. intros. apply Z.mod_pos_bound. by apply Z.pow_pos_nonneg. Qed.

Lemma swrap_id w x : 0 < w → fits_s w x → swrap w x = x.
Proof.
  intros Hw [??]. unfold swrap.
  assert (2 ^ w = 2 * 2 ^ (w - 1)) as Hp.
  { rewrite <- Z.pow_succ_r by lia. f_equal. lia. }
  rewrite Z.mod_small; lia.
Qed.

Lemma swrap_bound w x : 0 < w → fits_s w (swrap w x).
Proof.
  intros Hw. unfold swrap, fits_s.
  assert (2 ^ w = 2 * 2 ^ (w - 1)) as Hp.
  { rewrite <- Z.pow_succ_r by lia. f_equal. lia. }
  pose proof (Z.mod_pos_bound (x + 2 ^ (w - 1)) (2 ^ w) ltac:(apply Z.pow_pos_nonneg; lia)). lia.
Qed.

#[export] Hint Rewrite uwrap_id using (unfold fits_u; lia) : cint.
#[export] Hint Rewrite swrap_id using (unfold fits_s; lia) : cint.

(** ** errno values used by the sources (asm-generic/errno.h) *)

Definition ENOENT : Z := 2.
Definition EIO : Z := 5.
Definition EAGAIN : Z := 11.
Definition ENOMEM : Z := 12.
Definition EFAULT : Z := 14.
Definition EBUSY : Z := 16.
Definition ENODEV : Z := 19.
Definition EINVAL : Z := 22.
Definition EPIPE : Z := 32.
Definition ECONNRESET : Z := 104.
Definition ESHUTDOWN : Z := 108.
Definition ETIMEDOUT : Z := 110.
Definition EINTR : Z := 4.
Definition ERESTARTSYS : Z := 512.

(** ** Tactics *)

(** Rewrite boolean comparisons on [Z] in hypotheses to propositions. *)
Ltac zbool :=
  repeat match goal with
    | H : (_ && _)%bool = true |- _ => apply andb_true_iff in H as [??]
    | H : (_ || _)%bool = false |- _ => apply orb_false_iff in H as [??]
    | H : negb _ = true |- _ => apply negb_true_iff in H
    | H : negb _ = false |- _ => apply negb_false_iff in H
    | H : (_ =? _) = true |- _ => apply Z.eqb_eq in H
    | H : (_ =? _) = false |- _ => apply Z.eqb_neq in H
    | H : (_ <? _) = true |- _ => apply Z.ltb_lt in H
    | H : (_ <? _) = false |- _ => apply Z.ltb_ge in H
    | H : (_ <=? _) = true |- _ => apply Z.leb_le in H
    | H : (_ <=? _) = false |- _ => apply Z.leb_gt in H
    end.

Ltac cases := repeat (case_match; simplify_eq/=); zbool.

(** ** Byte buffers

    [load] and [store] are the C accesses [memcpy(dst, buf + off, n)] and
    [memcpy(buf + off, bs, |bs|)]; [None] is an access outside the buffer,
    undefined behaviour in C. *)

Definition zlen {A} (l : list A) : Z := Z.of_nat (length l).

Definition slice {A} (off n : Z) (l : list A) : list A :=
  take (Z.to_nat n) (drop (Z.to_nat off) l).

Definition splice {A} (off : Z) (bs l : list A) : list A :=
  take (Z.to_nat off) l ++ bs ++ drop (Z.to_nat off + length bs) l.

Definition load {A} (off n : Z) (l : list A) : option (list A) :=
  if (0 <=? off) && (0 <=? n) && (off + n <=? zlen l)
  then Some (slice off n l) else None.

Definition store {A} (off : Z) (bs l : list A) : option (list A) :=
  if (0 <=? off) && (off + zlen bs <=? zlen l)
  then Some (splice off bs l) else None.

Definition zeros (n : Z) : list Z := replicate (Z.to_nat n) 0.

Section buffers.
Context {A : Type}.
Implicit Types (l bs : list A) (off n : Z).

Lemma load_in_range l off n :
  0 ≤ off → 0 ≤ n → off + n ≤ zlen l → load off n l = Some (slice off n l).
Proof. intros. unfold load. rewrite !(proj2 (Z.leb_le _ _)) by lia. done. Qed.

Lemma store_in_range l off bs :
  0 ≤ off → off + zlen bs ≤ zlen l → store off bs l = Some (splice off bs l).
Proof. intros. unfold store. rewrite !(proj2 (Z.leb_le _ _)) by lia. done. Qed.

Lemma load_Some_inv l off n bs :
  load off n l = Some bs → 0 ≤ off ∧ 0 ≤ n ∧ off + n ≤ zlen l ∧ bs = slice off n l.
Proof. unfold load. intros. cases. split_and!; first [lia|done]. Qed.

Lemma store_Some_inv l off bs l' :
  store off bs l = Some l' → 0 ≤ off ∧ off + zlen bs ≤ zlen l ∧ l' = splice off bs l.
Proof. unfold store. intros. cases. split_and!; first [lia|done]. Qed.

Lemma slice_length l off n :
  0 ≤ off → 0 ≤ n → off + n ≤ zlen l → zlen (slice off n l) = n.
Proof. unfold slice, zlen. intros. rewrite length_take, length_drop. lia. Qed.

Lemma splice_length l off bs :
  0 ≤ off → off + zlen bs ≤ zlen l → zlen (splice off bs l) = zlen l.
Proof.
  unfold splice, zlen. intros. rewrite !length_app, length_take, length_drop. lia.
Qed.

Lemma slice_splice_same l off bs :
  0 ≤ off → off + zlen bs ≤ zlen l → slice off (zlen bs) (splice off bs l) = bs.
Proof.
  unfold slice, splice, zlen. intros.
  rewrite drop_app_length' by (rewrite length_take; lia).
  rewrite Nat2Z.id. by apply take_app_length'.
Qed.

Lemma slice_splice_before l off bs a n :
  0 ≤ a → 0 ≤ n → a + n ≤ off → off + zlen bs ≤ zlen l →
  slice a n (splice off bs l) = slice a n l.
Proof.
  unfold slice, splice, zlen. intros.
  rewrite drop_app_le by (rewrite length_take; lia).
  rewrite take_app_le by (rewrite length_drop, length_take; lia).
  rewrite skipn_firstn_comm, take_take.
  f_equal. lia.
Qed.

Lemma slice_splice_after l off bs a n :
  0 ≤ off → 0 ≤ n → off + zlen bs ≤ a → off + zlen bs ≤ zlen l →
  slice a n (splice off bs l) = slice a n l.
Proof.
  unfold slice, splice, zlen. intros. f_equal.
  rewrite app_assoc, drop_app_ge by (rewrite length_app, length_take; lia).
  rewrite drop_drop. f_equal. rewrite length_app, length_take. lia.
Qed.

Lemma slice_all l n : n = zlen l → slice 0 n l = l.
Proof. unfold slice, zlen. intros ->. rewrite Nat2Z.id, drop_0. by apply take_ge. Qed.

Lemma splice_full l bs : zlen bs = zlen l → splice 0 bs l = bs.
Proof.
  unfold splice, zlen. intros. rewrite take_0, app_nil_l, drop_ge, app_nil_r; [done|lia].
Qed.

Lemma splice_app l off a b :
  0 ≤ off → off + zlen a + zlen b ≤ zlen l →
  splice (off + zlen a) b (splice off a l) = splice off (a ++ b) l.
Proof.
  unfold splice, zlen. intros. rewrite Z2Nat.inj_add, Nat2Z.id by lia.
  assert (length (take (Z.to_nat off) l) = Z.to_nat off) as Hl by (rewrite length_take; lia).
  rewrite <- Hl at 1. rewrite take_app_add, take_app_length, <- !app_assoc. f_equal. f_equal. f_equal.
  rewrite !app_assoc, drop_app_ge by (rewrite length_app, Hl; lia).
  rewrite drop_drop. f_equal. rewrite !length_app, Hl. lia.
Qed.

Lemma slice_app l off n m :
  0 ≤ off → 0 ≤ n → 0 ≤ m → off + n + m ≤ zlen l →
  slice off (n + m) l = slice off n l ++ slice (off + n) m l.
Proof.
  unfold slice, zlen. intros. rewrite !Z2Nat.inj_add by lia.
  rewrite <- (take_drop (Z.to_nat n) (take (_ + _) _)), take_take, Nat.min_l by lia.
  f_equal. rewrite skipn_firstn_comm, drop_drop. f_equal. lia.
Qed.

End buffers.

#[export] Hint Rewrite @splice_length using (unfold zlen in *; lia) : buf.
#[export] Hint Rewrite @slice_length using (unfold zlen in *; lia) : buf.

Lemma zlen_zeros n : 0 ≤ n → zlen (zeros n) = n.
Proof. unfold zlen, zeros. rewrite length_replicate. lia. Qed.

Lemma zlen_app {A} (l k : list A) : zlen (l ++ k) = zlen l + zlen k.
Proof. unfold zlen. rewrite length_app. lia. Qed.

Lemma zlen_nonneg {A} (l : list A) : 0 ≤ zlen l.
Proof. unfold zlen. lia. Qed.

Lemma zlen_take {A} n (l : list A) :
  0 ≤ n ≤ zlen l → zlen (take (Z.to_nat n) l) = n.
Proof. unfold zlen. intros. rewrite length_take. lia. Qed.

(** ** Runs of an executable step function

    A component with several threads of control is an executable function
    [step : S → E → option S]; an event names the thread that moves and the
    outcome of the external calls it makes.  [reachable] closes the initial
    states under it, and [invariant_reachable] is the induction every
    safety theorem uses. *)

Section reachability.
Context {St E : Type} (init : St → Prop) (step : St → E → option St).

Inductive reachable : St → Prop :=
| reach_init s : init s → reachable s
| reach_step s e s' : reachable s → step s e = Some s' → reachable s'.

Fixpoint run (s : St) (es : list E) : option St :=
  match es with
  | [] => Some s
  | e :: es => match step s e with Some s' => run s' es | None => None end
  end.

Lemma invariant_reachable (I : St → Prop) :
  (∀ s, init s → I s) →
  (∀ s e s', I s → step s e = Some s' → I s') →
  ∀ s, reachable s → I s.
Proof. induction 3; eauto. Qed.

Lemma run_reachable es : ∀ s s',
  reachable s → run s es = Some s' → reachable s'.
Proof.
  induction es as [|e es IH]; cbn; intros s s' Hs Hr; simplify_eq; [done|].
  destruct (step s e) eqn:?; [|done]. eauto using reach_step.
Qed.

End reachability.
