(* ===== verification/Kernel.v ===== *)
(** * Kernel services the drivers call

    The drivers under [src/] call kernel functions whose code is not in the
    repository.  Each group of such functions is a type class: its operations
    are parameters of every driver definition, its laws (a second class)
    state the documented behaviour the drivers rely on.  Drivers are verified
    against the classes; the instances at the end of the file show that the
    laws can hold and are what the witnesses compute with. *)

From S2P Require Import Prelude.

(** ** Copies between kernel and user space

    User memory is the list of bytes starting at the user pointer. Both calls
    return the number of bytes that could not be copied. *)

Class UserCopy := {
  copy_to_user : list Z → list Z → Z * list Z;
    (** user memory, source bytes ⟶ bytes left, user memory *)
  copy_from_user : list Z → list Z → Z → Z * list Z
    (** old destination bytes, user memory, count ⟶ bytes left, destination bytes *)
}.

Class UserCopyOk `{UserCopy} : Prop := {
  copy_to_user_left ubuf src : 0 ≤ (copy_to_user ubuf src).1 ≤ zlen src;
  copy_to_user_done ubuf src :
    (copy_to_user ubuf src).1 = 0 →
    (copy_to_user ubuf src).2 = src ++ drop (length src) ubuf;
  copy_from_user_left dst ubuf n :
    zlen dst = n → 0 ≤ (copy_from_user dst ubuf n).1 ≤ n;
  copy_from_user_length dst ubuf n :
    zlen dst = n → zlen (copy_from_user dst ubuf n).2 = n;
  copy_from_user_done dst ubuf n :
    zlen dst = n → (copy_from_user dst ubuf n).1 = 0 →
    (copy_from_user dst ubuf n).2 = take (Z.to_nat n) ubuf ∧ n ≤ zlen ubuf
}.

(** ** memcpy within one buffer

    [memcpy n dst src m] is the buffer [m] after [memcpy(m + dst, m + src, n)].
    What it does is documented for blocks that lie inside the buffer and do not
    overlap; on overlapping blocks the result is whatever the copy order of the
    implementation makes of it. *)

Class Memcpy := memcpy : nat → nat → nat → list Z → list Z.

Definition moved (n dst src : nat) (m : list Z) : list Z :=
  take dst m ++ take n (drop src m) ++ drop (dst + n) m.

Class MemcpyOk `{Memcpy} : Prop :=
  memcpy_disjoint n dst src m :
    (dst + n ≤ length m)%nat → (src + n ≤ length m)%nat →
    (dst + n ≤ src)%nat ∨ (src + n ≤ dst)%nat →
    memcpy n dst src m = moved n dst src m.

(** A stronger promise, which the documentation of memcpy does not make: a
    block that moves towards lower addresses arrives whole even if it overlaps
    its destination. *)
Definition memcpy_moves_down `{Memcpy} : Prop :=
  ∀ n dst src m, (dst ≤ src)%nat → (src + n ≤ length m)%nat →
    memcpy n dst src m = moved n dst src m.

(** ** Character-device registration and allocation

    What the kernel holds on behalf of drivers: the registered device-number
    regions with their sizes, the live allocations with their sizes, and the
    addresses of the cdevs that were added. *)

Record kobs := Kobs {
  regions : gmap Z Z;
  heap : gmap Z Z;
  cdevs : gset Z
}.

Definition with_regions (f : gmap Z Z → gmap Z Z) (o : kobs) : kobs :=
  Kobs (f (regions o)) (heap o) (cdevs o).
Definition with_heap (f : gmap Z Z → gmap Z Z) (o : kobs) : kobs :=
  Kobs (regions o) (f (heap o)) (cdevs o).
Definition with_cdevs (f : gset Z → gset Z) (o : kobs) : kobs :=
  Kobs (regions o) (heap o) (f (cdevs o)).

(** Every registered cdev lies in a live allocation. *)
Definition kobs_wf (o : kobs) : Prop :=
  ∀ c, c ∈ cdevs o → ∃ p n, heap o !! p = Some n ∧ p ≤ c < p + n.

Class ChrdevKernel (W : Type) := {
  MKDEV : Z → Z → Z;
  MAJOR : Z → Z;
  register_chrdev_region : Z → Z → W → Z * W;
  alloc_chrdev_region : Z → Z → Z → W → Z * Z * W;
    (** old value of the out-parameter, first minor, count ⟶ status, new value *)
  unregister_chrdev_region : Z → Z → W → W;
  kzalloc : Z → W → option Z * W;
  kfree : Z → W → W;
  cdev_add : Z → Z → Z → W → Z * W;
  cdev_del : Z → W → W
}.

Class ChrdevKernelOk W `{ChrdevKernel W} := {
  observe : W → kobs;
  register_ok d n w r w' :
    register_chrdev_region d n w = (r, w') →
    (r = 0 ∧ regions (observe w) !! d = None ∧
       observe w' = with_regions <[d := n]> (observe w)) ∨
    (r < 0 ∧ observe w' = observe w);
  alloc_ok d base n w r d' w' :
    alloc_chrdev_region d base n w = (r, d', w') →
    (r = 0 ∧ MKDEV (MAJOR d') base = d' ∧ regions (observe w) !! d' = None ∧
       observe w' = with_regions <[d' := n]> (observe w)) ∨
    (r < 0 ∧ observe w' = observe w);
  unregister_ok d n w :
    regions (observe w) !! d = Some n →
    observe (unregister_chrdev_region d n w) = with_regions (delete d) (observe w);
  kzalloc_ok n w r w' :
    kzalloc n w = (r, w') →
    match r with
    | Some p =>
        heap (observe w) !! p = None ∧
        (∀ q m, heap (observe w) !! q = Some m → p + n ≤ q ∨ q + m ≤ p) ∧
        observe w' = with_heap <[p := n]> (observe w)
    | None => observe w' = observe w
    end;
  kfree_ok p w : observe (kfree p w) = with_heap (delete p) (observe w);
  cdev_add_ok c d n w r w' :
    cdev_add c d n w = (r, w') →
    (r = 0 ∧ observe w' = with_cdevs ({[c]} ∪.) (observe w)) ∨
    (r < 0 ∧ observe w' = observe w);
  cdev_del_ok c w : observe (cdev_del c w) = with_cdevs (.∖ {[c]}) (observe w)
}.

Lemma with_regions_undo o d n :
  regions o !! d = None →
  with_regions (delete d) (with_regions <[d := n]> o) = o.
Proof. intros. destruct o; unfold with_regions; cbn. by rewrite delete_insert_id. Qed.

(** A block that was just allocated holds no registered cdev. *)
Lemma fresh_block_no_cdev o p n c :
  kobs_wf o → (∀ q m, heap o !! q = Some m → p + n ≤ q ∨ q + m ≤ p) →
  p ≤ c < p + n → c ∉ cdevs o.
Proof. intros Hwf Hdis Hc Hin. destruct (Hwf _ Hin) as (q&m&Hq&?). destruct (Hdis _ _ Hq); lia. Qed.

(** The first block of every character driver's init function: register the
    configured major number, or have one assigned when it is 0.  Returns the
    status, the device number and the major number in use. *)
Definition claim_devno {W} `{ChrdevKernel W} (major count : Z) (w : W) : Z * Z * Z * W :=
  let devno := MKDEV major 0 in
  if negb (major =? 0) then
    let '(ret, w) := register_chrdev_region devno count w in
    (ret, devno, major, w)
  else
    let '(ret, devno, w) := alloc_chrdev_region devno 0 count w in
    (ret, devno, MAJOR devno, w).

Lemma claim_devno_ok {W} `{ChrdevKernelOk W} major count (w : W) ret devno major' w' :
  claim_devno major count w = (ret, devno, major', w') →
  (ret = 0 ∧ devno = MKDEV major' 0 ∧ regions (observe w) !! devno = None ∧
     observe w' = with_regions <[devno := count]> (observe w)) ∨
  (ret < 0 ∧ observe w' = observe w).
Proof.
  unfold claim_devno. intros Hc. destruct (negb _).
  - destruct (register_chrdev_region _ _ _) as [r w1] eqn:E. simplify_eq.
    apply register_ok in E. naive_solver.
  - destruct (alloc_chrdev_region _ _ _ _) as [[r d] w1] eqn:E. simplify_eq.
    apply alloc_ok in E. naive_solver.
Qed.

(** Adding cdevs one by one and deleting them all again leaves the kernel's
    set of cdevs as it was, whichever of the additions failed. *)
Fixpoint cdev_del_all {W} `{ChrdevKernel W} (cs : list Z) (w : W) : W :=
  match cs with [] => w | c :: cs => cdev_del_all cs (cdev_del c w) end.

Lemma observe_cdev_del_all {W} `{ChrdevKernelOk W} cs (w : W) :
  observe (cdev_del_all cs w) = with_cdevs (.∖ list_to_set cs) (observe w).
Proof.
  revert w. induction cs as [|c cs IH]; intros w; cbn.
  - destruct (observe w); unfold with_cdevs; cbn. f_equal. set_solver.
  - rewrite IH, cdev_del_ok. unfold with_cdevs; cbn. f_equal. set_solver.
Qed.

(** ** Loading and unloading a driver with one device

    The order of acquisitions and releases that the single-device drivers
    follow; their init and exit functions are instances of it. *)

Definition single_setup {W} `{ChrdevKernel W} (major dev index : Z) (w : W) : W :=
  let '(err, w) := cdev_add dev (MKDEV major index) 1 w in w.

Definition single_init {W} `{ChrdevKernel W} (sz major : Z) (w : W) : Z * Z * option Z * W :=
  let '(ret, devno, major, w) := claim_devno major 1 w in
  if ret <? 0 then (ret, major, None, w) else
  let '(devp, w) := kzalloc sz w in
  match devp with
  | None => (- ENOMEM, major, None, unregister_chrdev_region devno 1 w)
  | Some p => (0, major, Some p, single_setup major p 0 w)
  end.

Definition single_exit {W} `{ChrdevKernel W} (major devp : Z) (w : W) : W :=
  unregister_chrdev_region (MKDEV major 0) 1 (kfree devp (cdev_del devp w)).

(** Undoing region, allocation and cdevs restores the kernel's books. *)
Lemma teardown_obs o d n p sz cs :
  kobs_wf o → regions o !! d = None → heap o !! p = None →
  (∀ q m, heap o !! q = Some m → p + sz ≤ q ∨ q + m ≤ p) →
  (∀ c, c ∈ cs → p ≤ c < p + sz) →
  ∀ o', o' = with_heap <[p := sz]> (with_regions <[d := n]> o) →
  ∀ added, added ⊆ (list_to_set cs : gset Z) →
  with_regions (delete d) (with_heap (delete p)
    (with_cdevs (.∖ list_to_set cs) (with_cdevs (added ∪.) o'))) = o.
Proof.
  intros Hwf Hd Hp Hdis Hcs o' -> added Hadd.
  destruct o as [R H C]; unfold with_regions, with_heap, with_cdevs; cbn in *.
  rewrite !delete_insert_id by done. f_equal. apply set_eq. intros c.
  assert (c ∈ (list_to_set cs : gset Z) → c ∉ C).
  { intros Hc%elem_of_list_to_set. eapply (fresh_block_no_cdev (Kobs R H C)); eauto. }
  set_solver.
Qed.

Lemma single_setup_obs {W} `{ChrdevKernelOk W} major dev index (w : W) :
  ∃ added : gset Z, added ⊆ {[dev]} ∧
    observe (single_setup major dev index w) = with_cdevs (added ∪.) (observe w).
Proof.
  unfold single_setup. destruct (cdev_add _ _ _ _) as [err w'] eqn:E.
  apply cdev_add_ok in E as [[_ ->]|[_ ->]]; [by exists {[dev]}|].
  exists ∅. split; [set_solver|]. destruct (observe w); unfold with_cdevs; cbn.
  f_equal. set_solver.
Qed.

Lemma single_init_exit {W} `{ChrdevKernelOk W} sz major (w w' : W) ret major' devp :
  kobs_wf (observe w) → 0 < sz →
  single_init sz major w = (ret, major', devp, w') →
  (ret < 0 ∧ devp = None ∧ observe w' = observe w) ∨
  (ret = 0 ∧ ∃ p, devp = Some p ∧
     regions (observe w') !! MKDEV major' 0 = Some 1 ∧ heap (observe w') !! p = Some sz ∧
     observe (single_exit major' p w') = observe w).
Proof.
  intros Hwf Hsz Hi. unfold single_init in Hi.
  destruct (claim_devno _ _ _) as [[[r d] m] w1] eqn:Ec. apply claim_devno_ok in Ec.
  destruct Ec as [(->&->&Hfree&Ho1)|[Hneg Ho1]]; cbn in Hi;
    [|rewrite (proj2 (Z.ltb_lt _ _)) in Hi by done; simplify_eq; eauto].
  destruct (kzalloc sz w1) as [q w2] eqn:Ek. apply kzalloc_ok in Ek.
  destruct q as [p|]; simplify_eq.
  - right. destruct Ek as (Hp&Hdis&Ho2). rewrite Ho1 in Hp, Hdis, Ho2. cbn in Hp, Hdis.
    split; [done|]. exists p.
    destruct (single_setup_obs major' p 0 w2) as (added&Hadd&Ho3).
    rewrite Ho3, Ho2. cbn. rewrite !lookup_insert_eq. split_and!; [done..|].
    unfold single_exit. rewrite unregister_ok; rewrite kfree_ok, cdev_del_ok, Ho3, Ho2;
      [|by cbn; rewrite lookup_insert_eq].
    pose proof (teardown_obs (observe w) (MKDEV major' 0) 1 p sz [p] Hwf Hfree Hp Hdis) as Ht.
    etransitivity; [|apply (Ht ltac:(intros c ->%list_elem_of_singleton; lia) _ eq_refl added)];
      [|set_solver].
    unfold with_regions, with_heap, with_cdevs; cbn. f_equal. set_solver.
  - left. split; [unfold ENOMEM; lia|]. split; [done|].
    rewrite unregister_ok; rewrite Ek, Ho1; [by apply with_regions_undo|].
    cbn. by rewrite lookup_insert_eq.
Qed.

(** ** Instances *)

(** User memory whose first [k] bytes are accessible; a copy stops there. *)
Definition copy_upto (k : nat) : UserCopy := {|
  copy_to_user ubuf src :=
    let m := (length src `min` k)%nat in
    (zlen src - Z.of_nat m, take m src ++ drop m ubuf);
  copy_from_user dst ubuf n :=
    let m := ((Z.to_nat n `min` k) `min` length ubuf)%nat in
    (n - Z.of_nat m, take m ubuf ++ drop m dst)
|}.

#[export] Instance copy_upto_ok k : @UserCopyOk (copy_upto k).
Proof.
  split; cbn; unfold zlen; intros.
  - lia.
  - rewrite take_ge by lia. f_equal. f_equal. lia.
  - lia.
  - rewrite length_app, length_take, length_drop. lia.
  - rewrite drop_ge, app_nil_r by lia. split; [f_equal; lia | lia].
Qed.

(** User memory that never faults below 64 KiB. *)
Definition copy_all : UserCopy := copy_upto (Z.to_nat 0x10000).

#[export] Instance copy_all_ok : @UserCopyOk copy_all := copy_upto_ok _.

(** A kernel driven by a script of outcomes: a negative entry makes the next
    fallible call fail with that code. *)
Record ledger := Ledger { l_obs : kobs; l_script : list Z; l_brk : Z }.

Definition next_outcome (w : ledger) : Z * ledger :=
  match l_script w with
  | [] => (0, w)
  | r :: rs => (r, Ledger (l_obs w) rs (l_brk w))
  end.

Definition minorbits : Z := 20.
Definition dyn_dev (base : Z) : Z := Z.shiftl 253 minorbits + base.

#[export] Instance ledger_kernel : ChrdevKernel ledger := {|
  MKDEV ma mi := Z.shiftl ma minorbits + mi;
  MAJOR d := Z.shiftr d minorbits;
  register_chrdev_region d n w :=
    let '(r, w') := next_outcome w in
    if r <? 0 then (r, w')
    else match regions (l_obs w') !! d with
         | Some _ => (- EBUSY, w')
         | None => (0, Ledger (with_regions <[d := n]> (l_obs w')) (l_script w') (l_brk w'))
         end;
  alloc_chrdev_region d base n w :=
    let '(r, w') := next_outcome w in
    let d' := dyn_dev base in
    if r <? 0 then (r, d, w')
    else match regions (l_obs w') !! d' with
         | Some _ => (- EBUSY, d, w')
         | None =>
             if decide (Z.shiftl (Z.shiftr d' minorbits) minorbits + base = d') then
               (0, d', Ledger (with_regions <[d' := n]> (l_obs w')) (l_script w') (l_brk w'))
             else (- EINVAL, d, w')
         end;
  unregister_chrdev_region d n w :=
    Ledger (with_regions (delete d) (l_obs w)) (l_script w) (l_brk w);
  kzalloc n w :=
    let '(r, w') := next_outcome w in
    let p := l_brk w' in
    if r <? 0 then (None, w')
    else if decide (heap (l_obs w') !! p = None ∧
                    map_Forall (λ q m, p + n ≤ q ∨ q + m ≤ p) (heap (l_obs w')))
    then (Some p, Ledger (with_heap <[p := n]> (l_obs w')) (l_script w') (p + Z.max 1 n))
    else (None, w');
  kfree p w := Ledger (with_heap (delete p) (l_obs w)) (l_script w) (l_brk w);
  cdev_add c d n w :=
    let '(r, w') := next_outcome w in
    if r <? 0 then (r, w')
    else (0, Ledger (with_cdevs ({[c]} ∪.) (l_obs w')) (l_script w') (l_brk w'));
  cdev_del c w := Ledger (with_cdevs (.∖ {[c]}) (l_obs w)) (l_script w) (l_brk w)
|}.

Lemma next_outcome_obs w r w' : next_outcome w = (r, w') → l_obs w' = l_obs w.
Proof. unfold next_outcome. intros. by cases. Qed.

#[export, refine] Instance ledger_kernel_ok : ChrdevKernelOk ledger := {| observe := l_obs |}.
Proof.
  - intros d n w r w1. cbn. destruct (next_outcome w) as [o w2] eqn:Ho.
    apply next_outcome_obs in Ho as <-. intros. repeat case_match; simplify_eq; zbool;
      first [ by left; split_and!; eauto | right; split; [unfold EBUSY; lia|done] ].
  - intros d base n w r d1 w1. cbn -[dyn_dev Z.shiftl Z.shiftr].
    destruct (next_outcome w) as [o w2] eqn:Ho. apply next_outcome_obs in Ho as <-.
    generalize (dyn_dev base). intros d0 ?. repeat case_match; simplify_eq; zbool;
      first [ by left; split_and!; eauto
            | right; split; [unfold EBUSY, EINVAL; lia|done] ].
  - done.
  - intros n w r w1. cbn. destruct (next_outcome w) as [o w2] eqn:Ho.
    apply next_outcome_obs in Ho as <-. intros. repeat case_match; simplify_eq; try done.
    destruct_and!. split_and!; eauto.
  - done.
  - intros c d n w r w1. cbn. destruct (next_outcome w) as [o w2] eqn:Ho.
    apply next_outcome_obs in Ho as <-. intros. case_match; simplify_eq; zbool;
      [right; split; [lia|done] | by left].
  - done.
Defined.

(** *** memcpy byte by byte, from either end *)

Definition byte_copy (dst src : nat) (m : list Z) : list Z :=
  match m !! src with Some x => <[dst := x]> m | None => m end.

Fixpoint copy_ascending (n dst src : nat) (m : list Z) : list Z :=
  match n with
  | O => m
  | S n => copy_ascending n (S dst) (S src) (byte_copy dst src m)
  end.

Fixpoint copy_descending (n dst src : nat) (m : list Z) : list Z :=
  match n with
  | O => m
  | S n => copy_descending n dst src (byte_copy (dst + n) (src + n) m)
  end.

Definition memcpy_up : Memcpy := copy_ascending.
Definition memcpy_down : Memcpy := copy_descending.

Lemma copy_ascending_moved n dst src m :
  (dst ≤ src)%nat ∨ (src + n ≤ dst)%nat →
  (dst + n ≤ length m)%nat → (src + n ≤ length m)%nat →
  copy_ascending n dst src m = moved n dst src m.
Proof.
  revert dst src m. induction n as [|n IH]; intros dst src m Hds Hd Hs; cbn [copy_ascending].
  - unfold moved. by rewrite Nat.add_0_r, take_0, app_nil_l, take_drop.
  - unfold byte_copy. destruct (lookup_lt_is_Some_2 m src) as [x Hx]; [lia|]. rewrite Hx.
    rewrite IH by (rewrite ?length_insert; lia). unfold moved.
    assert (dst < length m)%nat as Hdm by lia.
    rewrite (take_S_r _ _ x) by (by apply list_lookup_insert_eq).
    rewrite take_insert_ge, <- app_assoc by lia. f_equal.
    rewrite (drop_S m x src), firstn_cons, <- app_comm_cons by done. cbn [app]. f_equal.
    rewrite (drop_insert_lt m (S dst + n)), Nat.add_succ_r by lia. f_equal.
    destruct Hds; [by rewrite drop_insert_lt by lia|].
    rewrite drop_insert_ge by lia. by rewrite take_insert_ge by lia.
Qed.

Lemma copy_descending_moved n dst src m :
  (src ≤ dst)%nat ∨ (dst + n ≤ src)%nat →
  (dst + n ≤ length m)%nat → (src + n ≤ length m)%nat →
  copy_descending n dst src m = moved n dst src m.
Proof.
  revert m. induction n as [|n IH]; intros m Hds Hd Hs; cbn [copy_descending].
  - unfold moved. by rewrite Nat.add_0_r, take_0, app_nil_l, take_drop.
  - unfold byte_copy. destruct (lookup_lt_is_Some_2 m (src + n)) as [x Hx]; [lia|]. rewrite Hx.
    rewrite IH by (rewrite ?length_insert; lia). unfold moved.
    rewrite take_insert_ge by lia. f_equal.
    rewrite (take_S_r _ _ x) by (by rewrite lookup_drop). rewrite <- app_assoc.
    f_equal.
    + destruct (decide (dst + n < src)%nat); [by rewrite drop_insert_lt by lia|].
      rewrite drop_insert_ge by lia. by rewrite take_insert_ge by lia.
    + rewrite drop_insert_ge by lia. rewrite Nat.sub_diag.
      destruct (lookup_lt_is_Some_2 m (dst + n)) as [y Hy]; [lia|].
      rewrite (drop_S m y) by done. cbn. by rewrite Nat.add_succ_r.
Qed.

#[export] Instance memcpy_up_ok : @MemcpyOk memcpy_up.
Proof. intros n dst src m Hd Hs Hne. apply copy_ascending_moved; lia. Qed.

#[export] Instance memcpy_down_ok : @MemcpyOk memcpy_down.
Proof. intros n dst src m Hd Hs Hne. apply copy_descending_moved; lia. Qed.

Lemma memcpy_up_moves_down : @memcpy_moves_down memcpy_up.
Proof. intros n dst src m Hd Hs. apply copy_ascending_moved; lia. Qed.
