(* ===== verification/Globalmem.v ===== *)
(** * globalmem: a RAM-backed character device

    [Module Globalmem] models ldd-k4/kernel/drivers/globalmem/ch7/globalmem.c
    (the version with a mutex); [Module MultiGlobalmem] models what
    ch6/multi_globalmem.c changes: ten devices, selected by the inode at open.
    A file operation runs with the device mutex held across every access to
    [mem], so each is one transition of the device.  [None] is an access
    outside [mem]. *)

From S2P Require Import Prelude Kernel.

Module Globalmem.

Definition GLOBALMEM_SIZE : Z := 0x1000.
Definition MEM_CLEAR : Z := 0x1.
Definition GLOBALMEM_MAJOR : Z := 230.

Record globalmem_dev := Dev { mem : list Z }.

(** The part of [struct file] the driver uses. *)
Record file := File { f_pos : Z; private_data : nat }.

Definition globalmem_open (devp : nat) (filp : file) : Z * file :=
  (0, File (f_pos filp) devp).

Definition globalmem_release (filp : file) : Z * file := (0, filp).

Definition globalmem_ioctl (dev : globalmem_dev) (cmd : Z)
    : option (Z * globalmem_dev) :=
  if cmd =? MEM_CLEAR then
    m ← store 0 (zeros GLOBALMEM_SIZE) (mem dev);
    Some (0, Dev m)
  else Some (- EINVAL, dev).

(** The transfer count both handlers compute: [size_t] narrowed to
    [unsigned int], then cut at the end of the buffer. *)
Definition clamp_count (p size : Z) : Z :=
  let count := u32 size in
  if u64 (GLOBALMEM_SIZE - p) <? count then u32 (u64 (GLOBALMEM_SIZE - p)) else count.

Definition globalmem_read `{UserCopy} (dev : globalmem_dev) (buf : list Z)
    (size ppos : Z) : option (Z * list Z * Z) :=
  let p := u64 ppos in
  if GLOBALMEM_SIZE <=? p then Some (0, buf, ppos) else
  let count := clamp_count p size in
  src ← load p count (mem dev);
  let '(nleft, buf') := copy_to_user buf src in
  if negb (nleft =? 0) then Some (- EFAULT, buf', ppos)
  else Some (s32 count, buf', s64 (ppos + count)).

Definition globalmem_write `{UserCopy} (dev : globalmem_dev) (buf : list Z)
    (size ppos : Z) : option (Z * globalmem_dev * Z) :=
  let p := u64 ppos in
  if GLOBALMEM_SIZE <=? p then Some (0, dev, ppos) else
  let count := clamp_count p size in
  old ← load p count (mem dev);
  let '(nleft, new) := copy_from_user old buf count in
  m ← store p new (mem dev);
  if negb (nleft =? 0) then Some (- EFAULT, Dev m, ppos)
  else Some (s32 count, Dev m, s64 (ppos + count)).

Definition globalmem_llseek (filp : file) (offset orig : Z) : Z * file :=
  if orig =? 0 then
    if offset <? 0 then (- EINVAL, filp)
    else if GLOBALMEM_SIZE <? u32 offset then (- EINVAL, filp)
    else let filp := File (u32 offset) (private_data filp) in (f_pos filp, filp)
  else if orig =? 1 then
    if GLOBALMEM_SIZE <? s64 (f_pos filp + offset) then (- EINVAL, filp)
    else if s64 (f_pos filp + offset) <? 0 then (- EINVAL, filp)
    else let filp := File (s64 (f_pos filp + offset)) (private_data filp) in
         (f_pos filp, filp)
  else (- EINVAL, filp).

(** One call of the [globalmem_fops] table on an open file.  read and write
    get the file position through [ppos] and the VFS stores it back. *)
Inductive fop :=
| FRead (buf : list Z) (size : Z)
| FWrite (buf : list Z) (size : Z)
| FLlseek (offset orig : Z)
| FIoctl (cmd : Z).

Definition globalmem_fops `{UserCopy} (st : globalmem_dev * file) (op : fop)
    : option (Z * list Z * (globalmem_dev * file)) :=
  let '(dev, filp) := st in
  match op with
  | FRead buf size =>
      '(r, buf', pos) ← globalmem_read dev buf size (f_pos filp);
      Some (r, buf', (dev, File pos (private_data filp)))
  | FWrite buf size =>
      '(r, dev', pos) ← globalmem_write dev buf size (f_pos filp);
      Some (r, [], (dev', File pos (private_data filp)))
  | FLlseek offset orig =>
      let '(r, filp') := globalmem_llseek filp offset orig in Some (r, [], (dev, filp'))
  | FIoctl cmd =>
      '(r, dev') ← globalmem_ioctl dev cmd; Some (r, [], (dev', filp))
  end.

Fixpoint run_fops `{UserCopy} (st : globalmem_dev * file) (ops : list fop)
    : option (globalmem_dev * file) :=
  match ops with
  | [] => Some st
  | op :: ops => '(_, _, st') ← globalmem_fops st op; run_fops st' ops
  end.

(** ** Module load and unload *)

Section init.
Context {W : Type} `{ChrdevKernel W} (sizeof_globalmem_dev : Z).

Definition globalmem_setup_cdev (globalmem_major dev index : Z) (w : W) : W :=
  let devno := MKDEV globalmem_major index in
  let '(err, w) := cdev_add dev devno 1 w in w.

(** Returns the status, [globalmem_major] and [globalmem_devp]. *)
Definition globalmem_init (globalmem_major : Z) (w : W) : Z * Z * option Z * W :=
  let '(ret, devno, globalmem_major, w) := claim_devno globalmem_major 1 w in
  if ret <? 0 then (ret, globalmem_major, None, w) else
  let '(globalmem_devp, w) := kzalloc sizeof_globalmem_dev w in
  match globalmem_devp with
  | None =>
      let w := unregister_chrdev_region devno 1 w in
      (- ENOMEM, globalmem_major, None, w)
  | Some devp =>
      let w := globalmem_setup_cdev globalmem_major devp 0 w in
      (0, globalmem_major, Some devp, w)
  end.

Definition globalmem_exit (globalmem_major devp : Z) (w : W) : W :=
  let w := cdev_del devp w in
  let w := kfree devp w in
  unregister_chrdev_region (MKDEV globalmem_major 0) 1 w.
End init.

(** ** Well-formed states *)

Definition dev_wf (dev : globalmem_dev) : Prop := zlen (mem dev) = GLOBALMEM_SIZE.
Definition file_wf (filp : file) : Prop := 0 ≤ f_pos filp ≤ GLOBALMEM_SIZE.

Ltac unfold_consts := unfold dev_wf, file_wf, fits_u, fits_s in *; unfold GLOBALMEM_SIZE in *.

Lemma clamp_count_spec p size :
  0 ≤ p < GLOBALMEM_SIZE → clamp_count p size = Z.min (u32 size) (GLOBALMEM_SIZE - p).
Proof.
  unfold clamp_count. unfold_consts. intros.
  rewrite (uwrap_id 64), (uwrap_id 32 (_ - _)) by (unfold fits_u; lia).
  cases; lia.
Qed.

Lemma clamp_count_bounds p size :
  0 ≤ p < GLOBALMEM_SIZE → 0 ≤ clamp_count p size ∧ p + clamp_count p size ≤ GLOBALMEM_SIZE.
Proof.
  intros Hp. rewrite clamp_count_spec by done.
  pose proof (uwrap_bound 32 size ltac:(lia)) as [??]. unfold_consts. lia.
Qed.

Section props.
Context `{UserCopyOk}.

(** read in terms of the buffer: the count bytes at the file position, or a fault. *)
Lemma read_spec dev buf size pos :
  dev_wf dev → 0 ≤ pos < GLOBALMEM_SIZE →
  let n := Z.min (u32 size) (GLOBALMEM_SIZE - pos) in
  let '(nleft, buf') := copy_to_user buf (slice pos n (mem dev)) in
  globalmem_read dev buf size pos =
    Some (if nleft =? 0 then (n, buf', pos + n) else (- EFAULT, buf', pos)).
Proof.
  intros Hd Hp. cbv zeta. pose proof (clamp_count_bounds pos size Hp) as [??].
  unfold globalmem_read. unfold_consts.
  rewrite (uwrap_id 64) by (unfold fits_u; lia).
  rewrite (proj2 (Z.leb_gt _ _)) by lia. rewrite load_in_range by lia. cbn.
  rewrite clamp_count_spec in * by (unfold_consts; lia). unfold_consts.
  set (n := Z.min _ _) in *.
  destruct (copy_to_user buf _) as [nleft buf']. rewrite !swrap_id by (unfold fits_s; lia).
  by destruct (nleft =? 0).
Qed.

Lemma write_spec dev buf size pos :
  dev_wf dev → 0 ≤ pos < GLOBALMEM_SIZE →
  let n := Z.min (u32 size) (GLOBALMEM_SIZE - pos) in
  let '(nleft, new) := copy_from_user (slice pos n (mem dev)) buf n in
  let dev' := Dev (splice pos new (mem dev)) in
  globalmem_write dev buf size pos =
    Some (if nleft =? 0 then (n, dev', pos + n) else (- EFAULT, dev', pos)) ∧
  zlen new = n ∧ dev_wf dev'.
Proof.
  intros Hd Hp. cbv zeta. pose proof (clamp_count_bounds pos size Hp) as [??].
  unfold globalmem_write. unfold_consts.
  rewrite (uwrap_id 64) by (unfold fits_u; lia).
  rewrite (proj2 (Z.leb_gt _ _)) by lia. rewrite load_in_range by lia. cbn.
  rewrite clamp_count_spec in * by (unfold_consts; lia). unfold_consts.
  set (n := Z.min _ _) in *.
  pose proof (copy_from_user_length (slice pos n (mem dev)) buf n) as Hl.
  destruct (copy_from_user _ _ _) as [nleft new]. cbn in Hl.
  rewrite slice_length in Hl by lia. specialize (Hl eq_refl).
  rewrite store_in_range by lia. cbn. rewrite !swrap_id by (unfold fits_s; lia).
  split_and!; [by destruct (nleft =? 0)|done|]. cbn. rewrite splice_length; lia.
Qed.

Lemma llseek_spec filp offset orig r filp' :
  file_wf filp → globalmem_llseek filp offset orig = (r, filp') →
  file_wf filp' ∧ private_data filp' = private_data filp ∧
  ((r = - EINVAL ∧ filp' = filp) ∨ (r = f_pos filp' ∧ 0 ≤ r)).
Proof.
  unfold globalmem_llseek. intros Hf Hs.
  pose proof (uwrap_bound 32 offset ltac:(lia)) as [??].
  cases; unfold_consts; cbn; split_and!; try done; try lia; first [by left | right; split; [done|lia]].
Qed.

Lemma fops_step dev filp op :
  dev_wf dev → file_wf filp →
  ∃ r out dev' filp', globalmem_fops (dev, filp) op = Some (r, out, (dev', filp')) ∧
    dev_wf dev' ∧ file_wf filp' ∧ private_data filp' = private_data filp.
Proof.
  intros Hd Hf. destruct op as [buf size|buf size|offset orig|cmd]; cbn.
  - destruct (decide (f_pos filp = GLOBALMEM_SIZE)) as [E|E].
    + unfold globalmem_read. rewrite E. cbn. do 4 eexists. split_and!; [done|done| |done].
      done.
    + pose proof (read_spec dev buf size (f_pos filp) Hd) as Hr. cbv zeta in Hr.
      pose proof (uwrap_bound 32 size ltac:(lia)) as [??]. unfold_consts.
      destruct (copy_to_user _ _) as [nleft buf']. rewrite Hr by lia. cbn.
      destruct (nleft =? 0); do 4 eexists; split_and!; try done; cbn; lia.
  - destruct (decide (f_pos filp = GLOBALMEM_SIZE)) as [E|E].
    + unfold globalmem_write. rewrite E. cbn. do 4 eexists. split_and!; [done|done| |done].
      done.
    + pose proof (write_spec dev buf size (f_pos filp) Hd) as Hr. cbv zeta in Hr.
      pose proof (uwrap_bound 32 size ltac:(lia)) as [??]. unfold_consts.
      destruct (copy_from_user _ _ _) as [nleft new]. destruct Hr as (Hr&?&?); [lia|].
      rewrite Hr. cbn. destruct (nleft =? 0); do 4 eexists; split_and!; try done; cbn; lia.
  - destruct (globalmem_llseek filp offset orig) as [r filp'] eqn:E.
    apply llseek_spec in E as (?&?&_); [|done]. do 4 eexists. eauto.
  - unfold globalmem_ioctl. destruct (cmd =? MEM_CLEAR); [|do 4 eexists; eauto].
    rewrite store_in_range; [|lia|rewrite zlen_zeros by (unfold_consts; lia); unfold_consts; lia].
    cbn. do 4 eexists. split_and!; eauto. unfold_consts. cbn [mem].
    rewrite splice_length; rewrite ?zlen_zeros; lia.
Qed.
End props.

(** ** Properties *)

(** C32 (safety).  From a device whose buffer has its 4096 bytes and a file
    position in [0, 4096], every sequence of read, write, llseek and ioctl calls
    with arbitrary arguments and arbitrary copy faults runs without touching
    memory outside the buffer, and the device and file stay in that range. *)
Theorem globalmem_run_safe `{UserCopyOk} dev filp ops :
  dev_wf dev → file_wf filp →
  ∃ dev' filp', run_fops (dev, filp) ops = Some (dev', filp') ∧ dev_wf dev' ∧ file_wf filp'.
Proof.
  revert dev filp. induction ops as [|op ops IH]; intros dev filp Hd Hf; [by cbn; eauto|].
  destruct (fops_step dev filp op Hd Hf) as (r&out&dev'&filp'&E&?&?&?).
  cbn -[globalmem_fops]. rewrite E. cbn. eauto.
Qed.

Lemma globalmem_run_safe_witness :
  dev_wf (Dev (zeros 0x1000)) ∧
  ∃ dev' filp', @run_fops (copy_upto 5) (Dev (zeros 0x1000), File 0 0)
    [FWrite [1; 2; 3] 3; FLlseek (-1) 1; FRead (zeros 9) 9; FIoctl 1; FIoctl 7] =
    Some (dev', filp') ∧ dev_wf dev' ∧ file_wf filp'.
Proof.
  split; [reflexivity|].
  apply (@globalmem_run_safe (copy_upto 5) _); [reflexivity | unfold_consts; cbn; lia].
Defined.

(** After a write at position [pos] that reports its [n] bytes
    as written, a read of [n] bytes at [pos] whose copy does not fault returns
    [n], advances the position by [n] and delivers exactly the bytes written. *)
Theorem globalmem_write_read `{UserCopyOk} dev data buf n pos dev' pos' :
  dev_wf dev → 0 ≤ pos → 0 ≤ n → pos + n ≤ GLOBALMEM_SIZE →
  globalmem_write dev data n pos = Some (n, dev', pos') →
  (copy_to_user buf (slice pos n (mem dev'))).1 = 0 →
  globalmem_read dev' buf n pos =
    Some (n, take (Z.to_nat n) data ++ drop (Z.to_nat n) buf, pos + n).
Proof.
  intros Hd Hp Hn Hle Hw Hc.
  destruct (decide (pos = GLOBALMEM_SIZE)) as [->|].
  { assert (n = 0) as -> by lia. cbn in *. simplify_eq. by rewrite drop_0. }
  pose proof (write_spec dev data n pos Hd) as Hs. cbv zeta in Hs.
  pose proof (read_spec dev' buf n pos) as Hr. cbv zeta in Hr.
  rewrite (uwrap_id 32) in * by (unfold_consts; lia).
  rewrite Z.min_l in * by (unfold_consts; lia).
  pose proof (copy_from_user_done (slice pos n (mem dev)) data n) as Hdone.
  rewrite slice_length in Hdone by (unfold_consts; lia).
  destruct (copy_from_user _ _ _) as [nl new]. destruct Hs as (Hs&Hlen&?); [unfold_consts; lia|].
  rewrite Hs in Hw. destruct (nl =? 0) eqn:Hnl; [|by unfold EFAULT in *; simplify_eq; lia].
  injection Hw as Hdev Hpos. subst dev' pos'. zbool. cbn in Hdone.
  destruct Hdone as [-> ?]; [done|done|].
  pose proof (copy_to_user_done buf (slice pos n (mem (Dev (splice pos (take (Z.to_nat n) data) (mem dev)))))) as Hu.
  destruct (copy_to_user _ _) as [l2 buf2]. cbn in Hc, Hu. subst l2.
  rewrite Hr by (try done; unfold_consts; lia). cbn. rewrite Hu by done.
  pose proof (slice_splice_same (mem dev) pos (take (Z.to_nat n) data)) as Hss.
  rewrite Hlen in Hss. rewrite Hss by (unfold_consts; lia).
  by rewrite length_take, Nat.min_l by (unfold zlen in *; lia).
Qed.

Lemma globalmem_write_read_witness :
  @globalmem_read (copy_upto 9)
    (Dev (splice 2 [7; 8; 9] (zeros 0x1000))) [0; 0; 0; 5] 3 2 = Some (3, [7; 8; 9; 5], 5).
Proof.
  apply (@globalmem_write_read (copy_upto 9) _ (Dev (zeros 0x1000)) [7; 8; 9] [0; 0; 0; 5] 3 2
    _ 5); [reflexivity | lia | lia | unfold GLOBALMEM_SIZE; lia
          | vm_compute; reflexivity | vm_compute; reflexivity].
Defined.

(** A write below the end of the buffer transfers
    min(size mod 2^32, 4096 - pos) bytes, changes nothing outside that window
    whether or not the copy faults, and on a fault returns -EFAULT with the
    position unchanged. *)
Theorem globalmem_write_frame `{UserCopyOk} dev data size pos r dev' pos' a k :
  dev_wf dev → 0 ≤ pos < GLOBALMEM_SIZE →
  globalmem_write dev data size pos = Some (r, dev', pos') →
  0 ≤ a → 0 ≤ k →
  let n := Z.min (u32 size) (GLOBALMEM_SIZE - pos) in
  (a + k ≤ pos ∨ pos + n ≤ a) →
  slice a k (mem dev') = slice a k (mem dev) ∧
  ((r = n ∧ pos' = pos + n) ∨ (r = - EFAULT ∧ pos' = pos)).
Proof.
  intros Hd Hp Hw Ha Hk n Hout.
  pose proof (write_spec dev data size pos Hd Hp) as Hs. cbv zeta in Hs. fold n in Hs.
  destruct (copy_from_user _ _ _) as [nl new]. destruct Hs as (Hs&Hlen&?).
  pose proof (clamp_count_bounds pos size Hp) as [Hc1 Hc2].
  rewrite clamp_count_spec in Hc1, Hc2 by done. fold n in Hc1, Hc2.
  rewrite Hs in Hw. split; [|destruct (nl =? 0); simplify_eq; eauto].
  replace (mem dev') with (splice pos new (mem dev)) by (destruct (nl =? 0); by simplify_eq).
  unfold_consts. destruct Hout; [apply slice_splice_before | apply slice_splice_after]; lia.
Qed.

Lemma globalmem_write_frame_witness :
  slice 10 2 (splice 2 [7; 8; 9] (zeros 0x1000)) = slice 10 2 (zeros 0x1000) ∧
  ((3 = Z.min (u32 3) (GLOBALMEM_SIZE - 2) ∧ 5 = 2 + Z.min (u32 3) (GLOBALMEM_SIZE - 2)) ∨
   (3 = - EFAULT ∧ 5 = 2)).
Proof.
  apply (@globalmem_write_frame (copy_upto 9) _ (Dev (zeros 0x1000)) [7; 8; 9] 3 2 3
    (Dev (splice 2 [7; 8; 9] (zeros 0x1000))) 5 10 2);
    [reflexivity | unfold GLOBALMEM_SIZE; lia | vm_compute; reflexivity | lia | lia | ].
  right. vm_compute. discriminate.
Defined.

(** llseek never leaves the range [0, 4096]: it either fails with
    -EINVAL and keeps the position or returns the new position; SEEK_SET
    accepts an offset exactly when its low 32 bits are at most 4096, so an
    offset of 4 GiB + k is taken as k. *)
Theorem globalmem_llseek_range filp offset orig :
  file_wf filp →
  (let '(r, filp') := globalmem_llseek filp offset orig in
   file_wf filp' ∧ ((r = - EINVAL ∧ filp' = filp) ∨ (r = f_pos filp' ∧ 0 ≤ r))) ∧
  (0 ≤ offset →
   (globalmem_llseek filp offset 0).1 =
     (if offset mod 2 ^ 32 <=? GLOBALMEM_SIZE then offset mod 2 ^ 32 else - EINVAL)).
Proof.
  intros Hf. split.
  - destruct (globalmem_llseek filp offset orig) as [r filp'] eqn:E.
    apply llseek_spec in E; [|done]. naive_solver.
  - intros. unfold globalmem_llseek. cbn [Z.eqb]. unfold uwrap.
    cases; cbn in *; try lia; done.
Qed.

Lemma globalmem_llseek_range_witness :
  (let '(r, filp') := globalmem_llseek (File 7 0) (2 ^ 32 + 5) 0 in
   file_wf filp' ∧ ((r = - EINVAL ∧ filp' = File 7 0) ∨ (r = f_pos filp' ∧ 0 ≤ r))) ∧
  (0 ≤ 2 ^ 32 + 5 →
   (globalmem_llseek (File 7 0) (2 ^ 32 + 5) 0).1 =
     (if (2 ^ 32 + 5) mod 2 ^ 32 <=? GLOBALMEM_SIZE then (2 ^ 32 + 5) mod 2 ^ 32 else - EINVAL)).
Proof. apply (globalmem_llseek_range (File 7 0) (2 ^ 32 + 5) 0). unfold_consts; cbn; lia. Defined.

(** globalmem_init either fails with a negative code and
    leaves the kernel's regions, allocations and cdevs as they were, or returns
    0 with the device region and the device structure held, and then
    globalmem_exit gives back everything init acquired. *)
Theorem globalmem_init_exit {W} `{ChrdevKernelOk W} sz major (w w' : W) ret major' devp :
  kobs_wf (observe w) → 0 < sz →
  globalmem_init sz major w = (ret, major', devp, w') →
  (ret < 0 ∧ devp = None ∧ observe w' = observe w) ∨
  (ret = 0 ∧ ∃ p, devp = Some p ∧
     regions (observe w') !! MKDEV major' 0 = Some 1 ∧ heap (observe w') !! p = Some sz ∧
     observe (globalmem_exit major' p w') = observe w).
Proof. intros Hwf Hsz Hi. exact (single_init_exit sz major w w' ret major' devp Hwf Hsz Hi). Qed.

Lemma globalmem_init_exit_witness :
  let w := Ledger (Kobs ∅ ∅ ∅) [0; -12] 4096 in
  let '(ret, major', devp, w') := globalmem_init 8192 230 w in
  (ret < 0 ∧ devp = None ∧ observe w' = observe w) ∨
  (ret = 0 ∧ ∃ p, devp = Some p ∧
     regions (observe w') !! MKDEV major' 0 = Some 1 ∧ heap (observe w') !! p = Some 8192 ∧
     observe (globalmem_exit major' p w') = observe w).
Proof.
  cbv zeta. destruct (globalmem_init _ _ _) as [[[ret major'] devp] w'] eqn:E.
  apply (globalmem_init_exit 8192 230 (Ledger (Kobs ∅ ∅ ∅) [0; -12] 4096));
    [intros c Hc; cbn in Hc; by apply not_elem_of_empty in Hc | lia | exact E].
Defined.

End Globalmem.

(** ** Several devices behind one driver (ch6/multi_globalmem.c) *)

Module MultiGlobalmem.
Import Globalmem.

Definition DEVICE_NUM : nat := 10.

(** [container_of(inode->i_cdev, struct globalmem_dev, cdev)]: the inode's cdev
    is the one embedded in device [i_cdev] of the array. *)
Definition globalmem_open (i_cdev : nat) (filp : file) : Z * file :=
  (0, File (f_pos filp) i_cdev).

(** A file operation acts on the device that open stored in [private_data]. *)
Definition multi_fops `{UserCopy} (devs : list globalmem_dev) (filp : file) (op : fop)
    : option (Z * list Z * (list globalmem_dev * file)) :=
  dev ← devs !! private_data filp;
  '(r, out, (dev', filp')) ← globalmem_fops (dev, filp) op;
  Some (r, out, (<[private_data filp := dev']> devs, filp')).

Section init.
Context {W : Type} `{ChrdevKernel W} (sizeof_globalmem_dev : Z).

Definition globalmem_setup_cdev (globalmem_major dev index : Z) (w : W) : W :=
  let devno := MKDEV globalmem_major index in
  let '(err, w) := cdev_add dev devno 1 w in w.

(** [globalmem_devp + i] *)
Definition dev_addr (devp i : Z) : Z := devp + i * sizeof_globalmem_dev.

Fixpoint setup_loop (globalmem_major devp : Z) (ids : list nat) (w : W) : W :=
  match ids with
  | [] => w
  | i :: ids =>
      let i := Z.of_nat i in
      setup_loop globalmem_major devp ids
        (globalmem_setup_cdev globalmem_major (dev_addr devp i) i w)
  end.

Definition globalmem_init (globalmem_major : Z) (w : W) : Z * Z * option Z * W :=
  let '(ret, devno, globalmem_major, w) :=
    claim_devno globalmem_major (Z.of_nat DEVICE_NUM) w in
  if ret <? 0 then (ret, globalmem_major, None, w) else
  let '(globalmem_devp, w) := kzalloc (sizeof_globalmem_dev * Z.of_nat DEVICE_NUM) w in
  match globalmem_devp with
  | None =>
      let w := unregister_chrdev_region devno (Z.of_nat DEVICE_NUM) w in
      (- ENOMEM, globalmem_major, None, w)
  | Some devp =>
      let w := setup_loop globalmem_major devp (seq 0 DEVICE_NUM) w in
      (0, globalmem_major, Some devp, w)
  end.

Definition cdev_addrs (devp : Z) : list Z :=
  (λ i, dev_addr devp (Z.of_nat i)) <$> seq 0 DEVICE_NUM.

Definition globalmem_exit (globalmem_major devp : Z) (w : W) : W :=
  let w := cdev_del_all (cdev_addrs devp) w in
  let w := kfree devp w in
  unregister_chrdev_region (MKDEV globalmem_major 0) (Z.of_nat DEVICE_NUM) w.
End init.

Lemma setup_loop_obs {W} `{ChrdevKernelOk W} sz major devp ids (w : W) :
  ∃ added : gset Z,
    added ⊆ list_to_set ((λ i, dev_addr sz devp (Z.of_nat i)) <$> ids) ∧
    observe (setup_loop sz major devp ids w) = with_cdevs (added ∪.) (observe w).
Proof.
  revert w. induction ids as [|i ids IH]; intros w; cbn.
  - exists ∅. split; [set_solver|]. destruct (observe w); unfold with_cdevs; cbn.
    f_equal. set_solver.
  - destruct (IH (globalmem_setup_cdev major (dev_addr sz devp (Z.of_nat i)) (Z.of_nat i) w))
      as (added&Hsub&->).
    unfold globalmem_setup_cdev. destruct (cdev_add _ _ _ _) as [err w'] eqn:E.
    apply cdev_add_ok in E as [[_ E]|[_ E]]; rewrite E.
    + exists (added ∪ {[dev_addr sz devp (Z.of_nat i)]}). split; [set_solver|].
      destruct (observe w); unfold with_cdevs; cbn. f_equal. set_solver.
    + exists added. split; [set_solver|done].
Qed.

Lemma cdev_addrs_in_block sz devp c :
  0 < sz → c ∈ cdev_addrs sz devp → devp ≤ c < devp + sz * Z.of_nat DEVICE_NUM.
Proof.
  unfold cdev_addrs, dev_addr, DEVICE_NUM. intros Hsz (i&->&Hi)%list_elem_of_fmap.
  apply elem_of_seq in Hi. nia.
Qed.

(** With any number of devices, a file operation is defined,
    changes at most the device the file was opened on, leaves every other
    device's contents alone and keeps all of them well formed. *)
Theorem multi_fops_isolated `{UserCopyOk} devs filp op :
  Forall dev_wf devs → file_wf filp → (private_data filp < length devs)%nat →
  ∃ r out devs' filp', multi_fops devs filp op = Some (r, out, (devs', filp')) ∧
    Forall dev_wf devs' ∧ file_wf filp' ∧ private_data filp' = private_data filp ∧
    length devs' = length devs ∧
    ∀ j, j ≠ private_data filp → devs' !! j = devs !! j.
Proof.
  intros Hd Hf Hi. destruct (lookup_lt_is_Some_2 devs _ Hi) as [dev Hdev].
  assert (dev_wf dev) as Hdwf by (by eapply Forall_lookup_1).
  destruct (fops_step dev filp op Hdwf Hf) as (r&out&dev'&filp'&E&?&?&?).
  unfold multi_fops. rewrite Hdev. cbn -[globalmem_fops]. rewrite E. cbn.
  do 4 eexists. split_and!; [done|by apply Forall_insert|done|done| |].
  - by rewrite length_insert.
  - intros. by rewrite list_lookup_insert_ne.
Qed.

Lemma multi_fops_isolated_witness :
  let filp := (globalmem_open 1 (File 0 0)).2 in
  let devs := replicate 3 (Dev (zeros 0x1000)) in
  ∃ r out devs' filp', @multi_fops (copy_upto 8) devs filp (FWrite [1; 2] 2) =
      Some (r, out, (devs', filp')) ∧
    Forall dev_wf devs' ∧ file_wf filp' ∧ private_data filp' = private_data filp ∧
    length devs' = length devs ∧ ∀ j, j ≠ private_data filp → devs' !! j = devs !! j.
Proof.
  cbv zeta. apply (@multi_fops_isolated (copy_upto 8) _).
  - apply Forall_replicate. reflexivity.
  - unfold_consts; cbn; lia.
  - cbn. lia.
Defined.

(** Loading the ten-device driver either fails and leaves the
    kernel's books unchanged, or succeeds; whichever of the ten cdev_add calls
    failed on the way, unloading it releases the whole region, the device array
    and every cdev. *)
Theorem multi_init_exit {W} `{ChrdevKernelOk W} sz major (w w' : W) ret major' devp :
  kobs_wf (observe w) → 0 < sz →
  globalmem_init sz major w = (ret, major', devp, w') →
  (ret < 0 ∧ devp = None ∧ observe w' = observe w) ∨
  (ret = 0 ∧ ∃ p, devp = Some p ∧
     regions (observe w') !! MKDEV major' 0 = Some (Z.of_nat DEVICE_NUM) ∧
     observe (globalmem_exit sz major' p w') = observe w).
Proof.
  intros Hwf Hsz Hi. unfold globalmem_init in Hi.
  destruct (claim_devno _ _ _) as [[[r d] m] w1] eqn:Ec. apply claim_devno_ok in Ec.
  destruct Ec as [(->&->&Hfree&Ho1)|[Hneg Ho1]]; cbn -[DEVICE_NUM] in Hi;
    [|rewrite (proj2 (Z.ltb_lt _ _)) in Hi by done; simplify_eq; eauto].
  destruct (kzalloc _ w1) as [q w2] eqn:Ek. apply kzalloc_ok in Ek.
  destruct q as [p|]; simplify_eq.
  - right. destruct Ek as (Hp&Hdis&Ho2). rewrite Ho1 in Hp, Hdis, Ho2. cbn in Hp, Hdis.
    split; [done|]. exists p.
    destruct (setup_loop_obs sz major' p (seq 0 DEVICE_NUM) w2) as (added&Hadd&Ho3).
    rewrite Ho3, Ho2. cbn -[DEVICE_NUM]. rewrite !lookup_insert_eq. split_and!; [done..|].
    unfold globalmem_exit.
    rewrite unregister_ok; rewrite kfree_ok, observe_cdev_del_all, Ho3, Ho2;
      [|by cbn -[DEVICE_NUM]; rewrite lookup_insert_eq].
    eapply teardown_obs; eauto using cdev_addrs_in_block.
  - left. split; [unfold ENOMEM; lia|]. split; [done|].
    rewrite unregister_ok; rewrite Ek, Ho1; [by apply with_regions_undo|].
    cbn. by rewrite lookup_insert_eq.
Qed.

Lemma multi_init_exit_witness :
  let w := Ledger (Kobs ∅ ∅ ∅) [0; 0; 0; -16; 0; -16] 4096 in
  let '(ret, major', devp, w') := globalmem_init 4200 0 w in
  (ret < 0 ∧ devp = None ∧ observe w' = observe w) ∨
  (ret = 0 ∧ ∃ p, devp = Some p ∧
     regions (observe w') !! MKDEV major' 0 = Some (Z.of_nat DEVICE_NUM) ∧
     observe (globalmem_exit 4200 major' p w') = observe w).
Proof.
  cbv zeta. destruct (globalmem_init _ _ _) as [[[ret major'] devp] w'] eqn:E.
  apply (multi_init_exit 4200 0 (Ledger (Kobs ∅ ∅ ∅) [0; 0; 0; -16; 0; -16] 4096));
    [intros c Hc; cbn in Hc; by apply not_elem_of_empty in Hc | lia | exact E].
Defined.

End MultiGlobalmem.
