(* ===== verification/Globalfifo.v ===== *)
(** * globalfifo: a blocking byte FIFO device

    Models ldd-k4/kernel/drivers/globalfifo/ch9/globalfifo.c.  The code that
    runs with [dev->mutex] held is translated as functions on the device
    ([read_ready], [write_ready], [globalfifo_ioctl], [globalfifo_poll]);
    [step] interleaves them the way the handlers do: a task takes the mutex,
    joins the wait queue, tests the condition, and either transfers or marks
    itself interruptible, drops the mutex and sleeps in schedule() until a
    wake-up or a signal. *)

From S2P Require Import Prelude Kernel.

Module Globalfifo.

Definition GLOBALFIFO_SIZE : Z := 0x1000.
Definition FIFO_CLEAR : Z := 0x1.
Definition GLOBALFIFO_MAJOR : Z := 231.

Definition POLLIN : Z := 0x1.
Definition POLLOUT : Z := 0x4.
Definition POLLRDNORM : Z := 0x40.
Definition POLLWRNORM : Z := 0x100.

Record globalfifo_dev := Dev {
  current_len : Z;
  mem : list Z;
  async_queue : list nat   (** the files with FASYNC set; NULL is [] *)
}.

(** The memcpy of a block inside the buffer; None: out of the buffer. *)
Definition memcpy_in `{Memcpy} (n dst src : nat) (m : list Z) : option (list Z) :=
  if decide (dst + n ≤ length m ∧ src + n ≤ length m)%nat
  then Some (memcpy n dst src m) else None.

(** ** Critical sections *)

Definition globalfifo_ioctl (dev : globalfifo_dev) (cmd : Z)
    : option (Z * globalfifo_dev) :=
  if cmd =? FIFO_CLEAR then
    m ← store 0 (zeros GLOBALFIFO_SIZE) (mem dev);
    Some (0, Dev 0 m (async_queue dev))
  else Some (- EINVAL, dev).

Definition globalfifo_poll (dev : globalfifo_dev) : Z :=
  let mask := 0 in
  let mask := if negb (current_len dev =? 0)
              then Z.lor mask (Z.lor POLLIN POLLRDNORM) else mask in
  let mask := if negb (current_len dev =? GLOBALFIFO_SIZE)
              then Z.lor mask (Z.lor POLLOUT POLLWRNORM) else mask in
  mask.

(** What a reader does after the wait loop: status, device, user buffer, and
    whether it calls wake_up_interruptible(&dev->w_wait). *)
Definition read_ready `{UserCopy} `{Memcpy} (dev : globalfifo_dev) (buf : list Z) (count : Z)
    : option (Z * globalfifo_dev * list Z * bool) :=
  let count := u64 count in  (* size_t *)
  let count := if current_len dev <? count then current_len dev else count in
  src ← load 0 count (mem dev);
  let '(nleft, buf') := copy_to_user buf src in
  if negb (nleft =? 0) then Some (- EFAULT, dev, buf', false) else
  m ← memcpy_in (Z.to_nat (u64 (current_len dev - count))) 0 (Z.to_nat count) (mem dev);
  Some (s32 count, Dev (u32 (current_len dev - count)) m (async_queue dev), buf', true).

(** What a writer does after the wait loop: status, device, whether it wakes the
    readers, and whether it sends SIGIO. *)
Definition write_ready `{UserCopy} (dev : globalfifo_dev) (buf : list Z) (count : Z)
    : option (Z * globalfifo_dev * bool * bool) :=
  let count := u64 count in  (* size_t *)
  let room := u32 (GLOBALFIFO_SIZE - current_len dev) in
  let count := if room <? count then room else count in
  old ← load (current_len dev) count (mem dev);
  let '(nleft, new) := copy_from_user old buf count in
  m ← store (current_len dev) new (mem dev);
  let dev1 := Dev (current_len dev) m (async_queue dev) in
  if negb (nleft =? 0) then Some (- EFAULT, dev1, false, false) else
  let dev2 := Dev (u32 (current_len dev + count)) m (async_queue dev) in
  let kill := match async_queue dev with [] => false | _ => true end in
  Some (s32 count, dev2, true, kill).

Section fasync.
Context (fasync_helper : Z → nat → Z → list nat → Z * list nat).

Definition globalfifo_fasync (fd : Z) (filp : nat) (mode : Z) (dev : globalfifo_dev)
    : Z * globalfifo_dev :=
  let '(r, q) := fasync_helper fd filp mode (async_queue dev) in
  (r, Dev (current_len dev) (mem dev) q).

Definition globalfifo_release (filp : nat) (dev : globalfifo_dev) : Z * globalfifo_dev :=
  let '(_, dev) := globalfifo_fasync (-1) filp 0 dev in (0, dev).
End fasync.

(** ** Tasks *)

Inductive call :=
| CRead (nonblock : bool) (buf : list Z) (count : Z)
| CWrite (nonblock : bool) (buf : list Z) (count : Z)
| CIoctl (cmd : Z)
| CPoll.

(** Where a task is inside a handler. *)
Inductive pc :=
| Enter (c : call)       (** before mutex_lock *)
| Loop (c : call)        (** mutex held, on its wait queue, at the while test *)
| Asleep (c : call)      (** mutex released, TASK_INTERRUPTIBLE, in schedule() *)
| Awake (c : call)       (** schedule() has returned *)
| Relock (c : call)      (** no signal pending, before the mutex_lock of the loop *)
| Finished (ret : Z) (out : list Z).

Record sys := Sys {
  dev : globalfifo_dev;
  mutex : option nat;
  r_wait : list nat;
  w_wait : list nat;
  tasks : gmap nat pc;
  sigio : nat;             (** number of kill_fasync calls *)
  produced : list Z;       (** history: bytes accepted by writes *)
  consumed : list Z        (** history: bytes handed to readers or cleared *)
}.

Inductive event :=
| ECall (t : nat) (c : call)       (** task [t] enters a handler *)
| EStep (t : nat) (sig : bool)     (** task [t] advances; [sig]: a signal is pending *)
| ESignal (t : nat)                (** a signal wakes task [t] *)
| EFasync (fd : Z) (filp : nat) (mode : Z)
| ERelease (filp : nat).

Definition contents (d : globalfifo_dev) : list Z :=
  take (Z.to_nat (current_len d)) (mem d).

Definition wake_pc (p : pc) : pc :=
  match p with Asleep c => Awake c | p => p end.

(** wake_up_interruptible: every sleeping task on the queue becomes runnable. *)
Definition woken (q : list nat) (t : nat) (p : pc) : pc :=
  if decide (t ∈ q) then wake_pc p else p.

Definition wake_all (q : list nat) (ts : gmap nat pc) : gmap nat pc :=
  map_imap (λ t p, Some (woken q t p)) ts.

Definition unqueue (t : nat) (q : list nat) : list nat := filter (λ u, u ≠ t) q.

Section machine.
Context `{UserCopy} `{Memcpy} (fasync_helper : Z → nat → Z → list nat → Z * list nat).

(** mutex_lock, then add_wait_queue for the blocking calls; ioctl and poll run
    to completion under the mutex. *)
Definition enter (s : sys) (t : nat) (c : call) : option sys :=
  match mutex s with
  | Some _ => None
  | None =>
      match c with
      | CRead _ _ _ =>
          Some (Sys (dev s) (Some t) (t :: r_wait s) (w_wait s)
                    (<[t := Loop c]> (tasks s)) (sigio s) (produced s) (consumed s))
      | CWrite _ _ _ =>
          Some (Sys (dev s) (Some t) (r_wait s) (t :: w_wait s)
                    (<[t := Loop c]> (tasks s)) (sigio s) (produced s) (consumed s))
      | CIoctl cmd =>
          '(r, d) ← globalfifo_ioctl (dev s) cmd;
          Some (Sys d None (r_wait s) (w_wait s) (<[t := Finished r []]> (tasks s)) (sigio s)
                    (produced s) (consumed s ++ drop (length (contents d)) (contents (dev s))))
      | CPoll =>
          Some (Sys (dev s) None (r_wait s) (w_wait s)
                    (<[t := Finished (globalfifo_poll (dev s)) []]> (tasks s))
                    (sigio s) (produced s) (consumed s))
      end
  end.

(** [while (dev->current_len == 0) ...] and what follows it, up to the next
    release of the mutex. *)
Definition globalfifo_read (s : sys) (t : nat) (nonblock : bool) (buf : list Z) (count : Z)
    : option sys :=
  let c := CRead nonblock buf count in
  if current_len (dev s) =? 0 then
    if nonblock then
      Some (Sys (dev s) None (unqueue t (r_wait s)) (w_wait s)
                (<[t := Finished (- EAGAIN) []]> (tasks s)) (sigio s) (produced s) (consumed s))
    else
      Some (Sys (dev s) None (r_wait s) (w_wait s)
                (<[t := Asleep c]> (tasks s)) (sigio s) (produced s) (consumed s))
  else
    match read_ready (dev s) buf count with
    | None => None
    | Some (ret, d, buf', wake) =>
    let ts := if wake then wake_all (w_wait s) (tasks s) else tasks s in
    let out := if wake then take (Z.to_nat ret) buf' else [] in
    Some (Sys d None (unqueue t (r_wait s)) (w_wait s)
              (<[t := Finished ret out]> ts) (sigio s)
              (produced s) (consumed s ++ out))
    end.

Definition globalfifo_write (s : sys) (t : nat) (nonblock : bool) (buf : list Z) (count : Z)
    : option sys :=
  let c := CWrite nonblock buf count in
  if current_len (dev s) =? GLOBALFIFO_SIZE then
    if nonblock then
      Some (Sys (dev s) None (r_wait s) (unqueue t (w_wait s))
                (<[t := Finished (- EAGAIN) []]> (tasks s)) (sigio s) (produced s) (consumed s))
    else
      Some (Sys (dev s) None (r_wait s) (w_wait s)
                (<[t := Asleep c]> (tasks s)) (sigio s) (produced s) (consumed s))
  else
    match write_ready (dev s) buf count with
    | None => None
    | Some (ret, d, wake, kill) =>
    let ts := if wake then wake_all (r_wait s) (tasks s) else tasks s in
    let new := if wake then take (Z.to_nat ret) buf else [] in
    Some (Sys d None (r_wait s) (unqueue t (w_wait s))
              (<[t := Finished ret []]> ts) (if kill then S (sigio s) else sigio s)
              (produced s ++ new) (consumed s))
    end.

(** After schedule(): with a signal pending leave through out2, else take the
    mutex again. *)
Definition after_schedule (s : sys) (t : nat) (c : call) (sig : bool) : sys :=
  if sig then
    Sys (dev s) (mutex s)
        (match c with CRead _ _ _ => unqueue t (r_wait s) | _ => r_wait s end)
        (match c with CWrite _ _ _ => unqueue t (w_wait s) | _ => w_wait s end)
        (<[t := Finished (- ERESTARTSYS) []]> (tasks s)) (sigio s) (produced s) (consumed s)
  else
    Sys (dev s) (mutex s) (r_wait s) (w_wait s) (<[t := Relock c]> (tasks s))
        (sigio s) (produced s) (consumed s).

Definition with_dev (s : sys) (d : globalfifo_dev) : sys :=
  Sys d (mutex s) (r_wait s) (w_wait s) (tasks s) (sigio s) (produced s) (consumed s).

Definition with_task (s : sys) (t : nat) (p : pc) : sys :=
  Sys (dev s) (mutex s) (r_wait s) (w_wait s) (<[t := p]> (tasks s)) (sigio s)
      (produced s) (consumed s).

Definition step (s : sys) (e : event) : option sys :=
  match e with
  | ECall t c =>
      match tasks s !! t with
      | None | Some (Finished _ _) => Some (with_task s t (Enter c))
      | _ => None
      end
  | EStep t sig =>
      match tasks s !! t with
      | Some (Enter c) => enter s t c
      | Some (Loop (CRead nb buf n)) => globalfifo_read s t nb buf n
      | Some (Loop (CWrite nb buf n)) => globalfifo_write s t nb buf n
      | Some (Awake c) => Some (after_schedule s t c sig)
      | Some (Relock c) =>
          match mutex s with
          | Some _ => None
          | None => Some (Sys (dev s) (Some t) (r_wait s) (w_wait s)
                              (<[t := Loop c]> (tasks s)) (sigio s) (produced s) (consumed s))
          end
      | _ => None
      end
  | ESignal t =>
      match tasks s !! t with
      | Some (Asleep c) => Some (with_task s t (Awake c))
      | _ => None
      end
  | EFasync fd filp mode =>
      Some (with_dev s (globalfifo_fasync fasync_helper fd filp mode (dev s)).2)
  | ERelease filp => Some (with_dev s (globalfifo_release fasync_helper filp (dev s)).2)
  end.
End machine.

(** The state after globalfifo_init: kzalloc'ed device, empty wait queues. *)
Definition init_dev : globalfifo_dev := Dev 0 (zeros GLOBALFIFO_SIZE) [].
Definition init_sys : sys := Sys init_dev None [] [] ∅ 0 [] [].

(** ** Module load and unload *)

Section init.
Context {W : Type} `{ChrdevKernel W} (sizeof_globalfifo_dev : Z).

Definition globalfifo_setup_cdev (globalfifo_major dev index : Z) (w : W) : W :=
  let devno := MKDEV globalfifo_major index in
  let '(err, w) := cdev_add dev devno 1 w in w.

Definition globalfifo_init (globalfifo_major : Z) (w : W) : Z * Z * option Z * W :=
  let '(ret, devno, globalfifo_major, w) := claim_devno globalfifo_major 1 w in
  if ret <? 0 then (ret, globalfifo_major, None, w) else
  let '(globalfifo_devp, w) := kzalloc sizeof_globalfifo_dev w in
  match globalfifo_devp with
  | None =>
      let w := unregister_chrdev_region devno 1 w in
      (- ENOMEM, globalfifo_major, None, w)
  | Some devp =>
      let w := globalfifo_setup_cdev globalfifo_major devp 0 w in
      (0, globalfifo_major, Some devp, w)
  end.

Definition globalfifo_exit (globalfifo_major devp : Z) (w : W) : W :=
  let w := cdev_del devp w in
  let w := kfree devp w in
  unregister_chrdev_region (MKDEV globalfifo_major 0) 1 w.
End init.

(** ** The shift inside the buffer *)

(** A read that leaves more than it takes moves the rest down by less than its
    length: source and destination of its memcpy overlap. *)
Definition read_overlaps (dev : globalfifo_dev) (count : Z) : bool :=
  let count := Z.min (u64 count) (current_len dev) in
  count <? current_len dev - count.

Definition overlapping (s : sys) (e : event) : bool :=
  match e with
  | EStep t _ =>
      match tasks s !! t with
      | Some (Loop (CRead _ _ count)) => read_overlaps (dev s) count
      | _ => false
      end
  | _ => false
  end.

(** The runs considered: all of them, or ([down] false) those without a read
    whose memcpy overlaps. *)
Definition step_within `{UserCopy} `{Memcpy} (down : bool)
    (fasync_helper : Z → nat → Z → list nat → Z * list nat) (s : sys) (e : event) : option sys :=
  if negb down && overlapping s e then None else step fasync_helper s e.

Lemma step_within_step `{UserCopy} `{Memcpy} down fh s e s' :
  step_within down fh s e = Some s' →
  step fh s e = Some s' ∧ (overlapping s e = true → down = true).
Proof. unfold step_within. destruct down, (overlapping s e); cbn; naive_solver. Qed.

Lemma memcpy_in_spec `{MemcpyOk} n k (m : list Z) :
  (k + n ≤ length m)%nat → ((k < n)%nat → memcpy_moves_down) →
  memcpy_in n 0 k m = Some (take n (drop k m) ++ drop n m).
Proof.
  intros Hlen Hd. unfold memcpy_in. rewrite decide_True by lia. f_equal.
  change (take n (drop k m) ++ drop n m) with (moved n 0 k m).
  destruct (decide (k < n)%nat) as [Hk|]; [apply (Hd Hk); lia|].
  apply memcpy_disjoint; lia.
Qed.

(** ** The critical sections refine a bounded byte queue *)

Definition dev_wf (d : globalfifo_dev) : Prop :=
  zlen (mem d) = GLOBALFIFO_SIZE ∧ 0 ≤ current_len d ≤ GLOBALFIFO_SIZE.

Ltac unfold_consts := unfold dev_wf, fits_u, fits_s in *; unfold GLOBALFIFO_SIZE in *.

Lemma contents_length d : dev_wf d → zlen (contents d) = current_len d.
Proof. unfold contents. intros [??]. apply zlen_take. unfold_consts. lia. Qed.

Section critical.
Context {UC : UserCopy} {UCok : UserCopyOk} {MC : Memcpy} {MCok : MemcpyOk}.

(** A read never leaves the buffer, and moves the rest of the contents down
    unless its memcpy overlaps and does not copy downwards. *)
Lemma read_ready_spec d buf count :
  dev_wf d →
  ∃ ret d' buf' wake, read_ready d buf count = Some (ret, d', buf', wake) ∧
    ((wake = true ∧ ret = Z.min (u64 count) (current_len d) ∧
      zlen (take (Z.to_nat ret) buf') = ret ∧ current_len d' = current_len d - ret ∧
      ((read_overlaps d count = true → memcpy_moves_down) →
       dev_wf d' ∧ contents d = take (Z.to_nat ret) buf' ++ contents d')) ∨
     (wake = false ∧ ret = - EFAULT ∧ d' = d)).
Proof.
  intros [Hm Hl]. unfold read_ready. pose proof (uwrap_bound 64 count ltac:(lia)) as [Hc _].
  set (n := if current_len d <? u64 count then current_len d else u64 count).
  assert (n = Z.min (u64 count) (current_len d)) as Hn by (unfold n; cases; lia).
  clearbody n. unfold_consts.
  rewrite load_in_range by lia. cbn [mbind option_bind].
  pose proof (copy_to_user_done buf (slice 0 n (mem d))) as Hdone.
  destruct (copy_to_user _ _) as [nleft buf']. cbn in Hdone.
  destruct (nleft =? 0) eqn:E; cbn [negb]; [|do 4 eexists; split; [done|]; by right].
  zbool. rewrite (uwrap_id 64), (uwrap_id 32), swrap_id by (unfold fits_u, fits_s; lia).
  assert (slice 0 n (mem d) = take (Z.to_nat n) (mem d)) as Hs by (unfold slice; by rewrite drop_0).
  destruct (memcpy_in _ _ _ _) as [m|] eqn:Em;
    [|unfold memcpy_in in Em; rewrite decide_True in Em by (unfold zlen in *; lia); done].
  cbn [mbind option_bind]. do 4 eexists. split; [done|]. cbn [current_len mem].
  assert (take (Z.to_nat n) buf' = take (Z.to_nat n) (mem d)) as Ht.
  { rewrite Hdone, Hs by done. rewrite take_app_le by (rewrite length_take; unfold zlen in *; lia).
    by rewrite take_take, Nat.min_id. }
  rewrite Ht. left. split_and!; [done|done|by apply zlen_take; lia|done|]. intros Hov.
  rewrite memcpy_in_spec in Em;
    [|unfold zlen in *; lia|intros Hlt; apply Hov; unfold read_overlaps; zbool; lia].
  injection Em as <-. split_and!; try lia.
  { unfold zlen in *. rewrite !length_app, !length_take, !length_drop. lia. }
  unfold contents. cbn [current_len mem].
  rewrite take_app_le by (rewrite length_take, length_drop; unfold zlen in *; lia).
  rewrite take_take, Nat.min_id.
  rewrite <- (take_drop (Z.to_nat n) (take _ (mem d))), take_take, skipn_firstn_comm.
  f_equal; [f_equal; lia | f_equal; lia].
Qed.

Lemma write_ready_spec d buf count :
  dev_wf d →
  ∃ ret d' wake kill, write_ready d buf count = Some (ret, d', wake, kill) ∧ dev_wf d' ∧
    ((wake = true ∧ ret = Z.min (u64 count) (GLOBALFIFO_SIZE - current_len d) ∧
      contents d' = contents d ++ take (Z.to_nat ret) buf ∧ ret ≤ zlen buf ∧
      current_len d' = current_len d + ret) ∨
     (wake = false ∧ ret = - EFAULT ∧ contents d' = contents d ∧
      current_len d' = current_len d)).
Proof.
  intros [Hm Hl]. unfold write_ready. pose proof (uwrap_bound 64 count ltac:(lia)) as [Hc _].
  unfold_consts. rewrite (uwrap_id 32 (_ - _)) by (unfold fits_u; lia).
  set (n := if _ <? u64 count then _ else u64 count).
  assert (n = Z.min (u64 count) (0x1000 - current_len d)) as Hn by (unfold n; cases; lia).
  clearbody n. rewrite load_in_range by lia. cbn [mbind option_bind].
  pose proof (copy_from_user_done (slice (current_len d) n (mem d)) buf n) as Hdone.
  pose proof (copy_from_user_length (slice (current_len d) n (mem d)) buf n) as Hlen.
  rewrite slice_length in Hdone, Hlen by lia.
  destruct (copy_from_user _ _ _) as [nleft new]. cbn in Hdone, Hlen. specialize (Hlen eq_refl).
  rewrite store_in_range by lia. cbn [mbind option_bind].
  assert (∀ k, 0 ≤ k ≤ n → take (Z.to_nat (current_len d + k)) (splice (current_len d) new (mem d))
    = contents d ++ take (Z.to_nat k) new) as Htake.
  { intros k Hk. unfold splice, contents. rewrite Z2Nat.inj_add by lia.
    assert (length (take (Z.to_nat (current_len d)) (mem d)) = Z.to_nat (current_len d)) as Hlt
      by (rewrite length_take; unfold zlen in *; lia).
    rewrite <- Hlt at 1. rewrite take_app_add. f_equal.
    apply take_app_le. unfold zlen in *. lia. }
  pose proof (splice_length (mem d) (current_len d) new ltac:(lia) ltac:(lia)) as Hsl.
  destruct (nleft =? 0) eqn:E; cbn [negb]; zbool.
  - rewrite (uwrap_id 32), swrap_id by (unfold fits_u, fits_s; lia).
    destruct (Hdone eq_refl E) as [-> Hbuf].
    do 4 eexists. split; [done|]. cbn [current_len mem]. split_and!; try lia.
    left. split_and!; [done|done| |done|done].
    unfold contents at 1. cbn [current_len mem]. rewrite Htake by lia.
    by rewrite take_take, Nat.min_id.
  - do 4 eexists. split; [done|]. cbn [current_len mem]. split_and!; try lia.
    right. split_and!; try done. unfold contents at 1. cbn [current_len mem].
    pose proof (Htake 0) as Ht0. rewrite Z.add_0_r in Ht0. rewrite Ht0 by lia.
    by rewrite take_0, app_nil_r.
Qed.
End critical.

(** ** Invariant of the interleaved system *)

Definition in_call (p : pc) : option call :=
  match p with
  | Loop c | Asleep c | Awake c | Relock c => Some c
  | _ => None
  end.

(** What holds of task [t] at [p]: it owns the mutex at the loop test, a blocked
    call is on its wait queue, and a reader sleeps only while the FIFO is empty. *)
Definition task_ok (mu : option nat) (rw ww : list nat) (len : Z) (t : nat) (p : pc) : Prop :=
  (∀ c, p = Loop c → mu = Some t) ∧
  (∀ nb buf n, in_call p = Some (CRead nb buf n) → t ∈ rw) ∧
  (∀ nb buf n, in_call p = Some (CWrite nb buf n) → t ∈ ww) ∧
  (∀ nb buf n, p = Asleep (CRead nb buf n) → len = 0).

Definition blocking (c : call) : Prop :=
  match c with CRead _ _ _ | CWrite _ _ _ => True | _ => False end.

Record sys_inv (s : sys) : Prop := {
  inv_mutex : ∀ t, mutex s = Some t → ∃ c, tasks s !! t = Some (Loop c) ∧ blocking c;
  inv_call : ∀ t p c, tasks s !! t = Some p → in_call p = Some c → blocking c;
  inv_dev : dev_wf (dev s);
  inv_task : ∀ t p, tasks s !! t = Some p →
    task_ok (mutex s) (r_wait s) (w_wait s) (current_len (dev s)) t p;
  inv_hist : produced s = consumed s ++ contents (dev s)
}.

Lemma lookup_wake_all q ts t :
  wake_all q ts !! t = woken q t <$> ts !! t.
Proof. unfold wake_all. rewrite map_lookup_imap. by destruct (ts !! t). Qed.

Lemma in_call_wake p : in_call (wake_pc p) = in_call p.
Proof. by destruct p. Qed.

Lemma in_call_woken q t p : in_call (woken q t p) = in_call p.
Proof. unfold woken. case_decide; auto using in_call_wake. Qed.

Lemma elem_of_unqueue u t q : u ∈ unqueue t q ↔ u ≠ t ∧ u ∈ q.
Proof. unfold unqueue. by rewrite list_elem_of_filter. Qed.

(** A task other than the one that moves keeps its facts when the mutex goes
    from its old owner to a new one and the queues lose at most the mover. *)
Lemma task_ok_frame mu rw ww len mu' rw' ww' len' t u p :
  u ≠ t → mu ≠ Some u →
  (∀ v, v ≠ t → v ∈ rw → v ∈ rw') → (∀ v, v ≠ t → v ∈ ww → v ∈ ww') →
  (len = 0 → len' = 0) →
  task_ok mu rw ww len u p → task_ok mu' rw' ww' len' u p.
Proof.
  intros Hut Hmu Hr Hw Hlen (H1&H2&H3&H4). split_and!; intros.
  - by destruct Hmu; eauto.
  - eauto.
  - eauto.
  - eauto.
Qed.

(** After wake_up on the readers' queue no reader is asleep. *)
Lemma task_ok_wake_readers mu rw ww len mu' ww' len' t u p :
  u ≠ t → mu ≠ Some u → (∀ v, v ≠ t → v ∈ ww → v ∈ ww') →
  task_ok mu rw ww len u p →
  task_ok mu' rw ww' len' u (woken rw u p).
Proof.
  intros Hut Hmu Hw (H1&H2&H3&H4). unfold woken. split_and!.
  - intros c Hc. destruct Hmu. apply (H1 c). case_decide; [by destruct p|done].
  - intros nb buf n Hp. apply (H2 nb buf n). case_decide; [by rewrite in_call_wake in Hp|done].
  - intros nb buf n Hp. apply Hw; [done|]. apply (H3 nb buf n).
    case_decide; [by rewrite in_call_wake in Hp|done].
  - intros nb buf n Hp. case_decide as Hin; [by destruct p|].
    destruct Hin. apply (H2 nb buf n). by rewrite Hp.
Qed.

Lemma task_ok_wake_writers mu rw ww len mu' rw' q len' t u p :
  u ≠ t → mu ≠ Some u → (∀ v, v ≠ t → v ∈ rw → v ∈ rw') → (len = 0 → len' = 0) →
  task_ok mu rw ww len u p →
  task_ok mu' rw' ww len' u (woken q u p).
Proof.
  intros Hut Hmu Hr Hlen Hok.
  assert (task_ok mu rw ww len u (woken q u p)) as Hok'.
  { destruct Hok as (H1&H2&H3&H4). unfold woken. case_decide; [|done].
    split_and!; rewrite ?in_call_wake; eauto; destruct p; naive_solver. }
  by eapply task_ok_frame.
Qed.

Lemma task_ok_finished mu rw ww len t r out : task_ok mu rw ww len t (Finished r out).
Proof. by split_and!. Qed.

Lemma task_ok_enter mu rw ww len t c : task_ok mu rw ww len t (Enter c).
Proof. by split_and!. Qed.

#[local] Hint Resolve task_ok_finished task_ok_enter : core.

Section inv.
Context {UC : UserCopy} {UCok : UserCopyOk} {MC : Memcpy} {MCok : MemcpyOk}
  (fasync_helper : Z → nat → Z → list nat → Z * list nat).

Lemma init_inv : sys_inv init_sys.
Proof. by split. Qed.

Lemma read_inv s t nb buf n s' :
  sys_inv s → mutex s = Some t → tasks s !! t = Some (Loop (CRead nb buf n)) →
  (read_overlaps (dev s) n = true → memcpy_moves_down) →
  globalfifo_read s t nb buf n = Some s' → sys_inv s'.
Proof.
  intros [Hx Hb Hd Ht Hh] Hmu Htk Hdown Hs. unfold globalfifo_read in Hs.
  destruct (current_len (dev s) =? 0) eqn:E0; zbool.
  - destruct nb; simplify_eq; split; cbn; try done; try (intros u p);
      rewrite lookup_insert; case_decide; intros; simplify_eq/=; eauto.
    + eapply (task_ok_frame (mutex s)) with (t := t) (len := current_len (dev s)); [| |by intros; apply elem_of_unqueue|by eauto|by eauto|by eauto];
        congruence.
    + destruct (Ht _ _ Htk) as (H1&H2&H3&H4). split_and!; naive_solver.
    + eapply (task_ok_frame (mutex s)) with (t := t) (len := current_len (dev s)); [| |by eauto|by eauto|by eauto|by eauto]; congruence.
  - destruct (read_ready_spec (dev s) buf n Hd) as (ret&d&buf'&wake&Hr&Hcase).
    assert (dev_wf d) as Hd' by (destruct Hcase as [(_&_&_&_&K)|(_&_&->)]; [by apply K|done]).
    rewrite Hr in Hs. injection Hs as <-. split; cbn; [done| |done| |].
    { intros u p c. rewrite lookup_insert. case_decide; intros; simplify_eq/=.
      destruct wake; [|by eauto]. rewrite lookup_wake_all in *.
      destruct (tasks s !! u) eqn:?; simplify_eq/=. rewrite in_call_woken in *. eauto. }
    + intros u p. rewrite lookup_insert. case_decide; intros; simplify_eq; eauto.
      destruct wake.
      * rewrite lookup_wake_all in *. destruct (tasks s !! u) as [q|] eqn:Hu; simplify_eq/=.
        eapply (task_ok_wake_writers (mutex s)) with (t := t) (len := current_len (dev s)); [| |by intros; apply elem_of_unqueue| |by eauto];
          [done|congruence|lia].
      * eapply (task_ok_frame (mutex s)) with (t := t) (len := current_len (dev s)); [| |by intros; apply elem_of_unqueue|by eauto|lia|by eauto];
          congruence.
    + destruct Hcase as [(->&_&_&_&Hc)|(->&->&->)]; [|by rewrite app_nil_r].
      destruct (Hc Hdown) as [_ Hc']. by rewrite <- app_assoc, <- Hc'.
Qed.

Lemma write_inv s t nb buf n s' :
  sys_inv s → mutex s = Some t → tasks s !! t = Some (Loop (CWrite nb buf n)) →
  globalfifo_write s t nb buf n = Some s' → sys_inv s'.
Proof.
  intros [Hx Hb Hd Ht Hh] Hmu Htk Hs. unfold globalfifo_write in Hs.
  destruct (current_len (dev s) =? GLOBALFIFO_SIZE) eqn:E0; zbool.
  - destruct nb; simplify_eq; split; cbn; try done; try (intros u p);
      rewrite lookup_insert; case_decide; intros; simplify_eq/=; eauto.
    + eapply (task_ok_frame (mutex s)) with (t := t) (len := current_len (dev s)); [| |by eauto|by intros; apply elem_of_unqueue|by eauto|by eauto];
        congruence.
    + destruct (Ht _ _ Htk) as (H1&H2&H3&H4). split_and!; naive_solver.
    + eapply (task_ok_frame (mutex s)) with (t := t) (len := current_len (dev s)); [| |by eauto|by eauto|by eauto|by eauto]; congruence.
  - destruct (write_ready_spec (dev s) buf n Hd) as (ret&d&wake&kill&Hr&Hd'&Hcase).
    rewrite Hr in Hs. injection Hs as <-. split; cbn; [done| |done| |].
    { intros u p c. rewrite lookup_insert. case_decide; intros; simplify_eq/=.
      destruct wake; [|by eauto]. rewrite lookup_wake_all in *.
      destruct (tasks s !! u) eqn:?; simplify_eq/=. rewrite in_call_woken in *. eauto. }
    + intros u p. rewrite lookup_insert. case_decide; intros; simplify_eq; eauto.
      destruct wake.
      * rewrite lookup_wake_all in *. destruct (tasks s !! u) as [q|] eqn:Hu; simplify_eq/=.
        eapply (task_ok_wake_readers (mutex s)) with (t := t) (len := current_len (dev s)); [| |by intros; apply elem_of_unqueue|by eauto];
          [done|congruence].
      * destruct Hcase as [(?&_)|(_&_&_&Hl)]; [done|].
        eapply (task_ok_frame (mutex s)) with (t := t) (len := current_len (dev s)); [| |by eauto|by intros; apply elem_of_unqueue|lia|by eauto];
          congruence.
    + destruct Hcase as [(->&->&Hc&_)|(->&->&Hc&_)]; rewrite Hc, Hh; by rewrite ?app_assoc, ?app_nil_r.
Qed.
(** Entering a handler: mutex_lock and, for the blocking calls, add_wait_queue. *)
Lemma enter_inv s t c s' :
  sys_inv s → tasks s !! t = Some (Enter c) → enter s t c = Some s' → sys_inv s'.
Proof.
  intros [Hx Hb Hd Ht Hh] Htk Hs. unfold enter in Hs.
  destruct (mutex s) eqn:Hmu; [done|].
  destruct c as [nb buf n|nb buf n|cmd|]; simplify_eq.
  - split; cbn; [|intros u p c|done|intros u p|done].
    + intros u ?; simplify_eq. rewrite lookup_insert_eq. by eexists.
    + rewrite lookup_insert. case_decide; intros; simplify_eq/=; [done|eauto].
    + rewrite lookup_insert. case_decide; intros; simplify_eq.
      * split_and!; intros; simplify_eq/=; try done; by left.
      * eapply (task_ok_frame None) with (t := t) (len := current_len (dev s));
          [done|done|by right|by eauto|done|by eauto].
  - split; cbn; [|intros u p c|done|intros u p|done].
    + intros u ?; simplify_eq. rewrite lookup_insert_eq. by eexists.
    + rewrite lookup_insert. case_decide; intros; simplify_eq/=; [done|eauto].
    + rewrite lookup_insert. case_decide; intros; simplify_eq.
      * split_and!; intros; simplify_eq/=; try done; by left.
      * eapply (task_ok_frame None) with (t := t) (len := current_len (dev s));
          [done|done|by eauto|by right|done|by eauto].
  - destruct (globalfifo_ioctl (dev s) cmd) as [[r d]|] eqn:Eio; simplify_eq/=.
    assert (dev_wf d ∧ (current_len (dev s) = 0 → current_len d = 0) ∧
      contents (dev s) = drop (length (contents d)) (contents (dev s)) ++ contents d)
      as (Hd'&Hl&Hc).
    { unfold globalfifo_ioctl in Eio. destruct (cmd =? FIFO_CLEAR); simplify_eq/=.
      - destruct (store _ _ _) as [m|] eqn:Es; simplify_eq/=.
        apply store_Some_inv in Es as (?&?&->). destruct Hd as [Hm ?].
        split; [|split; [done|cbn; by rewrite app_nil_r]].
        split; [|cbn; unfold_consts; lia]. cbn [mem]. by rewrite splice_length.
      - by rewrite drop_all. }
    split; cbn; [done|intros u p c|done|intros u p|].
    + rewrite lookup_insert. case_decide; intros; simplify_eq/=; eauto.
    + rewrite lookup_insert. case_decide; intros; simplify_eq; [done|].
      eapply (task_ok_frame None) with (t := t) (len := current_len (dev s)); by eauto.
    + by rewrite <- app_assoc, <- Hc.
  - split; cbn; [done|intros u p c|done|intros u p|done].
    + rewrite lookup_insert. case_decide; intros; simplify_eq/=; eauto.
    + rewrite lookup_insert. case_decide; intros; simplify_eq; [done|].
      eapply (task_ok_frame None) with (t := t) (len := current_len (dev s)); by eauto.
Qed.

(** A task moving to a point where it holds neither mutex nor new queue entry. *)
Lemma with_task_inv s t p q :
  sys_inv s → tasks s !! t = q → (∀ c, q ≠ Some (Loop c)) → (∀ c, p ≠ Loop c) →
  (∀ c, p ≠ Asleep c) →
  (in_call p = None ∨ ∃ q', q = Some q' ∧ in_call p = in_call q') →
  sys_inv (with_task s t p).
Proof.
  intros [Hx Hb Hd Ht Hh] Hq Hql Hpl Hpa Hin. split; cbn; [|intros u p' c|done|intros u p'|done].
  - intros u Hu. destruct (Hx u Hu) as (c&Hc&?). exists c. split; [|done].
    rewrite lookup_insert_ne; [done|]. intros ->. naive_solver.
  - rewrite lookup_insert. case_decide; intros; simplify_eq; [|eauto].
    destruct Hin as [?|(q'&?&?)]; [congruence|]. eapply Hb; [done|congruence].
  - rewrite lookup_insert. case_decide; intros; simplify_eq; [|by eauto].
    destruct Hin as [Hn|(q'&Hq'&Hn)].
    + split_and!; intros; simplify_eq/=; naive_solver.
    + destruct (Ht _ _ Hq') as (H1&H2&H3&H4). rewrite <- Hn in H2, H3.
      split_and!; intros; simplify_eq/=; naive_solver.
Qed.

Lemma fifo_step_inv s e s' :
  sys_inv s → (overlapping s e = true → memcpy_moves_down) →
  step fasync_helper s e = Some s' → sys_inv s'.
Proof.
  intros Hi Hdown Hs. pose proof Hi as [Hx Hb Hd Ht Hh].
  destruct e as [t c|t sig|t|fd f m|f]; cbn in Hs, Hdown.
  - destruct (tasks s !! t) as [[]|] eqn:E; simplify_eq; eapply with_task_inv; eauto.
  - destruct (tasks s !! t) as [[c|c| |c|c|]|] eqn:E; simplify_eq.
    + by eapply enter_inv.
    + assert (mutex s = Some t) by (eapply (Ht _ _ E); done).
      destruct c; simplify_eq; eauto using read_inv, write_inv.
    + unfold after_schedule. destruct sig; [|eapply (with_task_inv s t (Relock c)); naive_solver].
      split; cbn; [|intros u p c'|done|intros u p|done].
      * intros u Hu. destruct (Hx u Hu) as (c'&Hc&?). exists c'. split; [|done].
        rewrite lookup_insert_ne; [done|]. intros ->. congruence.
      * rewrite lookup_insert. case_decide; intros; simplify_eq/=; eauto.
      * rewrite lookup_insert. case_decide; intros; simplify_eq; [done|].
        destruct (Ht u p ltac:(done)) as (K1&K2&K3&K4).
        split_and!; intros; eauto; destruct c; eauto; apply elem_of_unqueue; split; eauto.
    + destruct (mutex s) eqn:Hmu; simplify_eq.
      split; cbn; [|intros u p c'|done|intros u p|done].
      * intros u ?; simplify_eq. rewrite lookup_insert_eq. exists c. split; [done|by eapply Hb].
      * rewrite lookup_insert. case_decide; intros; simplify_eq/=; [|by eauto].
        by eapply Hb.
      * rewrite lookup_insert. case_decide; intros; simplify_eq.
        -- destruct (Ht _ _ E) as (K1&K2&K3&K4). split_and!; intros; simplify_eq/=; eauto.
        -- eapply (task_ok_frame None) with (t := t) (len := current_len (dev s)); by eauto.
  - destruct (tasks s !! t) as [[]|] eqn:E; simplify_eq. eapply with_task_inv; naive_solver.
  - unfold globalfifo_fasync in Hs. destruct (fasync_helper _ _ _ _) as [r q]. simplify_eq/=.
    split; by eauto.
  - unfold globalfifo_release, globalfifo_fasync in Hs.
    destruct (fasync_helper _ _ _ _) as [r q]. simplify_eq/=. split; by eauto.
Qed.

Section runs.
Context (down : bool) (Hdown : down = true → memcpy_moves_down).

Lemma fifo_step_within_inv s e s' :
  sys_inv s → step_within down fasync_helper s e = Some s' → sys_inv s'.
Proof using Hdown UCok MCok. intros Hi [Hs Ho]%step_within_step. eapply fifo_step_inv; eauto. Qed.

Lemma reachable_inv s :
  reachable (eq init_sys) (step_within down fasync_helper) s → sys_inv s.
Proof using Hdown UCok MCok.
  apply invariant_reachable; [intros ? <-; apply init_inv | intros; eauto using fifo_step_within_inv].
Qed.
End runs.

(** Runs in which nobody issues FIFO_CLEAR. *)
Definition step_noclear (down : bool) (s : sys) (e : event) : option sys :=
  match e with
  | ECall _ (CIoctl cmd) =>
      if cmd =? FIFO_CLEAR then None else step_within down fasync_helper s e
  | _ => step_within down fasync_helper s e
  end.

Lemma step_noclear_step down s e s' :
  step_noclear down s e = Some s' →
  step_within down fasync_helper s e = Some s' ∧ ∀ t, e ≠ ECall t (CIoctl FIFO_CLEAR).
Proof.
  unfold step_noclear. intros Hs. split; [by cases|]. by intros t ->.
Qed.

Definition writers_inv (s : sys) : Prop :=
  (∀ t nb buf n, tasks s !! t = Some (Asleep (CWrite nb buf n)) →
     current_len (dev s) = GLOBALFIFO_SIZE) ∧
  (∀ t, tasks s !! t ≠ Some (Enter (CIoctl FIFO_CLEAR))).

Lemma woken_no_clear q t p :
  p ≠ Enter (CIoctl FIFO_CLEAR) → woken q t p ≠ Enter (CIoctl FIFO_CLEAR).
Proof. unfold woken. case_decide; [by destruct p|done]. Qed.

(** Moving one task and keeping the fill level. *)
Lemma writers_inv_insert s t p s' :
  writers_inv s → tasks s' = <[t := p]> (tasks s) →
  current_len (dev s') = current_len (dev s) →
  (∀ nb buf n, p = Asleep (CWrite nb buf n) → current_len (dev s) = GLOBALFIFO_SIZE) →
  p ≠ Enter (CIoctl FIFO_CLEAR) → writers_inv s'.
Proof.
  intros [Hw Hc] Ht Hl Hp Hne. split.
  - intros u nb buf n. rewrite Ht, Hl, lookup_insert. case_decide; intros; simplify_eq; eauto.
  - intros u. rewrite Ht, lookup_insert. case_decide; [congruence|eauto].
Qed.

(** A read wakes every sleeping writer, whatever it leaves in the FIFO. *)
Lemma writers_inv_wake s t r out s' :
  sys_inv s → writers_inv s →
  tasks s' = <[t := Finished r out]> (wake_all (w_wait s) (tasks s)) → writers_inv s'.
Proof.
  intros Hi [Hw Hc] Ht. split.
  - intros u nb buf n. rewrite Ht, lookup_insert. case_decide; [done|].
    rewrite lookup_wake_all. intros Hu. destruct (tasks s !! u) as [p|] eqn:Hp; [|done].
    simplify_eq/=. destruct (inv_task s Hi _ _ Hp) as (_&_&K&_).
    unfold woken in *. case_decide as Hin; [by destruct p|].
    destruct Hin. subst p. by eapply K.
  - intros u. rewrite Ht, lookup_insert. case_decide; [done|].
    rewrite lookup_wake_all. destruct (tasks s !! u) as [p|] eqn:Hp; [|done].
    cbn. intros [=Hk]. by eapply woken_no_clear, Hk; intros ->; eapply Hc.
Qed.

Lemma write_writers_inv s t nb buf n s' :
  sys_inv s → writers_inv s → globalfifo_write s t nb buf n = Some s' → writers_inv s'.
Proof.
  intros Hi Hw Hs. pose proof Hw as [Hw1 Hw2]. unfold globalfifo_write in Hs.
  destruct (_ =? _) eqn:E; zbool.
  { destruct nb; simplify_eq; by eapply writers_inv_insert. }
  destruct (write_ready_spec (dev s) buf n (inv_dev s Hi)) as (ret&d&wake&kill&Hr&_).
  rewrite Hr in Hs. simplify_eq/=. split; cbn; intros u.
  - intros nb' buf' n'. rewrite lookup_insert. case_decide; [done|]. intros Hu. destruct E.
    destruct wake; [|by eauto]. rewrite lookup_wake_all in Hu.
    destruct (tasks s !! u) as [p|] eqn:Hp; simplify_eq/=.
    unfold woken in *. case_decide; [by destruct p|]. subst p. by eauto.
  - rewrite lookup_insert. case_decide; [done|]. destruct wake; [|by eauto].
    rewrite lookup_wake_all. destruct (tasks s !! u) as [p|] eqn:Hp; [|done].
    cbn. intros [=Hk]. by eapply woken_no_clear, Hk; intros ->; eapply Hw2.
Qed.

Lemma step_writers_inv s e s' :
  sys_inv s → writers_inv s → (∀ t, e ≠ ECall t (CIoctl FIFO_CLEAR)) →
  step fasync_helper s e = Some s' → writers_inv s'.
Proof.
  intros Hi Hw Hne Hs. pose proof Hw as [Hw1 Hw2].
  destruct e as [t c|t sig|t|fd f m|f].
  - assert (c ≠ CIoctl FIFO_CLEAR) as Hc by (intros ->; by eapply Hne).
    cbn in Hs. cases; eapply (writers_inv_insert s t (Enter c)); (done || congruence).
  - cbn in Hs. destruct (tasks s !! t) as [[c|[nb buf n|nb buf n| |]| |c|c|]|] eqn:E; simplify_eq.
    + unfold enter in Hs. destruct (mutex s); [done|]. destruct c as [| |cmd|]; simplify_eq;
        try by eapply writers_inv_insert.
      unfold globalfifo_ioctl in Hs.
      destruct (cmd =? FIFO_CLEAR) eqn:Ec; zbool; [subst; by destruct (Hw2 t)|].
      simplify_eq/=. by eapply writers_inv_insert.
    + unfold globalfifo_read in Hs. destruct (_ =? 0) eqn:E0.
      { destruct nb; simplify_eq; by eapply writers_inv_insert. }
      destruct (read_ready_spec (dev s) buf n (inv_dev s Hi))
        as (ret&d&buf'&wake&Hr&[(->&_)|(->&->&->)]); rewrite Hr in Hs; simplify_eq.
      * by eapply writers_inv_wake.
      * by eapply writers_inv_insert.
    + by eapply write_writers_inv.
    + unfold after_schedule. destruct sig; by eapply writers_inv_insert.
    + destruct (mutex s); simplify_eq. by eapply writers_inv_insert.
  - cbn in Hs. cases. by eapply writers_inv_insert.
  - cbn in Hs. unfold globalfifo_fasync in Hs. destruct (fasync_helper _ _ _ _). by simplify_eq/=.
  - cbn in Hs. unfold globalfifo_release, globalfifo_fasync in Hs.
    destruct (fasync_helper _ _ _ _). by simplify_eq/=.
Qed.
End inv.

(** Every task that is inside a handler and not asleep can be advanced, or the
    task that holds the mutex can. *)
Definition can_step `{UserCopy} `{Memcpy} (fh : Z → nat → Z → list nat → Z * list nat) (s : sys) : Prop :=
  ∃ u, is_Some (step fh s (EStep u false)).

(** The task that holds the mutex completes its critical section, whatever
    memcpy does: no access leaves the buffer or the user's block. *)
Lemma loop_completes `{UserCopyOk} `{MemcpyOk} fh s t c sig :
  sys_inv s → tasks s !! t = Some (Loop c) → is_Some (step fh s (EStep t sig)).
Proof.
  intros Hi Ht. assert (blocking c) as Hc by (by eapply inv_call).
  cbn. rewrite Ht. destruct c as [nb buf n|nb buf n| |]; try done.
  - unfold globalfifo_read. destruct (_ =? 0); [destruct nb; by eexists|].
    destruct (read_ready_spec (dev s) buf n (inv_dev s Hi)) as (?&?&?&?&->&_). by eexists.
  - unfold globalfifo_write. destruct (_ =? _); [destruct nb; by eexists|].
    destruct (write_ready_spec (dev s) buf n (inv_dev s Hi)) as (?&?&?&?&->&_). by eexists.
Qed.

Lemma enter_completes `{UserCopyOk} `{MemcpyOk} fh s t c sig :
  sys_inv s → tasks s !! t = Some (Enter c) → mutex s = None →
  is_Some (step fh s (EStep t sig)).
Proof.
  intros Hi Ht Hm. cbn. rewrite Ht. unfold enter. rewrite Hm.
  destruct c as [| |cmd|]; try by eexists.
  destruct (globalfifo_ioctl (dev s) cmd) as [[r d]|] eqn:E; [by eexists|].
  unfold globalfifo_ioctl in E. destruct (cmd =? FIFO_CLEAR); [|done].
  destruct (inv_dev s Hi). rewrite store_in_range in E; [done|lia|].
  rewrite zlen_zeros by (unfold_consts; lia). lia.
Qed.

(** The mutex lets the task in: it is free and the task is entering a handler, or
    the task holds it. *)
Definition granted (s : sys) (t : nat) : bool :=
  match tasks s !! t with
  | Some (Loop _) => true
  | Some (Enter _) => bool_decide (mutex s = None)
  | _ => false
  end.

(** A helper without registrations, for the witnesses. *)
Definition no_fasync (fd : Z) (filp : nat) (mode : Z) (q : list nat) : Z * list nat := (0, q).

(** ** Properties *)

(** C1 (refinement).  For every memcpy that does what is documented for blocks
    that do not overlap: in every state the system can reach, under any
    interleaving of readers, writers, FIFO_CLEAR, poll, signals and copy faults,
    the bytes accepted so far are the bytes delivered or cleared so far followed
    by the current contents of the buffer (nothing is lost, duplicated or
    reordered), the fill level stays in [0, 4096], and a task that the mutex
    lets in completes its critical section: no access leaves the buffer.  The
    runs are all runs if memcpy also moves an overlapping block to lower
    addresses whole ([down] true), and otherwise those in which no read leaves
    more bytes than it takes: the memcpy of such a read overlaps, and
    [fifo_order_needs_down] shows that the order is then lost. *)
Theorem fifo_order {UC : UserCopy} {UCok : UserCopyOk} {MC : Memcpy} {MCok : MemcpyOk}
    down fh s :
  (down = true → memcpy_moves_down) →
  reachable (eq init_sys) (step_within down fh) s →
  produced s = consumed s ++ contents (dev s) ∧ dev_wf (dev s) ∧
  ∀ t sig, granted s t = true → is_Some (step fh s (EStep t sig)).
Proof.
  intros Hd Hr%(reachable_inv fh down Hd). split; [apply Hr|]. split; [apply Hr|].
  intros t sig Ha. unfold granted in Ha. destruct (tasks s !! t) as [[c|c| |c|c|]|] eqn:Ht; try done.
  - eapply enter_completes; [done..|by apply bool_decide_eq_true in Ha].
  - by eapply loop_completes.
Qed.

Definition demo_writes : list event :=
  [ECall 1 (CRead false (zeros 4) 4); EStep 1 false; EStep 1 false;
   ECall 2 (CWrite false [7; 8; 9] 3); EStep 2 false; EStep 2 false;
   EStep 1 false; EStep 1 false; EStep 1 false].

(** Five bytes are written and two are read: the memcpy overlaps. *)
Definition demo_partial : list event :=
  [ECall 2 (CWrite false [1; 2; 3; 4; 5] 5); EStep 2 false; EStep 2 false;
   ECall 1 (CRead false (zeros 2) 2); EStep 1 false; EStep 1 false].

(** The claim at a run without an overlap and a memcpy that copies from the
    last byte, and at a run with one and a memcpy that copies from the first. *)
Lemma fifo_order_witness :
  (∃ s, @run _ _ (@step_within copy_all memcpy_down false no_fasync) init_sys demo_writes = Some s ∧
    tasks s !! 1%nat = Some (Finished 3 [7; 8; 9]) ∧
    produced s = consumed s ++ contents (dev s) ∧ dev_wf (dev s) ∧
    ∀ t sig, granted s t = true →
      is_Some (@step copy_all memcpy_down no_fasync s (EStep t sig))) ∧
  (∃ s, @run _ _ (@step_within copy_all memcpy_up true no_fasync) init_sys demo_partial = Some s ∧
    contents (dev s) = [3; 4; 5] ∧ produced s = consumed s ++ contents (dev s)).
Proof.
  split.
  - destruct (@run _ _ (@step_within copy_all memcpy_down false no_fasync) init_sys demo_writes)
      as [s|] eqn:E; [|exfalso; revert E; vm_compute; discriminate].
    exists s. split; [done|]. split; [revert E; vm_compute; by intros [= <-]|].
    apply (@fifo_order copy_all _ memcpy_down _ false no_fasync); [done|].
    eapply run_reachable; [by apply reach_init|exact E].
  - destruct (@run _ _ (@step_within copy_all memcpy_up true no_fasync) init_sys demo_partial)
      as [s|] eqn:E; [|exfalso; revert E; vm_compute; discriminate].
    exists s. split; [done|]. split; [revert E; vm_compute; by intros [= <-]|].
    apply (@fifo_order copy_all _ memcpy_up _ true no_fasync);
      [intros _; apply memcpy_up_moves_down|].
    eapply run_reachable; [by apply reach_init|exact E].
Defined.

(** The condition is needed: with a memcpy that keeps its documented promise
    but copies from the last byte, a read of two of five bytes leaves 5, 4, 5 in
    the place of 3, 4, 5. *)
Theorem fifo_order_needs_down :
  @MemcpyOk memcpy_down ∧
  ∃ s, @run _ _ (@step copy_all memcpy_down no_fasync) init_sys demo_partial = Some s ∧
    produced s = [1; 2; 3; 4; 5] ∧ consumed s = [1; 2] ∧ contents (dev s) = [5; 4; 5].
Proof. split; [apply _|]. vm_compute. eexists. by split_and!. Qed.

(** No lost wake-up for readers: a reader sleeps in schedule() only
    while the FIFO is empty, in every reachable state. *)
Theorem fifo_reader_wakeup {UC : UserCopy} {UCok : UserCopyOk} {MC : Memcpy} {MCok : MemcpyOk}
    down fh s t nb buf n :
  (down = true → memcpy_moves_down) →
  reachable (eq init_sys) (step_within down fh) s →
  tasks s !! t = Some (Asleep (CRead nb buf n)) → contents (dev s) = [].
Proof.
  intros Hd Hr%(reachable_inv fh down Hd) Ht. destruct (inv_task s Hr _ _ Ht) as (_&_&_&Hl).
  unfold contents. by rewrite (Hl _ _ _ eq_refl).
Qed.

Lemma fifo_reader_wakeup_witness :
  ∃ s, @run _ _ (@step_within copy_all memcpy_up false no_fasync) init_sys
         (take 3 demo_writes) = Some s ∧
    contents (dev s) = [].
Proof.
  destruct (@run _ _ (@step_within copy_all memcpy_up false no_fasync) init_sys
    (take 3 demo_writes)) as [s|] eqn:E; [|exfalso; revert E; vm_compute; discriminate].
  exists s. split; [done|].
  apply (@fifo_reader_wakeup copy_all _ memcpy_up _ false no_fasync s 1 false (zeros 4) 4).
  - done.
  - eapply run_reachable; [by apply reach_init|exact E].
  - revert E; vm_compute; by intros [= <-].
Defined.

(** No lost wake-up for writers as long as FIFO_CLEAR is not used:
    a writer sleeps only while the FIFO is full. *)
Theorem fifo_writer_wakeup {UC : UserCopy} {UCok : UserCopyOk} {MC : Memcpy} {MCok : MemcpyOk}
    down fh s t nb buf n :
  (down = true → memcpy_moves_down) →
  reachable (eq init_sys) (step_noclear fh down) s →
  tasks s !! t = Some (Asleep (CWrite nb buf n)) →
  zlen (contents (dev s)) = GLOBALFIFO_SIZE.
Proof.
  intros Hd Hr Ht. assert (sys_inv s ∧ writers_inv s) as [Hi Hw].
  { revert s Hr Ht. intros s Hr _. revert s Hr. apply invariant_reachable.
    - intros ? <-. by split; [apply init_inv|].
    - intros s1 e s2 [??] [Hs Hne]%step_noclear_step.
      split; [by eapply fifo_step_within_inv|].
      apply step_within_step in Hs as [Hs _]. by eapply step_writers_inv. }
  rewrite contents_length by apply Hi. by eapply Hw.
Qed.

Definition demo_full : list event :=
  [ECall 1 (CWrite false (zeros 4096) 4096); EStep 1 false; EStep 1 false;
   ECall 2 (CWrite false [1] 1); EStep 2 false; EStep 2 false].

Lemma fifo_writer_wakeup_witness :
  ∃ s, @run _ _ (@step_noclear copy_all memcpy_up no_fasync false) init_sys demo_full = Some s ∧
    zlen (contents (dev s)) = GLOBALFIFO_SIZE.
Proof.
  destruct (@run _ _ (@step_noclear copy_all memcpy_up no_fasync false) init_sys demo_full)
    as [s|] eqn:E; [|exfalso; revert E; vm_compute; discriminate].
  exists s. split; [done|].
  apply (@fifo_writer_wakeup copy_all _ memcpy_up _ false no_fasync s 2 false [1] 1).
  - done.
  - eapply run_reachable; [by apply reach_init|exact E].
  - revert E; vm_compute; by intros [= <-].
Defined.

(** FIFO_CLEAR empties the buffer without waking the writers: there
    is a run after which a writer is asleep, no wake-up is pending for it,
    every other call has returned and the FIFO is empty. *)
Theorem fifo_clear_strands_writer :
  ∃ s, @run _ _ (@step copy_all memcpy_up no_fasync) init_sys
         (demo_full ++ [ECall 3 (CIoctl FIFO_CLEAR); EStep 3 false]) = Some s ∧
    tasks s !! 2%nat = Some (Asleep (CWrite false [1] 1)) ∧
    tasks s !! 1%nat = Some (Finished 4096 []) ∧ tasks s !! 3%nat = Some (Finished 0 []) ∧
    contents (dev s) = [] ∧ mutex s = None.
Proof. vm_compute. eexists. by split_and!. Qed.

(** The driver cannot deadlock on its mutex: in a reachable state
    with a task inside a handler that is neither asleep nor finished, some task
    can take a step. *)
Theorem fifo_progress {UC : UserCopy} {UCok : UserCopyOk} {MC : Memcpy} {MCok : MemcpyOk}
    down fh s t p :
  (down = true → memcpy_moves_down) →
  reachable (eq init_sys) (step_within down fh) s →
  tasks s !! t = Some p → (∀ c, p ≠ Asleep c) → (∀ r out, p ≠ Finished r out) →
  can_step fh s.
Proof.
  intros Hd Hi%(reachable_inv fh down Hd) Ht Ha Hf.
  destruct (mutex s) as [u|] eqn:Hm.
  { destruct (inv_mutex s Hi u Hm) as (c&?&?). exists u. by eapply loop_completes. }
  exists t. destruct p as [c|c| |c|c|]; try (exfalso; first [by eapply Ha | by eapply Hf]).
  - by eapply enter_completes.
  - by eapply loop_completes.
  - cbn. rewrite Ht. by eexists.
  - cbn. rewrite Ht, Hm. by eexists.
Qed.

Lemma fifo_progress_witness :
  ∃ s, @run _ _ (@step_within copy_all memcpy_up false no_fasync) init_sys
         (take 6 demo_writes) = Some s ∧
    @can_step copy_all memcpy_up no_fasync s.
Proof.
  destruct (@run _ _ (@step_within copy_all memcpy_up false no_fasync) init_sys
    (take 6 demo_writes)) as [s|] eqn:E; [|exfalso; revert E; vm_compute; discriminate].
  exists s. split; [done|].
  apply (@fifo_progress copy_all _ memcpy_up _ false no_fasync s 1 (Awake (CRead false (zeros 4) 4))).
  - done.
  - eapply run_reachable; [by apply reach_init|exact E].
  - revert E; vm_compute; by intros [= <-].
  - done.
  - done.
Defined.

(** poll agrees with what the non-blocking calls do: POLLIN is
    reported exactly when a non-blocking read would not return -EAGAIN, POLLOUT
    exactly when a non-blocking write would not. *)
Theorem fifo_poll_exact {UC : UserCopy} {UCok : UserCopyOk} {MC : Memcpy} {MCok : MemcpyOk}
    s t buf n :
  dev_wf (dev s) →
  (Z.testbit (globalfifo_poll (dev s)) 0 = false ↔
   ∃ s', globalfifo_read s t true buf n = Some s' ∧
     tasks s' !! t = Some (Finished (- EAGAIN) [])) ∧
  (Z.testbit (globalfifo_poll (dev s)) 2 = false ↔
   ∃ s', globalfifo_write s t true buf n = Some s' ∧
     tasks s' !! t = Some (Finished (- EAGAIN) [])).
Proof.
  intros Hd. pose proof Hd as [_ Hl].
  unfold globalfifo_poll, globalfifo_read, globalfifo_write. split.
  - destruct (current_len (dev s) =? 0) eqn:E; zbool.
    + split; [|by destruct (_ =? _)]. intros _. eexists. split; [done|]. apply lookup_insert_eq.
    + split; [by destruct (_ =? _)|]. intros (s'&Hs&Ht). exfalso.
      destruct (read_ready_spec (dev s) buf n Hd) as (r&d&b&w&Hr&Hc). rewrite Hr in Hs.
      simplify_eq. cbn in Ht. rewrite lookup_insert_eq in Ht. injection Ht as -> _.
      pose proof (uwrap_bound 64 n ltac:(lia)) as [??].
      unfold EAGAIN, EFAULT in *. destruct Hc as [(_&?&_)|(_&?&_)]; lia.
  - destruct (current_len (dev s) =? GLOBALFIFO_SIZE) eqn:E; zbool.
    + split; [|by destruct (_ =? _)]. intros _. eexists. split; [done|]. apply lookup_insert_eq.
    + split; [by destruct (_ =? _)|]. intros (s'&Hs&Ht). exfalso.
      destruct (write_ready_spec (dev s) buf n Hd) as (r&d&w&k&Hr&_&Hc). rewrite Hr in Hs.
      simplify_eq. cbn in Ht. rewrite lookup_insert_eq in Ht. injection Ht as ->.
      pose proof (uwrap_bound 64 n ltac:(lia)) as [??].
      unfold EAGAIN, EFAULT in *. destruct Hc as [(_&?&_)|(_&?&_)]; unfold_consts; lia.
Qed.

Lemma fifo_poll_exact_witness :
  Z.testbit (globalfifo_poll (dev init_sys)) 0 = false ↔
   ∃ s', @globalfifo_read (copy_upto 8) memcpy_up init_sys 1 true [] 5 = Some s' ∧
     tasks s' !! 1%nat = Some (Finished (- EAGAIN) []).
Proof.
  apply (@fifo_poll_exact (copy_upto 8) _ memcpy_up _ init_sys 1 [] 5).
  split; [reflexivity | cbn; unfold_consts; lia].
Defined.

(** globalfifo_init releases what it acquired when it fails, and
    globalfifo_exit undoes a successful one. *)
Theorem globalfifo_init_exit {W} `{ChrdevKernelOk W} sz major (w w' : W) ret major' devp :
  kobs_wf (observe w) → 0 < sz →
  globalfifo_init sz major w = (ret, major', devp, w') →
  (ret < 0 ∧ devp = None ∧ observe w' = observe w) ∨
  (ret = 0 ∧ ∃ p, devp = Some p ∧
     regions (observe w') !! MKDEV major' 0 = Some 1 ∧ heap (observe w') !! p = Some sz ∧
     observe (globalfifo_exit major' p w') = observe w).
Proof. intros Hwf Hsz Hi. exact (single_init_exit sz major w w' ret major' devp Hwf Hsz Hi). Qed.

Lemma globalfifo_init_exit_witness :
  let w := Ledger (Kobs ∅ ∅ ∅) [] 4096 in
  let '(ret, major', devp, w') := globalfifo_init 8192 231 w in
  (ret < 0 ∧ devp = None ∧ observe w' = observe w) ∨
  (ret = 0 ∧ ∃ p, devp = Some p ∧
     regions (observe w') !! MKDEV major' 0 = Some 1 ∧ heap (observe w') !! p = Some 8192 ∧
     observe (globalfifo_exit major' p w') = observe w).
Proof.
  cbv zeta. destruct (globalfifo_init _ _ _) as [[[ret major'] devp] w'] eqn:E.
  apply (globalfifo_init_exit 8192 231 (Ledger (Kobs ∅ ∅ ∅) [] 4096));
    [intros c Hc; cbn in Hc; by apply not_elem_of_empty in Hc | lia | exact E].
Defined.

End Globalfifo.
