(* ===== verification/Pthread.v ===== *)
(** * Threads over one mutex and its condition variables

    Shared by the components written against POSIX threads.  A component has a
    map from thread identifiers to program counters.  The code between
    pthread_mutex_lock and the matching pthread_mutex_unlock or
    pthread_cond_wait is one atomic step, because every access to the shared
    structure in it happens with the same mutex held; a thread that was woken
    from pthread_cond_wait takes the mutex again in a later step of its own, so
    any other thread may run in between.

    A program counter of "blocked" kind waits on a condition variable;
    [update_all] moves a set of threads at once (signal, broadcast), and
    [count] is how many threads are of a kind, which is what the integer
    counters of the sources are meant to hold. *)

From S2P Require Import Prelude.

Definition b2z (b : bool) : Z := if b then 1 else 0.

Lemma b2z_range b : 0 ≤ b2z b ≤ 1.
Proof. by destruct b. Qed.

Section threads.
Context {pc : Type}.
Implicit Types (ts : gmap nat pc) (P b : pc → bool) (ws : list nat).

Definition count P ts : Z := Z.of_nat (size (filter (λ kv, P kv.2 = true) ts)).

Definition update_all (g : nat → pc → pc) ts : gmap nat pc :=
  map_imap (λ t p, Some (g t p)) ts.

(** pthread_cond_signal: the threads [ws] are moved by [f]. *)
Definition wake (f : pc → pc) ws ts : gmap nat pc :=
  update_all (λ t p, if decide (t ∈ ws) then f p else p) ts.

(** pthread_cond_broadcast: every thread blocked on the variable is moved. *)
Definition wake_every b (f : pc → pc) ts : gmap nat pc :=
  update_all (λ _ p, if b p then f p else p) ts.

(** pthread_cond_signal unblocks at least one of the threads blocked on the
    variable, if there is any. *)
Definition signal_choice b ts ws : bool :=
  forallb (λ t, match ts !! t with Some p => b p | None => false end) ws &&
  (negb (0 <? count b ts) || negb (bool_decide (ws = []))).

Lemma count_nonneg P ts : 0 ≤ count P ts.
Proof. unfold count. lia. Qed.

Lemma count_empty P : count P ∅ = 0.
Proof. done. Qed.

Lemma count_insert_new P ts t q :
  ts !! t = None → count P (<[t := q]> ts) = count P ts + b2z (P q).
Proof.
  intros Ht. unfold count. rewrite map_filter_insert. cbn. case_decide as Hq.
  - rewrite map_size_insert_None by (rewrite map_lookup_filter_None; eauto).
    rewrite Hq. cbn. lia.
  - rewrite delete_id by done. destruct (P q); cbn; [done|lia].
Qed.

Lemma count_delete P ts t p :
  ts !! t = Some p → count P ts = count P (delete t ts) + b2z (P p).
Proof.
  intros Ht. rewrite <- (insert_delete_id ts t p Ht) at 1.
  apply count_insert_new, lookup_delete_eq.
Qed.

Lemma count_insert P ts t p q :
  ts !! t = Some p → count P (<[t := q]> ts) = count P ts - b2z (P p) + b2z (P q).
Proof.
  intros Ht. rewrite <- insert_delete_eq, count_insert_new by apply lookup_delete_eq.
  rewrite (count_delete P ts t p Ht). lia.
Qed.

Lemma count_pos P ts : 0 < count P ts ↔ ∃ t p, ts !! t = Some p ∧ P p = true.
Proof.
  unfold count. split.
  - intros Hc. destruct (map_choose (filter (λ kv, P kv.2 = true) ts)) as (t&p&Hp).
    { intros He. rewrite He, map_size_empty in Hc. lia. }
    apply map_lookup_filter_Some in Hp. eauto.
  - intros (t&p&Hp&HP). enough (size (filter (λ kv, P kv.2 = true) ts) ≠ 0%nat) by lia.
    rewrite map_size_ne_0_lookup. exists t, p. by apply map_lookup_filter_Some.
Qed.

Lemma count_zero P ts t p : count P ts = 0 → ts !! t = Some p → P p = false.
Proof.
  intros Hc Ht. destruct (P p) eqn:E; [|done].
  assert (0 < count P ts) by (apply count_pos; eauto). lia.
Qed.

Lemma count_ge P ts t p : ts !! t = Some p → b2z (P p) ≤ count P ts.
Proof. intros Ht. rewrite (count_delete P ts t p Ht). pose proof (count_nonneg P (delete t ts)). lia. Qed.

Lemma count_two P ts t u p q :
  ts !! t = Some p → ts !! u = Some q → P p = true → P q = true → t ≠ u → 2 ≤ count P ts.
Proof.
  intros Ht Hu Hp Hq Hne. rewrite (count_delete P ts t p Ht), Hp.
  assert (0 < count P (delete t ts)); [|cbn; lia].
  apply count_pos. exists u, q. by rewrite lookup_delete_ne.
Qed.

Lemma lookup_update_all g ts t : update_all g ts !! t = g t <$> ts !! t.
Proof. unfold update_all. rewrite map_lookup_imap. by destruct (ts !! t). Qed.

Lemma update_all_insert g ts t q :
  update_all g (<[t := q]> ts) = <[t := g t q]> (update_all g ts).
Proof.
  apply map_eq. intros u. rewrite lookup_update_all.
  destruct (decide (u = t)) as [->|]; [by rewrite !lookup_insert_eq|].
  by rewrite !lookup_insert_ne, lookup_update_all.
Qed.

(** Moving threads does not change the count of a kind they stay in. *)
Lemma count_update_all P g ts :
  (∀ t p, ts !! t = Some p → P (g t p) = P p) → count P (update_all g ts) = count P ts.
Proof.
  induction ts as [|t p ts Ht IH] using map_ind; intros Hg; [done|].
  rewrite update_all_insert, !count_insert_new by (rewrite ?lookup_update_all, ?Ht; done).
  rewrite (Hg t p (lookup_insert_eq _ _ _)), IH; [done|].
  intros u q Hu. apply Hg. by rewrite lookup_insert_ne by congruence.
Qed.

Lemma count_update_all_le P g ts :
  (∀ t p, ts !! t = Some p → P (g t p) = true → P p = true) → count P (update_all g ts) ≤ count P ts.
Proof.
  induction ts as [|t p ts Ht IH] using map_ind; intros Hg; [done|].
  rewrite update_all_insert, !count_insert_new by (rewrite ?lookup_update_all, ?Ht; done).
  assert (count P (update_all g ts) ≤ count P ts).
  { apply IH. intros u q Hu. apply Hg. by rewrite lookup_insert_ne by congruence. }
  specialize (Hg t p (lookup_insert_eq _ _ _)). destruct (P (g t p)), (P p); cbn; naive_solver lia.
Qed.

Lemma count_update_all_lt P g ts t p :
  (∀ t p, ts !! t = Some p → P (g t p) = true → P p = true) →
  ts !! t = Some p → P p = true → P (g t p) = false → count P (update_all g ts) < count P ts.
Proof.
  intros Hg Ht Hp Hgp. rewrite <- (insert_delete_id ts t p Ht) at 1 2.
  rewrite update_all_insert, !count_insert_new, Hp, Hgp
    by (rewrite ?lookup_update_all, lookup_delete_eq; done).
  assert (count P (update_all g (delete t ts)) ≤ count P (delete t ts)); [|cbn; lia].
  apply count_update_all_le. intros u q Hu. apply Hg. by apply lookup_delete_Some in Hu as [_ ?].
Qed.

(** A kind that is the disjoint union of two others. *)
Lemma count_split P Q R ts :
  (∀ p, b2z (P p) = b2z (Q p) + b2z (R p)) → count P ts = count Q ts + count R ts.
Proof.
  intros HP. induction ts as [|t p ts Ht IH] using map_ind; [done|].
  rewrite !count_insert_new, IH, HP by done. lia.
Qed.

Lemma count_negb P ts : count P ts + count (λ p, negb (P p)) ts = Z.of_nat (size ts).
Proof.
  rewrite <- (count_split (λ _, true)) by (intros p; by destruct (P p)).
  unfold count. rewrite map_filter_id by done. done.
Qed.

(** All but one thread are of the kind: then every other one is. *)
Lemma count_all_but P ts t u p q :
  count P ts = Z.of_nat (size ts) - 1 → ts !! t = Some p → P p = false →
  ts !! u = Some q → u ≠ t → P q = true.
Proof.
  intros Hc Ht Hp Hu Hne. destruct (P q) eqn:Hq; [done|].
  pose proof (count_negb P ts).
  assert (2 ≤ count (λ p, negb (P p)) ts); [|lia].
  eapply (count_two _ _ u t); [done..| | |done]; cbn; by rewrite ?Hp, ?Hq.
Qed.

Lemma size_update_all g ts : size (update_all g ts) = size ts.
Proof.
  induction ts as [|t p ts Ht IH] using map_ind; [done|].
  rewrite update_all_insert, !map_size_insert_None, IH by (rewrite ?lookup_update_all, ?Ht; done).
  done.
Qed.

Lemma count_wake P f ws ts : (∀ p, P (f p) = P p) → count P (wake f ws ts) = count P ts.
Proof. intros Hf. apply count_update_all. intros. case_decide; auto. Qed.

Lemma count_wake_every P b f ts :
  (∀ p, b p = true → P (f p) = P p) → count P (wake_every b f ts) = count P ts.
Proof. intros Hf. apply count_update_all. intros. case_match; auto. Qed.

Lemma lookup_wake f ws ts t :
  wake f ws ts !! t = (λ p, if decide (t ∈ ws) then f p else p) <$> ts !! t.
Proof. apply lookup_update_all. Qed.

Lemma lookup_wake_every b f ts t :
  wake_every b f ts !! t = (λ p, if b p then f p else p) <$> ts !! t.
Proof. apply lookup_update_all. Qed.

Lemma count_wake_every_none b f ts :
  (∀ p, b p = true → b (f p) = false) → count b (wake_every b f ts) = 0.
Proof.
  intros Hf. pose proof (count_nonneg b (wake_every b f ts)).
  destruct (decide (0 < count b (wake_every b f ts))) as [Hc|]; [|lia].
  apply count_pos in Hc as (t&p&Ht&Hp). rewrite lookup_wake_every in Ht.
  apply fmap_Some in Ht as (q&_&->). destruct (b q) eqn:E; [|congruence].
  rewrite Hf in Hp by done. done.
Qed.

(** A signal with somebody blocked leaves somebody woken. *)
Lemma count_wake_pos P b f ws ts :
  (∀ p, b p = true → P (f p) = true) → signal_choice b ts ws = true → 0 < count b ts →
  0 < count P (wake f ws ts).
Proof.
  intros Hf [Hall Hne]%andb_true_iff Hc.
  rewrite (proj2 (Z.ltb_lt _ _) Hc) in Hne. cbn in Hne.
  destruct ws as [|t ws]; [done|]. cbn in Hall. apply andb_true_iff in Hall as [Ht _].
  destruct (ts !! t) as [p|] eqn:E; [|done]. apply count_pos. exists t, (f p).
  rewrite lookup_wake, E. cbn. rewrite decide_True by set_solver. auto.
Qed.

Lemma signal_choice_blocked b ts ws t :
  signal_choice b ts ws = true → t ∈ ws → ∃ p, ts !! t = Some p ∧ b p = true.
Proof.
  intros [Hall _]%andb_true_iff Hin. rewrite forallb_forall in Hall.
  specialize (Hall t). rewrite <- list_elem_of_In in Hall. specialize (Hall Hin).
  destruct (ts !! t) as [p|]; [eauto|done].
Qed.

(** A signal with somebody blocked leaves fewer blocked. *)
Lemma count_wake_lt b f ws ts :
  (∀ p, b p = true → b (f p) = false) → signal_choice b ts ws = true → 0 < count b ts →
  count b (wake f ws ts) < count b ts.
Proof.
  intros Hf Hs Hc. pose proof Hs as [_ Hne]%andb_true_iff. rewrite (proj2 (Z.ltb_lt _ _) Hc) in Hne.
  destruct ws as [|t ws]; [done|]. destruct (signal_choice_blocked b ts (t :: ws) t Hs) as (p&Ht&Hp);
    [set_solver|].
  eapply (count_update_all_lt _ _ _ t p); [|done|done|].
  - intros u q Hu. case_decide as Hin; [|done].
    destruct (signal_choice_blocked b ts _ u Hs Hin) as (q'&?&?). simplify_eq. by rewrite Hf.
  - rewrite decide_True by set_solver. auto.
Qed.

(** A signal leaves the count of every kind its blocked threads stay in. *)
Lemma count_signal P b f ws ts :
  signal_choice b ts ws = true → (∀ p, b p = true → P (f p) = P p) →
  count P (wake f ws ts) = count P ts.
Proof.
  intros Hs Hf. apply count_update_all. intros t p Ht. case_decide as Hin; [|done].
  destruct (signal_choice_blocked b ts ws t Hs Hin) as (q&?&?). simplify_eq. auto.
Qed.

(** There is always a choice a signal may make. *)
Lemma signal_choice_exists b ts : ∃ ws, signal_choice b ts ws = true.
Proof.
  unfold signal_choice. destruct (0 <? count b ts) eqn:E; zbool.
  - apply count_pos in E as (t&p&Ht&Hp). exists [t]. cbn. by rewrite Ht, Hp.
  - exists []. done.
Qed.

(** Threads outside the blocked kind are not touched by a signal or broadcast. *)
Lemma wake_other b f ws ts t p :
  signal_choice b ts ws = true → ts !! t = Some p → b p = false → wake f ws ts !! t = Some p.
Proof.
  intros Hs Ht Hb. rewrite lookup_wake, Ht. cbn. case_decide; [|done].
  destruct (signal_choice_blocked b ts ws t) as (q&?&?); [done..|]. congruence.
Qed.

Lemma wake_every_other b f ts t p :
  ts !! t = Some p → b p = false → wake_every b f ts !! t = Some p.
Proof. intros Ht Hb. rewrite lookup_wake_every, Ht. cbn. by rewrite Hb. Qed.

(** A quantity summed over all threads. *)
Definition total (f : pc → Z) ts : Z := map_fold (λ _ p acc, f p + acc) 0 ts.

Lemma total_insert_new f ts t q :
  ts !! t = None → total f (<[t := q]> ts) = f q + total f ts.
Proof. intros Ht. unfold total. rewrite map_fold_insert_L; [done|intros; lia|done]. Qed.

Lemma total_delete f ts t p : ts !! t = Some p → total f ts = f p + total f (delete t ts).
Proof.
  intros Ht. rewrite <- (insert_delete_id ts t p Ht) at 1.
  apply total_insert_new, lookup_delete_eq.
Qed.

Lemma total_insert f ts t p q :
  ts !! t = Some p → total f (<[t := q]> ts) = total f ts - f p + f q.
Proof.
  intros Ht. rewrite <- insert_delete_eq, total_insert_new by apply lookup_delete_eq.
  rewrite (total_delete f ts t p Ht). lia.
Qed.

Lemma total_update_all f g ts :
  (∀ t p, ts !! t = Some p → f (g t p) = f p) → total f (update_all g ts) = total f ts.
Proof.
  induction ts as [|t p ts Ht IH] using map_ind; intros Hg; [done|].
  rewrite update_all_insert, !total_insert_new by (rewrite ?lookup_update_all, ?Ht; done).
  rewrite (Hg t p (lookup_insert_eq _ _ _)), IH; [done|].
  intros u q Hu. apply Hg. by rewrite lookup_insert_ne by congruence.
Qed.

Lemma total_wake f g ws ts : (∀ p, f (g p) = f p) → total f (wake g ws ts) = total f ts.
Proof. intros Hf. apply total_update_all. intros. case_decide; auto. Qed.

Lemma total_nonneg f ts : (∀ t p, ts !! t = Some p → 0 ≤ f p) → 0 ≤ total f ts.
Proof.
  induction ts as [|t p ts Ht IH] using map_ind; intros Hz; [done|].
  rewrite total_insert_new by done. specialize (Hz t p (lookup_insert_eq _ _ _)) as Hp.
  assert (0 ≤ total f ts); [|lia]. apply IH. intros u q Hu. apply (Hz u).
  by rewrite lookup_insert_ne by congruence.
Qed.

Lemma total_zero f ts : (∀ t p, ts !! t = Some p → f p = 0) → total f ts = 0.
Proof.
  induction ts as [|t p ts Ht IH] using map_ind; intros Hz; [done|].
  rewrite total_insert_new, (Hz t p), IH by (done || (intros; eapply Hz, lookup_insert_Some; naive_solver)
    || apply lookup_insert_eq). done.
Qed.
End threads.

Create Rewrite HintDb threads.
#[export] Hint Rewrite @count_empty : threads.
