(* ===== verification/LinkedList.v ===== *)
(** * Singly linked lists in a heap

    Shared by the components that queue requests through a [next] pointer.  A
    heap maps addresses to elements of type [E]; [nxt] reads the pointer of an
    element and [dat] its payload.  [lseg h p l q]: from [p] the pointers lead
    through the elements [l] to [q]; a list is a segment that ends in NULL. *)

From S2P Require Import Prelude.

Section linked.
Context {E D : Type} (nxt : E → option nat) (dat : E → D).
Implicit Types (h : gmap nat E) (l : list (nat * D)) (p q : option nat).

Fixpoint lseg h p l q : Prop :=
  match l with
  | [] => p = q
  | (a, d) :: l => p = Some a ∧ ∃ e, h !! a = Some e ∧ dat e = d ∧ lseg h (nxt e) l q
  end.

Definition chain h p l : Prop := lseg h p l None.

Lemma lseg_app h p l1 l2 q :
  lseg h p (l1 ++ l2) q ↔ ∃ r, lseg h p l1 r ∧ lseg h r l2 q.
Proof.
  revert p. induction l1 as [|[a d] l1 IH]; cbn; intros p; [naive_solver|].
  setoid_rewrite IH. naive_solver.
Qed.

Lemma lseg_same h h' p l q :
  (∀ a, a ∈ l.*1 → h' !! a = h !! a) → lseg h p l q → lseg h' p l q.
Proof.
  revert p. induction l as [|[b d] l IH]; cbn; [done|]. intros p Hs (->&e&Hb&Hd&Hl).
  split; [done|]. exists e. rewrite Hs by set_solver. split_and!; [done..|].
  apply IH; [|done]. intros a Ha. apply Hs. set_solver.
Qed.

Lemma lseg_insert h p l q a e : lseg h p l q → a ∉ l.*1 → lseg (<[a := e]> h) p l q.
Proof.
  intros Hl Ha. eapply lseg_same; [|done]. intros b Hb. rewrite lookup_insert_ne; [done|]. by intros ->.
Qed.

Lemma lseg_delete h p l q a : lseg h p l q → a ∉ l.*1 → lseg (delete a h) p l q.
Proof.
  intros Hl Ha. eapply lseg_same; [|done]. intros b Hb. rewrite lookup_delete_ne; [done|]. by intros ->.
Qed.

Lemma lseg_in_heap h p l q a : lseg h p l q → a ∈ l.*1 → is_Some (h !! a).
Proof.
  revert p. induction l as [|[b d] l IH]; cbn; intros p; [by intros _ ?%elem_of_nil|].
  intros (->&e&Hb&_&Hl) [->|Ha]%elem_of_cons; [by rewrite Hb|eauto].
Qed.

Lemma chain_head h p l : chain h p l → p = fst <$> head l.
Proof. destruct l as [|[a d] l]; cbn; [done|]. by intros [-> _]. Qed.

(** Redirecting the pointer of the last element of a segment. *)
Lemma lseg_snoc_set h p l z dz q r e :
  lseg h p (l ++ [(z, dz)]) q → NoDup (l ++ [(z, dz)]).*1 → nxt e = r → dat e = dz →
  lseg (<[z := e]> h) p (l ++ [(z, dz)]) r.
Proof.
  rewrite fmap_app, NoDup_app, !lseg_app. intros (m&Hl&->&_) (_&Hz&_) Hn Hd. exists (Some z). split.
  - apply lseg_insert; [done|]. intros Hin. apply (Hz z Hin). set_solver.
  - cbn. split; [done|]. exists e. by rewrite lookup_insert_eq.
Qed.
End linked.
