(* ===== verification/VmemDisk.v ===== *)
(** * vmem_disk: a RAM-backed block device

    Models ldd-k4/kernel/drivers/vmem_disk/vmem_disk.c: the transfer of
    sectors, the bio and request-queue paths, the reported geometry, and the
    set-up and tear-down of the four devices.  [None] is a [memcpy] outside
    the device's array or the caller's buffer. *)

From S2P Require Import Prelude.

Module VmemDisk.

Definition HARDSECT_SIZE : Z := 512.
Definition NSECTORS : Z := 1024.
Definition NDEVICES : nat := 4.
Definition KERNEL_SECTOR_SIZE : Z := 512.
Definition VMEM_DISK_MINORS : Z := 16.
Definition VMEMD_QUEUE : Z := 0.
Definition VMEMD_NOQUEUE : Z := 1.

(** The fields the I/O paths use. *)
Record vmem_disk_dev := Dev {
  size : Z;        (** int *)
  data : list Z
}.

Definition vmem_disk_transfer (dev : vmem_disk_dev) (sector nsect : Z) (buffer : list Z)
    (write : bool) : option (vmem_disk_dev * list Z) :=
  let offset := u64 (sector * KERNEL_SECTOR_SIZE) in
  let nbytes := u64 (nsect * KERNEL_SECTOR_SIZE) in
  if u64 (size dev) <? u64 (offset + nbytes) then Some (dev, buffer)
  else if write then
    bs ← load 0 nbytes buffer;
    d ← store offset bs (data dev);
    Some (Dev (size dev) d, buffer)
  else
    bs ← load offset nbytes (data dev);
    buffer' ← store 0 bs buffer;
    Some (dev, buffer').

(** A bio: its first sector, its segments and its direction. *)
Record bio := Bio {
  bi_sector : Z;
  bi_segs : list (list Z);
  bi_write : bool
}.

Section bio.
(** [bio_cur_bytes]: the length of the bio's current segment.  The loop below
    iterates with a copy of the iterator, so the bio itself does not advance. *)
Context (bio_cur_bytes : bio → Z).

Fixpoint xfer_segments (b : bio) (dev : vmem_disk_dev) (sector : Z) (segs : list (list Z))
    : option (vmem_disk_dev * list (list Z)) :=
  match segs with
  | [] => Some (dev, [])
  | buffer :: segs =>
      let n := Z.shiftr (bio_cur_bytes b) 9 in
      '(dev, buffer') ← vmem_disk_transfer dev sector n buffer (bi_write b);
      '(dev, segs') ← xfer_segments b dev (u64 (sector + n)) segs;
      Some (dev, buffer' :: segs')
  end.

Definition vmem_disk_xfer_bio (dev : vmem_disk_dev) (b : bio)
    : option (Z * vmem_disk_dev * bio) :=
  '(dev, segs) ← xfer_segments b dev (bi_sector b) (bi_segs b);
  Some (0, dev, Bio (bi_sector b) segs (bi_write b)).

(** [None] in [rq_fs] stands for a request that is not REQ_TYPE_FS. *)
Record request := Request { rq_disk : nat; rq_fs : bool; rq_bios : list bio }.

Fixpoint xfer_bios (dev : vmem_disk_dev) (bs : list bio) : option (vmem_disk_dev * list bio) :=
  match bs with
  | [] => Some (dev, [])
  | b :: bs =>
      '(_, dev, b') ← vmem_disk_xfer_bio dev b;
      '(dev, bs') ← xfer_bios dev bs;
      Some (dev, b' :: bs')
  end.

(** The loop over [blk_peek_request]: each request is started and ended once,
    with -EIO when it is not a file-system request.  Returns the devices and
    the completions in order. *)
Fixpoint vmem_disk_request (devs : list vmem_disk_dev) (q : list request)
    : option (list vmem_disk_dev * list (Z * request)) :=
  match q with
  | [] => Some (devs, [])
  | req :: q =>
      if negb (rq_fs req) then
        '(devs, done) ← vmem_disk_request devs q;
        Some (devs, (- EIO, req) :: done)
      else
        dev ← devs !! rq_disk req;
        '(dev, bs) ← xfer_bios dev (rq_bios req);
        '(devs, done) ← vmem_disk_request (<[rq_disk req := dev]> devs) q;
        Some (devs, (0, Request (rq_disk req) true bs) :: done)
  end.

Definition vmem_disk_make_request (dev : vmem_disk_dev) (b : bio)
    : option (Z * vmem_disk_dev * bio) :=
  '(status, dev, b) ← vmem_disk_xfer_bio dev b;
  Some (status, dev, b).   (* bi_error = status; bio_endio *)
End bio.

Record hd_geometry := Geo { cylinders : Z; heads : Z; sectors : Z; start : Z }.

Definition vmem_disk_getgeo (dev : vmem_disk_dev) : Z * hd_geometry :=
  let sz := size dev * (HARDSECT_SIZE / KERNEL_SECTOR_SIZE) in
  (0, Geo (uwrap 16 (Z.shiftr (Z.land sz (Z.lnot 0x3f)) 6)) 4 16 4).

(** ** Set-up and tear-down

    What the kernel is asked to acquire and release, in order.  [RQueue b] is
    the request queue of device [i], made by blk_alloc_queue and dropped by
    kobject_put when [b], made by blk_init_queue and dropped by
    blk_cleanup_queue otherwise; [RDisk] is made by alloc_disk and add_disk and
    dropped by del_gendisk and put_disk; [RDevices] is the kmalloc'ed array. *)

Inductive res := RData | RQueue (own_make_request : bool) | RDisk.
#[export] Instance res_eq_dec : EqDecision res.
Proof. solve_decision. Defined.

Inductive blk_name := vmem_disk | sbd.
#[export] Instance blk_name_eq_dec : EqDecision blk_name.
Proof. solve_decision. Defined.

Inductive kop :=
| Acquire (r : res) (i : nat)
| Release (r : res) (i : nat)
| Register_blkdev (major : Z) (name : blk_name)
| Unregister_blkdev (major : Z) (name : blk_name)
| Kmalloc_devices
| Kfree_devices.
#[export] Instance kop_eq_dec : EqDecision kop.
Proof. solve_decision. Defined.

(** The pointers of [struct vmem_disk_dev] that set-up and tear-down test. *)
Record dev_ptrs := Ptrs { p_data : bool; p_queue : bool; p_gd : bool }.

Section setup.
(** Outcomes of vmalloc, blk_alloc_queue or blk_init_queue, and alloc_disk, for
    each device, and the module parameter request_mode. *)
Context (vmalloc_ok queue_ok disk_ok : nat → bool) (request_mode : Z).

(** [VMEMD_NOQUEUE] allocates a queue for [vmem_disk_make_request]; every other
    mode, known or not, one for [vmem_disk_request]. *)
Definition queue_kind : res := RQueue (request_mode =? VMEMD_NOQUEUE).

(** On [out_vfree] the data area is freed and [dev->data] keeps its value. *)
Definition setup_device (which : nat) : dev_ptrs * list kop :=
  if negb (vmalloc_ok which) then (Ptrs false false false, []) else
  if negb (queue_ok which) then
    (Ptrs true false false, [Acquire RData which; Release RData which]) else
  if negb (disk_ok which) then
    (Ptrs true true false,
     [Acquire RData which; Acquire queue_kind which; Release RData which])
  else
    (Ptrs true true true, [Acquire RData which; Acquire queue_kind which; Acquire RDisk which]).

Fixpoint setup_devices (ids : list nat) : list (nat * dev_ptrs) * list kop :=
  match ids with
  | [] => ([], [])
  | i :: ids =>
      let '(d, tr) := setup_device i in
      let '(ds, trs) := setup_devices ids in
      ((i, d) :: ds, tr ++ trs)
  end.

(** [major]: what register_blkdev returned; [kmalloc_ok]: whether the device
    array could be allocated. *)
Definition vmem_disk_init (major : Z) (kmalloc_ok : bool)
    : Z * list (nat * dev_ptrs) * list kop :=
  if major <=? 0 then (- EBUSY, [], [])
  else if negb kmalloc_ok then
    (- ENOMEM, [], [Register_blkdev major vmem_disk; Unregister_blkdev major sbd])
  else
    let '(ds, tr) := setup_devices (seq 0 NDEVICES) in
    (0, ds, [Register_blkdev major vmem_disk; Kmalloc_devices] ++ tr).

Fixpoint exit_devices (ds : list (nat * dev_ptrs)) : list kop :=
  match ds with
  | [] => []
  | (i, d) :: ds =>
      (if p_gd d then [Release RDisk i] else []) ++
      (if p_queue d then [Release queue_kind i] else []) ++
      (if p_data d then [Release RData i] else []) ++
      exit_devices ds
  end.

Definition vmem_disk_exit (major : Z) (ds : list (nat * dev_ptrs)) : list kop :=
  exit_devices ds ++ [Unregister_blkdev major vmem_disk; Kfree_devices].
End setup.

(** ** Lemmas *)

Definition dev_wf (dev : vmem_disk_dev) : Prop :=
  size dev = NSECTORS * HARDSECT_SIZE ∧ zlen (data dev) = size dev.

(** A sector range of the device; the block layer enforces it from set_capacity. *)
Definition in_disk (sector nsect : Z) : Prop :=
  0 ≤ sector ∧ 0 ≤ nsect ∧ sector + nsect ≤ NSECTORS.

Ltac unfold_consts :=
  unfold dev_wf, in_disk in *;
  unfold NSECTORS, HARDSECT_SIZE, KERNEL_SECTOR_SIZE in *.

(** The data area right after vmalloc, taken as zeroed. *)
Definition blank : vmem_disk_dev := Dev (NSECTORS * HARDSECT_SIZE) (zeros (NSECTORS * HARDSECT_SIZE)).

Lemma blank_wf : dev_wf blank.
Proof. split; [done|]. apply zlen_zeros. done. Qed.

Lemma transfer_write dev sector nsect buf :
  dev_wf dev → in_disk sector nsect → nsect * 512 ≤ zlen buf →
  vmem_disk_transfer dev sector nsect buf true =
    Some (Dev (size dev) (splice (sector * 512) (slice 0 (nsect * 512) buf) (data dev)), buf).
Proof.
  intros [Hs Hd] Hr Hb. unfold vmem_disk_transfer. cbv zeta. unfold_consts.
  rewrite Hs in *.
  rewrite (uwrap_id 64 (sector * _)), (uwrap_id 64 (nsect * _)), (uwrap_id 64 (_ + _)),
    (uwrap_id 64 (1024 * _)) by (unfold fits_u; lia).
  rewrite (proj2 (Z.ltb_ge _ _)) by lia. rewrite load_in_range by lia. cbn [mbind option_bind].
  rewrite store_in_range by (rewrite ?slice_length by lia; lia). done.
Qed.

Lemma transfer_read dev sector nsect buf :
  dev_wf dev → in_disk sector nsect → nsect * 512 ≤ zlen buf →
  vmem_disk_transfer dev sector nsect buf false =
    Some (dev, splice 0 (slice (sector * 512) (nsect * 512) (data dev)) buf).
Proof.
  intros [Hs Hd] Hr Hb. unfold vmem_disk_transfer. cbv zeta. unfold_consts.
  rewrite Hs in *.
  rewrite (uwrap_id 64 (sector * _)), (uwrap_id 64 (nsect * _)), (uwrap_id 64 (_ + _)),
    (uwrap_id 64 (1024 * _)) by (unfold fits_u; lia).
  rewrite (proj2 (Z.ltb_ge _ _)) by lia. rewrite load_in_range by lia. cbn [mbind option_bind].
  rewrite store_in_range by (rewrite ?slice_length by lia; lia). done.
Qed.

Lemma write_wf dev sector nsect buf :
  dev_wf dev → in_disk sector nsect → nsect * 512 ≤ zlen buf →
  dev_wf (Dev (size dev) (splice (sector * 512) (slice 0 (nsect * 512) buf) (data dev))).
Proof.
  intros [Hs Hd] Hr Hb. unfold_consts. split; [done|]. cbn [data size].
  rewrite splice_length; rewrite ?slice_length; lia.
Qed.

(** ** Bios with segments of one length *)

Definition uniform (k : Z) (segs : list (list Z)) : Prop := Forall (λ g, zlen g = k * 512) segs.

Definition total (k : Z) (segs : list (list Z)) : Z := k * zlen segs.

Lemma total_cons k g segs : total k (g :: segs) = k + total k segs.
Proof. unfold total, zlen. cbn [length]. lia. Qed.

Lemma vmem_total_nonneg k segs : 0 ≤ k → 0 ≤ total k segs.
Proof. unfold total. pose proof (zlen_nonneg segs). nia. Qed.

Lemma uniform_concat k segs : uniform k segs → zlen (concat segs) = total k segs * 512.
Proof.
  induction 1 as [|g segs Hg _ IH]; [unfold total, zlen; cbn; lia|].
  rewrite total_cons. cbn [concat]. rewrite zlen_app, IH, Hg. lia.
Qed.

Lemma uniform_concat_inj k segs1 segs2 :
  uniform k segs1 → uniform k segs2 → length segs1 = length segs2 →
  concat segs1 = concat segs2 → segs1 = segs2.
Proof.
  intros H1. revert segs2. induction H1 as [|g segs1 Hg _ IH]; intros [|g2 segs2] H2 Hl Hc; try done.
  inversion_clear H2 as [|?? Hg2 H2']. cbn in Hc, Hl.
  apply app_inj_1 in Hc as [-> Hc]; [|unfold zlen in *; lia].
  f_equal. eapply IH; [done|lia|done].
Qed.

Section bios.
Context (bio_cur_bytes : bio → Z) (k : Z).

Lemma cur_sectors b : bio_cur_bytes b = k * 512 → Z.shiftr (bio_cur_bytes b) 9 = k.
Proof. intros ->. rewrite Z.shiftr_div_pow2 by lia. by rewrite Z.div_mul. Qed.

Lemma xfer_write b dev sector segs :
  bi_write b = true → bio_cur_bytes b = k * 512 → 0 ≤ k → uniform k segs →
  dev_wf dev → in_disk sector (total k segs) →
  xfer_segments bio_cur_bytes b dev sector segs =
    Some (Dev (size dev) (splice (sector * 512) (concat segs) (data dev)), segs).
Proof.
  intros Hw Hcur Hk Hu. revert dev sector.
  induction Hu as [|g segs Hg Hu IH]; intros dev sector Hd Hr; cbn [xfer_segments].
  { destruct dev as [sz d]. unfold splice. cbn. by rewrite Nat.add_0_r, take_drop. }
  rewrite total_cons in Hr. pose proof (vmem_total_nonneg k segs Hk).
  assert (in_disk sector k) by (unfold_consts; lia).
  rewrite (cur_sectors b) by done.
  rewrite Hw, transfer_write by (done || lia). cbn [mbind option_bind].
  rewrite (slice_all g) by lia.
  pose proof (write_wf dev sector k g Hd ltac:(done) ltac:(lia)) as Hd'.
  rewrite (slice_all g) in Hd' by lia.
  rewrite (uwrap_id 64) by (unfold_consts; unfold fits_u; lia).
  rewrite IH by (done || unfold_consts; lia). cbn [mbind option_bind data size concat].
  do 3 f_equal. rewrite Z.mul_add_distr_r, <- Hg. apply splice_app; [unfold_consts; lia|].
  rewrite (uniform_concat k) by done. destruct Hd as [Hs Hdd]. unfold_consts. lia.
Qed.

Lemma xfer_read b dev sector segs :
  bi_write b = false → bio_cur_bytes b = k * 512 → 0 ≤ k → uniform k segs →
  dev_wf dev → in_disk sector (total k segs) →
  ∃ segs', xfer_segments bio_cur_bytes b dev sector segs = Some (dev, segs') ∧
    uniform k segs' ∧ length segs' = length segs ∧
    concat segs' = slice (sector * 512) (total k segs * 512) (data dev).
Proof.
  intros Hw Hcur Hk Hu Hd. revert sector.
  induction Hu as [|g segs Hg Hu IH]; intros sector Hr; cbn [xfer_segments].
  { exists []. split_and!; [done|constructor|done|]. unfold total, slice, zlen. cbn. by rewrite Z.mul_0_r. }
  rewrite total_cons in Hr |- *. pose proof (vmem_total_nonneg k segs Hk).
  assert (in_disk sector k) by (unfold_consts; lia). pose proof Hd as [Hs Hdd].
  rewrite (cur_sectors b) by done.
  rewrite Hw, transfer_read by (done || lia). cbn [mbind option_bind].
  rewrite (uwrap_id 64) by (unfold_consts; unfold fits_u; lia).
  destruct (IH (sector + k)) as (segs'&->&?&?&Hc); [unfold_consts; lia|].
  cbn [mbind option_bind].
  assert (zlen (slice (sector * 512) (k * 512) (data dev)) = k * 512) as Hsl
    by (apply slice_length; unfold_consts; lia).
  assert (splice 0 (slice (sector * 512) (k * 512) (data dev)) g =
    slice (sector * 512) (k * 512) (data dev)) as -> by (apply splice_full; lia).
  eexists. split; [done|]. split_and!; [by constructor|cbn; lia|]. cbn [concat].
  rewrite Hc, !Z.mul_add_distr_r. symmetry. apply slice_app; unfold_consts; lia.
Qed.
End bios.

(** ** Counting acquisitions and releases *)

Definition cnt (x : kop) (tr : list kop) : nat := length (filter (λ y, y = x) tr).

Lemma cnt_app x tr1 tr2 : cnt x (tr1 ++ tr2) = (cnt x tr1 + cnt x tr2)%nat.
Proof. unfold cnt. by rewrite filter_app, length_app. Qed.

Definition kop_dev (x : kop) : option nat :=
  match x with Acquire _ i | Release _ i => Some i | _ => None end.

Lemma cnt_other x j tr :
  kop_dev x ≠ j → Forall (λ y, kop_dev y = j) tr → cnt x tr = 0%nat.
Proof.
  intros Hx. unfold cnt. induction 1 as [|y tr Hy _ IH]; [done|].
  rewrite filter_cons, decide_False; [done|]. by intros <-.
Qed.

Section traces.
Context (va qu di : nat → bool) (mode : Z).

(** Set-up and tear-down of device [j] touch only device [j]'s resources. *)
Lemma cnt_setup_other x j : kop_dev x ≠ Some j → cnt x (setup_device va qu di mode j).2 = 0%nat.
Proof.
  intros. apply (cnt_other _ (Some j)); [done|].
  unfold setup_device. destruct (va j), (qu j), (di j); repeat constructor.
Qed.

Lemma cnt_exit_other x j d : kop_dev x ≠ Some j → cnt x (exit_devices mode [(j, d)]) = 0%nat.
Proof.
  intros. apply (cnt_other _ (Some j)); [done|]. destruct d as [[] [] []]; repeat constructor.
Qed.

Lemma exit_cons i d ds :
  exit_devices mode ((i, d) :: ds) = exit_devices mode [(i, d)] ++ exit_devices mode ds.
Proof. cbn. by rewrite app_nil_r, <- !app_assoc. Qed.

(** How often [x] occurs over set-up and tear-down of device [i]. *)
Definition dev_count (x : kop) (i : nat) : nat :=
  (cnt x (setup_device va qu di mode i).2 +
   cnt x (exit_devices mode [(i, (setup_device va qu di mode i).1)]))%nat.

Lemma cnt_all x i ids :
  NoDup ids → kop_dev x = Some i →
  let '(ds, tr) := setup_devices va qu di mode ids in
  cnt x (tr ++ exit_devices mode ds) = if decide (i ∈ ids) then dev_count x i else 0%nat.
Proof.
  intros Hnd Hi. induction Hnd as [|j ids Hj _ IH]; cbn -[exit_devices]; [done|].
  destruct (setup_device va qu di mode j) as [d tr] eqn:Ed.
  destruct (setup_devices va qu di mode ids) as [ds trs].
  rewrite exit_cons, !cnt_app in *.
  destruct (decide (i = j)) as [Hx|Hx].
  - subst j. rewrite decide_True by set_solver. rewrite decide_False in IH by done.
    unfold dev_count. rewrite Ed. cbn [fst snd]. lia.
  - assert (kop_dev x ≠ Some j) as Hne by congruence.
    pose proof (cnt_setup_other x j Hne) as Hs. rewrite Ed in Hs. cbn [snd] in Hs.
    rewrite (cnt_exit_other x j d Hne), Hs.
    destruct (decide (i ∈ j :: ids)), (decide (i ∈ ids)); set_solver by lia.
Qed.
End traces.

(** ** Properties *)

(** C33 (round trip).  Writing sectors inside the disk succeeds, they are read back unchanged,
    and a write leaves every disjoint sector range as it was. *)
Theorem vmem_write_read dev sector nsect buf out s2 n2 :
  dev_wf dev → in_disk sector nsect → in_disk s2 n2 →
  nsect * 512 ≤ zlen buf → nsect * 512 = zlen out →
  ∃ dev', vmem_disk_transfer dev sector nsect buf true = Some (dev', buf) ∧ dev_wf dev' ∧
  vmem_disk_transfer dev' sector nsect out false = Some (dev', slice 0 (nsect * 512) buf) ∧
  (s2 + n2 ≤ sector ∨ sector + nsect ≤ s2 →
   slice (s2 * 512) (n2 * 512) (data dev') = slice (s2 * 512) (n2 * 512) (data dev)).
Proof.
  intros Hd Hr Hr2 Hb Ho. eexists. split; [by apply transfer_write|].
  pose proof (write_wf dev sector nsect buf Hd Hr Hb) as Hd'. split; [done|].
  assert (zlen (slice 0 (nsect * 512) buf) = nsect * 512) as Hsl
    by (apply slice_length; unfold_consts; lia).
  split.
  - rewrite transfer_read by (done || lia). cbn [data].
    set (bs := slice 0 _ buf) in *. replace (nsect * 512) with (zlen bs).
    destruct Hd as [Hs Hdd]. rewrite slice_splice_same by (unfold_consts; lia).
    rewrite splice_full by lia. done.
  - destruct Hd as [Hs Hdd]. unfold_consts. cbn [data].
    intros [?|?]; [apply slice_splice_before|apply slice_splice_after]; lia.
Qed.

Lemma vmem_write_read_witness :
  ∃ dev', vmem_disk_transfer blank 1 1 (replicate 512 7) true = Some (dev', replicate 512 7) ∧
  dev_wf dev' ∧
  vmem_disk_transfer dev' 1 1 (zeros 512) false = Some (dev', slice 0 (1 * 512) (replicate 512 7)) ∧
  (3 + 2 ≤ 1 ∨ 1 + 1 ≤ 3 →
   slice (3 * 512) (2 * 512) (data dev') = slice (3 * 512) (2 * 512) (data blank)).
Proof.
  apply (vmem_write_read blank 1 1 (replicate 512 7) (zeros 512) 3 2);
    [exact blank_wf|unfold_consts; lia|unfold_consts; lia|vm_compute; discriminate|reflexivity].
Defined.

(** A transfer whose end fits in 64 bits never leaves the device's
    array: inside the disk it is carried out, beyond the end it is ignored; the
    64-bit sum can wrap, and then the bounds test passes for a range outside
    the array. *)
Theorem vmem_transfer_bounds dev :
  dev_wf dev →
  (∀ sector nsect buf write,
     0 ≤ sector → 0 ≤ nsect → (sector + nsect) * 512 < 2 ^ 64 → nsect * 512 ≤ zlen buf →
     ∃ dev' buf', vmem_disk_transfer dev sector nsect buf write = Some (dev', buf') ∧
       dev_wf dev' ∧ (NSECTORS < sector + nsect → dev' = dev ∧ buf' = buf)) ∧
  (∀ buf write, vmem_disk_transfer dev (2 ^ 55 - 1) 1 buf write = None).
Proof.
  intros Hd. split.
  - intros sector nsect buf write Hs Hn Hov Hb.
    destruct (decide (sector + nsect ≤ NSECTORS)) as [Hin|Hout].
    + assert (in_disk sector nsect) by (unfold_consts; lia). destruct write.
      * rewrite transfer_write by done. do 2 eexists. split; [done|].
        split; [by apply write_wf|lia].
      * rewrite transfer_read by done. do 2 eexists. split; [done|]. split; [done|lia].
    + exists dev, buf. destruct Hd as [Hsz Hdd]. split; [|by split_and!].
      unfold vmem_disk_transfer. cbv zeta. rewrite Hsz. unfold_consts.
      rewrite (uwrap_id 64 (sector * _)), (uwrap_id 64 (nsect * _)), (uwrap_id 64 (_ + _)),
        (uwrap_id 64 (1024 * _)) by (unfold fits_u; lia).
      by rewrite (proj2 (Z.ltb_lt _ _)) by lia.
  - intros buf write. destruct Hd as [Hsz Hdd]. unfold vmem_disk_transfer. cbv zeta.
    rewrite Hsz. unfold_consts.
    change (u64 ((2 ^ 55 - 1) * 512)) with (2 ^ 64 - 512). change (u64 (1 * 512)) with 512.
    change (u64 (1024 * 512) <? u64 (2 ^ 64 - 512 + 512)) with false. cbv iota.
    destruct write.
    + destruct (load 0 512 buf) as [bs|] eqn:El; [|done]. cbn [mbind option_bind].
      apply load_Some_inv in El as (_&_&Hl&->).
      destruct (store _ _ _) eqn:Es; [|done]. apply store_Some_inv in Es as (_&Hx&_).
      rewrite slice_length, Hdd, Hsz in Hx by lia. lia.
    + destruct (load _ 512 (data dev)) eqn:El; [|done]. apply load_Some_inv in El as (_&_&Hx&_).
      lia.
Qed.

Lemma vmem_transfer_bounds_witness :
  (∃ dev' buf', vmem_disk_transfer blank 1 1 (zeros 512) true = Some (dev', buf') ∧
     dev_wf dev' ∧ (NSECTORS < 1 + 1 → dev' = blank ∧ buf' = zeros 512)) ∧
  vmem_disk_transfer blank (2 ^ 55 - 1) 1 [] true = None.
Proof.
  destruct (vmem_transfer_bounds blank blank_wf) as [Hin Hout]. split; [|apply Hout].
  apply Hin; rewrite ?zlen_zeros; lia.
Defined.

(** A bio whose segments all have the length bio_cur_bytes
    reports (a multiple of the sector size) is written to consecutive sectors,
    and reading it back with segments of the same shape returns the same
    segments; both complete with status 0. *)
Theorem vmem_bio_roundtrip bio_cur_bytes k dev sector segs bufs :
  dev_wf dev → 0 ≤ k → uniform k segs → uniform k bufs → length bufs = length segs →
  in_disk sector (total k segs) →
  bio_cur_bytes (Bio sector segs true) = k * 512 →
  bio_cur_bytes (Bio sector bufs false) = k * 512 →
  ∃ dev', vmem_disk_make_request bio_cur_bytes dev (Bio sector segs true) =
            Some (0, dev', Bio sector segs true) ∧ dev_wf dev' ∧
    vmem_disk_make_request bio_cur_bytes dev' (Bio sector bufs false) =
      Some (0, dev', Bio sector segs false).
Proof.
  intros Hd Hk Hu Hub Hl Hr Hc1 Hc2. unfold vmem_disk_make_request, vmem_disk_xfer_bio. cbn [bi_sector bi_segs bi_write].
  rewrite (xfer_write _ k) by done. cbn [mbind option_bind].
  set (dev' := Dev _ _). pose proof (vmem_total_nonneg k segs Hk).
  assert (dev_wf dev') as Hd'.
  { destruct Hd as [Hs Hdd]. split; [done|]. unfold dev'. cbn [data size].
    rewrite splice_length; rewrite ?(uniform_concat k) by done; unfold_consts; lia. }
  exists dev'. split; [done|]. split; [done|].
  assert (total k bufs = total k segs) as Htot by (unfold total, zlen; by rewrite Hl).
  destruct (xfer_read bio_cur_bytes k (Bio sector bufs false) dev' sector bufs)
    as (segs'&->&Hu'&Hl'&Hc'); try done; [by rewrite Htot|].
  cbn [mbind option_bind]. do 3 f_equal. eapply (uniform_concat_inj k); [done|done|lia|].
  rewrite Hc', Htot. unfold dev'. cbn [data]. rewrite <- (uniform_concat k segs) by done.
  destruct Hd as [Hs Hdd]. apply slice_splice_same; rewrite ?(uniform_concat k) by done;
    unfold_consts; lia.
Qed.

Definition first_seg_bytes (b : bio) : Z := match bi_segs b with [] => 0 | g :: _ => zlen g end.

Lemma vmem_bio_roundtrip_witness :
  let segs := [replicate 512 1; replicate 512 2] in
  let bufs := [zeros 512; zeros 512] in
  ∃ dev', vmem_disk_make_request first_seg_bytes blank (Bio 3 segs true) =
            Some (0, dev', Bio 3 segs true) ∧ dev_wf dev' ∧
    vmem_disk_make_request first_seg_bytes dev' (Bio 3 bufs false) = Some (0, dev', Bio 3 segs false).
Proof.
  cbv zeta. apply (vmem_bio_roundtrip first_seg_bytes 1);
    [exact blank_wf|lia|unfold uniform; by rewrite !Forall_cons|unfold uniform; by rewrite !Forall_cons
    |reflexivity|vm_compute; split_and!; discriminate|reflexivity|reflexivity].
Defined.

Lemma two_writes_slice n (b1 b2 l : list Z) :
  zlen b1 = n → zlen b2 = n → 3 * n ≤ zlen l →
  slice 0 (3 * n) (splice n b2 (splice 0 b1 l)) = b1 ++ b2 ++ slice (2 * n) n l.
Proof.
  intros L1 L2 Ll. pose proof (zlen_nonneg b1). replace (splice n b2) with (splice (0 + zlen b1) b2) by (by rewrite L1).
  rewrite splice_app by lia.
  replace (3 * n) with (zlen (b1 ++ b2) + n) by (rewrite zlen_app; lia).
  rewrite slice_app, slice_splice_same, slice_splice_after, <- app_assoc;
    rewrite ?splice_length, ?zlen_app; rewrite ?zlen_app; try lia.
  do 3 f_equal. lia.
Qed.

(** With segments of different lengths the driver uses the first
    segment's length for every segment: a 512-byte segment followed by a
    1024-byte one leaves the third sector of the disk as it was, and the bio
    still completes with status 0. *)
Theorem vmem_bio_short_segment dev g1 g2 :
  dev_wf dev → zlen g1 = 512 → zlen g2 = 1024 →
  ∃ dev', vmem_disk_xfer_bio first_seg_bytes dev (Bio 0 [g1; g2] true) =
      Some (0, dev', Bio 0 [g1; g2] true) ∧
    slice 0 (3 * 512) (data dev') = g1 ++ slice 0 512 g2 ++ slice (2 * 512) 512 (data dev).
Proof.
  intros Hd L1 L2. unfold vmem_disk_xfer_bio. cbn [bi_sector bi_segs bi_write xfer_segments].
  assert (in_disk 0 1 ∧ in_disk 1 1) as [I1 I2] by (unfold_consts; lia).
  assert (Z.shiftr (first_seg_bytes (Bio 0 [g1; g2] true)) 9 = 1) as ->
    by (cbn [first_seg_bytes bi_segs]; by rewrite L1).
  rewrite (transfer_write dev 0 1 _ Hd I1) by lia. cbn [mbind option_bind].
  assert (uwrap 64 (0 + 1) = 1) as -> by reflexivity.
  rewrite transfer_write; [|apply write_wf; done || lia|done|lia].
  cbn [mbind option_bind]. eexists. split; [reflexivity|]. cbn [data].
  rewrite (Z.mul_1_l 512), (Z.mul_0_l 512), (two_writes_slice 512).
  - by rewrite slice_all.
  - by rewrite slice_all.
  - apply slice_length; lia.
  - destruct Hd as [E1 E2]. rewrite E2, E1. unfold_consts. lia.
Qed.

Lemma vmem_bio_short_segment_witness :
  ∃ dev', vmem_disk_xfer_bio first_seg_bytes blank
      (Bio 0 [replicate 512 1; replicate 1024 2] true) =
      Some (0, dev', Bio 0 [replicate 512 1; replicate 1024 2] true) ∧
    slice 0 (3 * 512) (data dev') =
      replicate 512 1 ++ slice 0 512 (replicate 1024 2) ++ slice (2 * 512) 512 (data blank).
Proof.
  apply (vmem_bio_short_segment blank (replicate 512 1) (replicate 1024 2));
    [exact blank_wf|reflexivity|reflexivity].
Defined.

(** Over a load and unload of the driver, for every device and
    every outcome of the allocations, queue and disk are released exactly as
    often as acquired, the queue by the call that matches its kind; the data
    area is too unless the queue or the disk allocation failed, in which case
    it is freed twice.  When the device array cannot be allocated the block
    major stays registered under vmem_disk: only the name sbd is unregistered. *)
Theorem vmem_load_unload va qu di mode major :
  0 < major →
  (∀ i ds tr, (i < NDEVICES)%nat → vmem_disk_init va qu di mode major true = (0, ds, tr) →
   let all := tr ++ vmem_disk_exit mode major ds in
   (∀ b, cnt (Release (RQueue b) i) all = cnt (Acquire (RQueue b) i) all) ∧
   cnt (Release RDisk i) all = cnt (Acquire RDisk i) all ∧
   cnt (Acquire RData i) all = (if va i then 1 else 0)%nat ∧
   cnt (Release RData i) all = (if va i then if qu i && di i then 1 else 2 else 0)%nat) ∧
  (∃ ds tr, vmem_disk_init va qu di mode major false = (- ENOMEM, ds, tr) ∧
   cnt (Register_blkdev major vmem_disk) tr = 1%nat ∧
   cnt (Unregister_blkdev major vmem_disk) tr = 0%nat).
Proof.
  intros Hm. unfold vmem_disk_init. rewrite (proj2 (Z.leb_gt _ _)) by lia. cbn [negb]. split.
  2:{ do 2 eexists. split; [done|]. split; unfold cnt;
      repeat (rewrite filter_cons; case_decide; simplify_eq); done. }
  intros i ds tr Hlt Hi. set (all := tr ++ _).
  assert (∀ x, kop_dev x = Some i → cnt x all = dev_count va qu di mode x i) as Hall.
  { intros x Hx. pose proof (cnt_all va qu di mode x i (seq 0 NDEVICES) (NoDup_seq _ _) Hx) as Hc.
    destruct (setup_devices va qu di mode (seq 0 NDEVICES)) as [ds' tr']. simplify_eq.
    unfold all, vmem_disk_exit. rewrite <- app_assoc, !app_assoc, cnt_app, <- app_assoc, cnt_app, Hc.
    rewrite decide_True by (apply elem_of_seq; lia).
    rewrite (cnt_other x None [_; _]), (cnt_other x None [_; _]);
      [lia|congruence|repeat constructor|congruence|repeat constructor]. }
  split_and!; intros; rewrite !Hall by done; unfold dev_count, setup_device, queue_kind;
    destruct (va i), (qu i), (di i); cbn [negb andb fst snd exit_devices p_gd p_queue p_data app];
    unfold cnt, queue_kind; repeat (rewrite filter_cons; case_decide; simplify_eq); done.
Qed.

Lemma vmem_load_unload_witness :
  let '(ret, ds, tr) := vmem_disk_init (λ _, true) (λ _, true) (λ i, negb (i =? 2)%nat) 0 254 true in
  let all := tr ++ vmem_disk_exit 0 254 ds in
  cnt (Acquire RData 2) all = 1%nat ∧ cnt (Release RData 2) all = 2%nat.
Proof.
  destruct (vmem_load_unload (λ _, true) (λ _, true) (λ i, negb (i =? 2)%nat) 0 254 ltac:(lia))
    as [H _].
  cbn [vmem_disk_init].
  destruct (H 2%nat _ _ ltac:(unfold NDEVICES; lia) eq_refl) as (_&_&H1&H2).
  split; [exact H1|exact H2].
Defined.

(** The geometry describes 512 times the capacity set with set_capacity. *)
Lemma vmem_geometry dev :
  dev_wf dev →
  let geo := (vmem_disk_getgeo dev).2 in
  cylinders geo * heads geo * sectors geo = 512 * NSECTORS.
Proof. intros [Hs _]. unfold vmem_disk_getgeo. rewrite Hs. reflexivity. Qed.

End VmemDisk.
