(* ===== verification/Rwlock.v ===== *)
(** * Read-write locks over a mutex and two condition variables

    Models ldd-k4/thread/programming_with_posix_thread/rwlock.c and rwlock.h.
    The operations are functions on the lock's counters, taking the statuses
    the pthread calls return; [step] runs them as threads.  Unlocking the mutex
    from its owner always succeeds in [step], and a thread unlocks what it
    holds and holds one lock at a time.  A pthread_mutex_lock of a mutex that
    was destroyed, which POSIX leaves undefined, fails or locks it, as the event
    says. *)

From S2P Require Import Prelude Pthread.

Module Rwlock.

Definition RWLOCK_VALID : Z := 0xfacade.

Record rwlock_t := Rwl {
  valid : Z;
  r_active : Z;
  w_active : Z;
  r_wait : Z;
  w_wait : Z
}.

(** ** Creation and destruction

    [mutex_init], [read_init], ... are the statuses of the pthread calls.  The
    list holds the objects that exist when the function returns. *)

Inductive obj := Mutex | ReadCond | WriteCond.
#[export] Instance obj_eq_dec : EqDecision obj.
Proof. solve_decision. Defined.

Definition rwl_init (mutex_init read_init write_init : Z) (rwl : rwlock_t)
    : Z * rwlock_t * list obj :=
  let rwl := Rwl (valid rwl) 0 0 0 0 in
  if negb (mutex_init =? 0) then (mutex_init, rwl, []) else
  let objs := [Mutex] in
  if negb (read_init =? 0) then
    (read_init, rwl, filter (.≠ Mutex) objs) else
  let objs := ReadCond :: objs in
  if negb (write_init =? 0) then
    (write_init, rwl, filter (.≠ Mutex) (filter (.≠ ReadCond) objs)) else
  let objs := WriteCond :: objs in
  (0, Rwl RWLOCK_VALID 0 0 0 0, objs).

Record destroy_status := DestroyStatus {
  d_lock : Z; d_unlock : Z; d_mutex : Z; d_read : Z; d_write : Z
}.

(** rwl_destroy from pthread_mutex_lock on, and all of it. *)
Definition destroy_locked (st : destroy_status) (rwl : rwlock_t) : Z * rwlock_t :=
  if negb (d_lock st =? 0) then (d_lock st, rwl) else
  if (0 <? r_active rwl) || negb (w_active rwl =? 0) then (EBUSY, rwl) else
  if negb (r_wait rwl =? 0) || negb (w_wait rwl =? 0) then (EBUSY, rwl) else
  let rwl := Rwl 0 (r_active rwl) (w_active rwl) (r_wait rwl) (w_wait rwl) in
  if negb (d_unlock st =? 0) then (d_unlock st, rwl) else
  let status := d_mutex st in
  let status1 := d_read st in
  let status2 := d_write st in
  (if status =? 0 then status else if status1 =? 0 then status1 else status2, rwl).

Definition rwl_destroy (st : destroy_status) (rwl : rwlock_t) : Z * rwlock_t :=
  if negb (valid rwl =? RWLOCK_VALID) then (EINVAL, rwl) else destroy_locked st rwl.

(** ** Operations, from pthread_mutex_lock to the mutex's release

    An operation ends by returning a status or by pthread_cond_wait. *)

Inductive out := Ret (status : Z) | Wait.

Inductive wakeup := NoWakeup | SignalWrite | BroadcastRead.

Definition add_r_active (n : Z) (rwl : rwlock_t) : rwlock_t :=
  Rwl (valid rwl) (r_active rwl + n) (w_active rwl) (r_wait rwl) (w_wait rwl).
Definition set_w_active (n : Z) (rwl : rwlock_t) : rwlock_t :=
  Rwl (valid rwl) (r_active rwl) n (r_wait rwl) (w_wait rwl).
Definition add_r_wait (n : Z) (rwl : rwlock_t) : rwlock_t :=
  Rwl (valid rwl) (r_active rwl) (w_active rwl) (r_wait rwl + n) (w_wait rwl).
Definition add_w_wait (n : Z) (rwl : rwlock_t) : rwlock_t :=
  Rwl (valid rwl) (r_active rwl) (w_active rwl) (r_wait rwl) (w_wait rwl + n).

Definition busy (rwl : rwlock_t) : bool := negb (w_active rwl =? 0) || (0 <? r_active rwl).

(** The while loop of rwl_readlock and what follows it.  [wait_status] is what
    pthread_cond_wait returns if it does not block; one that blocks returns 0
    when the thread is woken and comes back here. *)
Definition readlock_loop (wait_status : Z) (rwl : rwlock_t) : rwlock_t * out :=
  if negb (w_active rwl =? 0) then
    if negb (wait_status =? 0) then (add_r_wait (-1) rwl, Ret wait_status) else (rwl, Wait)
  else (add_r_active 1 (add_r_wait (-1) rwl), Ret 0).

Definition rwl_readlock (wait_status : Z) (rwl : rwlock_t) : rwlock_t * out :=
  if negb (w_active rwl =? 0) then readlock_loop wait_status (add_r_wait 1 rwl)
  else (add_r_active 1 rwl, Ret 0).

Definition rwl_readcleanup (rwl : rwlock_t) : rwlock_t := add_r_wait (-1) rwl.

Definition rwl_readtrylock (unlock_status : Z) (rwl : rwlock_t) : rwlock_t * out :=
  let '(rwl, status) :=
    if negb (w_active rwl =? 0) then (rwl, EBUSY) else (add_r_active 1 rwl, 0) in
  (rwl, Ret (if negb (unlock_status =? 0) then unlock_status else status)).

Definition rwl_readunlock (signal_status unlock_status : Z) (rwl : rwlock_t)
    : rwlock_t * out * wakeup :=
  let rwl := add_r_active (-1) rwl in
  let '(status, w) :=
    if (r_active rwl =? 0) && (0 <? w_wait rwl)
    then (signal_status, if signal_status =? 0 then SignalWrite else NoWakeup)
    else (0, NoWakeup) in
  (rwl, Ret (if unlock_status =? 0 then status else unlock_status), w).

Definition writelock_loop (wait_status : Z) (rwl : rwlock_t) : rwlock_t * out :=
  if busy rwl then
    if negb (wait_status =? 0) then (add_w_wait (-1) rwl, Ret wait_status) else (rwl, Wait)
  else (set_w_active 1 (add_w_wait (-1) rwl), Ret 0).

Definition rwl_writelock (wait_status : Z) (rwl : rwlock_t) : rwlock_t * out :=
  if busy rwl then writelock_loop wait_status (add_w_wait 1 rwl)
  else (set_w_active 1 rwl, Ret 0).

Definition rwl_writecleanup (rwl : rwlock_t) : rwlock_t := add_w_wait (-1) rwl.

Definition rwl_writetrylock (unlock_status : Z) (rwl : rwlock_t) : rwlock_t * out :=
  let '(rwl, status) := if busy rwl then (rwl, EBUSY) else (set_w_active 1 rwl, 0) in
  (rwl, Ret (if negb (status =? 0) then status else unlock_status)).

Definition rwl_writeunlock (wakeup_status unlock_status : Z) (rwl : rwlock_t)
    : rwlock_t * out * wakeup :=
  let rwl := set_w_active 0 rwl in
  if 0 <? r_wait rwl then
    if negb (wakeup_status =? 0) then (rwl, Ret wakeup_status, NoWakeup)
    else (rwl, Ret unlock_status, BroadcastRead)
  else if 0 <? w_wait rwl then
    if negb (wakeup_status =? 0) then (rwl, Ret wakeup_status, NoWakeup)
    else (rwl, Ret unlock_status, SignalWrite)
  else (rwl, Ret unlock_status, NoWakeup).

(** ** Threads *)

Inductive op := ReadLock | ReadTrylock | WriteLock | WriteTrylock | Destroy.

Inductive pc :=
| Idle (status : Z)      (** holds nothing; the status of its last call *)
| HasRead | HasWrite     (** between a successful lock and the unlock *)
| Called (o : op)        (** the validity test passed, before pthread_mutex_lock *)
| RUnlock | WUnlock      (** the same inside rwl_readunlock and rwl_writeunlock *)
| RWait | WWait          (** blocked in pthread_cond_wait *)
| RWoken | WWoken        (** unblocked, before taking the mutex again *)
| RCancel | WCancel      (** cancelled, before taking the mutex and the cleanup *)
| Exited.

Record sys := Sys { rwl : rwlock_t; threads : gmap nat pc }.

(** The statuses of the pthread calls a step may make, and the threads a
    pthread_cond_signal picks. *)
Record env := Env { e_lock : Z; e_wait : Z; e_wakeup : Z; e_destroy : destroy_status;
                    e_picks : list nat }.

Inductive event :=
| ECall (t : nat) (o : op)
| EUnlock (t : nat)          (** the holder calls the matching unlock *)
| ERun (t : nat) (e : env)   (** runs until the mutex is released *)
| ESpurious (t : nat)        (** pthread_cond_wait returns without a wake-up *)
| ECancel (t : nat).

Definition is_RWait (p : pc) : bool := match p with RWait => true | _ => false end.
Definition is_WWait (p : pc) : bool := match p with WWait => true | _ => false end.

Definition unblock (p : pc) : pc :=
  match p with RWait => RWoken | WWait => WWoken | p => p end.

(** Issue the wake-up of an unlock; [None] when the environment's choice of
    threads is not one the call may make. *)
Definition issue (w : wakeup) (picks : list nat) (ts : gmap nat pc) : option (gmap nat pc) :=
  match w with
  | NoWakeup => Some ts
  | SignalWrite =>
      if signal_choice is_WWait ts picks then Some (wake unblock picks ts) else None
  | BroadcastRead => Some (wake_every is_RWait unblock ts)
  end.

Definition after (o : out) (waiting holding : pc) : pc :=
  match o with
  | Wait => waiting
  | Ret status => if status =? 0 then holding else Idle status
  end.

(** A critical section of thread [t]. *)
Definition critical (s : sys) (t : nat) (e : env) (p : pc) : option sys :=
  let put (r : rwlock_t * out) (waiting holding : pc) :=
    Some (Sys r.1 (<[t := after r.2 waiting holding]> (threads s))) in
  let unlocked (r : rwlock_t * out * wakeup) :=
    ts ← issue r.2 (e_picks e) (threads s);
    Some (Sys r.1.1 (<[t := match r.1.2 with Ret st => Idle st | Wait => p end]> ts)) in
  match p with
  | Called ReadLock => put (rwl_readlock (e_wait e) (rwl s)) RWait HasRead
  | RWoken => put (readlock_loop (e_wait e) (rwl s)) RWait HasRead
  | Called ReadTrylock => put (rwl_readtrylock 0 (rwl s)) p HasRead
  | Called WriteLock => put (rwl_writelock (e_wait e) (rwl s)) WWait HasWrite
  | WWoken => put (writelock_loop (e_wait e) (rwl s)) WWait HasWrite
  | Called WriteTrylock => put (rwl_writetrylock 0 (rwl s)) p HasWrite
  | RUnlock => unlocked (rwl_readunlock (e_wakeup e) 0 (rwl s))
  | WUnlock => unlocked (rwl_writeunlock (e_wakeup e) 0 (rwl s))
  | RCancel => Some (Sys (rwl_readcleanup (rwl s)) (<[t := Exited]> (threads s)))
  | WCancel => Some (Sys (rwl_writecleanup (rwl s)) (<[t := Exited]> (threads s)))
  | _ => None
  end.

Definition set_pc (s : sys) (t : nat) (p : pc) : sys := Sys (rwl s) (<[t := p]> (threads s)).

Definition step (s : sys) (ev : event) : option sys :=
  match ev with
  | ECall t o =>
      match threads s !! t with
      | Some (Idle _) =>
          Some (set_pc s t (if negb (valid (rwl s) =? RWLOCK_VALID) then Idle EINVAL else Called o))
      | _ => None
      end
  | EUnlock t =>
      match threads s !! t with
      | Some HasRead =>
          Some (set_pc s t (if negb (valid (rwl s) =? RWLOCK_VALID) then HasRead else RUnlock))
      | Some HasWrite =>
          Some (set_pc s t (if negb (valid (rwl s) =? RWLOCK_VALID) then HasWrite else WUnlock))
      | _ => None
      end
  | ERun t e =>
      p ← threads s !! t;
      match p with
      | Called Destroy =>
          let r := destroy_locked (e_destroy e) (rwl s) in
          Some (Sys r.2 (<[t := Idle r.1]> (threads s)))
      | Called _ =>
          if negb (e_lock e =? 0) then Some (set_pc s t (Idle (e_lock e))) else critical s t e p
      | RUnlock =>
          if negb (e_lock e =? 0) then Some (set_pc s t HasRead) else critical s t e p
      | WUnlock =>
          if negb (e_lock e =? 0) then Some (set_pc s t HasWrite) else critical s t e p
      | _ => critical s t e p
      end
  | ESpurious t =>
      match threads s !! t with
      | Some RWait => Some (set_pc s t RWoken)
      | Some WWait => Some (set_pc s t WWoken)
      | _ => None
      end
  | ECancel t =>
      match threads s !! t with
      | Some RWait => Some (set_pc s t RCancel)
      | Some WWait => Some (set_pc s t WCancel)
      | _ => None
      end
  end.

(** A freshly initialised lock and [n] threads that have not called it. *)
Definition fresh : rwlock_t := Rwl RWLOCK_VALID 0 0 0 0.
Definition initial (s : sys) : Prop :=
  rwl s = fresh ∧ ∀ t p, threads s !! t = Some p → p = Idle 0.

(** ** Invariant *)

Definition holds_read (p : pc) : bool := match p with HasRead | RUnlock => true | _ => false end.
Definition holds_write (p : pc) : bool := match p with HasWrite | WUnlock => true | _ => false end.
Definition waits_read (p : pc) : bool :=
  match p with RWait | RWoken | RCancel => true | _ => false end.
Definition waits_write (p : pc) : bool :=
  match p with WWait | WWoken | WCancel => true | _ => false end.

Record lock_inv (s : sys) : Prop := {
  inv_r_active : r_active (rwl s) = count holds_read (threads s);
  inv_w_active : w_active (rwl s) = count holds_write (threads s);
  inv_r_wait : r_wait (rwl s) = count waits_read (threads s);
  inv_w_wait : w_wait (rwl s) = count waits_write (threads s);
  inv_excl : w_active (rwl s) = 0 ∨ w_active (rwl s) = 1 ∧ r_active (rwl s) = 0
}.

Lemma rwl_issue_count P w picks ts ts' :
  (∀ p, P (unblock p) = P p) → issue w picks ts = Some ts' → count P ts' = count P ts.
Proof.
  intros HP Hi. destruct w; cbn in Hi; simplify_eq; cases; [done|by apply count_wake|].
  by apply count_wake_every.
Qed.

Lemma rwl_issue_lookup w picks ts ts' t p :
  issue w picks ts = Some ts' → ts !! t = Some p → is_RWait p = false → is_WWait p = false →
  ts' !! t = Some p.
Proof.
  intros Hi Ht Hr Hw. destruct w; cbn in Hi; simplify_eq; cases; [done|by eapply wake_other|].
  by apply wake_every_other.
Qed.

Definition kinds : list (pc → bool) :=
  [holds_read; holds_write; waits_read; waits_write].

(** Thread [t] went from [p] to [q], others at most between blocked and woken. *)
Lemma moved_counts w picks ts ts' t p q :
  ts !! t = Some p → is_RWait p = false → is_WWait p = false → issue w picks ts = Some ts' →
  Forall (λ P, count P (<[t := q]> ts') = count P ts - b2z (P p) + b2z (P q)) kinds.
Proof.
  intros Ht Hr Hw Hi. pose proof (rwl_issue_lookup _ _ _ _ _ _ Hi Ht Hr Hw) as Ht'.
  unfold kinds. repeat constructor; rewrite (count_insert _ _ _ _ _ Ht'), (rwl_issue_count _ w picks ts ts');
    try done; by intros [].
Qed.

Lemma at_least ts t p : ts !! t = Some p → Forall (λ P, b2z (P p) ≤ count P ts ∧ 0 ≤ count P ts) kinds.
Proof. intros Ht. unfold kinds. repeat constructor; eauto using count_ge, count_nonneg. Qed.

Ltac unfold_ops :=
  unfold rwl_readlock, readlock_loop, rwl_readtrylock, rwl_readunlock, rwl_writelock,
    writelock_loop, rwl_writetrylock, rwl_writeunlock, rwl_readcleanup, rwl_writecleanup,
    rwl_destroy, destroy_locked, busy, add_r_active, set_w_active, add_r_wait, add_w_wait, set_pc, after in *.

(** Split the tests of a step equation [H : ... = Some s'].  *)
Ltac split_step H :=
  repeat match type of H with
    | context [if ?b then _ else _] => let E := fresh "E" in destruct b eqn:E; cbn in H
    end; zbool; simplify_eq.

(** Turn [Forall _ kinds] facts into one fact per kind. *)
Ltac expand_kinds :=
  unfold kinds in *;
  repeat match goal with
    | H : Forall _ (_ :: _) |- _ => apply Forall_cons in H as [? H]
    | H : Forall _ [] |- _ => clear H
    end;
  cbn [b2z holds_read holds_write waits_read waits_write] in *.

(** Close an invariant goal about [<[t := q]> ts']. *)
Ltac close_inv Ht Hi :=
  match goal with
  | |- lock_inv (Sys _ (<[?t := ?q]> ?ts')) =>
      pose proof (moved_counts _ _ _ ts' t _ q Ht eq_refl eq_refl Hi);
      pose proof (at_least _ _ _ Ht); expand_kinds; constructor; cbn; lia
  end.

Lemma critical_inv s t e p s' :
  lock_inv s → threads s !! t = Some p → critical s t e p = Some s' → lock_inv s'.
Proof.
  intros [H1 H2 H3 H4 H5] Ht Hs.
  assert (∀ pk, issue NoWakeup pk (threads s) = Some (threads s)) as Hno by done.
  specialize (Hno []). unfold critical in Hs. unfold_ops.
  destruct p as [| | |[]| | | | | | | | |]; try done; cbn in Hs.
  all: try (split_step Hs; close_inv Ht Hno).
  - destruct (issue _ _ _) as [ts'|] eqn:Hi in Hs; [cbn in Hs|done]. split_step Hs; close_inv Ht Hi.
  - destruct (issue _ _ _) as [ts'|] eqn:Hi in Hs; [cbn in Hs|done]. split_step Hs; close_inv Ht Hi.
Qed.

(** A blocked thread leaves the queue (spurious wake-up, cancellation). *)
Lemma move_inv s t p q :
  lock_inv s → threads s !! t = Some p →
  (∀ P, P ∈ kinds → P p = P q) → lock_inv (set_pc s t q).
Proof.
  intros [H1 H2 H3 H4 H5] Ht HP.
  assert (∀ P, P ∈ kinds → count P (<[t := q]> (threads s)) = count P (threads s)) as Hc.
  { intros P HPk. rewrite (count_insert _ _ _ _ _ Ht), (HP P HPk). lia. }
  unfold kinds in Hc. constructor; cbn; rewrite ?Hc by set_solver; done.
Qed.

Ltac move_inv Ht :=
  apply (move_inv _ _ _ _ ltac:(eassumption) Ht); unfold kinds; intros;
  repeat match goal with H : _ ∈ _ :: _ |- _ => apply elem_of_cons in H as [->|H] end;
  [done..|set_solver].

Lemma rwl_step_inv s ev s' : lock_inv s → step s ev = Some s' → lock_inv s'.
Proof.
  intros Hinv Hs. pose proof Hinv as [H1 H2 H3 H4 H5].
  assert (issue NoWakeup [] (threads s) = Some (threads s)) as Hno by done.
  destruct ev as [t o|t|t e|t|t]; cbn in Hs; destruct (threads s !! t) as [p|] eqn:Ht; try done.
  - destruct p; try done. unfold set_pc in Hs. split_step Hs; close_inv Ht Hno.
  - destruct p; try done; unfold set_pc in Hs; split_step Hs; close_inv Ht Hno.
  - cbn in Hs. destruct p as [| | |[]| | | | | | | | |]; try done.
    all: try (by eapply critical_inv).
    all: try (destruct (negb (e_lock e =? 0)) eqn:El; [|by eapply critical_inv]).
    all: unfold_ops; split_step Hs; close_inv Ht Hno.
  - destruct p; simplify_eq; move_inv Ht.
  - destruct p; simplify_eq; move_inv Ht.
Qed.

Lemma rwl_initial_inv s : initial s → lock_inv s.
Proof.
  intros [Hr Ht]. assert (∀ P, P (Idle 0) = false → count P (threads s) = 0) as Hc.
  { intros P HP. pose proof (count_nonneg P (threads s)).
    destruct (decide (0 < count P (threads s))) as [Hp|]; [|lia].
    apply count_pos in Hp as (t&p&Hp&HPp). apply Ht in Hp as ->. congruence. }
  constructor; rewrite Hr; cbn; rewrite ?Hc by done; auto.
Qed.

(** ** Wake-ups *)

Definition is_RWoken (p : pc) : bool := match p with RWoken => true | _ => false end.
Definition is_WWoken (p : pc) : bool := match p with WWoken => true | _ => false end.
Definition is_RCancel (p : pc) : bool := match p with RCancel => true | _ => false end.
Definition is_WCancel (p : pc) : bool := match p with WCancel => true | _ => false end.

Definition queues : list (pc → bool) :=
  [is_RWait; is_RWoken; is_RCancel; is_WWait; is_WWoken; is_WCancel].

Lemma waits_read_split ts :
  count waits_read ts = count is_RWait ts + count is_RWoken ts + count is_RCancel ts.
Proof.
  rewrite (count_split waits_read (λ p, is_RWait p || is_RWoken p) is_RCancel) by (by intros []).
  by rewrite (count_split _ is_RWait is_RWoken) by (by intros []).
Qed.

Lemma waits_write_split ts :
  count waits_write ts = count is_WWait ts + count is_WWoken ts + count is_WCancel ts.
Proof.
  rewrite (count_split waits_write (λ p, is_WWait p || is_WWoken p) is_WCancel) by (by intros []).
  by rewrite (count_split _ is_WWait is_WWoken) by (by intros []).
Qed.

(** What a wake-up does to the queues. *)
Lemma issue_queues w picks ts ts' :
  issue w picks ts = Some ts' →
  count is_RCancel ts' = count is_RCancel ts ∧ count is_WCancel ts' = count is_WCancel ts ∧
  match w with
  | NoWakeup => ts' = ts
  | SignalWrite =>
      count is_RWait ts' = count is_RWait ts ∧ count is_RWoken ts' = count is_RWoken ts ∧
      count is_WWait ts' ≤ count is_WWait ts ∧ (0 < count is_WWait ts → 0 < count is_WWoken ts')
  | BroadcastRead =>
      count is_RWait ts' = 0 ∧ count is_RWoken ts' = count is_RWait ts + count is_RWoken ts ∧
      count is_WWait ts' = count is_WWait ts ∧ count is_WWoken ts' = count is_WWoken ts
  end.
Proof.
  intros Hi. assert (count is_RCancel ts' = count is_RCancel ts) as Hrc
    by (by eapply rwl_issue_count; [intros []|]).
  assert (count waits_read ts' = count waits_read ts) as Hwr
    by (by eapply rwl_issue_count; [intros []|]). rewrite !waits_read_split in Hwr.
  split; [done|]. split; [by eapply rwl_issue_count; [intros []|]|].
  destruct w; cbn in Hi; simplify_eq; [done| |].
  - destruct (signal_choice _ _ _) eqn:E; simplify_eq. split_and!.
    + eapply count_signal; [done|by intros []].
    + eapply count_signal; [done|by intros []].
    + apply count_update_all_le. intros t p _. case_decide; [by destruct p|done].
    + eapply count_wake_pos; [by intros []|done].
  - assert (count is_RWait (wake_every is_RWait unblock ts) = 0)
      by (apply count_wake_every_none; by intros []).
    split_and!; [done|lia|..].
    + apply count_wake_every. by intros [].
    + apply count_wake_every. by intros [].
Qed.

Record wake_inv (s : sys) : Prop := {
  wi_lock : lock_inv s;
  wi_cancel : count is_RCancel (threads s) = 0 ∧ count is_WCancel (threads s) = 0;
  wi_r : 0 < count is_RWait (threads s) → w_active (rwl s) = 1;
  wi_w : 0 < count is_WWait (threads s) →
    w_active (rwl s) = 1 ∨ 0 < r_active (rwl s) ∨
    0 < count is_RWoken (threads s) + count is_WWoken (threads s)
}.

(** Steps without cancellation in which signals and broadcasts succeed. *)
Definition quiet_step (s : sys) (ev : event) : option sys :=
  match ev with
  | ECancel _ => None
  | ERun t e => if e_wakeup e =? 0 then step s ev else None
  | _ => step s ev
  end.

Lemma queue_moved ts t p q :
  ts !! t = Some p →
  Forall (λ P, count P (<[t := q]> ts) = count P ts - b2z (P p) + b2z (P q) ∧
               b2z (P p) ≤ count P ts) queues.
Proof.
  intros Ht. unfold queues. repeat constructor; eauto using count_insert, count_ge.
Qed.

Ltac expand_queues :=
  unfold queues in *;
  repeat match goal with
    | H : Forall _ (_ :: _) |- _ =>
        let X := fresh "X" in apply Forall_cons in H as [X H]; cbv beta in X; destruct X
    | H : Forall _ [] |- _ => clear H
    end;
  cbn [b2z is_RWait is_RWoken is_RCancel is_WWait is_WWoken is_WCancel] in *.

Ltac close_wake Ht :=
  match goal with
  | |- _ ∧ _ ∧ _ =>
      match type of Ht with ?ts !! ?t = Some _ =>
        match goal with |- context [<[t := ?q]> ts] =>
          pose proof (queue_moved ts t _ q Ht); expand_queues; cbn; lia
        end end
  end.

#[local] Arguments issue : simpl never.

(** The queue counts after an unlock that issued wake-up [w]. *)
Lemma unlocked_queues w picks ts ts' t p q :
  issue w picks ts = Some ts' → ts !! t = Some p → is_RWait p = false → is_WWait p = false →
  Forall (λ P, count P (<[t := q]> ts') = count P ts' - b2z (P p) + b2z (P q) ∧
               b2z (P p) ≤ count P ts') queues.
Proof. intros Hi Ht Hr Hw. apply queue_moved. by eapply rwl_issue_lookup. Qed.

Ltac close_unlock Hs Ht :=
  match type of Hs with
  | mbind _ (issue ?w ?pk ?ts) = Some _ =>
      let ts' := fresh "ts" in let Hi := fresh "Hi" in
      destruct (issue w pk ts) as [ts'|] eqn:Hi; [cbn in Hs; simplify_eq|done];
      pose proof (issue_queues _ _ _ _ Hi);
      match goal with |- context [<[?t := ?q]> ts'] =>
        pose proof (unlocked_queues _ _ _ _ t _ q Hi Ht eq_refl eq_refl)
      end; expand_queues; cbn; try (destruct_and!; subst; lia)
  end.

Lemma quiet_wake s ev s' : wake_inv s → quiet_step s ev = Some s' → wake_inv s'.
Proof.
  intros [Hinv [C1 C2] HR HW] Hq.
  assert (step s ev = Some s') as Hs by (destruct ev; cbn in Hq; cases; done).
  pose proof (rwl_step_inv _ _ _ Hinv Hs) as Hinv'.
  pose proof Hinv as [H1 H2 H3 H4 H5].
  rewrite waits_read_split in H3. rewrite waits_write_split in H4.
  enough ((count is_RCancel (threads s') = 0 ∧ count is_WCancel (threads s') = 0) ∧
    (0 < count is_RWait (threads s') → w_active (rwl s') = 1) ∧
    (0 < count is_WWait (threads s') → w_active (rwl s') = 1 ∨ 0 < r_active (rwl s') ∨
      0 < count is_RWoken (threads s') + count is_WWoken (threads s')))
    as (?&?&?) by by constructor.
  clear Hinv Hinv'. pose proof (count_nonneg holds_read (threads s)) as Hnn.
  destruct ev as [t o|t|t e|t|t]; cbn in Hs, Hq; try done; destruct (threads s !! t) as [p|] eqn:Ht;
    try done.
  - destruct p; try done. unfold set_pc in Hs. split_step Hs; close_wake Ht.
  - destruct p; try done; unfold set_pc in Hs; split_step Hs; close_wake Ht.
  - destruct (e_wakeup e =? 0) eqn:Ew; [|done]. clear Hq. zbool. cbn in Hs.
    destruct p as [| | |[]| | | | | | | | |]; try done.
    all: try (destruct (negb (e_lock e =? 0)) eqn:El).
    all: unfold critical in Hs; unfold_ops; cbn in Hs; try rewrite Ew in Hs.
    all: try (split_step Hs; close_wake Ht).
    all: split_step Hs; first [close_wake Ht|close_unlock Hs Ht].
  - destruct p; simplify_eq; unfold set_pc; close_wake Ht.
Qed.

(** ** Properties *)

(** What rwl_destroy has to find to mark the lock invalid. *)
Lemma destroy_step_unused s t e s' :
  step s (ERun t e) = Some s' → valid (rwl s) = RWLOCK_VALID → valid (rwl s') ≠ RWLOCK_VALID →
  threads s !! t = Some (Called Destroy) ∧
  (0 < r_active (rwl s) → False) ∧ w_active (rwl s) = 0 ∧ r_wait (rwl s) = 0 ∧ w_wait (rwl s) = 0 ∧
  ∃ ret, threads s' = <[t := Idle ret]> (threads s).
Proof.
  intros Hs Hv Hv'. cbn in Hs. destruct (threads s !! t) as [p|] eqn:Ht; [|done]. cbn in Hs.
  assert (∀ q, critical s t e q = Some s' → valid (rwl s') = valid (rwl s)) as Hcrit.
  { intros q Hq. unfold critical in Hq. unfold_ops.
    destruct q as [| | |[]| | | | | | | | |]; try done; cbn in Hq; try (by split_step Hq).
    all: destruct (issue _ _ _) in Hq; [cbn in Hq|done]; by split_step Hq. }
  assert (∀ st q, Some (set_pc s t (Idle st)) = Some s' ∨ Some (set_pc s t q) = Some s' →
    valid (rwl s') = valid (rwl s)) as Hset by (intros ?? [Hq|Hq]; by simplify_eq).
  destruct p as [| | |[]| | | | | | | | |]; try done.
  all: try (by rewrite <- (Hcrit _ Hs) in Hv).
  all: try (destruct (negb (e_lock e =? 0));
    [by rewrite (Hset (e_lock e) HasRead), Hv in Hv' by auto
       || by rewrite (Hset 0 HasWrite), Hv in Hv' by auto|by rewrite <- (Hcrit _ Hs) in Hv]).
  unfold destroy_locked in Hs. split_step Hs; try done.
  all: split_and!; try done; [lia|eauto].
Qed.

(** C2 (invariant).  Mutual exclusion, in every interleaving of lock, trylock,
    unlock, destroy, cancellation, spurious wake-ups and failing pthread calls:
    a writer holds the lock alone, and r_active, w_active, r_wait and w_wait
    count exactly the threads that hold the lock or wait for it.  rwl_destroy
    marks the lock invalid only at a moment at which no thread holds it or
    waits for it, and from then on every call that tests it returns EINVAL; a
    thread that had passed the test before can still get it
    ([rwl_destroy_race]). *)
Theorem rwl_exclusion s :
  reachable initial step s →
  (∀ t u p q, threads s !! t = Some p → threads s !! u = Some q →
     holds_write p = true → holds_read q || holds_write q = true → t = u) ∧
  r_active (rwl s) = count holds_read (threads s) ∧
  w_active (rwl s) = count holds_write (threads s) ∧
  r_wait (rwl s) = count waits_read (threads s) ∧
  w_wait (rwl s) = count waits_write (threads s) ∧
  (∀ t e s', step s (ERun t e) = Some s' →
     valid (rwl s) = RWLOCK_VALID → valid (rwl s') ≠ RWLOCK_VALID →
     ∀ u p, threads s' !! u = Some p →
       holds_read p || holds_write p || waits_read p || waits_write p = false) ∧
  (valid (rwl s) ≠ RWLOCK_VALID → ∀ t o s', step s (ECall t o) = Some s' →
     threads s' !! t = Some (Idle EINVAL) ∧ rwl s' = rwl s).
Proof.
  intros Hr. apply (invariant_reachable _ _ lock_inv) in Hr; [|apply rwl_initial_inv|apply rwl_step_inv].
  pose proof Hr as [H1 H2 H3 H4 H5]. split_and!; [|done..| |].
  - intros t u p q Ht Hu Hp Hq. pose proof (count_ge holds_write _ _ _ Ht) as Hw. rewrite Hp in Hw.
    cbn in Hw. destruct (holds_read q) eqn:Eq; cbn in Hq.
    + pose proof (count_ge holds_read _ _ _ Hu) as Hc. rewrite Eq in Hc. cbn in Hc. lia.
    + destruct (decide (t = u)) as [|Hne]; [done|].
      pose proof (count_two holds_write _ _ _ _ _ Ht Hu Hp Hq Hne). lia.
  - intros t e s' Hs Hv Hv' u p Hu.
    destruct (destroy_step_unused _ _ _ _ Hs Hv Hv') as (Ht&?&?&?&?&ret&Hth).
    rewrite Hth, lookup_insert in Hu. case_decide; simplify_eq; [done|].
    pose proof (at_least _ _ _ Hu) as Hk. expand_kinds.
    rewrite !orb_false_iff; split_and!; apply (count_zero _ (threads s) u); lia || done.
  - intros Hv t o s' Hs. cbn in Hs. destruct (threads s !! t) as [[]|]; simplify_eq.
    unfold set_pc. cbn. apply Z.eqb_neq in Hv. rewrite Hv. cbn. by rewrite lookup_insert_eq.
Qed.

Definition two_threads : sys := Sys fresh {[ 1%nat := Idle 0; 2%nat := Idle 0 ]}.

Lemma two_threads_initial : initial two_threads.
Proof.
  split; [done|]. intros t p. cbn. rewrite lookup_insert_Some, lookup_singleton_Some. naive_solver.
Qed.

Definition calm : env := Env 0 0 0 (DestroyStatus 0 0 0 0 0) [].

(** A writer holds the lock and a reader waits for it. *)
Definition waiting_reader : list event :=
  [ECall 1 WriteLock; ERun 1 calm; ECall 2 ReadLock; ERun 2 calm].

Lemma rwl_exclusion_witness :
  ∃ s, run step two_threads waiting_reader = Some s ∧
    w_active (rwl s) = count holds_write (threads s) ∧ r_wait (rwl s) = count waits_read (threads s).
Proof.
  destruct (run step two_threads waiting_reader) as [s|] eqn:E; [|vm_compute in E; discriminate].
  exists s. split; [done|].
  destruct (rwl_exclusion s) as (_&_&?&?&_); [|done].
  eapply run_reachable; [apply reach_init, two_threads_initial|exact E].
Defined.

(** The test of valid is made without the mutex: a writer that passed it locks
    a lock that was destroyed in the meantime (if the pthread_mutex_lock of the
    destroyed mutex, which is undefined, succeeds), and cannot unlock it. *)
Theorem rwl_destroy_race :
  run step two_threads
    [ECall 1 WriteLock; ECall 2 Destroy; ERun 2 calm; ERun 1 calm; EUnlock 1] =
  Some (Sys (Rwl 0 0 1 0 0) {[ 1%nat := HasWrite; 2%nat := Idle 0 ]}).
Proof. vm_compute. reflexivity. Qed.

(** C36 (liveness).  No lost wake-up: without cancellation, and while signals and
    broadcasts succeed, if nobody holds the lock and a thread is blocked waiting
    for it, then some thread has been woken, and whichever woken thread runs
    next gets the lock. *)
Theorem rwl_no_lost_wakeup s t p :
  reachable initial quiet_step s → r_active (rwl s) = 0 → w_active (rwl s) = 0 →
  threads s !! t = Some p → is_RWait p || is_WWait p = true →
  (∃ u q, threads s !! u = Some q ∧ is_RWoken q || is_WWoken q = true) ∧
  (∀ u q, threads s !! u = Some q → is_RWoken q || is_WWoken q = true →
   ∃ s' q', quiet_step s (ERun u calm) = Some s' ∧ threads s' !! u = Some q' ∧
     holds_read q' || holds_write q' = true).
Proof.
  intros Hr Hra Hwa Ht Hp.
  assert (wake_inv s) as [Hinv _ HR HW].
  { revert Hr. apply invariant_reachable; [|apply quiet_wake].
    intros s0 H0. pose proof (rwl_initial_inv _ H0) as Hi. pose proof Hi as [_ _ H3 H4 _].
    destruct H0 as [Hf _]. rewrite Hf in H3, H4. cbn in H3, H4.
    rewrite waits_read_split in H3. rewrite waits_write_split in H4.
    pose proof (count_nonneg is_RWait (threads s0)). pose proof (count_nonneg is_RWoken (threads s0)).
    pose proof (count_nonneg is_RCancel (threads s0)). pose proof (count_nonneg is_WWait (threads s0)).
    pose proof (count_nonneg is_WWoken (threads s0)). pose proof (count_nonneg is_WCancel (threads s0)).
    constructor; [done|lia..]. }
  assert (is_RWait p = false ∧ is_WWait p = true) as [_ Hpw].
  { destruct (is_RWait p) eqn:E; [|done].
    assert (0 < count is_RWait (threads s)) as Hc by (apply count_pos; eauto). specialize (HR Hc). lia. }
  split.
  - assert (0 < count is_RWoken (threads s) + count is_WWoken (threads s)) as Hk.
    { destruct HW as [|[|]]; [apply count_pos; eauto|lia..]. }
    destruct (decide (0 < count is_RWoken (threads s))) as [Hc|Hc].
    + apply count_pos in Hc as (u&q&?&Hq). exists u, q. by rewrite Hq.
    + pose proof (count_nonneg is_RWoken (threads s)).
      assert (0 < count is_WWoken (threads s)) as Hc' by lia.
      apply count_pos in Hc' as (u&q&?&Hq). exists u, q. by rewrite Hq, orb_true_r.
  - intros u q Hu Hq. unfold quiet_step. cbn [e_wakeup calm Z.eqb]. cbn [step]. rewrite Hu.
    destruct q; try done; cbn; unfold readlock_loop, writelock_loop, busy; rewrite Hwa, ?Hra;
      do 2 eexists; (split; [done|]); cbn; by rewrite lookup_insert_eq.
Qed.

Definition three_threads : sys :=
  Sys fresh {[ 1%nat := Idle 0; 2%nat := Idle 0; 3%nat := Idle 0 ]}.

Lemma three_threads_initial : initial three_threads.
Proof.
  split; [done|]. intros t p. cbn. rewrite !lookup_insert_Some, lookup_singleton_Some. naive_solver.
Qed.

(** Two writers wait for a third one, which unlocks and signals one of them. *)
Definition handover : list event :=
  [ECall 1 WriteLock; ERun 1 calm; ECall 2 WriteLock; ERun 2 calm; ECall 3 WriteLock; ERun 3 calm;
   EUnlock 1; ERun 1 (Env 0 0 0 (DestroyStatus 0 0 0 0 0) [2%nat])].

Lemma rwl_no_lost_wakeup_witness :
  ∃ s, run quiet_step three_threads handover = Some s ∧ threads s !! 3%nat = Some WWait ∧
    ∃ u q, threads s !! u = Some q ∧ is_RWoken q || is_WWoken q = true.
Proof.
  destruct (run quiet_step three_threads handover) as [s|] eqn:E; [|vm_compute in E; discriminate].
  exists s. split; [done|].
  assert (threads s !! 3%nat = Some WWait ∧ r_active (rwl s) = 0 ∧ w_active (rwl s) = 0) as (H3&Hr&Hw)
    by (vm_compute in E; simplify_eq; done).
  split; [done|]. apply (rwl_no_lost_wakeup s 3%nat WWait); [|done..].
  eapply run_reachable; [apply reach_init, three_threads_initial|exact E].
Defined.

(** A cancelled reader can take the wake-up meant for a writer: after
    the run below the lock is free and no call is in progress, yet thread 3
    stays blocked in rwl_writelock. *)
Theorem rwl_cancel_strands_writer :
  run step three_threads
    [ECall 1 WriteLock; ERun 1 calm; ECall 2 ReadLock; ERun 2 calm; ECall 3 WriteLock; ERun 3 calm;
     ECancel 2; EUnlock 1; ERun 1 calm; ERun 2 calm] =
  Some (Sys (Rwl RWLOCK_VALID 0 0 0 1) {[ 1%nat := Idle 0; 2%nat := Exited; 3%nat := WWait ]}).
Proof. vm_compute. reflexivity. Qed.

(** rwl_init returns 0 exactly when all three objects were
    created, and otherwise leaves none of them; rwl_destroy refuses a lock that
    is held or waited for and leaves it as it was; for an idle lock it marks
    the lock invalid and reports an error only when the destruction of all
    three objects failed. *)
Theorem rwl_init_destroy l :
  (∀ m r w ret l' objs, rwl_init m r w l = (ret, l', objs) →
     (ret = 0 ↔ m = 0 ∧ r = 0 ∧ w = 0) ∧
     (ret = 0 → l' = fresh ∧ objs = [WriteCond; ReadCond; Mutex]) ∧
     (ret ≠ 0 → objs = [] ∧ valid l' = valid l)) ∧
  (∀ st, valid l = RWLOCK_VALID → d_lock st = 0 →
     0 < r_active l ∨ w_active l ≠ 0 ∨ r_wait l ≠ 0 ∨ w_wait l ≠ 0 →
     rwl_destroy st l = (EBUSY, l)) ∧
  (∀ st ret l', l = fresh → d_lock st = 0 → d_unlock st = 0 → rwl_destroy st l = (ret, l') →
     l' = Rwl 0 0 0 0 0 ∧ (ret ≠ 0 ↔ d_mutex st ≠ 0 ∧ d_read st ≠ 0 ∧ d_write st ≠ 0)).
Proof.
  split_and!.
  - unfold rwl_init. intros m r w ret l' objs H.
    destruct (Z.eqb_spec m 0), (Z.eqb_spec r 0), (Z.eqb_spec w 0); cbn in H; simplify_eq;
      split_and!; naive_solver.
  - unfold rwl_destroy, destroy_locked. intros st -> -> Hbusy. cbn.
    destruct (0 <? r_active l) eqn:?, (w_active l =? 0) eqn:?, (r_wait l =? 0) eqn:?,
      (w_wait l =? 0) eqn:?; zbool; cbn; try done. lia.
  - unfold rwl_destroy, destroy_locked. intros st ret l' -> -> ->. cbn.
    destruct (d_mutex st =? 0) eqn:?, (d_read st =? 0) eqn:?; zbool; intros; simplify_eq; naive_solver.
Qed.

Lemma rwl_init_destroy_witness :
  rwl_destroy (DestroyStatus 0 0 0 EBUSY EBUSY) fresh = (0, Rwl 0 0 0 0 0) ∧
  rwl_destroy (DestroyStatus 0 0 0 0 0) (Rwl RWLOCK_VALID 0 0 0 1) =
    (EBUSY, Rwl RWLOCK_VALID 0 0 0 1).
Proof.
  split; [reflexivity|].
  apply (rwl_init_destroy (Rwl RWLOCK_VALID 0 0 0 1)); [reflexivity|reflexivity|].
  do 3 right. discriminate.
Defined.
End Rwlock.
