(* ===== verification/Barrier.v ===== *)
(** * Barriers over a mutex and a condition variable

    Models ldd-k4/thread/programming_with_posix_thread/barrier.c and barrier.h:
    creation, destruction and barrier_wait, run by any number of threads.  The
    history variables [generation] (how often the waiters were woken by a
    broadcast), [leaders] (how many calls of barrier_wait returned -1) and
    [arrived] (how often a thread has entered a wait) are not read by the code. *)

From S2P Require Import Prelude Pthread.

Module Barrier.

Definition BARRIER_VALID : Z := 0xdbcafe.

Record barrier_t := Bar { valid : Z; threshold : Z; counter : Z; cycle : Z }.

(** [objs]: whether the mutex and the condition variable exist on return. *)
Definition barrier_init (count mutex_init cond_init : Z) (b : barrier_t)
    : Z * barrier_t * (bool * bool) :=
  let b := Bar (valid b) count count 0 in
  if negb (mutex_init =? 0) then (mutex_init, b, (false, false)) else
  if negb (cond_init =? 0) then (cond_init, b, (false, false)) else
  (0, Bar BARRIER_VALID count count 0, (true, true)).

Definition barrier_destroy (lock unlock mutex_destroy cond_destroy : Z) (b : barrier_t)
    : Z * barrier_t :=
  if negb (valid b =? BARRIER_VALID) then (EINVAL, b) else
  if negb (lock =? 0) then (lock, b) else
  if negb (counter b =? threshold b) then (EBUSY, b) else
  let b := Bar 0 (threshold b) (counter b) (cycle b) in
  if negb (unlock =? 0) then (unlock, b) else
  let status := mutex_destroy in
  let status2 := cond_destroy in
  (if status =? 0 then status else status2, b).

(** ** barrier_wait

    From pthread_mutex_lock to the release of the mutex.  [Broadcast st] is a
    return after the call that woke the waiters. *)

Inductive out := Ret (status : Z) | Broadcast (status : Z) | Wait (cyc : Z).

(** The while loop: a thread of cycle [cyc] waits until the cycle changes. *)
Definition wait_loop (cyc wait_status : Z) (b : barrier_t) : out :=
  if cyc =? cycle b then
    if negb (wait_status =? 0) then Ret wait_status else Wait cyc
  else Ret 0.

Definition barrier_wait (bcast_status wait_status : Z) (b : barrier_t) : barrier_t * out :=
  let cyc := cycle b in
  let n := counter b - 1 in
  if n =? 0 then
    (Bar (valid b) (threshold b) (threshold b) (if cycle b =? 0 then 1 else 0),
     if bcast_status =? 0 then Broadcast (-1) else Ret bcast_status)
  else
    let b := Bar (valid b) (threshold b) n (cycle b) in
    (b, wait_loop cyc wait_status b).

(** ** Threads *)

Inductive pc :=
| Idle (status : Z)
| Called                 (** the validity test passed, before pthread_mutex_lock *)
| Blocked (cyc : Z)      (** in pthread_cond_wait *)
| Woken (cyc : Z).       (** unblocked, before taking the mutex again *)

Record thread := Thr { tpc : pc; arrived : Z }.

Record sys := Sys {
  bar : barrier_t;
  threads : gmap nat thread;
  generation : Z;
  leaders : Z              (** returns with -1 *)
}.

Record env := Env { e_lock : Z; e_bcast : Z; e_wait : Z }.

Inductive event := ECall (t : nat) | ERun (t : nat) (e : env) | ESpurious (t : nat).

Definition is_blocked (th : thread) : bool :=
  match tpc th with Blocked _ => true | _ => false end.
Definition unblock (th : thread) : thread :=
  match tpc th with Blocked c => Thr (Woken c) (arrived th) | _ => th end.

(** The number of returns with -1, after one more return with [st]. *)
Definition report (st : Z) (leaders : Z) : Z := if st =? -1 then leaders + 1 else leaders.

(** Continue thread [t], which has arrived [a] times, with the outcome of its
    critical section. *)
Definition finish (s : sys) (t : nat) (a : Z) (b : barrier_t) (o : out) : sys :=
  match o with
  | Ret st =>
      Sys b (<[t := Thr (Idle st) a]> (threads s)) (generation s) (report st (leaders s))
  | Broadcast st =>
      Sys b (<[t := Thr (Idle st) a]> (wake_every is_blocked unblock (threads s)))
          (generation s + 1) (report st (leaders s))
  | Wait c =>
      Sys b (<[t := Thr (Blocked c) a]> (threads s)) (generation s) (leaders s)
  end.

Definition set_thread (s : sys) (t : nat) (th : thread) : sys :=
  Sys (bar s) (<[t := th]> (threads s)) (generation s) (leaders s).

Definition step (s : sys) (ev : event) : option sys :=
  match ev with
  | ECall t =>
      match threads s !! t with
      | Some (Thr (Idle _) a) =>
          Some (set_thread s t
            (Thr (if negb (valid (bar s) =? BARRIER_VALID) then Idle EINVAL else Called) a))
      | _ => None
      end
  | ERun t e =>
      match threads s !! t with
      | Some (Thr Called a) =>
          if negb (e_lock e =? 0) then Some (finish s t a (bar s) (Ret (e_lock e))) else
          let r := barrier_wait (e_bcast e) (e_wait e) (bar s) in
          Some (finish s t (a + 1) r.1 r.2)
      | Some (Thr (Woken c) a) => Some (finish s t a (bar s) (wait_loop c (e_wait e) (bar s)))
      | _ => None
      end
  | ESpurious t =>
      match threads s !! t with
      | Some (Thr (Blocked c) a) => Some (set_thread s t (Thr (Woken c) a))
      | _ => None
      end
  end.

(** Steps in which pthread_cond_broadcast and pthread_cond_wait succeed; a
    failing pthread_mutex_lock returns an error number, which is positive. *)
Definition calm_step (s : sys) (ev : event) : option sys :=
  match ev with
  | ERun t e => if (0 <=? e_lock e) && (e_bcast e =? 0) && (e_wait e =? 0) then step s ev else None
  | _ => step s ev
  end.

(** A new barrier for [n] threads, used by exactly [n] threads. *)
Definition initial (n : Z) (s : sys) : Prop :=
  0 < n ∧ bar s = (barrier_init n 0 0 (Bar 0 0 0 0)).1.2 ∧ generation s = 0 ∧ leaders s = 0 ∧
  Z.of_nat (size (threads s)) = n ∧ ∀ t th, threads s !! t = Some th → th = Thr (Idle 0) 0.

(** ** Invariant *)

(** Waiting for the release of the current generation. *)
Definition waiting (c : Z) (th : thread) : bool :=
  match tpc th with Blocked c' | Woken c' => c' =? c | _ => false end.

Definition thread_ok (b : barrier_t) (g : Z) (th : thread) : Prop :=
  match tpc th with
  | Idle _ | Called => arrived th = g
  | Blocked c => c = cycle b ∧ arrived th = g + 1
  | Woken c => c = cycle b ∧ arrived th = g + 1 ∨ c ≠ cycle b ∧ arrived th = g
  end.

Record bar_inv (n : Z) (s : sys) : Prop := {
  inv_valid : valid (bar s) = BARRIER_VALID;
  inv_threshold : threshold (bar s) = n;
  inv_size : Z.of_nat (size (threads s)) = n;
  inv_cycle : cycle (bar s) = generation s mod 2;
  inv_counter : counter (bar s) = n - count (waiting (cycle (bar s))) (threads s);
  inv_positive : 0 < counter (bar s);
  inv_leaders : leaders s = generation s;
  inv_threads : map_Forall (λ _, thread_ok (bar s) (generation s)) (threads s)
}.

Lemma size_insert_same {A} (ts : gmap nat A) t p q :
  ts !! t = Some p → size (<[t := q]> ts) = size ts.
Proof. intros Ht. apply map_size_insert_Some. by rewrite Ht. Qed.

(** A step of thread [t] that leaves the barrier's cycle and generation alone. *)
Lemma barrier_move_inv n s b t th th' :
  bar_inv n s → threads s !! t = Some th →
  valid b = valid (bar s) → threshold b = threshold (bar s) → cycle b = cycle (bar s) →
  counter b = counter (bar s) + b2z (waiting (cycle b) th) - b2z (waiting (cycle b) th') →
  0 < counter b → thread_ok (bar s) (generation s) th' →
  bar_inv n (Sys b (<[t := th']> (threads s)) (generation s) (leaders s)).
Proof.
  intros [H1 H2 H3 H4 H5 H6 H7 H8] Ht Hv Hth Hcy Hco Hpos Hok.
  constructor; cbn; rewrite ?Hv, ?Hth, ?Hcy; try done.
  - by rewrite (size_insert_same _ _ th).
  - rewrite Hco, (count_insert _ _ _ _ _ Ht), H5, Hcy. lia.
  - apply map_Forall_insert_2; [|eapply map_Forall_impl; [exact H8|]].
    + unfold thread_ok in *. by rewrite Hcy.
    + intros u x. unfold thread_ok. by rewrite Hcy.
Qed.

(** When one arrival is missing, every other thread waits for this release. *)
Lemma last_arrival n s t a :
  bar_inv n s → threads s !! t = Some (Thr Called a) → counter (bar s) - 1 = 0 →
  ∀ u th, threads s !! u = Some th → u ≠ t →
    tpc th = Blocked (cycle (bar s)) ∧ arrived th = generation s + 1 ∨
    tpc th = Woken (cycle (bar s)) ∧ arrived th = generation s + 1.
Proof.
  intros [H1 H2 H3 H4 H5 H6 H7 H8] Ht Hc u th Hu Hne.
  assert (waiting (cycle (bar s)) th = true) as Hw
    by (eapply (count_all_but _ (threads s) t u); [lia|done..]).
  specialize (H8 u th Hu). unfold waiting, thread_ok in *.
  destruct (tpc th) as [| |c|c]; try done; zbool; naive_solver.
Qed.

(** The last arrival releases the generation. *)
Lemma inv_release n s t a :
  bar_inv n s → threads s !! t = Some (Thr Called a) → counter (bar s) - 1 = 0 →
  bar_inv n (finish s t (a + 1)
    (Bar (valid (bar s)) (threshold (bar s)) (threshold (bar s)) (if cycle (bar s) =? 0 then 1 else 0))
    (Broadcast (-1))).
Proof.
  intros Hinv Ht Hc. pose proof (last_arrival n s t a Hinv Ht Hc) as Hothers.
  destruct Hinv as [H1 H2 H3 H4 H5 H6 H7 H8].
  set (ncyc := if cycle (bar s) =? 0 then 1 else 0).
  assert (ncyc ≠ cycle (bar s) ∧ ncyc = (generation s + 1) mod 2) as [Hnc Hng].
  { unfold ncyc. rewrite H4. pose proof (Z.mod_pos_bound (generation s) 2 ltac:(lia)).
    destruct (generation s mod 2 =? 0) eqn:E; zbool; split; try lia;
      rewrite Z.add_mod by lia; [by rewrite E|].
    replace (generation s mod 2) with 1 by lia. done. }
  assert (∀ u th, <[t := Thr (Idle (-1)) (a + 1)]> (wake_every is_blocked unblock (threads s)) !! u
    = Some th → waiting ncyc th = false ∧ thread_ok (Bar (valid (bar s)) n n ncyc) (generation s + 1) th)
    as Hnew.
  { intros u th Hu. destruct (decide (u = t)) as [->|Hne].
    - rewrite lookup_insert_eq in Hu. simplify_eq. split; [done|]. cbn.
      specialize (H8 t _ Ht). cbn in H8. lia.
    - rewrite lookup_insert_ne, lookup_wake_every in Hu by done.
      apply fmap_Some in Hu as (th0&Hu&->).
      destruct (Hothers u th0 Hu Hne) as [[Hp Ha]|[Hp Ha]]; unfold is_blocked, unblock;
        rewrite Hp; unfold waiting, thread_ok; cbn; rewrite ?Hp; rewrite Z.eqb_neq; naive_solver. }
  unfold finish. rewrite H2. fold ncyc. constructor; cbn; try done; try lia.
  - rewrite (size_insert_same _ _ (Thr Called a)) by by apply wake_every_other.
    unfold wake_every. by rewrite size_update_all.
  - match goal with |- _ = n - count ?P ?ts => assert (count P ts = 0) as ->; [|lia] end.
    match goal with |- count ?P ?ts = 0 => destruct (decide (0 < count P ts)) as [Hp|];
      [|pose proof (count_nonneg P ts); lia] end.
    apply count_pos in Hp as (u&th&Hu&Hw). destruct (Hnew u th Hu). congruence.
  - pose proof (count_nonneg (waiting (cycle (bar s))) (threads s)). lia.
  - intros u th Hu. by apply (Hnew u th).
Qed.

Lemma barrier_calm_inv n s ev s' : bar_inv n s → calm_step s ev = Some s' → bar_inv n s'.
Proof.
  intros Hinv Hq.
  pose proof (inv_valid _ _ Hinv) as H1. pose proof (inv_positive _ _ Hinv) as H6.
  pose proof (inv_threads _ _ Hinv) as H8.
  assert (step s ev = Some s') as Hs by (destruct ev; cbn in Hq; cases; done).
  destruct ev as [t|t e|t]; cbn in Hs, Hq; destruct (threads s !! t) as [[p a]|] eqn:Ht; try done;
    pose proof (H8 t _ Ht) as Hok; cbn in Hok.
  - destruct p; try done. rewrite H1 in Hs. cbn in Hs. simplify_eq.
    by apply (barrier_move_inv n s _ t _ _ Hinv Ht); cbn; try lia.
  - destruct ((0 <=? e_lock e) && (e_bcast e =? 0) && (e_wait e =? 0)) eqn:Ee; [|done].
    clear Hq. zbool.
    destruct p as [| | |c]; try done; cbn in Hok.
    + destruct (negb (e_lock e =? 0)); simplify_eq.
      { cbn [finish]. unfold report. rewrite (proj2 (Z.eqb_neq (e_lock e) (-1))) by lia.
        by apply (barrier_move_inv n s _ t _ _ Hinv Ht); cbn; try lia. }
      unfold barrier_wait, wait_loop. cbn [cycle]. rewrite Z.eqb_refl.
      replace (e_bcast e) with 0. replace (e_wait e) with 0. cbn [negb Z.eqb].
      destruct (counter (bar s) - 1 =? 0) eqn:Ec; zbool; cbn [fst snd]; [by apply inv_release|].
      apply (barrier_move_inv n s _ t _ _ Hinv Ht); cbn; rewrite ?Z.eqb_refl; try done; cbn; lia.
    + simplify_eq. unfold wait_loop. replace (e_wait e) with 0. cbn [negb Z.eqb].
      destruct (c =? cycle (bar s)) eqn:Ec; zbool; cbn [finish];
        apply (barrier_move_inv n s _ t _ _ Hinv Ht); cbn;
        first [done | naive_solver | destruct (Z.eqb_spec c (cycle (bar s))); cbn; lia].
  - destruct p; simplify_eq. apply (barrier_move_inv n s _ t _ _ Hinv Ht); cbn; first [done|lia|naive_solver].
Qed.

Lemma barrier_initial_inv n s : initial n s → bar_inv n s.
Proof.
  intros (Hn&Hb&Hg&Hl&Hs&Ht).
  assert (count (waiting 0) (threads s) = 0) as Hc.
  { destruct (decide (0 < count (waiting 0) (threads s))) as [Hp|];
      [|pose proof (count_nonneg (waiting 0) (threads s)); lia].
    apply count_pos in Hp as (u&th&Hu&Hw). apply Ht in Hu as ->. done. }
  constructor; rewrite ?Hb, ?Hg, ?Hl; cbn; try done; [lia|].
  intros t th Hth. apply Ht in Hth as ->. done.
Qed.

(** ** Properties *)

Definition idle (th : thread) : bool := match tpc th with Idle _ => true | _ => false end.
Definition inside (th : thread) : bool :=
  match tpc th with Blocked _ | Woken _ => true | _ => false end.
Definition calm : env := Env 0 0 0.

(** C34 (invariant).  A barrier used by exactly [threshold] threads, while
    pthread_cond_broadcast and pthread_cond_wait succeed ([calm_step]; spurious
    wake-ups and failing pthread_mutex_lock are allowed), synchronises them:
    when a thread has returned from its k-th barrier_wait every thread has
    arrived at least k and at most k + 1 times; the calls that returned -1 are
    as many as the releases, one for each; and when all threads are inside
    barrier_wait at least one has been released and returns 0 when it runs. *)
Theorem barrier_rounds n s :
  reachable (initial n) calm_step s →
  (∀ t u x y, threads s !! t = Some x → threads s !! u = Some y → idle x = true →
     arrived x ≤ arrived y ≤ arrived x + 1) ∧
  leaders s = generation s ∧
  (∀ t x, threads s !! t = Some x → idle x = true → arrived x = generation s) ∧
  ((∀ t x, threads s !! t = Some x → inside x = true) →
   ∃ t x s', threads s !! t = Some x ∧ calm_step s (ERun t calm) = Some s' ∧
     threads s' !! t = Some (Thr (Idle 0) (arrived x))).
Proof.
  intros Hr. apply (invariant_reachable _ _ (bar_inv n)) in Hr as [H1 H2 H3 H4 H5 H6 H7 H8];
    [|apply barrier_initial_inv|intros s0 e0 s1; apply barrier_calm_inv].
  split_and!; [|done| |].
  - intros t u x y Hx Hy Hi. pose proof (H8 t x Hx) as Hox. pose proof (H8 u y Hy) as Hoy.
    unfold idle, thread_ok in *. destruct (tpc x); try done.
    destruct (tpc y); lia.
  - intros t x Hx Hi. pose proof (H8 t x Hx) as Hox. unfold idle, thread_ok in *. by destruct (tpc x).
  - intros Hin. pose proof (count_negb (waiting (cycle (bar s))) (threads s)).
    assert (0 < count (λ th, negb (waiting (cycle (bar s)) th)) (threads s)) as Hp by lia.
    apply count_pos in Hp as (t&[p a]&Ht&Hw). pose proof (H8 t _ Ht) as Hok.
    specialize (Hin t _ Ht). unfold waiting, thread_ok, inside in *. cbn in *.
    destruct p as [| |c|c]; try done; zbool; [lia|].
    exists t, (Thr (Woken c) a). cbn. rewrite Ht. eexists. split_and!; [done|done|].
    unfold wait_loop. rewrite (proj2 (Z.eqb_neq _ _)) by done. cbn. by rewrite lookup_insert_eq.
Qed.

Definition two : sys :=
  Sys (Bar BARRIER_VALID 2 2 0) {[ 1%nat := Thr (Idle 0) 0; 2%nat := Thr (Idle 0) 0 ]} 0 0.

Lemma two_initial : initial 2 two.
Proof.
  split_and!; try done. intros t th. cbn. rewrite lookup_insert_Some, lookup_singleton_Some.
  naive_solver.
Qed.

Lemma barrier_rounds_witness :
  ∃ s, run calm_step two [ECall 1; ERun 1 calm; ECall 2; ERun 2 calm; ERun 1 calm] = Some s ∧
    leaders s = generation s ∧ generation s = 1.
Proof.
  destruct (run calm_step two _) as [s|] eqn:E; [|vm_compute in E; discriminate].
  exists s. split; [done|].
  destruct (barrier_rounds 2 s) as (_&Hl&_).
  { eapply run_reachable; [apply reach_init, two_initial|exact E]. }
  split; [exact Hl|]. vm_compute in E. by simplify_eq.
Defined.

(** With more threads than the threshold a released thread can miss its
    release: the cycle flag has returned to its value before thread 1 runs, so
    thread 1 blocks again although two barriers have completed. *)
Theorem barrier_missed_release :
  run step
    (Sys (Bar BARRIER_VALID 2 2 0)
      {[ 1%nat := Thr (Idle 0) 0; 2%nat := Thr (Idle 0) 0; 3%nat := Thr (Idle 0) 0 ]} 0 0)
    [ECall 1; ERun 1 calm; ECall 2; ERun 2 calm; ECall 2; ERun 2 calm; ECall 3; ERun 3 calm;
     ERun 2 calm; ERun 1 calm] =
  Some (Sys (Bar BARRIER_VALID 2 2 0)
      {[ 1%nat := Thr (Blocked 0) 1; 2%nat := Thr (Idle 0) 2; 3%nat := Thr (Idle (-1)) 1 ]} 2 2).
Proof. vm_compute. reflexivity. Qed.

(** barrier_destroy reports a failing pthread_cond_destroy only when
    pthread_mutex_destroy failed too, and it succeeds while a released thread
    has not left barrier_wait yet. *)
Lemma barrier_destroy_hazards :
  (∀ b st, valid b = BARRIER_VALID → counter b = threshold b → (barrier_destroy 0 0 0 st b).1 = 0) ∧
  ∃ s c a, run step two [ECall 1; ERun 1 calm; ECall 2; ERun 2 calm] = Some s ∧
    threads s !! 1%nat = Some (Thr (Woken c) a) ∧ (barrier_destroy 0 0 0 0 (bar s)).1 = 0.
Proof.
  split.
  - intros b st Hv Hc. unfold barrier_destroy. rewrite Hv, Hc. by rewrite !Z.eqb_refl.
  - do 3 eexists. split; [vm_compute; reflexivity|]. split; vm_compute; reflexivity.
Qed.
End Barrier.
