(* ===== verification/Workq.v ===== *)
(** * Work queue manager

    Models ldd-k4/thread/programming_with_posix_thread/workq.c and workq.h: the
    linked list of requests in a heap, the server threads that workq_add
    creates, their timed wait, and rundown by workq_destroy.  A server thread's
    steps end where it releases the mutex: in pthread_cond_timedwait, before the
    engine call, or at its end.  Unlocking the mutex by its holder does not fail.  A
    client that passed the validity test before workq_destroy was done may lock a
    destroyed mutex, which POSIX leaves undefined: here the call succeeds or fails. *)

From S2P Require Import Prelude Pthread LinkedList.

(** stdpp's last element of a list; the record below has a field of that name. *)
Abbreviation list_last := last.

Module Workq.

Definition WORKQ_VALID : Z := 0xdec1992.

Record workq_ele_t := Ele { next : option nat; data : Z }.

Record workq_t := Wq {
  first : option nat;
  last : option nat;
  valid : Z;
  quit : Z;
  parallelism : Z;
  counter : Z;
  idle : Z
}.

Abbreviation heap := (gmap nat workq_ele_t).

(** ** Creation and destruction

    The list holds which objects exist on return; the arguments are the
    statuses of the pthread calls. *)

Inductive obj := Attr | Mutex | Cv.
#[export] Instance obj_eq_dec : EqDecision obj.
Proof. solve_decision. Defined.

Definition workq_init (threads attr_init setdetach mutex_init cond_init : Z) (wq : workq_t)
    : Z * workq_t * list obj :=
  if negb (attr_init =? 0) then (attr_init, wq, []) else
  let objs := [Attr] in
  if negb (setdetach =? 0) then (setdetach, wq, filter (.≠ Attr) objs) else
  if negb (mutex_init =? 0) then (mutex_init, wq, filter (.≠ Attr) objs) else
  let objs := Mutex :: objs in
  if negb (cond_init =? 0) then
    (cond_init, wq, filter (.≠ Attr) (filter (.≠ Mutex) objs)) else
  (0, Wq None None WORKQ_VALID 0 threads 0 0, Cv :: objs).

(** The statuses of the calls after the rundown of workq_destroy. *)
Record destroy_status := DestroyStatus { d_unlock : Z; d_mutex : Z; d_cond : Z; d_attr : Z }.

Definition destroy_end (st : destroy_status) : Z :=
  if negb (d_unlock st =? 0) then d_unlock st else
  let status := d_mutex st in
  let status1 := d_cond st in
  let status2 := d_attr st in
  if negb (status =? 0) then status else if negb (status1 =? 0) then status1 else status2.

(** ** Critical sections *)

Inductive wakeup := NoWakeup | Signal | Broadcast.

(** [while (wq->counter > 0) pthread_cond_wait ...]; [None]: it blocks. *)
Definition destroy_loop (wait_status : Z) (st : destroy_status) (wq : workq_t) : option Z :=
  if 0 <? counter wq then
    if negb (wait_status =? 0) then Some wait_status else None
  else Some (destroy_end st).

Definition workq_destroy (bcast_status wait_status : Z) (st : destroy_status) (wq : workq_t)
    : workq_t * option Z * wakeup :=
  let wq := Wq (first wq) (last wq) 0 (quit wq) (parallelism wq) (counter wq) (idle wq) in
  if 0 <? counter wq then
    let wq := Wq (first wq) (last wq) (valid wq) 1 (parallelism wq) (counter wq) (idle wq) in
    if 0 <? idle wq then
      if negb (bcast_status =? 0) then (wq, Some bcast_status, NoWakeup)
      else (wq, destroy_loop wait_status st wq, Broadcast)
    else (wq, destroy_loop wait_status st wq, NoWakeup)
  else (wq, Some (destroy_end st), NoWakeup).

(** Add [item] to the end of the list; [None]: [wq->last] is dereferenced
    while it is not a live element. *)
Definition enqueue (item : nat) (wq : workq_t) (h : heap) : option (workq_t * heap) :=
  match first wq with
  | None =>
      Some (Wq (Some item) (Some item) (valid wq) (quit wq) (parallelism wq) (counter wq) (idle wq), h)
  | Some _ =>
      l ← last wq;
      e ← h !! l;
      Some (Wq (first wq) (Some item) (valid wq) (quit wq) (parallelism wq) (counter wq) (idle wq),
            <[l := Ele (Some item) (data e)]> h)
  end.

(** workq_add from pthread_mutex_lock on; the boolean tells whether a server
    thread was created. *)
Definition workq_add (item : nat) (signal_status create_status : Z) (wq : workq_t) (h : heap)
    : option (workq_t * heap * Z * wakeup * bool) :=
  '(wq, h) ← enqueue item wq h;
  if 0 <? idle wq then
    if negb (signal_status =? 0) then Some (wq, h, signal_status, NoWakeup, false)
    else Some (wq, h, 0, Signal, false)
  else if counter wq <? parallelism wq then
    if negb (create_status =? 0) then Some (wq, h, create_status, NoWakeup, false)
    else
      Some (Wq (first wq) (last wq) (valid wq) (quit wq) (parallelism wq) (counter wq + 1) (idle wq),
            h, 0, NoWakeup, true)
  else Some (wq, h, 0, NoWakeup, false).

(** Where workq_server releases the mutex. *)
Inductive act :=
| AWait                              (** in pthread_cond_timedwait *)
| AEngine (we : nat) (timedout : bool)
| AExit (w : wakeup).

Definition dec_counter (wq : workq_t) : workq_t :=
  Wq (first wq) (last wq) (valid wq) (quit wq) (parallelism wq) (counter wq - 1) (idle wq).

Definition no_work (wq : workq_t) : bool := bool_decide (first wq = None).

Section server.
(** The next iteration of [while (1)]. *)
Context (again : workq_t → option (workq_t * act)).

(** The two tests at the end of the loop body. *)
Definition server_check (timedout : bool) (wq : workq_t) : option (workq_t * act) :=
  if no_work wq && negb (quit wq =? 0) then
    let wq := dec_counter wq in
    Some (wq, AExit (if counter wq =? 0 then Broadcast else NoWakeup))
  else if no_work wq && timedout then Some (dec_counter wq, AExit NoWakeup)
  else again wq.

(** From [we = wq->first]: unlink the first element, if there is one, or go on
    to the tests.  [None]: [wq->first] does not point to a live element. *)
Definition server_take (timedout : bool) (h : heap) (wq : workq_t) : option (workq_t * act) :=
  match first wq with
  | Some we =>
      e ← h !! we;
      let last' := if decide (last wq = Some we) then None else last wq in
      Some (Wq (next e) last' (valid wq) (quit wq) (parallelism wq) (counter wq) (idle wq),
            AEngine we timedout)
  | None => server_check timedout wq
  end.
End server.

(** [while (1)] from its top; one iteration is enough when it starts here (see
    [server_top_total]), so the fuel of the callers is 1. *)
Fixpoint server_top (fuel : nat) (h : heap) (wq : workq_t) : option (workq_t * act) :=
  match fuel with
  | O => None
  | S fuel =>
      if no_work wq && (quit wq =? 0) then Some (wq, AWait)
      else server_take (server_top fuel h) false h wq
  end.

(** pthread_cond_timedwait returned [status]. *)
Definition server_waited (status : Z) (h : heap) (wq : workq_t) : option (workq_t * act) :=
  if status =? ETIMEDOUT then server_take (server_top 1 h) true h wq
  else if negb (status =? 0) then Some (dec_counter wq, AExit NoWakeup)
  else if no_work wq && (quit wq =? 0) then Some (wq, AWait)
  else server_take (server_top 1 h) false h wq.

(** The engine has returned, the element is freed and the mutex taken again. *)
Definition server_done (timedout : bool) (h : heap) (wq : workq_t) : option (workq_t * act) :=
  server_check (server_top 1 h) timedout wq.

(** ** Threads *)

Inductive pc :=
| Idle (status : Z)               (** a client; the status of its last call *)
| AddCalled (item : nat)          (** workq_add before pthread_mutex_lock *)
| DestroyCalled                   (** workq_destroy before pthread_mutex_lock *)
| DBlocked (st : destroy_status)  (** workq_destroy in pthread_cond_wait *)
| DWoken (st : destroy_status)
| WStart                          (** a server before its first pthread_mutex_lock *)
| WBlocked                        (** a server in pthread_cond_timedwait *)
| WWoken
| WEngine (we : nat) (timedout : bool)
| WRelock (timedout : bool)       (** element freed, before taking the mutex again *)
| WExited                         (** a server that ended and left the count *)
| WLost.                          (** a server that ended because locking failed *)

(** [added] and [served] are histories: the data enqueued and dequeued. *)
Record sys := Sys {
  wq : workq_t;
  hp : heap;
  threads : gmap nat pc;
  added : list Z;
  served : list Z
}.

(** Statuses of pthread calls; [e_new] is the identifier of a created thread,
    [e_picks] the threads a signal unblocks. *)
Record env := Env { e_lock : Z; e_wakeup : Z; e_create : Z; e_wait : Z;
                    e_destroy : destroy_status; e_new : nat; e_picks : list nat }.

Inductive event :=
| EAdd (t : nat) (element : Z) (malloc : option nat)
| EDestroy (t : nat)
| ERun (t : nat) (e : env)
| ESpurious (t : nat)
| ETimeout (t : nat)                 (** the timed wait of a server expires *)
| EWaitError (t : nat) (status : Z). (** it fails with another status *)

Definition is_blocked (p : pc) : bool :=
  match p with WBlocked | DBlocked _ => true | _ => false end.
Definition unblock (p : pc) : pc :=
  match p with WBlocked => WWoken | DBlocked st => DWoken st | p => p end.

Definition issue (w : wakeup) (picks : list nat) (ts : gmap nat pc) : option (gmap nat pc) :=
  match w with
  | NoWakeup => Some ts
  | Signal => if signal_choice is_blocked ts picks then Some (wake unblock picks ts) else None
  | Broadcast => Some (wake_every is_blocked unblock ts)
  end.

(** Continue server [t] where its critical section ended. *)
Definition serve (s : sys) (t : nat) (r : option (workq_t * act)) : option sys :=
  '(wq', a) ← r;
  match a with
  | AWait => Some (Sys wq' (hp s) (<[t := WBlocked]> (threads s)) (added s) (served s))
  | AEngine we timedout =>
      e ← hp s !! we;
      Some (Sys wq' (hp s) (<[t := WEngine we timedout]> (threads s)) (added s)
                (served s ++ [data e]))
  | AExit w =>
      ts ← issue w [] (threads s);
      Some (Sys wq' (hp s) (<[t := WExited]> ts) (added s) (served s))
  end.

Definition set_pc (s : sys) (t : nat) (p : pc) : sys :=
  Sys (wq s) (hp s) (<[t := p]> (threads s)) (added s) (served s).

(** Client threads that have passed the validity test. *)
Definition is_entering (p : pc) : bool :=
  match p with AddCalled _ | DestroyCalled => true | _ => false end.

Definition run_thread (s : sys) (t : nat) (e : env) (p : pc) : option sys :=
  match p with
  | AddCalled item =>
      if negb (e_lock e =? 0) then
        Some (Sys (wq s) (delete item (hp s)) (<[t := Idle (e_lock e)]> (threads s))
                  (added s) (served s))
      else
        el ← hp s !! item;
        match workq_add item (e_wakeup e) (e_create e) (wq s) (hp s) with
        | None => None
        | Some (wq', h', st, w, created) =>
            ts ← issue w (e_picks e) (threads s);
            let ts := <[t := Idle st]> ts in
            if created then
              if decide (threads s !! e_new e = None) then
                Some (Sys wq' h' (<[e_new e := WStart]> ts) (added s ++ [data el]) (served s))
              else None
            else Some (Sys wq' h' ts (added s ++ [data el]) (served s))
        end
  | DestroyCalled =>
      if negb (e_lock e =? 0) then Some (set_pc s t (Idle (e_lock e))) else
      let '(wq', r, w) := workq_destroy (e_wakeup e) (e_wait e) (e_destroy e) (wq s) in
      ts ← issue w (e_picks e) (threads s);
      Some (Sys wq' (hp s) (<[t := match r with Some st => Idle st | None => DBlocked (e_destroy e) end]> ts)
                (added s) (served s))
  | DWoken st =>
      Some (set_pc s t (match destroy_loop (e_wait e) st (wq s) with
                        | Some r => Idle r | None => DBlocked st end))
  | WStart =>
      if negb (e_lock e =? 0) then Some (set_pc s t WLost) else serve s t (server_top 1 (hp s) (wq s))
  | WWoken => serve s t (server_waited 0 (hp s) (wq s))
  | WEngine we timedout =>
      Some (Sys (wq s) (delete we (hp s)) (<[t := WRelock timedout]> (threads s))
                (added s) (served s))
  | WRelock timedout =>
      if negb (e_lock e =? 0) then Some (set_pc s t WLost)
      else serve s t (server_done timedout (hp s) (wq s))
  | _ => None
  end.

Definition step (s : sys) (ev : event) : option sys :=
  match ev with
  | EAdd t element malloc =>
      match threads s !! t with
      | Some (Idle _) =>
          if negb (valid (wq s) =? WORKQ_VALID) then Some (set_pc s t (Idle EINVAL)) else
          match malloc with
          | None => Some (set_pc s t (Idle ENOMEM))
          | Some a =>
              if decide (hp s !! a = None) then
                Some (Sys (wq s) (<[a := Ele None element]> (hp s)) (<[t := AddCalled a]> (threads s))
                          (added s) (served s))
              else None
          end
      | _ => None
      end
  | EDestroy t =>
      match threads s !! t with
      | Some (Idle _) =>
          Some (set_pc s t (if negb (valid (wq s) =? WORKQ_VALID) then Idle EINVAL else DestroyCalled))
      | _ => None
      end
  | ERun t e => p ← threads s !! t; run_thread s t e p
  | ESpurious t =>
      match threads s !! t with
      | Some p => if is_blocked p then Some (set_pc s t (unblock p)) else None
      | None => None
      end
  | ETimeout t =>
      match threads s !! t with
      | Some WBlocked | Some WWoken => serve s t (server_waited ETIMEDOUT (hp s) (wq s))
      | _ => None
      end
  | EWaitError t status =>
      match threads s !! t with
      | Some WBlocked =>
          if (status =? 0) || (status =? ETIMEDOUT) then None
          else serve s t (server_waited status (hp s) (wq s))
      | _ => None
      end
  end.

(** After workq_init with [par] servers allowed: only client threads exist. *)
Definition initial (par : Z) (s : sys) : Prop :=
  wq s = (workq_init par 0 0 0 0 (Wq None None 0 0 0 0 0)).1.2 ∧ hp s = ∅ ∧ added s = [] ∧ served s = [] ∧
  ∀ t p, threads s !! t = Some p → p = Idle 0.

(** ** The list of requests *)

(** The elements reached from a pointer, given with their data. *)
Abbreviation wchain := (chain next data).

Record list_inv (w : workq_t) (h : heap) (l : list (nat * Z)) : Prop := {
  li_chain : wchain h (first w) l;
  li_nodup : NoDup l.*1;
  li_last : last w = fst <$> list_last l
}.

Lemma enqueue_spec w h l a d :
  list_inv w h l → h !! a = Some (Ele None d) → a ∉ l.*1 →
  ∃ h' la, enqueue a w h =
      Some (Wq la (Some a) (valid w) (quit w) (parallelism w) (counter w) (idle w), h') ∧
    list_inv (Wq la (Some a) (valid w) (quit w) (parallelism w) (counter w) (idle w)) h' (l ++ [(a, d)]) ∧
    (∀ b, b ∉ l.*1 → h' !! b = h !! b).
Proof.
  intros [Hc Hn Hl] Ha Hna. unfold enqueue.
  destruct l as [|[z dz] l _] using rev_ind.
  - cbn in Hc. rewrite Hc. do 2 eexists. split; [done|]. split; [|done].
    constructor; [|by apply NoDup_singleton|done]. cbn. split; [done|]. by exists (Ele None d).
  - rewrite last_snoc in Hl. cbn in Hl. rewrite Hl.
    assert (∃ x, first w = Some x) as [x Hx].
    { rewrite (chain_head _ _ _ _ _ Hc). destruct l as [|[b c] l]; cbn; eauto. }
    assert (∃ e, h !! z = Some e ∧ data e = dz) as (e&Hz&Hdz).
    { apply lseg_app in Hc as (r&_&->&e&?&?&_). eauto. }
    rewrite Hx. cbn. rewrite Hz. cbn. do 2 eexists. split; [done|].
    assert (a ≠ z) by (intros ->; apply Hna; rewrite fmap_app; set_solver). split.
    + constructor; cbn.
      * rewrite <- Hx. apply lseg_app. exists (Some a). split.
        { by eapply lseg_snoc_set; [..|by rewrite Hdz]. }
        cbn. split; [done|]. exists (Ele None d). by rewrite lookup_insert_ne by done.
      * rewrite fmap_app. apply NoDup_app. split; [done|]. split; [|apply NoDup_singleton].
        intros y Hy Hy'. cbn in Hy'. apply list_elem_of_singleton in Hy' as ->. done.
      * by rewrite last_snoc.
    + intros b Hb. rewrite lookup_insert_ne; [done|]. intros <-. apply Hb. rewrite fmap_app. set_solver.
Qed.

Lemma take_spec w h a l d :
  list_inv w h ((a, d) :: l) →
  ∃ e, h !! a = Some e ∧ data e = d ∧ first w = Some a ∧
  list_inv (Wq (next e) (if decide (last w = Some a) then None else last w) (valid w) (quit w)
    (parallelism w) (counter w) (idle w)) h l.
Proof.
  intros [(Hf&e&Ha&Hd&Hc) Hn Hl]. exists e. split_and!; [done..|].
  apply NoDup_cons in Hn as [Hna Hn]. constructor; [done..|]. cbn [last].
  rewrite last_cons in Hl. destruct (list_last l) as [[z dz]|] eqn:El; cbn in Hl; rewrite Hl; cbn.
  - rewrite decide_False; [done|]. intros [= ->]. apply Hna.
    apply list_elem_of_fmap. eexists (_, dz). split; [done|]. by apply last_Some_elem_of.
  - by rewrite decide_True.
Qed.

(** ** What a critical section of a server does *)

Definition pop (e : workq_ele_t) (we : nat) (w : workq_t) : workq_t :=
  Wq (next e) (if decide (last w = Some we) then None else last w) (valid w) (quit w)
     (parallelism w) (counter w) (idle w).

(** The outcome of a server step; [err] when the timed wait failed. *)
Definition server_post (err : bool) (h : heap) (w : workq_t) (r : option (workq_t * act)) : Prop :=
  ∃ w' a, r = Some (w', a) ∧
    match a with
    | AWait => w' = w ∧ first w = None ∧ quit w = 0
    | AEngine we _ => first w = Some we ∧ ∃ e, h !! we = Some e ∧ w' = pop e we w
    | AExit k => w' = dec_counter w ∧ k ≠ Signal ∧
        (err = false → first w = None ∧ (quit w ≠ 0 → counter w = 1 → k = Broadcast))
    end.

Section server_lemmas.
Context (w : workq_t) (h : heap) (l : list (nat * Z)) (Hl : list_inv w h l).

Lemma head_live we : first w = Some we → ∃ e, h !! we = Some e.
Proof.
  intros Hf. destruct Hl as [Hc _ _]. destruct l as [|[a d] l']; cbn in Hc; [congruence|].
  destruct Hc as (Ha&n&He&_). simplify_eq. eauto.
Qed.

(** [server_take] never uses the next iteration unless the queue is empty,
    nobody asked to quit and the wait has not timed out. *)
Lemma server_take_post again timedout :
  first w ≠ None ∨ quit w ≠ 0 ∨ timedout = true →
  server_post false h w (server_take again timedout h w).
Proof.
  intros Hcond. unfold server_take. destruct (first w) as [we|] eqn:Hf.
  - destruct (head_live we Hf) as [e He]. rewrite He. cbn. do 2 eexists. split; [done|]. cbn. eauto.
  - unfold server_check, no_work. rewrite bool_decide_true by done. cbn.
    destruct (quit w =? 0) eqn:Hq; zbool; cbn.
    + destruct timedout; [|naive_solver]. do 2 eexists. split; [done|]. cbn. naive_solver.
    + do 2 eexists. split; [done|]. cbn. split_and!; [done|by case_match|]. intros _. split; [done|].
      intros _ Hc1. rewrite Hc1. done.
Qed.

(** One iteration suffices from the top of [while (1)]. *)
Lemma server_top_total fuel : server_post false h w (server_top (S fuel) h w).
Proof.
  cbn [server_top]. unfold no_work. destruct (bool_decide_reflect (first w = None)) as [Hf|Hf];
    cbn [andb]; [destruct (quit w =? 0) eqn:Hq; zbool|].
  - do 2 eexists. split; [done|]. naive_solver.
  - apply server_take_post. auto.
  - apply server_take_post. auto.
Qed.

Lemma server_waited_post status :
  server_post (negb ((status =? 0) || (status =? ETIMEDOUT))) h w (server_waited status h w).
Proof.
  unfold server_waited. destruct (status =? ETIMEDOUT) eqn:Ht.
  { rewrite orb_true_r. apply server_take_post. auto. }
  destruct (status =? 0) eqn:H0; cbn [negb orb].
  - pose proof (server_top_total 1) as Hp. cbn [server_top] in Hp. by case_match.
  - do 2 eexists. split; [done|]. cbn. done.
Qed.

Lemma server_done_post timedout : server_post false h w (server_done timedout h w).
Proof.
  unfold server_done, server_check. pose proof (server_take_post (server_top 1 h) timedout) as Hp.
  unfold server_take, server_check in Hp. pose proof (server_top_total 0) as Ht.
  unfold no_work in *. destruct (first w) as [we|] eqn:Hf.
  - rewrite bool_decide_false by done. done.
  - rewrite bool_decide_true in * by done. cbn [andb] in *.
    destruct (quit w =? 0) eqn:Hq; zbool; cbn [negb] in *; [|naive_solver].
    destruct timedout; [naive_solver|done].
Qed.
End server_lemmas.

(** ** Invariant *)

Definition counted (p : pc) : bool :=
  match p with WStart | WBlocked | WWoken | WEngine _ _ | WRelock _ | WLost => true | _ => false end.
Definition held (p : pc) : option nat :=
  match p with AddCalled a | WEngine a _ => Some a | _ => None end.

Definition held_ok (h : heap) (l : list (nat * Z)) (p : pc) : Prop :=
  match p with
  | AddCalled a => (a ∉ l.*1) ∧ ∃ d, h !! a = Some (Ele None d)
  | WEngine a _ => (a ∉ l.*1) ∧ is_Some (h !! a)
  | _ => True
  end.

(** Every element a thread holds is live, outside the list, and held by it only. *)
Record threads_inv (h : heap) (l : list (nat * Z)) (ts : gmap nat pc) : Prop := {
  ti_held : map_Forall (λ _, held_ok h l) ts;
  ti_owner : ∀ t u p q a, ts !! t = Some p → ts !! u = Some q →
    held p = Some a → held q = Some a → t = u
}.

Record wq_inv (s : sys) (l : list (nat * Z)) : Prop := {
  inv_list : list_inv (wq s) (hp s) l;
  inv_history : added s = served s ++ l.*2;
  inv_counter : counter (wq s) = count counted (threads s);
  inv_limit : counter (wq s) ≤ Z.max 0 (parallelism (wq s));
  inv_idle : idle (wq s) = 0;
  inv_threads : threads_inv (hp s) l (threads s)
}.

Lemma threads_insert h l ts t q :
  threads_inv h l ts → held_ok h l q →
  (∀ u p a, u ≠ t → ts !! u = Some p → held p = Some a → held q ≠ Some a) →
  threads_inv h l (<[t := q]> ts).
Proof.
  intros [Hh Ho] Hq Hne. constructor; [by apply map_Forall_insert_2|].
  intros u v p p' a. rewrite !lookup_insert_Some.
  intros [[<- <-]|[? Hu]] [[<- <-]|[? Hv]] Ha Ha'; [done|..].
  - by destruct (Hne v p' a).
  - by destruct (Hne u p a).
  - eauto.
Qed.

Lemma threads_insert_none h l ts t q :
  threads_inv h l ts → held q = None → threads_inv h l (<[t := q]> ts).
Proof. intros Ht Hq. apply threads_insert; [done|by destruct q|]. intros. by rewrite Hq. Qed.

(** The heap and the list change only where no thread holds an element. *)
Lemma threads_heap h l h' l' ts :
  threads_inv h l ts →
  (∀ u p a, ts !! u = Some p → held p = Some a → (a ∉ l'.*1) ∧ h' !! a = h !! a) →
  threads_inv h' l' ts.
Proof.
  intros [Hh Ho] Hsame. constructor; [|done]. intros u p Hu. specialize (Hh u p Hu).
  destruct p; cbn in *; try done; (edestruct (Hsame u) as [? ->]; [done|done|naive_solver]).
Qed.

Lemma issue_lookup_inv w pk ts ts' u p' :
  issue w pk ts = Some ts' → ts' !! u = Some p' →
  ∃ p, ts !! u = Some p ∧ (p' = p ∨ p' = unblock p).
Proof.
  intros Hi Hu. destruct w; cbn in Hi; simplify_eq; [eauto| |].
  - case_match; simplify_eq. rewrite lookup_wake in Hu. apply fmap_Some in Hu as (p&?&->).
    exists p. case_decide; auto.
  - rewrite lookup_wake_every in Hu. apply fmap_Some in Hu as (p&?&->). exists p. case_match; auto.
Qed.

Lemma threads_issue h l w pk ts ts' :
  threads_inv h l ts → issue w pk ts = Some ts' → threads_inv h l ts'.
Proof.
  intros [Hh Ho] Hi. constructor.
  - intros u p' Hu. destruct (issue_lookup_inv _ _ _ _ _ _ Hi Hu) as (p&Hp&Hpp).
    specialize (Hh u p Hp). destruct Hpp as [->| ->]; by destruct p.
  - intros t u p' q' a Ht Hu Ha Ha'.
    destruct (issue_lookup_inv _ _ _ _ _ _ Hi Ht) as (p&Hp&Hpp).
    destruct (issue_lookup_inv _ _ _ _ _ _ Hi Hu) as (q&Hq&Hqq).
    eapply (Ho t u p q a); [done..| |].
    + destruct Hpp as [->| ->]; by destruct p.
    + destruct Hqq as [->| ->]; by destruct q.
Qed.

Lemma workq_issue_count P w pk ts ts' :
  (∀ p, P (unblock p) = P p) → issue w pk ts = Some ts' → count P ts' = count P ts.
Proof.
  intros HP Hi. destruct w; cbn in Hi; simplify_eq; [done| |].
  - case_match; simplify_eq. by apply count_wake.
  - by apply count_wake_every.
Qed.

Lemma workq_issue_lookup w pk ts ts' t p :
  issue w pk ts = Some ts' → ts !! t = Some p →
  ∃ p', ts' !! t = Some p' ∧ (p' = p ∨ p' = unblock p).
Proof.
  intros Hi Ht. destruct w; cbn in Hi; simplify_eq; [eauto| |].
  - case_match; simplify_eq. rewrite lookup_wake, Ht. cbn. case_decide; eauto.
  - rewrite lookup_wake_every, Ht. cbn. case_match; eauto.
Qed.

(** The count of servers after thread [t] moved and a wake-up was issued. *)
Lemma moved_counted w pk ts ts' t p q :
  issue w pk ts = Some ts' → ts !! t = Some p →
  count counted (<[t := q]> ts') = count counted ts - b2z (counted p) + b2z (counted q).
Proof.
  intros Hi Ht. destruct (workq_issue_lookup _ _ _ _ _ _ Hi Ht) as (p'&Ht'&Hp').
  rewrite (count_insert _ _ _ _ _ Ht'), (workq_issue_count counted _ _ _ _ ltac:(by intros []) Hi).
  by destruct Hp' as [->| ->]; destruct p.
Qed.

(** A thread moves without touching queue or heap. *)
Lemma workq_set_inv s l t p q :
  wq_inv s l → threads s !! t = Some p → counted q = counted p → held q = None →
  wq_inv (set_pc s t q) l.
Proof.
  intros [H1 H2 H3 H4 H5 H6] Ht Hc Hq. constructor; cbn; try done.
  - rewrite (count_insert _ _ _ _ _ Ht), Hc. lia.
  - by apply threads_insert_none.
Qed.

(** A thread frees the element it holds. *)
Lemma inv_free s l t p q a :
  wq_inv s l → threads s !! t = Some p → held p = Some a → counted q = counted p → held q = None →
  wq_inv (Sys (wq s) (delete a (hp s)) (<[t := q]> (threads s)) (added s) (served s)) l.
Proof.
  intros [[Hc Hn Hl] H2 H3 H4 H5 H6] Ht Hp Hcq Hq.
  assert (a ∉ l.*1) as Ha.
  { destruct H6 as [Hh _]. specialize (Hh t p Ht). destruct p; simplify_eq/=; by destruct Hh. }
  constructor; cbn; try done.
  - constructor; [by apply lseg_delete|done..].
  - rewrite (count_insert _ _ _ _ _ Ht), Hcq. lia.
  - eapply threads_heap; [by apply threads_insert_none|]. intros u p' b Hu Hb.
    rewrite lookup_insert_Some in Hu. destruct Hu as [[-> ->]|[Hne Hu]]; [congruence|]. split.
    + destruct H6 as [Hh _]. specialize (Hh u p' Hu). destruct p'; simplify_eq/=; by destruct Hh.
    + rewrite lookup_delete_ne; [done|]. intros ->. destruct H6 as [_ Ho].
      apply Hne. by eapply Ho.
Qed.

(** A server's critical section. *)
Lemma inv_serve s l t p err r s' :
  wq_inv s l → threads s !! t = Some p → counted p = true → held p = None →
  server_post err (hp s) (wq s) r → serve s t r = Some s' → ∃ l', wq_inv s' l'.
Proof.
  intros [H1 H2 H3 H4 H5 H6] Ht Hp Hh (w'&a&->&Ha) Hs. cbn in Hs.
  pose proof (count_ge counted _ _ _ Ht) as Hge. rewrite Hp in Hge. cbn in Hge.
  destruct a as [|we to|k]; cbn in Hs.
  - destruct Ha as (->&_&_). simplify_eq. exists l. constructor; cbn; try done.
    + rewrite (count_insert _ _ _ _ _ Ht), Hp. cbn. lia.
    + by apply threads_insert_none.
  - destruct Ha as (Hf&e&He&->). rewrite He in Hs. cbn in Hs. simplify_eq.
    destruct l as [|[b d] l]; [destruct H1 as [Hc _ _]; cbn in Hc; congruence|].
    destruct (take_spec _ _ _ _ _ H1) as (e'&He'&<-&Hf'&Hl'). simplify_eq.
    exists l. constructor; cbn; try done.
    + by rewrite H2, <- app_assoc.
    + rewrite (count_insert _ _ _ _ _ Ht), Hp. cbn. lia.
    + assert (we ∉ l.*1) by (destruct H1 as [_ [??]%NoDup_cons _]; done).
      apply threads_insert; [|cbn; eauto|].
      * eapply threads_heap; [done|]. intros u q c Hu Hc. split; [|done].
        destruct H6 as [Hk _]. specialize (Hk u q Hu). destruct q; simplify_eq/=; set_solver.
      * intros u q c Hne Hu Hc. cbn. intros [= <-]. destruct H6 as [Hk _]. specialize (Hk u q Hu).
        destruct q; simplify_eq/=; set_solver.
  - destruct Ha as (->&_&_). destruct (issue k [] (threads s)) as [ts|] eqn:Hi; [|done].
    cbn in Hs. simplify_eq. exists l.
    pose proof (moved_counted _ _ _ _ _ _ WExited Hi Ht) as Hcnt. rewrite Hp in Hcnt. cbn in Hcnt.
    constructor; cbn; try done; [..|lia|lia|].
    + by destruct H1.
    + apply threads_insert_none; [|done]. by eapply threads_issue.
Qed.

Lemma held_live s l t p a : wq_inv s l → threads s !! t = Some p → held p = Some a →
  (a ∉ l.*1) ∧ is_Some (hp s !! a).
Proof.
  intros Hinv Ht Hp. destruct (inv_threads _ _ Hinv) as [Hh _]. specialize (Hh t p Ht).
  destruct p; simplify_eq/=; naive_solver.
Qed.

(** malloc in workq_add. *)
Lemma inv_malloc s l t st a d :
  wq_inv s l → threads s !! t = Some (Idle st) → hp s !! a = None →
  wq_inv (Sys (wq s) (<[a := Ele None d]> (hp s)) (<[t := AddCalled a]> (threads s))
              (added s) (served s)) l.
Proof.
  intros Hinv Ht Ha. pose proof Hinv as [[Hc Hn Hl] H2 H3 H4 H5 H6].
  assert (a ∉ l.*1) as Hal.
  { intros Hin. destruct (lseg_in_heap _ _ _ _ _ _ _ Hc Hin). congruence. }
  constructor; cbn; try done.
  - constructor; [by apply lseg_insert|done..].
  - rewrite (count_insert _ _ _ _ _ Ht). cbn. lia.
  - assert (∀ u p b, threads s !! u = Some p → held p = Some b → b ≠ a) as Hne.
    { intros u p b Hu Hb ->. destruct (held_live _ _ _ _ _ Hinv Hu Hb) as [_ [??]]. congruence. }
    apply threads_insert.
    + eapply threads_heap; [done|]. intros u p b Hu Hb. split; [by eapply held_live|].
      rewrite lookup_insert_ne; [done|]. intros ->. by eapply Hne.
    + cbn. rewrite lookup_insert_eq. eauto.
    + intros u p b Hu Hup Hb. cbn. intros [= <-]. by eapply Hne.
Qed.

(** The critical section of workq_add. *)
Lemma inv_enqueue s l t item e s' :
  wq_inv s l → threads s !! t = Some (AddCalled item) →
  e_lock e = 0 → run_thread s t e (AddCalled item) = Some s' → ∃ l', wq_inv s' l'.
Proof.
  intros Hinv Ht Hlock Hs. pose proof Hinv as [H1 H2 H3 H4 H5 H6].
  destruct (ti_held _ _ _ H6 t _ Ht) as (Hna&d&Hd).
  destruct (enqueue_spec _ _ _ _ _ H1 Hd Hna) as (h'&la&Henq&Hlist&Hsame).
  cbn [run_thread] in Hs. rewrite Hlock, Hd in Hs. cbn [negb Z.eqb mbind option_bind] in Hs.
  unfold workq_add in Hs. rewrite Henq in Hs. cbn [mbind option_bind idle counter parallelism] in Hs.
  rewrite H5 in Hs. cbn [Z.ltb Z.compare] in Hs. exists (l ++ [(item, d)]).
  assert (∀ st, threads_inv h' (l ++ [(item, d)]) (<[t := Idle st]> (threads s))) as Hti.
  { intros st. eapply threads_heap; [by apply threads_insert_none|]. intros u p b Hu Hb.
    rewrite lookup_insert_Some in Hu. destruct Hu as [[<- <-]|[Hne Hu]]; [done|].
    destruct (held_live _ _ _ _ _ Hinv Hu Hb) as [Hbl _].
    rewrite Hsame, fmap_app by done. split; [|done].
    assert (b ≠ item); [|set_solver]. intros ->. apply Hne.
    eapply (ti_owner _ _ _ H6); [exact Ht|exact Hu|done..]. }
  assert (∀ st, count counted (<[t := Idle st]> (threads s)) = count counted (threads s)) as Hcnt.
  { intros st. rewrite (count_insert _ _ _ _ _ Ht). cbn. lia. }
  assert (added s ++ [d] = served s ++ (l ++ [(item, d)]).*2) as Hhist
    by by rewrite H2, fmap_app, app_assoc.
  destruct (counter (wq s) <? parallelism (wq s)) eqn:Hpar; zbool;
    [destruct (e_create e =? 0)|]; cbn in Hs; [case_decide as Hnew| |]; simplify_eq;
    constructor; cbn; rewrite ?Hcnt; auto; try lia; try (destruct Hlist; by constructor).
  - rewrite count_insert_new, Hcnt; [cbn; lia|]. rewrite lookup_insert_ne; [done|congruence].
  - by apply threads_insert_none.
Qed.

(** The critical section of workq_destroy. *)
Lemma inv_destroy s l t e s' :
  wq_inv s l → threads s !! t = Some DestroyCalled →
  run_thread s t e DestroyCalled = Some s' → wq_inv s' l.
Proof.
  intros Hinv Ht Hs. pose proof Hinv as [H1 H2 H3 H4 H5 H6]. cbn [run_thread] in Hs.
  destruct (negb (e_lock e =? 0)); [simplify_eq; by eapply workq_set_inv|].
  unfold workq_destroy in Hs. cbn [first last valid quit parallelism counter idle] in Hs.
  rewrite H5 in Hs. cbn [Z.ltb Z.compare] in Hs.
  assert (∀ q v k, counted q = false → held q = None → wq_inv (Sys (Wq (first (wq s)) (last (wq s)) v k
    (parallelism (wq s)) (counter (wq s)) 0) (hp s) (<[t := q]> (threads s)) (added s) (served s)) l)
    as Hset.
  { intros q v k Hq Hhq. constructor; cbn; try done; [by destruct H1| |by apply threads_insert_none].
    rewrite (count_insert _ _ _ _ _ Ht), Hq. cbn. lia. }
  destruct (0 <? counter (wq s)); cbn in Hs; simplify_eq; apply Hset; by repeat case_match.
Qed.

#[local] Arguments serve : simpl never.
#[local] Arguments server_top : simpl never.
#[local] Arguments server_waited : simpl never.
#[local] Arguments server_done : simpl never.

Lemma workq_step_inv s l ev s' : wq_inv s l → step s ev = Some s' → ∃ l', wq_inv s' l'.
Proof.
  intros Hinv Hs. pose proof (inv_list _ _ Hinv) as Hl.
  destruct ev as [t d m|t|t e|t|t|t st]; cbn in Hs; destruct (threads s !! t) as [p|] eqn:Ht; try done.
  - destruct p; try done. destruct (negb _); [|destruct m as [a|]; [case_decide|]]; simplify_eq; exists l.
    + by eapply workq_set_inv.
    + by eapply inv_malloc.
    + by eapply workq_set_inv.
  - destruct p; try done. simplify_eq. exists l. by destruct (negb _); eapply workq_set_inv.
  - cbn in Hs. destruct p as [|item| | |dst| | | |we to|to| |]; try done.
    + destruct (e_lock e =? 0) eqn:Hlock; zbool; [by eapply inv_enqueue|].
      cbn in Hs. rewrite (proj2 (Z.eqb_neq _ _)) in Hs by done. cbn in Hs. simplify_eq.
      exists l. by eapply inv_free.
    + exists l. by eapply inv_destroy.
    + cbn in Hs. simplify_eq. exists l. by destruct (destroy_loop _ _ _); eapply workq_set_inv.
    + cbn in Hs. destruct (negb _); simplify_eq; [exists l; by eapply workq_set_inv|].
      exact (inv_serve s l t _ _ _ _ Hinv Ht eq_refl eq_refl (server_top_total _ _ _ Hl 0) Hs).
    + exact (inv_serve s l t _ _ _ _ Hinv Ht eq_refl eq_refl (server_waited_post _ _ _ Hl _) Hs).
    + cbn in Hs. simplify_eq. exists l. by eapply inv_free.
    + cbn in Hs. destruct (negb _); simplify_eq; [exists l; by eapply workq_set_inv|].
      exact (inv_serve s l t _ _ _ _ Hinv Ht eq_refl eq_refl (server_done_post _ _ _ Hl to) Hs).
  - destruct (is_blocked p) eqn:Hb; simplify_eq. exists l. by destruct p; try done; eapply workq_set_inv.
  - destruct p; try done; (exact (inv_serve s l t _ _ _ _ Hinv Ht eq_refl eq_refl (server_waited_post _ _ _ Hl _) Hs)).
  - destruct p; try done. case_match; [done|].
    exact (inv_serve s l t _ _ _ _ Hinv Ht eq_refl eq_refl (server_waited_post _ _ _ Hl _) Hs).
Qed.

Lemma workq_initial_inv par s : initial par s → wq_inv s [].
Proof.
  intros (Hw&Hh&Ha&Hs&Ht).
  assert (∀ t p, threads s !! t = Some p → counted p = false ∧ held p = None) as Hidle
    by (intros t p Hp; apply Ht in Hp as ->; done).
  constructor; rewrite ?Hw, ?Hh, ?Ha, ?Hs; cbn; try done; [by constructor; [..|constructor|]| |lia|].
  - destruct (decide (0 < count counted (threads s))) as [Hp|];
      [|pose proof (count_nonneg counted (threads s)); lia].
    apply count_pos in Hp as (t&p&Hp&Hc). destruct (Hidle t p Hp). congruence.
  - constructor.
    + intros t p Hp. apply Ht in Hp as ->. done.
    + intros t u p q a Hp _ Hh' _. destruct (Hidle t p Hp). congruence.
Qed.

(** ** Steps in which the pthread calls succeed *)

Definition calm_env (e : env) : bool :=
  (e_lock e =? 0) && (e_create e =? 0) && (e_wait e =? 0).

Definition calm_step (s : sys) (ev : event) : option sys :=
  match ev with
  | ERun t e => if calm_env e then step s ev else None
  | EWaitError _ _ => None
  | _ => step s ev
  end.

Definition live (p : pc) : bool :=
  match p with WStart | WBlocked | WWoken | WEngine _ _ | WRelock _ => true | _ => false end.
Definition is_lost (p : pc) : bool := match p with WLost => true | _ => false end.
Definition destroying (p : pc) : bool :=
  match p with DBlocked _ | DWoken _ => true | _ => false end.
Definition is_DBlocked (p : pc) : bool := match p with DBlocked _ => true | _ => false end.

Record calm_inv (s : sys) : Prop := {
  ci_work : first (wq s) ≠ None → 0 < counter (wq s);
  ci_lost : count is_lost (threads s) = 0;
  ci_quit : 0 < count destroying (threads s) → quit (wq s) ≠ 0;
  ci_blocked : 0 < count is_DBlocked (threads s) → 0 < counter (wq s);
  ci_par : 0 < parallelism (wq s)
}.

(** A thread that is not in workq_destroy moves, queue counters unchanged. *)
Lemma calm_set s t p q w h ad se :
  calm_inv s → threads s !! t = Some p →
  is_lost q = false → (b2z (destroying q) ≤ b2z (destroying p)) → (is_DBlocked q = false) →
  (first w ≠ None → 0 < counter w) → quit w = quit (wq s) → counter (wq s) ≤ counter w →
  parallelism w = parallelism (wq s) →
  calm_inv (Sys w h (<[t := q]> (threads s)) ad se).
Proof.
  intros [H1 H2 H3 H4 H5] Ht Hl Hd Hb Hf Hq Hc Hp.
  pose proof (b2z_range (is_lost p)). pose proof (count_ge is_lost _ _ _ Ht).
  pose proof (b2z_range (is_DBlocked p)). pose proof (b2z_range (destroying p)).
  pose proof (count_ge destroying _ _ _ Ht).
  constructor; cbn; rewrite ?Hq, ?Hp, ?(count_insert _ _ _ _ _ Ht), ?Hl, ?Hb; cbn; try done; lia.
Qed.

Lemma issue_broadcast_DBlocked ts ts' :
  issue Broadcast [] ts = Some ts' → count is_DBlocked ts' = 0.
Proof.
  cbn. intros [= <-].
  destruct (decide (0 < count is_DBlocked (wake_every is_blocked unblock ts))) as [Hp|];
    [|pose proof (count_nonneg is_DBlocked (wake_every is_blocked unblock ts)); lia].
  apply count_pos in Hp as (t&p&Hp&Hb). rewrite lookup_wake_every in Hp.
  apply fmap_Some in Hp as (q&_&->). by destruct q.
Qed.

Lemma calm_serve s l t p r s' :
  wq_inv s l → calm_inv s → threads s !! t = Some p → live p = true →
  server_post false (hp s) (wq s) r → serve s t r = Some s' → calm_inv s'.
Proof.
  intros Hinv Hcalm Ht Hp (w'&a&->&Ha) Hs. unfold serve in Hs. cbn in Hs.
  pose proof (inv_counter _ _ Hinv) as Hcnt. pose proof (count_ge counted _ _ _ Ht) as Hge.
  assert (counted p = true ∧ destroying p = false ∧ is_lost p = false ∧ is_DBlocked p = false)
    as (Hcp&Hdp&Hlp&Hbp) by by destruct p.
  rewrite Hcp in Hge. cbn in Hge. destruct a as [|we to|k]; cbn in Hs.
  - destruct Ha as (->&?&_). simplify_eq. by apply (calm_set s t p); rewrite ?Hdp; cbn; try lia.
  - destruct Ha as (Hf&e&He&->). rewrite He in Hs. cbn in Hs. simplify_eq.
    apply (calm_set s t p); rewrite ?Hdp; cbn; try done; lia.
  - destruct Ha as (->&Hsig&Hex). destruct (Hex eq_refl) as [Hnone Hbc].
    destruct (issue k [] (threads s)) as [ts|] eqn:Hi; [|done]. cbn in Hs. simplify_eq.
    destruct (workq_issue_lookup _ _ _ _ _ _ Hi Ht) as (p'&Ht'&Hp').
    assert (destroying p' = false ∧ is_lost p' = false ∧ is_DBlocked p' = false) as (Hd'&Hl'&Hb')
      by (destruct Hp' as [->| ->]; by destruct p).
    pose proof (workq_issue_count is_lost _ _ _ _ ltac:(by intros []) Hi) as Hcl.
    pose proof (workq_issue_count destroying _ _ _ _ ltac:(by intros []) Hi) as Hcd.
    destruct Hcalm as [H1 H2 H3 H4 H5].
    constructor; cbn; rewrite ?(count_insert _ _ _ _ _ Ht'), ?Hl', ?Hd', ?Hb'; cbn;
      [done|lia|rewrite Hcd; intros; apply H3; lia| |done].
    intros Hblk. destruct (decide (counter (wq s) = 1)) as [Hc1|]; [|lia]. exfalso.
    assert (count is_DBlocked ts ≤ count destroying ts) as Hle.
    { rewrite (count_split destroying is_DBlocked (λ p, match p with DWoken _ => true | _ => false end))
        by by intros []. pose proof (count_nonneg (λ p, match p with DWoken _ => true | _ => false end) ts). lia. }
    rewrite Hbc in Hi by (try apply H3; lia). apply issue_broadcast_DBlocked in Hi. lia.
Qed.

Lemma calm_enqueue s l t item e s' :
  wq_inv s l → calm_inv s → threads s !! t = Some (AddCalled item) → calm_env e = true →
  run_thread s t e (AddCalled item) = Some s' → calm_inv s'.
Proof.
  intros Hinv Hcalm Ht [[Hlock Hcr]%andb_true_iff _]%andb_true_iff Hs. zbool.
  pose proof (inv_threads _ _ Hinv) as [Hh _]. destruct (Hh t _ Ht) as (Hna&d&Hd).
  destruct (enqueue_spec _ _ _ _ _ (inv_list _ _ Hinv) Hd Hna) as (h'&la&Henq&_).
  pose proof (ci_par _ Hcalm) as Hpar. pose proof (count_nonneg counted (threads s)).
  pose proof (inv_counter _ _ Hinv) as Hcnt.
  cbn [run_thread] in Hs. rewrite Hlock, Hd in Hs. cbn [negb Z.eqb mbind option_bind] in Hs.
  unfold workq_add in Hs. rewrite Henq in Hs. cbn [mbind option_bind idle counter parallelism] in Hs.
  rewrite (inv_idle _ _ Hinv), Hcr in Hs. cbn [Z.ltb Z.compare negb Z.eqb] in Hs.
  destruct (counter (wq s) <? parallelism (wq s)) eqn:Hlt; zbool; cbn in Hs.
  - case_decide as Hnew; simplify_eq.
    assert (∀ P, P WStart = false → count P (<[e_new e := WStart]> (<[t := Idle 0]> (threads s))) =
      count P (<[t := Idle 0]> (threads s))) as Hnc.
    { intros P HP. rewrite count_insert_new, HP; [cbn; lia|]. rewrite lookup_insert_ne by congruence. done. }
    enough (calm_inv (Sys (Wq la (Some item) (valid (wq s)) (quit (wq s)) (parallelism (wq s))
      (counter (wq s) + 1) 0) h' (<[t := Idle 0]> (threads s)) (added s ++ [d]) (served s)))
      as [G1 G2 G3 G4 G5] by (constructor; cbn; rewrite ?Hnc; done).
    apply (calm_set s t (AddCalled item)); cbn; try done; lia.
  - simplify_eq. apply (calm_set s t (AddCalled item)); cbn; try done; lia.
Qed.

Lemma calm_destroy s l t e s' :
  wq_inv s l → calm_inv s → threads s !! t = Some DestroyCalled → calm_env e = true →
  run_thread s t e DestroyCalled = Some s' → calm_inv s'.
Proof.
  intros Hinv Hcalm Ht [[Hlock _]%andb_true_iff Hwait]%andb_true_iff Hs. zbool.
  cbn [run_thread] in Hs. rewrite Hlock in Hs. cbn [negb Z.eqb] in Hs.
  unfold workq_destroy, destroy_loop in Hs. cbn [first last valid quit parallelism counter idle] in Hs.
  rewrite (inv_idle _ _ Hinv), Hwait in Hs. cbn [Z.ltb Z.compare Z.eqb negb] in Hs.
  destruct (0 <? counter (wq s)) eqn:Hc; zbool; cbn in Hs.
  - simplify_eq. destruct Hcalm as [H1 H2 H3 H4 H5].
    constructor; cbn; rewrite ?(count_insert _ _ _ _ _ Ht); cbn; try done; lia.
  - simplify_eq. by apply (calm_set s t DestroyCalled); cbn; try lia; try apply Hcalm.
Qed.

Lemma calm_step_inv s l ev s' :
  wq_inv s l → calm_inv s → calm_step s ev = Some s' → calm_inv s'.
Proof.
  intros Hinv Hcalm Hs. pose proof (inv_list _ _ Hinv) as Hl. pose proof (ci_work _ Hcalm) as Hwork.
  destruct ev as [t d m|t|t e|t|t|t st]; cbn in Hs; try done;
    destruct (threads s !! t) as [p|] eqn:Ht; try done; try (by destruct (calm_env _)).
  - destruct p; try done. destruct (negb _); [|destruct m as [a|]; [case_decide|]]; simplify_eq;
      by eapply (calm_set s t).
  - destruct p; try done. simplify_eq. by destruct (negb _); eapply (calm_set s t).
  - destruct (calm_env e) eqn:He; [|done]. cbn in Hs.
    pose proof He as [[Hlock _]%andb_true_iff Hwait]%andb_true_iff. zbool.
    destruct p as [|item| | |dst| | | |we to|to| |]; try done.
    + by eapply calm_enqueue.
    + by eapply calm_destroy.
    + cbn in Hs. unfold destroy_loop in Hs. rewrite Hwait in Hs.
      destruct (0 <? counter (wq s)) eqn:Hc; zbool; cbn in Hs; simplify_eq.
      * destruct Hcalm as [H1 H2 H3 H4 H5].
        constructor; cbn; rewrite ?(count_insert _ _ _ _ _ Ht); cbn; try done; try lia.
      * by eapply (calm_set s t).
    + cbn in Hs. rewrite Hlock in Hs. cbn in Hs.
      exact (calm_serve s l t _ _ _ Hinv Hcalm Ht eq_refl (server_top_total _ _ _ Hl 0) Hs).
    + exact (calm_serve s l t _ _ _ Hinv Hcalm Ht eq_refl (server_waited_post _ _ _ Hl 0) Hs).
    + cbn in Hs. simplify_eq. by eapply (calm_set s t).
    + cbn in Hs. rewrite Hlock in Hs. cbn in Hs.
      exact (calm_serve s l t _ _ _ Hinv Hcalm Ht eq_refl (server_done_post _ _ _ Hl to) Hs).
  - destruct (is_blocked p) eqn:Hb; simplify_eq. by destruct p; try done; eapply (calm_set s t).
  - destruct p; try done;
      exact (calm_serve s l t _ _ _ Hinv Hcalm Ht eq_refl (server_waited_post _ _ _ Hl ETIMEDOUT) Hs).
Qed.

Lemma workq_calm_reachable par s :
  0 < par → reachable (initial par) calm_step s → ∃ l, wq_inv s l ∧ calm_inv s.
Proof.
  intros Hpar. apply (invariant_reachable _ _ (λ s, ∃ l, wq_inv s l ∧ calm_inv s)).
  - intros s0 Hi. exists []. split; [by eapply workq_initial_inv|]. destruct Hi as (Hw&_&_&_&Ht).
    assert (∀ P, P (Idle 0) = false → count P (threads s0) = 0) as Hz.
    { intros P HP. destruct (decide (0 < count P (threads s0))) as [Hp|];
        [|pose proof (count_nonneg P (threads s0)); lia].
      apply count_pos in Hp as (t&p&Hp&Hc). apply Ht in Hp as ->. congruence. }
    constructor; rewrite ?Hw, ?Hz; cbn; done.
  - intros s0 ev s1 (l&Hinv&Hcalm) Hs.
    assert (step s0 ev = Some s1) as Hst by (destruct ev; cbn in Hs; cases; done).
    destruct (workq_step_inv _ _ _ _ Hinv Hst) as [l' Hl']. exists l'. split; [done|].
    exact (calm_step_inv _ _ _ _ Hinv Hcalm Hs).
Qed.

(** ** Properties *)

(** C11 (refinement).  In every interleaving, with any failures of locking, waiting,
    signalling, creating threads and allocating, the linked list
    implements a FIFO queue: the data added is, in order, the data handed to
    the engine followed by the list; first and last point to its ends; no
    operation follows a dangling pointer; counter is the number of servers and
    never exceeds parallelism; idle stays 0. *)
Theorem workq_fifo par s :
  reachable (initial par) step s →
  ∃ l, wchain (hp s) (first (wq s)) l ∧ last (wq s) = fst <$> list_last l ∧
    added s = served s ++ l.*2 ∧
    counter (wq s) = count counted (threads s) ∧
    counter (wq s) ≤ Z.max 0 (parallelism (wq s)) ∧ idle (wq s) = 0 ∧
    (∀ t item, threads s !! t = Some (AddCalled item) → is_Some (enqueue item (wq s) (hp s))) ∧
    (∀ status timedout, is_Some (server_waited status (hp s) (wq s)) ∧
       is_Some (server_top 1 (hp s) (wq s)) ∧ is_Some (server_done timedout (hp s) (wq s))).
Proof.
  intros Hr. assert (∃ l, wq_inv s l) as [l Hinv].
  { revert Hr. apply (invariant_reachable _ _ (λ s, ∃ l, wq_inv s l)).
    - intros s0 H0. exists []. by eapply workq_initial_inv.
    - intros s0 ev s1 [l0 H0] Hs. by eapply workq_step_inv. }
  exists l. pose proof Hinv as [[Hc Hn Hl] H2 H3 H4 H5 H6]. split_and!; try done.
  - intros t item Ht. destruct (ti_held _ _ _ H6 t _ Ht) as (Hna&d&Hd).
    destruct (enqueue_spec _ _ _ _ _ (inv_list _ _ Hinv) Hd Hna) as (h'&la&->&_). done.
  - intros status timedout. pose proof (inv_list _ _ Hinv) as Hli.
    destruct (server_waited_post _ _ _ Hli status) as (?&?&->&_).
    destruct (server_top_total _ _ _ Hli 0) as (?&?&->&_).
    destruct (server_done_post _ _ _ Hli timedout) as (?&?&->&_). done.
Qed.

Definition one_client (par : Z) : sys :=
  Sys (Wq None None WORKQ_VALID 0 par 0 0) ∅ {[ 0%nat := Idle 0 ]} [] [].

Lemma one_client_initial par : initial par (one_client par).
Proof. split_and!; try done. intros t p. cbn. rewrite lookup_singleton_Some. naive_solver. Qed.

Definition calm (new : nat) : env := Env 0 0 0 0 (DestroyStatus 0 0 0 0) new [].

(** A client adds two requests with parallelism 1; the server takes the first. *)
Definition two_adds : list event :=
  [EAdd 0 10 (Some 100%nat); ERun 0 (calm 1); EAdd 0 20 (Some 200%nat); ERun 0 (calm 2);
   ERun 1 (calm 3)].

Lemma workq_fifo_witness :
  ∃ s l, run step (one_client 1) two_adds = Some s ∧ added s = [10; 20] ∧ served s = [10] ∧
    wchain (hp s) (first (wq s)) l ∧ added s = served s ++ l.*2.
Proof.
  destruct (run step (one_client 1) two_adds) as [s|] eqn:E; [|vm_compute in E; discriminate].
  destruct (workq_fifo 1 s) as (l&Hc&_&Ha&_).
  { eapply run_reachable; [apply reach_init, one_client_initial|exact E]. }
  exists s, l. split; [done|]. split; [|split; [|done]]; vm_compute in E; by simplify_eq.
Defined.

(** C35 (liveness).  While pthread calls succeed and at least one server is allowed,
    requests are never stranded: a non-empty queue has a live server, and a
    server whose timed wait expires takes the oldest request; a blocked
    workq_destroy has a live server to wait for; and when workq_destroy returns
    every request added has been handed to the engine and no server is left. *)
Theorem workq_rundown par s :
  0 < par → reachable (initial par) calm_step s →
  (∀ a, first (wq s) = Some a → (∃ t p, threads s !! t = Some p ∧ live p = true) ∧
     ∀ t, threads s !! t = Some WBlocked →
       ∃ s', step s (ETimeout t) = Some s' ∧ threads s' !! t = Some (WEngine a true)) ∧
  (∀ t st, threads s !! t = Some (DBlocked st) → ∃ u p, threads s !! u = Some p ∧ live p = true) ∧
  (∀ t p e s' r, threads s !! t = Some p → destroying p || is_entering p = true →
     (∀ item, p ≠ AddCalled item) → calm_step s (ERun t e) = Some s' →
     threads s' !! t = Some (Idle r) →
     added s' = served s' ∧ ∀ u q, threads s' !! u = Some q → counted q = false).
Proof.
  intros Hpar Hr. destruct (workq_calm_reachable par s Hpar Hr) as (l&Hinv&Hcalm).
  pose proof Hinv as [H1 H2 H3 H4 H5 H6]. pose proof Hcalm as [C1 C2 C3 C4 C5].
  assert (0 < counter (wq s) → ∃ t p, threads s !! t = Some p ∧ live p = true) as Hlive.
  { rewrite H3. intros (t&p&Ht&Hp)%count_pos. exists t, p. split; [done|].
    pose proof (count_zero is_lost _ _ _ C2 Ht). by destruct p. }
  split_and!.
  - intros a Ha. split; [apply Hlive, C1; congruence|]. intros t Ht.
    cbn [step]. rewrite Ht. unfold server_waited. cbn. unfold server_take. rewrite Ha.
    destruct (head_live _ _ _ H1 a Ha) as [e He]. rewrite He. cbn. unfold serve. cbn. rewrite He. cbn.
    eexists. split; [done|]. cbn. by rewrite lookup_insert_eq.
  - intros t st Ht. apply Hlive, C4, count_pos. eauto.
  - intros t p e s' r Ht Hp Hna Hs Hret. cbn in Hs. destruct (calm_env e) eqn:He; [|done].
    rewrite Ht in Hs. cbn in Hs. pose proof He as [[Hlock _]%andb_true_iff Hwait]%andb_true_iff. zbool.
    assert (counter (wq s) ≤ 0 → added s = served s ∧
      ∀ u q, threads s !! u = Some q → counted q = false) as Hdone.
    { intros Hc. pose proof (count_nonneg counted (threads s)).
      assert (count counted (threads s) = 0) as Hz by lia.
      assert (first (wq s) = None) as Hf by (destruct (first (wq s)); [assert (0 < counter (wq s)) by (by apply C1); lia|done]).
      split; [|eauto using count_zero]. rewrite H2. destruct l as [|[b d] l']; [by rewrite app_nil_r|].
      destruct H1 as [(?&_) _ _]. congruence. }
    assert (counter (wq s) ≤ 0 ∧ added s' = added s ∧ served s' = served s ∧
      threads s' = <[t := Idle r]> (threads s)) as (Hc&->&->&->).
    { destruct p as [|item| | |dst| | | | | | |]; try done; [by destruct (Hna item)|..].
      - cbn [run_thread] in Hs. rewrite Hlock in Hs. cbn [negb Z.eqb] in Hs.
        unfold workq_destroy, destroy_loop in Hs. cbn [first last valid quit parallelism counter idle] in Hs.
        rewrite H5, Hwait in Hs. cbn [Z.ltb Z.compare Z.eqb negb] in Hs.
        destruct (0 <? counter (wq s)) eqn:Hc; zbool; cbn in Hs; simplify_eq; cbn in Hret |- *;
          rewrite lookup_insert_eq in Hret; by simplify_eq.
      - cbn in Hs. unfold destroy_loop in Hs. rewrite Hwait in Hs.
        destruct (0 <? counter (wq s)) eqn:Hc; zbool; cbn in Hs; simplify_eq; cbn in Hret |- *;
          rewrite lookup_insert_eq in Hret; by simplify_eq. }
    destruct (Hdone Hc) as [-> Hq]. split; [done|]. intros u q.
    rewrite lookup_insert_Some. intros [[_ <-]|[_ Hu]]; [done|eauto].
Qed.

Lemma workq_rundown_witness :
  ∃ s, run calm_step (one_client 1) (two_adds ++ [ERun 1 (calm 3); ERun 1 (calm 3);
      EDestroy 0; ERun 0 (calm 2)]) = Some s ∧
    threads s !! 0%nat = Some (DBlocked (DestroyStatus 0 0 0 0)) ∧
    ∃ u p, threads s !! u = Some p ∧ live p = true.
Proof.
  destruct (run calm_step (one_client 1) _) as [s|] eqn:E; [|vm_compute in E; discriminate].
  exists s. split; [done|].
  assert (threads s !! 0%nat = Some (DBlocked (DestroyStatus 0 0 0 0))) as H0
    by (vm_compute in E; by simplify_eq).
  split; [done|]. destruct (workq_rundown 1 s) as (_&H&_); [lia| |exact (H _ _ H0)].
  eapply run_reachable; [apply reach_init, one_client_initial|exact E].
Defined.

(** Because idle is never incremented, workq_add does not wake a waiting server:
    after this run the queue holds a request, the only server allowed is
    blocked, and nothing but its timeout will move it. *)
Lemma workq_add_without_signal :
  ∃ s, run calm_step (one_client 1)
    [EAdd 0 10 (Some 100%nat); ERun 0 (calm 1); ERun 1 (calm 2); ERun 1 (calm 2); ERun 1 (calm 2);
     EAdd 0 20 (Some 200%nat); ERun 0 (calm 2)] = Some s ∧
    first (wq s) = Some 200%nat ∧ threads s = {[ 0%nat := Idle 0; 1%nat := WBlocked ]}.
Proof. eexists. split; [vm_compute; reflexivity|]. split; vm_compute; reflexivity. Qed.
End Workq.
