(* ===== verification/ProduceConsume.v ===== *)
(** * Producer and consumer over a ring buffer

    Models ldd-k4/thread/produce_consume.c: the ring of eight slots, Produce and
    Consume with their two condition variables, and the program's two threads.
    The loops of Produce and Consume are split where pthread_cond_wait releases
    the mutex. *)

From S2P Require Import Prelude.

Module ProduceConsume.

Definition BUFFER_SIZE : Z := 8.
Definition END_FLAG : Z := -1.

Record Products := Prod { buffer : list Z; posReadFrom : Z; posWriteTo : Z }.

Definition BufferIsFull (p : Products) : bool :=
  (posWriteTo p + 1) mod BUFFER_SIZE =? posReadFrom p.

Definition BufferIsEmpty (p : Products) : bool := posWriteTo p =? posReadFrom p.

(** Produce from the test of its loop: [Wait], or the item is stored and
    notEmpty signalled.  [Fault]: an access outside the array. *)
Inductive result (A : Type) := Wait | Done (a : A) (p : Products) | Fault.
#[global] Arguments Wait {A}.
#[global] Arguments Done {A} a p.
#[global] Arguments Fault {A}.

Definition Produce (p : Products) (item : Z) : result () :=
  if BufferIsFull p then Wait else
  match store (posWriteTo p) [item] (buffer p) with
  | None => Fault
  | Some b =>
      let w := posWriteTo p + 1 in
      Done () (Prod b (posReadFrom p) (if BUFFER_SIZE <=? w then 0 else w))
  end.

Definition Consume (p : Products) : result Z :=
  if BufferIsEmpty p then Wait else
  match load (posReadFrom p) 1 (buffer p) with
  | Some [item] =>
      let r := posReadFrom p + 1 in
      Done item (Prod (buffer p) (if BUFFER_SIZE <=? r then 0 else r) (posWriteTo p))
  | _ => Fault
  end.

(** ** The two threads *)

Inductive phase := Ready | Blocked | Woken | Finished.

(** [next_i]: the producer's loop index, 16 when it is about to produce
    END_FLAG; [printed]: what the consumer has printed. *)
Record sys := Sys {
  products : Products;
  producer : phase;
  next_i : Z;
  consumer : phase;
  printed : list Z
}.

Inductive event := EProducer | EConsumer | ESpuriousP | ESpuriousC.

Definition wake_up (ph : phase) : phase := match ph with Blocked => Woken | ph => ph end.

(** The producer inside Produce: [for (i = 0; i < 16; ++i)], then END_FLAG. *)
Definition ProducerThread (s : sys) : option sys :=
  let item := if next_i s <? 16 then next_i s else END_FLAG in
  match Produce (products s) item with
  | Wait => Some (Sys (products s) Blocked (next_i s) (consumer s) (printed s))
  | Done _ p =>
      Some (Sys p (if next_i s <? 16 then Ready else Finished) (next_i s + 1)
                (wake_up (consumer s)) (printed s))
  | Fault => None
  end.

Definition ConsumerThread (s : sys) : option sys :=
  match Consume (products s) with
  | Wait => Some (Sys (products s) (producer s) (next_i s) Blocked (printed s))
  | Done item p =>
      if item =? END_FLAG then Some (Sys p (wake_up (producer s)) (next_i s) Finished (printed s))
      else Some (Sys p (wake_up (producer s)) (next_i s) Ready (printed s ++ [item]))
  | Fault => None
  end.

Definition runnable (ph : phase) : bool := match ph with Ready | Woken => true | _ => false end.
Definition is_blocked (ph : phase) : bool := match ph with Blocked => true | _ => false end.

Definition step (s : sys) (ev : event) : option sys :=
  match ev with
  | EProducer => if runnable (producer s) then ProducerThread s else None
  | EConsumer => if runnable (consumer s) then ConsumerThread s else None
  | ESpuriousP =>
      if is_blocked (producer s) then
        Some (Sys (products s) Woken (next_i s) (consumer s) (printed s)) else None
  | ESpuriousC =>
      if is_blocked (consumer s) then
        Some (Sys (products s) (producer s) (next_i s) Woken (printed s)) else None
  end.

(** Static storage: positions 0, buffer zeroed. *)
Definition initial (s : sys) : Prop :=
  s = Sys (Prod (zeros BUFFER_SIZE) 0 0) Ready 0 Ready [].

(** ** The ring as a bounded queue *)

(** [l] is stored from posReadFrom on, wrapping at the end of the array. *)
Record ring (p : Products) (l : list Z) : Prop := {
  ring_size : zlen (buffer p) = BUFFER_SIZE;
  ring_r : 0 ≤ posReadFrom p < BUFFER_SIZE;
  ring_w : posWriteTo p = (posReadFrom p + zlen l) mod BUFFER_SIZE;
  ring_len : zlen l < BUFFER_SIZE;
  ring_item : ∀ i : nat, (i < length l)%nat →
    buffer p !! Z.to_nat ((posReadFrom p + Z.of_nat i) mod BUFFER_SIZE) = l !! i
}.

Ltac ring_lia := unfold BUFFER_SIZE in *; Z.div_mod_to_equations; lia.

Lemma wrap_mod x : 0 ≤ x < BUFFER_SIZE →
  (if BUFFER_SIZE <=? x + 1 then 0 else x + 1) = (x + 1) mod BUFFER_SIZE.
Proof. intros. unfold BUFFER_SIZE in *. destruct (8 <=? x + 1) eqn:E; zbool; ring_lia. Qed.

Lemma lookup_splice1 (b : list Z) off x i :
  0 ≤ off < zlen b → 0 ≤ i < zlen b →
  splice off [x] b !! Z.to_nat i = if decide (i = off) then Some x else b !! Z.to_nat i.
Proof.
  unfold zlen, splice. intros Ho Hi. cbn [length app].
  destruct (decide (i = off)) as [->|Hne].
  - rewrite lookup_app_r, length_take by (rewrite length_take; lia).
    replace (_ - _)%nat with 0%nat by lia. done.
  - destruct (decide (i < off)).
    + rewrite lookup_app_l, lookup_take_lt by (rewrite ?length_take; lia). done.
    + rewrite lookup_app_r, length_take by (rewrite length_take; lia).
      rewrite lookup_cons_ne_0 by lia. rewrite lookup_drop. f_equal. lia.
Qed.

(** Produce waits exactly when seven items are stored, and otherwise appends. *)
Lemma Produce_spec p l item :
  ring p l →
  if zlen l =? 7 then Produce p item = Wait
  else ∃ p', Produce p item = Done () p' ∧ ring p' (l ++ [item]).
Proof.
  intros [Hs Hr Hw Hl Hi]. unfold Produce, BufferIsFull. pose proof (zlen_nonneg l).
  destruct (zlen l =? 7) eqn:E; zbool.
  { rewrite (proj2 (Z.eqb_eq _ _)); [done|]. rewrite Hw, E. ring_lia. }
  rewrite (proj2 (Z.eqb_neq _ _)) by (rewrite Hw; ring_lia).
  assert (0 ≤ posWriteTo p < BUFFER_SIZE) as Hwr by (rewrite Hw; ring_lia).
  assert (zlen [item] = 1) as H1 by done.
  rewrite store_in_range by (rewrite ?Hs, ?H1; lia).
  eexists. split; [done|]. rewrite wrap_mod by done.
  assert (zlen (splice (posWriteTo p) [item] (buffer p)) = BUFFER_SIZE) as Hlen
    by (rewrite splice_length; lia).
  constructor; cbn; rewrite ?zlen_app, ?H1; try done.
  - rewrite Hw. ring_lia.
  - ring_lia.
  - intros i Hil. rewrite length_app in Hil. cbn in Hil.
    assert (0 ≤ (posReadFrom p + Z.of_nat i) mod BUFFER_SIZE < BUFFER_SIZE) by ring_lia.
    rewrite lookup_splice1 by (rewrite Hs; lia).
    destruct (decide (i = length l)) as [->|Hne].
    + rewrite decide_True by (rewrite Hw; done). by rewrite lookup_app_r, Nat.sub_diag.
    + rewrite decide_False by (rewrite Hw; unfold zlen in *; ring_lia).
      rewrite lookup_app_l by lia. apply Hi. lia.
Qed.

(** Consume waits exactly when nothing is stored, and otherwise takes the oldest item. *)
Lemma Consume_spec p l :
  ring p l →
  match l with
  | [] => Consume p = Wait
  | x :: l => ∃ p', Consume p = Done x p' ∧ ring p' l
  end.
Proof.
  intros [Hs Hr Hw Hl Hi]. unfold Consume, BufferIsEmpty. destruct l as [|x l].
  { rewrite (proj2 (Z.eqb_eq _ _)); [done|]. rewrite Hw. change (zlen []) with 0. ring_lia. }
  assert (zlen (x :: l) = zlen l + 1) as Hx by (unfold zlen; cbn; lia).
  pose proof (zlen_nonneg l). rewrite Hx in *.
  rewrite (proj2 (Z.eqb_neq _ _)) by (rewrite Hw; ring_lia).
  rewrite load_in_range by (rewrite ?Hs; lia).
  assert (slice (posReadFrom p) 1 (buffer p) = [x]) as ->.
  { pose proof (Hi 0%nat ltac:(cbn; lia)) as H0.
    replace ((posReadFrom p + Z.of_nat 0) mod BUFFER_SIZE) with (posReadFrom p) in H0 by ring_lia.
    unfold slice. rewrite (drop_S _ _ _ H0). done. }
  eexists. split; [done|]. rewrite wrap_mod by done. constructor; cbn; try done.
  - ring_lia.
  - rewrite Hw. ring_lia.
  - ring_lia.
  - intros i Hil. transitivity ((x :: l) !! S i); [|done].
    rewrite <- Hi by (cbn; lia). do 2 f_equal. ring_lia.
Qed.

(** ** The program *)

(** Everything the producer sends. *)
Definition script : list Z := (Z.of_nat <$> seq 0 16) ++ [END_FLAG].

Record prog_inv (s : sys) (l : list Z) : Prop := {
  pi_ring : ring (products s) l;
  pi_i : 0 ≤ next_i s ≤ 17;
  pi_sent : take (Z.to_nat (next_i s)) script =
    printed s ++ (match consumer s with Finished => [END_FLAG] | _ => [] end) ++ l;
  pi_producer : producer s = Finished ↔ next_i s = 17;
  pi_consumer : consumer s = Finished → next_i s = 17 ∧ l = [];
  pi_pblocked : producer s = Blocked → zlen l = 7;
  pi_cblocked : consumer s = Blocked → l = [];
  pi_printed : END_FLAG ∉ printed s
}.

Lemma take_script i :
  0 ≤ i < 17 →
  take (Z.to_nat (i + 1)) script =
    take (Z.to_nat i) script ++ [if i <? 16 then i else END_FLAG].
Proof.
  intros Hi. assert (i ∈ Z.of_nat <$> seq 0 17) as Hin.
  { apply list_elem_of_fmap. exists (Z.to_nat i). rewrite elem_of_seq. lia. }
  revert Hin. cbn. rewrite !elem_of_cons, elem_of_nil.
  intros Hin. repeat destruct Hin as [->|Hin]; try reflexivity. done.
Qed.

Lemma script_end i a b :
  0 ≤ i ≤ 17 → take (Z.to_nat i) script = a ++ END_FLAG :: b →
  i = 17 ∧ b = [] ∧ a = Z.of_nat <$> seq 0 16.
Proof.
  intros Hi He.
  assert (script !! length a = Some END_FLAG) as Hl.
  { rewrite <- (take_drop (Z.to_nat i) script), He, <- app_assoc. by apply list_lookup_middle. }
  assert (length a = 16%nat) as Ha.
  { pose proof (lookup_lt_Some _ _ _ Hl) as Hlt. cbn in Hlt. revert Hl Hlt.
    generalize (length a). intros n Hl Hlt.
    assert (n ∈ seq 0 17) as Hin by (apply elem_of_seq; lia). clear Hlt.
    cbn in Hin. rewrite !elem_of_cons, elem_of_nil in Hin.
    repeat destruct Hin as [->|Hin]; done. }
  assert (length (take (Z.to_nat i) script) = Z.to_nat i) as Hlen
    by (rewrite length_take; change (length script) with 17%nat; lia).
  rewrite He, length_app in Hlen. cbn in Hlen. split_and!; [lia|destruct b; [done|cbn in *; lia]|].
  replace (Z.to_nat i) with 17%nat in He by lia.
  change (take 17 script) with ((Z.of_nat <$> seq 0 16) ++ [END_FLAG]) in He.
  by apply app_inj_1 in He as [-> _].
Qed.

(** What was sent without END_FLAG is a prefix of the numbers. *)
Lemma sent_prefix i pr l :
  0 ≤ i ≤ 17 → END_FLAG ∉ pr → take (Z.to_nat i) script = pr ++ l →
  pr `prefix_of` (Z.of_nat <$> seq 0 16).
Proof.
  intros Hi Hne He.
  assert (pr `prefix_of` script) as [k Hk].
  { exists (l ++ drop (Z.to_nat i) script). rewrite app_assoc, <- He. by rewrite take_drop. }
  destruct k as [|x k _] using rev_ind.
  - destruct Hne. rewrite app_nil_r in Hk. rewrite <- Hk. unfold script. set_solver.
  - rewrite app_assoc in Hk. unfold script in Hk. apply app_inj_2 in Hk as [-> _]; [|done]. by exists k.
Qed.

Lemma wake_up_finished ph : wake_up ph = Finished ↔ ph = Finished.
Proof. by destruct ph. Qed.

Lemma wake_up_blocked ph : wake_up ph ≠ Blocked.
Proof. by destruct ph. Qed.

Lemma producer_inv s l s' :
  prog_inv s l → runnable (producer s) = true → ProducerThread s = Some s' → ∃ l', prog_inv s' l'.
Proof.
  intros [H1 H2 H3 H4 H5 H6 H7 H8] Hrun Hs. unfold ProducerThread in Hs.
  assert (next_i s ≠ 17) as Hn by (intros Hn; apply H4 in Hn; rewrite Hn in Hrun; done).
  set (item := if next_i s <? 16 then next_i s else END_FLAG) in *.
  pose proof (Produce_spec _ _ item H1) as Hp. destruct (zlen l =? 7) eqn:E; zbool.
  - rewrite Hp in Hs. simplify_eq. exists l. by constructor.
  - destruct Hp as (p'&Hp&Hr). rewrite Hp in Hs. simplify_eq. exists (l ++ [item]).
    assert (consumer s ≠ Finished) as Hcf.
    { intros Hcf. destruct (H5 Hcf). lia. }
    constructor; cbn; try done; [lia|..].
    + rewrite take_script, H3, <- !app_assoc by lia. fold item.
      by destruct (consumer s).
    + destruct (next_i s <? 16) eqn:?; zbool; split; intros; try done; lia.
    + intros Hc. by destruct (consumer s).
    + by destruct (next_i s <? 16).
    + by destruct (consumer s).
Qed.

Lemma consumer_inv s l s' :
  prog_inv s l → runnable (consumer s) = true → ConsumerThread s = Some s' → ∃ l', prog_inv s' l'.
Proof.
  intros [H1 H2 H3 H4 H5 H6 H7 H8] Hrun Hs. unfold ConsumerThread in Hs.
  assert (consumer s ≠ Finished) as Hcf by (intros Hc; by rewrite Hc in Hrun).
  assert (∀ X, match consumer s with Finished => [END_FLAG] | _ => [] end ++ X = X) as Hnf
    by (by destruct (consumer s)).
  rewrite Hnf in H3. pose proof (Consume_spec _ _ H1) as Hp. destruct l as [|x l].
  - rewrite Hp in Hs. simplify_eq. exists []. by constructor.
  - destruct Hp as (p'&Hp&Hr). rewrite Hp in Hs.
    destruct (x =? END_FLAG) eqn:E; zbool; simplify_eq; exists l.
    + destruct (script_end _ _ _ H2 H3) as (Hi&->&_).
      constructor; cbn; try done; first [by rewrite wake_up_finished|by intros ?%wake_up_blocked].
    + constructor; cbn; try done; [by rewrite <- app_assoc|..|set_solver];
        first [by rewrite wake_up_finished|by intros ?%wake_up_blocked].
Qed.

Lemma pc_step_inv s l ev s' : prog_inv s l → step s ev = Some s' → ∃ l', prog_inv s' l'.
Proof.
  intros Hinv Hs. destruct ev; cbn in Hs.
  - destruct (runnable (producer s)) eqn:E; [|done]. by eapply producer_inv.
  - destruct (runnable (consumer s)) eqn:E; [|done]. by eapply consumer_inv.
  - destruct (producer s) eqn:E; simplify_eq/=. exists l. destruct Hinv as [H1 H2 H3 H4 H5 H6 H7 H8].
    rewrite E in *. constructor; cbn; try done. rewrite <- H4. done.
  - destruct (consumer s) eqn:E; simplify_eq/=. exists l. destruct Hinv as [H1 H2 H3 H4 H5 H6 H7 H8].
    rewrite E in *. by constructor.
Qed.

Lemma pc_initial_inv s : initial s → prog_inv s [].
Proof.
  intros ->. constructor; cbn; try done; [|set_solver]. constructor; cbn; try done. intros i ?. lia.
Qed.

(** ** Property *)

(** C18 (refinement).  The ring behaves as a FIFO queue of capacity seven and the
    program hands everything over: in every interleaving the consumer has
    printed a prefix of 0, ..., 15, all of it when it has finished; no array
    access is out of range; and unless both threads have finished one of them
    is runnable and its step succeeds. *)
Theorem produce_consume s :
  reachable initial step s →
  (∃ l, ring (products s) l ∧ zlen l ≤ 7) ∧
  printed s `prefix_of` (Z.of_nat <$> seq 0 16) ∧
  (consumer s = Finished → printed s = Z.of_nat <$> seq 0 16) ∧
  (runnable (producer s) = true → is_Some (step s EProducer)) ∧
  (runnable (consumer s) = true → is_Some (step s EConsumer)) ∧
  (producer s = Finished ∧ consumer s = Finished ∨
   runnable (producer s) = true ∨ runnable (consumer s) = true).
Proof.
  intros Hr. assert (∃ l, prog_inv s l) as [l [H1 H2 H3 H4 H5 H6 H7 H8]].
  { revert Hr. apply (invariant_reachable _ _ (λ s, ∃ l, prog_inv s l)).
    - intros s0 H0. exists []. by apply pc_initial_inv.
    - intros s0 ev s1 [l0 H0] Hs. by eapply pc_step_inv. }
  split_and!.
  - exists l. split; [done|]. pose proof (ring_len _ _ H1). unfold BUFFER_SIZE in *. lia.
  - apply (sent_prefix (next_i s) _ _ H2 H8 H3).
  - intros Hc. destruct (H5 Hc) as [_ ->]. rewrite Hc in H3. by apply script_end in H3 as (_&_&->).
  - intros Hp. cbn [step]. rewrite Hp. unfold ProducerThread.
    set (item := if next_i s <? 16 then next_i s else END_FLAG).
    pose proof (Produce_spec _ _ item H1) as Hs. case_match; [by rewrite Hs|]. by destruct Hs as (?&->&_).
  - intros Hp. cbn [step]. rewrite Hp. unfold ConsumerThread. pose proof (Consume_spec _ _ H1) as Hs.
    destruct l; [by rewrite Hs|]. destruct Hs as (?&->&_). by destruct (_ =? _).
  - destruct (producer s) eqn:Ep, (consumer s) eqn:Ec; auto; exfalso.
    + specialize (H6 eq_refl). rewrite (H7 eq_refl) in H6. done.
    + destruct (H5 eq_refl) as [Hi _]. by apply H4 in Hi.
    + destruct H4 as [Hi _]. rewrite (Hi eq_refl), (H7 eq_refl) in H3.
      apply H8. rewrite !app_nil_r in H3. rewrite <- H3. apply list_elem_of_lookup. by exists 16%nat.
Qed.

Lemma produce_consume_witness :
  ∃ s, run step (Sys (Prod (zeros BUFFER_SIZE) 0 0) Ready 0 Ready [])
    [EConsumer; EProducer; EProducer; EConsumer; EConsumer; EConsumer] = Some s ∧
    consumer s = Blocked ∧ printed s = [0; 1] ∧ printed s `prefix_of` (Z.of_nat <$> seq 0 16).
Proof.
  destruct (run step _ _) as [s|] eqn:E; [|vm_compute in E; discriminate].
  exists s. split; [done|]. destruct (produce_consume s) as (_&Hp&_).
  { eapply run_reachable; [by apply reach_init|exact E]. }
  vm_compute in E. simplify_eq. done.
Defined.
End ProduceConsume.
