(* ===== verification/Alarm.v ===== *)
(** * Alarm lists

    Models ldd-k4/thread/programming_with_posix_thread/alarm_mutex.c and
    alarm_cond.c: the command line, the sorted insertion through a pointer to a
    link field, and the alarm thread, which sleeps (alarm_mutex) or waits on a
    condition variable with a timeout (alarm_cond). *)

From S2P Require Import Prelude LinkedList.
From Stdlib Require Import Sorting.Sorted.

Module Alarm.

Record alarm_t := Alm { link : option nat; seconds : Z; time : Z; message : list Z }.

(** What an alarm holds besides its link. *)
Record info := Info { i_seconds : Z; i_time : Z; i_message : list Z }.
Definition body (e : alarm_t) : info := Info (seconds e) (time e) (message e).

Abbreviation heap := (gmap nat alarm_t).

(** ** The command: sscanf (line, "%d %64[^\n]", ...) *)

Definition NEWLINE : Z := 10.
Definition is_space (c : Z) : bool := (c =? 32) || ((9 <=? c) && (c <=? 13)).
Definition is_digit (c : Z) : bool := (48 <=? c) && (c <=? 57).

Fixpoint skip_space (l : list Z) : list Z :=
  match l with c :: l' => if is_space c then skip_space l' else l | [] => [] end.

Fixpoint scan_digits (acc : Z) (l : list Z) : Z * list Z :=
  match l with
  | c :: l' => if is_digit c then scan_digits (acc * 10 + (c - 48)) l' else (acc, l)
  | [] => (acc, [])
  end.

Definition scan_int (l : list Z) : option (Z * list Z) :=
  let l := skip_space l in
  let '(neg, l) := match l with
    | 45 :: l' => (true, l') | 43 :: l' => (false, l') | _ => (false, l) end in
  match l with
  | c :: _ => if is_digit c then
      let '(v, r) := scan_digits 0 l in Some (s32 (if neg : bool then - v else v), r) else None
  | [] => None
  end.

(** [%64[^\n]]: one to 64 characters up to a newline. *)
Fixpoint until_newline (n : nat) (l : list Z) : list Z :=
  match n, l with
  | S n, c :: l => if c =? NEWLINE then [] else c :: until_newline n l
  | _, _ => []
  end.

Definition scan_command (line : list Z) : option (Z * list Z) :=
  '(secs, r) ← scan_int line;
  match until_newline 64 (skip_space r) with
  | [] => None
  | msg => Some (secs, msg)
  end.

(** ** Insertion in order of time

    [last] points to the link field to be changed: that of the list header
    ([None]) or of an element. *)

Definition set_link (e : alarm_t) (p : option nat) : alarm_t :=
  Alm p (seconds e) (time e) (message e).

(** [*last = v] *)
Definition assign (last : option nat) (v : option nat) (list : option nat) (h : heap)
    : option (option nat * heap) :=
  match last with
  | None => Some (v, h)
  | Some a => e ← h !! a; Some (list, <[a := set_link e v]> h)
  end.

(** The while loop and the test after it; one unit of fuel per element.
    [None]: out of fuel or a pointer to no element. *)
Fixpoint insert_walk (fuel : nat) (alarm : nat) (last next : option nat)
    (list : option nat) (h : heap) : option (option nat * heap) :=
  match fuel with
  | O => None
  | S fuel =>
      a ← h !! alarm;
      match next with
      | None =>
          '(list, h) ← assign last (Some alarm) list h;
          a ← h !! alarm;
          Some (list, <[alarm := set_link a None]> h)
      | Some n =>
          e ← h !! n;
          if time a <=? time e then
            let h := <[alarm := set_link a next]> h in
            assign last (Some alarm) list h
          else insert_walk fuel alarm (Some n) (link e) list h
      end
  end.

(** An element is visited once, so the heap's size bounds the iterations. *)
Definition list_insert (alarm : nat) (alarm_list : option nat) (h : heap) :=
  insert_walk (S (size h)) alarm None alarm_list alarm_list h.

(** Reference: insertion into a list ordered by time, before equal times. *)
Fixpoint insert_sorted (x : nat * info) (l : list (nat * info)) : list (nat * info) :=
  match l with
  | [] => [x]
  | y :: l => if i_time x.2 <=? i_time y.2 then x :: y :: l else y :: insert_sorted x l
  end.

Definition sorted (l : list (nat * info)) : Prop :=
  StronglySorted (λ x y, i_time x.2 ≤ i_time y.2) l.

Abbreviation achain := (chain link body).
Abbreviation aseg := (lseg link body).

(** *** Lemmas *)

Lemma insert_sorted_perm x l : insert_sorted x l ≡ₚ x :: l.
Proof.
  induction l as [|y l IH]; cbn; [done|]. case_match; [done|]. rewrite IH. apply Permutation_swap.
Qed.

Lemma insert_sorted_sorted x l : sorted l → sorted (insert_sorted x l).
Proof.
  unfold sorted. induction 1 as [|y l Hs IH Hy]; cbn.
  - repeat constructor.
  - destruct (_ <=? _) eqn:E; zbool.
    + constructor; [by constructor|]. constructor; [done|].
      eapply Forall_impl; [exact Hy|]. cbn. intros. lia.
    + constructor; [done|]. rewrite insert_sorted_perm. constructor; [lia|done].
Qed.

(** Writing through [last] redirects the end of the segment it belongs to. *)
Lemma assign_spec h list l1 q v :
  aseg h list l1 q → NoDup l1.*1 →
  ∃ list' h', assign (fst <$> last l1) v list h = Some (list', h') ∧ aseg h' list' l1 v ∧
    ∀ b, b ∉ l1.*1 → h' !! b = h !! b.
Proof.
  intros Hl Hnd. destruct l1 as [|[z dz] l1 _] using rev_ind; [by do 2 eexists|].
  rewrite last_snoc. cbn. pose proof Hl as (r&_&->&e&Hz&Hd&_)%lseg_app. rewrite Hz. cbn.
  do 2 eexists. split; [done|]. split; [by eapply lseg_snoc_set|].
  intros b Hb. rewrite lookup_insert_ne; [done|]. intros <-. apply Hb. rewrite fmap_app. set_solver.
Qed.

(** The walk, from a segment [l1] already passed to the rest [l2]. *)
Lemma insert_walk_spec fuel h alarm e l1 l2 list next :
  (length l2 < fuel)%nat → h !! alarm = Some e → alarm ∉ (l1 ++ l2).*1 → NoDup (l1 ++ l2).*1 →
  aseg h list l1 next → achain h next l2 →
  ∃ list' h', insert_walk fuel alarm (fst <$> last l1) next list h = Some (list', h') ∧
    achain h' list' (l1 ++ insert_sorted (alarm, body e) l2) ∧
    (∀ b, b ∉ alarm :: (l1 ++ l2).*1 → h' !! b = h !! b).
Proof.
  revert l1 l2 next. induction fuel as [|fuel IH]; intros l1 l2 next Hf He Hna Hnd H1 H2; [lia|].
  cbn [insert_walk]. rewrite He. cbn [mbind option_bind].
  rewrite fmap_app in Hna. pose proof Hnd as Hnd'. rewrite fmap_app, NoDup_app in Hnd'.
  destruct Hnd' as (Hn1&Hdis&Hn2).
  destruct l2 as [|[n d] l2]; cbn in H2.
  - rewrite H2 in *. destruct (assign_spec h list l1 None (Some alarm) H1 Hn1) as (list'&h1&->&Hs&Hsame).
    cbn [mbind option_bind]. rewrite Hsame, He by set_solver. cbn [mbind option_bind].
    do 2 eexists. split; [done|]. split.
    + apply lseg_app. exists (Some alarm). split; [apply lseg_insert; [done|set_solver]|].
      cbn. split; [done|]. eexists. by rewrite lookup_insert_eq.
    + intros b Hb. rewrite lookup_insert_ne by set_solver. apply Hsame. rewrite app_nil_r in Hb. set_solver.
  - destruct H2 as (->&en&Hn&<-&H2). rewrite Hn. cbn [mbind option_bind].
    change (i_time (body en)) with (time en).
    destruct (time e <=? time en) eqn:E; cbn [insert_sorted fst snd]; change (i_time (body en)) with (time en);
      change (i_time (body e)) with (time e); rewrite E.
    + set (h1 := <[alarm := _]> h).
      destruct (assign_spec h1 list l1 (Some n) (Some alarm)) as (list'&h'&->&Hs&Hsame);
        [apply lseg_insert; [done|set_solver]|done|].
      do 2 eexists. split; [done|]. split.
      * apply lseg_app. exists (Some alarm). split; [done|]. split; [done|].
        exists (set_link e (Some n)). rewrite Hsame by set_solver. unfold h1. rewrite lookup_insert_eq.
        split_and!; [done..|]. apply (lseg_same _ _ h).
        { intros b Hb. rewrite Hsame by (intros Hb'; by apply (Hdis b)). unfold h1.
          rewrite lookup_insert_ne; [done|set_solver]. }
        cbn. eauto.
      * intros b Hb. rewrite fmap_app in Hb. rewrite Hsame by set_solver. unfold h1.
        by rewrite lookup_insert_ne by set_solver.
    + destruct (IH (l1 ++ [(n, body en)]) l2 (link en)) as (list'&h'&Hw&Hc&Hsame);
        rewrite <- ?app_assoc; try done; [cbn in Hf; lia|by rewrite fmap_app| |].
      { apply lseg_app. exists (Some n). split; [done|]. cbn. eauto. }
      rewrite last_snoc in Hw. cbn in Hw. rewrite Hw. do 2 eexists. split; [done|].
      rewrite <- app_assoc in Hc, Hsame. done.
Qed.

Lemma chain_length h p l : achain h p l → NoDup l.*1 → (length l ≤ size h)%nat.
Proof.
  intros Hc Hnd. rewrite <- (length_fmap fst), <- (size_list_to_set (C := gset nat) l.*1), <- size_dom by done.
  apply subseteq_size. intros a Ha. apply elem_of_list_to_set in Ha. apply elem_of_dom.
  by eapply lseg_in_heap.
Qed.

(** The list a program state holds: [l] in order of time. *)
Record alarms (h : heap) (p : option nat) (l : list (nat * info)) : Prop := {
  al_chain : achain h p l;
  al_nodup : NoDup l.*1;
  al_sorted : sorted l
}.

Lemma list_insert_spec h p l alarm e :
  alarms h p l → h !! alarm = Some e → alarm ∉ l.*1 →
  ∃ p' h', list_insert alarm p h = Some (p', h') ∧
    alarms h' p' (insert_sorted (alarm, body e) l) ∧
    (∀ b, b ∉ alarm :: l.*1 → h' !! b = h !! b).
Proof.
  intros [Hc Hn Hs] He Hna. pose proof (chain_length _ _ _ Hc Hn).
  destruct (insert_walk_spec (S (size h)) h alarm e [] l p p) as (p'&h'&Hw&Hc'&Hsame); try done; [lia|].
  exists p', h'. split; [done|]. split; [|done]. constructor; [done| |by apply insert_sorted_sorted].
  rewrite insert_sorted_perm. by constructor.
Qed.

(** The insertion through a pointer to a link field is insertion
    into a sorted list: it terminates without following a dangling pointer, the
    list reached afterwards is the reference result, sorted and with exactly one
    element more, and no other element of the heap is touched. *)
Theorem alarm_insert_sorted h p l alarm e :
  alarms h p l → h !! alarm = Some e → alarm ∉ l.*1 →
  ∃ p' h', list_insert alarm p h = Some (p', h') ∧
    achain h' p' (insert_sorted (alarm, body e) l) ∧ sorted (insert_sorted (alarm, body e) l) ∧
    insert_sorted (alarm, body e) l ≡ₚ (alarm, body e) :: l ∧
    (∀ b, b ∉ alarm :: l.*1 → h' !! b = h !! b).
Proof.
  intros Hl He Hna. destruct (list_insert_spec h p l alarm e Hl He Hna) as (p'&h'&Hi&[Hc _ Hs]&Hsame).
  exists p', h'. split_and!; [done..|apply insert_sorted_perm|done].
Qed.

Lemma alarm_insert_sorted_witness :
  let h : heap := {[ 1%nat := Alm (Some 2%nat) 3 103 []; 2%nat := Alm None 8 108 [];
                     3%nat := Alm None 5 105 [] ]} in
  ∃ p' h', list_insert 3 (Some 1%nat) h = Some (p', h') ∧
    achain h' p' [(1%nat, Info 3 103 []); (3%nat, Info 5 105 []); (2%nat, Info 8 108 [])].
Proof.
  intros h.
  destruct (alarm_insert_sorted h (Some 1%nat) [(1%nat, Info 3 103 []); (2%nat, Info 8 108 [])] 3
    (Alm None 5 105 [])) as (p'&h'&Hi&Hc&_).
  - constructor; cbn; [split; [done|]; eexists; split; [done|]; split; [done|]; split; [done|];
      eexists; split; [done|]; done| |].
    + apply NoDup_cons. split; [set_solver|apply NoDup_singleton].
    + repeat constructor; cbn; lia.
  - done.
  - cbn. set_solver.
  - exists p', h'. split; [exact Hi|exact Hc].
Defined.

Lemma alarms_take h p a d l :
  alarms h p ((a, d) :: l) →
  ∃ e, p = Some a ∧ h !! a = Some e ∧ body e = d ∧ alarms h (link e) l ∧ (a ∉ l.*1) ∧
    Forall (λ y, i_time d ≤ i_time y.2) l.
Proof.
  intros [(->&e&He&Hd&Hc) Hn Hs]. apply NoDup_cons in Hn as [Hna Hn].
  inversion Hs; subst. exists e. by split_and!.
Qed.

Lemma alarms_same h h' p l :
  (∀ a, a ∈ l.*1 → h' !! a = h !! a) → alarms h p l → alarms h' p l.
Proof. intros Hs [Hc Hn Hso]. constructor; [by eapply lseg_same|done..]. Qed.

Lemma alarms_in_heap h p l a : alarms h p l → a ∈ l.*1 → is_Some (h !! a).
Proof. intros [Hc _ _] Ha. by eapply lseg_in_heap. Qed.

#[global] Arguments list_insert : simpl never.

(** ** main: one command line

    Allocation at [addr] (not in use); [now] is the result of time (NULL).
    [None]: the message does not fit in the 64 bytes of [message], or [addr]
    is in use. *)

Inductive parsed := BadCommand | Command (h : heap).

Definition new_alarm (line : list Z) (addr : nat) (now : Z) (h : heap) : option parsed :=
  if decide (h !! addr = None) then
    match scan_command line with
    | None => Some BadCommand
    | Some (secs, msg) =>
        m ← store 0 (msg ++ [0]) (zeros 64);
        Some (Command (<[addr := Alm None secs (now + secs) m]> h))
    end
  else None.

Lemma scan_command_range line secs msg :
  scan_command line = Some (secs, msg) → - 2 ^ 31 ≤ secs < 2 ^ 31.
Proof.
  unfold scan_command, scan_int. intros ([v r]&Hi&H)%bind_Some.
  destruct (until_newline _ _); simplify_eq.
  destruct (match skip_space line with 45 :: _ => _ | _ => _ end) as [neg digits].
  destruct digits as [|c digits]; [done|]. destruct (is_digit c); [|done].
  destruct (scan_digits _ _); simplify_eq. apply (swrap_bound 32). lia.
Qed.

(** A message of 64 characters or more does not fit with its terminating NUL. *)
Lemma long_message_overflows line addr now h secs msg :
  h !! addr = None → scan_command line = Some (secs, msg) → length msg = 64%nat →
  new_alarm line addr now h = None.
Proof.
  intros Ha Hs Hl. unfold new_alarm. rewrite decide_True, Hs by done. unfold store.
  rewrite (proj2 (Z.leb_gt _ (zlen (zeros 64)))); [done|].
  rewrite zlen_app, zlen_zeros by done. unfold zlen. rewrite Hl. cbn. lia.
Qed.

End Alarm.

(** ** alarm_mutex.c: the alarm thread polls and sleeps *)

Module AlarmMutex.
Import Alarm.

(** [Sleeping alarm until]: between the unlock and the printf, in sleep() until
    the clock shows [until] or just past sched_yield(). *)
Inductive pc := Top | Sleeping (alarm : option nat) (until : Z).

Record sys := Sys {
  hp : heap;
  alarm_list : option nat;
  thread : pc;
  now : Z;
  printed : list (Z * info)      (** when, and what *)
}.

Inductive event := ECommand (line : list Z) (addr : nat) | EThread | ETick.

Definition alarm_thread (s : sys) : option sys :=
  match thread s with
  | Top =>
      match alarm_list s with
      | None => Some (Sys (hp s) None (Sleeping None (now s + 1)) (now s) (printed s))
      | Some a =>
          e ← hp s !! a;
          let sleep_time := if time e <=? now s then 0 else s32 (time e - now s) in
          Some (Sys (hp s) (link e)
                    (Sleeping (Some a) (if 0 <? sleep_time then now s + sleep_time else now s))
                    (now s) (printed s))
      end
  | Sleeping a until =>
      if now s <? until then None else
      match a with
      | None => Some (Sys (hp s) (alarm_list s) Top (now s) (printed s))
      | Some a =>
          e ← hp s !! a;
          Some (Sys (delete a (hp s)) (alarm_list s) Top (now s) (printed s ++ [(now s, body e)]))
      end
  end.

Definition step (s : sys) (ev : event) : option sys :=
  match ev with
  | ECommand line addr =>
      r ← new_alarm line addr (now s) (hp s);
      match r with
      | BadCommand => Some s
      | Command h =>
          '(p, h) ← list_insert addr (alarm_list s) h;
          Some (Sys h p (thread s) (now s) (printed s))
      end
  | EThread => alarm_thread s
  | ETick => Some (Sys (hp s) (alarm_list s) (thread s) (now s + 1) (printed s))
  end.

Definition initial (s : sys) : Prop := ∃ t, s = Sys ∅ None Top t [].

(** The held alarm stays outside the list and is slept for long enough. *)
Record inv (s : sys) (l : list (nat * info)) : Prop := {
  inv_list : alarms (hp s) (alarm_list s) l;
  inv_time : Forall (λ x, i_time x.2 - now s < 2 ^ 31) l;
  inv_held : match thread s with
    | Sleeping (Some a) until => (a ∉ l.*1) ∧ ∃ e, hp s !! a = Some e ∧ time e ≤ until
    | _ => True end;
  inv_printed : Forall (λ x, i_time x.2 ≤ x.1) (printed s)
}.

Lemma thread_inv s l s' : inv s l → alarm_thread s = Some s' → ∃ l', inv s' l'.
Proof.
  intros [H1 H2 H3 H4] Hs. unfold alarm_thread in Hs.
  destruct (thread s) as [|[a|] until] eqn:Ep.
  - destruct (alarm_list s) as [a|] eqn:El.
    + destruct l as [|[b d] l]; [by destruct H1 as [Hc _ _]|].
      destruct (alarms_take _ _ _ _ _ H1) as (e&[= <-]&He&Hd&Hl&Hna&_).
      apply Forall_cons in H2 as [Ht H2]. rewrite <- Hd in Ht. cbn in Ht. rewrite He in Hs. cbn in Hs. simplify_eq. exists l. constructor; cbn; try done. split; [done|].
      exists e. split; [done|].
      destruct (time e <=? now s) eqn:Et; zbool; [cbn; lia|].
      rewrite swrap_id by (unfold fits_s; lia). case_match; zbool; lia.
    + simplify_eq. by exists l.
  - destruct (now s <? until) eqn:Et; [done|]. zbool. destruct H3 as (Hna&e&He&Hu).
    rewrite He in Hs. cbn in Hs. simplify_eq. exists l. constructor; cbn; try done.
    + eapply alarms_same; [|done]. intros b Hb. rewrite lookup_delete_ne; [done|]. by intros ->.
    + apply Forall_app. split; [done|]. repeat constructor. cbn. lia.
  - destruct (now s <? until); simplify_eq. by exists l.
Qed.

Lemma alarm_mutex_step_inv s l ev s' : inv s l → step s ev = Some s' → ∃ l', inv s' l'.
Proof.
  intros Hinv Hs. pose proof Hinv as [H1 H2 H3 H4]. destruct ev as [line addr| |]; cbn in Hs.
  - destruct (new_alarm _ _ _ _) as [[|h]|] eqn:En; cbn in Hs; simplify_eq; [eauto|].
    unfold new_alarm in En. case_decide as Hfree; [|done].
    destruct (scan_command line) as [[secs msg]|] eqn:Esc; [|done].
    destruct (store _ _ _) as [m|]; cbn in En; simplify_eq.
    apply scan_command_range in Esc. set (al := Alm None secs (now s + secs) m) in *.
    assert (∀ a, is_Some (hp s !! a) → a ≠ addr) as Hne by (intros a [??] ->; congruence).
    assert (addr ∉ l.*1) as Hna by (intros Hin; by eapply Hne; [eapply alarms_in_heap|]).
    destruct (list_insert_spec (<[addr := al]> (hp s)) (alarm_list s) l addr al)
      as (p&h'&Hi&Hl&Hsame); [|by rewrite lookup_insert_eq|done|].
    { eapply alarms_same; [|done]. intros b Hb. rewrite lookup_insert_ne; [done|].
      intros <-. done. }
    rewrite Hi in Hs. cbn in Hs. simplify_eq. eexists. constructor; cbn; [done| | |done].
    + rewrite insert_sorted_perm. constructor; [cbn; lia|done].
    + destruct (thread s) as [|[a|] until]; try done. destruct H3 as (Ha&e&He&Hu).
      assert (a ≠ addr) as Haa by (apply Hne; eauto). split.
      * rewrite insert_sorted_perm. cbn. set_solver.
      * exists e. rewrite Hsame by set_solver. by rewrite lookup_insert_ne.
  - by eapply thread_inv.
  - simplify_eq. exists l. constructor; cbn; try done.
    eapply Forall_impl; [exact H2|]. cbn. intros. lia.
Qed.

(** No alarm is announced before its time (while sleep is not interrupted). *)
Lemma alarm_mutex_not_early s :
  reachable initial step s → Forall (λ x, i_time x.2 ≤ x.1) (printed s).
Proof.
  intros Hr. assert (∃ l, inv s l) as [l [_ _ _ H]]; [|done].
  revert Hr. apply (invariant_reachable _ _ (λ s, ∃ l, inv s l)).
  - intros s0 [t ->]. exists []. constructor; cbn; try done. repeat constructor.
  - intros s0 ev s1 [l0 H0] Hs. by eapply alarm_mutex_step_inv.
Qed.
End AlarmMutex.

(** ** alarm_cond.c: the alarm thread waits on a condition variable *)

Module AlarmCond.
Import Alarm.

Inductive pc :=
| Start                         (** before pthread_mutex_lock *)
| EmptyWait | EmptyWoken        (** in pthread_cond_wait; unblocked *)
| TimedWait (alarm : nat)       (** in pthread_cond_timedwait *)
| TimedWoken (alarm : nat).

Record sys := Sys {
  hp : heap;
  alarm_list : option nat;
  current_alarm : Z;
  thread : pc;
  now : Z;
  entered : list info;           (** history: the commands accepted *)
  printed : list (Z * info)      (** history: when, and what *)
}.

(** pthread_cond_signal; only the alarm thread ever waits. *)
Definition signal (p : pc) : pc :=
  match p with EmptyWait => EmptyWoken | TimedWait a => TimedWoken a | p => p end.

Definition alarm_insert (alarm : nat) (s : sys) : option sys :=
  a ← hp s !! alarm;
  '(p, h) ← list_insert alarm (alarm_list s) (hp s);
  if (current_alarm s =? 0) || (time a <? current_alarm s) then
    Some (Sys h p (time a) (signal (thread s)) (now s) (entered s) (printed s))
  else Some (Sys h p (current_alarm s) (thread s) (now s) (entered s) (printed s)).

Definition print_free (alarm : nat) (s : sys) : option sys :=
  e ← hp s !! alarm;
  Some (Sys (delete alarm (hp s)) (alarm_list s) (current_alarm s) (thread s) (now s)
            (entered s) (printed s ++ [(now s, body e)])).

Definition set_thread (p : pc) (s : sys) : sys :=
  Sys (hp s) (alarm_list s) (current_alarm s) p (now s) (entered s) (printed s).
Definition set_current (t : Z) (s : sys) : sys :=
  Sys (hp s) (alarm_list s) t (thread s) (now s) (entered s) (printed s).
Definition set_list (p : option nat) (s : sys) : sys :=
  Sys (hp s) p (current_alarm s) (thread s) (now s) (entered s) (printed s).

(** From [while (alarm_list == NULL)] of an iteration to the next wait; each
    expired alarm costs one unit of fuel and leaves the list. *)
Fixpoint empty_loop (fuel : nat) (s : sys) : option sys :=
  match fuel with
  | O => None
  | S fuel =>
      match alarm_list s with
      | None => Some (set_thread EmptyWait s)
      | Some alarm =>
          e ← hp s !! alarm;
          let s := set_list (link e) s in
          if now s <? time e then
            Some (set_thread (TimedWait alarm) (set_current (time e) s))
          else
            s ← print_free alarm s;
            empty_loop fuel (set_current 0 s)
      end
  end.

(** The top of [while (1)]; at most one iteration per element of the list. *)
Definition loop_top (s : sys) : option sys := empty_loop (S (size (hp s))) (set_current 0 s).

(** [while (current_alarm == alarm->time)] after the wait returned 0. *)
Definition timed_loop (alarm : nat) (s : sys) : option sys :=
  e ← hp s !! alarm;
  if current_alarm s =? time e then Some (set_thread (TimedWait alarm) s)
  else s ← alarm_insert alarm (set_thread Start s); loop_top s.

Inductive event :=
| ECommand (line : list Z) (addr : nat)
| EThread       (** the alarm thread runs, if it is not blocked *)
| ETimeout      (** its timed wait expires *)
| ESpurious
| ETick.

Definition step (s : sys) (ev : event) : option sys :=
  match ev with
  | ECommand line addr =>
      r ← new_alarm line addr (now s) (hp s);
      match r with
      | BadCommand => Some s
      | Command h =>
          a ← h !! addr;
          alarm_insert addr (Sys h (alarm_list s) (current_alarm s) (thread s) (now s)
                                 (entered s ++ [body a]) (printed s))
      end
  | EThread =>
      match thread s with
      | Start => loop_top s
      | EmptyWoken => empty_loop (S (size (hp s))) s
      | TimedWoken alarm => timed_loop alarm s
      | _ => None
      end
  | ETimeout =>
      match thread s with
      | TimedWait alarm | TimedWoken alarm =>
          e ← hp s !! alarm;
          if now s <? time e then None
          else s ← print_free alarm s; loop_top (set_thread Start s)
      | _ => None
      end
  | ESpurious =>
      match thread s with
      | EmptyWait | TimedWait _ => Some (set_thread (signal (thread s)) s)
      | _ => None
      end
  | ETick => Some (Sys (hp s) (alarm_list s) (current_alarm s) (thread s) (now s + 1)
                       (entered s) (printed s))
  end.

(** Commands whose alarm does not expire at time 0, which current_alarm uses to say that
    the thread is not busy ([alarm_cond_zero] below). *)
Definition sane_step (s : sys) (ev : event) : option sys :=
  match ev with
  | ECommand line _ =>
      match scan_command line with
      | Some (secs, _) => if now s + secs =? 0 then None else step s ev
      | None => step s ev
      end
  | _ => step s ev
  end.

Definition initial (s : sys) : Prop := ∃ t, 0 ≤ t ∧ s = Sys ∅ None 0 Start t [] [].

(** ** Invariant *)

Definition held (p : pc) : list nat :=
  match p with TimedWait a | TimedWoken a => [a] | _ => [] end.

(** Alarms not announced yet: those in the list and the one the thread waits for. *)
Definition pending (h : heap) (p : pc) (l : list (nat * info)) : list info :=
  omap (λ a, body <$> h !! a) (held p) ++ l.*2.

Record inv (s : sys) (l : list (nat * info)) : Prop := {
  inv_list : alarms (hp s) (alarm_list s) l;
  inv_now : 0 ≤ now s;
  inv_pos : Forall (λ d, i_time d ≠ 0) (pending (hp s) (thread s) l);
  inv_held : ∀ a, a ∈ held (thread s) → (a ∉ l.*1) ∧ is_Some (hp s !! a);
  inv_thread :
    match thread s with
    | Start => True
    | EmptyWait => l = [] ∧ current_alarm s = 0
    | EmptyWoken => l = [] → current_alarm s = 0
    | TimedWait a => ∀ e, hp s !! a = Some e →
        0 < time e ∧ current_alarm s = time e ∧ Forall (λ x, time e ≤ i_time x.2) l
    | TimedWoken a => ∀ e, hp s !! a = Some e → current_alarm s ≠ 0 ∧ 0 < time e ∧ current_alarm s ≤ time e ∧
        (current_alarm s = time e → Forall (λ x, time e ≤ i_time x.2) l)
    end;
  inv_all : entered s ≡ₚ (printed s).*2 ++ pending (hp s) (thread s) l;
  inv_early : Forall (λ x, i_time x.2 ≤ x.1) (printed s)
}.

#[local] Arguments pending : simpl never.

Lemma pending_start h l : pending h Start l = l.*2.
Proof. done. Qed.

Lemma pending_held h p l a e :
  held p = [a] → h !! a = Some e → pending h p l = body e :: l.*2.
Proof. intros Hp He. unfold pending. rewrite Hp. cbn. by rewrite He. Qed.

(** Announcing an alarm that is due. *)
Lemma print_free_inv s l a e :
  alarms (hp s) (alarm_list s) l → 0 ≤ now s → Forall (λ d, i_time d ≠ 0) l.*2 →
  (a ∉ l.*1) → hp s !! a = Some e → time e ≤ now s →
  entered s ≡ₚ (printed s).*2 ++ body e :: l.*2 → Forall (λ x, i_time x.2 ≤ x.1) (printed s) →
  ∃ s', print_free a s = Some s' ∧ inv (set_current 0 (set_thread Start s')) l ∧
    hp s' = delete a (hp s).
Proof.
  intros Hl Hn Hp Hna He Hdue Hall Hearly. unfold print_free. rewrite He. cbn.
  eexists. split; [done|]. split; [|done]. constructor; cbn; try done.
  - eapply alarms_same; [|done]. intros b Hb. rewrite lookup_delete_ne; [done|]. by intros ->.
  - intros b Hb. by apply elem_of_nil in Hb.
  - rewrite fmap_app, Hall. cbn. rewrite <- app_assoc. done.
  - apply Forall_app. split; [done|]. by repeat constructor.
Qed.

Lemma empty_loop_inv fuel s l :
  inv (set_thread Start s) l → (l = [] → current_alarm s = 0) → (length l < fuel)%nat →
  ∃ s' l', empty_loop fuel s = Some s' ∧ inv s' l'.
Proof.
  revert s l. induction fuel as [|fuel IH]; intros s l [H1 H2 H3 H4 H5 H6 H7] Hcur Hf; [lia|].
  cbn in *. destruct l as [|[a d] l].
  - rewrite (chain_head _ _ _ _ _ (al_chain _ _ _ H1)). cbn. do 2 eexists. split; [done|].
    constructor; cbn; try done. auto.
  - destruct (alarms_take _ _ _ _ _ H1) as (e&Hp&He&Hd&Hl&Hna&Hmin). rewrite Hp, He. cbn.
    rewrite pending_start in H3, H6. cbn in H3, H6. apply Forall_cons in H3 as [Hpos H3].
    subst d. destruct (now s <? time e) eqn:Et; zbool.
    + do 2 eexists. split; [done|]. constructor; cbn; try done.
      * rewrite (pending_held _ _ _ a e) by done. by constructor.
      * intros b ->%list_elem_of_singleton. eauto.
      * intros e' He'. simplify_eq. split_and!; [lia|done|done].
      * by rewrite (pending_held _ _ _ a e).
    + destruct (print_free_inv (set_list (link e) s) l a e) as (s1&Hpf&Hi&_); try done.
      rewrite Hpf. cbn. apply (IH (set_current 0 s1) l); [by destruct s1|done|cbn in Hf; lia].
Qed.

(** The top of the thread's loop leads to a wait. *)
Lemma loop_top_inv s l : inv (set_thread Start s) l → ∃ s' l', loop_top s = Some s' ∧ inv s' l'.
Proof.
  intros Hinv. unfold loop_top. apply (empty_loop_inv _ _ l); [|done|].
  - by destruct Hinv; constructor.
  - destruct Hinv as [[Hc Hn _] _ _ _ _ _ _]. pose proof (chain_length _ _ _ Hc Hn).
    cbn in *. lia.
Qed.

Lemma alarm_insert_eq s l a e :
  alarms (hp s) (alarm_list s) l → hp s !! a = Some e → (a ∉ l.*1) →
  ∃ p h, alarms h p (insert_sorted (a, body e) l) ∧ (∀ b, b ∉ a :: l.*1 → h !! b = hp s !! b) ∧
    alarm_insert a s = Some
      (if (current_alarm s =? 0) || (time e <? current_alarm s)
       then Sys h p (time e) (signal (thread s)) (now s) (entered s) (printed s)
       else Sys h p (current_alarm s) (thread s) (now s) (entered s) (printed s)).
Proof.
  intros Hl He Hna. destruct (list_insert_spec _ _ _ _ _ Hl He Hna) as (p&h&Hi&Hl'&Hsame).
  exists p, h. split; [done|]. split; [done|]. unfold alarm_insert. rewrite He. cbn. rewrite Hi. cbn.
  by case_match.
Qed.

Lemma insert_snd x l : (insert_sorted x l).*2 ≡ₚ x.2 :: l.*2.
Proof. by rewrite insert_sorted_perm. Qed.

Lemma insert_nonempty x l : insert_sorted x l ≠ [].
Proof. intros H. pose proof (insert_sorted_perm x l) as Hp. rewrite H in Hp. by apply Permutation_nil_cons in Hp. Qed.

Lemma held_signal p : held (signal p) = held p.
Proof. by destruct p. Qed.

Lemma pending_insert h h' p p' x l :
  held p' = held p → (∀ a, a ∈ held p → h' !! a = h !! a) →
  pending h' p' (insert_sorted x l) ≡ₚ x.2 :: pending h p l.
Proof.
  intros Hp Hh. unfold pending. rewrite Hp, insert_snd, <- Permutation_middle.
  f_equiv. f_equiv. destruct p; cbn; try done; by rewrite Hh by set_solver.
Qed.

(** A command inserts its alarm and wakes the thread when it must. *)
Lemma command_inv s l addr al :
  inv s l → hp s !! addr = None → time al ≠ 0 →
  ∃ s' l', alarm_insert addr (Sys (<[addr := al]> (hp s)) (alarm_list s) (current_alarm s) (thread s)
      (now s) (entered s ++ [body al]) (printed s)) = Some s' ∧ inv s' l'.
Proof.
  intros [H1 H2 H3 H4 H5 H6 H7] Hfree Hpos.
  assert (addr ∉ l.*1) as Hna.
  { intros Hin. destruct (alarms_in_heap _ _ _ _ H1 Hin). congruence. }
  assert (∀ a, a ∈ held (thread s) → a ≠ addr ∧ (a ∉ l.*1)) as Hheld.
  { intros a Ha. destruct (H4 a Ha) as [? [??]]. split; [congruence|done]. }
  edestruct (alarm_insert_eq (Sys (<[addr := al]> (hp s)) (alarm_list s) (current_alarm s) (thread s)
    (now s) (entered s ++ [body al]) (printed s)) l addr al) as (p&h&Hl&Hsame&->);
    [|by apply lookup_insert_eq|done|]; cbn in *.
  { eapply alarms_same; [|done]. intros b Hb. rewrite lookup_insert_ne; [done|]. by intros ->. }
  assert (∀ a, a ∈ held (thread s) → h !! a = hp s !! a) as Hkeep.
  { intros a Ha. destruct (Hheld a Ha). rewrite Hsame by set_solver. by rewrite lookup_insert_ne. }
  set (l' := insert_sorted (addr, body al) l) in *.
  assert (∀ p', held p' = held (thread s) → Forall (λ d, i_time d ≠ 0) (pending h p' l') ∧
    entered s ++ [body al] ≡ₚ (printed s).*2 ++ pending h p' l' ∧
    ∀ a, a ∈ held p' → (a ∉ l'.*1) ∧ is_Some (h !! a)) as Hcommon.
  { intros p' Hp'. pose proof (pending_insert (hp s) h (thread s) p' (addr, body al) l Hp' Hkeep) as Hpen.
    fold l' in Hpen. rewrite Hpen. split_and!; [by constructor| |].
    { rewrite H6, <- app_assoc. by rewrite (Permutation_cons_append (pending _ _ _)). }
    rewrite Hp'. intros a Ha. destruct (H4 a Ha) as [??]. destruct (Hheld a Ha).
    unfold l'. rewrite insert_sorted_perm, Hkeep by done. set_solver. }
  assert (l' ≠ []) as Hne by apply insert_nonempty.
  assert (∀ e, time e ≤ time al → Forall (λ x, time e ≤ i_time x.2) l →
    Forall (λ x, time e ≤ i_time x.2) l') as Hmin
    by (intros e Ht Hf; unfold l'; rewrite insert_sorted_perm; by constructor).
  assert (∀ a e, thread s = TimedWait a ∨ thread s = TimedWoken a → h !! a = Some e →
    hp s !! a = Some e) as Hwait.
  { intros a e Ht He. rewrite Hkeep in He by (destruct Ht as [->| ->]; cbn; set_solver).
    done. }
  destruct ((current_alarm s =? 0) || (time al <? current_alarm s)) eqn:Ec; do 2 eexists; (split; [done|]).
  - destruct (Hcommon (signal (thread s)) (held_signal _)) as (?&?&?). constructor; cbn; try done.
    destruct (thread s) as [| | |a|a]; cbn; try done; intros e He;
      pose proof (Hwait a e ltac:(auto) He) as He'; specialize (H5 e He');
      apply orb_true_iff in Ec as [?|?]; zbool; lia.
  - destruct (Hcommon (thread s) eq_refl) as (?&?&?). constructor; cbn; try done.
    destruct (thread s) as [| | |a|a]; cbn; try done; zbool; [naive_solver| |]; intros e He;
      pose proof (Hwait a e ltac:(auto) He) as He'; specialize (H5 e He');
      destruct_and?; split_and!; try (done || lia); intros; apply Hmin; naive_solver lia.
Qed.

(** The alarm thread holds [a] and was woken: it waits on or requeues. *)
Lemma timed_loop_inv s l a :
  inv s l → thread s = TimedWoken a → ∃ s' l', timed_loop a s = Some s' ∧ inv s' l'.
Proof.
  intros [H1 H2 H3 H4 H5 H6 H7] Ht. rewrite Ht in *.
  destruct (H4 a) as [Hna [e He]]; [cbn; set_solver|]. specialize (H5 e He).
  rewrite (pending_held _ _ _ a e) in H3, H6 by done. unfold timed_loop. rewrite He. cbn.
  destruct (current_alarm s =? time e) eqn:Ec; zbool.
  - do 2 eexists. split; [done|]. constructor; cbn; try done.
    + by rewrite (pending_held _ _ _ a e).
    + intros e' He'. simplify_eq. naive_solver.
    + by rewrite (pending_held _ _ _ a e).
  - destruct (alarm_insert_eq (set_thread Start s) l a e) as (p&h&Hl&Hsame&->); [done..|].
    cbn [mbind option_bind]. apply (loop_top_inv _ (insert_sorted (a, body e) l)).
    case_match; constructor; cbn; try done; rewrite ?pending_start, ?insert_snd; try done;
      intros b Hb; by apply elem_of_nil in Hb.
Qed.

Lemma alarm_cond_step_inv s l ev s' : inv s l → sane_step s ev = Some s' → ∃ l', inv s' l'.
Proof.
  intros Hinv Hs. pose proof Hinv as [H1 H2 H3 H4 H5 H6 H7].
  assert (step s ev = Some s') as Hst by (destruct ev; cbn -[step] in Hs; cases; done).
  destruct ev as [line addr| | | |]; cbn -[loop_top empty_loop timed_loop] in Hst.
  - cbn -[step] in Hs. destruct (new_alarm _ _ _ _) as [[|h]|] eqn:En; cbn in Hst; simplify_eq; [eauto|].
    unfold new_alarm in En. case_decide as Hfree; [|done].
    destruct (scan_command line) as [[secs msg]|]; [|done].
    destruct (store _ _ _) as [m|]; cbn in En; simplify_eq.
    rewrite lookup_insert_eq in Hst. cbn in Hst. destruct (now s + secs =? 0) eqn:Epos; [done|]. zbool.
    destruct (command_inv s l addr (Alm None secs (now s + secs) m) Hinv Hfree Epos) as (s1&l1&Heq&?).
    rewrite Heq in Hst. simplify_eq. eauto.
  - assert (∃ s1 l1, Some s' = Some s1 ∧ inv s1 l1) as (?&l1&[= <-]&?); [|by exists l1]. rewrite <- Hst.
    destruct (thread s) as [| | | |a] eqn:Ep; try done.
    + apply (loop_top_inv s l). constructor; cbn; done.
    + pose proof (chain_length _ _ _ (al_chain _ _ _ H1) (al_nodup _ _ _ H1)).
      apply (empty_loop_inv _ s l); [|done|lia]. by constructor.
    + by apply (timed_loop_inv s l).
  - assert (∃ a, (thread s = TimedWait a ∨ thread s = TimedWoken a) ∧
      match hp s !! a with
      | Some e => if now s <? time e then None else
          match print_free a s with Some s0 => loop_top (set_thread Start s0) | None => None end
      | None => None end = Some s') as (a&Ht&Hst').
    { destruct (thread s) as [| | |a|a]; try done; exists a; (split; [auto|]);
        by destruct (hp s !! a). }
    destruct (H4 a) as [Hna [e He]]; [destruct Ht as [->| ->]; cbn; set_solver|].
    rewrite (pending_held _ _ _ a e) in H3, H6 by first [done|destruct Ht as [->| ->]; done].
    apply Forall_cons in H3 as [_ H3]. rewrite He in Hst'.
    destruct (now s <? time e) eqn:Et; [done|]. zbool.
    destruct (print_free_inv s l a e) as (s1&Hpf&Hi&_); try done. rewrite Hpf in Hst'.
    destruct (loop_top_inv (set_thread Start s1) l) as (s2&l2&Heq&?).
    { destruct Hi. by constructor. }
    rewrite Heq in Hst'. simplify_eq. eauto.
  - exists l. destruct (thread s) as [| | |a|a] eqn:Ep; simplify_eq; constructor; cbn; try done.
    + by destruct H5.
    + intros e He. destruct (H5 e He) as (?&->&?). split_and!; [lia|done|lia|done].
  - simplify_eq. exists l. constructor; cbn; try done. lia.
Qed.

(** ** Properties *)

(** C27 (invariant).  The alarm thread never oversleeps: when it is blocked with an
    empty list no alarm is pending, and when it is blocked until an alarm's
    time no other pending alarm is earlier.  Every alarm entered is pending or
    was announced exactly once, not before its time.  Commands may expire at any time,
    past ones included, except exactly at time 0 ([sane_step]), where the code does
    oversleep ([alarm_cond_zero]); messages are shorter than 64 characters
    ([long_message_overflows]), the clock starts after the epoch, and runs in which a
    pthread call fails end there. *)
Theorem alarm_cond_timely s :
  reachable initial sane_step s →
  ∃ l, alarms (hp s) (alarm_list s) l ∧
    (thread s = EmptyWait → l = []) ∧
    (∀ a, thread s = TimedWait a → ∃ e, hp s !! a = Some e ∧ Forall (λ x, time e ≤ i_time x.2) l) ∧
    entered s ≡ₚ (printed s).*2 ++ pending (hp s) (thread s) l ∧
    Forall (λ x, i_time x.2 ≤ x.1) (printed s).
Proof.
  intros Hr. assert (∃ l, inv s l) as [l [H1 H2 H3 H4 H5 H6 H7]].
  { revert Hr. apply (invariant_reachable _ _ (λ s, ∃ l, inv s l)).
    - intros s0 (t&Ht&->). exists []. constructor; cbn; try done; [repeat constructor..|].
      intros a Ha. by apply elem_of_nil in Ha.
    - intros s0 ev s1 [l0 H0] Hs. by eapply alarm_cond_step_inv. }
  exists l. split_and!; [done| | |done|done].
  - intros Ht. rewrite Ht in H5. by destruct H5.
  - intros a Ht. rewrite Ht in *. destruct (H4 a) as [_ [e He]]; [cbn; set_solver|].
    exists e. split; [done|]. by destruct (H5 e He) as (_&_&?).
Qed.

(** "5 x", then "2 y": the thread is woken for the earlier alarm. *)
Lemma alarm_cond_timely_witness :
  ∃ s l, run sane_step (Sys ∅ None 0 Start 100 [] [])
    [EThread; ECommand [53; 32; 120; 10] 1; EThread; ECommand [50; 32; 121; 10] 2; EThread] = Some s ∧
    thread s = TimedWait 2 ∧ alarms (hp s) (alarm_list s) l ∧
    ∃ e, hp s !! 2%nat = Some e ∧ time e = 102 ∧ Forall (λ x, time e ≤ i_time x.2) l.
Proof.
  destruct (run sane_step _ _) as [s|] eqn:E; [|vm_compute in E; discriminate].
  destruct (alarm_cond_timely s) as (l&Hl&_&Ht&_).
  { eapply run_reachable; [apply reach_init; exists 100; done|exact E]. }
  exists s, l. split; [done|].
  assert (thread s = TimedWait 2 ∧ time <$> hp s !! 2%nat = Some 102) as [Hth Htm]
    by (vm_compute in E; by simplify_eq).
  split; [done|]. split; [done|]. destruct (Ht 2%nat Hth) as (e&He&?). exists e.
  rewrite He in Htm. split; [done|]. split; [by simplify_eq/=|done].
Defined.

(** An alarm at time 0 makes current_alarm 0, as if the thread were not busy.  At time 100,
    after "5 x" the command "-100 y" signals the thread; before it runs, "5 z" sets
    current_alarm to the time that it waits for, so it waits on, although the alarm of
    time 0 is due. *)
Lemma alarm_cond_zero :
  ∃ s e, run step (Sys ∅ None 0 Start 100 [] [])
    [EThread; ECommand [53; 32; 120; 10] 1; EThread; ECommand [45; 49; 48; 48; 32; 121; 10] 2;
     ECommand [53; 32; 122; 10] 3; EThread] = Some s ∧
    thread s = TimedWait 1 ∧ now s = 100 ∧ alarm_list s = Some 2%nat ∧ hp s !! 2%nat = Some e ∧ time e = 0.
Proof. do 2 eexists. split; [vm_compute; reflexivity|]. split_and!; vm_compute; reflexivity. Qed.
End AlarmCond.
