(* ===== verification/Crew.v ===== *)
(** * Work crew

    Models ldd-k4/thread/programming_with_posix_thread/crew.c: a crew of threads
    searches a directory tree for a string.  The routines are written over an
    interface to the queue of work items ([WorkQueue]): the program's queue is
    the linked list between [first] and [last] ([pointer_queue]); a list of
    items ([list_queue]) is its specification, and [crew_simulates] carries the
    theorems from one to the other.

    A work item comes with the file its path leads to: the file system does not
    change during a search, lstat succeeds at every path and every path fits
    its buffer.  Where the program aborts (a failing mutex call, out of memory)
    the model stops. *)

From S2P Require Import Prelude Pthread LinkedList.

(** stdpp's last element of a list; the queue below has a field of that name. *)
Abbreviation list_last := last.

Module Crew.

Definition CREW_SIZE : nat := 4.

(** What lstat, opendir and fopen find at a path: [None] for a directory or
    file that cannot be opened.  A directory has the entries that readdir_r
    gives and the status of its last call: 0 with a NULL result at the end, or
    the error that cuts the reading short.  A file has the bytes that can be
    read and whether a read error (rather than the end) follows them. *)
Inductive node :=
| Lnk
| Dir (stream : option (list (list Z * node) * Z))
| Reg (contents : option (list Z * bool))
| Other.

(** A work item without its [next] pointer. *)
Record work_t := Work { path : list Z; file : node }.

Definition SLASH : Z := 47.
Definition is_dot (name : list Z) : bool :=
  bool_decide (name = [46]) || bool_decide (name = [46; 46]).

Definition join (p name : list Z) : list Z := p ++ [SLASH] ++ name.

(** ** Searching one file *)

(** What successive calls of fgets with a buffer of 256 bytes return: pieces of
    at most 255 characters, each ending at a newline or full; at the end of the
    file what is left, after a read error ([error]) NULL. *)
Fixpoint fgets_pieces (error : bool) (room : nat) (acc l : list Z) : list (list Z) :=
  match l with
  | [] => match acc with [] => [] | _ => if error then [] else [acc] end
  | c :: l =>
      let acc := acc ++ [c] in
      if c =? 10 then acc :: fgets_pieces error 255 [] l
      else match room with
        | S (S room) => fgets_pieces error (S room) acc l
        | _ => acc :: fgets_pieces error 255 [] l
        end
  end.

(** strstr on a buffer that holds [l] and its terminator: does [s] start
    somewhere before the first NUL?  [starts l s]: [s] starts at [l] itself. *)
Fixpoint starts (l s : list Z) : bool :=
  match s, l with
  | [], _ => true
  | c :: s, d :: l => negb (d =? 0) && (c =? d) && starts l s
  | _ :: _, [] => false
  end.

Fixpoint strstr (l s : list Z) : bool :=
  starts l s ||
  match l with [] => false | d :: l => negb (d =? 0) && strstr l s end.

(** The loop over fgets: it ends at the first piece with a hit, or at NULL (the
    end of the file or a read error). *)
Fixpoint search_pieces (pieces : list (list Z)) (string : list Z) : bool :=
  match pieces with
  | [] => false
  | buffer :: pieces => if strstr buffer string then true else search_pieces pieces string
  end.

Definition search_file (contents : list Z) (error : bool) (string : list Z) : bool :=
  search_pieces (fgets_pieces error 255 [] contents) string.

(** ** The queue of work items *)

(** [qput a w q]: append the item [w], allocated at [a]; [None]: [a] is in use
    or a dangling pointer is followed.  [qtake q]: remove the first item, if
    there is one; [None]: a dangling pointer is followed.  [qdrop q]: free the
    first item and set [first] to NULL. *)
Class WorkQueue (Q : Type) := {
  qempty : Q;
  qput : nat → work_t → Q → option Q;
  qtake : Q → option (option (work_t * Q));
  qdrop : Q → Q
}.

(** The linked list.  [hp] holds the items between [first] and [last]; an item
    leaves it when a worker removes it: from then on until it frees it that
    worker alone reads it. *)
Record ele := Ele { work : work_t; next : option nat }.
Record crew_q := CrewQ { first : option nat; last : option nat; hp : gmap nat ele }.

Definition put_work (a : nat) (new_work : work_t) (crew : crew_q) : option crew_q :=
  if decide (hp crew !! a = None) then
    let h := <[a := Ele new_work None]> (hp crew) in
    match first crew with
    | None => Some (CrewQ (Some a) (Some a) h)
    | Some _ =>
        l ← last crew;
        e ← h !! l;
        Some (CrewQ (first crew) (Some a) (<[l := Ele (work e) (Some a)]> h))
    end
  else None.

Definition take_work (crew : crew_q) : option (option (work_t * crew_q)) :=
  match first crew with
  | None => Some None
  | Some a =>
      e ← hp crew !! a;
      Some (Some (work e,
        CrewQ (next e) (match next e with None => None | Some _ => last crew end) (delete a (hp crew))))
  end.

Definition drop_work (crew : crew_q) : crew_q :=
  CrewQ None (last crew) (match first crew with None => hp crew | Some a => delete a (hp crew) end).

#[export] Instance pointer_queue : WorkQueue crew_q :=
  {| qempty := CrewQ None None ∅; qput := put_work; qtake := take_work; qdrop := drop_work |}.

(** The specification: a list of items. *)
#[export] Instance list_queue : WorkQueue (list work_t) :=
  {| qempty := []; qput _ w q := Some (q ++ [w]);
     qtake q := Some (match q with [] => None | w :: q => Some (w, q) end); qdrop _ := [] |}.

(** ** Threads *)

Inductive wpc :=
| WInit                          (** before the first pthread_mutex_lock *)
| WInitBlocked | WInitWoken      (** in the first wait for go *)
| WTop                           (** before the lock at the top of while (1) *)
| WBlocked | WWoken              (** waiting for go in the loop *)
| WGot (w : work_t)              (** item removed, mutex released *)
| WScan (w : work_t) (rest : list (list Z * node)) (status : Z)  (** in the readdir loop *)
| WFinish (w : work_t)           (** item freed, before the final lock *)
| WExited.

Inductive mpc :=
| MStart
| MBusyBlocked | MBusyWoken      (** waiting for an earlier search to finish *)
| MWaitBlocked | MWaitWoken      (** waiting for this search to finish *)
| MReturned (status : Z).

Record sys (Q : Type) := Sys {
  queue : Q;                     (** first ... last *)
  work_count : Z;
  main : mpc;
  workers : gmap nat wpc;
  processed : list (list Z);     (** history: paths examined *)
  reported : list (list Z)       (** history: paths in which the string was found *)
}.
Arguments Sys {Q}.
Arguments queue {Q}.
Arguments work_count {Q}.
Arguments main {Q}.
Arguments workers {Q}.
Arguments processed {Q}.
Arguments reported {Q}.

(** [a]: what malloc returns for a new work item; [picks]: the threads that a
    signal of go unblocks. *)

Inductive event :=
| EMain (signal_status : Z) (a : nat) (picks : list nat)
| ERun (t : nat) (a : nat) (picks : list nat)
| ESpurious (t : nat)
| ESpuriousMain.

Definition waits_go (p : wpc) : bool := match p with WInitBlocked | WBlocked => true | _ => false end.
Definition unblock (p : wpc) : wpc :=
  match p with WInitBlocked => WInitWoken | WBlocked => WWoken | p => p end.
Definition unblock_main (p : mpc) : mpc :=
  match p with MBusyBlocked => MBusyWoken | MWaitBlocked => MWaitWoken | p => p end.

Section search.
Context {Q : Type} {WQ : WorkQueue Q}.
Context (filepath : list Z) (root : node) (search : list Z).
Abbreviation sys := (sys Q).

Definition set_worker (s : sys) (t : nat) (p : wpc) : sys :=
  Sys (queue s) (work_count s) (main s) (<[t := p]> (workers s)) (processed s) (reported s).
Definition set_main (s : sys) (p : mpc) : sys :=
  Sys (queue s) (work_count s) p (workers s) (processed s) (reported s).

(** Append an item, count it and signal go. *)
Definition add_work (s : sys) (w : work_t) (a : nat) (picks : list nat) : option sys :=
  q ← qput a w (queue s);
  if signal_choice waits_go (workers s) picks then
    Some (Sys q (work_count s + 1) (main s) (wake unblock picks (workers s))
              (processed s) (reported s))
  else None.

(** What worker_routine does with the item it has removed. *)
Definition examine (s : sys) (t : nat) (w : work_t) : sys :=
  let s := Sys (queue s) (work_count s) (main s) (workers s) (processed s ++ [path w]) (reported s) in
  match file w with
  | Lnk | Other | Reg None => set_worker s t (WFinish w)
  | Dir None => set_worker s t WTop                       (* continue *)
  | Dir (Some (entries, status)) => set_worker s t (WScan w entries status)
  | Reg (Some (contents, error)) =>
      let s := if search_file contents error search
               then Sys (queue s) (work_count s) (main s) (workers s) (processed s)
                        (reported s ++ [path w])
               else s in
      set_worker s t (WFinish w)
  end.

Definition worker_routine (s : sys) (t a : nat) (picks : list nat) (p : wpc) : option sys :=
  match p with
  | WInit | WInitWoken =>
      Some (set_worker s t (if work_count s =? 0 then WInitBlocked else WTop))
  | WTop | WWoken =>
      r ← qtake (queue s);
      match r with
      | None => Some (set_worker s t WBlocked)
      | Some (w, q) =>
          Some (Sys q (work_count s) (main s) (<[t := WGot w]> (workers s)) (processed s) (reported s))
      end
  | WGot w => Some (examine s t w)
  | WScan w [] status =>
      (* the end of the directory, or readdir_r failed with [status] *)
      Some (set_worker s t (WFinish w))
  | WScan w ((name, f) :: rest) status =>
      if is_dot name then Some (set_worker s t (WScan w rest status)) else
      s ← add_work s (Work (join (path w) name) f) a picks;
      Some (set_worker s t (WScan w rest status))
  | WFinish w =>
      let n := work_count s - 1 in
      if n <=? 0 then
        Some (Sys (queue s) n (unblock_main (main s)) (<[t := WExited]> (workers s))
                  (processed s) (reported s))
      else
        Some (Sys (queue s) n (main s) (<[t := WTop]> (workers s)) (processed s) (reported s))
  | _ => None
  end.

(** [while (crew->work_count > 0)] before crew_start returns. *)
Definition start_wait (s : sys) : sys :=
  set_main s (if 0 <? work_count s then MWaitBlocked else MReturned 0).

Definition crew_start (s : sys) (signal_status : Z) (a : nat) (picks : list nat) : option sys :=
  match main s with
  | MStart | MBusyWoken =>
      if 0 <? work_count s then Some (set_main s MBusyBlocked) else
      if signal_status =? 0 then
        s ← add_work s (Work filepath root) a picks;
        Some (start_wait s)
      else
        q ← qput a (Work filepath root) (queue s);
        Some (Sys (qdrop q) 0 (MReturned signal_status) (workers s) (processed s) (reported s))
  | MWaitWoken => Some (start_wait s)
  | _ => None
  end.

Definition step (s : sys) (ev : event) : option sys :=
  match ev with
  | EMain st a picks => crew_start s st a picks
  | ERun t a picks => p ← workers s !! t; worker_routine s t a picks p
  | ESpurious t =>
      p ← workers s !! t;
      if waits_go p then Some (set_worker s t (unblock p)) else None
  | ESpuriousMain =>
      match main s with
      | MBusyBlocked | MWaitBlocked => Some (set_main s (unblock_main (main s)))
      | _ => None
      end
  end.

(** Steps in which the signal of crew_start succeeds. *)
Definition calm_step (s : sys) (ev : event) : option sys :=
  match ev with
  | EMain st _ _ => if st =? 0 then step s ev else None
  | _ => step s ev
  end.

(** After crew_create. *)
Definition crew : sys :=
  Sys qempty 0 MStart {[ 0%nat := WInit; 1%nat := WInit; 2%nat := WInit; 3%nat := WInit ]} [] [].
End search.

(** crew_create: the status, and how many threads exist when it returns. *)
Definition crew_create (crew_size mutex_init done_init go_init : Z) : Z * nat :=
  if Z.of_nat CREW_SIZE <? crew_size then (EINVAL, 0%nat) else
  if negb (mutex_init =? 0) then (mutex_init, 0%nat) else
  if negb (done_init =? 0) then (done_init, 0%nat) else
  if negb (go_init =? 0) then (go_init, 0%nat) else
  (0, CREW_SIZE).

(** ** What there is to examine *)

Section gather.
(** What one file contributes. *)
Context (own : list Z → node → list (list Z)).

(** The contributions of everything below [p], [p] included. *)
Fixpoint gather (p : list Z) (n : node) : list (list Z) :=
  own p n ++ match n with
    | Dir (Some (entries, _)) =>
        (fix go (es : list (list Z * node)) :=
          match es with
          | [] => []
          | (name, f) :: es => (if is_dot name then [] else gather (join p name) f) ++ go es
          end) entries
    | _ => []
    end.

(** Those of a directory's remaining entries, and of queued items. *)
Fixpoint gather_entries (p : list Z) (es : list (list Z * node)) : list (list Z) :=
  match es with
  | [] => []
  | (name, f) :: es => (if is_dot name then [] else gather (join p name) f) ++ gather_entries p es
  end.

Definition gather_queue (q : list work_t) : list (list Z) :=
  concat ((λ w, gather (path w) (file w)) <$> q).

Lemma gather_unfold p n :
  gather p n = own p n ++ match n with Dir (Some (es, _)) => gather_entries p es | _ => [] end.
Proof.
  destruct n as [|[[es st]|]| |]; try done. cbn [gather]. f_equal.
  induction es as [|[name f] es IH]; [done|]. cbn [gather_entries]. by rewrite IH.
Qed.
End gather.

(** A file is a hit when the string is at some position of what one of its pieces holds
    before the first NUL. *)
Fixpoint text (l : list Z) : list Z :=
  match l with [] => [] | c :: l => if c =? 0 then [] else c :: text l end.
Definition occurs (s l : list Z) : bool :=
  existsb (λ k, bool_decide (take (length s) (drop k l) = s)) (seq 0 (S (length l))).

Definition visit (p : list Z) (n : node) : list (list Z) := [p].
Definition hit (search p : list Z) (n : node) : list (list Z) :=
  match n with
  | Reg (Some (contents, error)) =>
      if existsb (λ piece, occurs search (text piece)) (fgets_pieces error 255 [] contents) then [p] else []
  | _ => []
  end.

Lemma starts_take s : ∀ l, starts l s = bool_decide (take (length s) (text l) = s).
Proof.
  induction s as [|c s IH]; intros [|d l]; cbn [starts text length take]; try done.
  destruct (Z.eqb_spec d 0) as [->|Hd]; cbn [negb andb]; [done|]. cbn [take]. rewrite IH.
  destruct (Z.eqb_spec c d) as [->|Hc]; cbn [andb]; [apply bool_decide_ext; split; [by intros ->|by intros [= ?]]|].
  symmetry. apply bool_decide_eq_false. intros [= ? _]. done.
Qed.

Lemma existsb_shift (f : nat → bool) n : existsb f (seq 1 n) = existsb (λ k, f (S k)) (seq 0 n).
Proof. rewrite <- seq_shift. generalize (seq 0 n). induction l as [|k l IH]; cbn; [done|]. by rewrite IH. Qed.

(** strstr finds the string when it is there. *)
Lemma strstr_occurs l s : strstr l s = occurs s (text l).
Proof.
  induction l as [|d l IH]; cbn [strstr]; rewrite starts_take; cbn [text]; [done|].
  destruct (Z.eqb_spec d 0) as [->|Hd]; cbn [negb andb]; [done|]. rewrite IH. unfold occurs.
  change (seq 0 (S (length (d :: text l)))) with (0%nat :: seq 1 (S (length (text l)))).
  cbn [existsb]. f_equal. symmetry. apply existsb_shift.
Qed.

Lemma search_pieces_occurs ps s : search_pieces ps s = existsb (λ piece, occurs s (text piece)) ps.
Proof. induction ps as [|b ps IH]; cbn [search_pieces existsb]; [done|]. rewrite strstr_occurs, IH. by destruct (occurs _ _). Qed.

(** The pieces are the bytes of the file, cut behind newlines and after 255 characters. *)
Lemma fgets_pieces_concat e l : ∀ room acc, (room + length acc = 255)%nat → (0 < room)%nat →
  (e = false → concat (fgets_pieces e room acc l) = acc ++ l) ∧
  Forall (λ piece, piece ≠ [] ∧ (length piece ≤ 255)%nat) (fgets_pieces e room acc l).
Proof.
  assert (∀ x y : list Z, x ++ y = [] → x = []) as Hnil by (by intros [] ?).
  induction l as [|c l IH]; intros room acc Hr Hp; cbn [fgets_pieces].
  - rewrite app_nil_r. destruct acc as [|a acc]; [done|]. destruct e; [done|]. cbn. rewrite app_nil_r.
    split; [done|]. apply Forall_singleton. split; [done|lia].
  - assert (length (acc ++ [c]) = S (length acc)) as Hl by (rewrite length_app; cbn; lia).
    destruct (IH 255%nat [] ltac:(done) ltac:(lia)) as [H1 H2].
    assert (acc ++ [c] ≠ []) as Hne by (by destruct acc).
    destruct (c =? 10); [split; [intros He; cbn [concat]; rewrite (H1 He), <- app_assoc; done|constructor; [split; [done|lia]|done]]|].
    destruct room as [|[|room]]; [lia| |].
    + split; [intros He; cbn [concat]; rewrite (H1 He), <- app_assoc; done|]. constructor; [split; [done|lia]|done].
    + destruct (IH (S room) (acc ++ [c]) ltac:(lia) ltac:(lia)) as [H3 H4].
      split; [intros He; by rewrite (H3 He), <- app_assoc|done].
Qed.

(** Every directory below can be opened. *)
Fixpoint readable (n : node) : bool :=
  match n with
  | Dir None => false
  | Dir (Some (entries, _)) =>
      (fix go (es : list (list Z * node)) :=
        match es with [] => true | (name, f) :: es => (is_dot name || readable f) && go es end) entries
  | _ => true
  end.

Fixpoint entries_readable (es : list (list Z * node)) : bool :=
  match es with
  | [] => true
  | (name, f) :: es => (is_dot name || readable f) && entries_readable es
  end.

Definition occ (x : list Z) (l : list (list Z)) : Z := Z.of_nat (length (filter (x =.) l)).

Lemma occ_app x l k : occ x (l ++ k) = occ x l + occ x k.
Proof. unfold occ. rewrite filter_app, length_app. lia. Qed.

Lemma occ_queue_snoc own x q w :
  occ x (gather_queue own (q ++ [w])) = occ x (gather_queue own q) + occ x (gather own (path w) (file w)).
Proof. unfold gather_queue. rewrite fmap_app, concat_app, occ_app. cbn. by rewrite app_nil_r. Qed.

Lemma occ_queue_cons own x q w :
  occ x (gather_queue own (w :: q)) = occ x (gather own (path w) (file w)) + occ x (gather_queue own q).
Proof. unfold gather_queue. cbn. apply occ_app. Qed.

(** ** Invariant

    Proved of the routines over the list queue. *)

Abbreviation lsys := (sys (list work_t)).

Definition holding (p : wpc) : bool :=
  match p with WGot _ | WScan _ _ _ | WFinish _ => true | _ => false end.
Definition heading (p : wpc) : bool :=
  match p with WInit | WInitWoken | WTop | WWoken => true | _ => false end.
Definition exited (p : wpc) : bool := match p with WExited => true | _ => false end.
Definition started (m : mpc) : bool :=
  match m with MWaitBlocked | MWaitWoken | MReturned _ => true | _ => false end.

Definition item_ok (p : wpc) : Prop :=
  match p with
  | WGot w => readable (file w) = true
  | WScan _ es _ => entries_readable es = true
  | _ => True
  end.

(** What the item a worker holds still contributes. *)
Definition pend (own : list Z → node → list (list Z)) (x : list Z) (p : wpc) : Z :=
  match p with
  | WGot w => occ x (gather own (path w) (file w))
  | WScan w es _ => occ x (gather_entries own (path w) es)
  | _ => 0
  end.

Section invariant.
Context (filepath : list Z) (root : node) (search : list Z) (Hroot : readable root = true).

(** Nothing is lost or done twice: the whole search is the history plus what
    is queued or held. *)
Definition balance own (hist : list (list Z)) (s : lsys) : Prop :=
  ∀ x, (if started (main s) then occ x (gather own filepath root) else 0) =
    occ x hist + occ x (gather_queue own (queue s)) + total (pend own x) (workers s).

Record inv (s : lsys) : Prop := {
  inv_count : work_count s = zlen (queue s) + count holding (workers s);
  inv_visit : balance visit (processed s) s;
  inv_hit : balance (hit search) (reported s) s;
  inv_queue : Forall (λ w, readable (file w) = true) (queue s);
  inv_items : map_Forall (λ _, item_ok) (workers s);
  inv_wake : 0 < count waits_go (workers s) → zlen (queue s) ≤ count heading (workers s);
  inv_exit : 0 < count exited (workers s) → work_count s = 0 ∧ started (main s) = true;
  inv_idle : started (main s) = false → work_count s = 0;
  inv_blocked : main s = MWaitBlocked → 0 < work_count s;
  inv_return : ∀ st, main s = MReturned st → st = 0 ∧ work_count s = 0
}.

(** A worker moves, possibly extending the histories by what its item loses. *)
Lemma crew_move_inv s t p q pv ph :
  inv s → workers s !! t = Some p → item_ok q →
  holding q = holding p → exited q = exited p →
  (∀ x, pend visit x p = occ x pv + pend visit x q) →
  (∀ x, pend (hit search) x p = occ x ph + pend (hit search) x q) →
  (waits_go q = true → zlen (queue s) = 0) → b2z (heading p) ≤ b2z (heading q) + b2z (waits_go q) →
  inv (Sys (queue s) (work_count s) (main s) (<[t := q]> (workers s))
           (processed s ++ pv) (reported s ++ ph)).
Proof.
  intros [H1 H2 H3 H4 H5 H6 H7 H8 H9 H10] Ht Hok Hh He Hpv Hph Hw Hd.
  pose proof (count_nonneg heading (<[t := q]> (workers s))) as Hn.
  pose proof (b2z_range (heading q)). pose proof (b2z_range (waits_go p)).
  constructor; cbn; try done; rewrite ?(count_insert _ _ _ _ _ Ht), ?Hh, ?He; try (lia || done).
  - intros x. specialize (H2 x). cbn [main queue workers].
    rewrite (total_insert _ _ _ _ _ Ht), occ_app, Hpv. lia.
  - intros x. specialize (H3 x). cbn [main queue workers].
    rewrite (total_insert _ _ _ _ _ Ht), occ_app, Hph. lia.
  - by apply map_Forall_insert_2.
  - rewrite (count_insert _ _ _ _ _ Ht) in Hn. destruct (waits_go q) eqn:E; cbn in *; intros;
      rewrite ?E in *; cbn in *.
    + rewrite Hw by done. lia.
    + assert (0 < count waits_go (workers s)) as Hc by lia. specialize (H6 Hc). lia.
  - intros Hc. apply H7. lia.
Qed.

Lemma crew_set_inv s t p q :
  inv s → workers s !! t = Some p → item_ok q →
  holding q = holding p → exited q = exited p → (∀ own x, pend own x p = pend own x q) →
  (waits_go q = true → zlen (queue s) = 0) → b2z (heading p) ≤ b2z (heading q) + b2z (waits_go q) →
  inv (set_worker s t q).
Proof.
  intros Hinv Ht Hok Hh He Hp Hw Hd. unfold set_worker.
  rewrite <- (app_nil_r (processed s)), <- (app_nil_r (reported s)).
  by apply (crew_move_inv s t p).
Qed.

(** No work outstanding: the queue is empty. *)
Lemma idle_queue s : inv s → work_count s = 0 → zlen (queue s) = 0.
Proof.
  intros [H1 _ _ _ _ _ _ _ _ _] Hw. pose proof (count_nonneg holding (workers s)).
  pose proof (zlen_nonneg (queue s)). lia.
Qed.

Lemma inv_take s t p w q :
  inv s → workers s !! t = Some p → heading p = true → queue s = w :: q →
  inv (Sys q (work_count s) (main s) (<[t := WGot w]> (workers s)) (processed s) (reported s)).
Proof.
  intros [H1 H2 H3 H4 H5 H6 H7 H8 H9 H10] Ht Hp Hq.
  assert (zlen (w :: q) = zlen q + 1) as Hz by (unfold zlen; cbn; lia).
  assert (holding p = false ∧ exited p = false ∧ waits_go p = false ∧ ∀ own x, pend own x p = 0)
    as (Hh&He&Hw&Hpd) by by destruct p.
  rewrite Hq in *. apply Forall_cons in H4 as [Hr H4].
  constructor; cbn; try done; rewrite ?(count_insert _ _ _ _ _ Ht), ?Hh, ?He, ?Hw, ?Hp; cbn; try lia.
  - intros x. specialize (H2 x). rewrite Hq, occ_queue_cons in H2. cbn [main queue workers].
    rewrite (total_insert _ _ _ _ _ Ht), Hpd. cbn [pend]. lia.
  - intros x. specialize (H3 x). rewrite Hq, occ_queue_cons in H3. cbn [main queue workers].
    rewrite (total_insert _ _ _ _ _ Ht), Hpd. cbn [pend]. lia.
  - by apply map_Forall_insert_2.
  - intros Hc. apply H7. lia.
Qed.

(** Queueing an item and signalling keeps enough workers on their way to the queue. *)
Lemma add_wake s picks :
  inv s → signal_choice waits_go (workers s) picks = true →
  let ws := wake unblock picks (workers s) in
  (0 < count waits_go ws → zlen (queue s) + 1 ≤ count heading ws) ∧
  count holding ws = count holding (workers s) ∧ count exited ws = count exited (workers s) ∧
  (∀ own x, total (pend own x) ws = total (pend own x) (workers s)) ∧
  map_Forall (λ _, item_ok) ws.
Proof.
  intros Hinv Hsc ws. split_and!.
  - assert (count waits_go ws + count heading ws = count waits_go (workers s) + count heading (workers s)) as Hs.
    { rewrite <- !(count_split (λ p, waits_go p || heading p)) by by intros [].
      apply count_wake. by intros []. }
    pose proof (count_nonneg waits_go (workers s)). intros Hc.
    destruct (decide (0 < count waits_go (workers s))) as [Hpos|Hz].
    + pose proof (inv_wake _ Hinv Hpos).
      assert (count waits_go ws < count waits_go (workers s)); [|lia].
      apply count_wake_lt; [by intros []|done..].
    + exfalso. assert (count waits_go ws ≤ count waits_go (workers s)); [|lia].
      apply count_update_all_le. intros u p _. case_decide; [by destruct p|done].
  - apply count_wake. by intros [].
  - apply count_wake. by intros [].
  - intros own x. apply total_wake. by intros [].
  - intros u p. unfold ws. rewrite lookup_wake. intros (q&Hq&->)%fmap_Some.
    pose proof (inv_items _ Hinv u q Hq). case_decide; [by destruct q|done].
Qed.

Lemma add_lookup (s : lsys) picks t p :
  signal_choice waits_go (workers s) picks = true → workers s !! t = Some p → waits_go p = false →
  wake unblock picks (workers s) !! t = Some p.
Proof. apply wake_other. Qed.

(** A worker queues the next entry of its directory. *)
Lemma inv_entry s t w name f rest st a picks s' :
  inv s → workers s !! t = Some (WScan w ((name, f) :: rest) st) → is_dot name = false →
  add_work s (Work (join (path w) name) f) a picks = Some s' → inv (set_worker s' t (WScan w rest st)).
Proof.
  intros Hinv Ht Hdot Ha. unfold add_work in Ha. cbn in Ha.
  destruct (signal_choice _ _ _) eqn:Hsc; [|done]. simplify_eq. destruct (add_wake s picks Hinv Hsc) as (Hw&Hch&Hce&Htot&Hit).
  pose proof (add_lookup s picks t _ Hsc Ht eq_refl) as Ht'.
  pose proof Hinv as [H1 H2 H3 H4 H5 H6 H7 H8 H9 H10].
  pose proof (count_ge holding _ _ _ Ht) as Hge. cbn in Hge.
  pose proof (zlen_nonneg (queue s)) as Hzn.
  assert (readable f = true ∧ entries_readable rest = true) as [Hrf Hrr].
  { specialize (H5 t _ Ht). cbn in H5. rewrite Hdot in H5. by apply andb_true_iff in H5. }
  assert (∀ own x, pend own x (WScan w ((name, f) :: rest) st) =
    occ x (gather own (join (path w) name) f) + pend own x (WScan w rest st)) as Hpe.
  { intros own x. cbn [pend gather_entries]. rewrite Hdot. apply occ_app. }
  constructor; cbn; try done; rewrite ?zlen_app, ?(count_insert _ _ _ _ _ Ht'); cbn.
  - rewrite Hch. unfold zlen in *. cbn. lia.
  - intros x. specialize (H2 x). specialize (Hpe visit x). cbn [set_worker main queue workers].
    rewrite (total_insert _ _ _ _ _ Ht'), Htot, occ_queue_snoc. cbn [path file]. lia.
  - intros x. specialize (H3 x). specialize (Hpe (hit search) x). cbn [set_worker main queue workers].
    rewrite (total_insert _ _ _ _ _ Ht'), Htot, occ_queue_snoc. cbn [path file]. lia.
  - apply Forall_app. split; [done|]. by constructor.
  - by apply map_Forall_insert_2.
  - change (zlen [_]) with 1. intros. rewrite Z.sub_0_r, Z.add_0_r. apply Hw. lia.
  - rewrite Hce. intros. destruct H7; lia.
  - intros Hst. specialize (H8 Hst). lia.
  - intros Hm. specialize (H9 Hm). lia.
  - intros st' Hm. destruct (H10 st' Hm). lia.
Qed.

(** A worker examines its item. *)
Lemma inv_examine s t w :
  inv s → workers s !! t = Some (WGot w) → inv (examine search s t w).
Proof.
  intros Hinv Ht. pose proof (inv_items _ Hinv t _ Ht) as Hok. cbn in Hok.
  assert (∀ q rp, holding q = true → item_ok q → exited q = false → waits_go q = false →
    (∀ own x, pend own x (WGot w) = occ x (own (path w) (file w)) + pend own x q) →
    rp = reported s ++ hit search (path w) (file w) →
    inv (Sys (queue s) (work_count s) (main s) (<[t := q]> (workers s))
             (processed s ++ [path w]) rp)) as Hgo.
  { intros q rp Hh Hq He Hw Hp ->. apply (crew_move_inv s t (WGot w)); try done.
    - congruence.
    - cbn. pose proof (b2z_range (heading q)). pose proof (b2z_range (waits_go q)). lia. }
  assert (∀ own x, pend own x (WGot w) = occ x (own (path w) (file w)) +
    occ x (match file w with Dir (Some (es, _)) => gather_entries own (path w) es | _ => [] end)) as Hpe
    by (intros own x; cbn [pend]; by rewrite gather_unfold, occ_app).
  assert (∀ b : bool, reported s ++ (if b then [path w] else []) =
    if b then reported s ++ [path w] else reported s) as Hif by (intros []; by rewrite ?app_nil_r).
  unfold examine, hit in *. unfold search_file. destruct (file w) as [|[[es st]|]|[[c er]|]|] eqn:Ef; try done; unfold set_worker.
  all: try (apply Hgo; [done..|]; by rewrite app_nil_r).
  rewrite Hif in Hgo. rewrite search_pieces_occurs. destruct (existsb _ _); by apply Hgo.
Qed.

(** A worker gives its item up. *)
Lemma inv_finish s t w a picks s' :
  inv s → workers s !! t = Some (WFinish w) → worker_routine search s t a picks (WFinish w) = Some s' →
  inv s'.
Proof.
  intros [H1 H2 H3 H4 H5 H6 H7 H8 H9 H10] Ht Hs. cbn [worker_routine] in Hs.
  pose proof (count_ge holding _ _ _ Ht) as Hge. cbn in Hge. pose proof (zlen_nonneg (queue s)).
  assert (∀ q own x, pend own x q = 0 →
    total (pend own x) (<[t := q]> (workers s)) = total (pend own x) (workers s)) as Htot
    by (intros q own x Hq; rewrite (total_insert _ _ _ _ _ Ht), Hq; cbn; lia).
  assert (started (main s) = true) as Hst.
  { destruct (started (main s)) eqn:E; [done|]. specialize (H8 eq_refl). lia. }
  assert (∀ st, main s ≠ MReturned st) as Hret by (intros st Hm; destruct (H10 st Hm); lia).
  destruct (work_count s - 1 <=? 0) eqn:E; zbool; simplify_eq;
    constructor; cbn; try done; rewrite ?(count_insert _ _ _ _ _ Ht); cbn; try lia.
  all: try (intros x; cbn [main queue workers]; rewrite Htot by done;
    replace (started (unblock_main (main s))) with (started (main s)) by (by destruct (main s));
    first [apply H2|apply H3]).
  all: try (by apply map_Forall_insert_2).
  - intros _. split; [lia|]. by destruct (main s).
  - by destruct (main s).
  - intros st Hm. destruct (main s) as [| | | | |st'] eqn:Em; try done. by destruct (Hret st').
  - intros. congruence.
  - intros st Hm. by destruct (Hret st).
Qed.

(** crew_start. *)
Lemma inv_main s a picks s' :
  inv s → crew_start filepath root s 0 a picks = Some s' → inv s'.
Proof.
  intros Hinv Hs. pose proof Hinv as [H1 H2 H3 H4 H5 H6 H7 H8 H9 H10]. unfold crew_start in Hs.
  pose proof (count_nonneg holding (workers s)). pose proof (zlen_nonneg (queue s)).
  assert ((main s = MStart ∨ main s = MBusyWoken) ∧
    (s1 ← add_work s (Work filepath root) a picks; Some (start_wait s1)) = Some s' ∨
    main s = MWaitWoken ∧ Some (start_wait s) = Some s') as [[Hm Hs']|[Hm [= <-]]].
  { destruct (main s) eqn:Em; try done; auto; specialize (H8 eq_refl); left;
      rewrite H8 in Hs; cbn in Hs; auto. }
  - clear Hs. unfold add_work in Hs'. cbn in Hs'. destruct (signal_choice _ _ _) eqn:Hsc; [|done]. cbn in Hs'.
    assert (started (main s) = false) as Hst by (by destruct Hm as [-> | ->]).
    specialize (H8 Hst). destruct (add_wake s picks Hinv Hsc) as (Hw&Hch&Hce&Htot&Hit).
    assert (queue s = []) as Hq by (apply nil_length_inv; unfold zlen in *; lia).
    unfold start_wait, set_main in Hs'. cbn [work_count queue workers processed reported] in Hs'.
    rewrite H8 in Hs'. change (0 <? 0 + 1) with true in Hs'. cbv iota in Hs'. simplify_eq.
    constructor; cbn; try done; rewrite ?Hq, ?Hch, ?Hce; cbn; try (unfold zlen in *; cbn; lia).
    + intros x. specialize (H2 x). rewrite Hst, Hq in H2. cbn [main queue workers started].
      rewrite Htot, occ_queue_cons. cbn [path file]. lia.
    + intros x. specialize (H3 x). rewrite Hst, Hq in H3. cbn [main queue workers started].
      rewrite Htot, occ_queue_cons. cbn [path file]. lia.
    + by constructor.
    + intros Hc. destruct (H7 Hc) as [_ Hc']. congruence.
  - rewrite Hm in *. unfold start_wait. destruct (0 <? work_count s) eqn:E; zbool; constructor; cbn; try done.
    all: try (intros x; specialize (H2 x); specialize (H3 x); rewrite Hm in H2, H3; done).
    intros st [= <-]. split; [done|]. unfold zlen in *. lia.
Qed.

Lemma crew_calm_inv s ev s' : inv s → calm_step filepath root search s ev = Some s' → inv s'.
Proof.
  intros Hinv Hs. destruct ev as [st a picks|t a picks|t|]; cbn [calm_step step] in Hs.
  - destruct (st =? 0) eqn:E; [|done]. zbool. subst. by eapply inv_main.
  - destruct (workers s !! t) as [p|] eqn:Ht; [|done]. cbn [mbind option_bind] in Hs.
    pose proof (inv_items _ Hinv t _ Ht) as Hok.
    destruct p as [| | | | | |w|w [|[name f] rest] st|w|]; try done; cbn in Hok; cbn -[add_work] in Hs.
    1,2: destruct (work_count s =? 0) eqn:E; zbool; simplify_eq; eapply crew_set_inv; try done;
      intros; by apply idle_queue.
    1,2: destruct (queue s) as [|w q] eqn:Eq; simplify_eq; [|by eapply inv_take];
      eapply crew_set_inv; try done; intros; by rewrite Eq.
    + simplify_eq. by apply inv_examine.
    + simplify_eq. by eapply crew_set_inv.
    + destruct (is_dot name) eqn:Hd.
      * simplify_eq. eapply crew_set_inv; try done.
        intros own x. cbn. by rewrite Hd.
      * destruct (add_work _ _ _ _) as [s1|] eqn:Ea; [|done]. cbn in Hs. simplify_eq. by eapply inv_entry.
    + exact (inv_finish s t w a picks s' Hinv Ht Hs).
  - destruct (workers s !! t) as [p|] eqn:Ht; [|done]. cbn in Hs.
    destruct (waits_go p) eqn:Hw; simplify_eq. by destruct p; try done; eapply crew_set_inv.
  - destruct Hinv as [H1 H2 H3 H4 H5 H6 H7 H8 H9 H10].
    destruct (main s) eqn:Em; try done; simplify_eq; constructor; cbn; try done.
    all: intros x; specialize (H2 x); specialize (H3 x); rewrite Em in H2, H3; done.
Qed.

Lemma crew_inv : inv (crew : lsys).
Proof.
  constructor; try done.
  intros t p. cbn. rewrite !lookup_insert_Some, lookup_singleton_Some. naive_solver.
Qed.

Lemma crew_calm_reachable s : reachable (λ s, s = crew) (calm_step filepath root search) s → inv s.
Proof. apply invariant_reachable; [intros ? ->; apply crew_inv|intros ???; apply crew_calm_inv]. Qed.
End invariant.

(** ** The linked list implements the list *)

Abbreviation cchain := (chain next work).

Record linked (q : crew_q) (l : list (nat * work_t)) : Prop := {
  lk_chain : cchain (hp q) (first q) l;
  lk_nodup : NoDup l.*1;
  lk_last : last q = fst <$> list_last l
}.

Definition queue_rel (q : crew_q) (ws : list work_t) : Prop := ∃ l, linked q l ∧ l.*2 = ws.

Lemma put_linked a w q l :
  linked q l → hp q !! a = None → ∃ q', put_work a w q = Some q' ∧ linked q' (l ++ [(a, w)]).
Proof.
  intros [Hc Hn Hl] Ha. unfold put_work. rewrite decide_True by done.
  assert (a ∉ l.*1) as Hna
    by (intros Hin; destruct (lseg_in_heap _ _ _ _ _ _ _ Hc Hin) as [e He]; congruence).
  destruct l as [|[z dz] l _] using rev_ind.
  - cbn in Hc. rewrite Hc. eexists. split; [done|]. constructor; [|by apply NoDup_singleton|done].
    cbn. split; [done|]. exists (Ele w None). by rewrite lookup_insert_eq.
  - rewrite last_snoc in Hl. rewrite Hl. cbn.
    destruct (first q) as [x|] eqn:Hx; [|by destruct l as [|[b c] l]; destruct Hc].
    assert (∃ e, hp q !! z = Some e ∧ work e = dz) as (e&Hz&Hdz).
    { apply lseg_app in Hc as (r&_&->&e&?&?&_). eauto. }
    assert (a ≠ z) by (intros ->; congruence).
    rewrite lookup_insert_ne, Hz by done. cbn. eexists. split; [done|]. constructor; cbn.
    + apply lseg_app. exists (Some a). split.
      { eapply lseg_snoc_set; [|done|done|by rewrite <- Hdz]. by apply lseg_insert. }
      cbn. split; [done|]. exists (Ele w None). by rewrite lookup_insert_ne, lookup_insert_eq by done.
    + rewrite fmap_app. apply NoDup_app. split; [done|]. split; [|apply NoDup_singleton].
      intros y Hy Hy'. cbn in Hy'. by apply list_elem_of_singleton in Hy' as ->.
    + by rewrite last_snoc.
Qed.

Lemma take_linked q l :
  linked q l →
  match l with
  | [] => take_work q = Some None
  | (_, w) :: l => ∃ q', take_work q = Some (Some (w, q')) ∧ linked q' l
  end.
Proof.
  intros [Hc Hn Hl]. unfold take_work. destruct l as [|[a w] l]; cbn in Hc; [by rewrite Hc|].
  destruct Hc as (->&e&He&<-&Hc). rewrite He. cbn. eexists. split; [done|].
  apply NoDup_cons in Hn as [Hna Hn]. constructor; cbn; [by apply lseg_delete|done|].
  pose proof (chain_head _ _ _ _ _ Hc) as ->. rewrite last_cons in Hl.
  destruct l as [|[b v] l]; [done|]. cbn [head fmap option_fmap option_map]. rewrite Hl.
  destruct (list_last ((b, v) :: l)) eqn:E; [done|]. by apply last_None in E.
Qed.

(** A system with its queue seen as a list. *)
Definition with_queue (c : sys crew_q) (ws : list work_t) : lsys :=
  Sys ws (work_count c) (main c) (workers c) (processed c) (reported c).

Section simulation.
Context (filepath : list Z) (root : node) (search : list Z).

Lemma add_work_simulates c w a picks c' ws :
  queue_rel (queue c) ws → add_work c w a picks = Some c' →
  ∃ ws', queue_rel (queue c') ws' ∧ add_work (with_queue c ws) w a picks = Some (with_queue c' ws').
Proof.
  intros (l&Hl&<-) Ha. unfold add_work in *. cbn in *.
  destruct (decide (hp (queue c) !! a = None)) as [Hf|Hf];
    [|unfold put_work in Ha; rewrite decide_False in Ha by done; done].
  destruct (put_linked a w _ _ Hl Hf) as (q'&Hq&Hl'). rewrite Hq in Ha. cbn in Ha.
  destruct (signal_choice _ _ _) eqn:Hs; simplify_eq. exists (l.*2 ++ [w]). split; [|done].
  eexists. split; [done|]. by rewrite fmap_app.
Qed.

Lemma examine_queue (c : sys crew_q) t w : queue (examine search c t w) = queue c.
Proof. unfold examine. destruct (file w) as [|[[es st]|]|[[k er]|]|]; try done. cbn. by case_match. Qed.

Lemma examine_with_queue c ws t w :
  examine search (with_queue c ws) t w = with_queue (examine search c t w) ws.
Proof. unfold examine. destruct (file w) as [|[[es st]|]|[[k er]|]|]; try done. cbn. by case_match. Qed.

(** Every step of the program is a step over the list queue. *)
Lemma crew_simulates c ev c' ws :
  queue_rel (queue c) ws → calm_step filepath root search c ev = Some c' →
  ∃ ws', queue_rel (queue c') ws' ∧
    calm_step filepath root search (with_queue c ws) ev = Some (with_queue c' ws').
Proof.
  intros Hq Hs. destruct ev as [st a picks|t a picks|t|]; cbn [calm_step step] in *.
  - destruct (st =? 0) eqn:E; [|done]. zbool. subst. unfold crew_start in *. cbn [with_queue main work_count].
    destruct (main c) eqn:Em; try done.
    1,2: destruct (0 <? work_count c); [simplify_eq; exists ws; split; [done|by destruct c]|].
    1,2: cbn -[add_work] in *; destruct (add_work c _ _ _) as [c1|] eqn:Ea; [|done]; cbn in Hs; simplify_eq;
      destruct (add_work_simulates _ _ _ _ _ _ Hq Ea) as (ws'&?&->); by exists ws'.
    simplify_eq. by exists ws.
  - destruct (workers c !! t) as [p|] eqn:Ht; [|done]. cbn [with_queue workers]. rewrite Ht.
    cbn [mbind option_bind] in *.
    destruct p as [| | | | | |w|w [|[name f] rest] st|w|]; try done; cbn -[add_work] in *.
    1,2: simplify_eq; by exists ws.
    1,2: destruct Hq as (l&Hl&<-); pose proof (take_linked _ _ Hl) as Ht'; destruct l as [|[b w] l]; cbn;
      [rewrite Ht' in Hs; cbn in Hs; simplify_eq; exists []; split; [by exists []|done]|].
    1,2: destruct Ht' as (q'&Hq'&Hl'); rewrite Hq' in Hs; cbn in Hs; simplify_eq;
      exists (l.*2); split; [by exists l|done].
    + simplify_eq. exists ws. rewrite examine_with_queue. by rewrite examine_queue.
    + simplify_eq. by exists ws.
    + destruct (is_dot name); [simplify_eq; by exists ws|].
      destruct (add_work c _ _ _) as [c1|] eqn:Ea; [|done]. cbn in Hs. simplify_eq.
      destruct (add_work_simulates _ _ _ _ _ _ Hq Ea) as (ws'&?&->). by exists ws'.
    + destruct (work_count c - 1 <=? 0); simplify_eq; by exists ws.
  - destruct (workers c !! t) as [p|] eqn:Ht; [|done]. cbn [with_queue workers]. rewrite Ht.
    cbn in *. destruct (waits_go p); simplify_eq. by exists ws.
  - cbn [with_queue main]. destruct (main c); simplify_eq; by exists ws.
Qed.
End simulation.

Lemma crew_reachable filepath root search (c : sys crew_q) :
  readable root = true → reachable (λ s, s = crew) (calm_step filepath root search) c →
  ∃ ws, queue_rel (queue c) ws ∧ inv filepath root search (with_queue c ws).
Proof.
  intros Hroot. apply (invariant_reachable _ _
    (λ c, ∃ ws, queue_rel (queue c) ws ∧ inv filepath root search (with_queue c ws))).
  - intros ? ->. exists []. split; [|by apply crew_inv].
    exists []. split; [|done]. constructor; [done|by apply NoDup_nil|done].
  - intros c1 ev c2 (ws&Hq&Hinv) Hs.
    destruct (crew_simulates _ _ _ _ _ _ _ Hq Hs) as (ws'&Hq'&Hs'). exists ws'. split; [done|].
    by eapply crew_calm_inv.
Qed.

(** In a state whose queue is a list, taking and adding follow no dangling pointer. *)
Lemma queue_total q ws : queue_rel q ws →
  is_Some (take_work q) ∧ ∀ a w, hp q !! a = None → is_Some (put_work a w q).
Proof.
  intros (l&Hl&_). split.
  - pose proof (take_linked _ _ Hl) as Ht. destruct l as [|[b w] l]; [by rewrite Ht|].
    by destruct Ht as (q'&->&_).
  - intros a w Ha. by destruct (put_linked a w _ _ Hl Ha) as (q'&->&_).
Qed.

(** When crew_start has returned nothing is left to do. *)
Lemma returned_balance filepath root search own hist ws (c : sys crew_q) :
  inv filepath root search (with_queue c ws) → main c = MReturned 0 →
  balance filepath root own hist (with_queue c ws) →
  ∀ x, occ x hist = occ x (gather own filepath root).
Proof.
  intros Hinv Hm Hb x. destruct Hinv as [H1 _ _ _ _ _ _ _ _ H10]. cbn in *.
  destruct (H10 0 Hm) as [_ Hw].
  pose proof (count_nonneg holding (workers c)). pose proof (zlen_nonneg ws).
  assert (ws = []) as -> by (apply nil_length_inv; unfold zlen in *; lia).
  assert (total (pend own x) (workers c) = 0) as Ht0.
  { apply total_zero. intros t p Ht. assert (count holding (workers c) = 0) as Hz by lia.
    pose proof (count_zero _ _ _ _ Hz Ht). by destruct p. }
  specialize (Hb x). cbn in Hb. rewrite Hm, Ht0 in Hb. cbn in Hb.
  change (occ x []) with 0 in Hb. lia.
Qed.

(** ** Properties *)

(** C25 (functional).  If every directory of the tree can be opened and the signal
    of crew_start succeeds, then in every interleaving of the four workers over
    the linked list the queue's pointers never dangle, no path is examined more
    often than it occurs in the tree, and when crew_start returns it returns 0,
    every path has been examined exactly once, and the paths reported are
    exactly the regular files in one of whose pieces (of fgets) the string is at
    some position before the first NUL.  The tree has what readdir_r and fgets deliver: the entries
    and bytes before an error count, what would come after it does not. *)
Theorem crew_complete filepath root search (s : sys crew_q) :
  readable root = true → reachable (λ s, s = crew) (calm_step filepath root search) s →
  (is_Some (take_work (queue s)) ∧
   ∀ a w, hp (queue s) !! a = None → is_Some (put_work a w (queue s))) ∧
  (∀ x, occ x (processed s) ≤ occ x (gather visit filepath root)) ∧
  (∀ st, main s = MReturned st → st = 0 ∧
     ∀ x, occ x (processed s) = occ x (gather visit filepath root) ∧
          occ x (reported s) = occ x (gather (hit search) filepath root)).
Proof.
  intros Hroot (ws&Hq&Hinv)%(crew_reachable filepath root search); [|done].
  split; [by eapply queue_total|]. split.
  - intros x. pose proof (inv_visit _ _ _ _ Hinv x) as Hb.
    cbn [with_queue main queue workers processed] in Hb.
    assert (0 ≤ total (pend visit x) (workers s))
      by (apply total_nonneg; intros t p _; destruct p; cbn; unfold occ; lia).
    assert (0 ≤ occ x (gather_queue visit ws)) by (unfold occ; lia).
    assert (0 ≤ occ x (gather visit filepath root)) by (unfold occ; lia).
    destruct (started (main s)); lia.
  - intros st Hm. destruct (inv_return _ _ _ _ Hinv st Hm) as [-> _]. split; [done|]. intros x.
    split; eapply returned_balance; eauto; [apply (inv_visit _ _ _ _ Hinv)|apply (inv_hit _ _ _ _ Hinv)].
Qed.

(** A directory that ends in a read error, with a file that contains the string
    and one that contains it only behind a NUL. *)
Definition demo_tree : node :=
  Dir (Some ([([46], Other); ([97], Reg (Some ([120; 121; 10], false)));
              ([98], Reg (Some ([0; 121; 10], false)))], 5)).
Definition demo_run : list event :=
  EMain 0 7 [] :: ((λ a, ERun 0 a []) <$> [0; 0; 0; 0; 1; 7; 0; 0; 0; 0; 0; 0; 0; 0]%nat) ++ [EMain 0 0 []].

Lemma crew_complete_witness :
  ∃ s : sys crew_q, run (calm_step [100] demo_tree [121]) crew demo_run = Some s ∧ main s = MReturned 0 ∧
    reported s = [[100; 47; 97]] ∧
    ∀ x, occ x (processed s) = occ x (gather visit [100] demo_tree).
Proof.
  destruct (run (calm_step [100] demo_tree [121]) (crew : sys crew_q) demo_run) as [s|] eqn:E;
    [|vm_compute in E; discriminate].
  exists s. split; [done|].
  assert (main s = MReturned 0 ∧ reported s = [[100; 47; 97]]) as [Hm Hrep]
    by (vm_compute in E; by simplify_eq).
  split; [done|]. split; [done|].
  destruct (crew_complete [100] demo_tree [121] s) as (_&_&H).
  - reflexivity.
  - eapply run_reachable; [by apply reach_init|exact E].
  - intros x. by destruct (H 0 Hm) as [_ Hx]; destruct (Hx x).
Defined.

(** The set of workers does not shrink. *)
Lemma worker_kept filepath root search (s : sys crew_q) ev s' t :
  step filepath root search s ev = Some s' → is_Some (workers s !! t) → is_Some (workers s' !! t).
Proof.
  intros Hs Ht.
  assert (∀ u q, is_Some (<[u := q]> (workers s) !! t)) as Hins
    by (intros u q; rewrite lookup_insert_is_Some'; auto).
  assert (∀ w a picks s1, add_work s w a picks = Some s1 → is_Some (workers s1 !! t)) as Hadd.
  { unfold add_work. intros w a picks s1 H. destruct (qput a w (queue s)); [|done]. cbn in H.
    destruct (signal_choice _ _ _); simplify_eq. cbn. rewrite lookup_wake, fmap_is_Some. done. }
  destruct ev as [st a picks|u a picks|u|]; cbn [step] in Hs.
  - unfold crew_start in Hs. destruct (main s); try done; repeat case_match; simplify_eq; try done.
    1,3: destruct (add_work _ _ _ _) eqn:E; cbn in Hs; simplify_eq; cbn; eauto.
    1,2: destruct (qput _ _ _); cbn in Hs; simplify_eq; done.
  - destruct (workers s !! u) as [p|]; [|done]. cbn [mbind option_bind] in Hs.
    destruct p as [| | | | | |w|w [|[name f] rest] st|w|]; cbn [worker_routine] in Hs; simplify_eq; cbn; auto.
    1,2: destruct (qtake (queue s)) as [[[w q]|]|]; cbn in Hs; simplify_eq; cbn; auto.
    + unfold examine. destruct (file w) as [|[[es st]|]|[[c er]|]|]; cbn; auto.
      by destruct (search_file c er search); cbn.
    + destruct (is_dot name); simplify_eq; cbn; auto.
      destruct (add_work _ _ _ _) as [s1|] eqn:E; cbn in Hs; simplify_eq. cbn.
      rewrite lookup_insert_is_Some'. right. by eapply Hadd.
    + destruct (_ <=? 0); simplify_eq; cbn; auto.
  - destruct (workers s !! u) as [p|]; [|done]. cbn in Hs. destruct (waits_go p); simplify_eq. cbn. auto.
  - destruct (main s); simplify_eq; done.
Qed.

(** A worker that is neither blocked nor gone can run. *)
Lemma worker_runs filepath root search (s : sys crew_q) ws t p :
  queue_rel (queue s) ws → workers s !! t = Some p → heading p || holding p = true →
  ∃ a picks s', step filepath root search s (ERun t a picks) = Some s'.
Proof.
  intros [[r Hr] Hput]%queue_total Ht Hp.
  destruct (signal_choice_exists waits_go (workers s)) as [picks Hc].
  set (a := fresh (dom (hp (queue s)))).
  assert (hp (queue s) !! a = None) as Ha by (apply not_elem_of_dom, is_fresh).
  exists a, picks. cbn [step]. rewrite Ht. cbn [mbind option_bind].
  destruct p as [| | | | | |w|w [|[name f] rest] st|w|]; try done; cbn [worker_routine]; eauto.
  1,2: cbn; rewrite Hr; cbn; by destruct r as [[w q]|]; eauto.
  - destruct (is_dot name); [eauto|]. destruct (Hput a (Work (join (path w) name) f) Ha) as [q Hq].
    unfold add_work. cbn. rewrite Hq. cbn. rewrite Hc. cbn. eauto.
  - cbv zeta. case_match; eauto.
Qed.

(** If every directory can be opened the search never deadlocks:
    while crew_start waits for the crew to finish, some worker can run. *)
Theorem crew_progress filepath root search (s : sys crew_q) :
  readable root = true → reachable (λ s, s = crew) (calm_step filepath root search) s →
  main s = MWaitBlocked →
  ∃ t a picks s', calm_step filepath root search s (ERun t a picks) = Some s'.
Proof.
  intros Hroot Hr Hm. destruct (crew_reachable filepath root search s Hroot Hr) as (ws&Hq&Hinv).
  assert (is_Some (workers s !! 0%nat)) as [p Hp].
  { revert Hr. apply (invariant_reachable _ _ (λ s, is_Some (workers s !! 0%nat))); [by intros ? ->|].
    intros s0 ev s1 H0 Hs. assert (step filepath root search s0 ev = Some s1) as Hst
      by (destruct ev; cbn in Hs; cases; done).
    by eapply worker_kept. }
  pose proof Hinv as [H1 _ _ _ _ H6 H7 _ H9 _]. cbn in *. specialize (H9 Hm).
  pose proof (zlen_nonneg ws).
  assert (∃ t q, workers s !! t = Some q ∧ heading q || holding q = true) as (t&q&Ht&Hh).
  { destruct (decide (0 < count holding (workers s))) as [Hc|Hc].
    - apply count_pos in Hc as (t&q&?&Hh). exists t, q. by rewrite Hh, orb_true_r.
    - destruct (heading p || holding p) eqn:E; [eauto|].
      destruct (waits_go p) eqn:Ew.
      + assert (0 < count waits_go (workers s)) as Hw by (apply count_pos; eauto). specialize (H6 Hw).
        assert (0 < count heading (workers s)) as Hh by lia.
        apply count_pos in Hh as (t&q&?&Hh). exists t, q. by rewrite Hh.
      + assert (0 < count exited (workers s)) as He
          by (apply count_pos; exists 0%nat, p; split; [done|by destruct p]).
        destruct (H7 He). lia. }
  destruct (worker_runs filepath root search s ws t q Hq Ht Hh) as (a&picks&s'&Hs). exists t, a, picks, s'.
  exact Hs.
Qed.

Lemma crew_progress_witness :
  ∃ s : sys crew_q, run (calm_step [100] demo_tree [121]) crew [EMain 0 0 []] = Some s ∧
    ∃ t a picks s', calm_step [100] demo_tree [121] s (ERun t a picks) = Some s'.
Proof.
  destruct (run (calm_step [100] demo_tree [121]) (crew : sys crew_q) [EMain 0 0 []]) as [s|] eqn:E;
    [|vm_compute in E; discriminate].
  exists s. split; [done|]. apply crew_progress.
  - reflexivity.
  - eapply run_reachable; [by apply reach_init|exact E].
  - vm_compute in E. by simplify_eq.
Defined.

(** A directory that cannot be opened is skipped without counting its item off:
    every worker ends up waiting for work and crew_start never returns. *)
Lemma crew_opendir_hangs :
  run (calm_step [100] (Dir None) [121]) crew
    (EMain 0 0 [] :: ((λ t, ERun t 0 []) <$> [0; 0; 0; 0; 1; 1; 2; 2; 3; 3]%nat)) =
  Some (Sys (CrewQ None None ∅) 1 MWaitBlocked
    {[ 0%nat := WBlocked; 1%nat := WBlocked; 2%nat := WBlocked; 3%nat := WBlocked ]} [[100]] []).
Proof. vm_compute. reflexivity. Qed.

(** crew_create starts CREW_SIZE threads whatever size is asked for. *)
Lemma crew_create_ignores_size n : n ≤ 4 → crew_create n 0 0 0 = (0, 4%nat).
Proof.
  intros. unfold crew_create. rewrite (proj2 (Z.ltb_ge _ _)) by (unfold CREW_SIZE; lia). done.
Qed.
End Crew.
