(* ===== verification/UsbSkeleton.v ===== *)
(** * USB skeleton driver

    Models kernel_module/skeleton/usb/usb_skeleton.c: one device with its
    bulk-in buffer, the semaphore that limits writes in flight, the error
    status shared by both directions, reference counting and disconnect.  Calls
    run as steps: a read between its sleeps, a write between its locks, a
    disconnect between its four actions.  Outcomes of the USB core (allocation,
    submission, completion) and of copying to user space are part of the events. *)

From S2P Require Import Prelude Pthread.

Module UsbSkeleton.

Definition PAGE_SIZE : Z := 4096.
Definition MAX_TRANSFER : Z := PAGE_SIZE - 512.
Definition WRITES_IN_FLIGHT : Z := 8.

Record usb_skel := Skel {
  interface : bool;            (** not NULL *)
  limit_sem : Z;
  submitted : list nat;        (** anchored write URBs *)
  bulk_in_len : Z;             (** transfer length of the bulk-in URB *)
  bulk_in_buffer : list Z;
  bulk_in_size : Z;
  bulk_in_filled : Z;
  bulk_in_copied : Z;
  errors : Z;
  ongoing_read : bool;
  kref : Z
}.

Definition set_errors (e : Z) (d : usb_skel) : usb_skel :=
  Skel (interface d) (limit_sem d) (submitted d) (bulk_in_len d) (bulk_in_buffer d) (bulk_in_size d)
       (bulk_in_filled d) (bulk_in_copied d) e (ongoing_read d) (kref d).
Definition set_ongoing (b : bool) (d : usb_skel) : usb_skel :=
  Skel (interface d) (limit_sem d) (submitted d) (bulk_in_len d) (bulk_in_buffer d) (bulk_in_size d)
       (bulk_in_filled d) (bulk_in_copied d) (errors d) b (kref d).
Definition set_writes (sem : Z) (urbs : list nat) (d : usb_skel) : usb_skel :=
  Skel (interface d) sem urbs (bulk_in_len d) (bulk_in_buffer d) (bulk_in_size d)
       (bulk_in_filled d) (bulk_in_copied d) (errors d) (ongoing_read d) (kref d).
Definition set_copied (n : Z) (d : usb_skel) : usb_skel :=
  Skel (interface d) (limit_sem d) (submitted d) (bulk_in_len d) (bulk_in_buffer d) (bulk_in_size d)
       (bulk_in_filled d) n (errors d) (ongoing_read d) (kref d).
Definition set_filled (buf : list Z) (n : Z) (d : usb_skel) : usb_skel :=
  Skel (interface d) (limit_sem d) (submitted d) (bulk_in_len d) buf (bulk_in_size d)
       n (bulk_in_copied d) (errors d) (ongoing_read d) (kref d).
Definition set_interface (b : bool) (d : usb_skel) : usb_skel :=
  Skel b (limit_sem d) (submitted d) (bulk_in_len d) (bulk_in_buffer d) (bulk_in_size d)
       (bulk_in_filled d) (bulk_in_copied d) (errors d) (ongoing_read d) (kref d).
Definition set_kref (n : Z) (d : usb_skel) : usb_skel :=
  Skel (interface d) (limit_sem d) (submitted d) (bulk_in_len d) (bulk_in_buffer d) (bulk_in_size d)
       (bulk_in_filled d) (bulk_in_copied d) (errors d) (ongoing_read d) n.

(** The error a call reports for a recorded status. *)
Definition report (status : Z) : Z := if status =? - EPIPE then status else - EIO.

(** ** Reading *)

(** [rv]: what usb_submit_urb returns. *)
Definition skel_do_read_io (count rv : Z) (d : usb_skel) : Z * usb_skel :=
  let d := Skel (interface d) (limit_sem d) (submitted d) (Z.min (bulk_in_size d) count)
                (bulk_in_buffer d) (bulk_in_size d) 0 0 (errors d) true (kref d) in
  if rv <? 0 then (if rv =? - ENOMEM then rv else - EIO, set_ongoing false d) else (rv, d).

(** Unlink statuses are not logged; logging needs the interface. *)
Definition unlink_status (st : Z) : bool :=
  (st =? - ENOENT) || (st =? - ECONNRESET) || (st =? - ESHUTDOWN).
Definition logs (st : Z) : bool := negb (st =? 0) && negb (unlink_status st).

(** Completion of the bulk-in URB with [status] and [data] in its buffer. *)
Definition skel_read_bulk_callback (status : Z) (data : list Z) (d : usb_skel) : usb_skel :=
  let d := set_filled (splice 0 data (bulk_in_buffer d)) (bulk_in_filled d) d in
  let d := if negb (status =? 0) then set_errors status d
           else set_filled (bulk_in_buffer d) (zlen data) d in
  set_ongoing false d.

(** skel_read from [retry] to its next sleep or its return.  [submits] holds the
    results of the usb_submit_urb calls it makes, [copy_ok] that of
    copy_to_user. *)
Inductive read_result := Sleep | Return (rv : Z) (out : list Z).

Fixpoint skel_read_retry (fuel : nat) (nonblock : bool) (count : Z) (copy_ok : bool)
    (submits : list Z) (d : usb_skel) : option (usb_skel * read_result) :=
  match fuel with
  | O => None
  | S fuel =>
      if ongoing_read d then
        Some (d, if nonblock then Return (- EAGAIN) [] else Sleep)
      else if errors d <? 0 then
        Some (set_errors 0 d, Return (report (errors d)) [])
      else
        let start (k : usb_skel → option (usb_skel * read_result)) :=
          let '(rv, d) := skel_do_read_io count (default 0 (head submits)) d in
          if rv <? 0 then Some (d, Return rv []) else k d in
        if negb (bulk_in_filled d =? 0) then
          let available := bulk_in_filled d - bulk_in_copied d in
          let chunk := Z.min available count in
          if available =? 0 then
            start (skel_read_retry fuel nonblock count copy_ok (tail submits))
          else
            bytes ← load (bulk_in_copied d) chunk (bulk_in_buffer d);
            let d := set_copied (bulk_in_copied d + chunk) d in
            let d := if available <? count
                     then (skel_do_read_io (count - chunk) (default 0 (head submits)) d).2 else d in
            Some (d, if copy_ok then Return chunk bytes else Return (- EFAULT) [])
        else start (skel_read_retry fuel nonblock count copy_ok (tail submits))
  end.

(** ** Writing *)

Definition skel_write_bulk_callback (urb : nat) (status : Z) (d : usb_skel) : usb_skel :=
  let d := if negb (status =? 0) then set_errors status d else d in
  set_writes (limit_sem d + 1) (filter (.≠ urb) (submitted d)) d.

(** Where a write is. *)
Inductive wpc :=
| WHasSem (count : Z)                     (** limit_sem taken *)
| WChecked (count : Z)                    (** no error pending *)
| WFailed (rv : Z)                        (** submission failed, io_mutex released *)
| WReturned (rv : Z).

(** ** Tear-down of transfers *)

(** usb_kill_anchored_urbs: every write URB completes with -ENOENT. *)
Fixpoint kill_urbs (urbs : list nat) (d : usb_skel) : usb_skel :=
  match urbs with
  | [] => d
  | u :: urbs => kill_urbs urbs (skel_write_bulk_callback u (- ENOENT) d)
  end.

(** usb_wait_anchor_empty_timeout, then kill what is left; usb_kill_urb of the
    bulk-in URB. *)
Definition skel_draw_down (d : usb_skel) : usb_skel :=
  let d := kill_urbs (submitted d) d in
  if ongoing_read d then skel_read_bulk_callback (- ENOENT) [] d else d.

(** ** The device and the calls in progress *)

Record reader := Reader { r_count : Z; r_nonblock : bool; r_asleep : bool }.

(** [stage]: how far skel_disconnect is (0: not called, 4: returned). *)
Record sys := Sys {
  dev : usb_skel;
  freed : bool;                  (** skel_delete has run *)
  oops : bool;                   (** dev->interface was used while NULL *)
  files : Z;                     (** open files *)
  stage : nat;
  resetting : bool;              (** io_mutex held by pre_reset *)
  reading : option reader;       (** the read that holds io_mutex *)
  writers : gmap nat wpc;
  received : list Z;             (** history: data of successful bulk-in transfers *)
  delivered : list Z             (** history: data handed to readers *)
}.

Inductive event :=
| EOpen (autopm : Z)
| ERelease
| EFlush
| EReadCall (count : Z) (nonblock signal : bool)
| EReadRun (signal copy_ok : bool) (submits : list Z)
| EReadComplete (status : Z) (data : list Z)
| EWriteCall (t : nat) (count : Z) (nonblock signal : bool)
| EWriteRun (t : nat) (urb_ok buf_ok copy_ok : bool) (rv : Z) (urb : nat)
| EWriteComplete (urb : nat) (status : Z)
| EDisconnect
| EPreReset | EPostReset | ESuspend.

Definition with_dev (s : sys) (d : usb_skel) : sys :=
  Sys d (freed s) (oops s) (files s) (stage s) (resetting s) (reading s) (writers s)
      (received s) (delivered s).
Definition with_oops (s : sys) (b : bool) : sys :=
  Sys (dev s) (freed s) (oops s || b) (files s) (stage s) (resetting s) (reading s) (writers s)
      (received s) (delivered s).
Definition with_writer (s : sys) (t : nat) (p : wpc) : sys :=
  Sys (dev s) (freed s) (oops s) (files s) (stage s) (resetting s) (reading s)
      (<[t := p]> (writers s)) (received s) (delivered s).
Definition with_reading (s : sys) (r : option reader) : sys :=
  Sys (dev s) (freed s) (oops s) (files s) (stage s) (resetting s) r (writers s)
      (received s) (delivered s).

(** kref_put (&dev->kref, skel_delete) *)
Definition put (s : sys) : sys :=
  let n := kref (dev s) - 1 in
  Sys (set_kref n (dev s)) (freed s || (n =? 0)) (oops s) (files s) (stage s) (resetting s)
      (reading s) (writers s) (received s) (delivered s).

Definition io_mutex_free (s : sys) : bool :=
  negb (resetting s) && match reading s with None => true | Some _ => false end.

Definition writing (p : wpc) : bool := match p with WReturned _ => false | _ => true end.

(** Calls of file operations in progress keep their file open. *)
Definition busy (s : sys) : bool :=
  match reading s with Some _ => true | None => 0 <? count writing (writers s) end.

Definition skel_open (autopm : Z) (s : sys) : Z * sys :=
  if negb (stage s =? 0)%nat then (- ENODEV, s) else
  if negb (autopm =? 0) then (autopm, s) else
  let s := with_dev s (set_kref (kref (dev s) + 1) (dev s)) in
  (0, Sys (dev s) (freed s) (oops s) (files s + 1) (stage s) (resetting s) (reading s) (writers s)
          (received s) (delivered s)).

Definition skel_release (s : sys) : sys :=
  put (Sys (dev s) (freed s) (oops s) (files s - 1) (stage s) (resetting s) (reading s) (writers s)
           (received s) (delivered s)).

Definition skel_flush (s : sys) : Z * sys :=
  let d := skel_draw_down (dev s) in
  (if errors d =? 0 then 0 else report (errors d), with_dev s (set_errors 0 d)).

(** skel_read up to [retry]: the value it returns, if it returns there.
    [signal]: mutex_lock_interruptible was interrupted. *)
Definition skel_read (count : Z) (nonblock signal : bool) (s : sys) : option Z * sys :=
  if count =? 0 then (Some 0, s) else
  if signal then (Some (- EINTR), s) else
  if negb (interface (dev s)) then (Some (- ENODEV), s)
  else (None, with_reading s (Some (Reader count nonblock false))).

(** The rest of skel_read, up to a sleep or to its return; two rounds are enough
    (see [read_retry_total]). *)
Definition read_run (r : reader) (signal copy_ok : bool) (submits : list Z) (s : sys)
    : option (option Z * sys) :=
  if r_asleep r && ongoing_read (dev s) then
    if signal then Some (Some (- ERESTARTSYS), with_reading s None) else None
  else
  '(d, res) ← skel_read_retry 2 (r_nonblock r) (r_count r) copy_ok submits (dev s);
  Some match res with
  | Sleep => (None, with_reading (with_dev s d) (Some (Reader (r_count r) (r_nonblock r) true)))
  | Return rv out =>
      (Some rv, Sys d (freed s) (oops s) (files s) (stage s) (resetting s) None (writers s)
                    (received s) (delivered s ++ out))
  end.

(** skel_write up to the semaphore. *)
Definition skel_write (t : nat) (count : Z) (nonblock signal : bool) (s : sys) : option sys :=
  if count =? 0 then Some (with_writer s t (WReturned 0)) else
  if 0 <? limit_sem (dev s) then
    Some (with_writer (with_dev s (set_writes (limit_sem (dev s) - 1) (submitted (dev s)) (dev s)))
                      t (WHasSem count))
  else if nonblock then Some (with_writer s t (WReturned (- EAGAIN)))
  else if signal then Some (with_writer s t (WReturned (- ERESTARTSYS)))
  else None.

(** [error:] ... [up (&dev->limit_sem)] *)
Definition write_error (t : nat) (rv : Z) (s : sys) : sys :=
  with_writer (with_dev s (set_writes (limit_sem (dev s) + 1) (submitted (dev s)) (dev s)))
              t (WReturned rv).

Definition write_run (t : nat) (p : wpc) (urb_ok buf_ok copy_ok : bool) (rv : Z) (urb : nat) (s : sys)
    : option sys :=
  match p with
  | WHasSem count =>
      if errors (dev s) <? 0 then
        Some (write_error t (report (errors (dev s))) (with_dev s (set_errors 0 (dev s))))
      else Some (with_writer s t (WChecked count))
  | WChecked count =>
      let writesize := Z.min count MAX_TRANSFER in
      if negb urb_ok then Some (write_error t (- ENOMEM) s) else
      if negb buf_ok then Some (write_error t (- ENOMEM) s) else
      if negb copy_ok then Some (write_error t (- EFAULT) s) else
      if negb (io_mutex_free s) then None else
      if negb (interface (dev s)) then Some (write_error t (- ENODEV) s) else
      if negb (rv =? 0) then Some (with_writer s t (WFailed rv)) else
      if decide (urb ∈ submitted (dev s)) then None else
      Some (with_writer (with_dev s (set_writes (limit_sem (dev s)) (urb :: submitted (dev s)) (dev s)))
                        t (WReturned writesize))
  | WFailed rv => Some (write_error t rv (with_oops s (negb (interface (dev s)))))
  | WReturned _ => None
  end.

(** The four actions of skel_disconnect. *)
Definition skel_disconnect (s : sys) : option sys :=
  let next (s : sys) := Sys (dev s) (freed s) (oops s) (files s) (S (stage s)) (resetting s)
    (reading s) (writers s) (received s) (delivered s) in
  match stage s with
  | 0%nat => Some (next s)                                    (* intfdata, minor *)
  | 1%nat => if io_mutex_free s then Some (next (with_dev s (set_interface false (dev s)))) else None
  | 2%nat => Some (next (with_dev s (kill_urbs (submitted (dev s)) (dev s))))
  | 3%nat => Some (next (put s))
  | _ => None
  end.

Definition step (s : sys) (ev : event) : option sys :=
  match ev with
  | EOpen autopm => Some (skel_open autopm s).2
  | ERelease =>
      if (0 <? files s) && (negb (busy s) || (1 <? files s)) && io_mutex_free s
      then Some (skel_release s) else None
  | EFlush => if (0 <? files s) && io_mutex_free s then Some (skel_flush s).2 else None
  | EReadCall count nonblock signal =>
      if (0 <? files s) && io_mutex_free s && (0 <=? count) then Some (skel_read count nonblock signal s).2
      else None
  | EReadRun signal copy_ok submits =>
      r ← reading s; snd <$> read_run r signal copy_ok submits s
  | EReadComplete status data =>
      if ongoing_read (dev s) && (zlen data <=? bulk_in_len (dev s)) then
        let s := with_oops s (logs status && negb (interface (dev s))) in
        Some (Sys (skel_read_bulk_callback status data (dev s)) (freed s) (oops s) (files s) (stage s)
                  (resetting s) (reading s) (writers s)
                  (received s ++ (if status =? 0 then data else [])) (delivered s))
      else None
  | EWriteCall t count nonblock signal =>
      match writers s !! t with
      | None | Some (WReturned _) =>
          if (0 <? files s) && (0 <=? count) then skel_write t count nonblock signal s else None
      | _ => None
      end
  | EWriteRun t urb_ok buf_ok copy_ok rv urb =>
      p ← writers s !! t; write_run t p urb_ok buf_ok copy_ok rv urb s
  | EWriteComplete urb status =>
      if decide (urb ∈ submitted (dev s)) then
        Some (with_dev (with_oops s (logs status && negb (interface (dev s))))
                       (skel_write_bulk_callback urb status (dev s)))
      else None
  | EDisconnect => skel_disconnect s
  | EPreReset =>
      if (stage s =? 0)%nat && io_mutex_free s then
        let s := with_dev s (skel_draw_down (dev s)) in
        Some (Sys (dev s) (freed s) (oops s) (files s) (stage s) true (reading s) (writers s)
                  (received s) (delivered s))
      else None
  | EPostReset =>
      if resetting s then
        let s := with_dev s (set_errors (- EPIPE) (dev s)) in
        Some (Sys (dev s) (freed s) (oops s) (files s) (stage s) false (reading s) (writers s)
                  (received s) (delivered s))
      else None
  | ESuspend =>
      if (stage s =? 0)%nat then Some (with_dev s (skel_draw_down (dev s))) else Some s
  end.

(** ** skel_probe

    Endpoints as (bulk-in?, bulk-out?, address, packet size); the outcomes of
    the allocations and of usb_register_dev.  The list holds what is still
    allocated on return. *)

Inductive alloc := ADev | AUdev | ABuffer | AUrb.
#[export] Instance alloc_eq_dec : EqDecision alloc.
Proof. solve_decision. Defined.

Record endpoint := Ep { bulk_in : bool; bulk_out : bool; addr : Z; maxp : Z }.

(** The endpoint loop; [None] when an allocation fails. *)
Fixpoint find_endpoints (buf_ok urb_ok : bool) (eps : list endpoint) (inA outA size : Z)
    (res : list alloc) : (Z * Z * Z * list alloc) * bool :=
  match eps with
  | [] => ((inA, outA, size, res), true)
  | ep :: eps =>
      let outA' := if (outA =? 0) && bulk_out ep then addr ep else outA in
      if (inA =? 0) && bulk_in ep then
        if negb buf_ok then ((addr ep, outA, maxp ep, res), false) else
        if negb urb_ok then ((addr ep, outA, maxp ep, ABuffer :: res), false) else
        find_endpoints buf_ok urb_ok eps (addr ep) outA' (maxp ep) (AUrb :: ABuffer :: res)
      else find_endpoints buf_ok urb_ok eps inA outA' size res
  end.

(** kref_put of the only reference: skel_delete frees whatever was allocated. *)
Definition skel_delete (res : list alloc) : list alloc :=
  filter (λ a, a ∉ [AUrb; AUdev; ABuffer; ADev]) res.

Definition skel_probe (dev_ok buf_ok urb_ok : bool) (register : Z) (eps : list endpoint)
    : Z * list alloc * Z :=
  if negb dev_ok then (- ENOMEM, [], 0) else
  let res := [AUdev; ADev] in
  let '((inA, outA, size, res), ok) := find_endpoints buf_ok urb_ok eps 0 0 0 res in
  if negb ok then (- ENOMEM, skel_delete res, 0) else
  if (inA =? 0) || (outA =? 0) then (- ENOMEM, skel_delete res, 0) else
  if negb (register =? 0) then (register, skel_delete res, 0)
  else (0, res, size).

(** A probed device with a bulk-in buffer of [size] bytes. *)
Definition probed (size : Z) : sys :=
  Sys (Skel true WRITES_IN_FLIGHT [] 0 (zeros size) size 0 0 0 false 1)
      false false 0 0 false None ∅ [] [].

(** ** The two directions

    Reads leave the write side of the device alone and conversely; both share
    [errors]. *)

Definition wside (d : usb_skel) := (interface d, limit_sem d, submitted d, kref d).
Definition rside (d : usb_skel) :=
  (interface d, bulk_in_len d, bulk_in_buffer d, bulk_in_size d, bulk_in_filled d, bulk_in_copied d,
   ongoing_read d, kref d).

Lemma do_read_io_wside n rv d : wside (skel_do_read_io n rv d).2 = wside d.
Proof. unfold skel_do_read_io. by case_match. Qed.

Lemma read_callback_wside st data d : wside (skel_read_bulk_callback st data d) = wside d.
Proof. unfold skel_read_bulk_callback. by case_match. Qed.

Lemma write_callback_rside u st d : rside (skel_write_bulk_callback u st d) = rside d.
Proof. unfold skel_write_bulk_callback. by case_match. Qed.

Lemma kill_urbs_rside urbs : ∀ d, rside (kill_urbs urbs d) = rside d.
Proof. induction urbs as [|u urbs IH]; intros d; cbn; [done|]. by rewrite IH, write_callback_rside. Qed.

Lemma read_retry_wside fuel nb n ok subs d d' res :
  skel_read_retry fuel nb n ok subs d = Some (d', res) → wside d' = wside d.
Proof.
  revert subs d. induction fuel as [|fuel IH]; cbn; intros subs d H; [done|].
  pose proof (do_read_io_wside n (default 0 (head subs)) d) as Hio.
  destruct (skel_do_read_io n (default 0 (head subs)) d) as [rv d1]. cbn in Hio.
  destruct (ongoing_read d); [by simplify_eq|]. destruct (errors d <? 0); [by simplify_eq|].
  destruct (bulk_in_filled d =? 0); cbn in H; [|destruct (_ =? 0)].
  - destruct (rv <? 0); [by injection H as <- <-|]. by rewrite (IH _ _ H).
  - destruct (rv <? 0); [by injection H as <- <-|]. by rewrite (IH _ _ H).
  - destruct (load _ _ _); [|done]. cbn in H. simplify_eq.
    destruct (_ <? n); [|done]. by rewrite do_read_io_wside.
Qed.

(** ** Writes in flight *)

(** Every write that passed the semaphore and every URB in flight has one unit. *)
Record write_inv (d : usb_skel) (ws : gmap nat wpc) : Prop := {
  wi_sum : limit_sem d + count writing ws + zlen (submitted d) = WRITES_IN_FLIGHT;
  wi_sem : 0 ≤ limit_sem d;
  wi_nodup : NoDup (submitted d)
}.

Lemma write_inv_side d d' ws : wside d' = wside d → write_inv d ws → write_inv d' ws.
Proof. intros [= _ Hl Hs _] [H1 H2 H3]. constructor; by rewrite ?Hl, ?Hs. Qed.

Lemma filter_ne_id (u : nat) (l : list nat) : u ∉ l → filter (.≠ u) l = l.
Proof.
  induction l as [|w l IH]; [done|]. intros Hu. rewrite filter_cons, decide_True by set_solver.
  by rewrite IH by set_solver.
Qed.

Lemma filter_ne_length (u : nat) (l : list nat) : NoDup l → u ∈ l → zlen (filter (.≠ u) l) = zlen l - 1.
Proof.
  unfold zlen. induction 1 as [|v l Hv Hl IH]; [by intros ?%elem_of_nil|].
  rewrite filter_cons. intros [->|Hu]%elem_of_cons.
  - rewrite decide_False, filter_ne_id by naive_solver. cbn. lia.
  - rewrite decide_True by (intros ->; done). cbn. specialize (IH Hu). lia.
Qed.

Lemma write_callback_parts u st d :
  limit_sem (skel_write_bulk_callback u st d) = limit_sem d + 1 ∧
  submitted (skel_write_bulk_callback u st d) = filter (.≠ u) (submitted d).
Proof. unfold skel_write_bulk_callback. by destruct (st =? 0). Qed.

Lemma write_callback_inv u st d ws :
  write_inv d ws → u ∈ submitted d → write_inv (skel_write_bulk_callback u st d) ws.
Proof.
  intros [H1 H2 H3] Hu. destruct (write_callback_parts u st d) as [Hl Hs].
  constructor; rewrite ?Hl, ?Hs; [rewrite filter_ne_length by done; lia|lia|].
  by apply NoDup_filter.
Qed.

Lemma kill_urbs_parts urbs : ∀ d ws,
  write_inv d ws → submitted d = urbs →
  write_inv (kill_urbs urbs d) ws ∧ submitted (kill_urbs urbs d) = [].
Proof.
  induction urbs as [|u urbs IH]; intros d ws Hinv Hs; cbn [kill_urbs]; [done|].
  apply IH; [apply write_callback_inv; [done|rewrite Hs; set_solver]|].
  destruct (write_callback_parts u (- ENOENT) d) as [_ ->]. rewrite Hs.
  destruct Hinv as [_ _ Hnd]. rewrite Hs in Hnd. apply NoDup_cons in Hnd as [Hu _].
  by rewrite filter_cons, decide_False, filter_ne_id by naive_solver.
Qed.

Lemma draw_down_inv d ws :
  write_inv d ws → write_inv (skel_draw_down d) ws ∧ submitted (skel_draw_down d) = [].
Proof.
  intros Hinv. destruct (kill_urbs_parts (submitted d) d ws Hinv eq_refl) as [Hk Hs].
  unfold skel_draw_down. case_match; [|done]. split; [|exact Hs].
  by eapply write_inv_side; [apply read_callback_wside|].
Qed.

Lemma count_writer ws t p q :
  ws !! t = Some p → count writing (<[t := q]> ws) = count writing ws - b2z (writing p) + b2z (writing q).
Proof. apply count_insert. Qed.

(** A writer without a unit starts or stops: [t] is new or has returned. *)
Lemma count_new_writer ws t q :
  (∀ p, ws !! t = Some p → writing p = false) →
  count writing (<[t := q]> ws) = count writing ws + b2z (writing q).
Proof.
  intros Ht. destruct (ws !! t) as [p|] eqn:E.
  - rewrite (count_insert _ _ _ _ _ E), Ht by done. cbn. lia.
  - by apply count_insert_new.
Qed.

Lemma write_run_inv s t p a b c rv u s' :
  write_inv (dev s) (writers s) → writers s !! t = Some p → write_run t p a b c rv u s = Some s' →
  write_inv (dev s') (writers s').
Proof.
  intros [H1 H2 H3] Ht Hs.
  assert (∀ x s0, writing p = true → writers s0 = writers s → limit_sem (dev s0) = limit_sem (dev s) →
    submitted (dev s0) = submitted (dev s) →
    write_inv (dev (write_error t x s0)) (writers (write_error t x s0))) as Herr.
  { intros x s0 Hp Hw Hl Hsub. constructor; cbn; rewrite ?Hw, ?Hl, ?Hsub, ?(count_writer _ _ _ _ Ht), ?Hp;
      cbn; (lia || done). }
  destruct p as [n|n|r|r]; cbn in Hs; try done; repeat case_match; simplify_eq;
    try (by apply Herr); constructor; cbn; rewrite ?(count_writer _ _ _ _ Ht); cbn; try (lia || done).
  - assert (zlen (u :: submitted (dev s)) = zlen (submitted (dev s)) + 1) as -> by (unfold zlen; cbn; lia).
    lia.
  - by constructor.
Qed.

Lemma skel_write_inv t n nb sig s s' :
  (∀ p, writers s !! t = Some p → writing p = false) →
  write_inv (dev s) (writers s) → skel_write t n nb sig s = Some s' →
  write_inv (dev s') (writers s').
Proof.
  intros Ht [H1 H2 H3] Hs. unfold skel_write in Hs. repeat case_match; simplify_eq;
    constructor; cbn; rewrite ?count_new_writer by done; cbn; try (lia || done).
Qed.

Lemma read_run_wside r sig ok subs s rv s' :
  read_run r sig ok subs s = Some (rv, s') →
  wside (dev s') = wside (dev s) ∧ writers s' = writers s ∧ files s' = files s ∧ stage s' = stage s ∧
  freed s' = freed s.
Proof.
  unfold read_run. intros Hs. repeat case_match; simplify_eq; [done|].
  destruct (skel_read_retry _ _ _ _ _ _) as [[d res]|] eqn:E; cbn in Hs; [|done].
  apply read_retry_wside in E. by destruct res; injection Hs as <- <-.
Qed.

Lemma disconnect_inv s s' :
  write_inv (dev s) (writers s) → skel_disconnect s = Some s' → write_inv (dev s') (writers s').
Proof.
  intros Hinv Hs. pose proof (kill_urbs_parts (submitted (dev s)) (dev s) _ Hinv eq_refl) as [Hk _].
  unfold skel_disconnect in Hs. destruct Hinv as [H1 H2 H3].
  destruct (stage s) as [|[|[|[|n]]]]; repeat case_match; simplify_eq; done.
Qed.

Lemma step_write_inv s ev s' :
  write_inv (dev s) (writers s) → step s ev = Some s' → write_inv (dev s') (writers s').
Proof.
  intros Hinv Hs. pose proof (draw_down_inv _ _ Hinv) as [Hd _].
  destruct ev; cbn -[skel_write_bulk_callback skel_read_bulk_callback skel_write read_run] in Hs.
  - unfold skel_open in Hs. repeat case_match; simplify_eq; cbn; by destruct Hinv.
  - case_match; simplify_eq; cbn. by destruct Hinv.
  - case_match; simplify_eq; cbn. by destruct Hd.
  - unfold skel_read in Hs. repeat case_match; by simplify_eq.
  - destruct (reading s) as [r|]; [|done]. cbn -[read_run] in Hs.
    destruct (read_run r signal copy_ok submits s) as [[rv s1]|] eqn:E; cbn in Hs; simplify_eq.
    apply read_run_wside in E as (Hw & -> & _). by eapply write_inv_side.
  - case_match; simplify_eq; cbn -[skel_read_bulk_callback].
    eapply write_inv_side; [apply read_callback_wside|done].
  - repeat case_match; simplify_eq; eapply skel_write_inv; try done; naive_solver.
  - destruct (writers s !! t) as [p|] eqn:Ht; [|done]. by eapply write_run_inv.
  - case_match; simplify_eq; cbn -[skel_write_bulk_callback]. by apply write_callback_inv.
  - by eapply disconnect_inv.
  - case_match; simplify_eq; cbn. by destruct Hd.
  - case_match; simplify_eq; cbn. by destruct Hinv.
  - case_match; simplify_eq; cbn; done.
Qed.

(** ** The bulk-in buffer *)

Record read_ok (d : usb_skel) : Prop := {
  ro_buffer : zlen (bulk_in_buffer d) = bulk_in_size d;
  ro_len : 0 ≤ bulk_in_len d ≤ bulk_in_size d;
  ro_copied : 0 ≤ bulk_in_copied d ≤ bulk_in_filled d;
  ro_filled : bulk_in_filled d ≤ bulk_in_size d;
  ro_ongoing : ongoing_read d = true → bulk_in_filled d = 0
}.

(** Data received and not yet given to a reader. *)
Definition pending (d : usb_skel) : list Z :=
  slice (bulk_in_copied d) (bulk_in_filled d - bulk_in_copied d) (bulk_in_buffer d).

Definition out (res : read_result) : list Z := match res with Sleep => [] | Return _ bs => bs end.

Lemma read_ok_side d d' : rside d' = rside d → read_ok d → read_ok d' ∧ pending d' = pending d.
Proof.
  intros [= _ Hl Hb Hz Hf Hc Ho _] [H1 H2 H3 H4 H5]. unfold pending. rewrite Hb, Hf, Hc. split; [|done].
  constructor; by rewrite ?Hl, ?Hb, ?Hz, ?Hf, ?Hc, ?Ho.
Qed.

Lemma pending_nil d : bulk_in_filled d = bulk_in_copied d → pending d = [].
Proof. unfold pending. intros ->. by rewrite Z.sub_diag. Qed.

Lemma do_read_io_ok n rv d :
  read_ok d → 0 ≤ n → read_ok (skel_do_read_io n rv d).2 ∧ pending (skel_do_read_io n rv d).2 = [] ∧
  (0 ≤ (skel_do_read_io n rv d).1 → ongoing_read (skel_do_read_io n rv d).2 = true).
Proof.
  intros [H1 H2 H3 H4 H5] Hn. unfold skel_do_read_io. case_match; zbool; cbn.
  - split_and!; [constructor; cbn; try done; lia|by apply pending_nil|].
    unfold ENOMEM, EIO. case_match; zbool; lia.
  - split_and!; [constructor; cbn; try done; lia|by apply pending_nil|done].
Qed.

Lemma retry_ongoing fuel nb n ok subs d :
  ongoing_read d = true →
  skel_read_retry (S fuel) nb n ok subs d = Some (d, if nb then Return (- EAGAIN) [] else Sleep).
Proof. cbn. by intros ->. Qed.

(** From a device in order the loop of skel_read comes to a sleep or a return
    within two rounds, and hands out what it takes from the buffer. *)
Lemma read_retry_total nb n ok subs d :
  read_ok d → 0 ≤ n →
  ∃ d' res, skel_read_retry 2 nb n ok subs d = Some (d', res) ∧ read_ok d' ∧
    (ok = true → pending d = out res ++ pending d').
Proof.
  intros Hok Hn. set (rv := default 0 (head subs)).
  pose proof (do_read_io_ok n rv d Hok Hn) as (Hok1&Hp1&Ho1). pose proof Hok as [H1 H2 H3 H4 H5].
  assert (pending d = [] → ∃ d' res, (let '(r, d1) := skel_do_read_io n rv d in
      if r <? 0 then Some (d1, Return r []) else skel_read_retry 1 nb n ok (tail subs) d1)
      = Some (d', res) ∧ read_ok d' ∧ (ok = true → pending d = out res ++ pending d')) as Hstart.
  { intros Hp. destruct (skel_do_read_io n rv d) as [r d1]. cbn in Hok1, Hp1, Ho1.
    destruct (r <? 0) eqn:E; zbool; [|rewrite retry_ongoing by auto]; eexists _, _;
      (split; [done|]); (split; [done|]); intros _; rewrite Hp, Hp1; by try destruct nb. }
  cbn [skel_read_retry]. destruct (ongoing_read d) eqn:Eo.
  { eexists _, _. split; [done|]. split; [done|]. by destruct nb. }
  destruct (errors d <? 0).
  { eexists _, _. split; [done|]. split; [by apply (read_ok_side d)|done]. }
  destruct (bulk_in_filled d =? 0) eqn:Ef; cbn [negb]; zbool.
  { apply Hstart, pending_nil. lia. }
  destruct (_ - _ =? 0) eqn:Ea; zbool; [apply Hstart, pending_nil; lia|].
  rewrite load_in_range by lia. cbn [mbind option_bind option_ret].
  set (c := Z.min _ n). set (d1 := set_copied _ d).
  assert (read_ok d1) as Hd1 by (constructor; cbn; first [done|lia|congruence]).
  assert (pending d = slice (bulk_in_copied d) c (bulk_in_buffer d) ++ pending d1) as Hp.
  { unfold pending. cbn. rewrite <- slice_app by lia. f_equal. lia. }
  destruct (_ <? n) eqn:En; zbool; eexists _, _; (split; [done|]).
  - pose proof (do_read_io_ok (n - c) rv d1 Hd1 ltac:(lia)) as (?&Hnil&_). split; [done|].
    intros ->. fold rv. rewrite Hnil, app_nil_r. rewrite Hp, (pending_nil d1) by (cbn; lia).
    by rewrite app_nil_r.
  - split; [done|]. intros ->. exact Hp.
Qed.

Lemma read_complete_ok st data d :
  read_ok d → ongoing_read d = true → zlen data ≤ bulk_in_len d →
  read_ok (skel_read_bulk_callback st data d) ∧
  pending (skel_read_bulk_callback st data d) = if st =? 0 then data else [].
Proof.
  intros [H1 H2 H3 H4 H5] Ho Hl. specialize (H5 Ho). pose proof (zlen_nonneg data).
  assert (bulk_in_copied d = 0) as Hc by lia.
  unfold skel_read_bulk_callback. destruct (st =? 0) eqn:E; cbn [negb]; split.
  - constructor; cbn; rewrite ?splice_length by lia; first [done|lia].
  - unfold pending. cbn. rewrite Hc, Z.sub_0_r. apply slice_splice_same; lia.
  - constructor; cbn; rewrite ?splice_length by lia; first [done|lia].
  - apply pending_nil. cbn. lia.
Qed.

Lemma draw_down_ok d : read_ok d → read_ok (skel_draw_down d) ∧ pending (skel_draw_down d) = pending d.
Proof.
  intros Hok. unfold skel_draw_down.
  destruct (read_ok_side d (kill_urbs (submitted d) d) (kill_urbs_rside _ _) Hok) as [Hk Hp].
  case_match eqn:Eo; [|done]. destruct Hk as [H1 H2 H3 H4 H5].
  destruct (read_complete_ok (- ENOENT) [] (kill_urbs (submitted d) d)) as [? Hn]; [done|done|by unfold zlen; cbn [length]; lia|].
  split; [done|]. rewrite Hn, <- Hp. symmetry. apply pending_nil. specialize (H5 Eo). lia.
Qed.

Record stream_inv (s : sys) : Prop := {
  st_ok : read_ok (dev s);
  st_reader : ∀ r, reading s = Some r → 0 ≤ r_count r;
  st_data : received s = delivered s ++ pending (dev s)
}.

(** Steps of a system whose copies to user space succeed. *)
Definition copy_step (s : sys) (ev : event) : option sys :=
  match ev with EReadRun _ false _ => None | _ => step s ev end.

Lemma stream_frame s s' :
  stream_inv s → read_ok (dev s') ∧ pending (dev s') = pending (dev s) → reading s' = reading s →
  received s' = received s → delivered s' = delivered s → stream_inv s'.
Proof. intros [H1 H2 H3] [? Hp] Hr Hx Hy. constructor; rewrite ?Hr, ?Hx, ?Hy, ?Hp; done. Qed.

Lemma read_run_stream r sig subs s rv s' :
  stream_inv s → reading s = Some r → read_run r sig true subs s = Some (rv, s') → stream_inv s'.
Proof.
  intros [H1 H2 H3] Hr Hs. unfold read_run in Hs. case_match.
  { case_match; simplify_eq. by constructor. }
  destruct (read_retry_total (r_nonblock r) (r_count r) true subs (dev s) H1 (H2 _ Hr)) as (d&res&E&Hd&Hp).
  rewrite E in Hs. cbn in Hs. specialize (Hp eq_refl).
  destruct res; injection Hs as <- <-; constructor; cbn in *; try done.
  - intros ? [= <-]. exact (H2 _ Hr).
  - by rewrite <- Hp.
  - by rewrite <- app_assoc, <- Hp.
Qed.

Lemma write_run_rside t p a b c rv u s s' :
  write_run t p a b c rv u s = Some s' →
  rside (dev s') = rside (dev s) ∧ reading s' = reading s ∧ received s' = received s ∧
  delivered s' = delivered s ∧ files s' = files s ∧ stage s' = stage s ∧ freed s' = freed s ∧
  resetting s' = resetting s.
Proof. intros Hs. destruct p; cbn in Hs; repeat case_match; by simplify_eq. Qed.

Lemma skel_write_rside t n nb sig s s' :
  skel_write t n nb sig s = Some s' →
  rside (dev s') = rside (dev s) ∧ reading s' = reading s ∧ received s' = received s ∧
  delivered s' = delivered s ∧ files s' = files s ∧ stage s' = stage s ∧ freed s' = freed s ∧
  resetting s' = resetting s.
Proof. unfold skel_write. intros Hs. repeat case_match; by simplify_eq. Qed.

Lemma disconnect_stream s s' : stream_inv s → skel_disconnect s = Some s' → stream_inv s'.
Proof.
  intros Hinv Hs. pose proof (read_ok_side _ _ (kill_urbs_rside (submitted (dev s)) (dev s)) (st_ok _ Hinv)).
  assert (read_ok (set_interface false (dev s)) ∧ read_ok (set_kref (kref (dev s) - 1) (dev s))) as [??]
    by (destruct Hinv as [[]]; split; by constructor).
  unfold skel_disconnect in Hs.
  destruct (stage s) as [|[|[|[|n]]]]; repeat case_match; simplify_eq;
    (eapply stream_frame; [exact Hinv| |done..]); try done. split; [apply Hinv|done].
Qed.

Lemma copy_step_stream s ev s' : stream_inv s → copy_step s ev = Some s' → stream_inv s'.
Proof.
  intros Hinv Hs. pose proof (draw_down_ok _ (st_ok _ Hinv)) as Hd.
  assert (∀ e, read_ok (set_errors e (skel_draw_down (dev s))) ∧ read_ok (set_errors e (dev s))) as He
    by (destruct Hd as [[] _], Hinv as [[]]; split; by constructor).
  assert (∀ k, read_ok (set_kref k (dev s))) as Hk by (destruct Hinv as [[]]; by constructor).
  destruct ev; cbn -[skel_write_bulk_callback skel_read_bulk_callback skel_write read_run] in Hs.
  - unfold skel_open in Hs. repeat case_match; simplify_eq; try done.
    eapply stream_frame; [exact Hinv| |done..]. split; [apply Hk|done].
  - case_match; simplify_eq. eapply stream_frame; [exact Hinv| |done..]. split; [apply Hk|done].
  - case_match; simplify_eq. eapply stream_frame; [exact Hinv| |done..]. split; [apply He|by apply Hd].
  - case_match; [|done]. unfold skel_read in Hs. repeat case_match; simplify_eq; try done.
    destruct Hinv; constructor; try done. cbn. intros ? [= <-]. cbn. zbool. lia.
  - destruct copy_ok; [|done]. destruct (reading s) as [r|] eqn:Er; [|done]. cbn -[read_run] in Hs.
    destruct (read_run r signal true submits s) as [[rv s1]|] eqn:E; cbn in Hs; simplify_eq.
    by eapply read_run_stream.
  - case_match; simplify_eq. zbool. pose proof Hinv as [H1 H2 H3].
    destruct (read_complete_ok status data (dev s)) as [? Hp]; [done..|].
    constructor; cbn -[skel_read_bulk_callback]; [done|done|]. rewrite Hp, H3, (pending_nil (dev s)).
    { by rewrite app_nil_r. } destruct H1 as [_ _ ? _ H1]. specialize (H1 ltac:(done)). lia.
  - repeat case_match; simplify_eq; apply skel_write_rside in Hs as (Hr&?&?&?&_);
      (eapply stream_frame; [exact Hinv| |done..]); by apply read_ok_side, Hinv.
  - destruct (writers s !! t) as [p|]; [|done]. cbn -[write_run] in Hs.
    apply write_run_rside in Hs as (Hr&?&?&?&_).
    eapply stream_frame; [exact Hinv| |done..]. by apply read_ok_side, Hinv.
  - case_match; simplify_eq. eapply stream_frame; [exact Hinv| |done..]. cbn -[skel_write_bulk_callback].
    apply read_ok_side; [apply write_callback_rside|apply Hinv].
  - by eapply disconnect_stream.
  - case_match; simplify_eq. eapply stream_frame; [exact Hinv| |done..]. apply Hd.
  - case_match; simplify_eq. eapply stream_frame; [exact Hinv| |done..]. split; [apply He|done].
  - case_match; simplify_eq; [|done]. eapply stream_frame; [exact Hinv| |done..]. apply Hd.
Qed.

(** ** Lifetime of the device structure *)

Record life_inv (s : sys) : Prop := {
  li_kref : kref (dev s) = files s + b2z (stage s <? 4)%nat;
  li_files : 0 ≤ files s;
  li_stage : (stage s ≤ 4)%nat;
  li_freed : freed s = (kref (dev s) =? 0);
  li_busy : busy s = true → 0 < files s;
  li_interface : interface (dev s) = (stage s <=? 1)%nat;
  li_mutex : io_mutex_free s = false → interface (dev s) = true;
  li_killed : (3 ≤ stage s)%nat → submitted (dev s) = []
}.

Lemma busy_writer s t p : writers s !! t = Some p → writing p = true → busy s = true.
Proof.
  intros Ht Hp. unfold busy. case_match; [done|]. apply Z.ltb_lt, count_pos. eauto.
Qed.

Lemma kill_urbs_side urbs : ∀ d,
  interface (kill_urbs urbs d) = interface d ∧ kref (kill_urbs urbs d) = kref d.
Proof. intros d. pose proof (kill_urbs_rside urbs d) as H. unfold rside in H. by simplify_eq. Qed.

Lemma draw_down_side d :
  interface (skel_draw_down d) = interface d ∧ kref (skel_draw_down d) = kref d.
Proof.
  unfold skel_draw_down. pose proof (kill_urbs_side (submitted d) d).
  case_match; [|done]. by cbn.
Qed.

(** Steps that leave counts, stage and the interface alone. *)
Lemma life_frame s s' :
  life_inv s → kref (dev s') = kref (dev s) → interface (dev s') = interface (dev s) →
  files s' = files s → stage s' = stage s → freed s' = freed s →
  (busy s' = true → 0 < files s) →
  (io_mutex_free s' = false → interface (dev s) = true) →
  ((3 ≤ stage s)%nat → submitted (dev s') = []) → life_inv s'.
Proof.
  intros [] Hk Hi Hf Hst Hfr Hb Hm Hw. constructor; rewrite ?Hk, ?Hi, ?Hf, ?Hst, ?Hfr; done.
Qed.

Lemma release_life s :
  life_inv s → 0 < files s → negb (busy s) || (1 <? files s) = true → life_inv (skel_release s).
Proof.
  intros [] Hf Hb. assert (0 ≤ b2z (stage s <? 4)%nat) by apply b2z_range.
  constructor; cbn -[Nat.ltb]; try done; try lia.
  - rewrite li_freed0. replace (kref (dev s) =? 0) with false by (symmetry; apply Z.eqb_neq; lia). done.
  - intros H1. assert (busy s = true) as Hb1 by exact H1. rewrite Hb1 in Hb. cbn in Hb. zbool. lia.
Qed.

Lemma disconnect_life s s' : life_inv s → skel_disconnect s = Some s' → write_inv (dev s) (writers s) →
  life_inv s'.
Proof.
  intros Hinv Hs Hw. pose proof (kill_urbs_side (submitted (dev s)) (dev s)) as [Hi Hk].
  pose proof (kill_urbs_parts (submitted (dev s)) (dev s) _ Hw eq_refl) as [_ Hnil].
  destruct Hinv. unfold skel_disconnect in Hs.
  destruct (stage s) as [|[|[|[|n]]]] eqn:Est; repeat case_match; simplify_eq;
    constructor; cbn; rewrite ?Est, ?Hi, ?Hk; try done; try lia.
  - unfold io_mutex_free in *. cbn in *. congruence.
  - cbn in *. lia.
  - rewrite li_freed0. cbn in li_kref0. replace (kref (dev s) =? 0) with false
      by (symmetry; apply Z.eqb_neq; lia). done.
  - intros _. apply li_killed0. lia.
Qed.

Lemma write_run_life s t p a b c rv u s' :
  life_inv s → writers s !! t = Some p → write_run t p a b c rv u s = Some s' → life_inv s'.
Proof.
  intros Hinv Ht Hs. pose proof (write_run_rside _ _ _ _ _ _ _ _ _ Hs) as (Hr&Hrd&_&_&Hf&Hst&Hfr&Hrs).
  injection Hr as Hi _ _ _ _ _ _ Hk. assert (writing p = true) as Hp by (by destruct p).
  eapply life_frame; [exact Hinv|done..| | |].
  - intros _. apply Hinv. by eapply busy_writer.
  - unfold io_mutex_free. rewrite Hrs, Hrd. apply Hinv.
  - intros Hge. pose proof (li_killed _ Hinv Hge) as Hnil. pose proof (li_interface _ Hinv) as Hif.
    replace (stage s <=? 1)%nat with false in Hif by (symmetry; apply Nat.leb_gt; lia).
    destruct p; cbn in Hs; rewrite ?Hif in Hs; repeat case_match; by simplify_eq.
Qed.

Lemma skel_write_life s t n nb sig s' :
  life_inv s → 0 < files s → skel_write t n nb sig s = Some s' → life_inv s'.
Proof.
  intros Hinv Hf Hs. pose proof (skel_write_rside _ _ _ _ _ _ Hs) as (Hr&Hrd&_&_&?&?&?&Hrs).
  injection Hr as Hi _ _ _ _ _ _ Hk. eapply life_frame; [exact Hinv|done..| |].
  - unfold io_mutex_free. rewrite Hrs, Hrd. apply Hinv.
  - intros Hge. pose proof (li_killed _ Hinv Hge). unfold skel_write in Hs.
    repeat case_match; by simplify_eq.
Qed.

Lemma read_run_life r sig ok subs s rv s' :
  life_inv s → reading s = Some r → read_run r sig ok subs s = Some (rv, s') → life_inv s'.
Proof.
  intros Hinv Hr Hs. pose proof (read_run_wside _ _ _ _ _ _ _ Hs) as (Hw&Hwr&?&?&?).
  injection Hw as Hi _ Hsub Hk. eapply life_frame; [exact Hinv|done..| | |].
  - intros _. apply Hinv. unfold busy. by rewrite Hr.
  - intros _. apply Hinv. unfold io_mutex_free. rewrite Hr. by rewrite andb_false_r.
  - intros Hge. rewrite Hsub. by apply Hinv.
Qed.

Lemma filter_nil_urbs u st d :
  submitted d = [] → submitted (skel_write_bulk_callback u st d) = [].
Proof. intros Hn. destruct (write_callback_parts u st d) as [_ ->]. by rewrite Hn. Qed.

Lemma step_life s ev s' :
  life_inv s → write_inv (dev s) (writers s) → step s ev = Some s' → life_inv s'.
Proof.
  intros Hinv Hw Hs. pose proof (draw_down_side (dev s)) as [Hdi Hdk].
  pose proof (draw_down_inv _ _ Hw) as [_ Hdn].
  destruct ev; cbn -[skel_write_bulk_callback skel_read_bulk_callback skel_write read_run write_run] in Hs.
  - unfold skel_open in Hs. repeat case_match; simplify_eq; try done. destruct Hinv.
    apply negb_false_iff, Nat.eqb_eq in H. rewrite H in *. constructor; cbn in *; rewrite ?H; cbn; try done; try lia.
    rewrite li_freed0. transitivity false; [|symmetry]; apply Z.eqb_neq; lia.
  - case_match eqn:E; simplify_eq. apply andb_true_iff in E as [E _]. apply andb_true_iff in E as [E1 E2].
    zbool. by apply release_life.
  - case_match eqn:E; simplify_eq. zbool. eapply life_frame; [exact Hinv|done..|apply Hinv|]. done.
  - case_match eqn:E; [|done]. zbool. unfold skel_read in Hs. repeat case_match; simplify_eq; try done.
    zbool. eapply life_frame; [exact Hinv|done..|apply Hinv].
  - destruct (reading s) as [r|] eqn:Er; [|done]. cbn -[read_run] in Hs.
    destruct (read_run r signal copy_ok submits s) as [[rv s1]|] eqn:E; cbn in Hs; simplify_eq.
    by eapply read_run_life.
  - case_match; simplify_eq. pose proof (read_callback_wside status data (dev s)) as Hcb.
    unfold wside in Hcb. injection Hcb as Hi _ Hsub Hk.
    eapply life_frame; [exact Hinv|done..|apply Hinv|apply Hinv|]. intros Hge.
    transitivity (submitted (dev s)); [exact Hsub|by apply Hinv].
  - repeat case_match; simplify_eq; zbool; by eapply skel_write_life.
  - destruct (writers s !! t) as [p|] eqn:Ht; [|done]. by eapply write_run_life.
  - case_match; simplify_eq. pose proof (write_callback_rside urb status (dev s)) as Hcb.
    unfold rside in Hcb. injection Hcb as Hi _ _ _ _ _ _ Hk.
    eapply life_frame; [exact Hinv|done..|apply Hinv|apply Hinv|]. intros Hge.
    apply filter_nil_urbs. by apply Hinv.
  - by eapply disconnect_life.
  - case_match eqn:E; simplify_eq. zbool. apply Nat.eqb_eq in H.
    eapply life_frame; [exact Hinv|done..|apply Hinv| |done]. intros _. rewrite (li_interface _ Hinv).
    by rewrite H.
  - case_match; simplify_eq. eapply life_frame; [exact Hinv|done..|apply Hinv| |apply Hinv].
    intros _. apply Hinv. unfold io_mutex_free. by rewrite H.
  - case_match; simplify_eq; [|done].
    eapply life_frame; [exact Hinv|done..|apply Hinv|apply Hinv|done].
Qed.

(** ** Properties *)

Lemma probed_inv size : 0 ≤ size →
  write_inv (dev (probed size)) (writers (probed size)) ∧ life_inv (probed size) ∧ stream_inv (probed size).
Proof.
  intros Hsz. pose proof (zlen_zeros size Hsz). split_and!.
  - constructor; cbn; [by rewrite count_empty|done|constructor].
  - constructor; cbn; try done; try lia.
  - constructor; [constructor; cbn; (done || lia)|done|done].
Qed.

(** C12 (functional).  As long as copies to user space succeed, the bytes given
    to readers are a prefix of the bytes received from the device, in order,
    without loss or repetition; what is missing is in the bulk-in buffer.  The
    cursors stay inside the buffer, the buffer is empty while a transfer into it
    is under way, and that transfer is no longer than the buffer. *)
Theorem usb_read_stream size s :
  reachable (λ s, s = probed size ∧ 0 ≤ size) copy_step s →
  received s = delivered s ++ pending (dev s) ∧ read_ok (dev s).
Proof.
  intros Hr. enough (stream_inv s) as [? _ ?] by done. revert Hr.
  apply invariant_reachable; [|apply copy_step_stream]. intros ? [-> Hsz]. by apply probed_inv.
Qed.

Definition demo_read : list event :=
  [EOpen 0; EReadCall 2 false false; EReadRun false true [0]; EReadComplete 0 [7; 8];
   EReadRun false true []; EReadCall 4 true false; EReadRun false true [0];
   EReadComplete 0 [9; 10; 11]; EReadCall 2 false false; EReadRun false true [0]].

Lemma usb_read_stream_witness :
  ∃ s, run copy_step (probed 4) demo_read = Some s ∧ delivered s = [7; 8; 9; 10] ∧
    received s = delivered s ++ pending (dev s) ∧ read_ok (dev s).
Proof.
  destruct (run copy_step (probed 4) demo_read) as [s|] eqn:E; [|vm_compute in E; discriminate].
  exists s. split; [reflexivity|]. split; [vm_compute in E; by simplify_eq|]. apply (usb_read_stream 4).
  apply (run_reachable _ _ demo_read (probed 4)); [apply reach_init; clear; by split|exact E].
Defined.

(** Writes that passed the semaphore and URBs in flight together
    use exactly the units missing from limit_sem: there are never more than
    WRITES_IN_FLIGHT URBs in flight, on no path is a unit lost or returned
    twice, and when nothing is in progress all units are back. *)
Theorem usb_write_limit size s :
  reachable (λ s, s = probed size ∧ 0 ≤ size) step s →
  limit_sem (dev s) + count writing (writers s) + zlen (submitted (dev s)) = WRITES_IN_FLIGHT ∧
  0 ≤ limit_sem (dev s) ∧ zlen (submitted (dev s)) ≤ WRITES_IN_FLIGHT ∧
  (busy s = false → submitted (dev s) = [] → limit_sem (dev s) = WRITES_IN_FLIGHT).
Proof.
  intros Hr. enough (write_inv (dev s) (writers s)) as [H1 H2 H3].
  { pose proof (count_nonneg writing (writers s)). split_and!; [done|done|lia|].
    intros Hb Hn. rewrite Hn in H1. unfold busy in Hb. case_match; [done|]. zbool. unfold zlen in H1. cbn [length] in H1. lia. }
  revert Hr. apply (invariant_reachable _ _ (λ s, write_inv (dev s) (writers s))); [|apply step_write_inv].
  intros ? [-> Hsz]. by apply probed_inv.
Qed.

Definition demo_write : list event :=
  [EOpen 0; EWriteCall 0 100 false false; EWriteRun 0 true true true 0 0;
   EWriteRun 0 true true true 0 5; EWriteCall 1 9000 true false; EWriteRun 1 true true true 0 0;
   EWriteRun 1 true true true 0 6; EWriteComplete 5 (- EPIPE)].

Lemma usb_write_limit_witness :
  ∃ s, run step (probed 4) demo_write = Some s ∧ submitted (dev s) = [6%nat] ∧
    limit_sem (dev s) + count writing (writers s) + zlen (submitted (dev s)) = WRITES_IN_FLIGHT ∧
    0 ≤ limit_sem (dev s) ∧ zlen (submitted (dev s)) ≤ WRITES_IN_FLIGHT ∧
    (busy s = false → submitted (dev s) = [] → limit_sem (dev s) = WRITES_IN_FLIGHT).
Proof.
  destruct (run step (probed 4) demo_write) as [s|] eqn:E; [|vm_compute in E; discriminate].
  exists s. split; [reflexivity|]. split; [vm_compute in E; by simplify_eq|]. apply (usb_write_limit 4).
  apply (run_reachable _ _ demo_write (probed 4)); [apply reach_init; clear; by split|exact E].
Defined.

(** C39 (safety).  The device structure is freed exactly when disconnect has
    finished and the last file is closed; no call uses it then, no write URB is
    in flight, and the only event that still touches it is the completion of a
    read that disconnect did not kill. *)
Theorem usb_lifetime size s :
  reachable (λ s, s = probed size ∧ 0 ≤ size) step s →
  (freed s = true ↔ stage s = 4%nat ∧ files s = 0) ∧
  (freed s = true → busy s = false ∧ submitted (dev s) = [] ∧
    ∀ ev s', step s ev = Some s' → s' = s ∨ ∃ status data, ev = EReadComplete status data).
Proof.
  intros Hr. enough (write_inv (dev s) (writers s) ∧ life_inv s) as [_ Hinv].
  { pose proof Hinv as [Hk Hf Hst Hfr Hb Hi Hm Hs].
    assert (freed s = true ↔ stage s = 4%nat ∧ files s = 0) as Hiff.
    { rewrite Hfr, Z.eqb_eq, Hk. destruct (Nat.ltb_spec (stage s) 4); cbn; lia. }
    split; [done|]. intros [Hst4 Hf0]%Hiff. rewrite Hst4 in Hi, Hs. cbn in Hi.
    assert (busy s = false) as Hb0 by (destruct (busy s); [lia|done]).
    assert (io_mutex_free s = true) as Hm0 by (destruct (io_mutex_free s); [done|specialize (Hm eq_refl); congruence]).
    split_and!; [done|apply Hs; lia|]. intros ev s' Hev.
    unfold io_mutex_free in Hm0. destruct (resetting s) eqn:Er, (reading s) eqn:Erd; try done.
    destruct ev; cbn in Hev; unfold skel_open, skel_disconnect in *;
      rewrite ?Hst4, ?Hf0, ?Hs, ?Er, ?Erd in Hev by lia; cbn in Hev; try by simplify_eq; eauto.
    - repeat case_match; done.
    - destruct (writers s !! t) as [p|] eqn:Ht; [|done]. exfalso.
      assert (writing p = true) as Hp by (by destruct p).
      by rewrite (busy_writer _ _ _ Ht Hp) in Hb0. }
  revert Hr. apply (invariant_reachable _ _ (λ s, write_inv (dev s) (writers s) ∧ life_inv s)).
  - intros ? [-> Hsz]. destruct (probed_inv size Hsz) as (?&?&?). done.
  - intros s0 ev s1 [Hw Hl] Hs. split; [by eapply step_write_inv|by eapply step_life].
Qed.

Definition demo_unplug : list event :=
  [EOpen 0; EWriteCall 0 100 false false; EWriteRun 0 true true true 0 0; EWriteRun 0 true true true 0 5;
   EDisconnect; EDisconnect; EDisconnect; EDisconnect; EFlush; ERelease].

Lemma usb_lifetime_witness :
  ∃ s, run step (probed 4) demo_unplug = Some s ∧ freed s = true ∧
    (freed s = true ↔ stage s = 4%nat ∧ files s = 0) ∧
    (freed s = true → busy s = false ∧ submitted (dev s) = [] ∧
      ∀ ev s', step s ev = Some s' → s' = s ∨ ∃ status data, ev = EReadComplete status data).
Proof.
  destruct (run step (probed 4) demo_unplug) as [s|] eqn:E; [|vm_compute in E; discriminate].
  exists s. split; [reflexivity|]. split; [vm_compute in E; by simplify_eq|]. apply (usb_lifetime 4).
  apply (run_reachable _ _ demo_unplug (probed 4)); [apply reach_init; clear; by split|exact E].
Defined.

(** skel_disconnect does not kill the bulk-in URB, and closing with a pending
    transfer ends before it completes if the flush came before: a read in
    progress on another descriptor of the same file, interrupted after the
    flush, leaves a transfer that completes into freed memory. *)
Lemma usb_read_after_free :
  ∃ s, run step (probed 4)
    [EOpen 0; EFlush; EReadCall 4 false false; EReadRun false true [0]; EReadRun true true [];
     ERelease; EDisconnect; EDisconnect; EDisconnect; EDisconnect] = Some s ∧
    freed s = true ∧ ongoing_read (dev s) = true ∧ is_Some (step s (EReadComplete 0 [1])).
Proof. eexists. split; [vm_compute; reflexivity|]. vm_compute. eauto. Qed.

(** A completion with an error after disconnect cleared the interface logs
    through the NULL pointer. *)
Lemma usb_null_interface :
  ∃ s, run step (probed 4)
    [EOpen 0; EWriteCall 0 100 false false; EWriteRun 0 true true true 0 0; EWriteRun 0 true true true 0 5;
     EDisconnect; EDisconnect; EWriteComplete 5 (- EPIPE)] = Some s ∧ oops s = true.
Proof. eexists. split; vm_compute; reflexivity. Qed.

(** Unlinked transfers are recorded as errors: a flush that has to retract a
    write reports -EIO. *)
Lemma usb_unlink_is_error u d :
  submitted d = [u] → ongoing_read d = false →
  errors (skel_draw_down d) = - ENOENT.
Proof. intros Hs Ho. unfold skel_draw_down. rewrite Hs. cbn [kill_urbs]. unfold skel_write_bulk_callback.
  change (negb (- ENOENT =? 0)) with true. cbn. by rewrite Ho. Qed.

(** A failing probe keeps no allocation; a successful one keeps the buffer and the
    URB of the first bulk-in endpoint. *)
Lemma usb_probe_unwinds dev_ok buf_ok urb_ok reg eps :
  let '(ret, res, _) := skel_probe dev_ok buf_ok urb_ok reg eps in ret ≠ 0 → res = [].
Proof.
  assert (∀ res, skel_delete res = []) as Hd.
  { intros res. unfold skel_delete. induction res as [|a res IH]; [done|].
    rewrite filter_cons, decide_False; [done|]. destruct a; set_solver. }
  unfold skel_probe. destruct dev_ok; cbn; [|done].
  destruct (find_endpoints _ _ _ _ _ _ _) as [[[[inA outA] sz] res] ok].
  destruct ok; cbn; [|by rewrite Hd]. repeat case_match; simplify_eq; by rewrite ?Hd.
Qed.

End UsbSkeleton.
