(* ===== verification/Minivosc.v ===== *)
(** * Minimal virtual oscillator sound card

    Models kernel_module/skeleton/alsa-minivosc-src/minivosc.c as it is built:
    BUFFERMARKS defined, none of the COPYALG algorithms.  The device keeps a
    fractional position [irq_pos] (bytes times HZ) inside the current period and
    a byte position [buf_pos] inside the capture buffer; both are advanced from
    the jiffies counter.  unsigned int is 32 bits wide, unsigned long 64.  A
    result [None] is a division by zero (or a disabled event, in [step]); stores
    outside the capture buffer are recorded in [overrun]. *)

From S2P Require Import Prelude.

Module Minivosc.


(** x / y and x % y on unsigned operands *)
Definition udiv (x y : Z) : option Z := if y =? 0 then None else Some (x / y).
Definition umod (x y : Z) : option Z := if y =? 0 then None else Some (x mod y).

Definition MAX_BUFFER : Z := 32 * 48.
Definition STREAM_CAPTURE : Z := 1.
Definition CABLE_CAPTURE : Z := Z.shiftl 1 STREAM_CAPTURE.
Definition TRIGGER_STOP : Z := 0.
Definition TRIGGER_START : Z := 1.

(** What ALSA fixes in the runtime before prepare; sizes in frames. *)
Record runtime := Runtime {
  rate : Z; channels : Z; width : Z; frame_bits : Z; buffer_size : Z; period_size : Z
}.

Definition frames_to_bytes (r : runtime) (n : Z) : Z := n * frame_bits r / 8.
Definition bytes_to_frames (r : runtime) (n : Z) : Z := n * 8 / frame_bits r.

(** The constraints minivosc_pcm_hw puts on a runtime. *)
Definition minivosc_pcm_hw (r : runtime) : bool :=
  (rate r =? 8000) && (channels r =? 1) && (width r =? 8) && (frame_bits r =? 8) &&
  (frames_to_bytes r (period_size r) =? 48) &&
  (48 <=? frames_to_bytes r (buffer_size r)) && (frames_to_bytes r (buffer_size r) <=? MAX_BUFFER).

Record minivosc_device := Device {
  pcm_period_size : Z;
  pcm_bps : Z;
  valid : Z;
  running : Z;
  period_update_pending : bool;
  irq_pos : Z;
  period_size_frac : Z;
  last_jiffies : Z;
  timer : option Z;              (** expiry of the pending timer *)
  substream : bool;              (** not NULL *)
  pcm_buffer_size : Z;
  buf_pos : Z;
  silent_size : Z;
  wvf_pos : Z;
  wvf_lift : Z;
  dma_area : list Z;             (** the buffer of the runtime *)
  overrun : bool                 (** a store missed it *)
}.

Definition set_pcm (period bps frac : Z) (d : minivosc_device) : minivosc_device :=
  Device period bps (valid d) (running d) (period_update_pending d) (irq_pos d) frac (last_jiffies d)
    (timer d) (substream d) (pcm_buffer_size d) (buf_pos d) (silent_size d) (wvf_pos d) (wvf_lift d)
    (dma_area d) (overrun d).
Definition set_flags (v r : Z) (d : minivosc_device) : minivosc_device :=
  Device (pcm_period_size d) (pcm_bps d) v r (period_update_pending d) (irq_pos d) (period_size_frac d)
    (last_jiffies d) (timer d) (substream d) (pcm_buffer_size d) (buf_pos d) (silent_size d) (wvf_pos d)
    (wvf_lift d) (dma_area d) (overrun d).
Definition set_irq (pending : bool) (pos : Z) (d : minivosc_device) : minivosc_device :=
  Device (pcm_period_size d) (pcm_bps d) (valid d) (running d) pending pos (period_size_frac d)
    (last_jiffies d) (timer d) (substream d) (pcm_buffer_size d) (buf_pos d) (silent_size d) (wvf_pos d)
    (wvf_lift d) (dma_area d) (overrun d).
Definition set_last (j : Z) (d : minivosc_device) : minivosc_device :=
  Device (pcm_period_size d) (pcm_bps d) (valid d) (running d) (period_update_pending d) (irq_pos d)
    (period_size_frac d) j (timer d) (substream d) (pcm_buffer_size d) (buf_pos d) (silent_size d)
    (wvf_pos d) (wvf_lift d) (dma_area d) (overrun d).
Definition set_timer (t : option Z) (d : minivosc_device) : minivosc_device :=
  Device (pcm_period_size d) (pcm_bps d) (valid d) (running d) (period_update_pending d) (irq_pos d)
    (period_size_frac d) (last_jiffies d) t (substream d) (pcm_buffer_size d) (buf_pos d) (silent_size d)
    (wvf_pos d) (wvf_lift d) (dma_area d) (overrun d).
Definition set_open (d : minivosc_device) : minivosc_device :=
  Device (pcm_period_size d) (pcm_bps d) (valid d) (running d) (period_update_pending d) (irq_pos d)
    (period_size_frac d) (last_jiffies d) None true (pcm_buffer_size d) (buf_pos d) (silent_size d)
    0 0 (dma_area d) (overrun d).
Definition set_buffer (size pos silent : Z) (dma : list Z) (d : minivosc_device) : minivosc_device :=
  Device (pcm_period_size d) (pcm_bps d) (valid d) (running d) (period_update_pending d) (irq_pos d)
    (period_size_frac d) (last_jiffies d) (timer d) (substream d) size pos silent
    (wvf_pos d) (wvf_lift d) dma (overrun d).
Definition set_buf_pos (pos : Z) (d : minivosc_device) : minivosc_device :=
  set_buffer (pcm_buffer_size d) pos (silent_size d) (dma_area d) d.
Definition set_silent (n : Z) (d : minivosc_device) : minivosc_device :=
  set_buffer (pcm_buffer_size d) (buf_pos d) n (dma_area d) d.

(** ** Filling the capture buffer *)

(** Store [bs] at [dst + off]. *)
Definition poke (off : Z) (bs : list Z) (d : minivosc_device) : minivosc_device :=
  match store off bs (dma_area d) with
  | Some dma => set_buffer (pcm_buffer_size d) (buf_pos d) (silent_size d) dma d
  | None =>
      Device (pcm_period_size d) (pcm_bps d) (valid d) (running d) (period_update_pending d) (irq_pos d)
        (period_size_frac d) (last_jiffies d) (timer d) (substream d) (pcm_buffer_size d) (buf_pos d)
        (silent_size d) (wvf_pos d) (wvf_lift d) (dma_area d) true
  end.

(** The four bytes of the float -0.2 *)
Definition wrdat : list Z := [205; 204; 76; 190].

(** while (dpos < size) { memcpy (dst + dst_off + dpos, &wrdat, 4); dpos += 4; } *)
Definition clear_words (dst_off size : Z) (d : minivosc_device) : minivosc_device :=
  foldl (λ d i, poke (dst_off + 4 * i) wrdat d) d (seqZ 0 ((size + 3) / 4)).

(** The loop that handles silent_size; [None]: out of fuel. *)
Fixpoint clear_loop (fuel : nat) (dst_off bytes : Z) (d : minivosc_device) : option minivosc_device :=
  match fuel with
  | O => None
  | S fuel =>
      let size := if pcm_buffer_size d <? u32 (dst_off + bytes)
                  then u32 (pcm_buffer_size d - dst_off) else bytes in
      let d := clear_words dst_off size d in
      let d := set_silent (u32 (silent_size d + size)) d in
      let bytes := u32 (bytes - size) in
      if bytes =? 0 then Some d else clear_loop fuel 0 bytes d
  end.

(** The buffer marks of one call *)
Definition buffer_marks (dst_off bytes : Z) (d : minivosc_device) : minivosc_device :=
  let d := poke 1 [160] d in
  let d := poke (pcm_buffer_size d - 2) [140] d in
  let d := poke dst_off [120] d in
  let d := if dst_off =? 0 then poke dst_off [250] d else d in
  poke (dst_off + bytes - 2) [90] d.

Definition minivosc_fill_capture_buf (bytes : Z) (d : minivosc_device) : option minivosc_device :=
  let dst_off := buf_pos d in
  let d := buffer_marks dst_off bytes d in
  if pcm_buffer_size d <=? silent_size d then Some d else
  let bytes := if pcm_buffer_size d <? u32 (silent_size d + bytes)
               then u32 (pcm_buffer_size d - silent_size d) else bytes in
  clear_loop 3 dst_off bytes d.

Definition minivosc_xfer_buf (count : Z) (d : minivosc_device) : option minivosc_device :=
  d ← (if running d =? CABLE_CAPTURE then minivosc_fill_capture_buf count d else Some d);
  if running d =? 0 then Some d else
  pos ← umod (u32 (buf_pos d + count)) (pcm_buffer_size d);
  Some (set_buf_pos pos d).

(** What a store to the buffer leaves alone *)
Definition rest (d : minivosc_device) :=
  (pcm_period_size d, pcm_bps d, valid d, running d, period_update_pending d, irq_pos d,
   period_size_frac d, last_jiffies d, timer d, substream d, pcm_buffer_size d, buf_pos d, silent_size d,
   wvf_pos d, wvf_lift d).

Lemma poke_rest off bs d : rest (poke off bs d) = rest d.
Proof. unfold poke. by case_match. Qed.

Lemma poke_len off bs d : zlen (dma_area (poke off bs d)) = zlen (dma_area d).
Proof.
  unfold poke. destruct (store off bs (dma_area d)) eqn:E; [|done].
  apply store_Some_inv in E as (?&?&->). cbn. by apply splice_length.
Qed.

Definition inside (off : Z) (d : minivosc_device) : bool := (0 <=? off) && (off <? zlen (dma_area d)).

Lemma poke_overrun off v d : overrun (poke off [v] d) = overrun d || negb (inside off d).
Proof.
  unfold poke, store, inside. replace (off + zlen [v] <=? zlen (dma_area d)) with (off <? zlen (dma_area d)).
  - destruct (_ && _); cbn; [by rewrite orb_false_r|by rewrite orb_true_r].
  - unfold zlen at 2. cbn [length]. destruct (Z.ltb_spec off (zlen (dma_area d))); symmetry;
      [apply Z.leb_le|apply Z.leb_gt]; lia.
Qed.

Lemma poke_other off v d i : i ≠ off → 0 ≤ i → dma_area (poke off [v] d) !! Z.to_nat i = dma_area d !! Z.to_nat i.
Proof.
  intros Hi H0. unfold poke. destruct (store off [v] (dma_area d)) eqn:E; [|done]. cbn.
  apply store_Some_inv in E as (?&Hle&->). unfold zlen in Hle. cbn in Hle. unfold splice.
  destruct (decide (i < off)).
  - rewrite lookup_app_l by (rewrite length_take; lia). apply lookup_take_lt. lia.
  - rewrite lookup_app_r by (rewrite length_take; lia). rewrite length_take, Nat.min_l by lia.
    rewrite lookup_app_r, lookup_drop by (cbn; lia). f_equal. cbn. lia.
Qed.

Lemma rest_size d d' : rest d' = rest d → pcm_buffer_size d' = pcm_buffer_size d.
Proof. unfold rest. by intros [=]. Qed.

Lemma marks_rest off n d :
  rest (buffer_marks off n d) = rest d ∧ zlen (dma_area (buffer_marks off n d)) = zlen (dma_area d).
Proof.
  unfold buffer_marks. rewrite poke_rest, poke_len.
  case_match; by rewrite ?poke_rest, ?poke_len.
Qed.

(** With room for the fixed marks, only the mark at the end of the chunk can miss
    the buffer. *)
Lemma marks_overrun off n d :
  pcm_buffer_size d = zlen (dma_area d) → 2 ≤ zlen (dma_area d) → 0 ≤ off < zlen (dma_area d) →
  overrun (buffer_marks off n d) = overrun d || negb (inside (off + n - 2) d).
Proof.
  intros Hs H2 Hoff. unfold buffer_marks.
  assert (∀ x, 0 ≤ x < zlen (dma_area d) → (0 <=? x) && (x <? zlen (dma_area d)) = true) as Hyes.
  { intros x Hx. apply andb_true_iff. rewrite Z.leb_le, Z.ltb_lt. lia. }
  rewrite (rest_size d (poke 1 [160] d)) by apply poke_rest.
  destruct (off =? 0); rewrite !poke_overrun; unfold inside; rewrite !poke_len;
    rewrite (Hyes 1), (Hyes (pcm_buffer_size d - 2)), (Hyes off) by lia; cbn; by rewrite !orb_false_r.
Qed.

Lemma marks_other off n d i :
  0 ≤ i → i ≠ 1 → i ≠ pcm_buffer_size d - 2 → i ≠ off → i ≠ off + n - 2 →
  dma_area (buffer_marks off n d) !! Z.to_nat i = dma_area d !! Z.to_nat i.
Proof.
  intros. unfold buffer_marks. rewrite (rest_size d (poke 1 [160] d)) by apply poke_rest.
  destruct (off =? 0); by rewrite !poke_other by done.
Qed.

(** ** Position and timer *)

Section clock.
(** Ticks per second *)
Context (HZ : Z).

Definition byte_pos (x : Z) : Z := x / HZ.
Definition frac_pos (x : Z) : Z := u32 (x * HZ).

Definition minivosc_pos_update (jiffies : Z) (d : minivosc_device) : option minivosc_device :=
  if running d =? 0 then Some d else
  let delta := u64 (jiffies - last_jiffies d) in
  if delta =? 0 then Some d else
  let d := set_last (u64 (last_jiffies d + delta)) d in
  let last_pos := byte_pos (irq_pos d) in
  let d := set_irq (period_update_pending d) (u32 (u64 (irq_pos d + u64 (delta * pcm_bps d)))) d in
  let count := u32 (byte_pos (irq_pos d) - last_pos) in
  if count =? 0 then Some d else
  d ← minivosc_xfer_buf count d;
  if period_size_frac d <=? irq_pos d then
    pos ← umod (irq_pos d) (period_size_frac d);
    Some (set_irq true pos d)
  else Some d.

Definition minivosc_timer_start (jiffies : Z) (d : minivosc_device) : option minivosc_device :=
  let tick := u32 (period_size_frac d - irq_pos d) in
  tick ← udiv (u64 (tick + pcm_bps d - 1)) (pcm_bps d);
  Some (set_timer (Some (u64 (jiffies + tick))) d).

Definition minivosc_timer_stop (d : minivosc_device) : minivosc_device := set_timer None d.

(** The timer handler; the boolean: snd_pcm_period_elapsed is called. *)
Definition minivosc_timer_function (jiffies : Z) (d : minivosc_device) : option (minivosc_device * bool) :=
  if running d =? 0 then Some (d, false) else
  d ← minivosc_pos_update jiffies d;
  d ← minivosc_timer_start jiffies d;
  if period_update_pending d then
    let d := set_irq false (irq_pos d) d in
    Some (d, negb (running d =? 0))
  else Some (d, false).

(** ** PCM callbacks *)

Definition minivosc_pcm_open (d : minivosc_device) : Z * minivosc_device := (0, set_open d).

Definition minivosc_pcm_prepare (stream : Z) (r : runtime) (d : minivosc_device) : Z * minivosc_device :=
  let bps := u32 (rate r * channels r) in
  let bps := u32 (bps * width r) in
  let bps := bps / 8 in
  if bps <=? 0 then (- EINVAL, d) else
  let size := u32 (frames_to_bytes r (buffer_size r)) in
  let d := if stream =? STREAM_CAPTURE
           then set_buffer size 0 size (splice 0 (replicate (Z.to_nat size) 45) (dma_area d)) d
           else set_buffer size 0 (silent_size d) (dma_area d) d in
  let d := if running d =? 0 then set_irq false 0 d else d in
  let d := if Z.land (valid d) (Z.lnot (Z.shiftl 1 stream)) =? 0 then
             let period := u32 (frames_to_bytes r (period_size r)) in
             set_pcm period bps (frac_pos period) d
           else d in
  (0, set_flags (Z.lor (valid d) (Z.shiftl 1 stream)) (running d) d).

Definition minivosc_pcm_trigger (stream cmd jiffies : Z) (d : minivosc_device)
    : option (Z * minivosc_device) :=
  if cmd =? TRIGGER_START then
    d ← (if running d =? 0 then minivosc_timer_start jiffies (set_last jiffies d) else Some d);
    Some (0, set_flags (valid d) (Z.lor (running d) (Z.shiftl 1 stream)) d)
  else if cmd =? TRIGGER_STOP then
    let d := set_flags (valid d) (Z.land (running d) (Z.lnot (Z.shiftl 1 stream))) d in
    Some (0, if running d =? 0 then minivosc_timer_stop d else d)
  else Some (- EINVAL, d).

Definition minivosc_pcm_pointer (jiffies : Z) (r : runtime) (d : minivosc_device)
    : option (Z * minivosc_device) :=
  d ← minivosc_pos_update jiffies d;
  Some (bytes_to_frames r (buf_pos d), d).

(** ** The card in use

    ALSA calls the driver according to the state of the substream: parameters
    are set while it is stopped, it is prepared before it starts, and it is
    stopped before it is closed. *)

Inductive pcm_state := Closed | Setup | Prepared | Running.

Record sys := Sys {
  mydev : minivosc_device;
  state : pcm_state;
  rt : runtime;
  jiffies : Z;
  ran : Z;                       (** history: jiffies since the start *)
  elapsed : Z                    (** history: calls of snd_pcm_period_elapsed *)
}.

Inductive event :=
| EOpen | EClose
| EHwParams (r : runtime) (pages : list Z)
| EPrepare
| ETrigger (cmd : Z)
| EPointer
| ETick
| ETimer.

Definition stopped (s : sys) : bool :=
  match state s with Setup | Prepared => true | _ => false end.

Definition step (s : sys) (ev : event) : option sys :=
  let d := mydev s in
  match ev with
  | EOpen =>
      match state s with
      | Closed => Some (Sys (minivosc_pcm_open d).2 Setup (rt s) (jiffies s) (ran s) (elapsed s))
      | _ => None
      end
  | EClose => if stopped s then Some (Sys d Closed (rt s) (jiffies s) (ran s) (elapsed s)) else None
  | EHwParams r pages =>
      if stopped s && minivosc_pcm_hw r && (zlen pages =? frames_to_bytes r (buffer_size r)) then
        let d := set_buffer (pcm_buffer_size d) (buf_pos d) (silent_size d) pages d in
        Some (Sys d Setup r (jiffies s) (ran s) (elapsed s))
      else None
  | EPrepare =>
      if stopped s && minivosc_pcm_hw (rt s) && (zlen (dma_area d) =? frames_to_bytes (rt s) (buffer_size (rt s)))
      then
        let '(ret, d) := minivosc_pcm_prepare STREAM_CAPTURE (rt s) d in
        Some (Sys d (if ret =? 0 then Prepared else Setup) (rt s) (jiffies s) 0 (elapsed s))
      else None
  | ETrigger cmd =>
      let ready := match state s with
                   | Prepared => negb (cmd =? TRIGGER_STOP) | Running => negb (cmd =? TRIGGER_START)
                   | _ => false end in
      if ready then
        '(ret, d) ← minivosc_pcm_trigger STREAM_CAPTURE cmd (jiffies s) d;
        let st := if ret =? 0 then (if cmd =? TRIGGER_START then Running else Setup) else state s in
        Some (Sys d st (rt s) (jiffies s) (ran s) (elapsed s))
      else None
  | EPointer =>
      match state s with
      | Running =>
          '(_, d) ← minivosc_pcm_pointer (jiffies s) (rt s) d;
          Some (Sys d (state s) (rt s) (jiffies s) (ran s) (elapsed s))
      | _ => None
      end
  | ETick =>
      let ran := match state s with Running => ran s + 1 | _ => ran s end in
      Some (Sys d (state s) (rt s) (u64 (jiffies s + 1)) ran (elapsed s))
  | ETimer =>
      match timer d with
      | Some e =>
          if e <=? jiffies s then
            '(d, call) ← minivosc_timer_function (jiffies s) (set_timer None d);
            Some (Sys d (state s) (rt s) (jiffies s) (ran s) (elapsed s + if (call : bool) then 1 else 0))
          else None
      | None => None
      end
  end.

(** A card as snd_card_create gives it: zeroed. *)
Definition card : sys :=
  Sys (Device 0 0 0 0 false 0 0 0 None false 0 0 0 0 0 [] false) Closed (Runtime 0 0 0 0 0 0) 0 0 0.

(** ** Positions *)

(** Time passes between two updates without reaching the limits of the 32-bit
    fractional position (at 8000 bytes and 1000 ticks per second nine minutes). *)
Definition timely (s : sys) (ev : event) : bool :=
  match ev with
  | ETick =>
      (jiffies s + 1 <? 2 ^ 63) &&
      match state s with
      | Running => (jiffies s + 1 - last_jiffies (mydev s)) * 8000 + 48 * HZ <? 2 ^ 32
      | _ => true
      end
  | _ => true
  end.
Definition timely_step (s : sys) (ev : event) : option sys :=
  if timely s ev then step s ev else None.

Hypothesis HZ_range : 2 ≤ HZ ≤ 10000.

(** Advancing inside the period agrees with advancing the whole position. *)
Lemma byte_pos_split p T : 0 < p → byte_pos T = p * (T / (p * HZ)) + byte_pos (T mod (p * HZ)).
Proof using HZ_range.
  intros Hp. unfold byte_pos. rewrite (Z.div_mod T (p * HZ)) at 1 by nia.
  replace (p * HZ * (T / (p * HZ)) + T mod (p * HZ)) with (T mod (p * HZ) + p * (T / (p * HZ)) * HZ) by ring.
  rewrite Z.div_add by lia. ring.
Qed.

Lemma byte_pos_advance p T k :
  0 < p → byte_pos (T mod (p * HZ) + k) - byte_pos (T mod (p * HZ)) = byte_pos (T + k) - byte_pos T.
Proof using HZ_range.
  intros Hp. assert (T + k = T mod (p * HZ) + k + p * (T / (p * HZ)) * HZ) as E.
  { rewrite (Z.div_mod T (p * HZ)) at 1 by nia. ring. }
  rewrite (byte_pos_split p T Hp). rewrite E. unfold byte_pos at 3. rewrite Z.div_add by lia.
  unfold byte_pos. ring.
Qed.

Lemma irq_advance p T k :
  0 < p → (T + k) mod (p * HZ) = (T mod (p * HZ) + k) mod (p * HZ).
Proof using HZ_range. intros. by rewrite Z.add_mod_idemp_l by nia. Qed.

(** Within the same byte the period does not end. *)
Lemma same_byte_same_period p x k :
  0 < p → 0 ≤ x < p * HZ → 0 ≤ k → byte_pos (x + k) = byte_pos x → x + k < p * HZ.
Proof using HZ_range.
  unfold byte_pos. intros Hp Hx Hk E. assert (x / HZ < p) by (apply Z.div_lt_upper_bound; lia).
  pose proof (Z.div_mod (x + k) HZ ltac:(lia)). pose proof (Z.mod_pos_bound (x + k) HZ ltac:(lia)). nia.
Qed.

(** A prepared device that has advanced by [T] (bytes times HZ). *)
Record at_pos (d : minivosc_device) (T : Z) : Prop := {
  ap_bps : pcm_bps d = 8000;
  ap_frac : period_size_frac d = 48 * HZ;
  ap_size : 48 ≤ pcm_buffer_size d ≤ MAX_BUFFER;
  ap_dma : zlen (dma_area d) = pcm_buffer_size d;
  ap_silent : silent_size d = pcm_buffer_size d;
  ap_irq : irq_pos d = T mod (48 * HZ);
  ap_buf : buf_pos d = byte_pos T mod pcm_buffer_size d
}.

Lemma fill_ok n d T :
  at_pos d T → minivosc_fill_capture_buf n d = Some (buffer_marks (buf_pos d) n d).
Proof.
  intros [_ _ Hs _ Hq _ _]. unfold minivosc_fill_capture_buf.
  destruct (marks_rest (buf_pos d) n d) as [E _]. unfold rest in E.
  injection E as _ _ _ _ _ _ _ _ _ _ Ez _ Eq _ _. rewrite Ez, Eq, Hq, Z.leb_refl. done.
Qed.

(** One transfer advances the byte position, modulo the buffer. *)
Lemma xfer_ok n d :
  running d = CABLE_CAPTURE → silent_size d = pcm_buffer_size d → 0 < pcm_buffer_size d →
  0 ≤ buf_pos d → 0 ≤ n → buf_pos d + n < 2 ^ 32 →
  minivosc_xfer_buf n d =
    Some (set_buf_pos ((buf_pos d + n) mod pcm_buffer_size d) (buffer_marks (buf_pos d) n d)).
Proof.
  intros Hr Hq Hs Hb Hn Hfit. unfold minivosc_xfer_buf, minivosc_fill_capture_buf. rewrite Hr, Z.eqb_refl.
  destruct (marks_rest (buf_pos d) n d) as [E _]. unfold rest in E.
  injection E as _ _ _ Er _ _ _ _ _ _ Ez Eb Eq _ _.
  rewrite Ez, Eq, Hq, Z.leb_refl. cbn [mbind option_bind]. rewrite Er, Hr. cbn [Z.eqb CABLE_CAPTURE].
  change (CABLE_CAPTURE =? 0) with false. cbv iota.
  rewrite Eb, Ez. autorewrite with cint. unfold umod.
  rewrite (proj2 (Z.eqb_neq _ _)) by lia. done.
Qed.

Lemma period_wrap d :
  period_size_frac d = 48 * HZ → 0 ≤ irq_pos d →
  (if period_size_frac d <=? irq_pos d
   then pos ← umod (irq_pos d) (period_size_frac d); Some (set_irq true pos d) else Some d) =
  Some (set_irq (period_update_pending d || (48 * HZ <=? irq_pos d)) (irq_pos d mod (48 * HZ)) d).
Proof using HZ_range.
  intros Hf Hi. rewrite Hf. unfold umod. rewrite (proj2 (Z.eqb_neq _ _)) by lia.
  destruct (48 * HZ <=? irq_pos d) eqn:E; zbool; cbn; [by rewrite orb_true_r|].
  rewrite Z.mod_small, orb_false_r by lia. by destruct d.
Qed.

(** [count] of an update by [k], and the update without machine arithmetic *)
Definition bytes_of (d : minivosc_device) (k : Z) : Z := byte_pos (irq_pos d + k) - byte_pos (irq_pos d).
Definition advanced (j k : Z) (d : minivosc_device) : minivosc_device :=
  let d1 := set_irq (period_update_pending d) (irq_pos d + k) (set_last j d) in
  if bytes_of d k =? 0 then d1 else
  let d2 := set_buf_pos ((buf_pos d + bytes_of d k) mod pcm_buffer_size d)
                        (buffer_marks (buf_pos d) (bytes_of d k) d1) in
  set_irq (period_update_pending d || (48 * HZ <=? irq_pos d + k)) ((irq_pos d + k) mod (48 * HZ)) d2.

Lemma bytes_of_range d k :
  0 ≤ irq_pos d → 0 ≤ k → irq_pos d + k < 2 ^ 32 → 0 ≤ bytes_of d k < 2 ^ 31.
Proof using HZ_range.
  intros Hi Hk Hfit. unfold bytes_of.
  assert (byte_pos (irq_pos d) ≤ byte_pos (irq_pos d + k)) by (apply Z.div_le_mono; lia).
  assert (byte_pos (irq_pos d + k) ≤ (irq_pos d + k) / 2) by (apply Z.div_le_compat_l; lia).
  assert (0 ≤ byte_pos (irq_pos d)) by (apply Z.div_pos; lia).
  assert ((irq_pos d + k) / 2 < 2 ^ 31) by (apply Z.div_lt_upper_bound; lia). lia.
Qed.

Lemma pos_update_ideal j d T :
  at_pos d T → running d = CABLE_CAPTURE → 0 ≤ last_jiffies d < j → j < 2 ^ 63 →
  (j - last_jiffies d) * 8000 + 48 * HZ < 2 ^ 32 →
  minivosc_pos_update j d = Some (advanced j ((j - last_jiffies d) * 8000) d).
Proof using HZ_range.
  intros [Hb Hf Hs Hd Hq Hi Hp] Hr Hl Hj Hfit. unfold MAX_BUFFER in Hs.
  pose proof (Z.mod_pos_bound T (48 * HZ) ltac:(lia)) as Hirq.
  pose proof (Z.mod_pos_bound (byte_pos T) (pcm_buffer_size d) ltac:(lia)) as Hbuf.
  unfold minivosc_pos_update. rewrite Hr. change (CABLE_CAPTURE =? 0) with false. cbv iota.
  rewrite (uwrap_id 64 (j - _)) by (unfold fits_u; lia). rewrite (proj2 (Z.eqb_neq _ _)) by lia.
  cbn [set_last irq_pos pcm_bps period_update_pending last_jiffies].
  cbn [set_irq irq_pos pcm_buffer_size]. rewrite Hb. set (k := (j - last_jiffies d) * 8000).
  assert (0 < k ∧ k + 48 * HZ < 2 ^ 32) as [Hk Hk2] by (unfold k; lia). clearbody k.
  rewrite (uwrap_id 64 k), (uwrap_id 64 (irq_pos d + k)), (uwrap_id 32 (irq_pos d + k)),
    (uwrap_id 64 (last_jiffies d + _)) by (unfold fits_u; lia).
  replace (last_jiffies d + (j - last_jiffies d)) with j by ring.
  pose proof (bytes_of_range d k ltac:(lia) ltac:(lia) ltac:(lia)) as Hn.
  fold (bytes_of d k). rewrite (uwrap_id 32 (bytes_of d k)) by (unfold fits_u; lia).
  unfold advanced. destruct (bytes_of d k =? 0); [done|].
  rewrite xfer_ok by (cbn; first [done|lia]). cbn [mbind option_bind].
  match goal with |- context [set_buf_pos ?p ?m] => set (d2 := set_buf_pos p m) end.
  assert (period_size_frac d2 = 48 * HZ ∧ irq_pos d2 = irq_pos d + k ∧
    period_update_pending d2 = period_update_pending d) as (E1&E2&E3).
  { unfold d2. cbn. edestruct (marks_rest (buf_pos d) (bytes_of d k)) as [E _]. unfold rest in E.
    injection E as _ _ _ _ E5 E6 E7 _ _ _ _ _ _ _ _. rewrite E5, E6, E7. cbn. done. }
  rewrite period_wrap by (first [done|lia]). rewrite E2, E3. done.
Qed.

Lemma advanced_at j k d T :
  at_pos d T → 0 ≤ k → at_pos (advanced j k d) (T + k).
Proof using HZ_range.
  intros [Hb Hf Hs Hd Hq Hi Hp] Hk. pose proof (Z.mod_pos_bound T (48 * HZ) ltac:(lia)) as Hirq.
  unfold advanced.
  assert (bytes_of d k = byte_pos (T + k) - byte_pos T) as Hadv
    by (unfold bytes_of; rewrite Hi; by apply byte_pos_advance).
  assert ((T + k) mod (48 * HZ) = (irq_pos d + k) mod (48 * HZ)) as Hmod
    by (rewrite Hi; by apply irq_advance).
  destruct (bytes_of d k =? 0) eqn:Ec; zbool.
  - assert (irq_pos d + k < 48 * HZ) by (unfold bytes_of in Ec; apply same_byte_same_period; lia).
    constructor; cbn; try done; [rewrite Hmod, Z.mod_small by lia; done|]. rewrite Hp. f_equal. lia.
  - match goal with |- context [buffer_marks ?o ?n ?x] =>
      destruct (marks_rest o n x) as [E Elen]; set (d2 := buffer_marks o n x) in * end.
    unfold rest in E. injection E as E1 E2 _ _ _ _ E7 _ _ _ E11 _ E13 _ _. cbn in *.
    constructor; cbn; rewrite ?E2, ?E7, ?E11, ?E13, ?Elen; try done.
    rewrite Hp, Z.add_mod_idemp_l by lia. f_equal. lia.
Qed.

Lemma advanced_parts j k d :
  running (advanced j k d) = running d ∧ last_jiffies (advanced j k d) = j ∧
  timer (advanced j k d) = timer d ∧ valid (advanced j k d) = valid d ∧
  period_update_pending (advanced j k d) =
    (if bytes_of d k =? 0 then period_update_pending d
     else period_update_pending d || (48 * HZ <=? irq_pos d + k)).
Proof.
  unfold advanced. destruct (bytes_of d k =? 0); [done|].
  match goal with |- context [buffer_marks ?o ?n ?x] =>
    destruct (marks_rest o n x) as [E _]; set (d2 := buffer_marks o n x) in * end.
  unfold rest in E. injection E as _ _ E3 E4 _ _ _ E8 E9 _ _ _ _ _ _. cbn in *. done.
Qed.

(** An update brings the device to the position the clock asks for, and notes the
    end of a period if there is one. *)
Lemma pos_update_ok j d T :
  at_pos d T → running d = CABLE_CAPTURE → 0 ≤ last_jiffies d ≤ j → j < 2 ^ 63 →
  (j - last_jiffies d) * 8000 + 48 * HZ < 2 ^ 32 →
  ∃ d', minivosc_pos_update j d = Some d' ∧ at_pos d' (T + (j - last_jiffies d) * 8000) ∧
    running d' = CABLE_CAPTURE ∧ last_jiffies d' = j ∧ timer d' = timer d ∧ valid d' = valid d ∧
    period_update_pending d' =
      period_update_pending d || (48 * HZ <=? irq_pos d + (j - last_jiffies d) * 8000).
Proof using HZ_range.
  intros Hat Hr Hl Hj Hfit. pose proof Hat as [_ _ _ _ _ Hi _].
  pose proof (Z.mod_pos_bound T (48 * HZ) ltac:(lia)) as Hirq.
  destruct (decide (last_jiffies d = j)) as [<-|Hne].
  { rewrite Z.sub_diag, Z.mul_0_l, !Z.add_0_r. exists d. unfold minivosc_pos_update. rewrite Hr, Z.sub_diag.
    split_and!; try done. rewrite (proj2 (Z.leb_gt _ _)) by lia. by rewrite orb_false_r. }
  rewrite (pos_update_ideal j d T) by (first [done|lia]). set (k := (j - last_jiffies d) * 8000).
  assert (0 ≤ k) as Hk by (unfold k; lia). clearbody k.
  exists (advanced j k d). destruct (advanced_parts j k d) as (E1&E2&E3&E4&E5).
  split; [done|]. split; [by apply advanced_at|]. split_and!; [congruence|done..|].
  rewrite E5. destruct (bytes_of d k =? 0) eqn:Ec; [|done]. zbool.
  assert (irq_pos d + k < 48 * HZ) by (unfold bytes_of in Ec; apply same_byte_same_period; lia).
  rewrite (proj2 (Z.leb_gt _ _)) by lia. by rewrite orb_false_r.
Qed.

(** The timer is set to the first tick at or after the end of the period. *)
Lemma timer_start_ok j d T :
  at_pos d T → 0 ≤ j < 2 ^ 63 →
  ∃ tick, minivosc_timer_start j d = Some (set_timer (Some (j + tick)) d) ∧ 1 ≤ tick ∧
    irq_pos d + (tick - 1) * 8000 < 48 * HZ ≤ irq_pos d + tick * 8000.
Proof using HZ_range.
  intros [Hb Hf _ _ _ Hi _] Hj. pose proof (Z.mod_pos_bound T (48 * HZ) ltac:(lia)) as Hirq.
  unfold minivosc_timer_start, udiv. rewrite Hb, Hf. cbn [Z.eqb]. rewrite <- Hi in Hirq.
  rewrite (uwrap_id 32 (48 * HZ - _)) by (unfold fits_u; lia).
  rewrite (uwrap_id 64 (48 * HZ - irq_pos d + 8000 - 1)) by (unfold fits_u; lia). cbn [mbind option_bind].
  set (tick := (48 * HZ - irq_pos d + 8000 - 1) / 8000).
  pose proof (Z.div_mod (48 * HZ - irq_pos d + 8000 - 1) 8000 ltac:(lia)) as Hdiv. fold tick in Hdiv.
  pose proof (Z.mod_pos_bound (48 * HZ - irq_pos d + 8000 - 1) 8000 ltac:(lia)).
  exists tick. rewrite uwrap_id by (unfold fits_u; lia). split; [done|]. lia.
Qed.

(** ** The invariant of the card *)

Record running_inv (s : sys) : Prop := {
  ri_pos : at_pos (mydev s) ((ran s - (jiffies s - last_jiffies (mydev s))) * 8000);
  ri_running : running (mydev s) = CABLE_CAPTURE;
  ri_last : 0 ≤ last_jiffies (mydev s) ≤ jiffies s;
  ri_fit : (jiffies s - last_jiffies (mydev s)) * 8000 + 48 * HZ < 2 ^ 32;
  ri_timer : ∃ e, timer (mydev s) = Some e ∧
    irq_pos (mydev s) + (e - 1 - last_jiffies (mydev s)) * 8000 < 48 * HZ ∧
    (period_update_pending (mydev s) = true ∨
     48 * HZ ≤ irq_pos (mydev s) + (e - last_jiffies (mydev s)) * 8000)
}.

Definition card_inv (s : sys) : Prop :=
  0 ≤ jiffies s < 2 ^ 63 ∧ Z.land (valid (mydev s)) (Z.lnot CABLE_CAPTURE) = 0 ∧
  match state s with
  | Running => running_inv s
  | Prepared => at_pos (mydev s) 0 ∧ running (mydev s) = 0 ∧ ran s = 0 ∧ timer (mydev s) = None
  | _ => running (mydev s) = 0 ∧ timer (mydev s) = None
  end.

(** Positions ignore timer, flags and clock. *)
Lemma at_pos_set d T v r t :
  at_pos d T → at_pos (set_flags v r d) T ∧ at_pos (set_timer t d) T ∧
  at_pos (set_irq false (irq_pos d) d) T.
Proof. intros []. split_and!; by constructor. Qed.

Lemma prepare_ok r d :
  minivosc_pcm_hw r = true → zlen (dma_area d) = frames_to_bytes r (buffer_size r) →
  running d = 0 → Z.land (valid d) (Z.lnot CABLE_CAPTURE) = 0 →
  ∃ d', minivosc_pcm_prepare STREAM_CAPTURE r d = (0, d') ∧ at_pos d' 0 ∧ running d' = 0 ∧
    timer d' = timer d ∧ Z.land (valid d') (Z.lnot CABLE_CAPTURE) = 0.
Proof using HZ_range.
  intros Hhw Hd Hr Hv. unfold minivosc_pcm_hw, MAX_BUFFER in Hhw. zbool.
  unfold minivosc_pcm_prepare. rewrite H, H5, H4, H2, (uwrap_id 32 (frames_to_bytes r (buffer_size r)))
    by (unfold fits_u; lia).
  change ((u32 (u32 (8000 * 1) * 8)) / 8) with 8000. change (8000 <=? 0) with false.
  change (STREAM_CAPTURE =? STREAM_CAPTURE) with true. cbv iota zeta.
  cbn [set_buffer running]. rewrite Hr. change (0 =? 0) with true. cbv iota.
  cbn [set_irq set_buffer valid]. change (Z.shiftl 1 STREAM_CAPTURE) with CABLE_CAPTURE. rewrite Hv. change (0 =? 0) with true. cbv iota.
  eexists. split; [done|]. cbn. split_and!; [|done..|].
  - unfold frac_pos. constructor; cbn; unfold MAX_BUFFER; try done; try lia.
    + rewrite uwrap_id; unfold fits_u; rewrite uwrap_id by (unfold fits_u; lia); lia.
    + rewrite splice_length; [done|lia|]. unfold zlen at 1. rewrite length_replicate. lia.
  - rewrite Z.land_lor_distr_l, Hv. done.
Qed.

Lemma pointer_inv s d' :
  state s = Running → card_inv s → minivosc_pos_update (jiffies s) (mydev s) = Some d' →
  card_inv (Sys d' Running (rt s) (jiffies s) (ran s) (elapsed s)).
Proof using HZ_range.
  intros Hst (Hj&Hv&Hri) Hu. rewrite Hst in Hri. destruct Hri as [Hp Hr Hl Hf (e&Ht&Hub&Hlb)].
  pose proof (ap_irq _ _ Hp) as Hi.
  destruct (pos_update_ok (jiffies s) (mydev s) _ Hp Hr Hl ltac:(lia) Hf) as (d&E&Hp'&Hr'&Hl'&Ht'&Hv'&Hpend).
  rewrite Hu in E. injection E as <-. set (k := (jiffies s - _) * 8000) in *.
  assert (0 ≤ k) as Hk by (unfold k; lia).
  assert (0 ≤ irq_pos (mydev s)) as Hi0 by (rewrite Hi; apply Z.mod_pos_bound; lia).
  assert (irq_pos d' = (irq_pos (mydev s) + k) mod (48 * HZ)) as Hirq'
    by (rewrite (ap_irq _ _ Hp'), Hi; by apply irq_advance).
  assert (irq_pos d' ≤ irq_pos (mydev s) + k) by (rewrite Hirq'; apply Z.mod_le; lia).
  split; [done|]. split; [cbn; congruence|]. constructor; cbn; rewrite ?Hl', ?Z.sub_diag; try done; try lia.
  - replace ((ran s - 0) * 8000) with ((ran s - (jiffies s - last_jiffies (mydev s))) * 8000 + k)
      by (unfold k; lia). done.
  - exists e. split; [congruence|]. split; [unfold k in *; lia|]. rewrite Hpend.
    destruct Hlb as [->|Hlb]; [by left|]. destruct (48 * HZ <=? irq_pos (mydev s) + k) eqn:El.
    + left. by rewrite orb_true_r.
    + right. zbool. rewrite Hirq', Z.mod_small by lia. unfold k. lia.
Qed.

(** A due timer reports the end of a period and is set again. *)
Lemma timer_step_ok s e :
  card_inv s → state s = Running → timer (mydev s) = Some e → e ≤ jiffies s →
  ∃ s', step s ETimer = Some s' ∧ card_inv s' ∧ elapsed s' = elapsed s + 1 ∧
    ∃ e', timer (mydev s') = Some e' ∧ jiffies s < e'.
Proof using HZ_range.
  intros (Hj&Hv&Hri) Hst Hte He. rewrite Hst in Hri. destruct Hri as [Hp Hr Hl Hf (e'&Ht&Hub&Hlb)].
  rewrite Hte in Ht. injection Ht as <-. cbn. rewrite Hte, (proj2 (Z.leb_le _ _)) by lia.
  unfold minivosc_timer_function. set (d0 := set_timer None (mydev s)).
  assert (at_pos d0 ((ran s - (jiffies s - last_jiffies (mydev s))) * 8000)) as Hp0 by (by apply at_pos_set).
  destruct (pos_update_ok (jiffies s) d0 _ Hp0 Hr Hl ltac:(lia) Hf) as (d1&E&Hp1&Hr1&Hl1&_&Hv1&Hpend).
  change (running d0) with (running (mydev s)). rewrite Hr. change (CABLE_CAPTURE =? 0) with false. cbv iota.
  rewrite E. cbn [mbind option_bind].
  destruct (timer_start_ok (jiffies s) d1 _ Hp1 Hj) as (tick&->&Ht1&Ht2). cbn [mbind option_bind].
  cbn in Hpend. cbn [set_timer period_update_pending]. rewrite Hpend.
  replace (period_update_pending (mydev s) || (48 * HZ <=? irq_pos (mydev s) +
    (jiffies s - last_jiffies (mydev s)) * 8000)) with true.
  2:{ symmetry. apply orb_true_iff. destruct Hlb; [by left|right]. apply Z.leb_le. lia. }
  cbn. rewrite Hr1. eexists. split; [done|]. cbn. split; [|split; [done|eexists; split; [done|lia]]].
  split; [done|]. split; [cbn; rewrite Hv1; done|]. cbn. rewrite Hst.
  constructor; cbn; rewrite ?Hl1, ?Z.sub_diag; try done; try lia.
  - cbn in Hp1. replace ((ran s - 0) * 8000) with
      ((ran s - (jiffies s - last_jiffies (mydev s))) * 8000 + (jiffies s - last_jiffies (mydev s)) * 8000)
      by lia. destruct Hp1; by constructor.
  - exists (jiffies s + tick). split; [done|]. split; [lia|]. right. lia.
Qed.

Lemma trigger_inv s cmd s' : card_inv s → step s (ETrigger cmd) = Some s' → card_inv s'.
Proof using HZ_range.
  intros (Hj&Hv&Hinv) Hs. cbn in Hs. unfold minivosc_pcm_trigger in Hs.
  change (Z.shiftl 1 STREAM_CAPTURE) with CABLE_CAPTURE in Hs.
  destruct (state s) eqn:Est; try done.
  - destruct Hinv as (Hp&Hr&Hran&Ht). destruct (cmd =? TRIGGER_STOP) eqn:E0; [done|].
    destruct (cmd =? TRIGGER_START) eqn:E1; cbn -[Z.lor] in Hs.
    2:{ injection Hs as <-. split; [done|]. split; [done|]. cbn. done. }
    rewrite Hr in Hs. cbn in Hs.
    assert (at_pos (set_last (jiffies s) (mydev s)) 0) as Hp' by (destruct Hp; by constructor).
    destruct (timer_start_ok (jiffies s) _ 0 Hp' Hj) as (tick&Et&Ht1&Ht2). rewrite Et in Hs.
    cbn in Hs. rewrite Hr in Hs. injection Hs as <-. split; [done|]. split; [done|].
    constructor; cbn; rewrite ?Z.sub_diag; try done; try lia.
    + rewrite Hran. cbn. destruct Hp; by constructor.
    + cbn in Ht2. exists (jiffies s + tick). split; [done|]. split; [lia|]. right. lia.
  - destruct (cmd =? TRIGGER_START) eqn:E0; [done|]. cbn in Hs.
    destruct (cmd =? TRIGGER_STOP) eqn:E1; cbn in Hs; injection Hs as <-.
    + rewrite (ri_running _ Hinv). cbn. done.
    + split; [done|]. split; [done|]. destruct Hinv. by constructor.
Qed.

Lemma timely_step_inv s ev s' : card_inv s → timely_step s ev = Some s' → card_inv s'.
Proof using HZ_range.
  intros Hinv Hs. unfold timely_step in Hs. destruct (timely s ev) eqn:Htime; [|done].
  pose proof Hinv as (Hj&Hv&Hst). destruct ev.
  - cbn in Hs. destruct (state s); simplify_eq. split_and!; cbn; naive_solver.
  - cbn in Hs. unfold stopped in Hs. destruct (state s); simplify_eq; split_and!; cbn; naive_solver.
  - cbn in Hs. unfold stopped in Hs. destruct (state s); cbn in Hs; try done; case_match; simplify_eq;
      split_and!; cbn; naive_solver.
  - cbn -[minivosc_pcm_prepare] in Hs. destruct (stopped s && _ && _) eqn:E; [|done]. apply andb_true_iff in E as [E E3]. apply andb_true_iff in E as [E1 E2].
    zbool. assert (running (mydev s) = 0 ∧ timer (mydev s) = None) as [Hr Ht]
      by (unfold stopped in E1; destruct (state s); naive_solver).
    destruct (prepare_ok (rt s) (mydev s) E2 E3 Hr Hv) as (d'&Ep&Hp&Hr'&Ht'&Hv').
    rewrite Ep in Hs. cbn in Hs. simplify_eq. split_and!; cbn; try done; try lia. split_and!; congruence.
  - by eapply trigger_inv.
  - cbn in Hs. destruct (state s) eqn:Est; try done. unfold minivosc_pcm_pointer in Hs.
    destruct (minivosc_pos_update (jiffies s) (mydev s)) as [d'|] eqn:E; [|done]. cbn in Hs. simplify_eq.
    by apply pointer_inv.
  - cbn in Hs, Htime. zbool. injection Hs as <-. rewrite uwrap_id by (unfold fits_u; lia).
    destruct (state s) eqn:Est; (split; [cbn; lia|]); (split; [done|]); cbn; try done.
    zbool. destruct Hst as [Hp Hr Hl Hf Ht]. constructor; cbn; try done; try lia.
    replace (ran s + 1 - (jiffies s + 1 - last_jiffies (mydev s))) with
      (ran s - (jiffies s - last_jiffies (mydev s))) by lia. done.
  - assert (state s = Running ∧ ∃ e, timer (mydev s) = Some e ∧ e ≤ jiffies s) as (Est&e&Ht&He).
    { cbn in Hs. destruct (timer (mydev s)) as [e|]; [|done]. destruct (e <=? jiffies s) eqn:El; [|done]. zbool.
      destruct (state s); naive_solver. }
    destruct (timer_step_ok s e Hinv Est Ht He) as (s1&E&H1&_). rewrite Hs in E. by simplify_eq.
Qed.

Lemma card_reachable s : reachable (λ s, s = card) timely_step s → card_inv s.
Proof using HZ_range.
  apply invariant_reachable; [|apply timely_step_inv]. intros ? ->. split_and!; cbn; try done; lia.
Qed.

(** C17 (refinement).  While the card runs, and the time between two updates stays
    below the limit of the 32-bit position ([timely]: at 1000 ticks per second nine
    minutes), the pointer callback never fails and returns exactly the position of an ideal clock: the bytes produced at 8000
    per second since the start, modulo the buffer, whatever timers and pointer
    calls came before. *)
Theorem minivosc_position s :
  reachable (λ s, s = card) timely_step s → state s = Running →
  ∃ d', minivosc_pcm_pointer (jiffies s) (rt s) (mydev s) =
    Some (bytes_to_frames (rt s) (ran s * 8000 / HZ mod pcm_buffer_size d'), d') ∧
    pcm_buffer_size d' = zlen (dma_area d').
Proof using HZ_range.
  intros Hr Hst. destruct (card_reachable s Hr) as (Hj&_&Hri). rewrite Hst in Hri.
  destruct Hri as [Hp Hrun Hl Hf _].
  destruct (pos_update_ok (jiffies s) (mydev s) _ Hp Hrun Hl ltac:(lia) Hf) as (d'&E&[]&_).
  exists d'. unfold minivosc_pcm_pointer. rewrite E. cbn. split; [|done]. rewrite ap_buf0. unfold byte_pos.
  repeat f_equal. lia.
Qed.

(** While the card runs a timer is pending; it is due at the
    first tick at or after the end of the period the last update fell into (so
    at most a period and a tick after that update), and when it is due its
    handler runs without error, reports the period to ALSA exactly once and sets
    the timer again, to a later tick. *)
Theorem minivosc_period s :
  reachable (λ s, s = card) timely_step s → state s = Running →
  ∃ e, timer (mydev s) = Some e ∧
    irq_pos (mydev s) + (e - 1 - last_jiffies (mydev s)) * 8000 < 48 * HZ ∧
    (e ≤ jiffies s → ∃ s' e', step s ETimer = Some s' ∧ elapsed s' = elapsed s + 1 ∧
       timer (mydev s') = Some e' ∧ jiffies s < e').
Proof using HZ_range.
  intros Hr Hst. pose proof (card_reachable s Hr) as Hinv. pose proof Hinv as (Hj&_&Hri). rewrite Hst in Hri.
  destruct (ri_timer _ Hri) as (e&Ht&Hub&_). exists e. split; [done|]. split; [done|]. intros He.
  destruct (timer_step_ok s e Hinv Hst Ht He) as (s'&?&_&?&e'&?&?). eauto 10.
Qed.

(** While the card runs, a fill of [n] bytes never enters the code
    that writes silence; it changes at most the four marked bytes of the capture
    buffer, and it stores outside the buffer exactly when the mark of the end of
    the chunk, at buf_pos + n - 2, lies outside. *)
Theorem minivosc_marks s n :
  reachable (λ s, s = card) timely_step s → state s = Running →
  let d := mydev s in
  ∃ d', minivosc_fill_capture_buf n d = Some d' ∧ rest d' = rest d ∧
    (∀ i, 0 ≤ i → i ≠ 1 → i ≠ pcm_buffer_size d - 2 → i ≠ buf_pos d → i ≠ buf_pos d + n - 2 →
       dma_area d' !! Z.to_nat i = dma_area d !! Z.to_nat i) ∧
    overrun d' = overrun d || negb (inside (buf_pos d + n - 2) d).
Proof using HZ_range.
  intros Hr Hst. destruct (card_reachable s Hr) as (Hj&_&Hri). rewrite Hst in Hri. cbv zeta.
  destruct Hri as [Hp _ _ _ _]. eexists. split; [by eapply fill_ok|].
  split; [apply marks_rest|]. split; [intros; by apply marks_other|].
  destruct Hp as [_ _ Hs Hd _ _ Hb]. apply marks_overrun; [done|lia|].
  rewrite Hb, Hd. apply Z.mod_pos_bound. lia.
Qed.

End clock.

Definition cd_runtime : runtime := Runtime 8000 1 8 8 96 48.
Definition demo : list event :=
  [EOpen; EHwParams cd_runtime (zeros 96); EPrepare; ETrigger TRIGGER_START; ETick; ETick; EPointer; ETick;
   ETick; ETick; ETick].

Lemma minivosc_position_witness :
  ∃ s, run (timely_step 1000) card demo = Some s ∧ state s = Running ∧
    ∃ d', minivosc_pcm_pointer 1000 (jiffies s) (rt s) (mydev s) =
      Some (bytes_to_frames (rt s) (ran s * 8000 / 1000 mod pcm_buffer_size d'), d') ∧
      pcm_buffer_size d' = zlen (dma_area d').
Proof.
  destruct (run (timely_step 1000) card demo) as [s|] eqn:E; [|vm_compute in E; discriminate].
  assert (state s = Running) as Hst by (vm_compute in E; by simplify_eq).
  exists s. split; [reflexivity|]. split; [exact Hst|]. apply (minivosc_position 1000); [lia| |exact Hst].
  apply (run_reachable _ _ demo card); [by apply reach_init|exact E].
Defined.

Lemma minivosc_period_witness :
  ∃ s, run (timely_step 1000) card demo = Some s ∧
    ∃ e, timer (mydev s) = Some e ∧
      irq_pos (mydev s) + (e - 1 - last_jiffies (mydev s)) * 8000 < 48 * 1000 ∧
      (e ≤ jiffies s → ∃ s' e', step 1000 s ETimer = Some s' ∧ elapsed s' = elapsed s + 1 ∧
         timer (mydev s') = Some e' ∧ jiffies s < e').
Proof.
  destruct (run (timely_step 1000) card demo) as [s|] eqn:E; [|vm_compute in E; discriminate].
  assert (state s = Running) as Hst by (vm_compute in E; by simplify_eq).
  exists s. split; [reflexivity|]. apply (minivosc_period 1000); [lia| |exact Hst].
  apply (run_reachable _ _ demo card); [by apply reach_init|exact E].
Defined.

Lemma minivosc_marks_witness :
  ∃ s, run (timely_step 1000) card demo = Some s ∧
    let d := mydev s in
    ∃ d', minivosc_fill_capture_buf 48 d = Some d' ∧ rest d' = rest d ∧
      (∀ i, 0 ≤ i → i ≠ 1 → i ≠ pcm_buffer_size d - 2 → i ≠ buf_pos d → i ≠ buf_pos d + 48 - 2 →
         dma_area d' !! Z.to_nat i = dma_area d !! Z.to_nat i) ∧
      overrun d' = overrun d || negb (inside (buf_pos d + 48 - 2) d).
Proof.
  destruct (run (timely_step 1000) card demo) as [s|] eqn:E; [|vm_compute in E; discriminate].
  assert (state s = Running) as Hst by (vm_compute in E; by simplify_eq).
  exists s. split; [reflexivity|]. apply (minivosc_marks 1000 ltac:(lia) s 48); [|exact Hst].
  apply (run_reachable _ _ demo card); [by apply reach_init|exact E].
Defined.

(** A chunk that wraps around the end of the buffer is marked outside of it: one
    late timer tick is enough. *)
Lemma minivosc_wrap_overruns :
  ∃ s, run (timely_step 1000) card (demo ++ [ETick; ETimer] ++ replicate 6 ETick ++ [ETimer]) = Some s ∧
    overrun (mydev s) = true.
Proof. eexists. split; vm_compute; reflexivity. Qed.

(** ** Probe, module initialisation and exit *)

Record probe_result := Probed {
  p_ret : Z;
  p_drvdata : bool;
  p_card : bool;                 (** the card exists on return *)
  p_bad_free : bool              (** snd_card_free of a card that was not created *)
}.

(** The arguments: what the five ALSA calls return. *)
Definition minivosc_probe (create device_new pcm_new prealloc register : Z) : probe_result :=
  if create <? 0 then Probed create false false true else
  if device_new <? 0 then Probed device_new false false false else
  if pcm_new <? 0 then Probed pcm_new false false false else
  if prealloc <? 0 then Probed prealloc false false false else
  if register =? 0 then Probed 0 true true false
  else Probed register false false false.

Definition minivosc_remove (p : probe_result) : probe_result :=
  Probed 0 false false (p_bad_free p || negb (p_card p)).

(** A probe keeps its card exactly if it succeeds, and remove then frees it; the
    error path frees a card that does not exist exactly when snd_card_create
    failed. *)
Lemma minivosc_probe_card create device_new pcm_new prealloc register :
  let p := minivosc_probe create device_new pcm_new prealloc register in
  p_card p = p_drvdata p ∧ (p_drvdata p = true → p_ret p = 0 ∧ p_bad_free (minivosc_remove p) = false) ∧
  (p_bad_free p = true ↔ create < 0).
Proof.
  unfold minivosc_probe. repeat case_match; zbool; cbn; split_and!; try done; split; (done || lia).
Qed.

(** Registered objects and the array of cards *)
Record platform := Platform { driver : bool; registered : gset nat; devices : list (option nat) }.

Definition minivosc_unregister_all (w : platform) : platform :=
  let gone := list_to_set (omap id (devices w)) in
  Platform false (registered w ∖ gone) (devices w).

(** One iteration: [out] is [None] if registration fails, otherwise whether probe
    left its data. *)
Definition register_card (i : nat) (on : bool) (out : option bool) (w : platform) : platform :=
  if negb on then w else
  match out with
  | None | Some false => w
  | Some true => Platform (driver w) ({[ i ]} ∪ registered w) (<[i := Some i]> (devices w))
  end.

Definition alsa_card_minivosc_init (err : Z) (enable : list bool) (out : nat → option bool) : Z * platform :=
  let none := Platform false ∅ (replicate (length enable) None) in
  if err <? 0 then (err, none) else
  let w := foldl (λ w '(i, on), register_card i on (out i) w)
                 (Platform true ∅ (devices none)) (zip (seq 0 (length enable)) enable) in
  if (length (omap id (devices w)) =? 0)%nat then (- ENODEV, minivosc_unregister_all w) else (0, w).

(** Only cards in the array stay registered. *)
Definition tracked (w : platform) : Prop := ∀ i, i ∈ registered w → Some i ∈ devices w.

Lemma register_card_tracked n i on out w :
  (i < n)%nat → length (devices w) = n → (∀ j, Some j ∈ devices w → devices w !! j = Some (Some j)) →
  tracked w →
  let w' := register_card i on out w in
  length (devices w') = n ∧ (∀ j, Some j ∈ devices w' → devices w' !! j = Some (Some j)) ∧ tracked w'.
Proof.
  intros Hi Hn Hj Hw. unfold register_card. destruct on; cbn; [|done]. destruct out as [[]|]; try done. cbn.
  assert (∀ j, Some j ∈ <[i:=Some i]> (devices w) → <[i:=Some i]> (devices w) !! j = Some (Some j)) as Hj'.
  { intros j (k&Hk)%list_elem_of_lookup. apply list_lookup_insert_Some in Hk as [(->&[= ->]&_)|[Hne Hk]].
    - apply list_lookup_insert_eq. lia.
    - assert (devices w !! j = Some (Some j)) as Hjj by (apply Hj, list_elem_of_lookup; eauto).
      destruct (decide (i = j)) as [->|]; [apply list_lookup_insert_eq; lia|].
      by rewrite list_lookup_insert_ne. }
  split_and!; [by rewrite length_insert|done|]. intros k Hk. cbn in *.
  apply elem_of_union in Hk as [->%elem_of_singleton|Hk].
  - apply list_elem_of_lookup. exists i. apply list_lookup_insert_eq. lia.
  - destruct (decide (i = k)) as [->|Hne].
    + apply list_elem_of_lookup. exists k. apply list_lookup_insert_eq. lia.
    + apply list_elem_of_lookup. exists k. rewrite list_lookup_insert_ne by done. by apply Hj, Hw.
Qed.

Lemma init_tracked out cs w :
  Forall (λ ic : nat * bool, (ic.1 < length (devices w))%nat) cs →
  (∀ j, Some j ∈ devices w → devices w !! j = Some (Some j)) → tracked w →
  tracked (foldl (λ w '(i, on), register_card i on (out i) w) w cs).
Proof.
  revert w. induction cs as [|[i on] cs IH]; cbn; intros w Hcs Hj Hw; [done|].
  apply Forall_cons in Hcs as [Hi Hcs].
  destruct (register_card_tracked _ i on (out i) w Hi eq_refl Hj Hw) as (Hl&Hj'&Hw').
  apply IH; [|done..]. by rewrite Hl.
Qed.

Lemma unregister_tracked w : tracked w → registered (minivosc_unregister_all w) = ∅.
Proof.
  intros Hw. cbn. apply set_eq. intros i. split; [|set_solver]. intros [Hi Hn]%elem_of_difference.
  exfalso. apply Hn, elem_of_list_to_set, list_elem_of_omap. exists (Some i). split; [by apply Hw|done].
Qed.

(** The module registers nothing it does not track: initialisation that fails,
    and exit after initialisation, leave no device and no driver. *)
Lemma minivosc_init_exit err enable out :
  let '(ret, w) := alsa_card_minivosc_init err enable out in
  (ret ≠ 0 → registered w = ∅ ∧ driver w = false) ∧
  registered (minivosc_unregister_all w) = ∅ ∧ driver (minivosc_unregister_all w) = false.
Proof.
  unfold alsa_card_minivosc_init. destruct (err <? 0); [cbn; split_and!; set_solver|].
  match goal with |- context [foldl ?f ?a ?l] => set (w := foldl f a l) end.
  assert (tracked w) as Hw.
  { apply init_tracked; cbn.
    - apply Forall_forall. intros [i on] Hin%elem_of_zip_l. cbn. rewrite length_replicate.
      by apply elem_of_seq in Hin as [_ ?].
    - intros j Hj. by apply elem_of_replicate in Hj as [? _].
    - intros i Hi. cbn in Hi. set_solver. }
  pose proof (unregister_tracked w Hw) as Hu. destruct (_ =? 0)%nat.
  - split_and!; try done. cbn in *. set_solver.
  - done.
Qed.

End Minivosc.
