(* ===== verification/PciMemory.v ===== *)
(** * PCI memory driver

    Models kernel_module/skeleton/pci_memory/pci_core.c and pci_cdev.c: probe and
    remove with the resources they take and give back, mapping of the BARs, link
    retraining, the registration of the character device and its ioctls.  What
    the PCI core, the driver core and the device answer is an argument ([outcomes],
    link status, register contents).  Accesses outside a mapped BAR are recorded
    in [stray]. *)

From S2P Require Import Prelude.

Module PciMemory.

Definition PCI_BAR_NUM : Z := 6.
Definition bar_min_len : list Z := [1024; 0; 1024; 0; 1024; 0].

Definition GOT_REGIONS : Z := Z.shiftl 1 1.
Definition GOT_PCI_DEVICE : Z := Z.shiftl 1 2.
Definition GOT_PCI_DMA : Z := Z.shiftl 1 3.
Definition GOT_PCI_BAR : Z := Z.shiftl 1 4.
Definition GOT_CDEV : Z := Z.shiftl 1 6.

(** A mapped BAR: the bytes mapped, and its 32-bit words. *)
Record bar := Bar { mapped : Z; words : gmap Z Z }.

Record skeleton := Skeleton {
  bars : list (option bar);      (** ske->bar, [None]: NULL *)
  bar_length : list Z;
  pci_gen : Z;
  pci_num_lanes : Z;
  in_use : bool;
  probe_status : Z;
  board : Z;
  stray : bool                   (** an access missed the mapped words *)
}.

Definition new_skeleton : skeleton :=
  Skeleton (replicate 6 None) (replicate 6 0) 0 0 false 0 0 false.

Definition with_bars (b : list (option bar)) (l : list Z) (k : skeleton) : skeleton :=
  Skeleton b l (pci_gen k) (pci_num_lanes k) (in_use k) (probe_status k) (board k) (stray k).
Definition with_link (gen lanes : Z) (k : skeleton) : skeleton :=
  Skeleton (bars k) (bar_length k) gen lanes (in_use k) (probe_status k) (board k) (stray k).
Definition got (flag : Z) (k : skeleton) : skeleton :=
  Skeleton (bars k) (bar_length k) (pci_gen k) (pci_num_lanes k) (in_use k)
    (Z.lor (probe_status k) flag) (board k) (stray k).
Definition with_in_use (k : skeleton) : skeleton :=
  Skeleton (bars k) (bar_length k) (pci_gen k) (pci_num_lanes k) true (probe_status k) (board k) (stray k).
Definition with_board (n : Z) (k : skeleton) : skeleton :=
  Skeleton (bars k) (bar_length k) (pci_gen k) (pci_num_lanes k) (in_use k) (probe_status k) n (stray k).
Definition with_stray (k : skeleton) : skeleton :=
  Skeleton (bars k) (bar_length k) (pci_gen k) (pci_num_lanes k) (in_use k) (probe_status k) (board k) true.

(** ** Registers *)

Definition RETRIES : nat := 21.

(** bar_read: [io n] is what the n-th ioread32 of the call returns. *)
Fixpoint bar_read_loop (fuel : nat) (io : nat → Z) (c : nat) : Z :=
  match fuel with
  | O => 0
  | S fuel => if io c =? 0xffffffff then bar_read_loop fuel io (S c) else io c
  end.
Definition bar_read (io : nat → Z) : Z := bar_read_loop RETRIES io 0.

(** iowrite32 (value, bar + 4 * index) *)
Definition iowrite32 (b : nat) (index value : Z) (k : skeleton) : skeleton :=
  match bars k !! b with
  | Some (Some x) =>
      if (0 <=? index) && (4 * index + 4 <=? mapped x)
      then with_bars (<[b := Some (Bar (mapped x) (<[index := value]> (words x)))]> (bars k)) (bar_length k) k
      else with_stray k
  | _ => with_stray k
  end.

Definition bar_write (b : nat) (offset value : Z) (k : skeleton) : skeleton :=
  iowrite32 b (Z.shiftr offset 2) value k.

(** The words a device that behaves as memory returns; an access outside the
    mapping has no value. *)
Definition ioread32 (b : nat) (index : Z) (k : skeleton) : option Z :=
  match bars k !! b with
  | Some (Some x) =>
      if (0 <=? index) && (4 * index + 4 <=? mapped x) then Some (default 0 (words x !! index)) else None
  | _ => None
  end.

(** ** Memory test *)

(** for (l = 0; l < length; l++) iowrite32 (value, p + ((offset + l) >> 2)); *)
Definition mem_test (b : nat) (offset length value : Z) (k : skeleton) : Z * skeleton :=
  let len := default 0 (bar_length k !! b) in
  if len =? 0 then (-1, k) else
  if len <? u32 (offset + length) then (-1, k) else
  (0, foldl (λ k l, iowrite32 b (Z.shiftr (u32 (offset + l)) 2) value k) k (seqZ 0 length)).

(** ** ioctl *)

Record reg_info := RegInfo { r_bar : Z; reg_add : Z; reg_data : Z }.
Record bar_info := BarInfo { num : Z; bi_length : Z }.
Record pci_info := PciInfo { fw_ver : Z; fpga_ver : Z; i_lanes : Z; i_gen : Z; i_bar : list bar_info }.
Record mem_test_info := MemTest { t_num : Z; t_offset : Z; t_length : Z }.
Definition MEM_TEST_ALL : Z := 0xff.

Record pci_conf := PciConf {
  vendor_id : Z; device_id : Z; command : Z; status : Z; revision_id : Z; class_code : Z;
  cache_line : Z; latency_timer : Z; header_type : Z; bist : Z; base_addr : list Z; card_bus_cis : Z;
  sub_vendor_id : Z; sub_device_id : Z; rom_addr : Z; interrupt_line : Z; interrupt_pin : Z;
  mix_gnt : Z; max_lat : Z
}.

(** Configuration space of the device, by width and offset *)
Record config_space := Config { cfg8 : Z → Z; cfg16 : Z → Z; cfg32 : Z → Z }.

Definition pci_get_conf (c : config_space) : pci_conf :=
  let class_revision := cfg32 c 0x08 in
  PciConf (cfg16 c 0x00) (cfg16 c 0x02) (cfg16 c 0x04) (cfg16 c 0x06)
    (Z.land class_revision 0xFF) (Z.shiftr class_revision 8)
    (cfg8 c 0x0c) (cfg8 c 0x0d) (cfg8 c 0x0e) (cfg8 c 0x0f)
    [cfg32 c 0x10; cfg32 c 0x14; cfg32 c 0x18; cfg32 c 0x1c; cfg32 c 0x20; cfg32 c 0x24]
    (cfg32 c 0x28) (cfg16 c 0x2c) (cfg16 c 0x2e) (cfg16 c 0x30)
    (cfg8 c 0x3c) (cfg8 c 0x3d) (cfg8 c 0x3e) (cfg8 c 0x3f).

(** A command with the structure its argument points to. *)
Inductive request :=
| GetInfo (i : pci_info)
| GetReg (r : reg_info)
| SetReg (r : reg_info)
| GetPciConf
| DoMemTest (t : mem_test_info)
| Unknown (cmd : Z).

(** What is copied back to the caller *)
Inductive reply := NoReply | RInfo (i : pci_info) | RReg (r : reg_info) | RConf (c : pci_conf)
| RMem (t : mem_test_info).

Definition copy_back (out_ok : bool) (r : reply) (k : skeleton) : Z * reply * skeleton :=
  if out_ok then (0, r, k) else (- EFAULT, NoReply, k).

Definition skeleton_GetReg (in_ok out_ok : bool) (io : nat → Z) (r : reg_info) (k : skeleton)
    : Z * reply * skeleton :=
  if negb in_ok then (- EFAULT, NoReply, k) else
  if PCI_BAR_NUM <=? r_bar r then (- EINVAL, NoReply, k) else
  let k := match ioread32 (Z.to_nat (r_bar r)) (Z.shiftr (reg_add r) 2) k with
           | Some _ => k | None => with_stray k end in
  copy_back out_ok (RReg (RegInfo (r_bar r) (reg_add r) (bar_read io))) k.

Definition skeleton_SetReg (in_ok : bool) (r : reg_info) (k : skeleton) : Z * reply * skeleton :=
  if negb in_ok then (- EFAULT, NoReply, k) else
  if PCI_BAR_NUM <=? r_bar r then (- EINVAL, NoReply, k) else
  (0, NoReply, bar_write (Z.to_nat (r_bar r)) (reg_add r) (reg_data r) k).

(** for (i = 0; i > PCI_BAR_NUM; i++) { ... } from a given [i] *)
Fixpoint info_loop (fuel : nat) (i : nat) (lens : list Z) (l : list bar_info) : list bar_info :=
  match fuel with
  | O => l
  | S fuel =>
      if PCI_BAR_NUM <? Z.of_nat i
      then info_loop fuel (S i) lens (<[i := BarInfo (Z.of_nat i) (default 0 (lens !! i))]> l) else l
  end.

Definition skeleton_get_info (in_ok out_ok : bool) (i : pci_info) (k : skeleton) : Z * reply * skeleton :=
  if negb in_ok then (- EFAULT, NoReply, k) else
  copy_back out_ok (RInfo (PciInfo 1 2 (i_lanes i) (i_gen i) (info_loop 1 0 (bar_length k) (i_bar i)))) k.

Definition skeleton_GetPciConf (in_ok out_ok : bool) (c : config_space) (k : skeleton)
    : Z * reply * skeleton :=
  if negb in_ok then (- EFAULT, NoReply, k) else copy_back out_ok (RConf (pci_get_conf c)) k.

Definition skeleton_mem_test (in_ok out_ok : bool) (t : mem_test_info) (k : skeleton)
    : Z * reply * skeleton :=
  if negb in_ok then (- EFAULT, NoReply, k) else
  if t_num t =? MEM_TEST_ALL then
    copy_back out_ok (RMem t)
      (foldl (λ k i, (mem_test i 0 (u32 (default 0 (bar_length k !! i))) 0x55aa55aa k).2) k (seq 0 6))
  else if t_num t <? PCI_BAR_NUM then
    copy_back out_ok (RMem t) (mem_test (Z.to_nat (t_num t)) (t_offset t) (t_length t) 0x55aa55aa k).2
  else (-1, NoReply, k).

Definition skeleton_cdev_ioctl (in_ok out_ok : bool) (io : nat → Z) (c : config_space) (req : request)
    (k : skeleton) : Z * reply * skeleton :=
  match req with
  | GetInfo i => skeleton_get_info in_ok out_ok i k
  | GetReg r => skeleton_GetReg in_ok out_ok io r k
  | SetReg r => skeleton_SetReg in_ok r k
  | GetPciConf => skeleton_GetPciConf in_ok out_ok c k
  | DoMemTest t => skeleton_mem_test in_ok out_ok t k
  | Unknown _ => (- EINVAL, NoReply, k)
  end.

(** ** Mapping the BARs *)

(** pci_resource_start and _end of each BAR, and whether pci_iomap succeeds *)
Record resource := Resource { start : Z; end_ : Z; iomap_ok : bool }.

Definition pci_unpci_map_bars (k : skeleton) : skeleton :=
  with_bars ((λ _, None) <$> bars k) (bar_length k) k.

Fixpoint map_bars_loop (i : nat) (rs : list (resource * Z)) (k : skeleton) : Z * skeleton :=
  match rs with
  | [] => (0, k)
  | (r, min_len) :: rs =>
      let k := with_bars (<[i := None]> (bars k)) (bar_length k) k in
      let len := u64 (end_ r - start r + 1) in
      if min_len =? 0 then map_bars_loop (S i) rs k else
      if (start r =? 0) || (end_ r =? 0) then map_bars_loop (S i) rs k else
      if len <? min_len then (-1, pci_unpci_map_bars k) else
      if negb (iomap_ok r) then (-1, pci_unpci_map_bars k) else
      map_bars_loop (S i) rs
        (with_bars (<[i := Some (Bar min_len ∅)]> (bars k)) (<[i := len]> (bar_length k)) k)
  end.
Definition pci_map_bars (rs : list resource) (k : skeleton) : Z * skeleton :=
  map_bars_loop 0 (zip rs bar_min_len) k.

(** ** Link training *)

(** The bridge above a device, if it has a bus with a bridge that lists it. *)
Record pci_bus := Bus { bridge : option nat; bus_devices : list nat }.
Definition find_upstream_dev (dev : nat) (bus : option pci_bus) : option nat :=
  match bus with
  | None => None
  | Some b =>
      match bridge b with
      | None => None
      | Some u => if bool_decide (dev ∈ bus_devices b) then Some u else None
      end
  end.

Definition link_speed (linkstat : Z) : Z := Z.land linkstat 0x000f.
Definition link_width (linkstat : Z) : Z := Z.shiftr (Z.land linkstat 0x03f0) 4.
Definition LINKSPEED_5_0_GB : Z := 2.

Definition note_link (linkstat : Z) (k : skeleton) : skeleton :=
  with_link (if link_speed linkstat =? LINKSPEED_5_0_GB then 2 else 1) (link_width linkstat) k.

(** while (training && timeout < 50): [busy n] is the training bit of the n-th
    poll; the result: still training?, milliseconds waited. *)
Fixpoint wait_training (fuel : nat) (busy : nat → bool) (timeout : nat) : bool * nat :=
  match fuel with
  | O => (true, timeout)
  | S fuel => if busy timeout then wait_training fuel busy (S timeout) else (false, S timeout)
  end.

(** From [retrain:]; [busy] and [link] answer the polls and the link status of each
    attempt.  The result: the device, attempts made and milliseconds waited. *)
Fixpoint retrain (fuel : nat) (busy : nat → nat → bool) (link : nat → Z) (count waited : nat) (k : skeleton)
    : option (skeleton * nat * nat) :=
  match fuel with
  | O => None
  | S fuel =>
      let '(_, ms) := wait_training 50 (busy count) 0 in
      let k := note_link (link count) k in
      let waited := (waited + ms)%nat in
      if link_speed (link count) =? LINKSPEED_5_0_GB then
        if negb (link_width (link count) =? 4) then
          if (10 <? S count)%nat then Some (k, S count, waited)
          else retrain fuel busy link (S count) waited k
        else Some (k, S count, waited)
      else Some (k, S count, waited)
  end.

Definition retrain_gen2 (cap : bool) (upstream : option nat) (link0 : Z) (busy : nat → nat → bool)
    (link : nat → Z) (k : skeleton) : option (skeleton * nat * nat) :=
  if negb cap then Some (k, 0%nat, 0%nat) else
  match upstream with
  | None => Some (k, 0%nat, 0%nat)
  | Some _ =>
      let k := note_link link0 k in
      if (link_speed link0 =? LINKSPEED_5_0_GB) && (link_width link0 =? 4) then Some (k, 0%nat, 0%nat)
      else retrain 11 busy link 0 0 k
  end.

(** ** Resources *)

(** What the driver holds from the kernel and its global variables *)
Record world := World {
  enabled : Z;                   (** calls of pci_enable_device not yet undone *)
  regions : bool;                (** pci_request_regions *)
  chrdev : bool;                 (** the device number region *)
  cdevs : gset Z;                (** minors added *)
  cdev_mem : Z;                  (** struct cdev allocated *)
  bus : bool; driver : bool; version_file : bool; class : bool;
  nodes : gset Z;                (** device_create *)
  cdev_major : Z; cdev_st_minor : Z; cdev_count : Z; devcount : Z
}.

Definition with_pci (e : Z) (r : bool) (w : world) : world :=
  World e r (chrdev w) (cdevs w) (cdev_mem w) (bus w) (driver w) (version_file w) (class w) (nodes w)
    (cdev_major w) (cdev_st_minor w) (cdev_count w) (devcount w).
Definition with_chrdev (b : bool) (major minor : Z) (w : world) : world :=
  World (enabled w) (regions w) b (cdevs w) (cdev_mem w) (bus w) (driver w) (version_file w) (class w)
    (nodes w) major minor (cdev_count w) (devcount w).
Definition with_cdev (c : gset Z) (m : Z) (w : world) : world :=
  World (enabled w) (regions w) (chrdev w) c m (bus w) (driver w) (version_file w) (class w) (nodes w)
    (cdev_major w) (cdev_st_minor w) (cdev_count w) (devcount w).
Definition with_sysfs (b d f c : bool) (w : world) : world :=
  World (enabled w) (regions w) (chrdev w) (cdevs w) (cdev_mem w) b d f c (nodes w)
    (cdev_major w) (cdev_st_minor w) (cdev_count w) (devcount w).
Definition with_nodes (n : gset Z) (count : Z) (w : world) : world :=
  World (enabled w) (regions w) (chrdev w) (cdevs w) (cdev_mem w) (bus w) (driver w) (version_file w)
    (class w) n (cdev_major w) (cdev_st_minor w) count (devcount w).
Definition with_devcount (n : Z) (w : world) : world :=
  World (enabled w) (regions w) (chrdev w) (cdevs w) (cdev_mem w) (bus w) (driver w) (version_file w)
    (class w) (nodes w) (cdev_major w) (cdev_st_minor w) (cdev_count w) n.

Definition pci_disable_device (w : world) : world := with_pci (enabled w - 1) (regions w) w.

(** The device being probed, on its bus *)
Definition self : nat := 1.

(** What the calls of a probe return. *)
Record outcomes := Outcomes {
  o_enable : Z; o_dma32 : Z; o_kzalloc : bool;                        (** pci_probe *)
  o_enable2 : Z; o_request : Z; o_dma64' : Z; o_dma32' : Z;             (** pci_init *)
  o_resources : list resource;
  o_cap : bool; o_pci_bus : option pci_bus; o_link0 : Z; o_busy : nat → nat → bool; o_link : nat → Z;
  o_alloc : Z; o_major : Z; o_minor : Z; o_cdev : bool; o_add : Z;      (** skeleton_init_cdev *)
  o_bus : Z; o_driver : Z; o_file : Z; o_class : Z
}.

(** The registration of board [b]; the labels of its error path in the order they
    fall through. *)
Definition cdev_err (w : world) : world := with_cdev (cdevs w) (cdev_mem w - 1) w.
Definition bus_register_err (minor : Z) (w : world) : world :=
  cdev_err (with_cdev (cdevs w ∖ {[ minor ]}) (cdev_mem w) w).
Definition driver_register_err (minor : Z) (w : world) : world :=
  bus_register_err minor (with_sysfs false (driver w) (version_file w) (class w) w).
Definition driver_create_file_err (minor : Z) (w : world) : world :=
  driver_register_err minor (with_sysfs (bus w) false (version_file w) (class w) w).
Definition class_register_err (minor : Z) (w : world) : world :=
  driver_create_file_err minor (with_sysfs (bus w) (driver w) false (class w) w).

Definition skeleton_init_cdev (o : outcomes) (b : Z) (w : world) : Z * world :=
  let fresh := cdev_major w =? 0 in
  if fresh && (o_alloc o <? 0) then (o_alloc o, w) else
  let w := if fresh then with_chrdev true (o_major o) (o_minor o) w else w in
  let minor := cdev_st_minor w + b in
  if negb (o_cdev o) then (-1, w) else
  let w := with_cdev (cdevs w) (cdev_mem w + 1) w in
  if negb (o_add o =? 0) then (-1, cdev_err w) else
  let w := with_cdev ({[ minor ]} ∪ cdevs w) (cdev_mem w) w in
  let finish (w : world) := (0, with_nodes ({[ minor ]} ∪ nodes w) (cdev_count w + 1) w) in
  if negb (b =? 0) then finish w else
  if o_bus o <? 0 then (-1, bus_register_err minor w) else
  let w := with_sysfs true (driver w) (version_file w) (class w) w in
  if o_driver o <? 0 then (-1, driver_register_err minor w) else
  let w := with_sysfs (bus w) true (version_file w) (class w) w in
  if o_file o <? 0 then (-1, driver_create_file_err minor w) else
  let w := with_sysfs (bus w) (driver w) true (class w) w in
  if o_class o <? 0 then (-1, class_register_err minor w) else
  let w := with_sysfs (bus w) (driver w) (version_file w) true w in
  finish w.

Definition skeleton_ioctl_unregister (b : Z) (w : world) : world :=
  if cdev_major w <=? 0 then w else
  let minor := b + cdev_st_minor w in
  let w := with_nodes (nodes w ∖ {[ minor ]}) (cdev_count w) w in
  let w := with_cdev (cdevs w ∖ {[ minor ]}) (cdev_mem w - 1) w in
  let w := with_nodes (nodes w) (cdev_count w - 1) w in
  if cdev_count w <=? 0 then
    with_chrdev false (cdev_major w) (cdev_st_minor w) (with_sysfs false false false false w)
  else w.

Definition pci_init (o : outcomes) (w : world) (k : skeleton) : option (Z * world * skeleton) :=
  if negb (o_enable2 o =? 0) then Some (-1, w, k) else
  let w := with_pci (enabled w + 1) (regions w) w in
  let k := got GOT_PCI_DEVICE k in
  if negb (o_request o =? 0) then Some (-1, w, with_in_use k) else
  let w := with_pci (enabled w) true w in
  let k := got GOT_REGIONS k in
  if negb (o_dma64' o =? 0) && negb (o_dma32' o =? 0) then Some (-1, w, k) else
  let k := got GOT_PCI_DMA k in
  '(k, _, _) ← retrain_gen2 (o_cap o) (find_upstream_dev self (o_pci_bus o)) (o_link0 o) (o_busy o) (o_link o) k;
  let '(rc, k) := pci_map_bars (o_resources o) k in
  if negb (rc =? 0) then Some (-1, w, k) else Some (0, w, got GOT_PCI_BAR k).

Definition pci_probe (o : outcomes) (w : world) : option (Z * world * skeleton) :=
  let k := new_skeleton in
  if negb (o_enable o =? 0) then Some (o_enable o, w, k) else
  let w := with_pci (enabled w + 1) (regions w) w in
  if negb (o_dma32 o =? 0) then Some (o_dma32 o, pci_disable_device w, k) else
  if negb (o_kzalloc o) then Some (- ENOMEM, w, k) else
  '(ret, w, k) ← pci_init o w k;
  if negb (ret =? 0) then Some (- EINVAL, pci_disable_device w, k) else
  let k := with_board (devcount w) k in
  let w := with_devcount (devcount w + 1) w in
  let '(ret, w) := skeleton_init_cdev o (board k) w in
  if negb (ret =? 0) then Some (ret, pci_disable_device (with_devcount (devcount w - 1) w), k)
  else Some (0, w, got GOT_CDEV k).

Definition has (flag : Z) (k : skeleton) : bool := negb (Z.land (probe_status k) flag =? 0).

Definition pci_remove (w : world) (k : skeleton) : world * skeleton :=
  let w := if has GOT_CDEV k then skeleton_ioctl_unregister (board k) w else w in
  let k := if has GOT_PCI_BAR k then pci_unpci_map_bars k else k in
  let w := if has GOT_REGIONS k then with_pci (enabled w) false w else w in
  let w := if has GOT_PCI_DEVICE k then pci_disable_device w else w in
  (with_devcount (devcount w - 1) w, k).

(** Nothing probed *)
Definition fresh : world := World 0 false false ∅ 0 false false false false ∅ 0 0 0 0.

(** ** Loops come to an end *)

Lemma wait_training_bound fuel busy t : ((wait_training fuel busy t).2 ≤ t + fuel)%nat.
Proof.
  revert t. induction fuel as [|fuel IH]; intros t; cbn; [lia|].
  destruct (busy t); [|cbn; lia]. specialize (IH (S t)). lia.
Qed.

Lemma retrain_total fuel busy link count waited k :
  (count + fuel = 11)%nat → (1 ≤ fuel)%nat → (waited ≤ 50 * count)%nat →
  ∃ k' n ms, retrain fuel busy link count waited k = Some (k', n, ms) ∧ (n ≤ 11)%nat ∧ (ms ≤ 50 * n)%nat ∧
    bars k' = bars k ∧ bar_length k' = bar_length k ∧ probe_status k' = probe_status k.
Proof.
  revert count waited k. induction fuel as [|fuel IH]; intros count waited k Hc H1 Hw; [lia|].
  cbn [retrain]. pose proof (wait_training_bound 50 (busy count) 0) as Hms.
  destruct (wait_training 50 (busy count) 0) as [tr ms]. cbn in Hms.
  assert (∃ k' n m, Some (note_link (link count) k, S count, (waited + ms)%nat) = Some (k', n, m) ∧
    (n ≤ 11)%nat ∧ (m ≤ 50 * n)%nat ∧ bars k' = bars k ∧ bar_length k' = bar_length k ∧
    probe_status k' = probe_status k) as Hstop.
  { eexists _, _, _. split; [done|]. split_and!; try done; lia. }
  destruct (_ =? LINKSPEED_5_0_GB); [|done]. destruct (_ =? 4); cbn [negb]; [done|].
  destruct (10 <? S count)%nat eqn:E; [done|]. apply Nat.ltb_ge in E.
  destruct (IH (S count) (waited + ms)%nat (note_link (link count) k)) as (k'&n&m&Hr&?&?&?&?&?); [lia..|].
  eexists _, _, _. split; [done|]. done.
Qed.

Lemma retrain_gen2_total cap up link0 busy link k :
  ∃ k' n ms, retrain_gen2 cap up link0 busy link k = Some (k', n, ms) ∧ (n ≤ 11)%nat ∧ (ms ≤ 550)%nat ∧
    bars k' = bars k ∧ bar_length k' = bar_length k ∧ probe_status k' = probe_status k.
Proof.
  unfold retrain_gen2.
  assert (∀ k', bars k' = bars k → bar_length k' = bar_length k → probe_status k' = probe_status k →
    ∃ k'' n ms, Some (k', 0%nat, 0%nat) = Some (k'', n, ms) ∧ (n ≤ 11)%nat ∧ (ms ≤ 550)%nat ∧
      bars k'' = bars k ∧ bar_length k'' = bar_length k ∧ probe_status k'' = probe_status k) as H0.
  { intros k' ???. eexists _, _, _. split; [done|]. split_and!; (done || lia). }
  destruct cap; cbn [negb]; [|by apply H0]. destruct up as [u|]; [|by apply H0].
  destruct (_ && _); [by apply H0|].
  destruct (retrain_total 11 busy link 0 0 (note_link link0 k)) as (k'&n&ms&->&?&?&?&?&?); [lia..|].
  eexists _, _, _. split; [done|]. split_and!; (done || lia).
Qed.

(** ** Mapped BARs *)

(** Either every required BAR that is present is mapped, or none is. *)
Lemma map_bars_fail rs : ∀ i k rc k',
  map_bars_loop i rs k = (rc, k') → probe_status k' = probe_status k ∧ (rc ≠ 0 → Forall (.= None) (bars k')).
Proof.
  induction rs as [|[r len] rs IH]; cbn; intros i k rc k' H; [by simplify_eq|].
  assert (∀ k0, probe_status k0 = probe_status k → (-1, pci_unpci_map_bars k0) = (rc, k') →
    probe_status k' = probe_status k ∧ (rc ≠ 0 → Forall (.= None) (bars k'))) as Hfail.
  { intros k0 Hk [= <- <-]. split; [done|]. intros _. cbn. by apply Forall_fmap, Forall_true. }
  destruct (len =? 0); [by apply IH in H|]. destruct (_ || _); [by apply IH in H|].
  destruct (_ <? len); [by eapply Hfail; [|done]|].
  destruct (iomap_ok r); cbn in H; [by apply IH in H|by eapply Hfail; [|done]].
Qed.

Lemma unmap_none k : Forall (.= None) (bars (pci_unpci_map_bars k)).
Proof. cbn. by apply Forall_fmap, Forall_true. Qed.

(** ** Probe and remove *)

(** The registrations behind the character device *)
Definition registrations (w : world) :=
  (cdevs w, cdev_mem w, bus w, driver w, version_file w, class w, nodes w, cdev_count w).
Definition no_registrations : gset Z * Z * bool * bool * bool * bool * gset Z * Z :=
  (∅, 0, false, false, false, false, ∅, 0).

(** From a state with no registration, a failing call undoes all of its own and
    only the device number region can stay. *)
Lemma init_cdev_fail o w ret w' :
  registrations w = no_registrations → skeleton_init_cdev o 0 w = (ret, w') → ret ≠ 0 →
  registrations w' = no_registrations ∧ devcount w' = devcount w ∧ enabled w' = enabled w ∧
  regions w' = regions w.
Proof.
  intros [= Hc Hm Hb Hd Hf Hcl Hn Hct] Hi Hret. unfold skeleton_init_cdev in Hi.
  repeat (case_match; cbn in Hi); simplify_eq; split_and!; try done;
    unfold registrations, no_registrations; cbn; rewrite ?Hc, ?Hm, ?Hb, ?Hd, ?Hf, ?Hcl, ?Hn, ?Hct;
    repeat f_equal; set_solver.
Qed.

Lemma init_cdev_done o w w' :
  registrations w = no_registrations → chrdev w = false → cdev_major w = 0 →
  skeleton_init_cdev o 0 w = (0, w') → (o_alloc o <? 0) = false ∧
  w' = World (enabled w) (regions w) true {[ o_minor o ]} 1 true true true true {[ o_minor o ]}
         (o_major o) (o_minor o) 1 (devcount w).
Proof.
  intros [= Hc Hm Hb Hd Hf Hcl Hn Hct] Hchr Hmaj Hi. unfold skeleton_init_cdev in Hi.
  rewrite Hmaj in Hi. cbn [Z.eqb andb] in Hi.
  destruct (o_alloc o <? 0) eqn:Ea; [zbool; simplify_eq; lia|].
  split; [done|]. repeat (case_match; cbn in Hi; try done). simplify_eq. cbn.
  rewrite Hc, Hm, Hn, Hct, Z.add_0_r, right_id_L by apply _. reflexivity.
Qed.

Lemma pci_init_total o w k :
  ∃ ret w' k', pci_init o w k = Some (ret, w', k') ∧ registrations w' = registrations w ∧
    devcount w' = devcount w ∧ cdev_major w' = cdev_major w ∧ chrdev w' = chrdev w ∧
    (ret = 0 → enabled w' = enabled w + 1 ∧ regions w' = true ∧
       probe_status k' = Z.lor (Z.lor (Z.lor (Z.lor (probe_status k) GOT_PCI_DEVICE) GOT_REGIONS) GOT_PCI_DMA)
                               GOT_PCI_BAR).
Proof.
  unfold pci_init.
  destruct (retrain_gen2_total (o_cap o) (find_upstream_dev self (o_pci_bus o)) (o_link0 o) (o_busy o) (o_link o)
    (got GOT_PCI_DMA (got GOT_REGIONS (got GOT_PCI_DEVICE k)))) as (k1&n&ms&Hr&_&_&_&_&Hst).
  rewrite Hr. cbn [mbind option_bind].
  destruct (pci_map_bars (o_resources o) k1) as [rc k2] eqn:Em.
  pose proof (map_bars_fail _ _ _ _ _ Em) as [Hst2 _].
  repeat case_match; eexists _, _, _; (split; [done|]); split_and!; try done.
  intros _. cbn. split_and!; try done. by rewrite Hst2, Hst.
Qed.

(** What remove leaves of a world and a device *)
Definition released (o : outcomes) (w : world) (k : skeleton) : Prop :=
  w = World 1 false false ∅ 0 false false false false ∅ (o_major o) (o_minor o) 0 0 ∧
  Forall (.= None) (bars k).

Lemma remove_releases o w k :
  0 < o_major o → has GOT_CDEV k = true → has GOT_PCI_BAR k = true → has GOT_REGIONS k = true →
  has GOT_PCI_DEVICE k = true → board k = 0 →
  w = World 2 true true {[ o_minor o ]} 1 true true true true {[ o_minor o ]} (o_major o) (o_minor o) 1 1 →
  released o (pci_remove w k).1 (pci_remove w k).2.
Proof.
  intros Hmaj H1 H2 H3 H4 Hb ->. unfold pci_remove.
  assert (has GOT_REGIONS (pci_unpci_map_bars k) = true) as H3' by exact H3.
  assert (has GOT_PCI_DEVICE (pci_unpci_map_bars k) = true) as H4' by exact H4.
  rewrite H1, H2, H3', H4', Hb. split; [|apply unmap_none].
  unfold skeleton_ioctl_unregister. cbn [cdev_major]. rewrite (proj2 (Z.leb_gt _ _)) by lia.
  cbn. by rewrite difference_diag_L.
Qed.

(** Probing ends (the link is retrained at most eleven times) and,
    from a state where the driver holds nothing: after a probe that succeeds,
    remove gives back the regions, every BAR mapping, the character device with
    its sysfs objects and its number region, and all but one of the enable
    references; after a probe that fails no character device, sysfs object or
    device count is left. *)
Theorem pci_probe_remove o :
  0 < o_major o →
  ∃ ret w k, pci_probe o fresh = Some (ret, w, k) ∧
    (ret = 0 → released o (pci_remove w k).1 (pci_remove w k).2) ∧
    (ret ≠ 0 → registrations w = no_registrations ∧ devcount w = 0).
Proof.
  intros Hmaj. unfold pci_probe.
  destruct (o_enable o =? 0) eqn:E1; cbn [negb]; zbool; [|eexists _, _, _; by split_and!].
  destruct (o_dma32 o =? 0) eqn:E2; cbn [negb]; zbool; [|eexists _, _, _; by split_and!].
  destruct (o_kzalloc o); cbn [negb]; [|eexists _, _, _; by split_and!].
  destruct (pci_init_total o (with_pci (enabled fresh + 1) (regions fresh) fresh) new_skeleton)
    as (ret&w&k&->&Hreg&Hdc&Hcm&Hchr&Hok). cbn [mbind option_bind].
  destruct (ret =? 0) eqn:E3; cbn [negb]; zbool; [|eexists _, _, _; split; [done|]; by split].
  destruct (Hok E3) as (Hen&Hrg&Hst). cbn [with_board board].
  rewrite Hdc. set (w1 := with_devcount _ w). assert (registrations w1 = no_registrations) as Hreg1 by exact Hreg.
  destruct (skeleton_init_cdev o 0 w1) as [ret2 w2] eqn:Ei. cbn in Ei |- *. rewrite Ei.
  destruct (ret2 =? 0) eqn:E4; cbn [negb]; zbool.
  - subst ret2. destruct (init_cdev_done o w1 w2 Hreg1 Hchr Hcm Ei) as [_ Hw2].
    eexists _, _, _. split; [done|]. split; [|done]. intros _.
    apply remove_releases; [done|unfold has; cbn; rewrite Hst; reflexivity..|done|].
    rewrite Hw2. cbn. by rewrite Hen, Hrg.
  - destruct (init_cdev_fail o w1 ret2 w2 Hreg1 Ei E4) as (Hr2&Hd2&_&_).
    eexists _, _, _. split; [done|]. split; [done|]. intros _. split; [exact Hr2|]. cbn. rewrite Hd2. done.
Qed.

Definition good : outcomes :=
  Outcomes 0 0 true 0 0 0 0
    [Resource 0x1000 0x1fff true; Resource 0 0 true; Resource 0x2000 0x23ff true; Resource 0 0 true;
     Resource 0x3000 0x37ff true; Resource 0 0 true]
    true (Some (Bus (Some 7%nat) [0; 1]%nat)) 0x11 (λ _ n, bool_decide (n < 3)%nat) (λ n, if bool_decide (n = 1)%nat then 0x42 else 0x22)
    0 240 0 true 0 0 0 0 0.

Lemma pci_probe_remove_witness :
  0 < o_major good ∧
  ∃ ret w k, pci_probe good fresh = Some (ret, w, k) ∧
    (ret = 0 → released good (pci_remove w k).1 (pci_remove w k).2) ∧
    (ret ≠ 0 → registrations w = no_registrations ∧ devcount w = 0).
Proof. split; [reflexivity|]. apply (pci_probe_remove good). reflexivity. Defined.

(** A probe that fails once the regions are requested keeps them. *)
Lemma pci_probe_leaks_regions :
  ∃ w k, pci_probe (Outcomes 0 0 true 0 0 0 0 [Resource 0x1000 0x100f true] true None 0 (λ _ _, false) (λ _, 0)
                     0 240 0 true 0 0 0 0 0) fresh = Some (- EINVAL, w, k) ∧
    regions w = true ∧ enabled w = 1.
Proof. eexists _, _. split; [vm_compute; reflexivity|]. done. Qed.

(** skeleton_ioctl_unregister gives the number region back but keeps cdev_major, so
    the next probe adds its device without allocating a region. *)
Lemma pci_reprobe_without_region o w :
  cdev_major w ≠ 0 → chrdev w = false → (skeleton_init_cdev o 0 w).2.(chrdev) = false.
Proof.
  intros Hm Hc. unfold skeleton_init_cdev. rewrite (proj2 (Z.eqb_neq _ _)) by done. cbn [andb].
  repeat case_match; done.
Qed.

(** ** Memory test and registers *)

(** Word [i] of BAR [b] *)
Definition word (k : skeleton) (b : nat) (i : Z) : option Z :=
  match bars k !! b with Some (Some x) => words x !! i | _ => None end.
Definition map_len (k : skeleton) (b : nat) : Z :=
  match bars k !! b with Some (Some x) => mapped x | _ => 0 end.

Lemma iowrite32_spec b i v k :
  0 ≤ i → 0 < map_len k b →
  map_len (iowrite32 b i v k) b = map_len k b ∧ bar_length (iowrite32 b i v k) = bar_length k ∧
  stray (iowrite32 b i v k) = stray k || (map_len k b <? 4 * i + 4) ∧
  (∀ j, word (iowrite32 b i v k) b j =
     if decide (j = i ∧ 4 * i + 4 ≤ map_len k b) then Some v else word k b j).
Proof.
  intros Hi Hm. unfold map_len in Hm. unfold iowrite32, map_len, word.
  destruct (bars k !! b) as [[x|]|] eqn:E; [|lia..].
  rewrite (proj2 (Z.leb_le 0 i)) by done. cbn [andb].
  destruct (Z.leb_spec (4 * i + 4) (mapped x)) as [Hle|Hgt]; cbn -[decide].
  - rewrite list_lookup_insert_eq by (by eapply lookup_lt_Some).
    rewrite (proj2 (Z.ltb_ge _ _)), orb_false_r by lia. cbn -[decide]. split_and!; try done. intros j.
    destruct (decide (j = i ∧ _)) as [[-> _]|Hn]; [by rewrite lookup_insert_eq|].
    rewrite lookup_insert_ne; [done|]. intros ->. by apply Hn.
  - rewrite E, (proj2 (Z.ltb_lt _ _)), orb_true_r by lia. split_and!; try done. intros j.
    rewrite decide_False; [done|]. lia.
Qed.

(** The loop writes [n] bytes from [off], word by word. *)
Lemma fill_spec b off v n k :
  0 ≤ off → off + Z.of_nat n ≤ 2 ^ 32 → 0 < map_len k b →
  let k' := foldl (λ k l, iowrite32 b (Z.shiftr (u32 (off + l)) 2) v k) k (seqZ 0 (Z.of_nat n)) in
  let last := (off + Z.of_nat n - 1) / 4 in
  map_len k' b = map_len k b ∧ bar_length k' = bar_length k ∧
  stray k' = stray k || bool_decide ((0 < n)%nat ∧ map_len k b < 4 * last + 4) ∧
  (∀ j, word k' b j =
     if decide ((off / 4 ≤ j ≤ last ∧ (0 < n)%nat) ∧ 4 * j + 4 ≤ map_len k b) then Some v else word k b j).
Proof.
  intros Hoff. induction n as [|n IH]; intros Hn Hm.
  - cbn. rewrite bool_decide_eq_false_2, orb_false_r by lia. split_and!; try done.
    intros j. rewrite decide_False; [done|lia].
  - rewrite seqZ_S, foldl_app. cbn [foldl].
    destruct (IH ltac:(lia) Hm) as (Hl1&Hb1&Hs1&Hw1). cbv zeta in Hl1, Hb1, Hs1, Hw1. set (k1 := foldl _ k _) in *.
    cbv zeta. rewrite (uwrap_id 32) by (unfold fits_u; lia).
    rewrite Z.shiftr_div_pow2 by lia. change (2 ^ 2) with 4.
    replace (off + Z.of_nat (S n) - 1) with (off + (0 + Z.of_nat n)) by lia.
    set (i := (off + (0 + Z.of_nat n)) / 4).
    assert ((off + Z.of_nat n - 1) / 4 ≤ i ≤ (off + Z.of_nat n - 1) / 4 + 1 ∧ 0 ≤ i ∧ off / 4 ≤ i ∧
      (n = 0%nat → i = off / 4)) as (Hi&Hi0&Hi1&Hi2)
      by (unfold i; Z.to_euclidean_division_equations; lia).
    destruct (iowrite32_spec b i v k1 ltac:(lia) ltac:(lia)) as (Hl&Hbl&Hs&Hw).
    clearbody k1 i. split_and!; [congruence|congruence| |].
    + rewrite Hs, Hs1, Hl1, <- orb_assoc. f_equal.
      destruct (Z.ltb_spec (map_len k b) (4 * i + 4)).
      * rewrite orb_true_r, bool_decide_eq_true_2; [done|lia].
      * rewrite !bool_decide_eq_false_2; [done|lia..].
    + intros j. rewrite Hw, Hw1, Hl1. repeat case_decide; try done; exfalso; lia.
Qed.

(** A memory test of a mapped BAR writes the pattern to exactly the
    words that hold the bytes [offset, offset + length) and changes no other; it
    leaves the mapping exactly when the last of these words does.  A request
    beyond bar_length, or on a BAR of length 0, fails and writes nothing. *)
Theorem pci_mem_test k b offset length value :
  fits_u 32 offset → fits_u 32 length → offset + length < 2 ^ 32 → 0 < map_len k b →
  let size := default 0 (bar_length k !! b) in
  let '(ret, k') := mem_test b offset length value k in
  if decide (size ≠ 0 ∧ offset + length ≤ size) then
    ret = 0 ∧
    (∀ j, word k' b j =
       if decide ((offset / 4 ≤ j ≤ (offset + length - 1) / 4 ∧ 0 < length) ∧ 4 * j + 4 ≤ map_len k b)
       then Some value else word k b j) ∧
    stray k' = stray k || bool_decide (0 < length ∧ map_len k b < 4 * ((offset + length - 1) / 4) + 4)
  else ret = -1 ∧ k' = k.
Proof.
  intros Ho Hl Hfit Hm size. unfold mem_test. fold size. unfold fits_u in *.
  rewrite (uwrap_id 32 (offset + length)) by (unfold fits_u; lia).
  destruct (size =? 0) eqn:E0; zbool; [by rewrite decide_False by lia|].
  destruct (size <? offset + length) eqn:E1; zbool; [by rewrite decide_False by lia|].
  rewrite decide_True by lia.
  destruct (fill_spec b offset value (Z.to_nat length) k ltac:(lia) ltac:(lia) Hm) as (_&_&Hs&Hw).
  rewrite Z2Nat.id in Hs, Hw by lia. split_and!; [done| |].
  - intros j. rewrite Hw. repeat case_decide; try done; exfalso; lia.
  - rewrite Hs. f_equal. apply bool_decide_ext. lia.
Qed.

(** BAR 0 mapped for 8 of its 16 bytes *)
Definition small : skeleton :=
  with_bars [Some (Bar 8 ∅); None; None; None; None; None] [16; 0; 0; 0; 0; 0] new_skeleton.

Lemma pci_mem_test_witness :
  0 < map_len small 0 ∧
  let size := default 0 (bar_length small !! 0%nat) in
  let '(ret, k') := mem_test 0 3 6 7 small in
  if decide (size ≠ 0 ∧ 3 + 6 ≤ size) then
    ret = 0 ∧
    (∀ j, word k' 0 j =
       if decide ((3 / 4 ≤ j ≤ (3 + 6 - 1) / 4 ∧ 0 < 6) ∧ 4 * j + 4 ≤ map_len small 0)
       then Some 7 else word small 0 j) ∧
    stray k' = stray small || bool_decide (0 < 6 ∧ map_len small 0 < 4 * ((3 + 6 - 1) / 4) + 4)
  else ret = -1 ∧ k' = small.
Proof.
  split; [reflexivity|]. apply (pci_mem_test small 0 3 6 7); [by split..|reflexivity|reflexivity].
Defined.

(** bar_length is the length of the BAR but only bar_min_len bytes of it are
    mapped: a request inside bar_length can write outside the mapping. *)
Lemma pci_mem_test_leaves_mapping : stray (mem_test 0 0 16 7 small).2 = true.
Proof. vm_compute. reflexivity. Qed.

(** offset + length wraps around: the check passes and the write is far outside. *)
Lemma pci_mem_test_wraps : mem_test 0 0xffffffff 2 7 small = (0, with_stray
  (with_bars [Some (Bar 8 {[ 0 := 7 ]}); None; None; None; None; None] [16; 0; 0; 0; 0; 0] small)).
Proof. vm_compute. reflexivity. Qed.

(** The info ioctl reports no BAR: its loop condition is false from the start. *)
Lemma pci_info_reports_no_bar i k :
  skeleton_get_info true true i k = (0, RInfo (PciInfo 1 2 (i_lanes i) (i_gen i) (i_bar i)), k).
Proof. reflexivity. Qed.

(** A read returns the first value that is not all ones, or 0 when the first
    twenty-one are. *)
Lemma bar_read_spec fuel io c :
  bar_read_loop fuel io c = default 0 (head (filter (.≠ 0xffffffff) (io <$> seq c fuel))).
Proof.
  revert c. induction fuel as [|fuel IH]; intros c; [done|]. cbn [bar_read_loop seq fmap list_fmap].
  rewrite filter_cons. destruct (Z.eqb_spec (io c) 0xffffffff) as [E|E].
  - rewrite decide_False by (intros H; by apply H). apply IH.
  - by rewrite decide_True.
Qed.

(** What is written to a register that behaves as memory is read back, except the
    value of an absent device. *)
Lemma pci_reg_roundtrip b off v k :
  4 * Z.shiftr off 2 + 4 ≤ map_len k b → 0 ≤ off → 0 < map_len k b →
  ioread32 b (Z.shiftr off 2) (bar_write b off v k) = Some v ∧
  bar_read (λ _, v) = if v =? 0xffffffff then 0 else v.
Proof.
  intros Hfit Hoff Hm. assert (0 ≤ Z.shiftr off 2) as Hi by (by apply Z.shiftr_nonneg).
  destruct (iowrite32_spec b (Z.shiftr off 2) v k Hi Hm) as (Hl&_&_&Hw). split.
  - specialize (Hw (Z.shiftr off 2)). rewrite decide_True in Hw by done.
    fold (bar_write b off v k) in Hl, Hw. unfold word in Hw. unfold map_len at 1 in Hl. unfold ioread32.
    destruct (bars (bar_write b off v k) !! b) as [[x|]|]; [|lia..].
    rewrite (proj2 (Z.leb_le _ _)), (proj2 (Z.leb_le _ _)) by lia. cbn. by rewrite Hw.
  - unfold bar_read. rewrite bar_read_spec. case_match; zbool; subst; [reflexivity|].
    cbn [seq fmap list_fmap RETRIES]. by rewrite filter_cons, decide_True.
Qed.

(** An ioctl changes the device only to write a register or to test memory: a
    command that fails, and every other command, leaves all words alone. *)
Lemma pci_ioctl_readonly in_ok out_ok io c req k :
  match req with
  | SetReg r => in_ok = false ∨ PCI_BAR_NUM ≤ r_bar r
  | DoMemTest t => in_ok = false ∨ (PCI_BAR_NUM ≤ t_num t ∧ t_num t ≠ MEM_TEST_ALL)
  | _ => True
  end →
  bars (skeleton_cdev_ioctl in_ok out_ok io c req k).2 = bars k.
Proof.
  intros Hreq. destruct req as [i|r|r| |t|n]; cbn;
    unfold skeleton_get_info, skeleton_GetReg, skeleton_SetReg, skeleton_GetPciConf, skeleton_mem_test,
      copy_back; destruct in_ok; cbn [negb]; try done.
  - by destruct out_ok.
  - destruct (_ <=? _); [done|]. destruct (ioread32 _ _ _), out_ok; done.
  - destruct Hreq; [done|]. by rewrite (proj2 (Z.leb_le _ _)).
  - by destruct out_ok.
  - destruct Hreq as [|[Ht Hn]]; [done|]. rewrite (proj2 (Z.eqb_neq _ _)) by done.
    by rewrite (proj2 (Z.ltb_ge _ _)).
Qed.

End PciMemory.
