(* ===== verification/Pipe.v ===== *)
(** * Pipeline of threads

    Models ldd-k4/thread/programming_with_posix_thread/pipe.c: [n] stage threads
    and a tail stage, each stage one element with a mutex and two condition
    variables; main feeds values in and collects results.

    A stage thread holds the mutex of its own stage except in pthread_cond_wait,
    also while it sends to the next stage, so a sender may have to wait for the
    mutex itself.  The mutex of the stage sent to is only held inside a step; the
    mutex of stage [i] is therefore held exactly while thread [i] is [holding].
    A stage has one sender and one receiver, so a signal wakes at most one known
    thread.  Values are longs, and the additions wrap at 64 bits. *)

From S2P Require Import Prelude.

Module Pipe.

Record stage_t := Stage { data_ready : bool; data : Z }.

(** pipe_stage.  [SLock]: before taking the own mutex (at the start, or woken from
    the wait for data); [SSend]: in pipe_send, before taking the next stage's
    mutex (at the call, or woken from the wait for room). *)
Inductive spc := SLock | STop | SAvail | SSend | SReady | SSent.
#[export] Instance spc_eq_dec : EqDecision spc.
Proof. solve_decision. Defined.

(** main: outside the package, in pipe_send to the head, in pipe_result. *)
Inductive mpc := MIdle | MSend (v : Z) | MSendBlocked (v : Z) | MResult | MResultBlocked.

Definition holding (p : spc) : bool :=
  match p with STop | SSend | SReady | SSent => true | SLock | SAvail => false end.

Record sys := Sys {
  stages : list stage_t;
  pcs : list spc;
  main : mpc;
  active : Z;
  accepted : list Z;             (** history: values pipe_start sent with success *)
  results : list Z               (** history: results pipe_result returned *)
}.

Definition with_stages (l : list stage_t) (s : sys) : sys :=
  Sys l (pcs s) (main s) (active s) (accepted s) (results s).
Definition with_pc (i : nat) (p : spc) (s : sys) : sys :=
  Sys (stages s) (<[i := p]> (pcs s)) (main s) (active s) (accepted s) (results s).
Definition with_main (p : mpc) (s : sys) : sys :=
  Sys (stages s) (pcs s) p (active s) (accepted s) (results s).

(** The mutex of stage [i] can be taken. *)
Definition unlocked (i : nat) (s : sys) : bool :=
  match pcs s !! i with Some p => negb (holding p) | None => true end.

(** What the pthread calls of pipe_send return; [e_lock] is also what
    pthread_cond_wait returns to a thread that was woken. *)
Record env := Env { e_lock : Z; e_wait : Z; e_signal : Z }.
Definition calm : env := Env 0 0 0.

Inductive outcome := Sent | Waits | Failed (status : Z).

(** pthread_cond_signal of [avail] and of [ready] *)
Definition wake_avail (i : nat) (s : sys) : sys :=
  match pcs s !! i with
  | Some SAvail => with_pc i SLock s
  | Some _ => s
  | None => match main s with MResultBlocked => with_main MResult s | _ => s end
  end.
Definition wake_ready (i : nat) (s : sys) : sys :=
  match i with
  | O => match main s with MSendBlocked v => with_main (MSend v) s | _ => s end
  | S j => match pcs s !! j with Some SReady => with_pc j SSend s | _ => s end
  end.

(** pipe_send from pthread_mutex_lock (the mutex is free) to its return or to
    pthread_cond_wait *)
Definition pipe_send (e : env) (i : nat) (v : Z) (s : sys) : option (outcome * sys) :=
  if negb (e_lock e =? 0) then Some (Failed (e_lock e), s) else
  x ← stages s !! i;
  if data_ready x then
    Some (if negb (e_wait e =? 0) then Failed (e_wait e) else Waits, s)
  else
    let s := with_stages (<[i := Stage true v]> (stages s)) s in
    if negb (e_signal e =? 0) then Some (Failed (e_signal e), s) else Some (Sent, wake_avail i s).

(** One step of stage thread [i]; it ignores the status of pipe_send. *)
Definition pipe_stage (e : env) (i : nat) (s : sys) : option sys :=
  p ← pcs s !! i;
  x ← stages s !! i;
  match p with
  | SLock => Some (with_pc i STop s)
  | STop => Some (with_pc i (if data_ready x then SSend else SAvail) s)
  | SSend =>
      if unlocked (S i) s then
        '(o, s) ← pipe_send e (S i) (s64 (data x + 1)) s;
        Some (with_pc i (match o with Waits => SReady | _ => SSent end) s)
      else None
  | SSent =>
      let s := with_pc i STop (with_stages (<[i := Stage false (data x)]> (stages s)) s) in
      Some (wake_ready i s)
  | SAvail | SReady => None
  end.

(** pipe_start and pipe_result up to their blocking part *)
Definition pipe_start (v : Z) (s : sys) : sys :=
  Sys (stages s) (pcs s) (MSend v) (active s + 1) (accepted s) (results s).
Definition pipe_result (s : sys) : Z * sys :=
  if active s <=? 0 then (0, s)
  else (1, Sys (stages s) (pcs s) MResult (active s - 1) (accepted s) (results s)).

(** The rest of pipe_result, on the tail *)
Definition collect (s : sys) : option sys :=
  let tail := length (pcs s) in
  x ← stages s !! tail;
  if data_ready x then
    Some (wake_ready tail (Sys (<[tail := Stage false (data x)]> (stages s)) (pcs s) MIdle (active s)
            (accepted s) (results s ++ [data x])))
  else Some (with_main MResultBlocked s).

(** What main does with a line; [scan]: what sscanf reads from it. *)
Inductive command := CSkip | CResult | CError | CValue (v : Z).
Definition read_command (line : list Z) (scan : option Z) : command :=
  if zlen line <=? 1 then CSkip else
  if (zlen line <=? 2) && (default 0 (head line) =? 61) then CResult else
  match scan with None => CError | Some v => CValue v end.

Inductive event :=
| ELine (line : list Z) (scan : option Z)
| EMain (e : env)
| EStage (i : nat) (e : env)
| ESpurious (i : option nat).

Definition step (s : sys) (ev : event) : option sys :=
  match ev with
  | ELine line scan =>
      match main s with
      | MIdle =>
          Some match read_command line scan with
          | CSkip | CError => s
          | CResult => (pipe_result s).2
          | CValue v => pipe_start v s
          end
      | _ => None
      end
  | EMain e =>
      match main s with
      | MSend v =>
          if unlocked 0 s then
            '(o, s) ← pipe_send e 0 v s;
            Some match o with
            | Waits => with_main (MSendBlocked v) s
            | Sent => Sys (stages s) (pcs s) MIdle (active s) (accepted s ++ [v]) (results s)
            | Failed _ => with_main MIdle s
            end
          else None
      | MResult => collect s
      | _ => None
      end
  | EStage i e => pipe_stage e i s
  | ESpurious None =>
      match main s with
      | MSendBlocked v => Some (with_main (MSend v) s)
      | MResultBlocked => Some (with_main MResult s)
      | _ => None
      end
  | ESpurious (Some i) =>
      match pcs s !! i with
      | Some SAvail => Some (with_pc i SLock s)
      | Some SReady => Some (with_pc i SSend s)
      | _ => None
      end
  end.

(** pipe_create: every stage empty, every thread at its start *)
Definition pipe_create (n : nat) : sys :=
  Sys (replicate (S n) (Stage false 0)) (replicate n SLock) MIdle 0 [] [].

(** Steps in which the pthread calls of pipe_send succeed *)
Definition calm_step (s : sys) (ev : event) : option sys :=
  match ev with
  | EMain e | EStage _ e =>
      if (e_lock e =? 0) && (e_wait e =? 0) && (e_signal e =? 0) then step s ev else None
  | _ => step s ev
  end.

(** ** What the pipeline holds *)

(** Stage [i] holds a value its thread has not passed on. *)
Definition full (s : sys) (i : nat) : bool :=
  match stages s !! i with
  | Some x => data_ready x && match pcs s !! i with Some SSent => false | _ => true end
  | None => false
  end.

(** What comes out of a value in stage [i] *)
Definition cell (s : sys) (i : nat) : list Z :=
  match stages s !! i with
  | Some x => if full s i then [s64 (data x + Z.of_nat (length (pcs s) - i))] else []
  | None => []
  end.

(** From stage [k] down to the head *)
Fixpoint downto {A} (k : nat) (f : nat → list A) : list A :=
  f k ++ match k with O => [] | S k => downto k f end.

Definition inflight (s : sys) : list Z := downto (length (pcs s)) (cell s).

(** *** Lemmas on [downto] *)

Section downto.
Context {A : Type}.
Implicit Types f g : nat → list A.

Lemma downto_ext k f g : (∀ i, (i ≤ k)%nat → f i = g i) → downto k f = downto k g.
Proof.
  induction k as [|k IH]; cbn; intros H; [by rewrite H|].
  rewrite H by lia. f_equal. apply IH. intros. apply H. lia.
Qed.

Lemma downto_move k i v f g :
  (i < k)%nat → f i = [v] → f (S i) = [] → g i = [] → g (S i) = [v] →
  (∀ j, j ≠ i → j ≠ S i → f j = g j) → downto k g = downto k f.
Proof.
  intros Hi Fi Fs Gi Gs H. induction k as [|k IH]; [lia|]. cbn.
  destruct (decide (i = k)) as [->|].
  - rewrite Fs, Gs. destruct k as [|k]; cbn; rewrite Fi, Gi; cbn; [done|].
    f_equal. apply downto_ext. intros. rewrite H; [done|lia..].
  - rewrite IH by lia. by rewrite H by lia.
Qed.

Lemma downto_enter k v f g :
  f O = [] → g O = [v] → (∀ j, j ≠ O → f j = g j) → downto k g = downto k f ++ [v].
Proof.
  intros F G H. induction k as [|k IH]; cbn; [by rewrite F, G|].
  by rewrite IH, H, app_assoc by lia.
Qed.

Lemma downto_leave k v f g :
  f k = [v] → g k = [] → (∀ j, j ≠ k → f j = g j) → downto k f = v :: downto k g.
Proof.
  intros F G H. destruct k as [|k]; cbn; rewrite F, G; cbn; [done|]. f_equal.
  apply downto_ext. intros. apply H. lia.
Qed.

Lemma downto_length k f : (∀ i, (length (f i) ≤ 1)%nat) → (length (downto k f) ≤ S k)%nat.
Proof.
  intros H. induction k as [|k IH]; cbn; rewrite length_app.
  - specialize (H O). cbn. lia.
  - specialize (H (S k)). lia.
Qed.

Lemma downto_nil k f : downto k f = [] ↔ ∀ i, (i ≤ k)%nat → f i = [].
Proof.
  split.
  - induction k as [|k IH]; cbn; intros [H1 H2]%app_eq_nil i Hi.
    + by assert (i = O) as -> by lia.
    + destruct (decide (i = S k)) as [->|]; [done|]. apply IH; [done|lia].
  - intros H. induction k as [|k IH]; cbn; rewrite H by lia; cbn; [done|]. apply IH.
    intros. apply H. lia.
Qed.

Lemma downto_length_full k f :
  (∀ i, (i ≤ k)%nat → length (f i) = 1%nat) → length (downto k f) = S k.
Proof.
  intros H. induction k as [|k IH]; cbn; rewrite length_app, H by lia; [done|].
  rewrite IH; [done|]. intros. apply H. lia.
Qed.

End downto.

(** *** The invariant *)

Definition sent (p : option spc) : bool := match p with Some SSent => true | _ => false end.
Definition ready (s : sys) (i : nat) : bool :=
  match stages s !! i with Some x => data_ready x | None => false end.

(** What thread [i] knows at each point *)
Definition pc_ok (s : sys) (i : nat) (p : spc) : Prop :=
  match p with
  | SLock | STop => True
  | SAvail => ready s i = false
  | SSend | SSent => ready s i = true
  | SReady => ready s i = true ∧ ready s (S i) = true
  end.
Definition main_ok (s : sys) : Prop :=
  match main s with
  | MSendBlocked _ => ready s 0 = true
  | MResultBlocked => ready s (length (pcs s)) = false
  | _ => True
  end.

(** What main has counted in [active] and not yet put in, or counted out and not
    yet taken *)
Definition pending (p : mpc) : Z :=
  match p with MIdle => 0 | MSend _ | MSendBlocked _ => 1 | MResult | MResultBlocked => -1 end.

Record inv (n : nat) (s : sys) : Prop := {
  inv_stages : length (stages s) = S n;
  inv_pcs : length (pcs s) = n;
  inv_pc : ∀ i p, pcs s !! i = Some p → pc_ok s i p;
  inv_main : main_ok s;
  inv_data : ∀ i x, stages s !! S i = Some x → fits_s 64 (data x);
  inv_order : (λ v, s64 (v + Z.of_nat n)) <$> accepted s = results s ++ inflight s;
  inv_active : active s = zlen (inflight s) + pending (main s);
  inv_active_nonneg : 0 ≤ active s
}.

Lemma s64_add a b : s64 (s64 a + b) = s64 (a + b).
Proof.
  unfold swrap. f_equal.
  replace ((a + 2 ^ (64 - 1)) mod 2 ^ 64 - 2 ^ (64 - 1) + b + 2 ^ (64 - 1))
    with ((a + 2 ^ (64 - 1)) mod 2 ^ 64 + b) by lia.
  rewrite Zplus_mod_idemp_l. f_equal. lia.
Qed.

Lemma full_eq s i : full s i = ready s i && negb (sent (pcs s !! i)).
Proof. unfold full, ready, sent. destruct (stages s !! i); [|done]. by repeat case_match. Qed.

Lemma cell_full s i x :
  stages s !! i = Some x →
  cell s i = if full s i then [s64 (data x + Z.of_nat (length (pcs s) - i))] else [].
Proof. unfold cell. by intros ->. Qed.

Lemma cell_length s i : (length (cell s i) ≤ 1)%nat.
Proof. unfold cell. repeat case_match; cbn; lia. Qed.

Lemma cell_ext s s' i :
  stages s' !! i = stages s !! i → sent (pcs s' !! i) = sent (pcs s !! i) →
  length (pcs s') = length (pcs s) → cell s' i = cell s i.
Proof.
  intros H1 H2 H3. unfold cell. rewrite H1, H3, !full_eq, H2. unfold ready. by rewrite H1.
Qed.

Lemma inflight_ext s s' :
  stages s' = stages s → (∀ i, sent (pcs s' !! i) = sent (pcs s !! i)) →
  length (pcs s') = length (pcs s) → inflight s' = inflight s.
Proof.
  intros H1 H2 H3. unfold inflight. rewrite H3. apply downto_ext.
  intros. apply cell_ext; congruence.
Qed.

(** *** Changing one program counter *)

Lemma lookup_with_pc s i p j q :
  pcs (with_pc i p s) !! j = Some q →
  (j = i ∧ q = p) ∨ (j ≠ i ∧ pcs s !! j = Some q).
Proof.
  cbn. intros H. destruct (decide (j = i)) as [->|].
  - rewrite list_lookup_insert_Some in H. naive_solver.
  - rewrite list_lookup_insert_ne in H by done. by right.
Qed.

Lemma sent_with_pc s i p q j :
  pcs s !! i = Some q → sent (Some p) = sent (Some q) →
  sent (pcs (with_pc i p s) !! j) = sent (pcs s !! j).
Proof.
  intros Hq Hs. cbn. destruct (decide (j = i)) as [->|].
  - rewrite list_lookup_insert_eq by (by eapply lookup_lt_Some). by rewrite Hq.
  - by rewrite list_lookup_insert_ne.
Qed.

Lemma inv_with_pc n s i p q :
  inv n s → pcs s !! i = Some q → sent (Some p) = sent (Some q) →
  pc_ok s i p → inv n (with_pc i p s).
Proof.
  intros [] Hq Hs Hok.
  assert (inflight (with_pc i p s) = inflight s) as Hf.
  { apply inflight_ext; [done| |cbn; apply length_insert].
    intros. by eapply sent_with_pc. }
  constructor; rewrite ?Hf; cbn; rewrite ?length_insert; try done.
  - intros j p' [[-> ->]|[_ Hj]]%lookup_with_pc; [done|by apply inv_pc0].
  - unfold main_ok in *. cbn. by rewrite length_insert.
Qed.

Lemma inv_with_main n s p :
  inv n s → main_ok (with_main p s) → pending p = pending (main s) → inv n (with_main p s).
Proof.
  intros [] Hok Hp.
  assert (inflight (with_main p s) = inflight s) as Hf by by apply inflight_ext.
  constructor; rewrite ?Hf; cbn; try done. by rewrite Hp.
Qed.

(** *** Signals *)

(** States that differ only in who waits *)
Record same_data (s s' : sys) : Prop := {
  same_stages : stages s' = stages s;
  same_length : length (pcs s') = length (pcs s);
  same_sent : ∀ j, sent (pcs s' !! j) = sent (pcs s !! j);
  same_pending : pending (main s') = pending (main s);
  same_active : active s' = active s;
  same_accepted : accepted s' = accepted s;
  same_results : results s' = results s
}.

Lemma same_with_pc s i p q :
  pcs s !! i = Some q → sent (Some p) = sent (Some q) → same_data s (with_pc i p s).
Proof.
  intros Hq Hs. split; try done; [cbn; apply length_insert|].
  intros. by eapply sent_with_pc.
Qed.
Lemma same_with_main s p : pending p = pending (main s) → same_data s (with_main p s).
Proof. by split. Qed.
Lemma same_refl s : same_data s s.
Proof. by split. Qed.
#[local] Hint Resolve same_with_main same_refl : core.

Lemma wake_avail_same i s : same_data s (wake_avail i s).
Proof.
  unfold wake_avail. destruct (pcs s !! i) as [[]|] eqn:E; auto.
  - by eapply same_with_pc.
  - destruct (main s) eqn:?; auto. apply same_with_main. by rewrite Heqm.
Qed.

Lemma wake_ready_same i s : same_data s (wake_ready i s).
Proof.
  unfold wake_ready. destruct i as [|i].
  - destruct (main s) eqn:E; auto. apply same_with_main. by rewrite E.
  - destruct (pcs s !! i) as [[]|] eqn:E; auto. by eapply same_with_pc.
Qed.

Lemma same_inflight s s' : same_data s s' → inflight s' = inflight s.
Proof. intros []. by apply inflight_ext. Qed.

Lemma same_ready s s' i : same_data s s' → ready s' i = ready s i.
Proof. intros [H]. unfold ready. by rewrite H. Qed.

Lemma wake_avail_pcs i s j q :
  pcs (wake_avail i s) !! j = Some q →
  q = SLock ∨ (pcs s !! j = Some q ∧ (j = i → q ≠ SAvail)).
Proof.
  unfold wake_avail. destruct (pcs s !! i) as [p|] eqn:E.
  - destruct (decide (p = SAvail)) as [->|Hp].
    + intros [[-> ->]|[??]]%lookup_with_pc; [by left|right; by split].
    + intros H. right. assert (pcs s !! j = Some q) as Hq by by destruct p.
      split; [done|]. intros ->. congruence.
  - intros H. right. assert (pcs s !! j = Some q) as Hq by by destruct (main s).
    split; [done|]. intros ->. congruence.
Qed.

Lemma wake_ready_pcs i s j q :
  pcs (wake_ready i s) !! j = Some q →
  (q = SSend ∧ pcs s !! j = Some SReady) ∨ (pcs s !! j = Some q ∧ (S j = i → q ≠ SReady)).
Proof.
  unfold wake_ready. destruct i as [|i].
  { intros H. right. split; [by destruct (main s)|done]. }
  destruct (pcs s !! i) as [p|] eqn:E.
  - destruct (decide (p = SReady)) as [->|Hp].
    + intros [[-> ->]|[??]]%lookup_with_pc; [by left|right; split; [done|by intros [= ->]]].
    + intros H. right. assert (pcs s !! j = Some q) as Hq by by destruct p.
      split; [done|]. intros [= ->]. congruence.
  - intros H. right. split; [done|]. intros [= ->]. congruence.
Qed.

Lemma wake_avail_main i s :
  main (wake_avail i s) = main s ∧ (i = length (pcs s) → main s ≠ MResultBlocked) ∨
  main s = MResultBlocked ∧ main (wake_avail i s) = MResult.
Proof.
  unfold wake_avail. destruct (pcs s !! i) as [[]|] eqn:E;
    try (left; split; [done|intros ->; by rewrite lookup_ge_None_2 in E by done]).
  destruct (main s) eqn:Em; cbn; rewrite ?Em; auto.
Qed.

Lemma wake_ready_main i s :
  main (wake_ready i s) = main s ∧ (∀ v, i = O → main s ≠ MSendBlocked v) ∨
  ∃ v, main s = MSendBlocked v ∧ main (wake_ready i s) = MSend v.
Proof.
  unfold wake_ready. destruct i as [|i].
  - destruct (main s) eqn:Em; cbn; rewrite ?Em; try (left; by split). right. eauto.
  - left. split; [|done]. by destruct (pcs s !! i) as [[]|].
Qed.

(** *** Preservation *)

Lemma ready_set s l i x j :
  stages s = l → (i < length l)%nat →
  ready (with_stages (<[i := x]> l) s) j = if decide (i = j) then data_ready x else ready s j.
Proof.
  intros <- Hi. unfold ready. cbn. case_decide; subst.
  - by rewrite list_lookup_insert_eq.
  - by rewrite list_lookup_insert_ne.
Qed.

(** Storing into the empty stage [i] and signalling keeps what every other thread
    and main know. *)
Lemma store_pcs n s i v :
  inv n s → (i ≤ n)%nat → ready s i = false →
  let s' := wake_avail i (with_stages (<[i := Stage true v]> (stages s)) s) in
  (∀ j p, pcs s' !! j = Some p → pc_ok s' j p) ∧
  (∀ w, main s = MSendBlocked w → main s' = MSendBlocked w → ready s' 0 = true) ∧
  (main s' = MResultBlocked → ready s' (length (pcs s)) = false).
Proof.
  intros [] Hi Hr s'. set (s0 := with_stages _ s) in s'.
  assert (same_data s0 s') as Hsd by apply wake_avail_same.
  assert (∀ j, ready s' j = if decide (i = j) then true else ready s j) as Hrd.
  { intros j. rewrite (same_ready s0 s') by done. apply ready_set; [done|lia]. }
  split_and!.
  - intros j p [->|[Hp Hne]]%wake_avail_pcs; [done|].
    specialize (inv_pc0 j p Hp). destruct p; cbn in *; rewrite ?Hrd; try done;
      repeat case_decide; naive_solver.
  - intros w Hm Hm'. rewrite Hrd. case_decide; [done|].
    unfold main_ok in inv_main0. by rewrite Hm in inv_main0.
  - intros Hm. rewrite Hrd. destruct (wake_avail_main i s0) as [[H1 H2]|[H1 H2]].
    + fold s' in H1. rewrite Hm in H1. case_decide as Hd.
      * by destruct H2; [|symmetry].
      * unfold main_ok in inv_main0. cbn in H1. by rewrite <- H1 in inv_main0.
    + fold s' in H2. congruence.
Qed.

(** Clearing stage [i] and signalling, likewise *)
Lemma clear_pcs s s0 s' i d :
  (i < length (stages s))%nat →
  (∀ j p, pcs s !! j = Some p → pc_ok s j p) →
  stages s0 = <[i := Stage false d]> (stages s) →
  (∀ j p, pcs s0 !! j = Some p → j = i ∧ p = STop ∨ j ≠ i ∧ pcs s !! j = Some p) →
  s' = wake_ready i s0 →
  (∀ j p, pcs s' !! j = Some p → pc_ok s' j p) ∧
  (∀ j, ready s' j = if decide (i = j) then false else ready s j).
Proof.
  intros Hi Hok Hst Hp ->.
  assert (∀ j, ready (wake_ready i s0) j = if decide (i = j) then false else ready s j) as Hrd.
  { intros j. rewrite (same_ready s0) by apply wake_ready_same. unfold ready.
    rewrite Hst. case_decide; subst; [by rewrite list_lookup_insert_eq|by rewrite list_lookup_insert_ne]. }
  split; [|done].
  intros j p [[-> Hj]|[Hj Hne]]%wake_ready_pcs;
    (apply Hp in Hj as [[-> ?]|[Hji Hj]]; [by subst|]); apply Hok in Hj;
    [|destruct p]; cbn in *; rewrite ?Hrd; repeat case_decide; naive_solver.
Qed.

Lemma cell_set s s' i x :
  stages s' !! i = Some x → length (pcs s') = length (pcs s) →
  cell s' i = if data_ready x && negb (sent (pcs s' !! i))
              then [s64 (data x + Z.of_nat (length (pcs s) - i))] else [].
Proof. intros H1 H2. rewrite (cell_full _ _ x), full_eq, H2 by done. unfold ready. by rewrite H1. Qed.

Lemma cell_empty s i : ready s i = false → cell s i = [].
Proof. intros H. unfold cell. rewrite full_eq, H. by case_match. Qed.

Lemma inv_not_sent n s i : inv n s → ready s i = false → sent (pcs s !! i) = false.
Proof.
  intros Hinv Hr. destruct (pcs s !! i) as [[]|] eqn:E; try done.
  apply (inv_pc _ _ Hinv) in E. cbn in E. congruence.
Qed.

(** pipe_send of thread [i] moves its value one stage on. *)
Lemma send_inflight n s s' i x v :
  inv n s → (i < n)%nat → pcs s !! i = Some SSend → stages s !! i = Some x →
  v = s64 (data x + 1) → ready s (S i) = false →
  stages s' = <[S i := Stage true v]> (stages s) →
  length (pcs s') = length (pcs s) → pcs s' !! i = Some SSent →
  (∀ j, j ≠ i → sent (pcs s' !! j) = sent (pcs s !! j)) →
  inflight s' = inflight s.
Proof.
  intros Hinv Hi Hp Hx -> Hr Hst Hl Hp' Hs. unfold inflight. rewrite Hl.
  pose proof (inv_pcs _ _ Hinv) as Hn. pose proof (inv_stages _ _ Hinv) as Hns.
  assert (ready s i = true) as Hri by apply (inv_pc _ _ Hinv _ _ Hp).
  apply (downto_move _ i (s64 (data x + Z.of_nat (length (pcs s) - i)))); [lia|..].
  - rewrite (cell_set s s i x), Hp by done. unfold ready in Hri. rewrite Hx in Hri.
    by rewrite Hri.
  - by apply cell_empty.
  - rewrite (cell_set s s' i x); [by rewrite Hp', andb_false_r| |done].
    rewrite Hst, list_lookup_insert_ne by lia. done.
  - rewrite (cell_set s s' (S i) (Stage true (s64 (data x + 1))));
      [|rewrite Hst; apply list_lookup_insert_eq; lia|done].
    rewrite Hs, (inv_not_sent n s) by (done || lia). cbn [data data_ready andb negb].
    rewrite s64_add. do 2 f_equal. lia.
  - intros j H1 H2. symmetry. apply cell_ext; [|by apply Hs|done].
    rewrite Hst. by apply list_lookup_insert_ne.
Qed.

Lemma inv_stage_send n s i x v :
  inv n s → (i < n)%nat → pcs s !! i = Some SSend → stages s !! i = Some x →
  v = s64 (data x + 1) → ready s (S i) = false →
  inv n (with_pc i SSent
    (wake_avail (S i) (with_stages (<[S i := Stage true v]> (stages s)) s))).
Proof.
  intros Hinv Hi Hp Hx Hv Hr.
  destruct (store_pcs n s (S i) v) as (Hpc & Hm1 & Hm2); [done|lia|done|].
  set (s0 := with_stages _ s) in *. set (s1 := wake_avail _ s0) in *.
  assert (same_data s0 s1) as Hsd by apply wake_avail_same. pose proof Hsd as []. cbn in *.
  assert (pcs s1 !! i = Some SSend) as Hp1.
  { unfold s1, wake_avail. cbn.
    destruct (pcs s !! S i) as [[]|] eqn:?; cbn; try done.
    - rewrite list_lookup_insert_ne by lia. done.
    - by destruct (main s). }
  assert (inflight (with_pc i SSent s1) = inflight s) as Hf.
  { eapply (send_inflight n s _ i x v); try done; cbn; rewrite ?length_insert; try done.
    - apply list_lookup_insert_eq. by eapply lookup_lt_Some.
    - intros. rewrite list_lookup_insert_ne by done. apply same_sent0. }
  destruct Hinv. constructor; rewrite ?Hf; cbn; rewrite ?length_insert; try congruence.
  - rewrite same_stages0. cbn. by rewrite length_insert.
  - intros j p [[-> ->]|[_ Hj]]%lookup_with_pc; [|by apply Hpc].
    exact (Hpc _ _ Hp1).
  - unfold main_ok in *. cbn. rewrite length_insert.
    destruct (main s1) eqn:Em; try done.
    + destruct (wake_avail_main (S i) s0) as [[E _]|[_ E]]; fold s1 in E; rewrite Em in E; [|done].
      cbn in E. by eapply Hm1.
    + replace (length (pcs s1)) with (length (pcs s)) by done. by apply Hm2.
  - intros j y. rewrite same_stages0. cbn. intros [(?&?&?)|[??]]%list_lookup_insert_Some.
    + subst. cbn. by apply swrap_bound.
    + by eapply inv_data0.
Qed.

Lemma inv_stage_sent n s i x :
  inv n s → (i < n)%nat → pcs s !! i = Some SSent → stages s !! i = Some x →
  inv n (wake_ready i (with_pc i STop (with_stages (<[i := Stage false (data x)]> (stages s)) s))).
Proof.
  intros Hinv Hi Hp Hx. set (s0 := with_pc _ _ _). set (s1 := wake_ready i s0).
  assert (same_data s0 s1) as [] by apply wake_ready_same.
  pose proof (inv_stages _ _ Hinv) as Hns. pose proof (inv_pcs _ _ Hinv) as Hn.
  destruct (clear_pcs s s0 s1 i (data x)) as [Hpc Hrd]; try done; [lia|apply Hinv|
    intros j p; apply (lookup_with_pc (with_stages _ s))|].
  assert (inflight s1 = inflight s) as Hf.
  { rewrite (same_inflight s0) by apply wake_ready_same. unfold inflight. cbn.
    rewrite length_insert. apply downto_ext. intros j Hj. destruct (decide (j = i)) as [->|].
    - rewrite (cell_set s s0 i (Stage false (data x))), (cell_set s s i x), Hp, andb_false_r;
        cbn; try done; [|apply length_insert]. apply list_lookup_insert_eq. lia.
    - apply cell_ext; cbn; [|rewrite list_lookup_insert_ne by done; done|apply length_insert].
      by apply list_lookup_insert_ne. }
  cbn in *. rewrite length_insert in same_length0.
  destruct Hinv. constructor; rewrite ?Hf; try congruence; try exact Hpc.
  - rewrite same_stages0. by rewrite length_insert.
  - unfold main_ok in *. destruct (wake_ready_main i s0) as [[E1 E2]|(v&E1&E2)].
    + fold s1 in E1. rewrite E1, same_length0. cbn in *. destruct (main s); try done; rewrite Hrd; case_decide; try done.
      by destruct (E2 v).
    + fold s1 in E2. by rewrite E2.
  - intros j y. rewrite same_stages0. intros [(?&?&?)|[??]]%list_lookup_insert_Some.
    + subst. cbn. by eapply inv_data0.
    + by eapply inv_data0.
Qed.

Lemma inv_main_send n s v :
  inv n s → main s = MSend v → ready s 0 = false →
  let s1 := wake_avail 0 (with_stages (<[O := Stage true v]> (stages s)) s) in
  inv n (Sys (stages s1) (pcs s1) MIdle (active s1) (accepted s1 ++ [v]) (results s1)).
Proof.
  intros Hinv Hm Hr s1.
  destruct (store_pcs n s 0 v) as (Hpc & _ & _); [done|lia|done|].
  set (s0 := with_stages _ s) in *. fold s1 in Hpc.
  assert (same_data s0 s1) as [] by apply wake_avail_same.
  pose proof (inv_stages _ _ Hinv) as Hns. pose proof (inv_pcs _ _ Hinv) as Hn.
  set (s2 := Sys _ _ _ _ _ _).
  assert (inflight s2 = inflight s ++ [s64 (v + Z.of_nat n)]) as Hf.
  { assert (length (pcs s2) = length (pcs s)) as Hl by (cbn in *; congruence).
    unfold inflight. rewrite Hl. cbn in same_stages0, same_sent0. apply downto_enter.
    - by apply cell_empty.
    - rewrite (cell_set s s2 O (Stage true v)); [|cbn; rewrite same_stages0|exact Hl].
      + cbn. rewrite same_sent0, (inv_not_sent n) by done. cbn. do 2 f_equal. lia.
      + apply list_lookup_insert_eq. lia.
    - intros j Hj. symmetry. apply cell_ext; [|by apply same_sent0|exact Hl].
      cbn. rewrite same_stages0. by apply list_lookup_insert_ne. }
  clearbody s1. cbn in same_stages0, same_length0, same_active0, same_accepted0, same_results0.
  destruct Hinv. constructor; rewrite ?Hf; cbn; try congruence; try done.
  - rewrite same_stages0. by rewrite length_insert.
  - intros j y. rewrite same_stages0, list_lookup_insert_ne by done. apply inv_data0.
  - rewrite same_accepted0, same_results0, fmap_app, inv_order0, <- app_assoc. done.
  - rewrite same_active0, inv_active0, Hm, zlen_app. cbn. unfold zlen. cbn. lia.
Qed.

Lemma inv_collect n s s' :
  inv n s → (1 ≤ n)%nat → main s = MResult → collect s = Some s' → inv n s'.
Proof.
  intros Hinv H1 Hm. unfold collect. set (t := length (pcs s)).
  pose proof (inv_stages _ _ Hinv) as Hns. pose proof (inv_pcs _ _ Hinv) as Hn. fold t in Hn.
  destruct (stages s !! t) as [x|] eqn:Hx; [|done]. cbn. destruct (data_ready x) eqn:Hd; intros [= <-].
  2: { apply inv_with_main; [done| |by rewrite Hm]. unfold main_ok. cbn.
       unfold ready. cbn. fold t. by rewrite Hx. }
  set (s0 := Sys _ _ _ _ _ _). set (s1 := wake_ready t s0).
  assert (same_data s0 s1) as [] by apply wake_ready_same.
  assert (pcs s !! t = None) as Hpt by (apply lookup_ge_None; lia).
  destruct (clear_pcs s s0 s1 t (data x)) as [Hpc Hrd]; try done; [lia|apply Hinv| |].
  { cbn. intros j p Hj. right. split; [|done]. intros ->. congruence. }
  assert (inflight s = data x :: inflight s1) as Hf.
  { rewrite (same_inflight s0 s1) by apply wake_ready_same. unfold inflight. cbn. fold t.
    apply downto_leave.
    - rewrite (cell_set s s t x), Hd, Hpt by done. cbn. f_equal. fold t.
      replace (data x + _) with (data x) by lia. apply swrap_id; [done|].
      destruct t as [|t'] eqn:?; [lia|]. by eapply (inv_data _ _ Hinv).
    - apply cell_empty. unfold ready. cbn. rewrite list_lookup_insert_eq by lia. done.
    - intros j Hj. symmetry. apply cell_ext; [|done..]. cbn. by apply list_lookup_insert_ne. }
  cbn in *. destruct Hinv. constructor; try congruence; try exact Hpc.
  - rewrite same_stages0. by rewrite length_insert.
  - unfold main_ok. destruct (wake_ready_main t s0) as [[E1 _]|(v&E1&_)]; [|done].
    fold s1 in E1. by rewrite E1.
  - intros j y. rewrite same_stages0. intros [(?&?&?)|[??]]%list_lookup_insert_Some.
    + subst. cbn. apply (inv_data0 j). by rewrite <- H.
    + by eapply inv_data0.
  - rewrite same_accepted0, same_results0, inv_order0, Hf, <- app_assoc. done.
  - rewrite same_active0, same_pending0, inv_active0, Hm, Hf. unfold zlen. cbn. lia.
Qed.

(** One step of stage thread [i] *)
Lemma inv_stage n s i s' : inv n s → pipe_stage calm i s = Some s' → inv n s'.
Proof.
  intros Hinv. unfold pipe_stage.
  destruct (pcs s !! i) as [p|] eqn:Hp; [|done]. cbn.
  destruct (stages s !! i) as [x|] eqn:Hx; [|done]. cbn.
  pose proof (inv_pc _ _ Hinv _ _ Hp) as Hok.
  assert (i < n)%nat as Hi by (rewrite <- (inv_pcs _ _ Hinv); by eapply lookup_lt_Some).
  assert (ready s i = data_ready x) as Hr by (unfold ready; by rewrite Hx).
  destruct p; intros H; simplify_eq.
  - by eapply inv_with_pc.
  - eapply inv_with_pc; [done..|by destruct (data_ready x)|]. by destruct (data_ready x).
  - destruct (unlocked (S i) s); [|done]. unfold pipe_send in H. cbn in H.
    destruct (stages s !! S i) as [y|] eqn:Hy; [|done]. cbn in H.
    assert (ready s (S i) = data_ready y) as Hr' by (unfold ready; by rewrite Hy).
    destruct (data_ready y); cbn in H; simplify_eq.
    + by eapply inv_with_pc.
    + by eapply inv_stage_send.
  - by apply inv_stage_sent.
Qed.

Lemma pipe_main_step n s s' :
  (1 ≤ n)%nat → inv n s → step s (EMain calm) = Some s' → inv n s'.
Proof.
  intros Hn Hinv. cbn -[pipe_send collect]. destruct (main s) eqn:Hm; try done.
  - destruct (unlocked 0 s); [|done]. unfold pipe_send. cbn.
    destruct (stages s !! 0%nat) as [y|] eqn:Hy; [|done]. cbn.
    assert (ready s 0 = data_ready y) as Hr' by (unfold ready; by rewrite Hy).
    destruct (data_ready y); cbn; intros [= <-].
    + by apply inv_with_main; [|unfold main_ok|rewrite Hm].
    + by apply inv_main_send.
  - intros. by eapply inv_collect.
Qed.

Lemma inv_idle n s p a :
  inv n s → main s = MIdle → 0 ≤ a → a = active s + pending p → p ≠ MResultBlocked →
  (∀ v, p ≠ MSendBlocked v) →
  inv n (Sys (stages s) (pcs s) p a (accepted s) (results s)).
Proof.
  intros [] Hm Ha -> H1 H2. set (s' := Sys _ _ _ _ _ _).
  assert (inflight s' = inflight s) as Hf by by apply inflight_ext.
  constructor; rewrite ?Hf; try done.
  - unfold main_ok. cbn. destruct p; naive_solver.
  - cbn. rewrite inv_active0, Hm. cbn. lia.
Qed.

Lemma inv_line n s line scan s' : inv n s → step s (ELine line scan) = Some s' → inv n s'.
Proof.
  intros Hinv. cbn. destruct (main s) eqn:Hm; try done. intros [= <-].
  pose proof (inv_active_nonneg _ _ Hinv).
  destruct (read_command line scan); try done.
  - unfold pipe_result. case_match; zbool; [done|]. by apply inv_idle; try done; cbn; lia.
  - by apply inv_idle; try done; cbn; lia.
Qed.

Lemma pipe_spurious n s i s' : inv n s → step s (ESpurious i) = Some s' → inv n s'.
Proof.
  intros Hinv. destruct i as [i|]; cbn.
  - destruct (pcs s !! i) as [[]|] eqn:Hp; try done; intros [= <-]; eapply inv_with_pc; try done.
    by destruct (inv_pc _ _ Hinv _ _ Hp).
  - destruct (main s) eqn:Hm; try done; intros [= <-]; apply inv_with_main; by rewrite ?Hm.
Qed.

Lemma pipe_calm_inv s ev s' :
  calm_step s ev = Some s' →
  step s ev = Some s' ∧
  match ev with EMain e | EStage _ e => e = calm | _ => True end.
Proof.
  unfold calm_step. destruct ev; try done; case_match; try done; zbool;
    destruct e; cbn in *; intros; by subst.
Qed.

Lemma pipe_inv_step n s ev s' : (1 ≤ n)%nat → inv n s → calm_step s ev = Some s' → inv n s'.
Proof.
  intros Hn Hinv [H Hev]%pipe_calm_inv. destruct ev; subst.
  - by eapply inv_line.
  - by eapply pipe_main_step.
  - by eapply inv_stage.
  - by eapply pipe_spurious.
Qed.

Lemma inv_create n : inv n (pipe_create n).
Proof.
  assert (∀ i, ready (pipe_create n) i = false) as Hr.
  { intros i. unfold ready. cbn. change (Stage false 0 :: replicate n (Stage false 0))
      with (replicate (S n) (Stage false 0)).
    destruct (_ !! _) as [x|] eqn:E; [|done]. apply lookup_replicate in E as [-> _]. done. }
  assert (inflight (pipe_create n) = []) as Hf.
  { apply downto_nil. intros. by apply cell_empty. }
  constructor; rewrite ?Hf; cbn; rewrite ?length_replicate; try done.
  - intros i p [-> _]%lookup_replicate. done.
  - intros i x [-> _]%lookup_replicate. done.
Qed.

Definition created (n : nat) (s : sys) : Prop := s = pipe_create n.
Abbreviation reach n := (reachable (created n) calm_step).

Lemma pipe_inv n s : (1 ≤ n)%nat → reach n s → inv n s.
Proof.
  intros Hn. apply invariant_reachable.
  - intros s' ->. apply inv_create.
  - intros. by eapply pipe_inv_step.
Qed.

(** ** Termination

    [cost] bounds the steps the threads can take before main's next command: a
    value has at most eight steps to go per stage left, and a program counter
    has its own weight. *)

Fixpoint sumto (k : nat) (f : nat → nat) : nat :=
  (f k + match k with O => 0 | S k => sumto k f end)%nat.

Definition weight (p : spc) : nat :=
  match p with SSent => 5 | SLock => 4 | STop => 3 | SSend => 2 | SReady => 1 | SAvail => 0 end.
Definition main_cost (n : nat) (p : mpc) : nat :=
  match p with
  | MIdle => 0 | MResultBlocked => 2 | MResult => 3
  | MSendBlocked _ => 8 * n + 9 | MSend _ => 8 * n + 10
  end.
Definition slot (s : sys) (i : nat) : nat :=
  (match pcs s !! i with Some p => weight p | None => 0 end +
   if full s i then 8 * (length (pcs s) - i) else 0)%nat.
Definition cost (s : sys) : nat :=
  (main_cost (length (pcs s)) (main s) + sumto (length (pcs s)) (slot s))%nat.

Lemma sumto_ext k f g : (∀ j, (j ≤ k)%nat → f j = g j) → sumto k f = sumto k g.
Proof.
  induction k as [|k IH]; cbn; intros H; [by rewrite H|]. rewrite H by lia.
  f_equal. apply IH. intros. apply H. lia.
Qed.

Lemma sumto_change k i f g (c d : nat) :
  (i ≤ k)%nat → (∀ j, j ≠ i → f j = g j) → (g i + c ≤ f i + d)%nat →
  (sumto k g + c ≤ sumto k f + d)%nat.
Proof.
  intros Hi H Hc. induction k as [|k IH]; cbn.
  - assert (i = O) as -> by lia. lia.
  - destruct (decide (i = S k)) as [->|].
    + rewrite (sumto_ext k g f) by (intros; symmetry; apply H; lia). lia.
    + rewrite <- (H (S k)) by lia. specialize (IH ltac:(lia)). lia.
Qed.

Lemma sumto_bound k f b : (∀ j, (j ≤ k)%nat → f j ≤ b)%nat → (sumto k f ≤ S k * b)%nat.
Proof.
  induction k as [|k IH]; cbn; intros H.
  - specialize (H O). lia.
  - pose proof (H (S k)). specialize (IH ltac:(intros; apply H; lia)). lia.
Qed.

(** Only slot [i] changes *)
Lemma cost_change s s' i (c d : nat) :
  length (pcs s') = length (pcs s) → main s' = main s → (i ≤ length (pcs s))%nat →
  (∀ j, j ≠ i → pcs s' !! j = pcs s !! j ∧ stages s' !! j = stages s !! j) →
  (slot s' i + c ≤ slot s i + d)%nat → (cost s' + c ≤ cost s + d)%nat.
Proof.
  intros Hl Hm Hi Hj Hs. unfold cost. rewrite Hl, Hm.
  enough (sumto (length (pcs s)) (slot s') + c ≤ sumto (length (pcs s)) (slot s) + d)%nat by lia.
  eapply sumto_change; [done| |done]. intros j [Hp Hst]%Hj. unfold slot, full.
  by rewrite Hp, Hst, Hl.
Qed.

Lemma cost_with_pc s i p q (c d : nat) :
  pcs s !! i = Some q → sent (Some p) = sent (Some q) →
  (weight p + c ≤ weight q + d)%nat → (cost (with_pc i p s) + c ≤ cost s + d)%nat.
Proof.
  intros Hq Hs Hw. pose proof (lookup_lt_Some _ _ _ Hq).
  eapply (cost_change _ _ i); [by apply length_insert|done|lia|..].
  - intros j Hj. cbn. by rewrite list_lookup_insert_ne.
  - unfold slot. rewrite !full_eq. cbn. unfold ready. cbn.
    rewrite length_insert, list_lookup_insert_eq, Hq by done. rewrite Hs.
    case_match; lia.
Qed.

Lemma cost_with_main s p (c d : nat) :
  (main_cost (length (pcs s)) p + c ≤ main_cost (length (pcs s)) (main s) + d)%nat →
  (cost (with_main p s) + c ≤ cost s + d)%nat.
Proof.
  intros H. unfold cost. cbn [pcs main with_main].
  rewrite (sumto_ext _ (slot (with_main p s)) (slot s)); [lia|done].
Qed.

Lemma cost_wake_avail i s : (cost (wake_avail i s) ≤ cost s + 4)%nat.
Proof.
  unfold wake_avail. destruct (pcs s !! i) as [[]|] eqn:E; try lia.
  - pose proof (cost_with_pc s i SLock SAvail 0 4 E eq_refl). cbn in *. lia.
  - destruct (main s) eqn:Em; try lia.
    pose proof (cost_with_main s MResult 0 4). rewrite Em in *. cbn in *. lia.
Qed.

Lemma cost_wake_ready i s : (cost (wake_ready i s) ≤ cost s + 1)%nat.
Proof.
  unfold wake_ready. destruct i as [|i].
  - destruct (main s) eqn:Em; try lia.
    pose proof (cost_with_main s (MSend v) 0 1). rewrite Em in *. cbn -[Nat.mul] in *. lia.
  - destruct (pcs s !! i) as [[]|] eqn:E; try lia.
    pose proof (cost_with_pc s i SSend SReady 0 1 E eq_refl). cbn in *. lia.
Qed.

(** Storing a value costs what the value still has to go. *)
Lemma cost_store s i v :
  (i ≤ length (pcs s))%nat → (i < length (stages s))%nat →
  (cost (wake_avail i (with_stages (<[i := Stage true v]> (stages s)) s))
    ≤ cost s + 8 * (length (pcs s) - i) + 4)%nat.
Proof.
  intros H1 H2. set (s0 := with_stages _ s). pose proof (cost_wake_avail i s0).
  enough (cost s0 + 0 ≤ cost s + 8 * (length (pcs s) - i))%nat by lia.
  apply (cost_change s s0 i); try done.
  - intros j Hj. cbn. by rewrite list_lookup_insert_ne.
  - unfold slot. cbn [pcs s0 with_stages]. repeat case_match; lia.
Qed.

Lemma cost_stage n s i s' :
  inv n s → pipe_stage calm i s = Some s' → (cost s' < cost s)%nat.
Proof.
  intros Hinv. unfold pipe_stage.
  destruct (pcs s !! i) as [p|] eqn:Hp; [|done]. cbn.
  destruct (stages s !! i) as [x|] eqn:Hx; [|done]. cbn.
  pose proof (inv_pc _ _ Hinv _ _ Hp) as Hok. pose proof (lookup_lt_Some _ _ _ Hp) as Hi.
  pose proof (inv_stages _ _ Hinv) as Hns. pose proof (inv_pcs _ _ Hinv) as Hn.
  destruct p; intros H; simplify_eq.
  - pose proof (cost_with_pc s i STop SLock 1 0 Hp eq_refl). cbn in *. lia.
  - destruct (data_ready x).
    + pose proof (cost_with_pc s i SSend STop 1 0 Hp eq_refl). cbn in *. lia.
    + pose proof (cost_with_pc s i SAvail STop 1 0 Hp eq_refl). cbn in *. lia.
  - destruct (unlocked (S i) s); [|done]. unfold pipe_send in H. cbn in H.
    destruct (stages s !! S i) as [y|] eqn:Hy; [|done]. cbn in H.
    destruct (data_ready y) eqn:Hd; cbn in H; simplify_eq.
    + pose proof (cost_with_pc s i SReady SSend 1 0 Hp eq_refl). cbn in *. lia.
    + pose proof (cost_store s (S i) (s64 (data x + 1)) ltac:(lia) ltac:(lia)) as Hst.
      set (s0 := with_stages _ s) in *. set (s1 := wake_avail _ s0) in *.
      assert (same_data s0 s1) as Hsd by apply wake_avail_same. pose proof Hsd as [].
      cbn in same_length0.
      assert (pcs s1 !! i = Some SSend) as Hp1.
      { unfold s1, wake_avail. cbn. destruct (pcs s !! S i) as [[]|] eqn:?; cbn; try done.
        - rewrite list_lookup_insert_ne by lia. done.
        - by destruct (main s). }
      assert (full s1 i = true) as Hf.
      { rewrite full_eq, Hp1, (same_ready s0 s1) by done. cbn.
        unfold s0. rewrite ready_set by (done || lia). case_decide; [lia|].
        by rewrite Hok. }
      enough (cost (with_pc i SSent s1) + 8 * (length (pcs s) - i) ≤ cost s1 + 3)%nat by lia.
      apply (cost_change s1 _ i); [by apply length_insert|done|lia|..].
      * intros j Hj. cbn. by rewrite list_lookup_insert_ne.
      * unfold slot. rewrite Hf, !full_eq, Hp1. cbn [pcs with_pc].
        rewrite list_lookup_insert_eq, andb_false_r by lia. cbn [weight]. lia.
  - set (s0 := with_pc _ _ _). pose proof (cost_wake_ready i s0).
    enough (cost s0 + 2 ≤ cost s + 0)%nat by lia.
    apply (cost_change s _ i); [by apply length_insert|done|lia|..].
    + intros j Hj. cbn. by rewrite !list_lookup_insert_ne.
    + unfold slot. rewrite Hp, !full_eq. unfold ready. cbn [pcs stages with_pc with_stages s0].
      rewrite !list_lookup_insert_eq by lia. cbn. lia.
Qed.

Lemma cost_collect n s s' :
  inv n s → main s = MResult → collect s = Some s' → (cost s' < cost s)%nat.
Proof.
  intros Hinv Hm. pose proof (inv_stages _ _ Hinv) as Hns. pose proof (inv_pcs _ _ Hinv) as Hn.
  unfold collect. set (t := length (pcs s)) in *.
  destruct (stages s !! t) as [x|] eqn:Hx; [|done]. cbn. destruct (data_ready x); intros [= <-].
  - set (s0 := Sys _ _ _ _ _ _). pose proof (cost_wake_ready t s0).
    enough (cost s0 + 3 ≤ cost s)%nat by lia. unfold cost. rewrite Hm.
    enough (sumto (length (pcs s)) (slot s0) + 0 ≤ sumto (length (pcs s)) (slot s) + 0)%nat
      by (cbn [pcs main main_cost s0]; lia).
    apply (sumto_change _ t); [lia| |].
    + intros j Hj. unfold slot, full. cbn. by rewrite list_lookup_insert_ne.
    + unfold slot. rewrite !full_eq. unfold ready. cbn [pcs stages s0].
      rewrite list_lookup_insert_eq by lia. cbn. lia.
  - pose proof (cost_with_main s MResultBlocked 1 0). rewrite Hm in *. cbn in *. lia.
Qed.

Lemma cost_main n s s' :
  inv n s → step s (EMain calm) = Some s' → (cost s' < cost s)%nat.
Proof.
  intros Hinv. cbn -[pipe_send collect]. destruct (main s) eqn:Hm; try done.
  - pose proof (inv_stages _ _ Hinv) as Hns. pose proof (inv_pcs _ _ Hinv) as Hn.
    destruct (unlocked 0 s); [|done]. unfold pipe_send. cbn.
    destruct (stages s !! 0%nat) as [y|] eqn:Hy; [|done]. cbn.
    destruct (data_ready y); cbn; intros [= <-].
    + pose proof (cost_with_main s (MSendBlocked v) 1 0) as H. rewrite Hm in H.
      cbn [main_cost] in H. lia.
    + pose proof (cost_store s 0 v ltac:(lia) ltac:(lia)) as Hst.
      set (s0 := with_stages _ s) in *. set (s1 := wake_avail _ s0) in *.
      assert (same_data s0 s1) as [] by apply wake_avail_same. cbn in same_length0.
      set (s2 := Sys _ _ _ _ _ _).
      assert (main s1 = MSend v) as Hm1.
      { destruct (wake_avail_main 0 s0) as [[E _]|[E _]]; cbn in E; fold s1 in E; congruence. }
      assert (cost s2 + (8 * n + 10) ≤ cost s1)%nat; [|lia].
      unfold cost. rewrite Hm1. cbn [pcs main main_cost s2].
      rewrite (sumto_ext _ (slot s2) (slot s1)) by done. lia.
  - by apply (cost_collect n).
Qed.

Lemma cost_bound n s : inv n s → (cost s ≤ (n + 2) * (8 * n + 10))%nat.
Proof.
  intros Hinv. pose proof (inv_pcs _ _ Hinv) as Hn. unfold cost. rewrite Hn.
  pose proof (sumto_bound n (slot s) (8 * n + 5)) as Hb.
  assert (∀ j, (j ≤ n)%nat → (slot s j ≤ 8 * n + 5)%nat) as H.
  { intros j Hj. unfold slot. rewrite Hn. destruct (pcs s !! j) as [[]|]; cbn -[Nat.mul]; case_match; lia. }
  specialize (Hb H). assert (main_cost n (main s) ≤ 8 * n + 10)%nat; [|lia].
  destruct (main s); cbn -[Nat.mul]; lia.
Qed.

(** A spurious wake-up costs one more round. *)
Lemma cost_spurious s i s' : step s (ESpurious i) = Some s' → (cost s' ≤ cost s + 4)%nat.
Proof.
  cbn. destruct i as [i|].
  - destruct (pcs s !! i) as [[]|] eqn:E; intros [= <-].
    + pose proof (cost_with_pc s i SLock SAvail 0 4 E eq_refl). cbn in *. lia.
    + pose proof (cost_with_pc s i SSend SReady 0 1 E eq_refl). cbn in *. lia.
  - destruct (main s) eqn:Em; intros [= <-].
    + pose proof (cost_with_main s (MSend v) 0 1). rewrite Em in *. cbn -[Nat.mul] in *. lia.
    + pose proof (cost_with_main s MResult 0 1). rewrite Em in *. cbn -[Nat.mul] in *. lia.
Qed.

(** *** When nothing moves *)

(** Steps of the threads and of main inside a call; spurious wake-ups and
    commands are not among them. *)
Definition internal (ev : event) : bool :=
  match ev with EMain _ | EStage _ _ => true | _ => false end.
(** No new command *)
Definition quiet (ev : event) : bool := match ev with ELine _ _ => false | _ => true end.
Definition spurious (ev : event) : bool := match ev with ESpurious _ => true | _ => false end.
Definition stuck (s : sys) : Prop := ∀ ev, internal ev = true → calm_step s ev = None.

Lemma stuck_pc n s i :
  inv n s → stuck s → (i < n)%nat →
  pcs s !! i = Some SAvail ∨
  (pcs s !! i = Some SReady ∨ pcs s !! i = Some SSend) ∧ ready s (S i) = true.
Proof.
  intros Hinv Hstuck Hi. pose proof (Hstuck (EStage i calm) eq_refl) as Hst. cbn in Hst.
  pose proof (inv_stages _ _ Hinv) as Hns. pose proof (inv_pcs _ _ Hinv) as Hn.
  destruct (lookup_lt_is_Some_2 (pcs s) i) as [p Hp]; [lia|].
  destruct (lookup_lt_is_Some_2 (stages s) i) as [x Hx]; [lia|].
  destruct (lookup_lt_is_Some_2 (stages s) (S i)) as [y Hy]; [lia|].
  unfold pipe_stage in Hst. rewrite Hp, Hx in Hst. cbn in Hst.
  pose proof (inv_pc _ _ Hinv _ _ Hp) as Hok.
  destruct p; cbn in *; try done; [by left| |].
  2: { right. split; [by left|by destruct Hok]. }
  right. split; [by right|].
  destruct (unlocked (S i) s) eqn:Hu.
  { unfold pipe_send in Hst. rewrite Hy in Hst. cbn in Hst. by destruct (data_ready y). }
  unfold unlocked in Hu. destruct (pcs s !! S i) as [q|] eqn:Hq; [|done].
  apply (inv_pc _ _ Hinv) in Hq as Hq'. destruct q; try done; cbn in Hq'; try apply Hq'.
  specialize (Hstuck (EStage (S i) calm) eq_refl). cbn in Hstuck. unfold pipe_stage in Hstuck.
  by rewrite Hq, Hy in Hstuck.
Qed.

(** A value that does not move has values before it in every later stage. *)
Lemma stuck_full n s i j :
  inv n s → stuck s → (i ≤ j ≤ n)%nat → ready s i = true → full s j = true.
Proof.
  intros Hinv Hst [Hij Hj] Hr. revert Hr. induction Hij as [|j Hij IH]; intros Hr.
  - rewrite full_eq, Hr. destruct (decide (i = n)) as [->|].
    + rewrite lookup_ge_None_2 by (rewrite (inv_pcs _ _ Hinv); lia). done.
    + destruct (stuck_pc n s i Hinv Hst) as [H|[[H|H] _]]; [lia|by rewrite H..].
  - specialize (IH ltac:(lia) Hr). rewrite full_eq in IH. apply andb_true_iff in IH as [Hrj _].
    assert (ready s (S j) = true) as Hr'.
    { destruct (stuck_pc n s j Hinv Hst) as [H|[_ H]]; [lia| |done].
      apply (inv_pc _ _ Hinv) in H. cbn in H. congruence. }
    rewrite full_eq, Hr'. destruct (decide (S j = n)) as [->|].
    + rewrite lookup_ge_None_2 by (rewrite (inv_pcs _ _ Hinv); lia). done.
    + destruct (stuck_pc n s (S j) Hinv Hst) as [H|[[H|H] _]]; [lia|by rewrite H..].
Qed.

Lemma full_cell s i : full s i = true → length (cell s i) = 1%nat.
Proof. intros H. unfold cell. rewrite H. unfold full in H. by case_match. Qed.

(** If any value is inside, the next '=' gets one at once. *)
Lemma stuck_tail n s : inv n s → stuck s → inflight s ≠ [] → full s n = true.
Proof.
  intros Hinv Hst Hf. destruct (full s n) eqn:Hn; [done|]. exfalso. apply Hf.
  apply downto_nil. rewrite (inv_pcs _ _ Hinv). intros i Hi. apply cell_empty.
  destruct (ready s i) eqn:Hr; [|done].
  assert (full s n = true); [|congruence]. eapply (stuck_full n s i n); done || lia.
Qed.

Lemma stuck_main n s :
  inv n s → stuck s →
  main s = MIdle ∨
  (∃ v, main s = MSend v ∨ main s = MSendBlocked v) ∧ length (inflight s) = S n.
Proof.
  intros Hinv Hst. pose proof (Hst (EMain calm) eq_refl) as Hm. cbn -[collect pipe_send] in Hm.
  pose proof (inv_stages _ _ Hinv) as Hns. pose proof (inv_pcs _ _ Hinv) as Hn.
  assert (ready s 0 = true → length (inflight s) = S n) as Hfull.
  { intros Hr. unfold inflight. rewrite Hn. apply downto_length_full.
    intros i Hi. apply full_cell. eapply (stuck_full n s 0 i); done || lia. }
  destruct (main s) as [|v|v| |] eqn:Em; [by left|..].
  - right. split; [by eauto|]. apply Hfull.
    destruct (unlocked 0 s) eqn:Hu.
    + unfold pipe_send in Hm. cbn in Hm.
      destruct (lookup_lt_is_Some_2 (stages s) 0) as [x Hx]; [lia|]. rewrite Hx in Hm. cbn in Hm.
      by destruct (data_ready x).
    + unfold unlocked in Hu. destruct (pcs s !! 0%nat) as [p|] eqn:Hp; [|done].
      pose proof (lookup_lt_Some _ _ _ Hp).
      destruct (stuck_pc n s 0 Hinv Hst) as [H'|[[H'|H'] _]]; [lia|..]; rewrite Hp in H';
        injection H' as ->; [done|apply (inv_pc _ _ Hinv) in Hp; apply Hp..].
  - right. split; [by eauto|]. apply Hfull. pose proof (inv_main _ _ Hinv) as H.
    unfold main_ok in H. by rewrite Em in H.
  - exfalso. unfold collect in Hm.
    destruct (lookup_lt_is_Some_2 (stages s) (length (pcs s))) as [x Hx]; [lia|].
    rewrite Hx in Hm. cbn in Hm. by destruct (data_ready x).
  - exfalso. pose proof (inv_main _ _ Hinv) as H. unfold main_ok in H. rewrite Em, Hn in H.
    assert (inflight s ≠ []) as Hne.
    { intros E. pose proof (inv_active _ _ Hinv) as Ha. pose proof (inv_active_nonneg _ _ Hinv).
      rewrite E, Em in Ha. unfold zlen in Ha; cbn in Ha. lia. }
    apply (stuck_tail n) in Hne; [|done..]. rewrite full_eq, H in Hne. done.
Qed.

(** ** Properties *)

(** C10 (refinement): the pipeline is a queue.  With [n ≥ 1] stages and in any
    interleaving in which the pthread calls of pipe_send succeed, the results main has collected followed by what is in the stages
    (last stage first) are the accepted values, in order, each increased by [n] as
    a long; at most [n + 1] values are inside; and [active] counts them, plus the
    value main is putting in or less the one it is waiting for. *)
Theorem pipe_order n s :
  (1 ≤ n)%nat → reach n s →
  (λ v, s64 (v + Z.of_nat n)) <$> accepted s = results s ++ inflight s ∧
  (length (inflight s) ≤ n + 1)%nat ∧
  active s = zlen (inflight s) + pending (main s) ∧ 0 ≤ active s ≤ Z.of_nat n + 2.
Proof.
  intros Hn Hr. pose proof (pipe_inv _ _ Hn Hr) as [].
  assert (length (inflight s) ≤ n + 1)%nat as Hl.
  { pose proof (downto_length n (cell s) (cell_length s)). unfold inflight.
    rewrite inv_pcs0. lia. }
  split_and!; try done. rewrite inv_active0. unfold zlen. destruct (main s); cbn; lia.
Qed.

Definition demo_events : list event :=
  let c := calm in
  [EStage 0 c; EStage 0 c; EStage 1 c; EStage 1 c;
   ELine [55; 10] (Some 7); EMain c; EStage 0 c; EStage 0 c; EStage 0 c; EStage 0 c; EStage 0 c;
   ELine [56; 10] (Some 8); EMain c; EStage 1 c; EStage 1 c; EStage 1 c;
   ELine [61; 10] None; EMain c].

Lemma pipe_order_witness : ∃ s,
  reach 2 s ∧ results s = [9] ∧ inflight s = [10] ∧
  (λ v, s64 (v + Z.of_nat 2)) <$> accepted s = results s ++ inflight s.
Proof.
  destruct (run calm_step (pipe_create 2) demo_events) as [s|] eqn:E; [|vm_compute in E; discriminate E].
  assert (reach 2 s) as Hr.
  { apply (run_reachable _ _ demo_events (pipe_create 2)); [by apply reach_init|exact E]. }
  exists s. split; [exact Hr|].
  assert (results s = [9] ∧ inflight s = [10]) as [H1 H2].
  { vm_compute in E. injection E as <-. split; vm_compute; reflexivity. }
  split_and!; [exact H1|exact H2|]. apply (pipe_order 2 s); [lia|exact Hr].
Defined.

(** C37 (termination): between two commands the program comes to rest.  From any
    state reached with pthread calls that succeed, at most [(n + 2) * (8 n + 10)]
    steps are possible without a new command, in whatever order the threads run,
    and five more for each spurious wake-up, itself included; and when no step (other
    than a spurious wake-up) is possible main is back at its prompt, with the next
    result already in the tail stage if any value is inside, or it is still in
    pipe_start with all [n + 1] stages full, where only a pipe_result could let it
    go on.  It never rests inside pipe_result: too many '=' commands do not hang,
    against the comment at the head of pipe.c, too many values do
    ([pipe_overfeed_hangs]). *)
Theorem pipe_terminates n s :
  (1 ≤ n)%nat → reach n s →
  (∀ evs s', Forall (λ ev, quiet ev = true) evs → run calm_step s evs = Some s' →
     (length evs ≤ (n + 2) * (8 * n + 10) + 5 * length (filter (λ ev, spurious ev = true) evs))%nat) ∧
  (stuck s →
     (main s = MIdle ∧ (inflight s ≠ [] → full s n = true)) ∨
     ((∃ v, main s = MSend v ∨ main s = MSendBlocked v) ∧ length (inflight s) = S n)).
Proof.
  intros Hn Hr. pose proof (pipe_inv _ _ Hn Hr) as Hinv. clear Hr. split.
  - intros evs s' Hq Hrun. pose proof (cost_bound _ _ Hinv).
    enough (length evs ≤ cost s + 5 * length (filter (λ ev, spurious ev = true) evs))%nat by lia.
    revert s Hinv Hrun H. induction Hq as [|ev evs Hev _ IH]; intros s Hinv Hrun _; [cbn; lia|].
    cbn [run] in Hrun. destruct (calm_step s ev) as [s1|] eqn:E; [|done].
    pose proof (pipe_inv_step _ _ _ _ Hn Hinv E) as Hinv1. specialize (IH s1 Hinv1 Hrun (cost_bound _ _ Hinv1)).
    apply pipe_calm_inv in E as [E He]. rewrite filter_cons.
    destruct ev as [| | |i]; subst; try done; cbn [spurious length];
      [rewrite decide_False by done|rewrite decide_False by done|rewrite decide_True by done].
    + pose proof (cost_main _ _ _ Hinv E). lia.
    + pose proof (cost_stage _ _ _ _ Hinv E). lia.
    + pose proof (cost_spurious _ _ _ E). cbn [length]. lia.
  - intros Hst. destruct (stuck_main _ _ Hinv Hst) as [H|H]; [left|by right].
    split; [done|]. by apply stuck_tail.
Qed.

Lemma pipe_terminates_witness :
  reach 10 (pipe_create 10) ∧
  ∀ evs s', Forall (λ ev, quiet ev = true) evs → filter (λ ev, spurious ev = true) evs = [] →
    run calm_step (pipe_create 10) evs = Some s' → (length evs ≤ 1080)%nat.
Proof.
  assert (reach 10 (pipe_create 10)) as Hr by by apply reach_init.
  split; [exact Hr|]. intros evs s' Hq He Hrun.
  destruct (pipe_terminates 10 (pipe_create 10)) as [H _]; [lia|exact Hr|].
  specialize (H evs s' Hq Hrun). rewrite He in H. exact H.
Defined.

(** '=' on an empty pipeline does not hang: pipe_result returns 0 at once. *)
Lemma pipe_result_empty s : active s ≤ 0 → pipe_result s = (0, s).
Proof. intros H. unfold pipe_result. by rewrite (proj2 (Z.leb_le _ _)). Qed.

(** Feeding [n + 2] values without '=' hangs: with one stage, the third value
    leaves main in pipe_start with no step left for anyone. *)
Definition overfeed : list event :=
  let c := calm in let v := ELine [55; 10] (Some 7) in
  [v; EMain c; EStage 0 c; EStage 0 c; EStage 0 c; EStage 0 c; EStage 0 c;
   v; EMain c; EStage 0 c; EStage 0 c; EStage 0 c; v].

Lemma pipe_overfeed_hangs : ∃ s,
  run calm_step (pipe_create 1) overfeed = Some s ∧ stuck s ∧ main s = MSend 7.
Proof.
  destruct (run calm_step (pipe_create 1) overfeed) as [s|] eqn:E; [|vm_compute in E; discriminate E].
  exists s. vm_compute in E. injection E as <-. split_and!; [done| |done].
  intros [line scan|e|i e|o] Hi; try done; unfold calm_step.
  - by repeat case_match.
  - case_match; [|done]. by destruct i as [|[|i]].
Qed.

End Pipe.
