(* ===== verification/Backoff.v ===== *)
(** * Locking with back-off

    Models ldd-k4/thread/programming_with_posix_thread/backoff.c: two threads take
    the same three mutexes in opposite orders.  With [backoff] set a thread that
    finds a mutex busy is to give up what it holds and start over; without it the
    threads may deadlock.

    The two thread functions mirror each other and are one definition with a
    direction; [first], [more], [advance], [backing] and [retreat] are the parts
    of the for loops that differ.  A step is one lock, trylock or unlock call.
    Unlocking a default mutex that the thread does not hold is undefined: the step
    sets [undefined], and nothing follows it. *)

From S2P Require Import Prelude.
From Stdlib Require Import ZifyBool.

Module Backoff.

#[local] Arguments Z.leb : simpl never.
#[local] Arguments Z.ltb : simpl never.
#[local] Arguments Z.add : simpl never.
#[local] Arguments Z.sub : simpl never.

Definition ITERATIONS : Z := 10.

Inductive dir := Forward | Backward.
#[export] Instance dir_eq_dec : EqDecision dir.
Proof. solve_decision. Defined.

Inductive pc :=
| For (i : Z)        (** at the test of the inner loop *)
| Back (i : Z)       (** at the test of the back-off loop *)
| Release (i : Z)    (** unlocking mutex [i] after all were taken *)
| Exit.

Record thread := Thread { at_ : pc; iterate : Z; backoffs : Z }.

Record sys := Sys {
  mutex : Z → option dir;       (** who holds mutex 0, 1, 2 *)
  forward : thread;
  backward : thread;
  undefined : bool
}.

Definition the (d : dir) (s : sys) : thread :=
  match d with Forward => forward s | Backward => backward s end.
Definition set_thread (d : dir) (t : thread) (s : sys) : sys :=
  match d with
  | Forward => Sys (mutex s) t (backward s) (undefined s)
  | Backward => Sys (mutex s) (forward s) t (undefined s)
  end.
Definition set_mutex (i : Z) (o : option dir) (s : sys) : sys :=
  Sys (λ j, if j =? i then o else mutex s j) (forward s) (backward s) (undefined s).

(** for (i = first; more; advance) and for (; backing; retreat) *)
Definition first (d : dir) : Z := match d with Forward => 0 | Backward => 2 end.
Definition more (d : dir) (i : Z) : bool := match d with Forward => i <? 3 | Backward => 0 <=? i end.
Definition advance (d : dir) (i : Z) : Z := match d with Forward => i + 1 | Backward => i - 1 end.
Definition backing (d : dir) (i : Z) : bool := match d with Forward => 0 <=? i | Backward => i <? 3 end.
Definition retreat (d : dir) (i : Z) : Z := match d with Forward => i - 1 | Backward => i + 1 end.
(** the unlocks after printf: last mutex first *)
Definition last (d : dir) : Z := match d with Forward => 2 | Backward => 0 end.

Definition unlock (d : dir) (i : Z) (s : sys) : sys :=
  if decide (mutex s i = Some d) then set_mutex i None s
  else Sys (mutex s) (forward s) (backward s) true.

(** One call of lock_forward or lock_backward; [None] if the thread is blocked or
    has returned. *)
Definition locker (backoff : Z) (d : dir) (s : sys) : option sys :=
  let t := the d s in
  match at_ t with
  | For i =>
      if more d i then
        match mutex s i with
        | None => Some (set_thread d (Thread (For (advance d i)) (iterate t) (backoffs t))
                          (set_mutex i (Some d) s))
        | Some _ =>
            if (i =? first d) || (backoff =? 0) then None    (* pthread_mutex_lock *)
            else Some (set_thread d (Thread (Back i) (iterate t) (backoffs t + 1)) s)
        end
      else Some (set_thread d (Thread (Release (last d)) (iterate t) (backoffs t)) s)
  | Back i =>
      if backing d i then
        Some (set_thread d (Thread (Back (retreat d i)) (iterate t) (backoffs t)) (unlock d i s))
      else Some (set_thread d (Thread (For (advance d i)) (iterate t) (backoffs t)) s)
  | Release i =>
      let s := unlock d i s in
      if backing d (retreat d i) then
        Some (set_thread d (Thread (Release (retreat d i)) (iterate t) (backoffs t)) s)
      else if iterate t + 1 <? ITERATIONS then
        Some (set_thread d (Thread (For (first d)) (iterate t + 1) 0) s)
      else Some (set_thread d (Thread Exit (iterate t + 1) (backoffs t)) s)
  | Exit => None
  end.

Definition step (backoff : Z) (s : sys) (d : dir) : option sys :=
  if undefined s then None else locker backoff d s.

Definition main : sys :=
  Sys (λ _, None) (Thread (For (first Forward)) 0 0) (Thread (For (first Backward)) 0 0) false.

Definition started (s : sys) : Prop := s = main.
Abbreviation reach b := (reachable started (step b)).

(** ** What the threads hold *)

(** Mutex [j] comes before [i] in the order of [d]. *)
Definition before (d : dir) (j i : Z) : bool :=
  match d with Forward => j <? i | Backward => i <? j end.

Definition holds (d : dir) (p : pc) (j : Z) : bool :=
  (0 <=? j) && (j <? 3) &&
  match p with
  | For i | Back i => before d j i
  | Release i => negb (before d i j)
  | Exit => false
  end.

Definition at_ok (d : dir) (p : pc) : Prop :=
  match p with
  | For i => -1 ≤ i ≤ 3 ∧ i ≠ (match d with Forward => -1 | Backward => 3 end)
  | Back i => 0 ≤ i ≤ 2 ∧ i ≠ first d
  | Release i => 0 ≤ i ≤ 2
  | Exit => True
  end.

Record inv (s : sys) : Prop := {
  inv_at : ∀ d, at_ok d (at_ (the d s));
  inv_iterate : ∀ d, at_ (the d s) ≠ Exit → 0 ≤ iterate (the d s) < ITERATIONS;
  inv_holds : ∀ d j, mutex s j = Some d ↔ holds d (at_ (the d s)) j = true
}.

(** *** Changing one thread *)

Lemma the_set_thread d d' t s : the d' (set_thread d t s) = if decide (d' = d) then t else the d' s.
Proof. by destruct d, d'. Qed.
Lemma mutex_set_thread d t s : mutex (set_thread d t s) = mutex s.
Proof. by destruct d. Qed.
Lemma the_set_mutex d i o s : the d (set_mutex i o s) = the d s.
Proof. by destruct d. Qed.
Lemma undefined_set_thread d t s : undefined (set_thread d t s) = undefined s.
Proof. by destruct d. Qed.

(** The thread moves from [p] to [p'] and the mutexes change to match what it
    holds at [p']. *)
Lemma backoff_move d t s s0 :
  inv s → (∀ d', the d' s0 = the d' s) →
  at_ok d (at_ t) → (at_ t ≠ Exit → 0 ≤ iterate t < ITERATIONS) →
  (∀ j, (holds d (at_ t) j = holds d (at_ (the d s)) j ∧ mutex s0 j = mutex s j) ∨
        (holds d (at_ t) j = true ∧ mutex s j = None ∧ mutex s0 j = Some d) ∨
        (holds d (at_ t) j = false ∧ mutex s j = Some d ∧ mutex s0 j = None)) →
  inv (set_thread d t s0).
Proof.
  intros [Hat Hit Hh] Hthe Hok Hi Hm. constructor.
  - intros d'. rewrite the_set_thread. case_decide; [by subst|]. by rewrite Hthe.
  - intros d' Hne. rewrite the_set_thread in *. case_decide; [by subst; apply Hi|].
    rewrite Hthe in *. by apply Hit.
  - intros d' j. rewrite the_set_thread, mutex_set_thread.
    specialize (Hm j) as [[H1 H2]|[(H1&H2&H3)|(H1&H2&H3)]];
      case_decide; subst; rewrite ?Hthe, ?H2, ?H3, ?H1.
    + apply Hh.
    + apply Hh.
    + done.
    + rewrite <- Hh, H2. naive_solver.
    + done.
    + rewrite <- Hh, H2. naive_solver.
Qed.

(** Both directions, by arithmetic on the indices *)
Ltac dirs d := destruct d; unfold holds in *; cbn in *; lia.

Lemma backoff_inv_step b s d s' :
  inv s → step b s d = Some s' → undefined s' = false → inv s'.
Proof.
  intros Hinv. unfold step. destruct (undefined s) eqn:Hu; [done|]. unfold locker.
  pose proof (inv_at s Hinv d) as Hok. pose proof (inv_iterate s Hinv d) as Hit.
  pose proof (inv_holds s Hinv d) as Hh.
  destruct (the d s) as [p it bo] eqn:Ht. cbn in *.
  destruct p as [i|i|i|]; cbn in Hok, Hit; [| | |done].
  - destruct (more d i) eqn:Hmore.
    + destruct (mutex s i) as [o|] eqn:Hi.
      * destruct (_ || _)%bool eqn:Hb; [done|]. intros [= <-] _. apply (backoff_move _ _ s); cbn; try done.
        -- dirs d.
        -- by intros; apply Hit.
        -- intros j. left. by rewrite Ht.
      * intros [= <-] _. apply (backoff_move _ _ s); cbn; try done.
        -- dirs d.
        -- by intros; apply Hit.
        -- intros j. rewrite Ht. destruct (decide (j = i)) as [->|].
           ++ right; left. rewrite Z.eqb_refl. split_and!; try done. dirs d.
           ++ left. rewrite (proj2 (Z.eqb_neq j i)) by done. split; [|done].
              dirs d.
    + intros [= <-] _. apply (backoff_move _ _ s); cbn; try done.
      * dirs d.
      * by intros; apply Hit.
      * intros j. left. rewrite Ht. split; [|done]. dirs d.
  - assert (backing d i = true) as -> by (dirs d).
    intros [= <-]. rewrite undefined_set_thread. unfold unlock.
    case_decide as Hm; [|done]. apply Hh in Hm. dirs d.
  - assert (mutex s i = Some d) as Hm by (apply Hh; dirs d).
    unfold unlock. rewrite decide_True by done.
    assert (∀ j p', (holds d p' j = holds d (Release i) j && negb (j =? i)) →
      (holds d p' j = holds d (at_ (the d s)) j ∧ mutex (set_mutex i None s) j = mutex s j) ∨
      (holds d p' j = true ∧ mutex s j = None ∧ mutex (set_mutex i None s) j = Some d) ∨
      (holds d p' j = false ∧ mutex s j = Some d ∧ mutex (set_mutex i None s) j = None)) as Hrel.
    { intros j p' ->. rewrite Ht. cbn [mutex set_mutex at_]. destruct (j =? i) eqn:E; zbool.
      - subst. right; right. by rewrite andb_false_r.
      - left. by rewrite andb_true_r. }
    destruct (backing d (retreat d i)) eqn:Hb; [|case_match eqn:Hlt]; intros [= <-] _;
      apply (backoff_move _ _ s); try (by intros []); try done; try (intros j; apply Hrel);
      destruct d; unfold holds, ITERATIONS in *; cbn in *; try lia; try (intros; lia);
      try (specialize (Hit ltac:(done)); lia).
Qed.

(** A step is undefined exactly at the first unlock of a back-off. *)
Lemma step_undefined b s d s' :
  inv s → step b s d = Some s' →
  (undefined s' = true ↔ ∃ i, at_ (the d s) = Back i).
Proof.
  intros Hinv. unfold step. destruct (undefined s) eqn:Hu; [done|]. unfold locker.
  pose proof (inv_at s Hinv d) as Hok. pose proof (inv_holds s Hinv d) as Hh.
  destruct (the d s) as [p it bo] eqn:Ht. cbn in *.
  destruct p as [i|i|i|]; cbn in Hok; [| | |done].
  - assert (∀ t s0, undefined s0 = false →
      (undefined (set_thread d t s0) = true ↔ ∃ j, For i = Back j)) as H.
    { intros t s0 H0. rewrite undefined_set_thread, H0. naive_solver. }
    destruct (more d i); [|intros [= <-]; by apply H].
    destruct (mutex s i); [|intros [= <-]; by apply H].
    destruct (_ || _)%bool; [done|]. intros [= <-]; by apply H.
  - assert (backing d i = true) as -> by dirs d. intros [= <-].
    rewrite undefined_set_thread. unfold unlock. rewrite decide_False.
    + cbn. naive_solver.
    + rewrite Hh. dirs d.
  - assert (mutex s i = Some d) as Hm by (apply Hh; dirs d).
    unfold unlock. rewrite decide_True by done.
    destruct (backing _ _); [|destruct (_ <? _)]; intros [= <-];
      rewrite undefined_set_thread; cbn; rewrite Hu; naive_solver.
Qed.

Lemma backoff_inv_main : inv main.
Proof.
  constructor.
  - intros []; cbn; lia.
  - intros [] _; cbn; unfold ITERATIONS; lia.
  - intros d j. split; [done|]. cbn. intros. dirs d.
Qed.

Lemma backoff_inv b s : reach b s → undefined s = false → inv s.
Proof.
  induction 1 as [s ->|s d s' Hr IH Hst]; intros Hu; [apply backoff_inv_main|].
  eapply backoff_inv_step; [|done..]. apply IH. unfold step in Hst. by destruct (undefined s).
Qed.

(** Without back-off no thread is in the back-off loop. *)
Lemma no_back s : reach 0 s → ∀ d i, at_ (the d s) ≠ Back i.
Proof.
  induction 1 as [s ->|s d s' Hr IH Hst]; intros d' i; [by destruct d'|].
  unfold step in Hst. destruct (undefined s); [done|]. unfold locker in Hst.
  assert (∀ j, the d' (unlock d j s) = the d' s) as Hu.
  { intros j. unfold unlock. case_decide; by destruct d'. }
  destruct (the d s) as [p it bo] eqn:Ht. cbn in Hst.
  destruct p as [j|j|j|]; [| | |done]; repeat case_match; simplify_eq;
    rewrite the_set_thread, ?the_set_mutex, ?Hu; case_decide; subst; try done;
    try (by apply IH).
  - rewrite orb_true_r in *. done.
  - by destruct (IH d j); rewrite Ht.
Qed.

Lemma defined_without_backoff s : reach 0 s → undefined s = false.
Proof.
  induction 1 as [s ->|s d s' Hr IH Hst]; [done|].
  destruct (undefined s') eqn:Hu; [|done].
  apply (step_undefined 0 s d s') in Hu as [i Hi]; [|by eapply backoff_inv|done].
  by destruct (no_back s Hr d i).
Qed.

(** What a blocked thread waits for *)
Lemma blocked b s d :
  inv s → undefined s = false → step b s d = None →
  at_ (the d s) = Exit ∨
  ∃ i o, at_ (the d s) = For i ∧ mutex s i = Some o ∧ o ≠ d ∧ (i = first d ∨ b = 0).
Proof.
  intros Hinv Hu. unfold step. rewrite Hu. unfold locker.
  pose proof (inv_holds s Hinv d) as Hh.
  destruct (the d s) as [p it bo] eqn:Ht. cbn in *. destruct p as [i|i|i|]; [| | |by left].
  - destruct (more d i); [|done]. destruct (mutex s i) as [o|] eqn:Hm; [|done].
    destruct (_ || _)%bool eqn:E; [|done]. intros _. right. exists i, o. split_and!; try done.
    + intros ->. apply Hh in Hm. dirs d.
    + apply orb_true_iff in E as [?%Z.eqb_eq|?%Z.eqb_eq]; auto.
  - by case_match.
  - by repeat case_match.
Qed.

(** ** Properties *)

(** C38 (safety): as long as nothing undefined has happened, a thread holds exactly
    the mutexes before its position in its own order, and the two threads never
    both have all three.  The next step of a thread that has met a busy mutex
    unlocks that mutex, which it does not hold: every back-off of the program is
    undefined behaviour.  Without back-off no such unlock happens. *)
Theorem backoff_ownership b s :
  reach b s →
  (undefined s = false →
    (∀ d j, mutex s j = Some d ↔ holds d (at_ (the d s)) j = true) ∧
    ¬ (at_ (forward s) = Release 2 ∧ at_ (backward s) = Release 0) ∧
    ∀ d i, at_ (the d s) = Back i →
      mutex s i ≠ Some d ∧ ∃ s', step b s d = Some s' ∧ undefined s' = true) ∧
  (b = 0 → undefined s = false ∧ ∀ d i, at_ (the d s) ≠ Back i).
Proof.
  intros Hr. split.
  - intros Hu. pose proof (backoff_inv _ _ Hr Hu) as Hinv. pose proof (inv_holds _ Hinv) as Hh.
    split_and!; [done| |].
    + intros [Hf Hb]. pose proof (proj2 (Hh Forward 1)) as H1. pose proof (proj2 (Hh Backward 1)) as H2.
      cbn in H1, H2. rewrite Hf in H1. rewrite Hb in H2.
      rewrite H1 in H2 by done. by specialize (H2 eq_refl).
    + intros d i Hd. pose proof (inv_at _ Hinv d) as Hok. rewrite Hd in Hok. cbn in Hok. split.
      * rewrite Hh, Hd. dirs d.
      * destruct (step b s d) as [s'|] eqn:E.
        -- exists s'. split; [done|]. apply (step_undefined b s d); eauto.
        -- apply blocked in E as [E|(?&?&E&_)]; [congruence..|done|done].
  - intros ->. split; [by apply defined_without_backoff|by apply no_back].
Qed.

(** Forward takes 0 and 1, backward 2; forward then backs off at 2. *)
Definition collision : list dir := [Forward; Backward; Forward; Forward].

Lemma backoff_ownership_witness : ∃ s s',
  reach 1 s ∧ undefined s = false ∧ at_ (forward s) = Back 2 ∧ mutex s 2 = Some Backward ∧
  mutex s 2 ≠ Some Forward ∧ step 1 s Forward = Some s' ∧ undefined s' = true.
Proof.
  destruct (run (step 1) main collision) as [s|] eqn:E; [|vm_compute in E; discriminate E].
  assert (reach 1 s) as Hr.
  { apply (run_reachable _ _ collision main); [by apply reach_init|exact E]. }
  assert (undefined s = false ∧ at_ (forward s) = Back 2 ∧ mutex s 2 = Some Backward) as (H1&H2&H3).
  { vm_compute in E. injection E as <-. by vm_compute. }
  destruct (proj1 (backoff_ownership 1 s Hr) H1) as (_ & _ & Hb).
  destruct (Hb Forward 2 H2) as (H4 & s' & H5 & H6).
  exists s, s'. by split_and!.
Defined.

(** with back-off the threads cannot deadlock: while everything is
    defined, some thread can move until both have done their ten iterations.
    Without back-off the only dead end is the circular wait, each thread in
    pthread_mutex_lock for a mutex the other holds. *)
Theorem backoff_progress b s :
  reach b s → undefined s = false → (∀ d, step b s d = None) →
  (∀ d, at_ (the d s) = Exit) ∨
  (b = 0 ∧ ∃ i j, at_ (forward s) = For i ∧ mutex s i = Some Backward ∧
                  at_ (backward s) = For j ∧ mutex s j = Some Forward).
Proof.
  intros Hr Hu Hst. pose proof (backoff_inv _ _ Hr Hu) as Hinv.
  pose proof (inv_holds _ Hinv) as Hh.
  destruct (blocked b s Forward Hinv Hu (Hst _)) as [Hf|(i&o&Hf&Hi&Ho&Hfi)],
    (blocked b s Backward Hinv Hu (Hst _)) as [Hb|(j&o'&Hb&Hj&Ho'&Hbj)]; cbn in *.
  - left. by intros [].
  - destruct o'; [|done]. apply Hh in Hj. cbn in Hj. rewrite Hf in Hj. unfold holds in Hj. lia.
  - destruct o; [done|]. apply Hh in Hi. cbn in Hi. rewrite Hb in Hi. unfold holds in Hi. lia.
  - destruct o, o'; try done. right. split; [|by eauto 10].
    apply Hh in Hi. cbn in Hi. rewrite Hb in Hi. apply Hh in Hj. cbn in Hj. rewrite Hf in Hj.
    unfold holds in *. cbn in *. lia.
Qed.

Lemma backoff_progress_witness : ∃ s,
  reach 0 s ∧ (∀ d, step 0 s d = None) ∧ at_ (forward s) = For 2 ∧ at_ (backward s) = For 1 ∧
  ((∀ d, at_ (the d s) = Exit) ∨
   (0 = 0 ∧ ∃ i j, at_ (forward s) = For i ∧ mutex s i = Some Backward ∧
                   at_ (backward s) = For j ∧ mutex s j = Some Forward)).
Proof.
  destruct (run (step 0) main [Forward; Backward; Forward]) as [s|] eqn:E;
    [|vm_compute in E; discriminate E].
  assert (reach 0 s) as Hr.
  { apply (run_reachable _ _ [Forward; Backward; Forward] main); [by apply reach_init|exact E]. }
  assert (undefined s = false ∧ (∀ d, step 0 s d = None) ∧ at_ (forward s) = For 2 ∧
          at_ (backward s) = For 1) as (H1&H2&H3&H4).
  { vm_compute in E. injection E as <-. split_and!; try done. by intros []. }
  exists s. split_and!; try done. by apply (backoff_progress 0 s).
Defined.

End Backoff.
