(* ===== verification/Server.v ===== *)
(** * Client and server over a request queue

    Models ldd-k4/thread/programming_with_posix_thread/server.c: client threads
    queue requests for one server thread, which owns the terminal; main creates the
    clients, waits until they are done and queues the request to quit.

    A char array is the string it holds ([None]: no terminator inside it).  A
    pthread call or malloc that fails ends the process, so steps are the successful
    ones.  What is undefined (a buffer overrun, a string without end) sets
    [undefined], and nothing follows it. *)

From S2P Require Import Prelude Pthread LinkedList.

Abbreviation list_last := last.

Module Server.

Definition CLIENT_THREADS : Z := 4.
Definition REQ_READ : Z := 1.
Definition REQ_WRITE : Z := 2.
Definition REQ_QUIT : Z := 3.

Inductive who := Client (n : nat) | Main.
#[export] Instance who_eq_dec : EqDecision who.
Proof. solve_decision. Defined.

(** [owner] is not in the code: the thread that made the request. *)
Record request_t := Req {
  next : option nat;
  operation : Z;
  synchronous : Z;
  done_flag : Z;
  prompt : option (list Z);
  text : option (list Z);
  owner : who
}.

Record tty_server_t := Tty { first : option nat; last : option nat; running : Z }.

Abbreviation heap := (gmap nat request_t).

(** Where a client is: before a tty_server_request, in or after the wait of one, or
    before its last critical section. *)
Inductive cpc :=
| CRead
| CReadBlocked (r : nat)
| CReadWoken (r : nat)
| CWrite (loops : Z) (string : list Z)
| CLeave
| CExit.

Inductive mpc :=
| MCreate (count : Z)
| MLock
| MBlocked
| MWoken
| MQuit
| MQuitBlocked (r : nat)
| MQuitWoken (r : nat)
| MExit.
#[export] Instance mpc_eq_dec : EqDecision mpc.
Proof. solve_decision. Defined.

(** [SLock]: before pthread_mutex_lock at the top of the loop, or woken. *)
Inductive spc := SNone | SLock | SBlocked | SRun (r : nat) | SSync (r : nat) | SExit.

Record sys := Sys {
  tty : tty_server_t;
  hp : heap;
  server : spc;
  clients : gmap nat cpc;
  main : mpc;
  client_threads : Z;
  undefined : bool;
  requested : list (Z * option (list Z));   (** history: operation and text, as queued *)
  handled : list (Z * option (list Z));     (** history: the same, as taken by the server *)
  output : list (list Z);                   (** history: lines put out *)
  replies : list (who * list Z);            (** history: lines read, for whom *)
  returned : list (who * list Z)            (** history: strings that reads returned *)
}.

Definition with_server (p : spc) (s : sys) : sys :=
  Sys (tty s) (hp s) p (clients s) (main s) (client_threads s) (undefined s)
      (requested s) (handled s) (output s) (replies s) (returned s).
Definition with_client (n : nat) (p : cpc) (s : sys) : sys :=
  Sys (tty s) (hp s) (server s) (<[n := p]> (clients s)) (main s) (client_threads s) (undefined s)
      (requested s) (handled s) (output s) (replies s) (returned s).
Definition with_main (p : mpc) (s : sys) : sys :=
  Sys (tty s) (hp s) (server s) (clients s) p (client_threads s) (undefined s)
      (requested s) (handled s) (output s) (replies s) (returned s).
Definition with_heap (h : heap) (s : sys) : sys :=
  Sys (tty s) h (server s) (clients s) (main s) (client_threads s) (undefined s)
      (requested s) (handled s) (output s) (replies s) (returned s).
Definition overrun (s : sys) : sys :=
  Sys (tty s) (hp s) (server s) (clients s) (main s) (client_threads s) true
      (requested s) (handled s) (output s) (replies s) (returned s).

(** strncpy into an array of [n] chars *)
Definition strncpy (n : Z) (str : list Z) : option (list Z) :=
  if zlen str <? n then Some str else None.

(** sprintf (formatted, "(%d#%d) %s", ...) into 128 chars; both numbers have one
    digit.  [None]: it does not fit. *)
Definition format (my_number : nat) (loops : Z) (str : list Z) : option (list Z) :=
  let f := [40; 48 + Z.of_nat my_number; 35; 48 + loops; 41; 32] ++ str in
  if zlen f <? 128 then Some f else None.

(** "Client %d> " *)
Definition client_prompt (my_number : nat) : list Z :=
  [67; 108; 105; 101; 110; 116; 32; 48 + Z.of_nat my_number; 62; 32].

(** ** tty_server_request *)

(** Add the request to the queue; [None]: [last] is not a live request. *)
Definition enqueue (r : nat) (t : tty_server_t) (h : heap) : option (tty_server_t * heap) :=
  match first t with
  | None => Some (Tty (Some r) (Some r) (running t), h)
  | Some _ =>
      l ← last t;
      e ← h !! l;
      Some (Tty (first t) (Some r) (running t),
            <[l := Req (Some r) (operation e) (synchronous e) (done_flag e) (prompt e) (text e)
                       (owner e)]> h)
  end.

(** Up to the test of done_flag; [r]: what malloc returned.  pthread_cond_signal
    wakes the server if it waits; the server thread is created at first use. *)
Definition tty_server_request (w : who) (op sync : Z) (pr str : option (list Z)) (r : nat) (s : sys)
    : option sys :=
  if decide (hp s !! r = None) then
    let sv := if running (tty s) =? 0 then SLock else server s in
    let t := Tty (first (tty s)) (last (tty s)) 1 in
    let tx := match str with
              | Some x => if op =? REQ_WRITE then strncpy 128 x else Some []
              | None => Some []
              end in
    let e := Req None op sync 0 (match pr with Some p => strncpy 32 p | None => Some [] end) tx w in
    '(t, h) ← enqueue r t (<[r := e]> (hp s));
    Some (Sys t h (match sv with SBlocked => SLock | p => p end) (clients s) (main s)
              (client_threads s) (undefined s) (requested s ++ [(op, tx)]) (handled s)
              (output s) (replies s) (returned s))
  else None.

(** ** tty_server_routine *)

(** Lock, wait for data, take the first request *)
Definition server_take (s : sys) : option sys :=
  match first (tty s) with
  | None => Some (with_server SBlocked s)
  | Some r =>
      e ← hp s !! r;
      let l := match next e with None => None | Some _ => last (tty s) end in
      Some (Sys (Tty (next e) l (running (tty s))) (hp s) (SRun r) (clients s) (main s)
                (client_threads s) (undefined s) (requested s)
                (handled s ++ [(operation e, text e)]) (output s) (replies s) (returned s))
  end.

(** A line as fgets returns it, the newline cut off *)
Definition chomp (line : list Z) : list Z :=
  match list_last line with
  | Some c => if c =? 10 then removelast line else line
  | None => []
  end.

(** What a buffer holds as a string: the characters before the first NUL *)
Fixpoint c_string (l : list Z) : list Z :=
  match l with [] => [] | c :: l => if c =? 0 then [] else c :: c_string l end.

(** Process the request without the mutex; [input]: what fgets reads. *)
Definition server_process (input : option (list Z)) (r : nat) (s : sys) : option sys :=
  e ← hp s !! r;
  if operation e =? REQ_READ then
    let l := match input with Some line => chomp (c_string (take 127 line)) | None => [] end in
    Some (Sys (tty s)
              (<[r := Req (next e) (operation e) (synchronous e) (done_flag e) (prompt e) (Some l)
                          (owner e)]> (hp s))
              (server s) (clients s) (main s) (client_threads s) (undefined s) (requested s)
              (handled s) (output s) (replies s ++ [(owner e, l)]) (returned s))
  else if operation e =? REQ_WRITE then
    match text e with
    | Some l =>
        Some (Sys (tty s) (hp s) (server s) (clients s) (main s) (client_threads s) (undefined s)
                  (requested s) (handled s) (output s ++ [l]) (replies s) (returned s))
    | None => Some (overrun s)
    end
  else Some s.

Definition wake_client (r : nat) (p : cpc) : cpc :=
  match p with CReadBlocked r' => if decide (r' = r) then CReadWoken r' else p | _ => p end.
Definition wake_main (r : nat) (p : mpc) : mpc :=
  match p with MQuitBlocked r' => if decide (r' = r) then MQuitWoken r' else p | _ => p end.

Definition loop_end (op : Z) : spc := if op =? REQ_QUIT then SExit else SLock.

(** The switch, and for a request nobody waits for, free *)
Definition server_run (input : option (list Z)) (r : nat) (s : sys) : option sys :=
  s ← server_process input r s;
  e ← hp s !! r;
  if synchronous e =? 0 then
    Some (with_server (loop_end (operation e)) (with_heap (delete r (hp s)) s))
  else Some (with_server (SSync r) s).

(** Set done_flag and signal [done] under the mutex *)
Definition server_sync (r : nat) (s : sys) : option sys :=
  e ← hp s !! r;
  let h := <[r := Req (next e) (operation e) (synchronous e) 1 (prompt e) (text e) (owner e)]> (hp s) in
  Some (Sys (tty s) h (loop_end (operation e)) (update_all (λ _, wake_client r) (clients s)) (wake_main r (main s))
            (client_threads s) (undefined s) (requested s) (handled s) (output s) (replies s)
            (returned s)).

Definition tty_server_routine (input : option (list Z)) (s : sys) : option sys :=
  match server s with
  | SLock => server_take s
  | SRun r => server_run input r s
  | SSync r => server_sync r s
  | SNone | SBlocked | SExit => None
  end.

(** ** client_routine and main *)

Definition client_routine (n r : nat) (s : sys) : option sys :=
  p ← clients s !! n;
  match p with
  | CRead =>
      s ← tty_server_request (Client n) REQ_READ 1 (Some (client_prompt n)) None r s;
      Some (with_client n (CReadBlocked r) s)
  | CReadWoken r =>
      e ← hp s !! r;
      if done_flag e =? 0 then Some (with_client n (CReadBlocked r) s)
      else match text e with
      | Some str =>
          let p := if zlen str =? 0 then CLeave else CWrite 0 str in
          Some (Sys (tty s) (delete r (hp s)) (server s) (<[n := p]> (clients s)) (main s)
                    (client_threads s) (undefined s) (requested s) (handled s) (output s)
                    (replies s) (returned s ++ [(Client n, str)]))
      | None => Some (overrun s)
      end
  | CWrite loops str =>
      match format n loops str with
      | Some f =>
          s ← tty_server_request (Client n) REQ_WRITE 0 None (Some f) r s;
          Some (with_client n (if loops + 1 <? 4 then CWrite (loops + 1) str else CRead) s)
      | None => Some (overrun s)
      end
  | CLeave =>
      let k := client_threads s - 1 in
      let m := if k <=? 0 then match main s with MBlocked => MWoken | m => m end else main s in
      Some (Sys (tty s) (hp s) (server s) (<[n := CExit]> (clients s)) m k (undefined s)
                (requested s) (handled s) (output s) (replies s) (returned s))
  | CReadBlocked _ | CExit => None
  end.

Definition main_routine (r : nat) (s : sys) : option sys :=
  match main s with
  | MCreate count =>
      if count <? client_threads s then
        Some (with_main (MCreate (count + 1)) (with_client (Z.to_nat count) CRead s))
      else Some (with_main MLock s)
  | MLock | MWoken =>
      Some (with_main (if 0 <? client_threads s then MBlocked else MQuit) s)
  | MQuit =>
      s ← tty_server_request Main REQ_QUIT 1 None None r s;
      Some (with_main (MQuitBlocked r) s)
  | MQuitWoken r =>
      e ← hp s !! r;
      if done_flag e =? 0 then Some (with_main (MQuitBlocked r) s)
      else Some (with_main MExit (with_heap (delete r (hp s)) s))
  | MBlocked | MQuitBlocked _ | MExit => None
  end.

Inductive event :=
| EServer (input : option (list Z))
| EClient (n r : nat)
| EMain (r : nat)
| ESpurious (w : option who).      (** [None]: the server *)

(** The process ends when main returns. *)
Definition step (s : sys) (ev : event) : option sys :=
  if undefined s then None else
  match main s with
  | MExit => None
  | _ =>
      match ev with
      | EServer input => tty_server_routine input s
      | EClient n r => client_routine n r s
      | EMain r => main_routine r s
      | ESpurious None => match server s with SBlocked => Some (with_server SLock s) | _ => None end
      | ESpurious (Some (Client n)) =>
          match clients s !! n with
          | Some (CReadBlocked r) => Some (with_client n (CReadWoken r) s)
          | _ => None
          end
      | ESpurious (Some Main) =>
          match main s with
          | MBlocked => Some (with_main MWoken s)
          | MQuitBlocked r => Some (with_main (MQuitWoken r) s)
          | _ => None
          end
      end
  end.

Definition initial : sys :=
  Sys (Tty None None 0) ∅ SNone ∅ (MCreate 0) CLIENT_THREADS false [] [] [] [] [].

Definition started (s : sys) : Prop := s = initial.
Abbreviation reach := (reachable started step).

(** ** The queue and the requests

    [core] relates the server's variables, the requests in the heap, where the
    server is, and for which request each thread waits ([W]: its address and
    whether the thread sleeps), to the list of queued requests. *)

Definition wait_c (p : cpc) : option (nat * bool) :=
  match p with CReadBlocked r => Some (r, true) | CReadWoken r => Some (r, false) | _ => None end.
Definition wait_m (p : mpc) : option (nat * bool) :=
  match p with MQuitBlocked r => Some (r, true) | MQuitWoken r => Some (r, false) | _ => None end.
Definition waiting (s : sys) (w : who) : option (nat * bool) :=
  match w with
  | Client n => match clients s !! n with Some p => wait_c p | None => None end
  | Main => wait_m (main s)
  end.

Definition datum (e : request_t) : Z * option (list Z) := (operation e, text e).

(** The request the server has in hand *)
Definition cur (p : spc) : option nat :=
  match p with SRun r | SSync r => Some r | _ => None end.

(** What the callers make: only reads and the quit request are synchronous. *)
Definition req_ok (e : request_t) : Prop :=
  is_Some (text e) ∧
  match owner e with
  | Main => operation e = REQ_QUIT ∧ synchronous e ≠ 0
  | Client _ => operation e = REQ_READ ∧ synchronous e ≠ 0 ∨ operation e = REQ_WRITE ∧ synchronous e = 0
  end.

Section core.
Implicit Types (W : who → option (nat * bool)) (l : list (nat * (Z * option (list Z)))).

(** A request somebody will free: the server if nobody waits for it, its owner
    otherwise. *)
Definition live W (sv : spc) l (r : nat) (e : request_t) : Prop :=
  (synchronous e = 0 ∧ (r ∈ l.*1 ∨ sv = SRun r)) ∨
  (synchronous e ≠ 0 ∧ ∃ b, W (owner e) = Some (r, b) ∧
     ((done_flag e = 0 ∧ (r ∈ l.*1 ∨ cur sv = Some r)) ∨
      (done_flag e ≠ 0 ∧ (r ∉ l.*1) ∧ cur sv ≠ Some r ∧ b = false))).

Record core (t : tty_server_t) (h : heap) (sv : spc) W l : Prop := {
  core_chain : chain next datum h (first t) l;
  core_nodup : NoDup l.*1;
  core_last : last t = fst <$> list_last l;
  core_cur : ∀ r, cur sv = Some r → (r ∉ l.*1) ∧ is_Some (h !! r);
  core_live : ∀ r e, h !! r = Some e → req_ok e ∧ live W sv l r e;
  core_waits : ∀ w r b, W w = Some (r, b) → ∃ e, h !! r = Some e ∧ owner e = w ∧ synchronous e ≠ 0;
  core_blocked : sv = SBlocked → l = [];
  core_running : running t = 0 ↔ sv = SNone;
  core_none : sv = SNone → l = []
}.

Lemma core_in_heap t h sv W l r : core t h sv W l → r ∈ l.*1 → is_Some (h !! r).
Proof. intros [Hc] Hr. by eapply lseg_in_heap. Qed.

Lemma core_ext t h sv W W' l : (∀ w, W' w = W w) → core t h sv W l → core t h sv W' l.
Proof.
  intros HW []. constructor; try done.
  - intros r e He. destruct (core_live0 r e He) as [Hok [Hl|Hl]]; split; try done; [by left|].
    right. by rewrite HW.
  - intros w r b. rewrite HW. apply core_waits0.
Qed.

Definition upd W (w : who) (o : option (nat * bool)) (w' : who) : option (nat * bool) :=
  if decide (w' = w) then o else W w'.

(** A sleeping thread may be woken at any time; a thread goes back to sleep only
    if its request is not done. *)
Lemma core_rewait t h sv W l w r b b' :
  core t h sv W l → W w = Some (r, b) →
  (b' = true → ∃ e, h !! r = Some e ∧ done_flag e = 0) →
  core t h sv (upd W w (Some (r, b'))) l.
Proof.
  intros [] Hw Hb. constructor; try done.
  - intros r0 e0 He. destruct (core_live0 r0 e0 He) as [Hok [Hl|(Hs&b0&Hw0&Hd)]];
      (split; [done|]); [by left|]. right. split; [done|]. unfold upd. case_decide; subst.
    + simplify_eq. exists b'. split; [done|]. destruct Hd as [Hd|(Hd&?&?&?)]; [by left|].
      right. split_and!; try done. destruct b'; [|done]. destruct Hb as (e&He'&?); [done|].
      simplify_eq.
    + by exists b0.
  - intros w0 r0 b0. unfold upd. case_decide; [|apply core_waits0].
    intros [= -> ->]. subst. by eapply core_waits0.
Qed.

(** *** Adding a request *)

(** Same request apart from the link *)
Definition same_request (x y : request_t) : Prop :=
  operation y = operation x ∧ synchronous y = synchronous x ∧ done_flag y = done_flag x ∧
  text y = text x ∧ owner y = owner x.

Lemma same_request_refl x : same_request x x.
Proof. by split_and!. Qed.

Lemma enqueue_core t h sv W l r e t1 :
  core t h sv W l → h !! r = None → next e = None →
  first t1 = first t → last t1 = last t →
  ∃ t' h', enqueue r t1 (<[r := e]> h) = Some (t', h') ∧
    chain next datum h' (first t') (l ++ [(r, datum e)]) ∧
    last t' = Some r ∧ running t' = running t1 ∧
    (h' !! r = Some e) ∧
    (∀ a, a ≠ r → match h !! a with
                   | Some x => ∃ y, h' !! a = Some y ∧ same_request x y
                   | None => h' !! a = None
                   end).
Proof.
  intros Hc Hr Hn Hf Hl. pose proof Hc as []. unfold enqueue. rewrite Hf, Hl.
  assert (r ∉ l.*1) as Hnin.
  { intros Hin. apply (core_in_heap _ _ _ _ _ _ Hc) in Hin as [? ?]. congruence. }
  rewrite core_last0. destruct l as [|[z dz] l _] using rev_ind.
  - cbn in core_chain0. rewrite core_chain0. eexists _, _. split; [reflexivity|]. cbn.
    split_and!; try done; [|by rewrite lookup_insert_eq|].
    + exists e. by rewrite lookup_insert_eq.
    + intros a Ha. rewrite lookup_insert_ne by done. case_match; [|done]. eauto using same_request_refl.
  - rewrite last_snoc. cbn.
    assert (z ∈ (l ++ [(z, dz)]).*1) as Hzin.
    { rewrite fmap_app. apply elem_of_app. right. by constructor. }
    assert (z ≠ r) as Hzr by (intros ->; by apply Hnin).
    destruct (core_in_heap _ _ _ _ _ z Hc Hzin) as [x Hx].
    destruct (first t) as [f|] eqn:Hft; [|by destruct l as [|[]]; destruct core_chain0].
    rewrite lookup_insert_ne, Hx by done. cbn. eexists _, _. split; [reflexivity|]. cbn.
    split_and!; try done.
    + rewrite <- app_assoc. cbn.
      change (lseg next datum (<[z := Req (Some r) (operation x) (synchronous x) (done_flag x)
        (prompt x) (text x) (owner x)]> (<[r := e]> h)) (Some f) (l ++ (z, dz) :: [(r, datum e)]) None).
      change ((z, dz) :: [(r, datum e)]) with ([(z, dz)] ++ [(r, datum e)]). rewrite app_assoc.
      apply lseg_app. exists (Some r). split.
      * eapply (lseg_snoc_set _ _ _ _ _ _ _ None); [|done..|].
        -- apply lseg_insert; [exact core_chain0|]. done.
        -- apply lseg_app in core_chain0 as (m&_&->&x'&Hx'&Hd&_). simplify_eq. done.
      * cbn. split; [done|]. exists e. rewrite lookup_insert_ne, lookup_insert_eq by done. done.
    + by rewrite lookup_insert_ne, lookup_insert_eq by done.
    + intros a Ha. destruct (decide (a = z)) as [->|].
      * rewrite Hx, lookup_insert_eq. eexists. by split.
      * rewrite !lookup_insert_ne by done. case_match; [|done]. eauto using same_request_refl.
Qed.

Definition woken_server (t : tty_server_t) (sv : spc) : spc :=
  match (if running t =? 0 then SLock else sv) with SBlocked => SLock | p => p end.

Lemma woken_server_cur t h sv W l :
  core t h sv W l → cur (woken_server t sv) = cur sv ∧ woken_server t sv ≠ SBlocked ∧
  woken_server t sv ≠ SNone ∧
  (∀ r, woken_server t sv = SRun r ↔ sv = SRun r) ∧ (woken_server t sv = SExit ↔ sv = SExit) ∧
  (∀ r, woken_server t sv = SSync r ↔ sv = SSync r).
Proof.
  intros []. unfold woken_server. destruct (running t =? 0) eqn:E; zbool.
  - rewrite core_running0 in E. subst. by split_and!.
  - rewrite core_running0 in E. by destruct sv.
Qed.

Lemma core_add t h sv W l r e :
  core t h sv W l → h !! r = None → next e = None → done_flag e = 0 → req_ok e →
  (synchronous e ≠ 0 → W (owner e) = None) →
  ∃ t' h', enqueue r (Tty (first t) (last t) 1) (<[r := e]> h) = Some (t', h') ∧
    core t' h' (woken_server t sv)
      (if synchronous e =? 0 then W else upd W (owner e) (Some (r, true))) (l ++ [(r, datum e)]) ∧
    h' !! r = Some e ∧
    (∀ a, a ≠ r → match h !! a with
                   | Some x => ∃ y, h' !! a = Some y ∧ same_request x y
                   | None => h' !! a = None
                   end).
Proof.
  intros Hc Hr Hn Hd Hok Hw.
  destruct (enqueue_core t h sv W l r e (Tty (first t) (last t) 1)) as (t'&h'&He&Hch&Hl&Hrun&Hr'&Ha);
    [done..|].
  destruct (woken_server_cur t h sv W l Hc) as (Wc&Wb&Wn&Wr&_&_).
  exists t', h'. split_and!; try done. pose proof Hc as [].
  assert (r ∉ l.*1) as Hnin.
  { intros Hin. apply (core_in_heap _ _ _ _ _ _ Hc) in Hin as [? ?]. congruence. }
  assert (∀ a, a ∈ (l ++ [(r, datum e)]).*1 ↔ a ∈ l.*1 ∨ a = r) as Hel.
  { intros a. rewrite fmap_app, elem_of_app. cbn. by rewrite list_elem_of_singleton. }
  constructor; rewrite ?Wc; try done.
  - rewrite fmap_app. apply NoDup_app. split_and!; [done| |by apply NoDup_singleton].
    intros a Hin ->%list_elem_of_singleton. done.
  - by rewrite last_snoc.
  - intros a Hcur. destruct (core_cur0 a Hcur) as [H1 [x Hx]]. rewrite Hel.
    assert (a ≠ r) by congruence. specialize (Ha a). rewrite Hx in Ha.
    destruct Ha as (y&Hy&_); [done|]. split; [naive_solver|by rewrite Hy].
  - intros a y Hy. destruct (decide (a = r)) as [->|Hne].
    + assert (y = e) as -> by congruence. split; [done|].
      destruct (synchronous e =? 0) eqn:Es; zbool.
      * left. split; [done|]. left. rewrite Hel. by right.
      * right. split; [done|]. exists true. unfold upd. rewrite decide_True by done. split; [done|].
        left. rewrite Hel. auto.
    + specialize (Ha a Hne). destruct (h !! a) as [x|] eqn:Hx; [|congruence].
      destruct Ha as (y'&Hy'&Ho&Hs&Hdn&Ht&How). assert (y' = y) as -> by congruence.
      destruct (core_live0 a x Hx) as [Hokx Hlx]. split.
      { unfold req_ok in *. by rewrite Ho, Hs, Ht, How. }
      unfold live in *. rewrite Wc, Wr, Hs, Hdn, How, Hel.
      destruct Hlx as [[? ?]|(Hsx&b&Hb&Hlx)]; [left; naive_solver|]. right. split; [done|].
      exists b. split; [|naive_solver]. destruct (synchronous e =? 0) eqn:Es; zbool; [done|].
      unfold upd. rewrite decide_False; [done|]. intros Eo. rewrite Eo, Hw in Hb; done.
  - intros w a b Hwa.
    assert (w = owner e ∧ a = r ∧ synchronous e ≠ 0 ∨ W w = Some (a, b)) as [(->&->&?)|Hw'].
    { destruct (synchronous e =? 0) eqn:Es; zbool; [by right|]. unfold upd in Hwa.
      case_decide; [left; naive_solver|by right]. }
    + by exists e.
    + destruct (core_waits0 _ _ _ Hw') as (x&Hx&?&?). assert (a ≠ r) by congruence.
      specialize (Ha a). rewrite Hx in Ha. destruct Ha as (y&?&?&?&?&?&?); [done|].
      exists y. split_and!; congruence.
  - rewrite Hrun. cbn. by split.
Qed.

(** *** The server's steps *)

Lemma core_take t h W r d l :
  core t h SLock W ((r, d) :: l) →
  first t = Some r ∧ ∃ e, h !! r = Some e ∧ d = datum e ∧
    core (Tty (next e) (match next e with None => None | Some _ => last t end) (running t))
         h (SRun r) W l.
Proof.
  intros []. destruct core_chain0 as (Hf&e&He&Hd&Hl). split; [done|].
  exists e. split_and!; [done..|]. apply NoDup_cons in core_nodup0 as [Hnin Hnd].
  constructor; try done; cbn.
  - pose proof (chain_head _ _ _ _ _ Hl) as Hn. rewrite Hn. destruct l as [|[a da] l]; [done|].
    cbn. rewrite core_last0. done.
  - intros r0 [= <-]. by rewrite He.
  - intros r0 e0 He0. destruct (core_live0 r0 e0 He0) as [Hok [[H1 H2]|(H1&b&Hb&H2)]]; (split; [done|]).
    + left. split; [done|]. destruct H2 as [[->|?]%elem_of_cons|?]; [by right|by left|done].
    + right. split; [done|]. exists b. split; [done|]. cbn in H2.
      destruct H2 as [[? [[->|?]%elem_of_cons|?]]|(?&Hni&?&?)]; [left; auto..|done|].
      right. rewrite not_elem_of_cons in Hni. destruct Hni. split_and!; try done. cbn. congruence.
  - split; [|done]. intros H. by apply core_running0 in H.
Qed.

(** Replacing the contents of the request in hand *)
Lemma core_update t h sv W l r e e' sv' :
  core t h sv W l → cur sv = Some r → cur sv' = Some r → h !! r = Some e →
  synchronous e ≠ 0 → synchronous e' = synchronous e → owner e' = owner e →
  operation e' = operation e → done_flag e' = done_flag e → is_Some (text e') →
  core t (<[r := e']> h) sv' W l.
Proof.
  intros Hc Hsv Hsv' He Hs Es Eo Eop Ed Et. destruct Hc.
  destruct (core_cur0 r Hsv) as [Hnin _].
  assert (sv ≠ SNone ∧ sv' ≠ SNone ∧ sv' ≠ SBlocked) as (?&?&?) by by destruct sv, sv'.
  constructor; try done.
  - by apply lseg_insert.
  - intros r0 Hr0. assert (r0 = r) as -> by congruence. split; [done|].
    by rewrite lookup_insert_eq.
  - intros r0 e0 He0. destruct (decide (r0 = r)) as [->|Hne].
    + rewrite lookup_insert_eq in He0. injection He0 as <-.
      destruct (core_live0 r e He) as [[? Hok] [[? _]|(_&b&Hb&Hl)]]; [done|].
      split; [split; [done|by rewrite Eo, Eop, Es]|]. right. rewrite Es, Eo, Ed. split; [done|].
      exists b. split; [done|]. left. destruct Hl as [[? _]|(_&_&?&_)]; [auto|congruence].
    + rewrite lookup_insert_ne in He0 by done.
      destruct (core_live0 r0 e0 He0) as [Hok Hl]. split; [done|]. unfold live in *.
      rewrite Hsv in Hl. rewrite Hsv'. destruct Hl as [[? [?| ->]]|?]; [left; auto| |by right].
      cbn in Hsv. congruence.
  - intros w r0 b Hw. destruct (core_waits0 w r0 b Hw) as (x&Hx&?&?).
    destruct (decide (r0 = r)) as [->|Hne].
    + exists e'. rewrite lookup_insert_eq. split_and!; congruence.
    + exists x. by rewrite lookup_insert_ne.
  - split; [|done]. by intros ?%core_running0.
Qed.

(** free (request) by the server *)
Lemma core_free t h W l r e sv' :
  core t h (SRun r) W l → h !! r = Some e → synchronous e = 0 →
  cur sv' = None → sv' ≠ SNone → sv' ≠ SBlocked → core t (delete r h) sv' W l.
Proof.
  intros [] He Hs Hc Hn Hb. destruct (core_cur0 r eq_refl) as [Hnin _]. constructor; try done.
  - by apply lseg_delete.
  - intros r0. by rewrite Hc.
  - intros r0 e0 [Hne He0]%lookup_delete_Some. destruct (core_live0 r0 e0 He0) as [Hok Hl].
    split; [done|]. unfold live in *. rewrite Hc. cbn in Hl.
    destruct Hl as [[? [?|?]]|(?&b&?&[[? [?|?]]|(?&?&?&?)])]; try congruence; [left; auto| |].
    + right. split; [done|]. exists b. auto.
    + right. split; [done|]. exists b. split; [done|]. by right.
  - intros w r0 b Hw. destruct (core_waits0 w r0 b Hw) as (x&Hx&?&?). exists x.
    rewrite lookup_delete_ne; [done|]. intros ->. congruence.
  - split; [|done]. by intros ?%core_running0.
Qed.

(** done_flag set and the waiter signalled *)
Lemma core_sync t h W l r e e' sv' :
  core t h (SSync r) W l → h !! r = Some e → synchronous e ≠ 0 →
  synchronous e' = synchronous e → owner e' = owner e → operation e' = operation e →
  text e' = text e → done_flag e' ≠ 0 → cur sv' = None → sv' ≠ SNone → sv' ≠ SBlocked →
  core t (<[r := e']> h) sv' (upd W (owner e) (Some (r, false))) l.
Proof.
  intros [] He Hs Es Eo Eop Et Ed Hc Hn Hb. destruct (core_cur0 r eq_refl) as [Hnin _].
  destruct (core_live0 r e He) as [[Htx Hop] [[? _]|(_&b&HW&_)]]; [done|].
  constructor; try done.
  - by apply lseg_insert.
  - intros r0. by rewrite Hc.
  - intros r0 e0 He0. destruct (decide (r0 = r)) as [->|Hne].
    + rewrite lookup_insert_eq in He0. injection He0 as <-. split.
      * unfold req_ok. by rewrite Eo, Eop, Es, Et.
      * right. rewrite Es, Eo. split; [done|]. exists false. unfold upd. rewrite decide_True by done.
        split; [done|]. right. split_and!; try done. by rewrite Hc.
    + rewrite lookup_insert_ne in He0 by done. destruct (core_live0 r0 e0 He0) as [Hok Hl].
      split; [done|]. unfold live in *. rewrite Hc. cbn in Hl.
      destruct Hl as [[? [?|?]]|(?&b0&Hb0&Hl)]; [left; auto|done|].
      right. split; [done|]. exists b0. unfold upd. rewrite decide_False by congruence.
      split; [done|]. destruct Hl as [[? [?|?]]|(?&?&?&?)]; [left; auto|congruence|by right].
  - intros w r0 b0. unfold upd. case_decide; [|].
    + intros [= <- <-]. subst. exists e'. rewrite lookup_insert_eq. split_and!; congruence.
    + intros Hw. destruct (core_waits0 w r0 b0 Hw) as (x&Hx&?&?). exists x.
      rewrite lookup_insert_ne; [done|]. intros ->. congruence.
  - split; [|done]. by intros ?%core_running0.
Qed.

(** The waiter finds its request done and frees it. *)
Lemma core_finish t h sv W l w r b e :
  core t h sv W l → W w = Some (r, b) → h !! r = Some e → done_flag e ≠ 0 →
  core t (delete r h) sv (upd W w None) l.
Proof.
  intros [] Hw He Hd. destruct (core_live0 r e He) as [_ Hl].
  destruct (core_waits0 w r b Hw) as (?&?&?&?). simplify_eq.
  destruct Hl as [[? _]|(_&b0&Hb0&[[? _]|(_&Hnin&Hcur&_)])]; [done..|].
  constructor; try done.
  - by apply lseg_delete.
  - intros r0 Hr0. destruct (core_cur0 r0 Hr0). rewrite lookup_delete_ne by congruence. done.
  - intros r0 e0 [Hne He0]%lookup_delete_Some. destruct (core_live0 r0 e0 He0) as [Hok Hl].
    split; [done|]. destruct Hl as [?|(?&b1&Hb1&?)]; [by left|]. right. split; [done|].
    exists b1. unfold upd. rewrite decide_False by congruence. done.
  - intros w0 r0 b1. unfold upd. case_decide; [done|]. intros Hw0.
    destruct (core_waits0 w0 r0 b1 Hw0) as (x&?&?&?). exists x.
    rewrite lookup_delete_ne by congruence. done.
Qed.

End core.

(** ** Threads, end of the run, and what was read and written *)

Definition is_exit (p : cpc) : bool := match p with CExit => true | _ => false end.
Definition quitting (m : mpc) : bool :=
  match m with MQuit | MQuitBlocked _ | MQuitWoken _ | MExit => true | _ => false end.

(** Clients 0 to [c - 1] have been created, and client_threads is four less those
    that have left. *)
Definition flow (m : mpc) (cs : gmap nat cpc) (k : Z) : Prop :=
  ∃ c, 0 ≤ c ≤ CLIENT_THREADS ∧ Z.of_nat (size cs) = c ∧
    (∀ n, is_Some (cs !! n) ↔ Z.of_nat n < c) ∧ (∀ x, m = MCreate x → x = c) ∧
    k = CLIENT_THREADS - count is_exit cs ∧ (m = MBlocked → 0 < k) ∧ (quitting m = true → k ≤ 0).

Lemma flow_all_exit m cs k n p : flow m cs k → k ≤ 0 → cs !! n = Some p → p = CExit.
Proof.
  intros (c&Hc&Hs&_&_&Hk&_) Hk0 Hn. pose proof (count_negb is_exit cs).
  pose proof (count_nonneg (λ p, negb (is_exit p)) cs).
  assert (count (λ p, negb (is_exit p)) cs = 0) as Hz by lia.
  apply (count_zero _ _ _ _ Hz) in Hn. by destruct p.
Qed.

Lemma flow_client m cs k n p q :
  flow m cs k → cs !! n = Some p → is_exit q = is_exit p → flow m (<[n := q]> cs) k.
Proof.
  intros (c&Hc&Hs&Hd&Hm&Hk&Hr) Hn Hq. exists c.
  rewrite map_size_insert_Some by eauto. rewrite (count_insert _ _ _ _ _ Hn), Hq.
  split_and!; try done; try lia; [|apply Hr..].
  intros n'. rewrite <- Hd. destruct (decide (n' = n)) as [->|].
  - rewrite lookup_insert_eq, Hn. by split.
  - by rewrite lookup_insert_ne.
Qed.

Lemma flow_main m m' cs k :
  flow m cs k → (∀ x, m' ≠ MCreate x) → (m' = MBlocked → 0 < k) → (quitting m' = true → k ≤ 0) →
  flow m' cs k.
Proof.
  intros (c&Hc&Hs&Hd&Hm&Hk&Hr) H1 H2 H3. exists c. split_and!; try done; try lia.
  intros x Hx. by destruct (H1 x).
Qed.

Lemma flow_update m cs k g :
  flow m cs k → (∀ p, is_exit (g p) = is_exit p) → flow m (update_all (λ _, g) cs) k.
Proof.
  intros (c&Hc&Hs&Hd&Hm&Hk&Hr) Hg. exists c. rewrite size_update_all, count_update_all by auto.
  split_and!; try done; try lia; [|apply Hr..]. intros n. rewrite lookup_update_all, fmap_is_Some. apply Hd.
Qed.

Lemma flow_create cs k c :
  flow (MCreate c) cs k → c < k → flow (MCreate (c + 1)) (<[Z.to_nat c := CRead]> cs) k.
Proof.
  intros (c'&Hc&Hs&Hd&Hm&Hk&_) Hck. assert (c' = c) as -> by (symmetry; by apply Hm).
  assert (cs !! Z.to_nat c = None) as Hn.
  { destruct (cs !! Z.to_nat c) eqn:E; [|done]. assert (is_Some (cs !! Z.to_nat c)) as H by eauto.
    apply Hd in H. lia. }
  pose proof (count_nonneg is_exit cs).
  exists (c + 1). rewrite map_size_insert_None, count_insert_new by done. cbn.
  split_and!; try done; try lia; [|naive_solver].
  intros n. destruct (decide (n = Z.to_nat c)) as [->|].
  - rewrite lookup_insert_eq. split; [lia|by eauto].
  - rewrite lookup_insert_ne, Hd by done. lia.
Qed.

Lemma flow_leave m cs k n p :
  flow m cs k → cs !! n = Some p → is_exit p = false → quitting m = false →
  flow (if k - 1 <=? 0 then match m with MBlocked => MWoken | m => m end else m)
       (<[n := CExit]> cs) (k - 1).
Proof.
  intros (c&Hc&Hs&Hd&Hm&Hk&Hb&Hq) Hn Hp Hqm. exists c.
  rewrite map_size_insert_Some by eauto. rewrite (count_insert _ _ _ _ _ Hn), Hp. cbn.
  split_and!; try done; try lia.
  - intros n'. rewrite <- Hd. destruct (decide (n' = n)) as [->|].
    + rewrite lookup_insert_eq, Hn. by split.
    + by rewrite lookup_insert_ne.
  - intros x. destruct (_ <=? 0), m; naive_solver.
  - destruct (_ <=? 0) eqn:E; zbool; [by destruct m|]. lia.
  - destruct (_ <=? 0), m; naive_solver.
Qed.

(** The quit request is the last one. *)
Record quit_ok (sv : spc) (m : mpc) (h : heap) (wm : option (nat * bool))
    (l : list (nat * (Z * option (list Z)))) : Prop := {
  quit_exit : sv = SExit → l = [] ∧ (m = MExit ∨ is_Some wm);
  quit_last : ∀ r b, wm = Some (r, b) → l = [] ∨ ∃ l0 d, l = l0 ++ [(r, d)];
  quit_done : ∀ r b e, wm = Some (r, b) → h !! r = Some e → done_flag e ≠ 0 → sv = SExit;
  quit_end : m = MExit → sv = SExit
}.

(** Strings read for thread [w], and strings its reads returned *)
Definition texts (w : who) (l : list (who * list Z)) : list (list Z) :=
  (filter (λ x, x.1 = w) l).*2.

(** What the server has read for client [n] and its tty_server_request has not yet
    returned *)
Definition pend (h : heap) (sv : spc) (o : option (nat * bool)) : list (list Z) :=
  match o with
  | Some (r, _) =>
      match h !! r with
      | Some e =>
          if negb (done_flag e =? 0) || match sv with SSync r' => bool_decide (r' = r) | _ => false end
          then option_list (text e) else []
      | None => []
      end
  | None => []
  end.

(** The texts of write requests *)
Definition written (d : Z * option (list Z)) : option (list Z) :=
  if d.1 =? REQ_WRITE then d.2 else None.
Definition pend_out (h : heap) (sv : spc) : list (list Z) :=
  match sv with
  | SRun r => match h !! r with Some e => option_list (written (datum e)) | None => [] end
  | _ => []
  end.

Record inv (s : sys) (l : list (nat * (Z * option (list Z)))) : Prop := {
  inv_core : core (tty s) (hp s) (server s) (waiting s) l;
  inv_hist : requested s = handled s ++ l.*2;
  inv_flow : flow (main s) (clients s) (client_threads s);
  inv_quit : quit_ok (server s) (main s) (hp s) (waiting s Main) l;
  inv_replies : ∀ n, texts (Client n) (replies s) =
    texts (Client n) (returned s) ++ pend (hp s) (server s) (waiting s (Client n));
  inv_out : omap written (handled s) = output s ++ pend_out (hp s) (server s)
}.

(** ** Preservation *)

Lemma pend_same h h' sv sv' o :
  (∀ r b x, o = Some (r, b) → h !! r = Some x → ∃ y, h' !! r = Some y ∧ same_request x y) →
  (∀ r b, o = Some (r, b) → is_Some (h !! r)) → (∀ r, sv' = SSync r ↔ sv = SSync r) →
  pend h' sv' o = pend h sv o.
Proof.
  intros Hh Hl Hsv. unfold pend. destruct o as [[r b]|]; [|done].
  destruct (Hl r b eq_refl) as [x Hx]. destruct (Hh r b x eq_refl Hx) as (y&Hy&_&_&Hd&Ht&_).
  rewrite Hx, Hy, Hd, Ht.
  assert ((match sv' with SSync r' => bool_decide (r' = r) | _ => false end) =
          (match sv with SSync r' => bool_decide (r' = r) | _ => false end)) as ->; [|done].
  destruct sv as [| | | |r1|], sv' as [| | | |r2|]; try done;
    try (specialize (Hsv r2); naive_solver); try (specialize (Hsv r1); naive_solver).
Qed.

Lemma pend_out_same h h' sv sv' :
  (∀ r x, sv = SRun r → h !! r = Some x → ∃ y, h' !! r = Some y ∧ same_request x y) →
  (∀ r, sv = SRun r → is_Some (h !! r)) → (∀ r, sv' = SRun r ↔ sv = SRun r) →
  pend_out h' sv' = pend_out h sv.
Proof.
  intros Hh Hl Hsv. unfold pend_out. destruct sv as [| | |r| |], sv' as [| | |r'| |]; try done;
    try (specialize (Hsv r); naive_solver); try (specialize (Hsv r'); naive_solver).
  assert (r' = r) as -> by (specialize (Hsv r); naive_solver).
  destruct (Hl r eq_refl) as [x Hx]. destruct (Hh r x eq_refl Hx) as (y&Hy&Ho&_&_&Ht&_).
  rewrite Hx, Hy. unfold datum. by rewrite Ho, Ht.
Qed.

(** tty_server_request up to its wait: the queue grows by one request, the rest
    stays. *)
Lemma request_spec s l w op sync pr str r s1 :
  inv s l → tty_server_request w op sync pr str r s = Some s1 →
  (sync ≠ 0 → waiting s w = None) →
  match w with
  | Main => op = REQ_QUIT ∧ sync ≠ 0
  | Client _ => op = REQ_READ ∧ sync ≠ 0 ∨
                op = REQ_WRITE ∧ sync = 0 ∧ ∃ x, str = Some x ∧ zlen x < 128
  end →
  ∃ d, core (tty s1) (hp s1) (server s1)
         (if sync =? 0 then waiting s else upd (waiting s) w (Some (r, true))) (l ++ [(r, d)]) ∧
    requested s1 = handled s1 ++ (l ++ [(r, d)]).*2 ∧
    (∃ e, hp s1 !! r = Some e ∧ done_flag e = 0) ∧
    server s1 = woken_server (tty s) (server s) ∧
    (∀ a, a ≠ r → match hp s !! a with
                   | Some x => ∃ y, hp s1 !! a = Some y ∧ same_request x y
                   | None => hp s1 !! a = None
                   end) ∧ hp s !! r = None ∧
    clients s1 = clients s ∧ main s1 = main s ∧ client_threads s1 = client_threads s ∧
    handled s1 = handled s ∧ output s1 = output s ∧ replies s1 = replies s ∧
    returned s1 = returned s.
Proof.
  intros Hinv. unfold tty_server_request. case_decide as Hr; [|done].
  set (tx := match str with Some x => _ | None => _ end).
  set (e := Req None op sync 0 _ tx w). intros Hreq Hw Hop.
  destruct (core_add (tty s) (hp s) (server s) (waiting s) l r e) as (t'&h'&Henq&Hc&He&Ha);
    try done; [by apply Hinv| |].
  { unfold req_ok, tx. cbn. destruct w.
    - destruct Hop as [[-> ?]|(->&->&x&->&Hx)]; [split; [destruct str; by eexists|by left]|].
      split; [|by right]. change (is_Some (strncpy 128 x)). unfold strncpy.
      rewrite (proj2 (Z.ltb_lt _ _)) by done. eauto.
    - destruct Hop as [-> ?]. split; [destruct str; by eexists|done]. }
  rewrite Henq in Hreq. cbn in Hreq. injection Hreq as <-. exists (datum e). cbn.
  match goal with |- context [core t' h' ?sv _ _] =>
    assert (sv = woken_server (tty s) (server s)) as -> end.
  { unfold woken_server. by destruct (if running _ =? 0 then _ else _). }
  split_and!; try done.
  - rewrite (inv_hist _ _ Hinv), fmap_app, app_assoc. done.
  - by exists e.
Qed.

Lemma waiting_client s s' n p w :
  clients s' = <[n := p]> (clients s) → main s' = main s →
  waiting s' w = upd (waiting s) (Client n) (wait_c p) w.
Proof.
  intros Hc Hm. unfold upd. case_decide as E.
  - subst. cbn. by rewrite Hc, lookup_insert_eq.
  - destruct w as [n'|]; cbn; [|by rewrite Hm]. rewrite Hc, lookup_insert_ne by congruence. done.
Qed.

Lemma waiting_main s s' w :
  clients s' = clients s → waiting s' w = upd (waiting s) Main (wait_m (main s')) w.
Proof. intros Hc. unfold upd. case_decide; [by subst|]. destruct w; [|done]. cbn. by rewrite Hc. Qed.

Lemma upd_same (W : who → option (nat * bool)) w o w' : W w = o → upd W w o w' = W w'.
Proof. intros <-. unfold upd. case_decide; by subst. Qed.

Lemma not_quitting s l n p :
  inv s l → clients s !! n = Some p → is_exit p = false →
  quitting (main s) = false ∧ waiting s Main = None ∧ server s ≠ SExit.
Proof.
  intros [] Hn Hp.
  assert (quitting (main s) = false) as Hq.
  { destruct (quitting (main s)) eqn:E; [|done]. pose proof inv_flow0 as (c&_&_&_&_&_&_&Hk).
    specialize (Hk E). rewrite (flow_all_exit _ _ _ n p inv_flow0 Hk Hn) in Hp. done. }
  assert (waiting s Main = None) as Hw by (cbn; by destruct (main s)).
  split_and!; try done. intros E. destruct (quit_exit _ _ _ _ _ inv_quit0 E) as [_ [H|H]].
  - by rewrite H in Hq.
  - rewrite Hw in H. by destruct H.
Qed.

Lemma quit_ok_running sv m h l : m ≠ MExit → sv ≠ SExit → quit_ok sv m h None l.
Proof. intros Hm Hs. by split. Qed.

Lemma texts_app w l1 l2 : texts w (l1 ++ l2) = texts w l1 ++ texts w l2.
Proof. unfold texts. by rewrite filter_app, fmap_app. Qed.

(** A client queues a request. *)
Lemma inv_client_request s l n p p' op sync pr str r s1 :
  inv s l → clients s !! n = Some p → is_exit p = false → is_exit p' = false → wait_c p = None →
  tty_server_request (Client n) op sync pr str r s = Some s1 →
  (op = REQ_READ ∧ sync ≠ 0 ∨ op = REQ_WRITE ∧ sync = 0 ∧ ∃ x, str = Some x ∧ zlen x < 128) →
  wait_c p' = (if sync =? 0 then None else Some (r, true)) →
  ∃ d, inv (with_client n p' s1) (l ++ [(r, d)]).
Proof.
  intros Hinv Hn Hp Hp' Hwp Hreq Hop Hw'.
  destruct (not_quitting s l n p Hinv Hn Hp) as (Hq&Hwm&Hsv).
  assert (waiting s (Client n) = None) as Hwn by (cbn; by rewrite Hn).
  destruct (request_spec s l (Client n) op sync pr str r s1) as
    (d&Hc&Hh&(e&He&Hd)&Hs1&Ha&Hr&Ecl&Em&Ek&Eh&Eo&Erp&Ert); try done.
  exists d. pose proof (inv_core _ _ Hinv) as Hcore.
  destruct (woken_server_cur _ _ _ _ _ Hcore) as (_&_&_&Wr&We&Ws).
  assert (∀ w, waiting (with_client n p' s1) w =
    (if sync =? 0 then waiting s else upd (waiting s) (Client n) (Some (r, true))) w) as HW.
  { intros w. rewrite (waiting_client s _ n p') by (cbn; congruence). rewrite Hw'.
    destruct (sync =? 0); [by apply upd_same|done]. }
  constructor; cbn [tty hp server clients main client_threads requested handled output replies
    returned with_client].
  - eapply core_ext; [|exact Hc]. apply HW.
  - done.
  - rewrite Ecl, Em, Ek. apply flow_client with p; [by apply Hinv|done|congruence].
  - assert (waiting (with_client n p' s1) Main = None) as -> by (cbn; by rewrite Em).
    apply quit_ok_running; [rewrite Em; by destruct (main s)|rewrite Hs1, We; done].
  - intros n'. rewrite Erp, Ert, (inv_replies _ _ Hinv). f_equal. symmetry.
    assert (pend (hp s1) (server s1) (waiting s (Client n')) =
            pend (hp s) (server s) (waiting s (Client n'))) as Hp1.
    { apply pend_same; [| |by rewrite Hs1].
      - intros r0 b x _ Hx. specialize (Ha r0). rewrite Hx in Ha. apply Ha. congruence.
      - intros r0 b Hr0. destruct (core_waits _ _ _ _ _ Hcore _ _ _ Hr0) as (x&Hx&_). eauto. }
    rewrite HW. destruct (sync =? 0) eqn:Es; [done|]. unfold upd. case_decide as E; [|done].
    injection E as ->. rewrite Hwn. unfold pend. rewrite He, Hd, Hs1. cbn.
    destruct (woken_server _ _) as [| | | |r1|] eqn:E1; try done.
    pose proof (proj1 (Ws r1) eq_refl) as E2.
    destruct (core_cur _ _ _ _ _ Hcore r1) as [_ [x Hx]]; [by rewrite E2|].
    rewrite bool_decide_false by congruence. done.
  - rewrite Eh, Eo, (inv_out _ _ Hinv). f_equal. symmetry. apply pend_out_same.
    + intros r0 x _ Hx. specialize (Ha r0). rewrite Hx in Ha. apply Ha. congruence.
    + intros r0 Hr0. apply (core_cur _ _ _ _ _ Hcore). by rewrite Hr0.
    + by rewrite Hs1.
Qed.

(** Main queues the request to quit. *)
Lemma inv_main_request s l r s1 :
  inv s l → main s = MQuit →
  tty_server_request Main REQ_QUIT 1 None None r s = Some s1 →
  ∃ d, inv (with_main (MQuitBlocked r) s1) (l ++ [(r, d)]).
Proof.
  intros Hinv Hm Hreq.
  assert (waiting s Main = None) as Hwm by (cbn; by rewrite Hm).
  assert (server s ≠ SExit) as Hsv.
  { intros E. destruct (quit_exit _ _ _ _ _ (inv_quit _ _ Hinv) E) as [_ [H|[? H]]]; congruence. }
  destruct (request_spec s l Main REQ_QUIT 1 None None r s1) as
    (d&Hc&Hh&(e&He&Hd)&Hs1&Ha&Hr&Ecl&Em&Ek&Eh&Eo&Erp&Ert); try done.
  exists d. pose proof (inv_core _ _ Hinv) as Hcore.
  destruct (woken_server_cur _ _ _ _ _ Hcore) as (_&_&_&Wr&We&Ws).
  constructor; cbn [tty hp server clients main client_threads requested handled output replies
    returned with_main].
  - eapply core_ext; [|exact Hc]. intros w. by apply waiting_main.
  - done.
  - rewrite Ecl, Ek. apply flow_main with MQuit; try done; [rewrite <- Hm; apply Hinv|].
    intros _. destruct (inv_flow _ _ Hinv) as (c&_&_&_&_&_&_&Hk). apply Hk. by rewrite Hm.
  - cbn. split; try done.
    + rewrite Hs1, We. done.
    + intros r0 b [= <- _]. right. by eexists _, _.
    + intros r0 b e0 [= <- _] He0. congruence.
  - intros n'. rewrite Erp, Ert, (inv_replies _ _ Hinv). f_equal. symmetry. cbn. rewrite Ecl.
    apply pend_same; [| |by rewrite Hs1].
    + intros r0 b x _ Hx. specialize (Ha r0). rewrite Hx in Ha. apply Ha. congruence.
    + intros r0 b Hr0. destruct (core_waits _ _ _ _ _ Hcore (Client n') r0 b) as (x&Hx&_); [done|]. eauto.
  - rewrite Eh, Eo, (inv_out _ _ Hinv). f_equal. symmetry. apply pend_out_same.
    + intros r0 x _ Hx. specialize (Ha r0). rewrite Hx in Ha. apply Ha. congruence.
    + intros r0 Hr0. apply (core_cur _ _ _ _ _ Hcore). by rewrite Hr0.
    + by rewrite Hs1.
Qed.

Lemma core_idle t h W l sv sv' :
  core t h sv W l → cur sv = None → cur sv' = None → sv ≠ SNone → sv' ≠ SNone →
  (sv' = SBlocked → l = []) → core t h sv' W l.
Proof.
  intros [] H1 H2 H3 H4 H5. constructor; try done.
  - intros r. by rewrite H2.
  - intros r e He. destruct (core_live0 r e He) as [Hok Hl]. split; [done|]. unfold live in *.
    rewrite H1 in Hl. rewrite H2. destruct Hl as [[? [?| ->]]|?]; [left; auto|done|by right].
  - split; [|done]. by intros ?%core_running0.
Qed.

Lemma pend_sv h sv sv' o :
  (∀ r, sv ≠ SSync r) → (∀ r, sv' ≠ SSync r) → pend h sv' o = pend h sv o.
Proof. intros H1 H2. unfold pend. destruct sv, sv'; naive_solver. Qed.

Lemma quit_last_tail (x : nat * (Z * option (list Z))) l r :
  (x :: l = [] ∨ ∃ l0 d, x :: l = l0 ++ [(r, d)]) → l = [] ∨ ∃ l0 d, l = l0 ++ [(r, d)].
Proof.
  intros [?|(l0&d&E)]; [done|]. destruct l0 as [|y l0]; [left; by injection E|].
  right. injection E as _ ->. eauto.
Qed.

Lemma quit_ok_busy sv sv' m h wm l l' :
  quit_ok sv m h wm l → sv ≠ SExit → sv' ≠ SExit →
  (∀ r b, wm = Some (r, b) → l' = [] ∨ ∃ l0 d, l' = l0 ++ [(r, d)]) → quit_ok sv' m h wm l'.
Proof.
  intros [] H1 H2 H3. constructor; try done.
  - intros r b e Hw He Hd. by destruct H1; eapply quit_done0.
  - intros H. by specialize (quit_end0 H).
Qed.

Lemma inv_server_take s l s' :
  inv s l → server s = SLock → server_take s = Some s' → ∃ l', inv s' l'.
Proof.
  intros Hinv Hs. unfold server_take. pose proof (inv_core _ _ Hinv) as Hcore. rewrite Hs in Hcore.
  destruct l as [|[r d] l].
  - pose proof (core_chain _ _ _ _ _ Hcore) as Hch. cbn in Hch. rewrite Hch. intros [= <-].
    exists []. destruct Hinv. rewrite Hs in *. constructor; try done; cbn.
    + by eapply core_idle.
    + eapply quit_ok_busy; try done. apply inv_quit0.
  - destruct (core_take _ _ _ _ _ _ Hcore) as (Hf&e&He&->&Hc'). rewrite Hf, He. cbn.
    intros [= <-]. exists l. destruct Hinv. rewrite Hs in *. constructor; try done; cbn.
    + rewrite inv_hist0. cbn. by rewrite <- app_assoc.
    + eapply quit_ok_busy; try done. intros r0 b H. eapply quit_last_tail.
      by eapply (quit_last _ _ _ _ _ inv_quit0).
    + rewrite omap_app, inv_out0, He. cbn. rewrite app_nil_r.
      change (operation e, text e) with (datum e). by destruct (written (datum e)).
Qed.

(** The request in hand is not done; if it is synchronous its owner waits for it. *)
Lemma in_hand s l r e :
  inv s l → cur (server s) = Some r → hp s !! r = Some e →
  req_ok e ∧ (synchronous e ≠ 0 → done_flag e = 0 ∧ ∃ b, waiting s (owner e) = Some (r, b)) ∧
  (∀ w b, waiting s w = Some (r, b) → w = owner e ∧ synchronous e ≠ 0).
Proof.
  intros Hinv Hc He. pose proof (inv_core _ _ Hinv) as Hcore.
  destruct (core_live _ _ _ _ _ Hcore r e He) as [Hok Hl]. split_and!; [done| |].
  - intros Hs. destruct Hl as [[? _]|(_&b&Hb&[[? _]|(_&_&?&_)])]; [done|eauto|done].
  - intros w b Hw. destruct (core_waits _ _ _ _ _ Hcore _ _ _ Hw) as (x&Hx&?&?). by simplify_eq.
Qed.

Lemma quit_ok_heap sv m h h' wm l :
  quit_ok sv m h wm l →
  (∀ r b e', wm = Some (r, b) → h' !! r = Some e' →
     done_flag e' = 0 ∨ ∃ e, h !! r = Some e ∧ done_flag e' = done_flag e) →
  quit_ok sv m h' wm l.
Proof.
  intros [] Hh. constructor; try done. intros r b e' Hw He Hd.
  destruct (Hh r b e' Hw He) as [?|(e&?&E)]; [done|]. rewrite E in Hd. by eapply quit_done0.
Qed.

Lemma pend_insert h r e' sv o :
  (∀ b, o ≠ Some (r, b)) → pend (<[r := e']> h) sv o = pend h sv o.
Proof.
  intros Ho. unfold pend. destruct o as [[r0 b]|]; [|done]. rewrite lookup_insert_ne; [done|]. naive_solver.
Qed.
Lemma pend_delete h r sv o : (∀ b, o ≠ Some (r, b)) → pend (delete r h) sv o = pend h sv o.
Proof.
  intros Ho. unfold pend. destruct o as [[r0 b]|]; [|done]. rewrite lookup_delete_ne; [done|]. naive_solver.
Qed.
(** Who waits for another request does not depend on the server's hand. *)
Lemma pend_other h r sv sv' o :
  (∀ b, o ≠ Some (r, b)) → (∀ r', sv = SSync r' → r' = r) → (∀ r', sv' = SSync r' → r' = r) →
  pend h sv' o = pend h sv o.
Proof.
  intros Ho H1 H2. unfold pend. destruct o as [[r0 b]|]; [|done].
  assert (r0 ≠ r) as Hne by naive_solver. destruct (h !! r0) as [e|]; [|done].
  assert (∀ sv, (∀ r', sv = SSync r' → r' = r) →
    match sv with SSync r' => bool_decide (r' = r0) | _ => false end = false) as H.
  { intros v Hv. destruct v; try done. apply bool_decide_false. rewrite (Hv _ eq_refl). done. }
  by rewrite !H.
Qed.

Lemma texts_snoc w w' x l :
  texts w (l ++ [(w', x)]) = texts w l ++ (if decide (w' = w) then [x] else []).
Proof. rewrite texts_app. f_equal. unfold texts. rewrite filter_cons, filter_nil. by repeat case_decide. Qed.

(** fgets into the request *)
Lemma inv_server_read s l r e line :
  inv s l → server s = SRun r → hp s !! r = Some e → operation e = REQ_READ →
  inv (Sys (tty s)
           (<[r := Req (next e) (operation e) (synchronous e) (done_flag e) (prompt e) (Some line)
                       (owner e)]> (hp s))
           (SSync r) (clients s) (main s) (client_threads s) (undefined s) (requested s)
           (handled s) (output s) (replies s ++ [(owner e, line)]) (returned s)) l ∧ synchronous e ≠ 0.
Proof.
  intros Hinv Hs He Hop. set (e' := Req _ _ _ _ _ _ _).
  destruct (in_hand s l r e Hinv) as ([_ Hok]&Hd&Hw); [by rewrite Hs|done|].
  destruct (owner e) as [n|] eqn:Eo; [|destruct Hok as [Hq _]; by rewrite Hop in Hq].
  assert (synchronous e ≠ 0) as Hsy.
  { destruct Hok as [[_ ?]|[? _]]; [done|]. rewrite Hop in *. done. }
  destruct (Hd Hsy) as (Hdn&b&Hb). split; [|done]. destruct Hinv. rewrite Hs in *.
  constructor; cbn [tty hp server clients main client_threads requested handled output replies
    returned]; try done.
  - eapply core_update; try done.
  - eapply (quit_ok_busy (SRun r)); [|done..|].
    + eapply quit_ok_heap; [exact inv_quit0|]. intros r0 b0 e0 Hr0 He0.
      destruct (decide (r0 = r)) as [->|].
      * rewrite lookup_insert_eq in He0. injection He0 as <-. left. done.
      * rewrite lookup_insert_ne in He0 by done. eauto.
    + apply inv_quit0.
  - intros n'. rewrite texts_snoc, inv_replies0, <- app_assoc. f_equal.
    change (waiting (Sys _ _ _ _ _ _ _ _ _ _ _ _) (Client n')) with (waiting s (Client n')).
    case_decide as E.
    + injection E as <-. rewrite Hb. unfold pend. rewrite He, lookup_insert_eq, Hdn. cbn.
      by rewrite Hdn, bool_decide_true.
    + assert (∀ b, waiting s (Client n') ≠ Some (r, b)) as Hne.
      { intros b0 H0. destruct (Hw _ _ H0). congruence. }
      rewrite app_nil_r, pend_insert by done. symmetry. by apply (pend_other _ r); [|naive_solver..].
  - rewrite inv_out0. cbn. rewrite He. unfold written. cbn. by rewrite Hop.
Qed.

(** puts, and free *)
Lemma inv_server_write s l r e line :
  inv s l → server s = SRun r → hp s !! r = Some e → operation e = REQ_WRITE → text e = Some line →
  inv (Sys (tty s) (delete r (hp s)) SLock (clients s) (main s) (client_threads s) (undefined s)
           (requested s) (handled s) (output s ++ [line]) (replies s) (returned s)) l ∧
  synchronous e = 0.
Proof.
  intros Hinv Hs He Hop Ht.
  destruct (in_hand s l r e Hinv) as ([_ Hok]&Hd&Hw); [by rewrite Hs|done|].
  assert (synchronous e = 0) as Hsy.
  { rewrite Hop in Hok. destruct (owner e); [|by destruct Hok]. by destruct Hok as [[? _]|[_ ?]]. }
  split; [|done]. destruct Hinv. rewrite Hs in *.
  constructor; cbn [tty hp server clients main client_threads requested handled output replies
    returned]; try done.
  - by eapply core_free.
  - eapply (quit_ok_busy (SRun r)); [|done..|apply inv_quit0].
    eapply quit_ok_heap; [exact inv_quit0|]. intros r0 b0 e0 Hr0 [_ He0]%lookup_delete_Some. eauto.
  - intros n'. rewrite inv_replies0. f_equal.
    change (waiting (Sys _ _ _ _ _ _ _ _ _ _ _ _) (Client n')) with (waiting s (Client n')).
    rewrite pend_delete; [by apply pend_sv|]. intros b0 H0. by destruct (Hw _ _ H0).
  - rewrite inv_out0. cbn. rewrite He. unfold written. cbn. rewrite Hop, Ht, app_nil_r. done.
Qed.

(** The request to quit is only answered. *)
Lemma inv_server_quit s l r e :
  inv s l → server s = SRun r → hp s !! r = Some e →
  operation e ≠ REQ_READ → operation e ≠ REQ_WRITE → inv (with_server (SSync r) s) l ∧ synchronous e ≠ 0.
Proof.
  intros Hinv Hs He H1 H2.
  destruct (in_hand s l r e Hinv) as ([Htx Hok]&Hd&Hw); [by rewrite Hs|done|].
  destruct (owner e) as [n|] eqn:Eo; [naive_solver|]. destruct Hok as [Hop Hsy]. split; [|done].
  destruct Hinv. rewrite Hs in *.
  constructor; cbn [tty hp server clients main client_threads requested handled output replies
    returned with_server]; try done.
  - rewrite <- (insert_id (hp s) r e) by done. by eapply core_update.
  - eapply quit_ok_busy; try done. apply inv_quit0.
  - intros n'. rewrite inv_replies0. f_equal.
    change (waiting (with_server _ s) (Client n')) with (waiting s (Client n')).
    symmetry. apply (pend_other _ r); [|naive_solver..]. intros b0 H0. by destruct (Hw _ _ H0).
  - rewrite inv_out0. cbn. rewrite He. unfold written. cbn. by rewrite Hop.
Qed.

Lemma inv_server_run s l r input s' :
  inv s l → server s = SRun r → server_run input r s = Some s' → inv s' l.
Proof.
  intros Hinv Hs. unfold server_run, server_process.
  destruct (hp s !! r) as [e|] eqn:He; [|done]. cbn.
  destruct (operation e =? REQ_READ) eqn:E1; [|destruct (operation e =? REQ_WRITE) eqn:E2]; zbool; cbn.
  - rewrite lookup_insert_eq. cbn. set (line := match input with Some _ => _ | None => _ end).
    destruct (inv_server_read s l r e line) as [Hi Hsy]; try done.
    rewrite (proj2 (Z.eqb_neq _ _) Hsy). intros [= <-]. done.
  - destruct (text e) as [x|] eqn:Ht; cbn; rewrite He; cbn.
    + destruct (inv_server_write s l r e x) as [Hi Hsy]; try done.
      rewrite Hsy. cbn. unfold loop_end. rewrite E2. cbn. intros [= <-]. done.
    + destruct (in_hand s l r e Hinv) as ([[? ?] _]&_); [by rewrite Hs|done|congruence].
  - rewrite He. cbn. destruct (inv_server_quit s l r e) as [Hi Hsy]; try done.
    rewrite (proj2 (Z.eqb_neq _ _) Hsy). intros [= <-]. done.
Qed.

Lemma waiting_woken s s' r w :
  clients s' = update_all (λ _, wake_client r) (clients s) → main s' = wake_main r (main s) →
  waiting s' w = match waiting s w with
                 | Some (r', b) => Some (r', if decide (r' = r) then false else b)
                 | None => None
                 end.
Proof.
  intros Hc Hm. destruct w as [n|]; cbn.
  - rewrite Hc, lookup_update_all. destruct (clients s !! n) as [[]|]; cbn; try done; repeat case_decide; done.
  - rewrite Hm. destruct (main s); cbn; try done; repeat case_decide; done.
Qed.

Lemma inv_server_sync s l r s' :
  inv s l → server s = SSync r → server_sync r s = Some s' → inv s' l.
Proof.
  intros Hinv Hs. unfold server_sync. destruct (hp s !! r) as [e|] eqn:He; [|done].
  cbn -[update_all]. set (e' := Req _ _ _ 1 _ _ _). intros [= <-]. set (s' := Sys _ _ _ _ _ _ _ _ _ _ _ _).
  destruct (in_hand s l r e Hinv) as (Hok&Hd&Hw); [by rewrite Hs|done|].
  pose proof (inv_core _ _ Hinv) as Hcore. rewrite Hs in Hcore.
  destruct (core_cur _ _ _ _ _ Hcore r eq_refl) as [Hnin _].
  assert (synchronous e ≠ 0) as Hsy.
  { destruct (core_live _ _ _ _ _ Hcore r e He) as [_ [[_ [?|?]]|[? _]]]; done. }
  destruct (Hd Hsy) as (Hdn&b&Hb).
  assert (∀ w, waiting s' w = upd (waiting s) (owner e) (Some (r, false)) w) as HW.
  { intros w. rewrite (waiting_woken s s' r w) by done. unfold upd. case_decide as E.
    - subst. rewrite Hb. by rewrite decide_True.
    - destruct (waiting s w) as [[r' b']|] eqn:Ew; [|done]. rewrite decide_False; [done|].
      intros ->. by destruct (Hw _ _ Ew). }
  assert (cur (loop_end (operation e)) = None ∧ loop_end (operation e) ≠ SNone ∧
          loop_end (operation e) ≠ SBlocked ∧ ∀ r', loop_end (operation e) ≠ SSync r') as (L1&L2&L3&L4).
  { unfold loop_end. by case_match. }
  constructor; cbn [tty hp server client_threads requested handled output replies returned s'].
  - eapply core_ext; [apply HW|]. by eapply core_sync.
  - apply Hinv.
  - cbn. destruct (inv_flow _ _ Hinv) as (c&Hc). apply flow_update; [|by intros []; cbn; repeat case_decide].
    exists c. destruct Hc as (H1&H2&H3&H4&H5&H6&H7). split_and!; try done; try lia;
      destruct (main s); cbn; try done; repeat case_decide; done.
  - rewrite HW. pose proof (inv_quit _ _ Hinv) as Hq. rewrite Hs in Hq.
    assert (main s ≠ MExit) as Hm by (intros E; by apply (quit_end _ _ _ _ _ Hq) in E).
    assert (main s' ≠ MExit) as Hm'.
    { cbn. destruct (main s); cbn; try done; repeat case_decide; done. }
    unfold upd. case_decide as E.
    + rewrite <- E in *. assert (l = []) as ->.
      { destruct (quit_last _ _ _ _ _ Hq r b Hb) as [->|(l0&d&->)]; [done|].
        destruct Hnin. rewrite fmap_app. apply elem_of_app. right. by constructor. }
      assert (operation e = REQ_QUIT) as Hop.
      { destruct Hok as [_ Hok]. rewrite <- E in Hok. by destruct Hok. }
      unfold loop_end. rewrite Hop. cbn. split; try done; eauto.
    + assert (operation e ≠ REQ_QUIT) as Hop.
      { destruct Hok as [_ Hok]. destruct (owner e); [|done].
        intros Hop. rewrite Hop in Hok. by destruct Hok as [[? _]|[? _]]. }
      assert (loop_end (operation e) ≠ SExit) as Hle.
      { unfold loop_end. rewrite (proj2 (Z.eqb_neq _ _) Hop). done. }
      constructor; try done.
      * apply Hq.
      * intros r0 b0 e0 Hr0 He0 Hd0. destruct (decide (r0 = r)) as [->|].
        -- by destruct (Hw _ _ Hr0).
        -- rewrite lookup_insert_ne in He0 by done. by specialize (quit_done _ _ _ _ _ Hq _ _ _ Hr0 He0 Hd0).
  - intros n. rewrite (inv_replies _ _ Hinv), HW, Hs. f_equal. unfold upd. case_decide as E.
    + rewrite E, Hb. unfold pend. rewrite He, lookup_insert_eq, Hdn. cbn.
      by rewrite bool_decide_true.
    + assert (∀ b, waiting s (Client n) ≠ Some (r, b)) as Hne.
      { intros b0 H0. by destruct (Hw _ _ H0). }
      rewrite pend_insert by done. symmetry. apply (pend_other _ r); [done|naive_solver|].
      intros r' H. by destruct (L4 r').
  - rewrite (inv_out _ _ Hinv), Hs. unfold loop_end. by case_match.
Qed.

Lemma pend_rewait h sv r b b' : pend h sv (Some (r, b')) = pend h sv (Some (r, b)).
Proof. done. Qed.

Lemma inv_client_rewait s l n p p' r b b' :
  inv s l → clients s !! n = Some p → is_exit p' = is_exit p →
  wait_c p = Some (r, b) → wait_c p' = Some (r, b') →
  (b' = true → ∃ e, hp s !! r = Some e ∧ done_flag e = 0) → inv (with_client n p' s) l.
Proof.
  intros [] Hn Hx Hp Hp' Hd.
  assert (waiting s (Client n) = Some (r, b)) as Hw by (cbn; by rewrite Hn).
  assert (∀ w, waiting (with_client n p' s) w = upd (waiting s) (Client n) (Some (r, b')) w) as HW.
  { intros w. rewrite <- Hp'. by apply waiting_client. }
  constructor; cbn [tty hp server clients main client_threads requested handled output replies
    returned with_client]; try done.
  - eapply core_ext; [apply HW|]. by eapply core_rewait.
  - by eapply flow_client.
  - intros n'. rewrite inv_replies0, HW. f_equal. unfold upd. case_decide as E; [|done].
    by rewrite E, Hw.
Qed.

Lemma inv_client_finish s l n r b e str p' p :
  inv s l → clients s !! n = Some p → is_exit p = false → wait_c p = Some (r, b) →
  hp s !! r = Some e → done_flag e ≠ 0 → text e = Some str →
  is_exit p' = false → wait_c p' = None →
  inv (Sys (tty s) (delete r (hp s)) (server s) (<[n := p']> (clients s)) (main s)
           (client_threads s) (undefined s) (requested s) (handled s) (output s)
           (replies s) (returned s ++ [(Client n, str)])) l.
Proof.
  intros Hinv Hn Hx Hp He Hd Ht Hx' Hp'. pose proof (inv_core _ _ Hinv) as Hcore.
  assert (waiting s (Client n) = Some (r, b)) as Hw by (cbn; by rewrite Hn).
  set (s' := Sys _ _ _ _ _ _ _ _ _ _ _ _).
  assert (∀ w, waiting s' w = upd (waiting s) (Client n) None w) as HW.
  { intros w. rewrite <- Hp'. by apply waiting_client. }
  destruct (core_waits _ _ _ _ _ Hcore _ _ _ Hw) as (x&Hxe&Ho&Hsy). rewrite He in Hxe.
  injection Hxe as <-.
  assert (cur (server s) ≠ Some r) as Hcur.
  { destruct (core_live _ _ _ _ _ Hcore r e He) as [_ [[? _]|(_&b0&_&[[? _]|(_&_&?&_)])]]; done. }
  assert (∀ w b', waiting s w = Some (r, b') → w = Client n) as Huniq.
  { intros w b' Hw'. destruct (core_waits _ _ _ _ _ Hcore _ _ _ Hw') as (y&Hy&Hoy&_). congruence. }
  destruct Hinv. constructor; cbn [tty hp server clients main client_threads requested handled output
    replies returned s']; try done.
  - eapply core_ext; [apply HW|]. by eapply core_finish.
  - eapply flow_client; [done..|congruence].
  - eapply quit_ok_heap; [exact inv_quit0|]. intros r0 b0 e0 Hr0 [_ He0]%lookup_delete_Some. eauto.
  - intros n'. rewrite texts_snoc, inv_replies0, HW, <- app_assoc. f_equal. unfold upd.
    case_decide as E; case_decide as E'; try (by destruct E); try (by destruct E').
    + rewrite <- E, Hw. unfold pend. rewrite He, Ht. rewrite (proj2 (Z.eqb_neq _ _) Hd). done.
    + rewrite pend_delete; [done|]. intros b' H. by apply Huniq in H.
  - rewrite inv_out0. f_equal. unfold pend_out. destruct (server s) as [| | |r'| |]; try done.
    rewrite lookup_delete_ne; [done|]. cbn in Hcur. congruence.
Qed.

Lemma inv_client s l n r s' :
  inv s l → client_routine n r s = Some s' → ∃ l', inv s' l'.
Proof.
  intros Hinv. unfold client_routine. destruct (clients s !! n) as [p|] eqn:Hn; [|done]. cbn.
  destruct p as [|r0|r0|loops str| |]; try done.
  - destruct (tty_server_request _ _ _ _ _ _ s) as [s1|] eqn:E; [|done]. intros [= <-].
    destruct (inv_client_request s l n CRead (CReadBlocked r) REQ_READ 1 (Some (client_prompt n)) None r s1)
      as [d Hd]; try done; [by left|]. eauto.
  - destruct (hp s !! r0) as [e|] eqn:He; [|done]. cbn. destruct (done_flag e =? 0) eqn:Hd; zbool.
    + intros [= <-]. exists l. by eapply inv_client_rewait; eauto.
    + destruct (text e) as [str|] eqn:Ht; intros [= <-]; exists l.
      * eapply inv_client_finish; try done; by case_match.
      * by destruct Hinv.
  - destruct (format n loops str) as [f|] eqn:Ef; [|intros [= <-]; exists l; by destruct Hinv].
    destruct (tty_server_request _ _ _ _ _ _ s) as [s1|] eqn:E; [|done]. intros [= <-].
    destruct (inv_client_request s l n (CWrite loops str)
      (if loops + 1 <? 4 then CWrite (loops + 1) str else CRead) REQ_WRITE 0 None (Some f) r s1)
      as [d Hd]; try done; try (by case_match); [|by eauto].
    right. split_and!; try done. exists f. split; [done|]. unfold format in Ef. case_match; [|done].
    zbool. congruence.
  - intros [= <-]. exists l. destruct (not_quitting s l n CLeave Hinv Hn eq_refl) as (Hq&Hwm&Hsv).
    set (m := if _ <=? 0 then _ else _).
    assert (wait_m m = None ∧ m ≠ MExit) as [Hm1 Hm2].
    { unfold m. destruct (_ <=? 0), (main s); done. }
    set (s1 := Sys _ _ _ _ _ _ _ _ _ _ _ _).
    assert (∀ w, waiting s1 w = waiting s w) as HW.
    { intros [n'|]; cbn; [|cbn in Hwm; congruence]. destruct (decide (n' = n)) as [->|].
      - by rewrite lookup_insert_eq, Hn.
      - by rewrite lookup_insert_ne. }
    destruct Hinv. constructor; cbn [tty hp server clients main client_threads requested handled output
      replies returned s1]; try done.
    + by eapply core_ext.
    + pose proof (flow_leave _ _ _ n CLeave inv_flow0 Hn eq_refl Hq) as Hf.
      unfold m. clear -Hf. destruct (_ <=? 0); [|done]. by destruct (main s).
    + rewrite HW, Hwm. by apply quit_ok_running.
    + intros n'. by rewrite HW.
Qed.

(** Main moves outside tty_server_request. *)
Lemma server_main_pc s l m' :
  inv s l → flow m' (clients s) (client_threads s) → wait_m (main s) = None → wait_m m' = None →
  main s ≠ MExit → m' ≠ MExit → inv (with_main m' s) l.
Proof.
  intros [] Hf Hw Hw' Hm Hm'.
  assert (∀ w, waiting (with_main m' s) w = waiting s w) as HW.
  { intros [n|]; cbn; congruence. }
  constructor; cbn [tty hp server clients main client_threads requested handled output replies
    returned with_main]; try done.
  - by eapply core_ext.
  - rewrite HW. destruct inv_quit0. constructor; try done.
    intros E. destruct (quit_exit0 E) as [? [?|?]]; [done|auto].
Qed.

Lemma inv_main_rewait s l r b m' b' :
  inv s l → wait_m (main s) = Some (r, b) → wait_m m' = Some (r, b') →
  (b' = true → ∃ e, hp s !! r = Some e ∧ done_flag e = 0) → inv (with_main m' s) l.
Proof.
  intros [] Hw Hw' Hd.
  assert (∀ w, waiting (with_main m' s) w = upd (waiting s) Main (Some (r, b')) w) as HW.
  { intros w. rewrite <- Hw'. by apply waiting_main. }
  assert (quitting (main s) = true ∧ main s ≠ MExit) as [Hq1 Hne] by by destruct (main s).
  assert (quitting m' = true ∧ m' ≠ MExit ∧ m' ≠ MBlocked ∧ ∀ x, m' ≠ MCreate x) as (?&?&?&?)
    by by destruct m'.
  constructor; cbn [tty hp server clients main client_threads requested handled output replies
    returned with_main]; try done.
  - eapply core_ext; [apply HW|]. by eapply core_rewait.
  - eapply flow_main; try done. intros _. destruct inv_flow0 as (c&_&_&_&_&_&_&Hk). by apply Hk.
  - rewrite HW. unfold upd. rewrite decide_True by done. destruct inv_quit0.
    cbn in quit_exit0, quit_last0, quit_done0. rewrite Hw in *. constructor; try done.
    + intros E. destruct (quit_exit0 E). split; eauto.
    + intros r0 b0 [= <- <-]. by eapply quit_last0.
    + intros r0 b0 e [= <- <-]. by eapply quit_done0.
Qed.

(** The quit request is answered; main frees it and returns. *)
Lemma inv_main_exit s l r b e :
  inv s l → wait_m (main s) = Some (r, b) → hp s !! r = Some e → done_flag e ≠ 0 →
  inv (with_main MExit (with_heap (delete r (hp s)) s)) l.
Proof.
  intros Hinv Hw He Hd. pose proof (inv_core _ _ Hinv) as Hcore.
  assert (server s = SExit) as Hsv by (eapply (quit_done _ _ _ _ _ (inv_quit _ _ Hinv)); eauto).
  destruct (quit_exit _ _ _ _ _ (inv_quit _ _ Hinv) Hsv) as [-> _].
  set (s' := with_main _ _).
  assert (∀ w, waiting s' w = upd (waiting s) Main None w) as HW.
  { intros w. by apply (waiting_main s s'). }
  destruct (core_waits _ _ _ _ _ Hcore Main r b Hw) as (x&Hxe&Ho&Hsy). rewrite He in Hxe.
  injection Hxe as <-. destruct Hinv.
  constructor; cbn [tty hp server clients main client_threads requested handled output
    replies returned s' with_main with_heap]; try done.
  - eapply core_ext; [apply HW|]. by eapply core_finish.
  - eapply flow_main; try done. intros _. destruct inv_flow0 as (c&_&_&_&_&_&_&Hk). apply Hk.
    by destruct (main s).
  - rewrite HW. cbn. split; try done. auto.
  - intros n. rewrite inv_replies0, HW. f_equal. unfold upd. rewrite decide_False by done.
    rewrite pend_delete; [done|]. intros b' H.
    destruct (core_waits _ _ _ _ _ Hcore _ _ _ H) as (y&Hy&Hoy&_). congruence.
  - rewrite inv_out0, Hsv. done.
Qed.

Lemma server_main_step s l r s' :
  inv s l → main s ≠ MExit → main_routine r s = Some s' → ∃ l', inv s' l'.
Proof.
  intros Hinv Hne. unfold main_routine. destruct (main s) as [c| | | | |r0|r0|] eqn:Em; try done.
  - pose proof (inv_flow _ _ Hinv) as Hf. rewrite Em in Hf.
    destruct (c <? client_threads s) eqn:E; zbool; intros [= <-]; exists l.
    + pose proof (flow_create _ _ _ Hf E) as Hf'. set (n := Z.to_nat c) in *.
      assert (clients s !! n = None) as Hn.
      { destruct (clients s !! n) eqn:E'; [|done]. destruct Hf as (c'&?&?&Hd&Hm&_).
        assert (c' = c) as -> by (symmetry; by apply Hm).
        assert (Z.of_nat n < c) by (apply Hd; eauto). lia. }
      set (s0 := with_client n CRead s).
      assert (∀ w, waiting s0 w = waiting s w) as HW.
      { intros w. unfold s0. rewrite (waiting_client s _ n CRead) by done. apply upd_same. cbn. by rewrite Hn. }
      assert (∀ w, waiting (with_main (MCreate (c + 1)) s0) w = waiting s w) as HW'.
      { intros w. rewrite <- HW. destruct w; [done|]. cbn. by rewrite Em. }
      destruct Hinv. constructor; cbn [tty hp server clients main client_threads requested handled
        output replies returned s0 with_client with_main]; try done.
      * by eapply core_ext.
      * rewrite HW'. destruct inv_quit0. rewrite Em in *. constructor; try done.
        intros E'. destruct (quit_exit0 E') as [? [?|?]]; [done|auto].
      * intros n'. by rewrite HW'.
    + apply server_main_pc; rewrite ?Em; try done. by eapply flow_main.
  - intros [= <-]. exists l. pose proof (inv_flow _ _ Hinv) as Hf.
    destruct (0 <? client_threads s) eqn:E; zbool;
      (apply server_main_pc; rewrite ?Em; try done; by eapply flow_main).
  - intros [= <-]. exists l. pose proof (inv_flow _ _ Hinv) as Hf.
    destruct (0 <? client_threads s) eqn:E; zbool;
      (apply server_main_pc; rewrite ?Em; try done; by eapply flow_main).
  - destruct (tty_server_request _ _ _ _ _ _ s) as [s1|] eqn:E; [|done]. cbn. intros [= <-].
    destruct (inv_main_request s l r s1) as [d Hd]; eauto.
  - destruct (hp s !! r0) as [e|] eqn:He; [|done]. cbn. destruct (done_flag e =? 0) eqn:Hd; zbool;
      intros [= <-]; exists l.
    + eapply inv_main_rewait; rewrite ?Em; eauto; done.
    + eapply inv_main_exit; rewrite ?Em; eauto; done.
Qed.

Lemma server_inv_step s l ev s' : inv s l → step s ev = Some s' → ∃ l', inv s' l'.
Proof.
  intros Hinv. unfold step. destruct (undefined s); [done|].
  destruct (decide (main s = MExit)) as [->|Hm]; [done|].
  assert (∀ A (x y : A), match main s with MExit => x | _ => y end = y) as Hmm by (by destruct (main s)).
  rewrite Hmm. destruct ev as [input|n r|r|[[n|]|]].
  - unfold tty_server_routine. destruct (server s) eqn:Hs; try done.
    + by eapply inv_server_take.
    + intros. exists l. by eapply inv_server_run.
    + intros. exists l. by eapply inv_server_sync.
  - by eapply inv_client.
  - by eapply server_main_step.
  - destruct (clients s !! n) as [[]|] eqn:Hn; try done. intros [= <-]. exists l.
    by eapply inv_client_rewait.
  - destruct (main s) eqn:Em; try done; intros [= <-]; exists l.
    + apply server_main_pc; rewrite ?Em; try done. eapply flow_main; [apply Hinv|done..].
    + eapply inv_main_rewait; rewrite ?Em; done.
  - destruct (server s) eqn:Hs; try done. intros [= <-]. exists l. destruct Hinv. rewrite Hs in *.
    constructor; try done; cbn.
    + by eapply core_idle.
    + by eapply (quit_ok_busy SBlocked); [..|apply inv_quit0].
Qed.

Lemma server_inv_initial : inv initial [].
Proof.
  constructor; try done.
  - constructor; try done. by constructor.
    by intros [].
  - exists 0. split_and!; try done; cbn; [|intros x [= <-]; done].
    intros n. split; [by intros [??]|lia].
Qed.

Lemma server_inv s : reach s → ∃ l, inv s l.
Proof.
  intros Hr. apply (invariant_reachable started step (λ s, ∃ l, inv s l)); [| |done].
  - intros s0 ->. exists []. apply server_inv_initial.
  - intros s0 ev s1 [l Hl] Hst. by eapply server_inv_step.
Qed.

(** ** Who can move *)

Definition runnable (s : sys) (w : option who) : bool :=
  match w with
  | None => match server s with SLock | SRun _ | SSync _ => true | _ => false end
  | Some (Client n) =>
      match clients s !! n with
      | Some (CRead | CReadWoken _ | CWrite _ _ | CLeave) => true
      | _ => false
      end
  | Some Main =>
      match main s with MBlocked | MQuitBlocked _ | MExit => false | _ => true end
  end.

Definition move (w : option who) (input : option (list Z)) (r : nat) : event :=
  match w with None => EServer input | Some (Client n) => EClient n r | Some Main => EMain r end.

Lemma request_total s l w op sync pr str r :
  inv s l → hp s !! r = None → ∃ s1, tty_server_request w op sync pr str r s = Some s1.
Proof.
  intros Hinv Hr. unfold tty_server_request. rewrite decide_True by done.
  set (e := Req _ _ _ _ _ _ _).
  destruct (enqueue_core (tty s) (hp s) (server s) (waiting s) l r e
    (Tty (first (tty s)) (last (tty s)) 1)) as (t'&h'&->&_); try done; [by apply Hinv|]. cbn. eauto.
Qed.

Lemma runnable_moves s l w input r :
  inv s l → undefined s = false → main s ≠ MExit → runnable s w = true → hp s !! r = None →
  ∃ s', step s (move w input r) = Some s'.
Proof.
  intros Hinv Hu Hm Hrun Hr. pose proof (inv_core _ _ Hinv) as Hcore.
  unfold step. rewrite Hu.
  assert (∀ A (x y : A), match main s with MExit => x | _ => y end = y) as Hmm by (by destruct (main s)).
  rewrite Hmm. clear Hmm. destruct w as [[n|]|]; cbn -[tty_server_routine client_routine main_routine] in *.
  - unfold client_routine. destruct (clients s !! n) as [p|] eqn:Hn; [|done]. cbn.
    assert (∀ r0, p = CReadWoken r0 → is_Some (hp s !! r0)) as Hl.
    { intros r0 ->. destruct (core_waits _ _ _ _ _ Hcore (Client n) r0 false) as (x&?&_); [|by eauto].
      cbn. by rewrite Hn. }
    destruct p as [|r0|r0|loops str| |]; try done; try by eauto.
    + destruct (request_total s l (Client n) REQ_READ 1 (Some (client_prompt n)) None r) as [s1 ->];
        try done. cbn. eauto.
    + destruct (Hl r0 eq_refl) as [x ->]. cbn. repeat case_match; eauto.
    + destruct (format n loops str) as [f|]; [|by eauto].
      destruct (request_total s l (Client n) REQ_WRITE 0 None (Some f) r) as [s1 ->]; try done. cbn. eauto.
  - unfold main_routine.
    assert (∀ r0, main s = MQuitWoken r0 → is_Some (hp s !! r0)) as Hl.
    { intros r0 E. destruct (core_waits _ _ _ _ _ Hcore Main r0 false) as (x&?&_); [|by eauto].
      cbn. by rewrite E. }
    destruct (main s) as [c| | | | |r0|r0|] eqn:Em; try done; try by eauto.
    + case_match; eauto.
    + destruct (request_total s l Main REQ_QUIT 1 None None r) as [s1 ->]; try done. cbn. eauto.
    + destruct (Hl r0 eq_refl) as [x ->]. cbn. case_match; eauto.
  - unfold tty_server_routine. destruct (server s) as [| | |r0|r0|] eqn:Hs; try done.
    + unfold server_take. destruct (first (tty s)) as [r0|] eqn:Hf; [|by eauto].
      pose proof (core_chain _ _ _ _ _ Hcore) as Hc. rewrite Hf in Hc.
      destruct l as [|[a d] l]; [done|]. destruct Hc as ([= <-]&e&->&_). cbn. eauto.
    + destruct (core_cur _ _ _ _ _ Hcore r0 eq_refl) as [_ [e He]]. unfold server_run, server_process.
      rewrite He. cbn. repeat case_match; cbn; rewrite ?lookup_insert_eq, ?He; cbn; repeat case_match; eauto.
    + destruct (core_cur _ _ _ _ _ Hcore r0 eq_refl) as [_ [e He]]. unfold server_sync. rewrite He. cbn. eauto.
Qed.

Lemma nobody_runs s l :
  inv s l → (∀ w, runnable s w = false) →
  (∀ n p, clients s !! n = Some p → p = CExit) ∧
  (main s = MExit ∨ main s = MBlocked ∧ 0 < client_threads s ∧ Z.of_nat (size (clients s)) < CLIENT_THREADS).
Proof.
  intros Hinv Hr. pose proof (inv_core _ _ Hinv) as Hcore.
  assert (cur (server s) = None) as Hcur.
  { specialize (Hr None). cbn in Hr. by destruct (server s). }
  assert (∀ w r, waiting s w = Some (r, true) → server s ≠ SExit → False) as Hno.
  { intros w r Hw Hx. destruct (core_waits _ _ _ _ _ Hcore _ _ _ Hw) as (e&He&Ho&Hs).
    destruct (core_live _ _ _ _ _ Hcore r e He) as [_ [[? _]|(_&b&Hb&[[_ [Hin|?]]|(_&_&_&?)])]]; try congruence.
    assert (l = []) as ->; [|by apply elem_of_nil in Hin].
    specialize (Hr None). cbn in Hr. destruct (server s) eqn:E; try done.
    - by apply (core_none _ _ _ _ _ Hcore).
    - by apply (core_blocked _ _ _ _ _ Hcore). }
  assert (∀ n p, clients s !! n = Some p → p = CExit) as Hcl.
  { intros n p Hn. pose proof (Hr (Some (Client n))) as Hc. cbn in Hc. rewrite Hn in Hc.
    destruct p as [|r| | | |]; try done. exfalso. eapply (Hno (Client n) r); [cbn; by rewrite Hn|].
    by destruct (not_quitting s l n (CReadBlocked r) Hinv Hn eq_refl) as (_&_&?). }
  split; [done|]. pose proof (Hr (Some Main)) as Hm. cbn in Hm.
  destruct (main s) as [| | | | |r| |] eqn:Em; try done; [right|exfalso|by left].
  - split; [done|]. destruct (inv_flow _ _ Hinv) as (c&Hc&Hs&_&_&Hk&Hb&_). split; [by apply Hb|].
    specialize (Hb Em). rewrite Hk in Hb.
    assert (count is_exit (clients s) = Z.of_nat (size (clients s))) as Hall; [|lia].
    pose proof (count_negb is_exit (clients s)).
    assert (count (λ p, negb (is_exit p)) (clients s) = 0); [|lia].
    pose proof (count_nonneg (λ p, negb (is_exit p)) (clients s)).
    destruct (decide (0 < count (λ p, negb (is_exit p)) (clients s))) as [Hp|]; [|lia].
    apply count_pos in Hp as (n&p&Hn&Hp). by rewrite (Hcl n p Hn) in Hp.
  - assert (waiting s Main = Some (r, true)) as Hw by (cbn; by rewrite Em).
    eapply (Hno Main r Hw). intros Hx.
    destruct (core_waits _ _ _ _ _ Hcore _ _ _ Hw) as (e&He&Ho&Hs).
    destruct (core_live _ _ _ _ _ Hcore r e He) as [_ [[? _]|(_&b&Hb&[[_ [Hin|?]]|(_&_&_&?)])]]; try congruence.
    destruct (quit_exit _ _ _ _ _ (inv_quit _ _ Hinv) Hx) as [-> _]. by apply elem_of_nil in Hin.
Qed.

Lemma exit_clean s l : inv s l → main s = MExit → hp s = ∅ ∧ l = [] ∧ server s = SExit.
Proof.
  intros Hinv Hm. pose proof (inv_core _ _ Hinv) as Hcore.
  assert (server s = SExit) as Hs by by apply (quit_end _ _ _ _ _ (inv_quit _ _ Hinv)).
  destruct (quit_exit _ _ _ _ _ (inv_quit _ _ Hinv) Hs) as [-> _]. split_and!; try done.
  apply map_empty. intros r. destruct (hp s !! r) as [e|] eqn:He; [|done]. exfalso.
  destruct (core_live _ _ _ _ _ Hcore r e He) as [_ Hl]. rewrite Hs in Hl.
  destruct Hl as [[_ [H|?]]|(_&b&Hb&_)]; [by apply elem_of_nil in H|done|].
  destruct (owner e) as [n|]; cbn in Hb; [|by rewrite Hm in Hb].
  destruct (clients s !! n) as [p|] eqn:Hn; [|done].
  assert (client_threads s ≤ 0) as Hk.
  { destruct (inv_flow _ _ Hinv) as (c&_&_&_&_&_&_&Hk). apply Hk. by rewrite Hm. }
  by rewrite (flow_all_exit _ _ _ _ _ (inv_flow _ _ Hinv) Hk Hn) in Hb.
Qed.

Lemma request_undefined w op sync pr str r s s1 :
  tty_server_request w op sync pr str r s = Some s1 → undefined s1 = undefined s.
Proof.
  unfold tty_server_request. case_decide; [|done]. destruct (enqueue _ _ _) as [[t h]|]; [|done].
  cbn. intros [= <-]. done.
Qed.

Lemma format_overrun n loops str : format n loops str = None ↔ 122 ≤ zlen str.
Proof.
  unfold format. assert (∀ x, zlen ([x; 48 + Z.of_nat n; 35; 48 + loops; 41; 32] ++ str) = 6 + zlen str) as ->.
  { intros x. rewrite zlen_app. done. }
  case_match; zbool; split; try done; lia.
Qed.

(** *** What keeps everything defined *)

Lemma server_undefined s l input s' :
  inv s l → tty_server_routine input s = Some s' → undefined s' = undefined s.
Proof.
  intros Hinv. unfold tty_server_routine, server_take, server_run, server_sync, server_process.
  destruct (server s) as [| | |r0|r0|] eqn:Hs; try done; intros Hst.
  - destruct (first (tty s)); [|by simplify_eq]. destruct (hp s !! _); [|done]. by simplify_eq/=.
  - destruct (hp s !! r0) as [e|] eqn:He; [|done]. cbn in Hst.
    destruct (in_hand s l r0 e Hinv) as ([[tx Htx] _]&_); [by rewrite Hs|done|]. rewrite Htx in Hst.
    destruct (operation e =? REQ_READ); [|destruct (operation e =? REQ_WRITE)]; cbn in Hst;
      rewrite ?lookup_insert_eq, ?He in Hst; cbn in Hst; destruct (synchronous e =? 0);
      injection Hst as <-; done.
  - destruct (hp s !! r0); [|done]. cbn in Hst. injection Hst as <-. done.
Qed.

Lemma main_undefined r s s' : main_routine r s = Some s' → undefined s' = undefined s.
Proof.
  unfold main_routine. destruct (main s) as [c| | | | |r0|r0|]; try done.
  - by destruct (c <? _); intros [= <-].
  - by intros [= <-].
  - by intros [= <-].
  - destruct (tty_server_request _ _ _ _ _ _ s) as [s1|] eqn:E; [|done].
    apply request_undefined in E. by intros [= <-].
  - destruct (hp s !! r0) as [e|]; [|done]. cbn. by destruct (done_flag e =? 0); intros [= <-].
Qed.

Lemma client_undefined s l n r s' p :
  inv s l → client_routine n r s = Some s' → clients s !! n = Some p → undefined s = false →
  undefined s' = match p with CWrite _ str => 122 <=? zlen str | _ => false end.
Proof.
  intros Hinv Hst Hn Hu. pose proof (inv_core _ _ Hinv) as Hcore. unfold client_routine in Hst.
  rewrite Hn in Hst. cbn in Hst. destruct p as [|r0|r0|loops str| |]; try done.
  - destruct (tty_server_request _ _ _ _ _ _ s) as [s1|] eqn:E; [|done].
    apply request_undefined in E. injection Hst as <-. cbn. congruence.
  - destruct (hp s !! r0) as [e|] eqn:He; [|done]. cbn in Hst.
    destruct (core_live _ _ _ _ _ Hcore r0 e He) as [[[tx Htx] _] _]. rewrite Htx in Hst.
    destruct (done_flag e =? 0); by injection Hst as <-.
  - symmetry. destruct (format n loops str) as [f|] eqn:Ef.
    + destruct (tty_server_request _ _ _ _ _ _ s) as [s1|] eqn:E; [|done].
      apply request_undefined in E. injection Hst as <-. cbn. rewrite E, Hu.
      apply Z.leb_gt. destruct (decide (122 ≤ zlen str)) as [Hl|]; [|lia].
      apply (format_overrun n loops) in Hl. congruence.
    + injection Hst as <-. cbn. apply Z.leb_le. by eapply format_overrun.
  - by injection Hst as <-.
Qed.

(** ** Properties *)

(** C9 (refinement): the server is a queue.  At any point the requests made are
    those the server has taken, in order, followed by those linked in the list; the
    lines put out are the texts of the write requests taken, in order; and the
    lines read for a client are exactly the strings its reads returned, followed
    by one it has not yet collected, if any.  When main returns every request has
    been served and freed. *)
Theorem server_fifo s :
  reach s →
  ∃ l, chain next datum (hp s) (first (tty s)) l ∧ requested s = handled s ++ l.*2 ∧
    omap written (handled s) = output s ++ pend_out (hp s) (server s) ∧
    (∀ n, texts (Client n) (replies s) =
       texts (Client n) (returned s) ++ pend (hp s) (server s) (waiting s (Client n))) ∧
    (main s = MExit → hp s = ∅ ∧ requested s = handled s ∧ output s = omap written (requested s)).
Proof.
  intros [l Hinv]%server_inv. exists l. split_and!; try apply Hinv.
  intros Hm. destruct (exit_clean s l Hinv Hm) as (Hh&->&Hs). destruct Hinv.
  rewrite inv_hist0, app_nil_r, inv_out0, Hs. cbn. by rewrite app_nil_r.
Qed.

(** Client 0 reads "hi" and writes it once. *)
Definition demo (line : list Z) : list event :=
  [EMain 0; EClient 0 10; EServer None; EServer (Some line); EServer None; EClient 0 0].
Definition demo_write : list event := [EClient 0 11; EServer None; EServer None].

Lemma server_fifo_witness : ∃ s (l : list (nat * (Z * option (list Z)))),
  reach s ∧ output s = [[40; 48; 35; 48; 41; 32; 104; 105]] ∧
  texts (Client 0) (returned s) = [[104; 105]] ∧ requested s = handled s ++ l.*2.
Proof.
  destruct (run step initial (demo [104; 105; 10] ++ demo_write)) as [s|] eqn:E;
    [|vm_compute in E; discriminate E].
  assert (reach s) as Hr.
  { apply (run_reachable _ _ (demo [104; 105; 10] ++ demo_write) initial); [by apply reach_init|exact E]. }
  destruct (server_fifo s Hr) as (l&_&Hl&_). exists s, l. split; [exact Hr|].
  assert (output s = [[40; 48; 35; 48; 41; 32; 104; 105]] ∧ texts (Client 0) (returned s) = [[104; 105]])
    as [H1 H2]; [|by split_and!].
  clear -E. vm_compute in E. injection E as <-. split; reflexivity.
Defined.

(** no thread follows a dangling pointer or loses a wake-up.  Every
    thread that is not blocked in a wait can take its next step; when no thread can
    move, main has returned, or it waits for clients while all clients it created
    have left, which happens only if it created fewer than four. *)
Theorem server_progress s :
  reach s → undefined s = false →
  (main s ≠ MExit → ∀ w input r, runnable s w = true → hp s !! r = None →
     ∃ s', step s (move w input r) = Some s') ∧
  ((∀ w, runnable s w = false) →
     main s = MExit ∨
     main s = MBlocked ∧ Z.of_nat (size (clients s)) < CLIENT_THREADS ∧
     ∀ n p, clients s !! n = Some p → p = CExit).
Proof.
  intros [l Hinv]%server_inv Hu. split.
  - intros. by eapply runnable_moves.
  - intros Hr. destruct (nobody_runs s l Hinv Hr) as [Hc [Hm|(Hm&_&Hs)]]; auto.
Qed.

Lemma server_progress_witness :
  reach initial ∧ ∃ s', step initial (move (Some Main) None 0) = Some s'.
Proof.
  assert (reach initial) as Hr by by apply reach_init. split; [exact Hr|].
  apply (server_progress initial); done.
Defined.

(** The only buffer overrun of the program is the sprintf of a client
    that was given a line of 122 characters or more (formatted has 128 bytes, the
    prefix takes six and the terminator one); every string it reads is terminated. *)
Theorem server_overrun s ev s' :
  reach s → step s ev = Some s' →
  (undefined s' = true ↔
   ∃ n r loops str, ev = EClient n r ∧ clients s !! n = Some (CWrite loops str) ∧ 122 ≤ zlen str).
Proof.
  intros [l Hinv]%server_inv. unfold step. destruct (undefined s) eqn:Hu; [done|].
  destruct (decide (main s = MExit)) as [->|Hm]; [done|].
  assert (∀ A (x y : A), match main s with MExit => x | _ => y end = y) as Hmm by (by destruct (main s)).
  rewrite Hmm. clear Hmm. intros Hst. destruct ev as [input|n r|r|w].
  - rewrite (server_undefined _ _ _ _ Hinv Hst), Hu. naive_solver.
  - assert (∃ p, clients s !! n = Some p) as [p Hn].
    { unfold client_routine in Hst. destruct (clients s !! n); [by eauto|done]. }
    rewrite (client_undefined _ _ _ _ _ _ Hinv Hst Hn Hu).
    destruct p; naive_solver (rewrite ?Z.leb_le in *; eauto 10).
  - rewrite (main_undefined _ _ _ Hst), Hu. naive_solver.
  - assert (undefined s' = false) as ->; [|naive_solver].
    destruct w as [[n|]|]; repeat case_match; try done; by injection Hst as <-.
Qed.

Lemma server_overrun_witness : ∃ s s',
  reach s ∧ step s (EClient 0 11) = Some s' ∧ undefined s = false ∧ undefined s' = true.
Proof.
  set (line := repeat 97 122).
  destruct (run step initial (demo line)) as [s|] eqn:E; [|vm_compute in E; discriminate E].
  assert (reach s) as Hr.
  { apply (run_reachable _ _ (demo line) initial); [by apply reach_init|exact E]. }
  destruct (step s (EClient 0 11)) as [s'|] eqn:E'.
  2: { exfalso. vm_compute in E. injection E as <-. vm_compute in E'. discriminate E'. }
  exists s, s'. split_and!; [exact Hr|exact E'| |].
  - vm_compute in E. injection E as <-. reflexivity.
  - apply (server_overrun s (EClient 0 11) s' Hr E'). exists 0%nat, 11%nat, 0, line.
    vm_compute in E. injection E as <-. split_and!; [reflexivity|reflexivity|by vm_compute].
Defined.

(** main reads client_threads in its creation loop while clients that are done
    already decrement it: if client 0 sees the end of input before client 3 is
    created, main creates three clients and then waits forever. *)
Definition leave (n : nat) : list event :=
  [EClient n 10; EServer None; EServer None; EServer None; EClient n 0; EClient n 0].
Definition race : list event :=
  [EMain 0] ++ leave 0 ++ [EMain 0; EMain 0; EMain 0; EMain 0] ++ leave 1 ++ leave 2 ++ [EServer None].

Lemma server_create_race : ∃ s,
  run step initial race = Some s ∧ (∀ w, runnable s w = false) ∧
  main s = MBlocked ∧ client_threads s = 1 ∧ size (clients s) = 3%nat.
Proof.
  destruct (run step initial race) as [s|] eqn:E; [|vm_compute in E; discriminate E].
  exists s. vm_compute in E. injection E as <-. split_and!; try reflexivity.
  intros [[n|]|]; try reflexivity. cbn.
  destruct (_ !! n) as [p|] eqn:Hn; [|done].
  apply elem_of_map_to_list in Hn. vm_compute in Hn.
  repeat (apply elem_of_cons in Hn as [[= _ ->]|Hn]; [done|]). by apply elem_of_nil in Hn.
Qed.

End Server.
