(* ===== verification/Susp.v ===== *)
(** * Suspending and resuming threads with signals

    Models ldd-k4/thread/programming_with_posix_thread/susp.c: thd_suspend and
    thd_continue keep an array of suspended threads and send SIGUSR1 and SIGUSR2;
    the handler of SIGUSR1 sets [sentinel] and stops the thread in sigsuspend.

    Both functions hold one mutex from their first to their last access, so calls
    happen one after the other; a call of thd_suspend that waits for the sentinel
    is [Spin].  A thread handles signals in steps of its own.  SIGUSR1 is blocked
    while its handler runs and in sigsuspend; SIGUSR2 is not.  An access outside
    the array sets [undefined], and nothing follows it. *)

From S2P Require Import Prelude.

Module Susp.

Definition THREAD_COUNT : nat := 20.

(** A target thread: outside the handler, before [sentinel = 1], between that and
    sigsuspend, in sigsuspend.  [pending]: a SIGUSR1 that is blocked. *)
Inductive place := Running | Entered | Flagged | Suspended.
#[export] Instance place_eq_dec : EqDecision place.
Proof. solve_decision. Defined.

Record target := Target { at_ : place; pending : bool }.

Inductive op := Suspend (t : Z) | Continue (t : Z).
#[export] Instance op_eq_dec : EqDecision op.
Proof. solve_decision. Defined.

Record sys := Sys {
  array : option (list Z);         (** [None]: NULL *)
  bottom : Z;
  inited : bool;                   (** also: pthread_once has run the routine *)
  sentinel : Z;
  threads : gmap Z target;
  spin : option (Z * nat);         (** thd_suspend of this thread waits for the sentinel *)
  calls : list op;                 (** what the caller has still to call *)
  statuses : list Z;               (** history: what the calls returned *)
  undefined : bool
}.

Definition with_array (l : option (list Z)) (b : Z) (i : bool) (s : sys) : sys :=
  Sys l b i (sentinel s) (threads s) (spin s) (calls s) (statuses s) (undefined s).
Definition with_threads (m : gmap Z target) (s : sys) : sys :=
  Sys (array s) (bottom s) (inited s) (sentinel s) m (spin s) (calls s) (statuses s) (undefined s).
Definition bad (s : sys) : sys :=
  Sys (array s) (bottom s) (inited s) (sentinel s) (threads s) (spin s) (calls s) (statuses s) true.
Definition ret (status : Z) (s : sys) : sys :=
  Sys (array s) (bottom s) (inited s) (sentinel s) (threads s) None (calls s)
      (statuses s ++ [status]) (undefined s).

(** What the calls outside the source return; [e_alloc]: calloc or realloc gave
    memory. *)
Record env := Env { e_once : Z; e_alloc : bool; e_lock : Z; e_kill : Z; e_unlock : Z; e_errno : Z }.
Definition calm : env := Env 0 true 0 0 0 0.

(** ** Signals *)

(** SIGUSR1: suspend_signal_handler is entered, or has to wait. *)
Definition sigusr1 (x : target) : target :=
  match at_ x with Running => Target Entered (pending x) | p => Target p true end.
(** SIGUSR2: resume_signal_handler does nothing; sigsuspend returns, and with it the
    first handler, so a blocked SIGUSR1 is delivered. *)
Definition sigusr2 (x : target) : target :=
  match at_ x with
  | Suspended => if pending x then Target Entered false else Target Running false
  | _ => x
  end.

Definition pthread_kill (f : target → target) (t : Z) (s : sys) : option sys :=
  x ← threads s !! t; Some (with_threads (<[t := f x]> (threads s)) s).

(** The next statement of suspend_signal_handler in thread [t] *)
Definition suspend_signal_handler (t : Z) (s : sys) : option sys :=
  x ← threads s !! t;
  match at_ x with
  | Entered =>
      Some (Sys (array s) (bottom s) (inited s) 1 (<[t := Target Flagged (pending x)]> (threads s))
                (spin s) (calls s) (statuses s) (undefined s))
  | Flagged => Some (with_threads (<[t := Target Suspended (pending x)]> (threads s)) s)
  | _ => None
  end.

(** ** The package *)

Definition suspend_init_routine (e : env) (s : sys) : sys :=
  with_array (if e_alloc e then Some (zeros 10) else None) 10 true s.

(** [array[k]] as an access: [None] outside the array *)
Definition get (k : nat) (s : sys) : option Z := l ← array s; l !! k.

(** while (i < bottom) if (array[i++] == target_thread) ...; [None]: undefined *)
Fixpoint listed (fuel i : nat) (t : Z) (s : sys) : option bool :=
  if Z.of_nat i <? bottom s then
    match fuel with
    | O => None
    | S fuel => v ← get i s; if v =? t then Some true else listed fuel (S i) t s
    end
  else Some false.

(** while (array[i] != 0) i++ *)
Fixpoint slot (fuel i : nat) (s : sys) : option nat :=
  v ← get i s;
  if v =? 0 then Some i else match fuel with O => None | S fuel => slot fuel (S i) s end.

(** while (array[i] != target_thread && i < bottom) i++: the array is read first. *)
Fixpoint find (fuel i : nat) (t : Z) (s : sys) : option nat :=
  v ← get i s;
  if negb (v =? t) && (Z.of_nat i <? bottom s)
  then match fuel with O => None | S fuel => find fuel (S i) t s end
  else Some i.

(** A scan visits at most bottom elements and the one behind them. *)
Definition scan_fuel (s : sys) : nat := S (Z.to_nat (bottom s)).

(** [if (i == bottom)]: one more element, and the element behind it is cleared.
    [inr]: the status to return. *)
Definition grow (e : env) (s : sys) : option (sys + Z * sys) :=
  l ← array s;
  let b := bottom s + 1 in
  if e_alloc e then
    let s := with_array (Some (take (Z.to_nat b) (l ++ [0]))) b (inited s) s in
    _ ← get (Z.to_nat b) s;
    Some (inl s)
  else Some (inr (e_errno e, with_array None b (inited s) s)).

Definition thd_suspend (e : env) (t : Z) (s : sys) : option sys :=
  if negb (e_once e =? 0) then Some (ret (e_once e) s) else
  let s := if inited s then s else suspend_init_routine e s in
  if negb (e_lock e =? 0) then Some (ret (e_lock e) s) else
  match listed (scan_fuel s) 0 t s with
  | None => Some (bad s)
  | Some true => Some (ret (e_unlock e) s)
  | Some false =>
      match slot (scan_fuel s) 0 s with
      | None => Some (bad s)
      | Some i =>
          match (if Z.of_nat i =? bottom s then grow e s else Some (inl s)) with
          | None => Some (bad s)
          | Some (inr (st, s)) => Some (ret st s)
          | Some (inl s) =>
              let s := Sys (array s) (bottom s) (inited s) 0 (threads s) (spin s) (calls s)
                           (statuses s) (undefined s) in
              if negb (e_kill e =? 0) then Some (ret (e_kill e) s) else
              s ← pthread_kill sigusr1 t s;
              Some (Sys (array s) (bottom s) (inited s) (sentinel s) (threads s) (Some (t, i))
                        (calls s) (statuses s) (undefined s))
          end
      end
  end.

(** The end of thd_suspend, once the sentinel has changed *)
Definition suspend_end (e : env) (t : Z) (i : nat) (s : sys) : option sys :=
  if sentinel s =? 0 then None else
  match get i s with
  | None => Some (bad s)
  | Some _ => Some (ret (e_unlock e) (with_array (<[i := t]> <$> array s) (bottom s) (inited s) s))
  end.

Definition thd_continue (e : env) (t : Z) (s : sys) : option sys :=
  if negb (e_lock e =? 0) then Some (ret (e_lock e) s) else
  if negb (inited s) then Some (ret (e_unlock e) s) else
  match find (scan_fuel s) 0 t s with
  | None => Some (bad s)
  | Some i =>
      if bottom s <=? Z.of_nat i then Some (ret 0 s) else
      if negb (e_kill e =? 0) then Some (ret (e_kill e) s) else
      s ← pthread_kill sigusr2 t s;
      Some (ret (e_unlock e) (with_array (<[i := 0]> <$> array s) (bottom s) (inited s) s))
  end.

Inductive event :=
| ECall (e : env)
| EEnd (e : env)                (** the waiting thd_suspend sees the sentinel *)
| EHandler (t : Z).

Definition step (s : sys) (ev : event) : option sys :=
  if undefined s then None else
  match ev with
  | ECall e =>
      match spin s, calls s with
      | None, c :: cs =>
          let s := Sys (array s) (bottom s) (inited s) (sentinel s) (threads s) None cs
                       (statuses s) (undefined s) in
          match c with Suspend t => thd_suspend e t s | Continue t => thd_continue e t s end
      | _, _ => None
      end
  | EEnd e => match spin s with Some (t, i) => suspend_end e t i s | None => None end
  | EHandler t => suspend_signal_handler t s
  end.

(** main, for the threads it created: ten are suspended and continued, then the
    other ten. *)
Definition main_calls (ids : list Z) : list op :=
  let half := (THREAD_COUNT / 2)%nat in
  (Suspend <$> take half ids) ++ (Continue <$> take half ids) ++
  (Suspend <$> drop half ids) ++ (Continue <$> drop half ids).

Definition initial (ids : list Z) (cs : list op) : sys :=
  Sys None 0 false 0 (list_to_map ((λ t, (t, Target Running false)) <$> ids)) None cs [] false.

(** ** The scans *)

Definition entries (s : sys) : list Z := default [] (array s).

Section scans.
Context (s : sys) (l : list Z) (Harr : array s = Some l) (Hb : bottom s = zlen l).

Lemma get_array k : get k s = l !! k.
Proof using Harr. unfold get. by rewrite Harr. Qed.

Lemma listed_spec t fuel i :
  (length l ≤ fuel + i)%nat → listed fuel i t s = Some (bool_decide (t ∈ drop i l)).
Proof using Harr Hb.
  revert i. induction fuel as [|fuel IH]; intros i Hf; cbn; rewrite Hb; unfold zlen.
  - rewrite (proj2 (Z.ltb_ge _ _)) by lia. rewrite drop_ge by lia. done.
  - destruct (Z.of_nat i <? _) eqn:E; zbool.
    + rewrite get_array. destruct (lookup_lt_is_Some_2 l i) as [v Hv]; [lia|].
      rewrite Hv, (drop_S l v i Hv). cbn. destruct (v =? t) eqn:Ev; zbool.
      * subst. by rewrite bool_decide_true by constructor.
      * rewrite IH by lia. f_equal. apply bool_decide_ext. rewrite elem_of_cons.
        split; [by right|]. by intros [->|?].
    + by rewrite drop_ge by lia.
Qed.

Lemma slot_spec fuel i :
  (length l ≤ fuel + i)%nat →
  match slot fuel i s with
  | Some k => l !! k = Some 0
  | None => 0 ∉ drop i l
  end.
Proof using Harr.
  revert i. induction fuel as [|fuel IH]; intros i Hf; cbn; rewrite get_array.
  - rewrite drop_ge, lookup_ge_None_2 by lia. cbn. apply not_elem_of_nil.
  - destruct (l !! i) as [v|] eqn:Hv; cbn.
    + destruct (v =? 0) eqn:Ev; zbool; [by subst|]. specialize (IH (S i) ltac:(lia)).
      destruct (slot fuel (S i) s); [done|]. rewrite (drop_S l v i Hv), not_elem_of_cons. done.
    + rewrite drop_ge; [apply not_elem_of_nil|by apply lookup_ge_None].
Qed.

Lemma slot_found fuel i :
  (length l ≤ fuel + i)%nat → 0 ∈ drop i l → ∃ k, slot fuel i s = Some k ∧ l !! k = Some 0.
Proof using Harr.
  intros Hf H0. pose proof (slot_spec fuel i Hf) as H. destruct (slot fuel i s); [eauto|done].
Qed.

Lemma find_spec t fuel i :
  (length l ≤ fuel + i)%nat →
  match find fuel i t s with
  | Some k => l !! k = Some t
  | None => t ∉ drop i l
  end.
Proof using Harr Hb.
  revert i. induction fuel as [|fuel IH]; intros i Hf; cbn; rewrite get_array.
  - rewrite drop_ge, lookup_ge_None_2 by lia. cbn. apply not_elem_of_nil.
  - destruct (l !! i) as [v|] eqn:Hv; cbn.
    + pose proof (lookup_lt_Some _ _ _ Hv). rewrite Hb. unfold zlen.
      rewrite (proj2 (Z.ltb_lt (Z.of_nat i) _)) by lia. rewrite andb_true_r.
      destruct (v =? t) eqn:Ev; zbool; cbn; [by subst|]. specialize (IH (S i) ltac:(lia)).
      destruct (find fuel (S i) t s); [done|]. rewrite (drop_S l v i Hv), not_elem_of_cons. auto.
    + rewrite drop_ge; [apply not_elem_of_nil|by apply lookup_ge_None].
Qed.

End scans.

(** With no array every scan reads through NULL. *)
Lemma scans_null s t fuel :
  array s = None → 0 < bottom s →
  listed (S fuel) 0 t s = None ∧ slot fuel 0 s = None ∧ find fuel 0 t s = None.
Proof.
  intros Ha Hb.
  assert (get 0 s = None) as Hg by (unfold get; by rewrite Ha).
  split_and!.
  - cbn. rewrite (proj2 (Z.ltb_lt 0 _)) by done. by rewrite Hg.
  - destruct fuel; cbn; by rewrite Hg.
  - destruct fuel; cbn; by rewrite Hg.
Qed.

Lemma grow_undefined s e l :
  array s = Some l → bottom s = zlen l → e_alloc e = true → grow e s = None.
Proof.
  intros Ha Hb He. unfold grow, get. rewrite Ha, He. cbn.
  rewrite lookup_ge_None_2; [done|]. rewrite length_take, length_app. cbn. unfold zlen in Hb. lia.
Qed.

(** ** Invariant *)

Definition stopped (x : target) : Prop :=
  (at_ x = Flagged ∨ at_ x = Suspended) ∧ pending x = false.

Record inv (s : sys) : Prop := {
  inv_shape : if inited s then bottom s = 10 ∧ ∀ l, array s = Some l → length l = 10%nat
              else array s = None ∧ bottom s = 0;
  inv_distinct : ∀ i j v, entries s !! i = Some v → entries s !! j = Some v → v ≠ 0 → i = j;
  inv_stopped : ∀ t, t ∈ entries s → t ≠ 0 → ∃ x, threads s !! t = Some x ∧ stopped x;
  inv_handler : ∀ t x, threads s !! t = Some x → at_ x = Entered ∨ pending x = true →
    (∃ i, spin s = Some (t, i)) ∧ (at_ x = Entered → pending x = false);
  inv_spin : ∀ t i, spin s = Some (t, i) →
    entries s !! i = Some 0 ∧ (t ∉ entries s) ∧ t ≠ 0 ∧
    (sentinel s ≠ 0 → ∃ x, threads s !! t = Some x ∧ stopped x)
}.

Lemma inv_ret st s : inv s → spin s = None → inv (ret st s).
Proof. intros [] Hs. constructor; try done. cbn. by rewrite <- Hs. Qed.

Lemma inv_bad s : inv s → inv (bad s).
Proof. by intros []. Qed.

(** The part of thd_suspend before the scans: after it the package is set up. *)
Definition prepared (e : env) (s : sys) : sys := if inited s then s else suspend_init_routine e s.

Lemma inv_prepared e s : inv s → spin s = None → inv (prepared e s) ∧ inited (prepared e s) = true ∧
  bottom (prepared e s) = 10 ∧ spin (prepared e s) = None.
Proof.
  intros Hinv Hs. unfold prepared. destruct (inited s) eqn:Hi.
  { pose proof (inv_shape _ Hinv) as H. rewrite Hi in H. by destruct H. }
  split_and!; try done. destruct Hinv. unfold suspend_init_routine.
  assert (∀ v, v ∈ entries (with_array (if e_alloc e then Some (zeros 10) else None) 10 true s) → v = 0) as Hz.
  { unfold entries. cbn. destruct (e_alloc e); cbn; [|by intros v ?%elem_of_nil].
    intros v [i Hv]%list_elem_of_lookup. by apply (lookup_replicate 10 0) in Hv as [-> _]. }
  constructor; cbn [inited bottom array threads spin sentinel with_array]; try done.
  - split; [done|]. destruct (e_alloc e); [|done]. by intros l [= <-].
  - intros i j v Hv _ Hne. destruct Hne. apply Hz. by apply list_elem_of_lookup_2 in Hv.
  - intros t Ht Hne. destruct Hne. by apply Hz.
  - intros t i. rewrite Hs. done.
Qed.

Lemma entries_array s l : array s = Some l → entries s = l.
Proof. unfold entries. by intros ->. Qed.

Lemma inv_bottom s l : inv s → array s = Some l → bottom s = zlen l ∧ length l = 10%nat ∧ inited s = true.
Proof.
  intros Hinv Ha. pose proof (inv_shape _ Hinv) as H. destruct (inited s).
  - destruct H as [Hb Hl]. specialize (Hl l Ha). unfold zlen. rewrite Hl, Hb. done.
  - destruct H. congruence.
Qed.

(** SIGUSR1 sent: thd_suspend waits for the sentinel. *)
Lemma inv_suspend_kill s l t i x :
  inv s → array s = Some l → spin s = None → (t ∉ l) → l !! i = Some 0 → threads s !! t = Some x →
  inv (Sys (array s) (bottom s) (inited s) 0 (<[t := sigusr1 x]> (threads s)) (Some (t, i)) (calls s)
           (statuses s) (undefined s)).
Proof.
  intros [] Ha Hs Hnin Hi Hx. rewrite (entries_array s l Ha) in *.
  assert (t ≠ 0) as Ht.
  { intros ->. apply Hnin. by eapply list_elem_of_lookup_2. }
  assert (pending x = false ∧ at_ x ≠ Entered) as [Hp He].
  { split.
    - destruct (pending x) eqn:E; [|done]. destruct (inv_handler0 t x Hx) as [[? ?] _]; [auto|congruence].
    - intros E. destruct (inv_handler0 t x Hx) as [[? ?] _]; [auto|congruence]. }
  constructor; cbn [inited bottom array threads spin sentinel]; unfold entries; cbn; rewrite ?Ha; try done.
  - by rewrite Ha in inv_shape0.
  - intros t' Ht' Hne. destruct (inv_stopped0 t' Ht' Hne) as (y&Hy&?). exists y.
    rewrite lookup_insert_ne; [done|]. by intros ->.
  - intros t' y Hy Hor. destruct (decide (t' = t)) as [->|Hne].
    + rewrite lookup_insert_eq in Hy. injection Hy as <-. split; [eauto|].
      unfold sigusr1 in *. destruct (at_ x); cbn; try done.
    + rewrite lookup_insert_ne in Hy by done.
      destruct (inv_handler0 t' y Hy Hor) as [[? ?] _]. congruence.
  - intros t' i' [= <- <-]. by split_and!.
Qed.

Lemma inv_suspend_end e t i s s' :
  inv s → spin s = Some (t, i) → suspend_end e t i s = Some s' → inv s' ∧ undefined s' = undefined s ∧
  array s' = Some (<[i := t]> (entries s)) ∧ array s = Some (entries s).
Proof.
  intros Hinv Hs. unfold suspend_end. destruct (sentinel s =? 0) eqn:Hse; [done|]. zbool.
  pose proof Hinv as []. destruct (inv_spin0 t i Hs) as (Hi&Hnin&Ht&Hst).
  destruct (Hst Hse) as (x&Hx&Hstop).
  assert (array s = Some (entries s)) as Ha.
  { unfold entries in *. destruct (array s); [done|]. done. }
  unfold get. rewrite Ha. cbn. rewrite Hi. intros [= <-].
  set (s' := ret _ _).
  assert (array s' = Some (<[i := t]> (entries s))) as Ha' by (cbn; done).
  split_and!; try done.
  assert (entries s' = <[i := t]> (entries s)) as He by by apply entries_array.
  pose proof (lookup_lt_Some _ _ _ Hi) as Hlt.
  constructor; rewrite ?He; cbn [inited bottom array threads spin sentinel s' ret with_array]; try done.
  - destruct (inited s); [|by destruct inv_shape0; congruence]. destruct inv_shape0 as [? Hl].
    split; [done|]. intros l [= <-]. rewrite length_insert. by apply Hl.
  - intros j k v. rewrite !list_lookup_insert_Some.
    intros [(?&?&_)|[Hj Hv]] [(?&?&_)|[Hk Hv']] Hne; subst; try done.
    + destruct Hnin. by eapply list_elem_of_lookup_2.
    + destruct Hnin. by eapply list_elem_of_lookup_2.
    + by eapply inv_distinct0.
  - intros t' [j Hj]%list_elem_of_lookup Hne.
    apply list_lookup_insert_Some in Hj as [(_&->&_)|[_ Hj]]; [by eauto|].
    apply inv_stopped0; [|done]. by eapply list_elem_of_lookup_2.
  - intros t' y Hy Hor. destruct (inv_handler0 t' y Hy Hor) as [[j Hj] _]. rewrite Hs in Hj.
    injection Hj as <- <-. rewrite Hx in Hy. injection Hy as <-. destruct Hstop as [[E|E] E'];
      rewrite E, E' in Hor; by destruct Hor.
Qed.

(** SIGUSR2 sent and the entry cleared *)
Lemma inv_continue_kill st s l t i x :
  inv s → array s = Some l → spin s = None → l !! i = Some t → threads s !! t = Some x →
  inv (ret st (with_array (<[i := 0]> <$> array s) (bottom s) (inited s)
    (with_threads (<[t := sigusr2 x]> (threads s)) s))).
Proof.
  intros [] Ha Hs Hi Hx. set (s' := ret _ _). rewrite (entries_array s l Ha) in *.
  assert (entries s' = <[i := 0]> l) as He by (unfold entries; cbn; by rewrite Ha).
  assert (pending x = false ∧ at_ x ≠ Entered) as [Hp Hx'].
  { split.
    - destruct (pending x) eqn:E; [|done]. destruct (inv_handler0 t x Hx) as [[? ?] _]; [auto|congruence].
    - intros E. destruct (inv_handler0 t x Hx) as [[? ?] _]; [auto|congruence]. }
  pose proof (lookup_lt_Some _ _ _ Hi) as Hlt.
  constructor; rewrite ?He; cbn [inited bottom array threads spin sentinel s' ret with_array with_threads];
    rewrite ?Ha; cbn; try done.
  - destruct (inited s); [|by destruct inv_shape0; congruence]. destruct inv_shape0 as [? Hl].
    split; [done|]. intros l' [= <-]. rewrite length_insert. by apply Hl.
  - intros j k v. rewrite !list_lookup_insert_Some.
    intros [(?&?&_)|[Hj Hv]] [(?&?&_)|[Hk Hv']] Hne; subst; try done. by eapply inv_distinct0.
  - intros t' [j Hj]%list_elem_of_lookup Hne.
    apply list_lookup_insert_Some in Hj as [(_&E&_)|[Hji Hj]]; [by destruct Hne|].
    assert (t' ≠ t) as Htt by (intros ->; destruct Hji; by eapply inv_distinct0).
    rewrite lookup_insert_ne by done. apply inv_stopped0; [|done]. by eapply list_elem_of_lookup_2.
  - intros t' y Hy Hor. destruct (decide (t' = t)) as [->|Hne].
    + rewrite lookup_insert_eq in Hy. injection Hy as <-. unfold sigusr2 in Hor. rewrite Hp in Hor.
      destruct (at_ x) eqn:E; cbn in Hor; rewrite ?E, ?Hp in Hor; naive_solver.
    + rewrite lookup_insert_ne in Hy by done.
      destruct (inv_handler0 t' y Hy Hor) as [[? ?] _]. congruence.
Qed.

Lemma inv_signal_handler t s s' :
  inv s → suspend_signal_handler t s = Some s' → inv s' ∧ undefined s' = undefined s.
Proof.
  intros [] . unfold suspend_signal_handler. destruct (threads s !! t) as [x|] eqn:Hx; [|done]. cbn.
  destruct (at_ x) eqn:Hat; try done; intros [= <-]; (split; [|done]).
  - destruct (inv_handler0 t x Hx) as [[i Hs] Hp]; [by left|]. specialize (Hp Hat).
    destruct (inv_spin0 t i Hs) as (Hi&Hnin&Ht&_).
    constructor; cbn; try done.
    + intros t' Ht' Hne. destruct (inv_stopped0 t' Ht' Hne) as (y&?&?). exists y.
      rewrite lookup_insert_ne; [done|]. by intros ->.
    + intros t' y Hy Hor. destruct (decide (t' = t)) as [->|Hne].
      * rewrite lookup_insert_eq in Hy. injection Hy as <-. cbn in *. rewrite Hp in Hor. by destruct Hor.
      * rewrite lookup_insert_ne in Hy by done. by apply inv_handler0.
    + intros t' i' Hs'. rewrite Hs in Hs'. injection Hs' as <- <-. split_and!; try done. intros _.
      eexists. rewrite lookup_insert_eq. split; [done|]. split; [by left|done].
  - constructor; cbn; try done.
    + intros t' Ht' Hne. destruct (inv_stopped0 t' Ht' Hne) as (y&Hy&Hst).
      destruct (decide (t' = t)) as [->|].
      * exists (Target Suspended (pending x)). rewrite lookup_insert_eq. split; [done|].
        rewrite Hx in Hy. injection Hy as <-. destruct Hst. split; [by right|done].
      * exists y. by rewrite lookup_insert_ne.
    + intros t' y Hy Hor. destruct (decide (t' = t)) as [->|Hne].
      * rewrite lookup_insert_eq in Hy. injection Hy as <-. cbn in *. destruct Hor as [?|Hor]; [done|].
        destruct (inv_handler0 t x Hx) as [Hs _]; [by right|]. by split.
      * rewrite lookup_insert_ne in Hy by done. by apply inv_handler0.
    + intros t' i' Hs'. destruct (inv_spin0 t' i' Hs') as (?&?&?&Hst). split_and!; try done.
      intros Hse. destruct (Hst Hse) as (y&Hy&Hsy). destruct (decide (t' = t)) as [->|].
      * eexists. rewrite lookup_insert_eq. split; [done|]. rewrite Hx in Hy. injection Hy as <-.
        destruct Hsy. split; [by right|done].
      * exists y. by rewrite lookup_insert_ne.
Qed.

(** ** What the calls do *)

Definition clear_sentinel (s : sys) : sys :=
  Sys (array s) (bottom s) (inited s) 0 (threads s) (spin s) (calls s) (statuses s) (undefined s).

Inductive suspend_result (e : env) (t : Z) (s s' : sys) : Prop :=
| sr_once : e_once e ≠ 0 → s' = ret (e_once e) s → suspend_result e t s s'
| sr_lock : e_once e = 0 → e_lock e ≠ 0 → s' = ret (e_lock e) (prepared e s) → suspend_result e t s s'
| sr_bad : e_once e = 0 → e_lock e = 0 → t ∉ entries (prepared e s) → 0 ∉ entries (prepared e s) →
    s' = bad (prepared e s) → suspend_result e t s s'
| sr_listed : t ∈ entries (prepared e s) → s' = ret (e_unlock e) (prepared e s) →
    suspend_result e t s s'
| sr_kill : e_kill e ≠ 0 → 0 ∈ entries (prepared e s) → s' = ret (e_kill e) (clear_sentinel (prepared e s)) → suspend_result e t s s'
| sr_spin l i x : array (prepared e s) = Some l → t ∉ l → l !! i = Some 0 → threads s !! t = Some x →
    s' = (let s1 := prepared e s in
          Sys (array s1) (bottom s1) (inited s1) 0 (<[t := sigusr1 x]> (threads s1)) (Some (t, i))
              (calls s1) (statuses s1) (undefined s1)) → suspend_result e t s s'.

Lemma prepared_threads e s : threads (prepared e s) = threads s ∧ undefined (prepared e s) = undefined s ∧
  calls (prepared e s) = calls s ∧ statuses (prepared e s) = statuses s.
Proof. unfold prepared. by destruct (inited s). Qed.

Lemma suspend_cases e t s s' :
  inv s → spin s = None → thd_suspend e t s = Some s' → suspend_result e t s s'.
Proof.
  intros Hinv Hsp. unfold thd_suspend. destruct (e_once e =? 0) eqn:Eo; zbool; cbn [negb];
    [|intros [= <-]; by apply sr_once].
  change (if inited s then s else suspend_init_routine e s) with (prepared e s).
  destruct (e_lock e =? 0) eqn:El; zbool; cbn [negb]; [|intros [= <-]; by apply sr_lock].
  destruct (inv_prepared e s Hinv Hsp) as (Hi1&Hin1&Hb1&Hs1).
  destruct (prepared_threads e s) as (Ht1&_). set (s1 := prepared e s) in *.
  destruct (array s1) as [l|] eqn:Ha.
  2: { destruct (scans_null s1 t (Z.to_nat (bottom s1)) Ha) as (E&_&_); [lia|].
       unfold scan_fuel. rewrite E. intros [= <-].
       apply sr_bad; try done; unfold entries; fold s1; rewrite Ha; apply not_elem_of_nil. }
  destruct (inv_bottom s1 l Hi1 Ha) as (Hbl&Hl&_).
  assert (entries s1 = l) as Hent by by apply entries_array.
  assert (length l ≤ scan_fuel s1 + 0)%nat as Hfuel by (unfold scan_fuel; lia).
  rewrite (listed_spec s1 l Ha Hbl t _ _ Hfuel). case_bool_decide as Hin; rewrite drop_0 in Hin.
  { intros [= <-]. apply sr_listed; [|done]. fold s1. by rewrite Hent. }
  pose proof (slot_spec s1 l Ha _ _ Hfuel) as Hsl.
  destruct (slot (scan_fuel s1) 0 s1) as [i|] eqn:Esl.
  2: { intros [= <-]. apply sr_bad; try done; fold s1; by rewrite Hent. }
  pose proof (lookup_lt_Some _ _ _ Hsl) as Hlt.
  rewrite (proj2 (Z.eqb_neq (Z.of_nat i) (bottom s1))) by lia.
  destruct (e_kill e =? 0) eqn:Ek; zbool; cbn [negb]; [|intros [= <-]; apply sr_kill; try done; fold s1; rewrite Hent; by eapply list_elem_of_lookup_2].
  unfold pthread_kill. cbn. rewrite Ht1. destruct (threads s !! t) as [x|] eqn:Hx; [|done]. cbn.
  intros [= <-]. eapply (sr_spin _ _ _ _ l i x); try done. cbn zeta. fold s1. by rewrite Ht1.
Qed.

Inductive continue_result (e : env) (t : Z) (s s' : sys) : Prop :=
| cr_error st : e_lock e ≠ 0 ∧ st = e_lock e ∨ e_kill e ≠ 0 ∧ st = e_kill e ∧ t ∈ entries s →
    s' = ret st s →
    continue_result e t s s'
| cr_first : e_lock e = 0 → inited s = false → s' = ret (e_unlock e) s → continue_result e t s s'
| cr_bad : e_lock e = 0 → inited s = true → t ∉ entries s → s' = bad s → continue_result e t s s'
| cr_done l i x : array s = Some l → l !! i = Some t → threads s !! t = Some x →
    s' = ret (e_unlock e) (with_array (<[i := 0]> <$> array s) (bottom s) (inited s)
           (with_threads (<[t := sigusr2 x]> (threads s)) s)) → continue_result e t s s'.

Lemma continue_cases e t s s' :
  inv s → thd_continue e t s = Some s' → continue_result e t s s'.
Proof.
  intros Hinv. unfold thd_continue. destruct (e_lock e =? 0) eqn:El; zbool; cbn [negb];
    [|intros [= <-]; eapply cr_error; [|done]; by left].
  destruct (inited s) eqn:Hin; cbn [negb]; [|intros [= <-]; by apply cr_first].
  pose proof (inv_shape _ Hinv) as Hshape. rewrite Hin in Hshape. destruct Hshape as [Hb _].
  destruct (array s) as [l|] eqn:Ha.
  2: { destruct (scans_null s t (scan_fuel s) Ha) as (_&_&->); [lia|]. intros [= <-].
       apply cr_bad; try done. unfold entries. rewrite Ha. apply not_elem_of_nil. }
  destruct (inv_bottom s l Hinv Ha) as (Hbl&Hl&_).
  assert (length l ≤ scan_fuel s + 0)%nat as Hfuel by (unfold scan_fuel; lia).
  pose proof (find_spec s l Ha Hbl t _ _ Hfuel) as Hf.
  destruct (find (scan_fuel s) 0 t s) as [i|].
  2: { intros [= <-]. apply cr_bad; try done. by rewrite (entries_array s l Ha). }
  pose proof (lookup_lt_Some _ _ _ Hf) as Hlt.
  rewrite (proj2 (Z.leb_gt (bottom s) (Z.of_nat i))) by lia.
  destruct (e_kill e =? 0) eqn:Ek; zbool; cbn [negb];
    [|intros [= <-]; eapply cr_error; [right; split_and!; [done..|]|done];
      rewrite (entries_array s l Ha); by eapply list_elem_of_lookup_2].
  unfold pthread_kill. destruct (threads s !! t) as [x|] eqn:Hx; [|done]. cbn.
  intros [= <-]. eapply (cr_done _ _ _ _ l i x); try done.
Qed.

Definition popped (cs : list op) (s : sys) : sys :=
  Sys (array s) (bottom s) (inited s) (sentinel s) (threads s) None cs (statuses s) (undefined s).

Lemma inv_popped cs s : inv s → spin s = None → inv (popped cs s).
Proof. intros [] Hs. constructor; try done. cbn. by rewrite <- Hs. Qed.

(** The cases of [step] *)
Lemma step_cases s ev s' :
  step s ev = Some s' →
  undefined s = false ∧
  match ev with
  | ECall e =>
      spin s = None ∧ ∃ c cs, calls s = c :: cs ∧
        match c with
        | Suspend t => thd_suspend e t (popped cs s) = Some s'
        | Continue t => thd_continue e t (popped cs s) = Some s'
        end
  | EEnd e => ∃ t i, spin s = Some (t, i) ∧ suspend_end e t i s = Some s'
  | EHandler t => suspend_signal_handler t s = Some s'
  end.
Proof.
  unfold step, popped. intros H. destruct (undefined s); [done|]. split; [done|].
  destruct ev as [e|e|t]; [| |done].
  - destruct (spin s); [done|]. destruct (calls s) as [|c cs]; [done|].
    split; [done|]. exists c, cs. split; [done|]. by destruct c.
  - destruct (spin s) as [[t i]|]; [|done]. eauto.
Qed.

Lemma susp_inv_step s ev s' : inv s → step s ev = Some s' → inv s'.
Proof.
  intros Hinv [_ H]%step_cases. destruct ev as [e|e|t].
  - destruct H as (Hs&c&cs&_&Hst).
    assert (inv (popped cs s)) as Hi by by apply inv_popped. destruct c as [t|t].
    + destruct (inv_prepared e _ Hi eq_refl) as (Hp&_&_&Hsp).
      destruct (suspend_cases e t _ _ Hi eq_refl Hst) as [_ ->|_ _ ->|_ _ _ _ ->|_ ->|_ _ ->|l i x Ha Hn Hl Hx ->].
      * by apply inv_ret.
      * by apply inv_ret.
      * by apply inv_bad.
      * by apply inv_ret.
      * apply inv_ret; [|done]. destruct Hp. constructor; try done. cbn. by rewrite Hsp.
      * cbn zeta. apply (inv_suspend_kill _ l); try done.
        by rewrite (proj1 (prepared_threads e (popped cs s))).
    + destruct (continue_cases e t _ _ Hi Hst) as [st _ ->|_ _ ->|_ _ _ ->|l i x Ha Hl Hx ->].
      * by apply inv_ret.
      * by apply inv_ret.
      * by apply inv_bad.
      * by eapply inv_continue_kill.
  - destruct H as (t&i&Hs&Hst). by eapply inv_suspend_end.
  - by eapply inv_signal_handler.
Qed.

Lemma susp_inv_initial ids cs : inv (initial ids cs).
Proof.
  constructor; try done; cbn.
  - by intros t ?%elem_of_nil.
  - intros t x Hx. apply elem_of_list_to_map_2, list_elem_of_fmap in Hx as (t'&[= -> ->]&_).
    by intros [?|?].
Qed.

(** ** The array as a set of threads *)

Definition apply_op (X : gset Z) (c : op) : gset Z :=
  match c with Suspend t => {[t]} ∪ X | Continue t => X ∖ {[t]} end.
Definition exec (cs : list op) : gset Z := foldl apply_op ∅ cs.

Definition target_of (c : op) : Z := match c with Suspend t | Continue t => t end.

(** Steps in which every call outside the source succeeds *)
Definition calm_step (s : sys) (ev : event) : option sys :=
  match ev with
  | ECall _ => step s (ECall calm)
  | EEnd _ => step s (EEnd calm)
  | EHandler t => step s (EHandler t)
  end.

Definition current (s : sys) : list op :=
  match spin s with Some (t, _) => [Suspend t] | None => [] end.

(** [done] have returned; the array holds the threads they left suspended. *)
Record refines (cs don : list op) (s : sys) : Prop := {
  ref_calls : cs = don ++ current s ++ calls s;
  ref_set : ∀ t, t ∈ exec don ↔ t ≠ 0 ∧ t ∈ entries s;
  ref_status : Forall (λ st, st = 0) (statuses s);
  ref_array : inited s = true → is_Some (array s)
}.

Lemma exec_snoc cs c : exec (cs ++ [c]) = apply_op (exec cs) c.
Proof. unfold exec. by rewrite foldl_app. Qed.

Lemma prepared_calm s :
  inv s → (inited s = true → is_Some (array s)) →
  (∀ t, t ≠ 0 → t ∈ entries (prepared calm s) ↔ t ∈ entries s) ∧ is_Some (array (prepared calm s)).
Proof.
  intros Hinv Ha. unfold prepared. destruct (inited s) eqn:Hi; [by eauto|]. split; [|by eexists].
  intros t Ht. pose proof (inv_shape _ Hinv) as Hsh. rewrite Hi in Hsh. destruct Hsh as [Hn _].
  unfold entries. rewrite Hn. cbn -[zeros]. split; [|by intros ?%elem_of_nil].
  intros [i Hv]%list_elem_of_lookup. by apply (lookup_replicate 10 0) in Hv as [-> _].
Qed.

Lemma entries_insert (l : list Z) i v t :
  (i < length l)%nat → (∀ j, l !! j = l !! i → l !! i ≠ Some 0 → j = i) →
  t ≠ 0 → t ∈ <[i := v]> l ↔ t = v ∨ t ∈ l ∧ l !! i ≠ Some t.
Proof.
  intros Hi Hd Ht. rewrite !list_elem_of_lookup. setoid_rewrite list_lookup_insert_Some. split.
  - intros [j [(_&->&_)|[Hne Hj]]]; [by left|]. right. split; [eauto|]. intros Hl.
    apply Hne. symmetry. apply Hd; congruence.
  - intros [->|[[j Hj] Hl]]; [exists i; by left|]. exists j. right. split; [|done]. by intros ->.
Qed.

Lemma refines_suspend cs don s t cs' s' :
  inv s → spin s = None → refines cs don s → calls s = Suspend t :: cs' → t ≠ 0 →
  thd_suspend calm t (popped cs' s) = Some s' → undefined s' = false →
  ∃ don', refines cs don' s'.
Proof.
  intros Hinv Hs [Hc Hset Hst Har] Hcs Ht Hsus Hu.
  assert (inv (popped cs' s)) as Hi by by apply inv_popped.
  destruct (prepared_calm (popped cs' s) Hi Har) as [Hent Hsome].
  destruct (prepared_threads calm (popped cs' s)) as (_&_&Ecs&Est).
  destruct (inv_prepared calm _ Hi eq_refl) as (_&_&_&Esp).
  unfold current in Hc. rewrite Hs, Hcs in Hc. cbn in Hc.
  destruct (suspend_cases calm t _ _ Hi eq_refl Hsus) as [| | |Hin ->| |l i x Ha Hn Hl Hx ->]; try done.
  - by subst.
  - exists (don ++ [Suspend t]). unfold current. constructor; cbn; rewrite ?Ecs, ?Est.
    + by rewrite <- app_assoc.
    + intros t'. rewrite exec_snoc. cbn. rewrite elem_of_union, elem_of_singleton, Hset.
      change (entries (ret 0 (prepared calm (popped cs' s)))) with (entries (prepared calm (popped cs' s))).
      destruct (decide (t' = 0)) as [->|Ht']; [naive_solver|]. rewrite Hent by done.
      apply Hent in Hin; [|done]. naive_solver.
    + apply Forall_app. by repeat constructor.
    + done.
  - exists don. cbn zeta. unfold current. constructor; cbn; rewrite ?Ecs, ?Est; try done.
    intros t'. rewrite Hset. destruct (decide (t' = 0)) as [->|Ht']; [naive_solver|].
    rewrite <- (Hent t') by done. by unfold entries.
Qed.

Lemma refines_end cs don s t i s' :
  inv s → refines cs don s → spin s = Some (t, i) → suspend_end calm t i s = Some s' →
  ∃ don', refines cs don' s'.
Proof.
  intros Hinv [Hc Hset Hst Har] Hs Hend.
  destruct (inv_suspend_end calm t i s s' Hinv Hs Hend) as (_&_&Ha'&Ha).
  destruct (inv_spin _ Hinv t i Hs) as (Hi&Hnin&Ht&_).
  exists (don ++ [Suspend t]). unfold current in Hc. rewrite Hs in Hc.
  unfold suspend_end in Hend. destruct (sentinel s =? 0); [done|].
  unfold get in Hend. rewrite Ha in Hend. cbn in Hend. rewrite Hi in Hend.
  assert (calls s' = calls s ∧ spin s' = None ∧ statuses s' = statuses s ++ [0]) as (Ec&Es&Est)
    by by injection Hend as <-.
  clear Hend. constructor; unfold current; rewrite ?Ec, ?Es, ?Est.
  - by rewrite Hc, <- app_assoc.
  - intros t'. rewrite exec_snoc. cbn. rewrite elem_of_union, elem_of_singleton, Hset.
    rewrite (entries_array _ _ Ha'). destruct (decide (t' = 0)) as [->|Ht']; [naive_solver|].
    rewrite entries_insert; [|by eapply lookup_lt_Some|by rewrite Hi|done]. rewrite Hi. naive_solver.
  - apply Forall_app. by repeat constructor.
  - intros _. rewrite Ha'. by eexists.
Qed.

Lemma refines_continue cs don s t cs' s' :
  inv s → spin s = None → refines cs don s → calls s = Continue t :: cs' → t ≠ 0 →
  thd_continue calm t (popped cs' s) = Some s' → undefined s' = false →
  ∃ don', refines cs don' s'.
Proof.
  intros Hinv Hs [Hc Hset Hst Har] Hcs Ht Hcon Hu.
  assert (inv (popped cs' s)) as Hi by by apply inv_popped.
  unfold current in Hc. rewrite Hs, Hcs in Hc. cbn in Hc. exists (don ++ [Continue t]).
  destruct (continue_cases calm t _ _ Hi Hcon) as [st [[? _]|[? _]] _|_ Hin ->|_ _ _ ->|l i x Ha Hl Hx ->];
    try done; unfold current; (constructor; [by rewrite Hc, <- app_assoc| | |]);
    try (cbn; apply Forall_app; by repeat constructor).
  - intros t'. rewrite exec_snoc. cbn. rewrite elem_of_difference, elem_of_singleton, Hset.
    change (entries (ret 0 (popped cs' s))) with (entries s).
    pose proof (inv_shape _ Hinv) as Hsh. cbn in Hin. rewrite Hin in Hsh. destruct Hsh as [Hn _].
    unfold entries. rewrite Hn. cbn. rewrite elem_of_nil. naive_solver.
  - done.
  - cbn in Ha, Hl. intros t'. rewrite exec_snoc. cbn [apply_op].
    rewrite elem_of_difference, elem_of_singleton, Hset, (entries_array s l Ha).
    set (s1 := ret _ _). assert (entries s1 = <[i := 0]> l) as ->.
    { unfold entries. cbn. by rewrite Ha. }
    destruct (decide (t' = 0)) as [->|Ht']; [naive_solver|].
    pose proof (inv_distinct _ Hinv) as Hd. rewrite (entries_array s l Ha) in Hd.
    rewrite entries_insert; [|by eapply lookup_lt_Some| |done].
    + rewrite Hl. naive_solver.
    + intros j Hj _. rewrite Hl in Hj. by eapply Hd.
  - cbn in *. rewrite Ha. cbn. by eexists.
Qed.

Lemma refines_step cs don s ev s' :
  Forall (λ c, target_of c ≠ 0) cs → inv s → refines cs don s →
  calm_step s ev = Some s' → undefined s' = false → ∃ don', refines cs don' s'.
Proof.
  intros Hnz Hinv Href Hst Hu. assert (∀ c cs', calls s = c :: cs' → target_of c ≠ 0) as Htc.
  { intros c cs' E. destruct Href as [Hc]. rewrite Hc, E, !Forall_app, Forall_cons in Hnz. by destruct Hnz as (_&_&?&_). }
  destruct ev as [e|e|t]; apply step_cases in Hst as [_ H].
  - destruct H as (Hs&c&cs'&Hcs&H). specialize (Htc c cs' Hcs).
    destruct c; [by eapply refines_suspend|by eapply refines_continue].
  - destruct H as (t&i&Hs&H). by eapply refines_end.
  - exists don. destruct Href as [Hc Hset Hss Har]. unfold suspend_signal_handler in H.
    destruct (threads s !! t) as [x|]; [|done]. cbn in H.
    destruct (at_ x); try done; injection H as <-; by constructor.
Qed.

Lemma refines_reachable ids cs s :
  Forall (λ c, target_of c ≠ 0) cs → reachable (.= initial ids cs) calm_step s →
  inv s ∧ (undefined s = false → ∃ don, refines cs don s).
Proof.
  intros Hnz. induction 1 as [s ->|s ev s' Hr [Hinv Href] Hst].
  - split; [apply susp_inv_initial|]. intros _. exists []. constructor; try done; cbn.
    intros t. rewrite elem_of_nil. set_solver.
  - assert (undefined s = false) as Hu.
    { destruct ev; apply step_cases in Hst as [? _]; done. }
    destruct (Href Hu) as [don Hd]. split.
    + destruct ev; by eapply susp_inv_step.
    + intros Hu'. by eapply refines_step.
Qed.

(** The calls that access an element outside the array *)
Definition leaves_array (s : sys) (ev : event) : Prop :=
  match ev, calls s with
  | ECall e, Suspend t :: _ =>
      e_once e = 0 ∧ e_lock e = 0 ∧ (t ∉ entries (prepared e s)) ∧ (0 ∉ entries (prepared e s))
  | ECall e, Continue t :: _ => e_lock e = 0 ∧ inited s = true ∧ (t ∉ entries s)
  | _, _ => False
  end.

Lemma leaves_array_step s ev s' :
  inv s → step s ev = Some s' → (undefined s' = true ↔ leaves_array s ev).
Proof.
  intros Hinv Hst. unfold leaves_array.
  apply step_cases in Hst as [Hu H]. destruct ev as [e|e|t].
  - destruct H as (Hs&c&cs'&->&H). assert (inv (popped cs' s)) as Hi by by apply inv_popped.
    destruct c as [t|t].
    + destruct (prepared_threads e (popped cs' s)) as (_&Eu&_). cbn in Eu.
      assert (entries (prepared e s) = entries (prepared e (popped cs' s))) as ->.
      { unfold prepared. cbn. by destruct (inited s). }
      destruct (suspend_cases e t _ _ Hi eq_refl H) as
        [Ho ->|Ho Hl ->|Ho Hl Hn H0 ->|Hin ->|Hk H0 ->|l i x Ha Hn Hl Hx ->]; cbn; rewrite ?Eu, ?Hu.
      * split; naive_solver.
      * split; naive_solver.
      * split; naive_solver.
      * split; naive_solver.
      * split; naive_solver.
      * split; [done|]. intros (_&_&_&H0). destruct H0. rewrite (entries_array _ _ Ha).
        by eapply list_elem_of_lookup_2.
    + destruct (continue_cases e t _ _ Hi H) as [st Hor ->|Hl Hin ->|Hl Hin Hn ->|l i x Ha Hl Hx ->];
        cbn; rewrite ?Hu.
      * split; [done|]. intros (?&_&?). by destruct Hor as [[? _]|(_&_&?)].
      * cbn in Hin. rewrite Hin. split; naive_solver.
      * cbn in Hin. rewrite Hin. split; naive_solver.
      * split; [done|]. intros (_&_&Hn). destruct Hn. rewrite (entries_array s l Ha).
        by eapply list_elem_of_lookup_2.
  - destruct H as (t&i&Hs&H). destruct (inv_suspend_end e t i s s' Hinv Hs H) as (_&->&_). rewrite Hu. done.
  - destruct (inv_signal_handler t s s' Hinv H) as [_ ->]. rewrite Hu. done.
Qed.

(** *** Sequences of calls the array can hold *)

Fixpoint fits (X : gset Z) (cs : list op) : bool :=
  match cs with
  | [] => true
  | Suspend t :: cs => (bool_decide (t ∈ X) || (Nat.ltb (size X) 10)) && fits ({[t]} ∪ X) cs
  | Continue t :: cs => bool_decide (t ∈ X) && fits (X ∖ {[t]}) cs
  end.

(** An array without a free entry holds ten threads. *)
Lemma full_size s (X : gset Z) :
  inv s → is_Some (array s) → (0 ∉ entries s) → (∀ t, t ∈ X ↔ t ≠ 0 ∧ t ∈ entries s) → size X = 10%nat.
Proof.
  intros Hinv [l Ha] H0 HX. destruct (inv_bottom s l Hinv Ha) as (_&Hl&_).
  pose proof (inv_distinct _ Hinv) as Hd. rewrite (entries_array s l Ha) in *.
  assert (X = list_to_set l) as ->.
  { apply set_eq. intros t. rewrite HX, elem_of_list_to_set. split; [naive_solver|].
    intros Ht. split; [by intros ->|done]. }
  rewrite size_list_to_set; [done|]. apply NoDup_alt. intros i j v Hi Hj. apply (Hd i j v Hi Hj).
  intros ->. apply H0. by eapply list_elem_of_lookup_2.
Qed.

(** The array is full exactly when ten threads are suspended. *)
Lemma full_iff s (X : gset Z) :
  inv s → is_Some (array s) → (∀ t, t ∈ X ↔ t ≠ 0 ∧ t ∈ entries s) → (0 ∉ entries s) ↔ size X = 10%nat.
Proof.
  intros Hinv Ha HX. split; [intros; by eapply full_size|]. intros Hsz H0.
  destruct Ha as [l Ha]. destruct (inv_bottom s l Hinv Ha) as (_&Hl&_). rewrite (entries_array s l Ha) in *.
  assert (X ⊆ list_to_set l ∖ {[0]}) as Hsub.
  { intros t [Ht ?]%HX. rewrite elem_of_difference, elem_of_list_to_set, elem_of_singleton. done. }
  apply subseteq_size in Hsub. rewrite size_difference, size_singleton in Hsub.
  2: { intros t ->%elem_of_singleton. by rewrite elem_of_list_to_set. }
  assert (size (list_to_set l : gset Z) ≤ length l)%nat; [|lia].
  clear. induction l as [|x l IH]; cbn; [by rewrite size_empty|]. pose proof (size_union_alt {[x]} (list_to_set l : gset Z)) as E.
  rewrite size_singleton in E. pose proof (subseteq_size (list_to_set l ∖ {[x]} : gset Z) (list_to_set l) ltac:(set_solver)). lia.
Qed.

(** When a call of a calm run leaves the array, in terms of the suspended threads *)
Definition over_capacity (X : gset Z) (s : sys) : Prop :=
  match calls s with
  | Suspend t :: _ => (t ∉ X) ∧ size X = 10%nat
  | Continue t :: _ => inited s = true ∧ (t ∉ X)
  | [] => False
  end.

Lemma calm_leaves cs don s s' :
  Forall (λ c, target_of c ≠ 0) cs → inv s → refines cs don s →
  calm_step s (ECall calm) = Some s' → (undefined s' = true ↔ over_capacity (exec don) s).
Proof.
  intros Hnz Hinv Href Hst. rewrite (leaves_array_step _ _ _ Hinv Hst). unfold leaves_array, over_capacity.
  apply step_cases in Hst as [_ (Hs&c&cs'&Hcs&_)]. rewrite Hcs.
  assert (target_of c ≠ 0) as Ht.
  { destruct Href as [Hc]. rewrite Hc, Hcs, !Forall_app, Forall_cons in Hnz. by destruct Hnz as (_&_&?&_). }
  destruct c as [t|t]; cbn [target_of] in Ht.
  - destruct (prepared_calm s Hinv (ref_array _ _ _ Href)) as [Hent Hsome].
    destruct (inv_prepared calm s Hinv Hs) as (Hip&_&_&_).
    assert (∀ u, u ∈ exec don ↔ u ≠ 0 ∧ u ∈ entries (prepared calm s)) as HX.
    { intros u. rewrite (ref_set _ _ _ Href). destruct (decide (u = 0)) as [->|]; [naive_solver|]. by rewrite Hent. }
    rewrite (full_iff _ _ Hip Hsome HX), HX. naive_solver.
  - rewrite (ref_set _ _ _ Href). cbn. naive_solver.
Qed.

Lemma fits_step cs don s ev s' :
  Forall (λ c, target_of c ≠ 0) cs → inv s → refines cs don s →
  fits (exec don) (current s ++ calls s) = true →
  calm_step s ev = Some s' → undefined s' = false.
Proof.
  intros Hnz Hinv Href Hfit Hst.
  destruct ev as [e|e|t]; apply step_cases in Hst as [Hu H].
  - destruct H as (Hs&c&cs'&Hcs&H). unfold current in Hfit. rewrite Hs, Hcs in Hfit. cbn in Hfit.
    assert (inv (popped cs' s)) as Hi by by apply inv_popped. destruct c as [t|t].
    + assert (t ≠ 0) as Ht.
      { destruct Href as [Hc]. rewrite Hc, Hcs, !Forall_app, Forall_cons in Hnz. by destruct Hnz as (_&_&?&_). }
      apply andb_true_iff in Hfit as [Hf _].
      destruct (prepared_calm (popped cs' s) Hi (ref_array _ _ _ Href)) as [Hent Hsome].
      destruct (prepared_threads calm (popped cs' s)) as (_&Eu&_). cbn in Eu.
      destruct (inv_prepared calm _ Hi eq_refl) as (Hip&_&_&_).
      destruct (suspend_cases calm t _ _ Hi eq_refl H) as [| |_ _ Hn H0 _|_ ->| |l i x Ha Hn Hl Hx ->];
        try done; try (cbn; congruence).
      exfalso. assert (∀ t', t' ∈ exec don ↔ t' ≠ 0 ∧ t' ∈ entries (prepared calm (popped cs' s))) as HX.
      { intros t'. rewrite (ref_set _ _ _ Href). destruct (decide (t' = 0)) as [->|]; [naive_solver|].
        by rewrite Hent. }
      apply orb_true_iff in Hf as [Hf|Hf].
      * apply bool_decide_eq_true in Hf. by apply HX in Hf as [_ ?].
      * apply Nat.leb_le in Hf. rewrite (full_size _ _ Hip Hsome H0 HX) in Hf. lia.
    + apply andb_true_iff in Hfit as [Hf%bool_decide_eq_true _]. apply (ref_set _ _ _ Href) in Hf.
      destruct (continue_cases calm t _ _ Hi H) as [st [[? _]|[? _]] _|_ Hin ->|_ _ Hn _|l i x Ha Hl Hx ->];
        try done. by destruct Hf.
  - destruct H as (t&i&Hs&H). by destruct (inv_suspend_end calm t i s s' Hinv Hs H) as (_&->&_).
  - by destruct (inv_signal_handler t s s' Hinv H) as [_ ->].
Qed.

Lemma fits_app X cs cs' : fits X (cs ++ cs') = fits X cs && fits (foldl apply_op X cs) cs'.
Proof.
  revert X. induction cs as [|c cs IH]; intros X; [done|]. destruct c; cbn; by rewrite IH, andb_assoc.
Qed.

Lemma fits_reachable ids cs s :
  Forall (λ c, target_of c ≠ 0) cs → fits ∅ cs = true →
  reachable (.= initial ids cs) calm_step s → undefined s = false.
Proof.
  intros Hnz Hfit. induction 1 as [s ->|s ev s' Hr IH Hst]; [done|].
  destruct (refines_reachable ids cs s Hnz Hr) as [Hinv Href]. destruct (Href IH) as [don Hd].
  eapply fits_step; try done. pose proof (ref_calls _ _ _ Hd) as Hc.
  rewrite Hc, fits_app in Hfit. by apply andb_true_iff in Hfit as [_ ?].
Qed.

(** *** The calls of main *)

Lemma fits_suspends (ids : list Z) (X : gset Z) :
  NoDup ids → (∀ t, t ∈ ids → t ∉ X) → (size X + length ids ≤ 10)%nat →
  fits X (Suspend <$> ids) = true ∧ foldl apply_op X (Suspend <$> ids) = list_to_set ids ∪ X.
Proof.
  intros Hnd. revert X. induction Hnd as [|t ids Ht Hnd IH]; intros X Hdis Hsz; cbn.
  { split; [done|]. by rewrite (left_id_L ∅ (∪)). }
  assert (t ∉ X) by (apply Hdis; by constructor). cbn in Hsz.
  assert (size ({[t]} ∪ X) = S (size X)) as Hs by (rewrite size_union, size_singleton by set_solver; done).
  destruct (IH ({[t]} ∪ X)) as [H1 H2].
  - intros t' Ht'. assert (t' ∉ X) by (apply Hdis; by constructor). set_solver.
  - rewrite Hs. lia.
  - rewrite H1, H2, andb_true_r, (proj2 (Nat.leb_le _ _)), orb_true_r by lia. split; [done|].
    set_solver.
Qed.

Lemma fits_continues (ids : list Z) (X : gset Z) :
  NoDup ids → (∀ t, t ∈ ids → t ∈ X) →
  fits X (Continue <$> ids) = true ∧ foldl apply_op X (Continue <$> ids) = X ∖ list_to_set ids.
Proof.
  intros Hnd. revert X. induction Hnd as [|t ids Ht Hnd IH]; intros X Hin; cbn.
  { split; [done|]. set_solver. }
  destruct (IH (X ∖ {[t]})) as [H1 H2].
  - intros t' Ht'. assert (t' ∈ X) by (apply Hin; by constructor). set_solver.
  - rewrite H1, H2, bool_decide_true by (apply Hin; by constructor). split; [done|]. set_solver.
Qed.

Lemma main_fits ids :
  NoDup ids → length ids = THREAD_COUNT →
  fits ∅ (main_calls ids) = true ∧ exec (main_calls ids) = ∅.
Proof.
  intros Hnd Hlen. unfold exec, main_calls. set (a := take _ ids). set (b := drop _ ids).
  assert (ids = a ++ b) as E by (symmetry; apply take_drop).
  assert (length a = 10%nat ∧ length b = 10%nat) as [La Lb].
  { unfold a, b. rewrite length_take, length_drop, Hlen. done. }
  rewrite E, NoDup_app in Hnd. destruct Hnd as (Na&Hab&Nb).
  assert (∀ l : list Z, NoDup l → length l = 10%nat →
    fits ∅ ((Suspend <$> l) ++ (Continue <$> l)) = true ∧
    foldl apply_op ∅ ((Suspend <$> l) ++ (Continue <$> l)) = ∅) as H.
  { intros l Nl Ll. destruct (fits_suspends l ∅ Nl) as [F1 X1]; [set_solver|rewrite size_empty; lia|].
    destruct (fits_continues l (list_to_set l ∪ ∅) Nl) as [F2 X2]; [set_solver|].
    rewrite fits_app, foldl_app, F1, X1, F2, X2. split; [done|set_solver]. }
  destruct (H a Na La) as [Fa Xa], (H b Nb Lb) as [Fb Xb].
  rewrite (app_assoc (Suspend <$> a)), fits_app, Fa, Xa. split; [done|].
  rewrite foldl_app, Xa. done.
Qed.

(** ** Properties *)

(** C19 (refinement): the array is the set of suspended threads, up to the first call
    that goes outside of it, and which call that is.  In runs in which the calls
    outside the source succeed ([calm_step]), as long as no element outside the
    array has been accessed: the entries are exactly the threads that the calls
    completed so far left suspended (suspending twice counts once, continuing takes
    the thread out), all of them have entered the handler and stay stopped, no
    thread is listed twice, and every call returned 0.  The next call accesses an
    element outside the array exactly when it suspends an eleventh thread, or
    continues a thread that is not suspended after the first thd_suspend. *)
Theorem susp_set ids cs s :
  Forall (λ c, target_of c ≠ 0) cs → reachable (.= initial ids cs) calm_step s →
  undefined s = false →
  ∃ don, cs = don ++ current s ++ calls s ∧
    (∀ t, t ∈ exec don ↔ t ≠ 0 ∧ t ∈ entries s) ∧
    (∀ t, t ∈ exec don → ∃ x, threads s !! t = Some x ∧ stopped x) ∧
    (∀ i j v, entries s !! i = Some v → entries s !! j = Some v → v ≠ 0 → i = j) ∧
    Forall (λ st, st = 0) (statuses s) ∧
    (∀ s', calm_step s (ECall calm) = Some s' → (undefined s' = true ↔ over_capacity (exec don) s)).
Proof.
  intros Hnz Hr Hu. destruct (refines_reachable ids cs s Hnz Hr) as [Hinv Href].
  destruct (Href Hu) as [don Hd]. pose proof Hd as []. exists don. split_and!; try done; [|apply Hinv|].
  - intros t Ht. apply ref_set0 in Ht as [? ?]. by apply Hinv.
  - intros s'. by eapply calm_leaves.
Qed.

(** Suspend 5 twice, then continue it. *)
Definition demo : list event :=
  [ECall calm; EHandler 5; EEnd calm; EHandler 5; ECall calm; ECall calm].

Lemma susp_set_witness : ∃ s don,
  reachable (.= initial [5; 6] [Suspend 5; Suspend 5; Continue 5; Suspend 6]) calm_step s ∧
  [Suspend 5; Suspend 5; Continue 5; Suspend 6] = don ++ current s ++ calls s ∧
  (∀ t, t ∈ exec don ↔ t ≠ 0 ∧ t ∈ entries s) ∧ statuses s = [0; 0; 0].
Proof.
  set (cs := [Suspend 5; Suspend 5; Continue 5; Suspend 6]).
  destruct (run calm_step (initial [5; 6] cs) demo) as [s|] eqn:E; [|vm_compute in E; discriminate E].
  assert (reachable (.= initial [5; 6] cs) calm_step s) as Hr.
  { apply (run_reachable _ _ demo (initial [5; 6] cs)); [by apply reach_init|exact E]. }
  assert (undefined s = false ∧ statuses s = [0; 0; 0]) as [Hu Hst].
  { vm_compute in E. injection E as <-. split; reflexivity. }
  destruct (susp_set [5; 6] cs s) as (don&H1&H2&_); [|exact Hr|exact Hu|].
  - repeat constructor; cbn; lia.
  - exists s, don. split_and!; [exact Hr|exact H1|exact H2|exact Hst].
Defined.

(** Main stays inside the array.  It suspends at most ten of its
    twenty threads at a time and continues only those, so in every interleaving
    with the handlers nothing is undefined, and after its last call the array is
    empty. *)
Theorem susp_main ids s :
  NoDup ids → length ids = THREAD_COUNT → Forall (λ t, t ≠ 0) ids →
  reachable (.= initial ids (main_calls ids)) calm_step s →
  undefined s = false ∧ (calls s = [] → spin s = None → Forall (λ v, v = 0) (entries s)).
Proof.
  intros Hnd Hlen Hz Hr. destruct (main_fits ids Hnd Hlen) as [Hfit Hex].
  assert (Forall (λ c, target_of c ≠ 0) (main_calls ids)) as Hnz.
  { unfold main_calls. rewrite !Forall_app, !Forall_fmap.
    split_and!; (eapply Forall_impl; [by first [apply Forall_take|apply Forall_drop]|done]). }
  assert (undefined s = false) as Hu by by eapply fits_reachable.
  split; [done|]. intros Hc Hs.
  destruct (refines_reachable ids _ s Hnz Hr) as [_ Href]. destruct (Href Hu) as [don []].
  unfold current in ref_calls0. rewrite Hs, Hc, !app_nil_r in ref_calls0. subst don.
  apply Forall_forall. intros v Hv. destruct (decide (v = 0)); [done|].
  assert (v ∈ exec (main_calls ids)) as Hin by by apply ref_set0. rewrite Hex in Hin. set_solver.
Qed.

Lemma susp_main_witness :
  let ids := Z.of_nat <$> seq 1 20 in
  NoDup ids ∧ length ids = THREAD_COUNT ∧
  reachable (.= initial ids (main_calls ids)) calm_step (initial ids (main_calls ids)) ∧
  undefined (initial ids (main_calls ids)) = false.
Proof.
  intros ids. assert (NoDup ids) as Hnd by (apply (bool_decide_unpack _); vm_compute; exact I).
  assert (Forall (λ t, t ≠ 0) ids) as Hz by (apply (bool_decide_unpack _); vm_compute; exact I).
  assert (reachable (.= initial ids (main_calls ids)) calm_step (initial ids (main_calls ids))) as Hr
    by by apply reach_init.
  split_and!; [exact Hnd|reflexivity|exact Hr|].
  apply (susp_main ids _ Hnd eq_refl Hz Hr).
Defined.

(** What leaves the array, whatever the calls outside the source
    return: thd_suspend of a new thread when all ten entries are used (the scan for
    a free one has no bound) or when calloc failed, and thd_continue of any thread
    that is not listed (the element behind the last is compared before the index
    is tested). *)
Theorem susp_out_of_bounds s ev s' ids cs :
  reachable (.= initial ids cs) step s → step s ev = Some s' →
  (undefined s' = true ↔ leaves_array s ev).
Proof.
  intros Hr. apply leaves_array_step. revert Hr.
  apply invariant_reachable; [intros ? ->; apply susp_inv_initial|intros; by eapply susp_inv_step].
Qed.

Lemma susp_out_of_bounds_witness : ∃ s s',
  reachable (.= initial [5; 6] [Suspend 5; Continue 6]) step s ∧
  step s (ECall calm) = Some s' ∧ undefined s = false ∧ undefined s' = true.
Proof.
  set (cs := [Suspend 5; Continue 6]). set (evs := [ECall calm; EHandler 5; EEnd calm]).
  destruct (run step (initial [5; 6] cs) evs) as [s|] eqn:E; [|vm_compute in E; discriminate E].
  assert (reachable (.= initial [5; 6] cs) step s) as Hr.
  { apply (run_reachable _ _ evs (initial [5; 6] cs)); [by apply reach_init|exact E]. }
  destruct (step s (ECall calm)) as [s'|] eqn:E'.
  2: { exfalso. vm_compute in E. injection E as <-. vm_compute in E'. discriminate E'. }
  exists s, s'. split_and!; [exact Hr|exact E'| |].
  - vm_compute in E. injection E as <-. reflexivity.
  - apply (susp_out_of_bounds s (ECall calm) s' [5; 6] cs Hr E').
    vm_compute in E. injection E as <-. cbn. split_and!; [reflexivity..|].
    apply (bool_decide_unpack _). vm_compute. exact I.
Defined.

(** thd_suspend returns when the sentinel is set, which is before sigsuspend: a
    thd_continue in between is lost, and the thread then stops for good although
    both calls succeeded and it is no longer listed. *)
Lemma susp_continue_lost : ∃ s,
  run step (initial [5] [Suspend 5; Continue 5])
    [ECall calm; EHandler 5; EEnd calm; ECall calm; EHandler 5] = Some s ∧
  statuses s = [0; 0] ∧ calls s = [] ∧ spin s = None ∧ Forall (λ v, v = 0) (entries s) ∧
  threads s !! 5 = Some (Target Suspended false).
Proof.
  destruct (run step _ _) as [s|] eqn:E; [|vm_compute in E; discriminate E].
  exists s. vm_compute in E. injection E as <-. split_and!; try reflexivity.
  apply (bool_decide_unpack _). vm_compute. exact I.
Qed.

End Susp.
