(* ===== verification/BarrierMain.v ===== *)
(** * The barrier's test program

    Models ldd-k4/thread/programming_with_posix_thread/barrier_main.c: threads that
    work on arrays of their own between two barrier_waits per round, and the
    thread that gets -1 from the second one increments everybody's increment.

    The program is written against an interface, [BarrierOps] with the laws
    [BarrierOk]: what a barrier for [n] threads promises to its users.  [Barrier]
    provides the instance.  The four constants of the program are a record, so
    that small runs can be evaluated; [std] has the values of the source. *)

From S2P Require Import Prelude Pthread Barrier.

(** ** The interface *)

(** Where a thread is with respect to the barrier: outside, with the status of its
    last call; called, not yet counted; counted while [k] releases had happened. *)
Inductive place := Out (status : Z) | Arriving | Held (k : Z).
#[export] Instance place_eq_dec : EqDecision place.
Proof. solve_decision. Defined.

Class BarrierOps (B : Type) := {
  releases : B → Z;
  where_is : B → nat → place;
  wait_call : B → nat → option B;         (** the thread calls barrier_wait *)
  wait_run : B → nat → option B;          (** it runs inside barrier_wait *)
  wait_spurious : B → nat → option B;     (** a spurious wake-up *)
  destroy : B → Z * B
}.

(** Nothing changes for the other threads. *)
Definition others_same {B} `{BarrierOps B} (b b' : B) (t : nat) : Prop :=
  ∀ u, u ≠ t → where_is b' u = where_is b u.

Class BarrierOk (B : Type) `{BarrierOps B} (n : nat) (ok : B → Prop) := {
  call_ok b t : ok b → (t < n)%nat → (∃ st, where_is b t = Out st) →
    ∃ b', wait_call b t = Some b' ∧ ok b' ∧ where_is b' t = Arriving ∧
      others_same b b' t ∧ releases b' = releases b;
  call_out b t b' : ok b → wait_call b t = Some b' → ∃ st, where_is b t = Out st;
  (** running: counted and held; last of all, so everybody is released; still
      held; or let go *)
  run_ok b t b' : ok b → (t < n)%nat → wait_run b t = Some b' →
    ok b' ∧ others_same b b' t ∧
    (where_is b t = Arriving ∧ where_is b' t = Held (releases b) ∧ releases b' = releases b ∨
     where_is b t = Arriving ∧ where_is b' t = Out (-1) ∧ releases b' = releases b + 1 ∧
       (∀ u, (u < n)%nat → u ≠ t → where_is b u = Held (releases b)) ∨
     (∃ k, where_is b t = Held k ∧ where_is b' t = Held k ∧ releases b' = releases b) ∨
     (∃ k, where_is b t = Held k ∧ where_is b' t = Out 0 ∧ k < releases b ∧ releases b' = releases b));
  spurious_ok b t b' : ok b → wait_spurious b t = Some b' →
    ok b' ∧ (∀ u, where_is b' u = where_is b u) ∧ releases b' = releases b;
  held_ok b t k : ok b → (t < n)%nat → where_is b t = Held k → k = releases b ∨ k = releases b - 1;
  arriving_runs b t : ok b → (t < n)%nat → where_is b t = Arriving → ∃ b', wait_run b t = Some b';
  released_runs b t k : ok b → (t < n)%nat → where_is b t = Held k → k < releases b →
    ∃ b', wait_run b t = Some b' ∧ where_is b' t = Out 0;
  not_all_held b : ok b → (∀ u, (u < n)%nat → where_is b u = Held (releases b)) → False;
  destroy_ok b : ok b → (∀ u, (u < n)%nat → ∃ st, where_is b u = Out st) → (destroy b).1 = 0
}.

(** ** The program *)

Record cfg := Cfg { THREADS : nat; ARRAY : nat; INLOOPS : nat; OUTLOOPS : nat }.
Definition std : cfg := Cfg 5 6 1000 10.

Module BarrierMain.
Section program.
Context {B : Type} `{BarrierOps B} (c : cfg).

(** thread_routine: at the outer loop's test, in its first barrier_wait, at the
    inner loop's test, in the second barrier_wait, incrementing for all. *)
Inductive tpc :=
| Loop (out_loop : nat)
| In1 (out_loop : nat)
| Work (out_loop in_loop : nat)
| In2 (out_loop : nat)
| Lead (out_loop thread_num : nat)
| Done.

Inductive mpc := MCreate (thread_count : nat) | MJoin (thread_count : nat) | MDestroy | MExit (status : Z).

Record sys := Sys {
  barrier : B;
  prog : gmap nat tpc;
  increment : gmap nat Z;
  array : gmap nat (list Z);
  main : mpc;
  printed : list (Z * list Z)       (** history: the lines main prints *)
}.

Definition with_barrier (b : B) (t : nat) (p : tpc) (s : sys) : sys :=
  Sys b (<[t := p]> (prog s)) (increment s) (array s) (main s) (printed s).
Definition goto (t : nat) (p : tpc) (s : sys) : sys := with_barrier (barrier s) t p s.

(** One step of thread [t] in thread_routine *)
Definition thread_routine (t : nat) (s : sys) : option sys :=
  p ← prog s !! t;
  match p with
  | Loop k =>
      if decide (k < OUTLOOPS c)%nat then
        b ← wait_call (barrier s) t; Some (with_barrier b t (In1 k) s)
      else Some (goto t Done s)
  | In1 k =>
      match where_is (barrier s) t with
      | Out st => if 0 <? st then None else Some (goto t (Work k 0) s)
      | _ => b ← wait_run (barrier s) t; Some (with_barrier b t (In1 k) s)
      end
  | Work k j =>
      if decide (j < INLOOPS c)%nat then
        i ← increment s !! t;
        a ← array s !! t;
        Some (Sys (barrier s) (<[t := Work k (S j)]> (prog s)) (increment s)
                  (<[t := (λ x, x + i) <$> a]> (array s)) (main s) (printed s))
      else b ← wait_call (barrier s) t; Some (with_barrier b t (In2 k) s)
  | In2 k =>
      match where_is (barrier s) t with
      | Out st =>
          if 0 <? st then None else
          Some (goto t (if st =? -1 then Lead k 0 else Loop (S k)) s)
      | _ => b ← wait_run (barrier s) t; Some (with_barrier b t (In2 k) s)
      end
  | Lead k m =>
      if decide (m < THREADS c)%nat then
        i ← increment s !! m;
        Some (Sys (barrier s) (<[t := Lead k (S m)]> (prog s)) (<[m := i + 1]> (increment s))
                  (array s) (main s) (printed s))
      else Some (goto t (Loop (S k)) s)
  | Done => None
  end.

Definition main_routine (s : sys) : option sys :=
  match main s with
  | MCreate t =>
      if decide (t < THREADS c)%nat then
        Some (Sys (barrier s) (<[t := Loop 0]> (prog s)) (<[t := Z.of_nat t]> (increment s))
                  (<[t := (λ x, Z.of_nat x + 1) <$> seq 0 (ARRAY c)]> (array s))
                  (MCreate (S t)) (printed s))
      else Some (Sys (barrier s) (prog s) (increment s) (array s) (MJoin 0) (printed s))
  | MJoin t =>
      if decide (t < THREADS c)%nat then
        match prog s !! t with
        | Some Done =>
            i ← increment s !! t;
            a ← array s !! t;
            Some (Sys (barrier s) (prog s) (increment s) (array s) (MJoin (S t)) (printed s ++ [(i, a)]))
        | _ => None
        end
      else Some (Sys (barrier s) (prog s) (increment s) (array s) MDestroy (printed s))
  | MDestroy =>
      let r := destroy (barrier s) in
      Some (Sys r.2 (prog s) (increment s) (array s) (MExit r.1) (printed s))
  | MExit _ => None
  end.

Inductive event := EThread (t : nat) | EMain | ESpurious (t : nat).

Definition step (s : sys) (ev : event) : option sys :=
  match ev with
  | EThread t => thread_routine t s
  | EMain => main_routine s
  | ESpurious t =>
      b ← wait_spurious (barrier s) t;
      Some (Sys b (prog s) (increment s) (array s) (main s) (printed s))
  end.

Definition initial (b : B) : sys := Sys b ∅ ∅ ∅ (MCreate 0) [].

(** ** What the threads compute *)

(** Added to the array of thread [t] in its first [k] rounds *)
Fixpoint rounds (t : Z) (k : nat) : Z :=
  match k with O => 0 | S k => rounds t k + Z.of_nat (INLOOPS c) * (t + Z.of_nat k) end.

Definition values (t k j : nat) : list Z :=
  (λ x, Z.of_nat x + 1 + (rounds (Z.of_nat t) k + Z.of_nat j * Z.of_nat (t + k))) <$> seq 0 (ARRAY c).

(** Rounds and inner iterations done at a program counter *)
Definition work_done (p : tpc) : nat * nat :=
  match p with
  | Loop k | In1 k => (k, O)
  | Work k j => (k, j)
  | In2 k | Lead k _ => (S k, O)
  | Done => (OUTLOOPS c, O)
  end.

(** Where thread [t] is, given the number of releases and its place at the barrier *)
Definition thread_ok (g : Z) (pl : place) (p : tpc) : Prop :=
  match p with
  | Loop k => (k ≤ OUTLOOPS c)%nat ∧ g = 2 * Z.of_nat k ∧ ∃ st, pl = Out st
  | In1 k =>
      (k < OUTLOOPS c)%nat ∧
      match pl with
      | Arriving => g = 2 * Z.of_nat k
      | Held j => j = 2 * Z.of_nat k
      | Out st => g = 2 * Z.of_nat k + 1 ∧ (st = 0 ∨ st = -1)
      end
  | Work k j =>
      (k < OUTLOOPS c)%nat ∧ (j ≤ INLOOPS c)%nat ∧ g = 2 * Z.of_nat k + 1 ∧ ∃ st, pl = Out st
  | In2 k =>
      (k < OUTLOOPS c)%nat ∧
      match pl with
      | Arriving => g = 2 * Z.of_nat k + 1
      | Held j => j = 2 * Z.of_nat k + 1
      | Out st => g = 2 * Z.of_nat k + 2 ∧ (st = 0 ∨ st = -1)
      end
  | Lead k m =>
      (k < OUTLOOPS c)%nat ∧ (m ≤ THREADS c)%nat ∧ g = 2 * Z.of_nat k + 2 ∧ ∃ st, pl = Out st
  | Done => g = 2 * Z.of_nat (OUTLOOPS c) ∧ ∃ st, pl = Out st
  end.

(** How many increments a thread that got -1 has done *)
Definition leading (pl : place) (p : tpc) : option nat :=
  match p with
  | In2 _ => match pl with Out st => if st =? -1 then Some O else None | _ => None end
  | Lead _ m => Some m
  | _ => None
  end.

Definition lead (s : sys) (t : nat) : option nat :=
  p ← prog s !! t; leading (where_is (barrier s) t) p.

(** At most one thread leads. *)
Definition leader_is (L : option (nat * nat)) (t : nat) : option nat :=
  match L with Some (t0, m) => if decide (t = t0) then Some m else None | None => None end.
Definition lag (L : option (nat * nat)) (u : nat) : Z :=
  match L with Some (_, m) => if decide (u < m)%nat then 0 else 1 | None => 0 end.

Section proof.
Context (ok : B → Prop) `{!BarrierOk B (THREADS c) ok}.

Record inv (s : sys) : Prop := {
  inv_ok : ok (barrier s);
  inv_prog : ∀ t p, prog s !! t = Some p →
    (t < THREADS c)%nat ∧ thread_ok (releases (barrier s)) (where_is (barrier s) t) p;
  inv_out : ∀ t, (t < THREADS c)%nat → prog s !! t = None →
    releases (barrier s) = 0 ∧ ∃ st, where_is (barrier s) t = Out st;
  inv_array : ∀ t p, prog s !! t = Some p →
    array s !! t = Some (values t (work_done p).1 (work_done p).2);
  inv_inc : ∃ L, (∀ t, lead s t = leader_is L t) ∧
    ∀ u, is_Some (prog s !! u) →
      increment s !! u = Some (Z.of_nat u + releases (barrier s) / 2 - lag L u);
  inv_create : ∀ m t, main s = MCreate m → (m ≤ THREADS c)%nat ∧ (is_Some (prog s !! t) ↔ (t < m)%nat)
}.

(** A thread moves, the number of releases stays; [inc] are the new increments. *)
Lemma inv_update s t p b' p' inc arr :
  inv s → prog s !! t = Some p → ok b' → others_same (barrier s) b' t →
  releases b' = releases (barrier s) → thread_ok (releases (barrier s)) (where_is b' t) p' →
  arr !! t = Some (values t (work_done p').1 (work_done p').2) →
  (∀ u, u ≠ t → arr !! u = array s !! u) →
  (∃ L, (∀ u, (if decide (u = t) then leading (where_is b' t) p' else lead s u) = leader_is L u) ∧
     ∀ u, is_Some (prog s !! u) →
       inc !! u = Some (Z.of_nat u + releases (barrier s) / 2 - lag L u)) →
  inv (Sys b' (<[t := p']> (prog s)) inc arr (main s) (printed s)).
Proof using Type*.
  intros [] Hp Hok Hoth Hrel Htok Hval Harr (L&HL&Hinc).
  assert (∀ u q, <[t := p']> (prog s) !! u = Some q →
    u = t ∧ q = p' ∨ u ≠ t ∧ prog s !! u = Some q) as Hlk.
  { intros u q. destruct (decide (u = t)) as [->|].
    - rewrite lookup_insert_eq. intros [= <-]. by left.
    - rewrite lookup_insert_ne by done. by right. }
  assert (∀ u, is_Some (<[t := p']> (prog s) !! u) ↔ is_Some (prog s !! u)) as His.
  { intros u. destruct (decide (u = t)) as [->|].
    - rewrite lookup_insert_eq, Hp. by split.
    - by rewrite lookup_insert_ne. }
  constructor; cbn [barrier prog increment array main with_barrier]; rewrite ?Hrel; try done.
  - intros u q [[-> ->]|[Hne Hq]]%Hlk; [by destruct (inv_prog0 t p Hp)|].
    rewrite Hoth by done. by apply inv_prog0.
  - intros u Hu Hn. assert (u ≠ t) by (intros ->; by rewrite lookup_insert_eq in Hn).
    rewrite lookup_insert_ne in Hn by done. rewrite Hoth by done. by apply inv_out0.
  - intros u q [[-> ->]|[Hne Hq]]%Hlk; [done|]. rewrite Harr by done. by apply inv_array0.
  - exists L. split.
    + intros u. rewrite <- HL. unfold lead. cbn. case_decide; subst.
      * by rewrite lookup_insert_eq.
      * rewrite lookup_insert_ne by done. by rewrite Hoth.
    + intros u Hu. apply Hinc. by apply His.
  - intros m u Hm. rewrite His. by apply inv_create0.
Qed.

Lemma bm_move s t p b' p' :
  inv s → prog s !! t = Some p → ok b' → others_same (barrier s) b' t →
  releases b' = releases (barrier s) → thread_ok (releases (barrier s)) (where_is b' t) p' →
  values t (work_done p').1 (work_done p').2 = values t (work_done p).1 (work_done p).2 →
  leading (where_is b' t) p' = lead s t → inv (with_barrier b' t p' s).
Proof using Type*.
  intros Hinv Hp Hok Hoth Hrel Htok Hval Hlead. eapply inv_update; try done.
  - rewrite Hval. by apply Hinv.
  - destruct (inv_inc _ Hinv) as (L&HL&Hinc). exists L. split; [|done].
    intros u. case_decide; [subst; congruence|done].
Qed.

(** While somebody leads, the barrier has been released an even number of times and
    the leader is outside. *)
Lemma lead_out s t m :
  inv s → lead s t = Some m →
  (∃ st, where_is (barrier s) t = Out st) ∧ (t < THREADS c)%nat ∧ (m ≤ THREADS c)%nat ∧
  ∃ k, releases (barrier s) = 2 * Z.of_nat k + 2.
Proof using Type*.
  intros Hinv. unfold lead. destruct (prog s !! t) as [p|] eqn:Hp; [|done]. cbn.
  destruct (inv_prog _ Hinv t p Hp) as [Ht Htok]. destruct p as [k|k|k j|k|k m'|]; try done; cbn in *.
  - destruct (where_is (barrier s) t) as [st| |]; try done. case_match; [|done]. intros [= <-].
    destruct Htok as (_&Hg&_). split_and!; eauto; lia.
  - intros [= <-]. destruct Htok as (_&?&?&?). eauto.
Qed.

Lemma created s u : inv s → 0 < releases (barrier s) → (u < THREADS c)%nat → is_Some (prog s !! u).
Proof using Type*.
  intros Hinv Hg Hu. destruct (prog s !! u) eqn:E; [by eauto|].
  destruct (inv_out _ Hinv u Hu E). lia.
Qed.

(** The last thread arrives: everybody is released. *)
Lemma bm_release s t p b' :
  inv s → prog s !! t = Some p → (∃ k, p = In1 k ∨ p = In2 k) →
  ok b' → others_same (barrier s) b' t → where_is (barrier s) t = Arriving →
  where_is b' t = Out (-1) → releases b' = releases (barrier s) + 1 →
  (∀ u, (u < THREADS c)%nat → u ≠ t → where_is (barrier s) u = Held (releases (barrier s))) →
  inv (with_barrier b' t p s).
Proof using Type*.
  intros Hinv Hp Hpk Hok Hoth Harr Hout Hrel Hheld.
  assert (∀ u, lead s u = None) as Hnl.
  { intros u. destruct (lead s u) as [m|] eqn:E; [|done].
    destruct (lead_out s u m Hinv E) as ([st Hst]&Hu&_). destruct (decide (u = t)) as [->|Hne]; [congruence|].
    rewrite Hheld in Hst by done. done. }
  pose proof Hinv as []. destruct (inv_prog0 t p Hp) as [Ht Htok].
  assert (<[t := p]> (prog s) = prog s) as Hpp by by apply insert_id.
  destruct inv_inc0 as (L&HL&Hinc).
  assert (L = None) as ->.
  { destruct L as [[t0 m]|]; [|done]. specialize (HL t0). rewrite Hnl in HL. cbn in HL.
    by rewrite decide_True in HL. }
  constructor; cbn [barrier prog increment array main with_barrier]; rewrite ?Hpp, ?Hrel; try done.
  - intros u q Hq. destruct (decide (u = t)) as [->|Hne].
    + assert (q = p) as -> by congruence. split; [done|]. rewrite Hout.
      destruct Hpk as [k [-> | ->]]; cbn in *; rewrite Harr in Htok; destruct Htok; split; try done; lia.
    + destruct (inv_prog0 u q Hq) as [Hu Hq']. split; [done|]. rewrite Hoth by done.
      rewrite Hheld in * by done. destruct q; cbn in *; try naive_solver.
  - intros u Hu Hn. destruct (decide (u = t)) as [->|Hne]; [congruence|].
    destruct (inv_out0 u Hu Hn) as [_ [st Hst]]. rewrite Hheld in Hst by done. done.
  - exists (match p with In2 _ => Some (t, O) | _ => None end). split.
    + intros u. unfold lead. cbn. rewrite Hpp. destruct (decide (u = t)) as [->|Hne].
      * rewrite Hp, Hout. cbn. destruct Hpk as [k [-> | ->]]; cbn; [done|]. by rewrite decide_True.
      * destruct (prog s !! u) as [q|] eqn:Hq; cbn.
        -- rewrite Hoth by done. destruct (inv_prog0 u q Hq) as [Hu Hq']. rewrite Hheld in * by done.
           destruct Hpk as [k [-> | ->]]; destruct q; cbn in *; rewrite ?decide_False by done; naive_solver.
        -- destruct Hpk as [k [-> | ->]]; cbn; by rewrite ?decide_False by done.
    + intros u Hu. rewrite (Hinc u Hu). f_equal. rewrite Harr in Htok.
      destruct Hpk as [k [-> | ->]]; cbn in *; destruct Htok as [_ Hg]; rewrite Hg;
        [|rewrite decide_False by lia]; Z.to_euclidean_division_equations; lia.
Qed.

Lemma lead_unique s t m :
  inv s → lead s t = Some m →
  (∀ u, lead s u = leader_is (Some (t, m)) u) ∧
  ∀ u, is_Some (prog s !! u) →
    increment s !! u = Some (Z.of_nat u + releases (barrier s) / 2 - lag (Some (t, m)) u).
Proof using Type*.
  intros Hinv Hlead. destruct (inv_inc _ Hinv) as (L&HL&Hinc).
  assert (L = Some (t, m)) as ->; [|done].
  pose proof (HL t) as HLt. rewrite Hlead in HLt. destruct L as [[t0 m0]|]; cbn in HLt; [|done].
  case_decide; [|done]. subst. by injection HLt as <-.
Qed.

(** The leader increments thread [m]. *)
Lemma inv_lead_step s t k m i :
  inv s → prog s !! t = Some (Lead k m) → (m < THREADS c)%nat → increment s !! m = Some i →
  inv (Sys (barrier s) (<[t := Lead k (S m)]> (prog s)) (<[m := i + 1]> (increment s))
           (array s) (main s) (printed s)).
Proof using Type*.
  intros Hinv Hp Hm Hi. destruct (inv_prog _ Hinv t _ Hp) as [Ht (Hk&_&Hg&Hst)].
  assert (lead s t = Some m) as Hlead by (unfold lead; by rewrite Hp).
  destruct (lead_unique s t m Hinv Hlead) as [HL Hinc].
  eapply inv_update; try done; [by apply Hinv|by apply (inv_array _ Hinv t _ Hp)|].
  exists (Some (t, S m)). split.
  - intros u. cbn. case_decide as E; [done|]. rewrite HL. cbn. by rewrite decide_False.
  - intros u Hu. specialize (Hinc u Hu). cbn in *. destruct (decide (u = m)) as [->|Hne].
    + rewrite lookup_insert_eq. f_equal. rewrite Hi in Hinc. injection Hinc as ->.
      rewrite decide_False, decide_True by lia. lia.
    + rewrite lookup_insert_ne, Hinc by done. f_equal. f_equal. repeat case_decide; lia.
Qed.

(** The leader is done. *)
Lemma inv_lead_end s t k m :
  inv s → prog s !! t = Some (Lead k m) → ¬ (m < THREADS c)%nat →
  inv (goto t (Loop (S k)) s).
Proof using Type*.
  intros Hinv Hp Hm. destruct (inv_prog _ Hinv t _ Hp) as [Ht (Hk&Hm'&Hg&Hst)].
  assert (lead s t = Some m) as Hlead by (unfold lead; by rewrite Hp).
  destruct (lead_unique s t m Hinv Hlead) as [HL Hinc].
  eapply inv_update; try done; [by apply Hinv|cbn; split_and!; try done; lia|by apply (inv_array _ Hinv t _ Hp)|].
  exists None. split.
  - intros u. cbn. case_decide as E; [done|]. rewrite HL. cbn. by rewrite decide_False.
  - intros u Hu. specialize (Hinc u Hu). cbn in *.
    destruct Hu as [q Hq]. destruct (inv_prog _ Hinv u q Hq) as [Hu _].
    rewrite decide_True in Hinc by lia. rewrite Hinc. f_equal; lia.
Qed.

(** One iteration of the inner loop *)
Lemma inv_work s t k j i a :
  inv s → prog s !! t = Some (Work k j) → (j < INLOOPS c)%nat →
  increment s !! t = Some i → array s !! t = Some a →
  inv (Sys (barrier s) (<[t := Work k (S j)]> (prog s)) (increment s)
           (<[t := (λ x, x + i) <$> a]> (array s)) (main s) (printed s)).
Proof using Type*.
  intros Hinv Hp Hj Hi Ha. destruct (inv_prog _ Hinv t _ Hp) as [Ht (Hk&_&Hg&Hst)].
  destruct (inv_inc _ Hinv) as (L&HL&Hinc).
  assert (L = None) as ->.
  { destruct L as [[t0 m]|]; [|done]. specialize (HL t0). cbn in HL. rewrite decide_True in HL by done.
    destruct (lead_out s t0 m Hinv HL) as (_&_&_&k'&Hk'). lia. }
  eapply inv_update; try done; [by apply Hinv| | |].
  - rewrite lookup_insert_eq. f_equal. rewrite (inv_array _ Hinv t _ Hp) in Ha. injection Ha as <-.
    assert (i = Z.of_nat t + Z.of_nat k) as ->.
    { rewrite (Hinc t) in Hi by by rewrite Hp. injection Hi as <-. cbn. rewrite Hg.
      Z.to_euclidean_division_equations. lia. }
    unfold values. cbn [work_done fst snd]. rewrite <- list_fmap_compose. apply list_fmap_ext.
    intros x y _. unfold compose. lia.
  - intros u Hu. by rewrite lookup_insert_ne.
  - exists None. split; [|done]. intros u. rewrite <- HL. case_decide; [|done]. subst.
    unfold lead. by rewrite Hp.
Qed.

Lemma others_refl (b : B) t : others_same b b t.
Proof. by intros u. Qed.

(** Inside one of the two waits *)
Lemma inv_wait s t p b' :
  inv s → prog s !! t = Some p → (∃ k, p = In1 k ∨ p = In2 k) →
  (∀ st, where_is (barrier s) t ≠ Out st) → wait_run (barrier s) t = Some b' →
  inv (with_barrier b' t p s).
Proof using Type*.
  intros Hinv Hp Hpk Hno Hrun. destruct (inv_prog _ Hinv t p Hp) as [Ht Htok].
  assert (lead s t = None) as Hlead.
  { destruct (lead s t) as [m|] eqn:E; [|done]. destruct (lead_out s t m Hinv E) as ([st Hst]&_).
    by destruct (Hno st). }
  destruct (run_ok (barrier s) t b') as (Hok&Hoth&Hcases); [by apply Hinv|done..|].
  destruct Hcases as [(Ha&Hb&Hr)|[(Ha&Hb&Hr&Hall)|[(k&Ha&Hb&Hr)|(k&Ha&Hb&Hk&Hr)]]].
  - eapply bm_move; try done; rewrite ?Hb; [|rewrite Hlead; by destruct Hpk as [k [-> | ->]]].
    destruct Hpk as [k [-> | ->]]; cbn in *; rewrite Ha in Htok; done.
  - by eapply bm_release.
  - eapply bm_move; try done; rewrite ?Hb; [|rewrite Hlead; by destruct Hpk as [j [-> | ->]]].
    destruct Hpk as [j [-> | ->]]; cbn in *; rewrite Ha in Htok; done.
  - destruct (held_ok (barrier s) t k (inv_ok _ Hinv) Ht Ha) as [?|Hg]; [lia|].
    eapply bm_move; try done; rewrite ?Hb; [|rewrite Hlead; by destruct Hpk as [j [-> | ->]]].
    destruct Hpk as [j [-> | ->]]; cbn in *; rewrite Ha in Htok; destruct Htok; split; try done;
      (split; [lia|by left]).
Qed.

(** barrier_wait is called. *)
Lemma inv_call s t p p' b' :
  inv s → prog s !! t = Some p → (∃ st, where_is (barrier s) t = Out st) →
  wait_call (barrier s) t = Some b' →
  (∀ b, where_is b t = Arriving → thread_ok (releases (barrier s)) (where_is b t) p') →
  values t (work_done p').1 (work_done p').2 = values t (work_done p).1 (work_done p).2 →
  (∃ k, p' = In1 k ∨ p' = In2 k) → lead s t = None → inv (with_barrier b' t p' s).
Proof using Type*.
  intros Hinv Hp Hout Hcall Htok Hval Hpk Hlead. destruct (inv_prog _ Hinv t p Hp) as [Ht _].
  destruct (call_ok (barrier s) t (inv_ok _ Hinv) Ht Hout) as (b&Hb&Hok&Harr&Hoth&Hrel).
  assert (b = b') as -> by congruence. eapply bm_move; try done; [by apply Htok|].
  rewrite Harr, Hlead. by destruct Hpk as [k [-> | ->]].
Qed.

Lemma values_round t k : values t k (INLOOPS c) = values t (S k) 0.
Proof. unfold values. apply list_fmap_ext. intros i x _. cbn [rounds]. lia. Qed.

Lemma inv_thread s t s' : inv s → thread_routine t s = Some s' → inv s'.
Proof using Type*.
  intros Hinv. unfold thread_routine. destruct (prog s !! t) as [p|] eqn:Hp; [|done]. cbn.
  destruct (inv_prog _ Hinv t p Hp) as [Ht Htok]. pose proof (inv_ok _ Hinv) as Hok.
  destruct p as [k|k|k j|k|k m|]; cbn in Htok.
  - destruct Htok as (Hk&Hg&Hst). case_decide.
    + destruct (wait_call (barrier s) t) as [b|] eqn:Hb; [|done]. intros [= <-].
      eapply inv_call; try done; [|by eauto|unfold lead; by rewrite Hp].
      intros b0 ->. done.
    + assert (k = OUTLOOPS c) as -> by lia. intros [= <-]. eapply bm_move; try done.
      unfold lead. by rewrite Hp.
  - destruct Htok as (Hk&Hpl). destruct (where_is (barrier s) t) as [st| |j] eqn:Hw.
    + destruct Hpl as [Hg Hst]. destruct (0 <? st) eqn:E; [done|]. intros [= <-].
      eapply bm_move; try done; [|unfold lead; by rewrite Hp].
      split_and!; try done; [lia|by eauto].
    + destruct (wait_run (barrier s) t) as [b|] eqn:Hb; [|done]. intros [= <-].
      eapply inv_wait; try done; [by eauto|]. by rewrite Hw.
    + destruct (wait_run (barrier s) t) as [b|] eqn:Hb; [|done]. intros [= <-].
      eapply inv_wait; try done; [by eauto|]. by rewrite Hw.
  - destruct Htok as (Hk&Hj&Hg&Hst). case_decide as Hlt.
    + destruct (increment s !! t) as [i|] eqn:Hi; [|done]. destruct (array s !! t) as [a|] eqn:Ha; [|done].
      intros [= <-]. by eapply inv_work.
    + destruct (wait_call (barrier s) t) as [b|] eqn:Hb; [|done]. intros [= <-].
      eapply inv_call; try done; [| |by eauto|unfold lead; by rewrite Hp].
      * intros b0 ->. done.
      * cbn. assert (j = INLOOPS c) as -> by lia. symmetry. apply values_round.
  - destruct Htok as (Hk&Hpl). destruct (where_is (barrier s) t) as [st| |j] eqn:Hw.
    + destruct Hpl as [Hg Hst]. destruct (0 <? st) eqn:E; [done|]. intros [= <-].
      destruct Hst as [-> | ->]; cbn; (eapply bm_move; try done; [|unfold lead; by rewrite Hp; cbn; rewrite Hw]).
      * split_and!; [lia|lia|eauto].
      * split_and!; [done|lia|lia|eauto].
    + destruct (wait_run (barrier s) t) as [b|] eqn:Hb; [|done]. intros [= <-].
      eapply inv_wait; try done; [by eauto|]. by rewrite Hw.
    + destruct (wait_run (barrier s) t) as [b|] eqn:Hb; [|done]. intros [= <-].
      eapply inv_wait; try done; [by eauto|]. by rewrite Hw.
  - case_decide; [|intros [= <-]; by eapply inv_lead_end].
    destruct (increment s !! m) as [i|] eqn:Hi; [|done]. intros [= <-]. by eapply inv_lead_step.
  - done.
Qed.

Lemma bm_spurious s t b' :
  inv s → wait_spurious (barrier s) t = Some b' →
  inv (Sys b' (prog s) (increment s) (array s) (main s) (printed s)).
Proof using Type*.
  intros [] Hsp. destruct (spurious_ok (barrier s) t b' inv_ok0 Hsp) as (Hok&Hw&Hr).
  constructor; cbn [barrier prog increment array main]; rewrite ?Hr; try done.
  - intros u p. rewrite Hw. apply inv_prog0.
  - intros u. rewrite Hw. apply inv_out0.
  - destruct inv_inc0 as (L&HL&Hinc). exists L. split; [|done]. intros u. rewrite <- HL.
    unfold lead. cbn. by rewrite Hw.
Qed.

Lemma inv_main_create s t :
  inv s → main s = MCreate t → (t < THREADS c)%nat →
  inv (Sys (barrier s) (<[t := Loop 0]> (prog s)) (<[t := Z.of_nat t]> (increment s))
           (<[t := (λ x, Z.of_nat x + 1) <$> seq 0 (ARRAY c)]> (array s)) (MCreate (S t)) (printed s)).
Proof using Type*.
  intros Hinv Hm Ht. pose proof Hinv as [].
  assert (prog s !! t = None) as Hn.
  { destruct (prog s !! t) eqn:E; [|done]. destruct (inv_create0 t t Hm) as [_ Hc].
    assert (t < t)%nat by (apply Hc; eauto). lia. }
  destruct (inv_out0 t Ht Hn) as [Hg Hst]. destruct inv_inc0 as (L&HL&Hinc).
  assert (L = None) as ->.
  { destruct L as [[t0 m]|]; [|done]. specialize (HL t0). cbn in HL. rewrite decide_True in HL by done.
    destruct (lead_out s t0 m Hinv HL) as (_&_&_&k'&Hk'). lia. }
  constructor; cbn [barrier prog increment array main]; try done.
  - intros u q. destruct (decide (u = t)) as [->|].
    + rewrite lookup_insert_eq. intros [= <-]. split; [done|]. split_and!; [lia|lia|done].
    + rewrite lookup_insert_ne by done. apply inv_prog0.
  - intros u Hu. rewrite lookup_insert_None. intros [??]. by apply inv_out0.
  - intros u q. destruct (decide (u = t)) as [->|].
    + rewrite !lookup_insert_eq. intros [= <-]. f_equal. unfold values. apply list_fmap_ext.
      intros i x _. cbn. lia.
    + rewrite !lookup_insert_ne by done. apply inv_array0.
  - exists None. split.
    + intros u. unfold lead. cbn. destruct (decide (u = t)) as [->|].
      * by rewrite lookup_insert_eq.
      * rewrite lookup_insert_ne by done. apply HL.
    + intros u. destruct (decide (u = t)) as [->|].
      * rewrite !lookup_insert_eq, Hg. intros _. change (0 / 2) with 0. cbn. f_equal. lia.
      * rewrite !lookup_insert_ne by done. apply Hinc.
  - intros m u [= <-]. split; [lia|]. destruct (inv_create0 t u Hm) as [_ Hc].
    destruct (decide (u = t)) as [->|].
    + rewrite lookup_insert_eq. split; [lia|by eauto].
    + rewrite lookup_insert_ne, Hc by done. lia.
Qed.

Lemma bm_main_pc s m pr :
  inv s → (∀ t, m ≠ MCreate t) → inv (Sys (barrier s) (prog s) (increment s) (array s) m pr).
Proof using Type*.
  intros [] Hm. constructor; try done. cbn. intros m' t E. by destruct (Hm m').
Qed.

(** *** What main prints *)

Definition line_ok (t : nat) (x : Z * list Z) : Prop :=
  x.2 = values t (OUTLOOPS c) 0 ∧
  (x.1 = Z.of_nat (t + OUTLOOPS c) ∨ x.1 = Z.of_nat (t + OUTLOOPS c) - 1).

Definition joined (s : sys) (m : nat) : Prop :=
  (m ≤ THREADS c)%nat ∧ length (printed s) = m ∧ ∀ t, (t < m)%nat → prog s !! t = Some Done.

Definition printing (s : sys) : Prop :=
  (∀ t x, printed s !! t = Some x → line_ok t x) ∧
  match main s with
  | MCreate _ => joined s 0
  | MJoin m => joined s m ∧ ∀ t, (t < THREADS c)%nat → is_Some (prog s !! t)
  | MDestroy | MExit _ => joined s (THREADS c)
  end.

Definition final (s : sys) : Prop :=
  main s = MExit 0 ∧ joined s (THREADS c) ∧ (∀ t p, prog s !! t = Some p → p = Done) ∧
  ∀ t, (t < THREADS c)%nat → increment s !! t = Some (Z.of_nat (t + OUTLOOPS c)) ∧
    array s !! t = Some (values t (OUTLOOPS c) 0).

Definition full (s : sys) : Prop :=
  printing s ∧ (inv s ∧ (∀ st, main s ≠ MExit st) ∨ final s).

Lemma done_line s t i a :
  inv s → prog s !! t = Some Done → increment s !! t = Some i → array s !! t = Some a → line_ok t (i, a).
Proof using Type*.
  intros Hinv Hp Hi Ha. destruct (inv_prog _ Hinv t _ Hp) as [Ht [Hg _]].
  rewrite (inv_array _ Hinv t _ Hp) in Ha. injection Ha as <-. split; [done|]. cbn.
  destruct (inv_inc _ Hinv) as (L&_&Hinc). rewrite (Hinc t) in Hi by by rewrite Hp. injection Hi as <-.
  rewrite Hg. assert (lag L t = 0 ∨ lag L t = 1) as [-> | ->].
  { unfold lag. destruct L as [[??]|]; [case_decide|]; auto. }
  - left. Z.to_euclidean_division_equations. lia.
  - right. Z.to_euclidean_division_equations. lia.
Qed.

Lemma all_done s t :
  inv s → (∀ u, (u < THREADS c)%nat → prog s !! u = Some Done) → (t < THREADS c)%nat →
  increment s !! t = Some (Z.of_nat (t + OUTLOOPS c)) ∧ array s !! t = Some (values t (OUTLOOPS c) 0).
Proof using Type*.
  intros Hinv Hall Ht. pose proof (Hall t Ht) as Hp. split; [|apply (inv_array _ Hinv t _ Hp)].
  destruct (inv_prog _ Hinv t _ Hp) as [_ [Hg _]]. destruct (inv_inc _ Hinv) as (L&HL&Hinc).
  rewrite (Hinc t) by by rewrite Hp. f_equal. rewrite Hg.
  assert (lag L t = 0) as ->; [|Z.to_euclidean_division_equations; lia].
  destruct L as [[t0 m]|]; [|done]. specialize (HL t0). cbn in HL. rewrite decide_True in HL by done.
  destruct (lead_out s t0 m Hinv HL) as (_&Ht0&_). unfold lead in HL. rewrite (Hall t0 Ht0) in HL. done.
Qed.

(** Threads that are done stay so, and main's records do not change. *)
Lemma thread_frame s t s' :
  thread_routine t s = Some s' →
  main s' = main s ∧ printed s' = printed s ∧ (∀ u, prog s !! u = Some Done → prog s' !! u = Some Done) ∧
  (∀ u, is_Some (prog s !! u) → is_Some (prog s' !! u)).
Proof.
  unfold thread_routine. destruct (prog s !! t) as [p|] eqn:Hp; [|done]. cbn.
  assert (∀ q u, prog s !! u = Some Done → p ≠ Done → <[t := q]> (prog s) !! u = Some Done) as Hd.
  { intros q u Hu Hne. rewrite lookup_insert_ne; [done|]. intros ->. congruence. }
  assert (∀ q u, is_Some (prog s !! u) → is_Some (<[t := q]> (prog s) !! u)) as Hi.
  { intros q u Hu. destruct (decide (u = t)) as [->|]; [rewrite lookup_insert_eq; by eauto|].
    by rewrite lookup_insert_ne. }
  intros E. assert (∃ q, prog s' = <[t := q]> (prog s) ∧ main s' = main s ∧ printed s' = printed s)
    as (q&Hq&Hm&Hpr).
  { destruct p; repeat case_match; try done; simplify_option_eq; eauto. }
  rewrite Hq. split_and!; try done; auto. intros u Hu. apply Hd; [done|]. by intros ->.
Qed.

Lemma joined_frame s s' m :
  joined s m → printed s' = printed s → (∀ u, prog s !! u = Some Done → prog s' !! u = Some Done) →
  joined s' m.
Proof. intros (H1&H2&H3) Hpr Hd. split_and!; [done|by rewrite Hpr|auto]. Qed.

Lemma full_main s s' : full s → main_routine s = Some s' → full s'.
Proof using Type*.
  intros [[Hl Hmm] Hinv]. unfold main_routine.
  assert ((∀ st, main s ≠ MExit st) → inv s) as Hi by (intros Hne; destruct Hinv as [[? _]|[He _]]; [done|by destruct (Hne 0)]).
  destruct (main s) as [t|t| |st] eqn:Hm; [specialize (Hi ltac:(done))..|done].
  - case_decide as Ht; intros [= <-].
    + split; [split; [done|]|left; split; [by apply inv_main_create|done]].
      destruct Hmm as (_&?&_). split_and!; try done; cbn; lia.
    + destruct (inv_create _ Hi t 0 Hm) as [Ht' _]. assert (t = THREADS c) as -> by lia.
      split; [split; [done|]|left; split; [by apply bm_main_pc|done]]. split; [done|].
      intros u Hu. by apply (inv_create _ Hi (THREADS c) u Hm).
  - destruct Hmm as [(Ht&Hlen&Hd) Hall]. case_decide as Hlt.
    + destruct (prog s !! t) as [[]|] eqn:Hp; try done.
      destruct (increment s !! t) as [i|] eqn:Hinc; [|done]. destruct (array s !! t) as [a|] eqn:Ha; [|done].
      cbn. intros [= <-]. split; [|left; split; [by apply bm_main_pc|done]]. split; cbn.
      * intros u x. rewrite lookup_app_Some. intros [?|[Hu Hx]]; [auto|].
        apply list_lookup_singleton_Some in Hx as [Hz <-]. assert (u = t) as -> by lia. by eapply done_line.
      * split; [|done]. split_and!; [lia|cbn; rewrite length_app; cbn; lia|].
        intros u Hu. destruct (decide (u = t)) as [->|]; [done|]. apply Hd. lia.
    + intros [= <-]. assert (t = THREADS c) as -> by lia.
      split; [split; [done|]|left; split; [by apply bm_main_pc|done]]. by split_and!.
  - intros [= <-]. destruct Hmm as (Ht&Hlen&Hd).
    assert ((destroy (barrier s)).1 = 0) as Hz.
    { apply (destroy_ok _ (inv_ok _ Hi)). intros u Hu.
      by destruct (inv_prog _ Hi u _ (Hd u Hu)) as [_ [_ ?]]. }
    split; [split; [done|by split_and!]|]. right. rewrite Hz. split_and!; try done.
    + intros t p Hp. destruct (inv_prog _ Hi t p Hp) as [Htt _]. cbn in Hp. rewrite (Hd t Htt) in Hp. by injection Hp.
    + intros t Htt. by apply (all_done s).
Qed.

Lemma full_step s ev s' : full s → step s ev = Some s' → full s'.
Proof using Type*.
  intros [Hpr Hinv]. destruct ev as [t| |t]; cbn -[thread_routine main_routine].
  - intros Hst. destruct (thread_frame s t s' Hst) as (Hm&Hp&Hd&Hi). split.
    + destruct Hpr as [Hl Hmm]. split; [by rewrite Hp|]. rewrite Hm.
      destruct (main s); try (by eapply joined_frame). destruct Hmm as [Hj Hall].
      split; [by eapply joined_frame|auto].
    + rewrite Hm. destruct Hinv as [[Hinv Hne]|(He&Hj&Hall&_)]; [left; split; [by eapply inv_thread|done]|].
      exfalso. unfold thread_routine in Hst. destruct (prog s !! t) as [p|] eqn:Hpt; [|done].
      by rewrite (Hall t p Hpt) in Hst.
  - intros Hst. by eapply full_main; [split|].
  - destruct (wait_spurious (barrier s) t) as [b|] eqn:Hb; [|done]. intros [= <-]. split; [done|].
    destruct Hinv as [[Hinv Hne]|Hf]; [left|by right]. split; [by eapply bm_spurious|done].
Qed.

Lemma full_initial b :
  ok b → releases b = 0 → (∀ t, (t < THREADS c)%nat → ∃ st, where_is b t = Out st) → full (initial b).
Proof using Type*.
  intros Hok Hr Ho. split; [split; [done|]|left; split; [|done]].
  - split_and!; [lia|done|]. intros t Ht. lia.
  - constructor; cbn; try done.
    + intros t Ht _. auto.
    + exists None. split; [done|]. intros u [? ?]. done.
    + intros m t [= <-]. split; [lia|]. split; [by intros [??]|lia].
Qed.

(** *** Progress *)

Lemma thread_moves s t p :
  inv s → prog s !! t = Some p →
  (∃ s', thread_routine t s = Some s') ∨ p = Done ∨
  where_is (barrier s) t = Held (releases (barrier s)).
Proof using Type*.
  intros Hinv Hp. destruct (inv_prog _ Hinv t p Hp) as [Ht Htok]. pose proof (inv_ok _ Hinv) as Hok.
  unfold thread_routine. rewrite Hp. cbn.
  assert (∀ f : B → option sys, (∀ st, where_is (barrier s) t ≠ Out st) → (∀ b, ∃ s', f b = Some s') →
    (∃ s', wait_run (barrier s) t ≫= f = Some s') ∨ where_is (barrier s) t = Held (releases (barrier s))) as Hw.
  { intros f Hno Hf. destruct (where_is (barrier s) t) as [st| |k] eqn:Hw; [by destruct (Hno st)|left|].
    - destruct (arriving_runs _ _ Hok Ht Hw) as [b ->]. apply Hf.
    - destruct (held_ok _ _ _ Hok Ht Hw) as [->|Hk]; [by right|left].
      destruct (released_runs _ _ _ Hok Ht Hw) as (b&->&_); [lia|]. apply Hf. }
  assert (∀ f : B → option sys, (∃ st, where_is (barrier s) t = Out st) → (∀ b, ∃ s', f b = Some s') →
    ∃ s', wait_call (barrier s) t ≫= f = Some s') as Hc.
  { intros f Hst Hf. destruct (call_ok _ _ Hok Ht Hst) as (b&->&_). apply Hf. }
  destruct (inv_inc _ Hinv) as (L&_&Hinc).
  destruct p as [k|k|k j|k|k m|]; cbn in Htok; [left| | left| |left|by right; left].
  - destruct Htok as (_&_&Hst). case_decide; eauto.
  - destruct Htok as (_&Hpl). destruct (where_is (barrier s) t) as [st| |j] eqn:Hwt.
    + left. destruct Hpl as [_ [-> | ->]]; cbn; eauto.
    + destruct (Hw (λ b, Some (with_barrier b t (In1 k) s))) as [?|?]; [done|by eauto|by left|done].
    + destruct (Hw (λ b, Some (with_barrier b t (In1 k) s))) as [?|?]; [done|by eauto|by left|by right; right].
  - destruct Htok as (_&_&_&Hst). case_decide; [|by eauto].
    rewrite (Hinc t), (inv_array _ Hinv t _ Hp) by by rewrite Hp. cbn. eauto.
  - destruct Htok as (_&Hpl). destruct (where_is (barrier s) t) as [st| |j] eqn:Hwt.
    + left. destruct Hpl as [_ [-> | ->]]; cbn; eauto.
    + destruct (Hw (λ b, Some (with_barrier b t (In2 k) s))) as [?|?]; [done|by eauto|by left|done].
    + destruct (Hw (λ b, Some (with_barrier b t (In2 k) s))) as [?|?]; [done|by eauto|by left|by right; right].
  - destruct Htok as (_&_&Hg&_). case_decide; [|by eauto].
    rewrite (Hinc m) by (apply created; [done|lia|done]). cbn. eauto.
Qed.

Lemma main_moves s :
  full s → (∀ t, thread_routine t s = None) → main_routine s = None → main s = MExit 0.
Proof using Type*.
  intros [[_ Hmm] Hinv] Hth Hst. destruct Hinv as [[Hinv Hne]|[Hf _]]; [|done]. exfalso.
  unfold main_routine in Hst. destruct (main s) as [t|t| |st] eqn:Hm; try done; [by case_decide| |by destruct (Hne st)].
  case_decide as Ht; [|done]. destruct Hmm as [_ Hall].
  assert (∀ u, (u < THREADS c)%nat → prog s !! u = Some Done ∨
    where_is (barrier s) u = Held (releases (barrier s)) ∧ releases (barrier s) ≠ 2 * Z.of_nat (OUTLOOPS c)) as Hu.
  { intros u Hu. destruct (Hall u Hu) as [p Hp].
    destruct (thread_moves s u p Hinv Hp) as [[? E]|[->|Hh]]; [by rewrite Hth in E|by left|].
    destruct (inv_prog _ Hinv u p Hp) as [_ Htok]. rewrite Hh in Htok.
    destruct p; cbn in Htok; try naive_solver; right; split; try done; lia. }
  destruct (Hu t Ht) as [Hd|[Hh Hg]].
  - destruct (inv_inc _ Hinv) as (L&_&Hinc). rewrite Hd in Hst.
    rewrite (Hinc t), (inv_array _ Hinv t _ Hd) in Hst by by rewrite Hd. done.
  - apply (not_all_held _ (inv_ok _ Hinv)). intros u Huu. destruct (Hu u Huu) as [Hd|[? _]]; [|done].
    by destruct (inv_prog _ Hinv u _ Hd) as [_ [? _]].
Qed.

End proof.
End program.
End BarrierMain.

(** ** barrier.c provides the interface *)

#[export] Instance barrier_ops : BarrierOps Barrier.sys := {
  releases := Barrier.generation;
  where_is b t :=
    match Barrier.threads b !! t with
    | Some (Barrier.Thr p a) =>
        match p with
        | Barrier.Idle st => Out st
        | Barrier.Called => Arriving
        | Barrier.Blocked _ | Barrier.Woken _ => Held (a - 1)
        end
    | None => Out 0
    end;
  wait_call b t := Barrier.calm_step b (Barrier.ECall t);
  wait_run b t := Barrier.calm_step b (Barrier.ERun t Barrier.calm);
  wait_spurious b t := Barrier.calm_step b (Barrier.ESpurious t);
  destroy b :=
    let r := Barrier.barrier_destroy 0 0 0 0 (Barrier.bar b) in
    (r.1, Barrier.Sys r.2 (Barrier.threads b) (Barrier.generation b) (Barrier.leaders b))
}.

Definition barrier_good (n : nat) (b : Barrier.sys) : Prop :=
  Barrier.bar_inv (Z.of_nat n) b ∧ ∀ t, is_Some (Barrier.threads b !! t) ↔ (t < n)%nat.

Section instance.
Context (n : nat).

(** A step keeps the invariant and the set of threads. *)
Lemma good_step b ev b' :
  barrier_good n b → Barrier.calm_step b ev = Some b' →
  (∀ t, is_Some (Barrier.threads b' !! t) ↔ is_Some (Barrier.threads b !! t)) → barrier_good n b'.
Proof.
  intros [Hinv Hdom] Hst Hd. split; [by eapply Barrier.barrier_calm_inv|].
  intros t. by rewrite Hd.
Qed.

Lemma dom_insert_same (ts : gmap nat Barrier.thread) t th th' u :
  ts !! t = Some th → is_Some (<[t := th']> ts !! u) ↔ is_Some (ts !! u).
Proof.
  intros Ht. destruct (decide (u = t)) as [->|].
  - rewrite lookup_insert_eq, Ht. by split.
  - by rewrite lookup_insert_ne.
Qed.

Lemma where_insert b b' t th :
  Barrier.threads b' = <[t := th]> (Barrier.threads b) → others_same b b' t.
Proof. intros E u Hu. cbn. by rewrite E, lookup_insert_ne. Qed.

Lemma wait_run_cases b t b' :
  barrier_good n b → wait_run b t = Some b' →
  barrier_good n b' ∧ others_same b b' t ∧
  (where_is b t = Arriving ∧ where_is b' t = Held (releases b) ∧ releases b' = releases b ∨
   where_is b t = Arriving ∧ where_is b' t = Out (-1) ∧ releases b' = releases b + 1 ∧
     (∀ u, (u < n)%nat → u ≠ t → where_is b u = Held (releases b)) ∨
   (∃ k, where_is b t = Held k ∧ where_is b' t = Held k ∧ releases b' = releases b) ∨
   (∃ k, where_is b t = Held k ∧ where_is b' t = Out 0 ∧ k < releases b ∧ releases b' = releases b)).
Proof.
  intros Hgood Hst. pose proof Hgood as [Hinv Hdom]. pose proof (Barrier.inv_threads _ _ Hinv) as Hth.
  pose proof (good_step b _ b' Hgood Hst) as Hg. cbn in Hst.
  destruct (Barrier.threads b !! t) as [[p a]|] eqn:Ht; [|done].
  pose proof (Hth t _ Ht) as Hok. unfold Barrier.thread_ok in Hok. cbn in Hok. destruct p as [| |cy|cy]; try done.
  - cbn in Hst. unfold Barrier.barrier_wait, Barrier.wait_loop in Hst. cbn [Barrier.cycle] in Hst.
    destruct (Barrier.counter (Barrier.bar b) - 1 =? 0) eqn:Hc; zbool; cbn in Hst;
      rewrite ?Z.eqb_refl in Hst; cbn in Hst; injection Hst as <-.
    + pose proof (Barrier.last_arrival _ b t a Hinv Ht Hc) as Hlast.
      split_and!.
      * apply Hg. intros u. cbn. rewrite (dom_insert_same _ _ (Barrier.Thr Barrier.Called a))
          by by apply wake_every_other. rewrite lookup_wake_every. by rewrite fmap_is_Some.
      * intros u Hu. cbn. rewrite lookup_insert_ne, lookup_wake_every by done.
        destruct (Barrier.threads b !! u) as [[q a']|]; cbn; [|done]. by destruct q.
      * right; left. cbn. rewrite Ht, lookup_insert_eq. split_and!; try done.
        intros u Hu Hne. destruct (proj2 (Hdom u) Hu) as [[q a'] Hq]. rewrite Hq.
        destruct (Hlast u _ Hq Hne) as [[E1 E2]|[E1 E2]]; cbn in E1, E2; subst; f_equal; lia.
    + split_and!.
      * apply Hg. intros u. by eapply dom_insert_same.
      * by eapply where_insert.
      * left. cbn. rewrite Ht, lookup_insert_eq. split_and!; try done. f_equal. lia.
  - cbn in Hst. unfold Barrier.wait_loop in Hst.
    destruct (cy =? Barrier.cycle (Barrier.bar b)) eqn:Hc; zbool; cbn in Hst; injection Hst as <-;
      (split_and!; [apply Hg; intros u; by eapply dom_insert_same|by eapply where_insert|]).
    + right; right; left. exists (a - 1). cbn. by rewrite Ht, lookup_insert_eq.
    + right; right; right. exists (a - 1). cbn. rewrite Ht, lookup_insert_eq. split_and!; try done.
      destruct Hok as [[? _]|[_ ?]]; [done|]. lia.
Qed.

#[export] Instance barrier_ok : BarrierOk Barrier.sys n (barrier_good n).
Proof.
  split.
  - intros b t Hgood Ht [st Hst]. pose proof Hgood as [Hinv Hdom]. pose proof (good_step b (Barrier.ECall t)) as Hg.
    cbn in Hst, Hg |- *.
    destruct (proj2 (Hdom t) Ht) as [[p a] Hp]. rewrite Hp in *. destruct p; try done.
    rewrite (Barrier.inv_valid _ _ Hinv) in *. cbn in *. eexists. split; [done|].
    split; [eapply Hg; try done; intros u; by eapply dom_insert_same|]. cbn.
    rewrite lookup_insert_eq. split_and!; try done. by eapply where_insert.
  - intros b t b' _ Hst. cbn in *. destruct (Barrier.threads b !! t) as [[p a]|]; [|done].
    destruct p; try done. eauto.
  - intros b t b' Hgood _ Hst. by apply wait_run_cases.
  - intros b t b' Hgood Hst. pose proof (good_step b _ b' Hgood Hst) as Hg. cbn in Hst.
    destruct (Barrier.threads b !! t) as [[p a]|] eqn:Hp; [|done]. destruct p; try done.
    injection Hst as <-. split; [apply Hg; intros u; by eapply dom_insert_same|]. split; [|done].
    intros u. cbn. destruct (decide (u = t)) as [->|]; [by rewrite lookup_insert_eq, Hp|].
    by rewrite lookup_insert_ne.
  - intros b t k [Hinv Hdom] Ht Hw. cbn in *. destruct (proj2 (Hdom t) Ht) as [[p a] Hp]. rewrite Hp in Hw.
    pose proof (Barrier.inv_threads _ _ Hinv t _ Hp) as Hok. unfold Barrier.thread_ok in Hok. cbn in Hok.
    destruct p; try done; injection Hw as <-; lia.
  - intros b t [Hinv Hdom] Ht Hw. cbn in *. destruct (proj2 (Hdom t) Ht) as [[p a] Hp]. rewrite Hp in *.
    destruct p; try done. cbn. eauto.
  - intros b t k [Hinv Hdom] Ht Hw Hk. cbn in *. destruct (proj2 (Hdom t) Ht) as [[p a] Hp]. rewrite Hp in *.
    pose proof (Barrier.inv_threads _ _ Hinv t _ Hp) as Hok. unfold Barrier.thread_ok in Hok. cbn in Hok.
    destruct p as [| |cy|cy]; try done; injection Hw as <-; [lia|].
    destruct Hok as [[_ ?]|[Hne _]]; [lia|]. cbn. eexists. split; [done|].
    unfold Barrier.wait_loop. rewrite (proj2 (Z.eqb_neq _ _) Hne). cbn. by rewrite lookup_insert_eq.
  - intros b [Hinv Hdom] Hall. pose proof (Barrier.inv_counter _ _ Hinv) as Hc.
    pose proof (Barrier.inv_positive _ _ Hinv) as Hp. pose proof (Barrier.inv_size _ _ Hinv) as Hs.
    pose proof (count_negb (Barrier.waiting (Barrier.cycle (Barrier.bar b))) (Barrier.threads b)) as Hneg.
    set (P := λ p, negb (Barrier.waiting (Barrier.cycle (Barrier.bar b)) p)) in *.
    destruct (decide (0 < count P (Barrier.threads b))) as [Hpos|]; [|pose proof (count_nonneg P (Barrier.threads b)); lia].
    apply count_pos in Hpos as (t&[p a]&Ht&Hw). assert (t < n)%nat as Htn by (apply Hdom; eauto).
    specialize (Hall t Htn). cbn in Hall. rewrite Ht in Hall.
    pose proof (Barrier.inv_threads _ _ Hinv t _ Ht) as Hok. unfold Barrier.thread_ok in Hok.
    unfold P, Barrier.waiting in Hw. cbn in *.
    destruct p as [| |cy|cy]; try done; injection Hall as Ha; zbool.
    + by destruct Hok.
    + destruct Hok as [[? _]|[_ ?]]; [done|lia].
  - intros b [Hinv Hdom] Hout. cbn. unfold Barrier.barrier_destroy.
    rewrite (Barrier.inv_valid _ _ Hinv). cbn.
    assert (count (Barrier.waiting (Barrier.cycle (Barrier.bar b))) (Barrier.threads b) = 0) as Hz.
    { match goal with |- count ?P ?ts = 0 => destruct (decide (0 < count P ts)) as [Hp|];
        [|pose proof (count_nonneg P ts); lia] end.
      apply count_pos in Hp as (u&[p a]&Hu&Hw). assert (u < n)%nat as Hun by (apply Hdom; eauto).
      destruct (Hout u Hun) as [st Hst]. cbn in Hst. rewrite Hu in Hst. by destruct p. }
    rewrite (Barrier.inv_counter _ _ Hinv), Hz, Z.sub_0_r, (Barrier.inv_threshold _ _ Hinv), Z.eqb_refl. done.
Qed.

End instance.

(** ** Properties *)

Module BarrierMainResult.
Import BarrierMain.

(** barrier_init, and the threads that will use the barrier *)
Definition new_barrier (n : nat) : Barrier.sys :=
  Barrier.Sys (Barrier.barrier_init (Z.of_nat n) 0 0 (Barrier.Bar 0 0 0 0)).1.2
    (list_to_map ((λ t, (t, Barrier.Thr (Barrier.Idle 0) 0)) <$> seq 0 n)) 0 0.

Lemma new_threads n t :
  Barrier.threads (new_barrier n) !! t =
  if decide (t < n)%nat then Some (Barrier.Thr (Barrier.Idle 0) 0) else None.
Proof.
  cbn. case_decide as Ht.
  - apply elem_of_list_to_map_1.
    + rewrite <- list_fmap_compose. cbn. rewrite list_fmap_id. apply NoDup_seq.
    + apply list_elem_of_fmap. exists t. split; [done|]. apply elem_of_seq. lia.
  - apply not_elem_of_list_to_map_1. rewrite <- list_fmap_compose, list_elem_of_fmap.
    intros (u&->&Hu%elem_of_seq). cbn in Ht. lia.
Qed.

Lemma new_good n : (0 < n)%nat → barrier_good n (new_barrier n).
Proof.
  intros Hn. split.
  - apply Barrier.barrier_initial_inv. split_and!; try done; [lia| |].
    + cbn. rewrite map_size_list_to_map, length_fmap, length_seq; [done|].
      rewrite <- list_fmap_compose. cbn. rewrite list_fmap_id. apply NoDup_seq.
    + intros t th. rewrite new_threads. case_decide; [|done]. by intros [= <-].
  - intros t. rewrite new_threads. case_decide; split; try done; by intros [??].
Qed.

Lemma full_reachable c s :
  (0 < THREADS c)%nat →
  reachable (.= initial (new_barrier (THREADS c))) (step c) s → full c (barrier_good (THREADS c)) s.
Proof.
  intros Hc. apply invariant_reachable.
  - intros s0 ->. apply (full_initial c (barrier_good (THREADS c))); [by apply new_good|done|].
    intros t Ht. exists 0. unfold where_is, barrier_ops. rewrite new_threads. by rewrite decide_True.
  - intros s0 ev s1. apply (full_step c (barrier_good (THREADS c))).
Qed.

(** Array element [x] of thread [t] after all rounds *)
Definition result (c : cfg) (t x : nat) : Z :=
  Z.of_nat x + 1 + Z.of_nat (INLOOPS c) *
    (Z.of_nat (OUTLOOPS c) * Z.of_nat t + Z.of_nat (OUTLOOPS c) * (Z.of_nat (OUTLOOPS c) - 1) / 2).

Lemma rounds_closed c t k :
  rounds c t k = Z.of_nat (INLOOPS c) * (Z.of_nat k * t + Z.of_nat k * (Z.of_nat k - 1) / 2).
Proof.
  induction k as [|k IH]; cbn [rounds]; [change (Z.of_nat 0) with 0; rewrite !Z.mul_0_l; change (0 / 2) with 0; lia|]. rewrite IH.
  assert (Z.of_nat (S k) * (Z.of_nat (S k) - 1) / 2 = Z.of_nat k * (Z.of_nat k - 1) / 2 + Z.of_nat k) as ->.
  { rewrite <- Z.div_add by lia. f_equal. lia. }
  lia.
Qed.

Lemma values_closed c t : values c t (OUTLOOPS c) 0 = result c t <$> seq 0 (ARRAY c).
Proof. unfold values, result. apply list_fmap_ext. intros i x _. rewrite rounds_closed. lia. Qed.

(** With the constants of the source every printed value fits an int. *)
Lemma std_fits t x :
  (t < 5)%nat → (x < 6)%nat →
  result std t x = Z.of_nat x + 1 + 1000 * (10 * Z.of_nat t + 45) ∧ fits_s 32 (result std t x).
Proof.
  intros Ht Hx. assert (result std t x = Z.of_nat x + 1 + 1000 * (10 * Z.of_nat t + 45)) as ->.
  { unfold result. cbn [INLOOPS OUTLOOPS std]. change (Z.of_nat 10 * (Z.of_nat 10 - 1) / 2) with 45. lia. }
  split; [done|]. unfold fits_s. cbn. lia.
Qed.

(** C26 (functional): the test program computes one result in every interleaving of
    its threads and main: array element [x] of thread [t] is printed as x + 1 +
    INLOOPS * (t + (t + 1) + ... + (t + OUTLOOPS - 1)); when main returns every
    increment has grown by one per round, and barrier_destroy has succeeded; and the
    program cannot get stuck before that.  The increment printed for a thread may
    still be one short: main prints it after joining that thread alone. *)
Theorem barrier_main_result c s :
  (0 < THREADS c)%nat →
  reachable (.= initial (new_barrier (THREADS c))) (step c) s →
  (∀ t i a, printed s !! t = Some (i, a) →
     a = result c t <$> seq 0 (ARRAY c) ∧
     (i = Z.of_nat (t + OUTLOOPS c) ∨ i = Z.of_nat (t + OUTLOOPS c) - 1)) ∧
  (∀ st, main s = MExit st → st = 0 ∧ length (printed s) = THREADS c ∧
     ∀ t, (t < THREADS c)%nat → increment s !! t = Some (Z.of_nat (t + OUTLOOPS c))) ∧
  ((∀ t, step c s (EThread t) = None) → step c s EMain = None → main s = MExit 0).
Proof.
  intros Hc Hr%full_reachable; [|done]. pose proof Hr as [[Hl _] Hfin]. split_and!.
  - intros t i a Hp. destruct (Hl t _ Hp) as [Ha Hi]. cbn [fst snd] in Ha, Hi.
    by rewrite values_closed in Ha.
  - intros st Hm. destruct Hfin as [[_ Hne]|(He&(_&Hlen&_)&_&Hf)]; [by destruct (Hne st)|].
    rewrite Hm in He. injection He as ->. split_and!; try done. intros t Ht. by destruct (Hf t Ht).
  - intros Hth Hst. by apply (main_moves c (barrier_good (THREADS c))).
Qed.

(** Two threads, one round: thread 1 gets -1 and has incremented nothing when main
    joins thread 0 and prints its increment. *)
Definition small : cfg := Cfg 2 1 1 1.
Definition race : list event :=
  [EMain; EMain; EMain] ++
  [EThread 0; EThread 0; EThread 1; EThread 1; EThread 1; EThread 0; EThread 0;
   EThread 0; EThread 0; EThread 0; EThread 1; EThread 1; EThread 1;
   EThread 0; EThread 0; EThread 0; EMain].

Lemma barrier_main_print_race :
  ∃ s, run (step small) (initial (new_barrier 2)) race = Some s ∧ printed s = [(0, [1])] ∧
    prog s !! 1%nat = Some (In2 0).
Proof.
  destruct (run (step small) _ race) as [s|] eqn:E; [|vm_compute in E; discriminate E].
  exists s. vm_compute in E. injection E as <-. split_and!; reflexivity.
Qed.

(** The same run to its end *)
Definition whole : list event :=
  take 19 race ++ [EThread 1; EThread 1; EThread 1; EThread 1; EThread 1] ++ replicate 4 EMain.

Lemma barrier_main_result_witness : ∃ s,
  reachable (.= initial (new_barrier 2)) (step small) s ∧ main s = MExit 0 ∧
  printed s !! 1%nat = Some (2, [2]) ∧ [2] = result small 1 <$> seq 0 1 ∧
  increment s !! 1%nat = Some 2.
Proof.
  destruct (run (step small) (initial (new_barrier 2)) whole) as [s|] eqn:E; [|vm_compute in E; discriminate E].
  assert (reachable (.= initial (new_barrier 2)) (step small) s) as Hr.
  { apply (run_reachable _ _ whole (initial (new_barrier 2))); [by apply reach_init|exact E]. }
  assert (main s = MExit 0 ∧ printed s !! 1%nat = Some (2, [2])) as [Hm Hp].
  { clear Hr. vm_compute in E. injection E as <-. split; reflexivity. }
  destruct (barrier_main_result small s) as (H1&H2&_); [cbn; lia|exact Hr|].
  exists s. split_and!; [exact Hr|exact Hm|exact Hp|apply (H1 _ _ _ Hp)|].
  destruct (H2 0 Hm) as (_&_&H3). apply (H3 1%nat). cbn. lia.
Defined.

End BarrierMainResult.
