(* ===== verification/Snull.v ===== *)
(** * Two network interfaces wired to each other

    Models kernel_module/16_1_Network_Device_Driver_simple_snull.c: what one
    interface transmits, the other one receives, with the IP addresses rewritten so
    that it seems to come from another host.

    The kernel's part is in the arguments: whether an allocation succeeds, the
    address list of an interface ([ip_ptr]), ip_fast_csum, and
    skb_copy_and_csum_dev, which copies a packet and may fill in the checksum of its
    transport header, as the device announces NETIF_F_HW_CSUM.  [rx] is what was
    handed to netif_rx.  A result [None] is an access outside a buffer or to freed
    memory.  Packet contents are lists of bytes; the frame buffer is in a heap,
    so that what is never freed can be counted. *)

From S2P Require Import Prelude.

Module Snull.

Definition MAX_ETH_FRAME_SIZE : Z := 1792.
Definition ETH_ZLEN : Z := 60.
Definition ETH_HLEN : Z := 14.
Definition ETHHDR : Z := 14.      (** sizeof (struct ethhdr) *)
Definition IPHDR : Z := 20.       (** sizeof (struct iphdr) *)
(** Offsets of check, saddr and daddr in struct iphdr *)
Definition IP_CHECK : Z := 10.
Definition IP_SADDR : Z := 12.
Definition IP_DADDR : Z := 16.
Definition DEF_MSG_ENABLE : Z := 0xffff.

Record stats := Stats {
  tx_packets : Z; tx_bytes : Z; tx_dropped : Z;
  rx_packets : Z; rx_bytes : Z; rx_dropped : Z
}.

(** struct net_device with its nic_priv *)
Record nic := Nic {
  tx_buf : option nat;
  tx_len : Z;
  msg_enable : Z;
  dev_addr : list Z;
  ip_ptr : option (list (list Z));     (** in_device: the addresses of ifa_list *)
  queue : bool;                        (** netif_start_queue was called last *)
  registered : bool;
  st : stats;
  rx : list (list Z)                   (** history: frames given to netif_rx *)
}.

Record sys := Sys {
  nic_dev : gmap nat nic;              (** live devices by index *)
  heap : gmap nat (list Z)             (** kmalloc'ed frame buffers *)
}.

Definition with_dev (i : nat) (d : nic) (s : sys) : sys := Sys (<[i := d]> (nic_dev s)) (heap s).

Definition peer (i : nat) : nat := match i with O => 1 | _ => 0 end.

(** ** Receiving *)

(** [alloc]: dev_alloc_skb gave memory *)
Definition nic_rx (alloc : bool) (i : nat) (len : Z) (buf : list Z) (s : sys) : option sys :=
  d ← nic_dev s !! i;
  let t := st d in
  if negb alloc then
    Some (with_dev i (Nic (tx_buf d) (tx_len d) (msg_enable d) (dev_addr d) (ip_ptr d) (queue d)
      (registered d)
      (Stats (tx_packets t) (tx_bytes t) (tx_dropped t) (rx_packets t) (rx_bytes t) (rx_dropped t + 1))
      (rx d)) s)
  else
    bytes ← load 0 len buf;
    Some (with_dev i (Nic (tx_buf d) (tx_len d) (msg_enable d) (dev_addr d) (ip_ptr d) (queue d)
      (registered d)
      (Stats (tx_packets t) (tx_bytes t) (tx_dropped t) (rx_packets t + 1) (rx_bytes t + len)
        (rx_dropped t))
      (rx d ++ [bytes])) s).

(** ** Open and close *)

(** [p]: what kmalloc gave, the address and the contents it found there *)
Definition nic_open (p : option (nat * list Z)) (i : nat) (s : sys) : option (Z * sys) :=
  d ← nic_dev s !! i;
  match p with
  | None =>
      Some (- ENOMEM, with_dev i (Nic None (tx_len d) (msg_enable d) (dev_addr d) (ip_ptr d)
        (queue d) (registered d) (st d) (rx d)) s)
  | Some (a, c) =>
      Some (0, Sys (<[i := Nic (Some a) (tx_len d) (msg_enable d) (dev_addr d) (ip_ptr d) true
                       (registered d) (st d) (rx d)]> (nic_dev s))
                   (<[a := c]> (heap s)))
  end.

Definition nic_close (i : nat) (s : sys) : option (Z * sys) :=
  d ← nic_dev s !! i;
  Some (0, with_dev i (Nic (tx_buf d) (tx_len d) (msg_enable d) (dev_addr d) (ip_ptr d) false
    (registered d) (st d) (rx d)) s).

(** ** Transmission *)

(** One of the three loops of dump: "%02X " of [n] bytes from [off] into sbuf, whose
    size is 2 * (ETHHDR + IPHDR); the terminator goes behind the last. *)
Definition dump_line (off n : Z) (buf : list Z) : option (list Z) :=
  bytes ← load off n buf;
  if 3 * n + 1 <=? 2 * (ETHHDR + IPHDR) then Some bytes else None.
Definition dump (buf : list Z) : option (list (list Z)) :=
  e ← dump_line 0 ETHHDR buf;
  h ← dump_line ETHHDR IPHDR buf;
  p ← dump_line (ETHHDR + IPHDR) 4 buf;
  Some [e; h; p].

Section xmit.
(** ip_fast_csum: the two bytes of the checksum of a header of [ihl] words *)
Context (ip_fast_csum : list Z → Z → list Z).

(** Both addresses become ifa_address, and the last byte of the source is
    incremented. *)
Definition next_host (a : list Z) : list Z := take 3 a ++ [u8 (nth 3 a 0 + 1)].
Definition rewrite_addr (a buf : list Z) : option (list Z) :=
  buf ← store (ETHHDR + IP_DADDR) a buf;
  store (ETHHDR + IP_SADDR) (next_host a) buf.

(** [iph->check = 0; iph->check = ip_fast_csum(iph, iph->ihl)] *)
Definition set_check (buf : list Z) : option (list Z) :=
  buf ← store (ETHHDR + IP_CHECK) [0; 0] buf;
  v ← load ETHHDR 1 buf;
  let ihl := Z.land (nth 0 v 0) 15 in
  hdr ← load ETHHDR (4 * ihl) buf;
  store (ETHHDR + IP_CHECK) (ip_fast_csum hdr ihl) buf.

Definition set_buf (i : nat) (d : nic) (a : nat) (buf : list Z) (t : stats) (s : sys) : sys :=
  Sys (<[i := Nic (tx_buf d) (tx_len d) (msg_enable d) (dev_addr d) (ip_ptr d) (queue d)
             (registered d) t (rx d)]> (nic_dev s)) (<[a := buf]> (heap s)).

Definition tx_drop (t : stats) : stats :=
  Stats (tx_packets t) (tx_bytes t) (tx_dropped t + 1) (rx_packets t) (rx_bytes t) (rx_dropped t).
Definition tx_count (len : Z) (t : stats) : stats :=
  Stats (tx_packets t + 1) (tx_bytes t + len) (tx_dropped t) (rx_packets t) (rx_bytes t) (rx_dropped t).

Definition nic_hw_xmit (alloc : bool) (i : nat) (s : sys) : option sys :=
  d ← nic_dev s !! i;
  if tx_len d <? ETHHDR + IPHDR then Some s else
  a ← tx_buf d;
  buf ← heap s !! a;
  _ ← dump buf;
  o ← nic_dev s !! peer i;
  let send buf :=
    buf ← set_check buf;
    nic_rx alloc (peer i) (tx_len d) buf (set_buf i d a buf (tx_count (tx_len d) (st d)) s) in
  match ip_ptr o with
  | Some (addr :: _) => buf ← rewrite_addr addr buf; send buf
  | Some [] => Some (set_buf i d a buf (tx_drop (st d)) s)
  | None => send buf
  end.

(** skb_copy_and_csum_dev: the bytes it writes for a packet *)
Context (skb_copy_and_csum_dev : list Z → list Z).

Definition nic_start_xmit (alloc : bool) (skb : list Z) (i : nat) (s : sys) : option sys :=
  d ← nic_dev s !! i;
  let with_len n t := Nic (tx_buf d) n (msg_enable d) (dev_addr d) (ip_ptr d) (queue d) (registered d)
                          t (rx d) in
  if zlen skb <? MAX_ETH_FRAME_SIZE then
    a ← tx_buf d;
    buf ← heap s !! a;
    buf ← (if zlen skb <? ETH_ZLEN then store 0 (zeros ETH_ZLEN) buf else Some buf);
    buf ← store 0 (skb_copy_and_csum_dev skb) buf;
    let n := if zlen skb <? ETH_ZLEN then ETH_ZLEN else zlen skb in
    nic_hw_xmit alloc i (Sys (<[i := with_len n (st d)]> (nic_dev s)) (<[a := buf]> (heap s)))
  else Some (with_dev i (with_len (zlen skb) (tx_drop (st d))) s).

End xmit.

(** snull_header: push an Ethernet header in front of [data]; [type] is the
    protocol in host order. *)
Definition snull_header (type : Z) (saddr : option (list Z)) (data : list Z) (i : nat) (s : sys)
    : option (list Z) :=
  d ← nic_dev s !! i;
  o ← nic_dev s !! peer i;
  Some (dev_addr o ++ default (dev_addr d) saddr ++ [Z.shiftr type 8; u8 type] ++ data).

(** ** Module *)

Definition no_stats : stats := Stats 0 0 0 0 0 0.

(** nic_alloc_netdev: [mac] is what eth_hw_addr_random chose, [None] a failed
    allocation. *)
Definition nic_alloc_netdev (mac : option (list Z)) : option nic :=
  m ← mac; Some (Nic None 0 0 m None false false no_stats []).

Definition set_registered (b : bool) (d : nic) : nic :=
  Nic (tx_buf d) (tx_len d) (msg_enable d) (dev_addr d) (ip_ptr d) (queue d && b) b (st d) (rx d).
Definition set_msg (d : nic) : nic :=
  Nic (tx_buf d) (tx_len d) DEF_MSG_ENABLE (dev_addr d) (ip_ptr d) (queue d) (registered d) (st d) (rx d).

Definition free_netdev (i : nat) (s : sys) : sys := Sys (delete i (nic_dev s)) (heap s).
(** Closes the interface if it is up (nic_close). *)
Definition unregister_netdev (i : nat) (s : sys) : sys :=
  Sys (alter (set_registered false) i (nic_dev s)) (heap s).
Definition register_netdev (ret : Z) (i : nat) (s : sys) : sys :=
  if ret =? 0 then Sys (alter (set_registered true) i (nic_dev s)) (heap s) else s.

Definition brook_init (mac0 mac1 : option (list Z)) (reg0 reg1 : Z) (s : sys) : Z * sys :=
  match nic_alloc_netdev mac0 with
  | None => (- ENOMEM, s)
  | Some d0 =>
      let s := with_dev 0 d0 s in
      match nic_alloc_netdev mac1 with
      | None => (- ENOMEM, free_netdev 0 s)
      | Some d1 =>
          let s := register_netdev reg0 0 (with_dev 1 d1 s) in
          if negb (reg0 =? 0) then (reg0, free_netdev 0 (free_netdev 1 s)) else
          let s := register_netdev reg1 1 s in
          if negb (reg1 =? 0) then
            (reg1, free_netdev 0 (free_netdev 1 (unregister_netdev 0 s)))
          else (0, Sys (set_msg <$> nic_dev s) (heap s))
      end
  end.

(** The body of the loop of brook_exit *)
Definition exit_step (i : nat) (s : sys) : sys := free_netdev i (unregister_netdev i s).
Definition brook_exit (s : sys) : sys := exit_step 1 (exit_step 0 s).

(** ** What the kernel may call *)

Inductive event :=
| Open (p : option (nat * list Z)) (i : nat)
| Close (i : nat)
| Xmit (alloc : bool) (skb : list Z) (i : nat)
| SetAddr (i : nat) (l : option (list (list Z))).

Definition is_up (i : nat) (s : sys) : bool :=
  match nic_dev s !! i with Some d => queue d | None => false end.

(** dev_open calls ndo_open of an interface that is down, dev_close ndo_stop of one
    that is up, and a packet goes to an interface whose queue was started; kmalloc
    gives 1792 bytes nobody has; an IPv4 address has four bytes. *)
Definition allowed (e : event) (s : sys) : bool :=
  match e with
  | Open p i =>
      bool_decide (is_Some (nic_dev s !! i)) && negb (is_up i s)
      && match p with
         | Some (a, c) => bool_decide (heap s !! a = None) && (zlen c =? MAX_ETH_FRAME_SIZE)
         | None => true
         end
  | Close i => is_up i s
  | Xmit _ _ i => is_up i s
  | SetAddr i l => forallb (λ a, zlen a =? 4) (default [] l)
  end.

Definition set_addr (l : option (list (list Z))) (d : nic) : nic :=
  Nic (tx_buf d) (tx_len d) (msg_enable d) (dev_addr d) l (queue d) (registered d) (st d) (rx d).

Definition do_event (csum : list Z → Z → list Z) (copy : list Z → list Z) (e : event) (s : sys) : option sys :=
  if allowed e s then
    match e with
    | Open p i => snd <$> nic_open p i s
    | Close i => snd <$> nic_close i s
    | Xmit alloc skb i => nic_start_xmit csum copy alloc skb i s
    | SetAddr i l => Some (Sys (alter (set_addr l) i (nic_dev s)) (heap s))
    end
  else Some s.

Fixpoint run (csum : list Z → Z → list Z) (copy : list Z → list Z) (evs : list event) (s : sys)
    : option sys :=
  match evs with
  | [] => Some s
  | e :: evs => s ← do_event csum copy e s; run csum copy evs s
  end.

(** ** Frames as functions of the packet *)

Lemma take_splice {A} (n : nat) off (bs l : list A) :
  0 ≤ off → off + zlen bs ≤ Z.of_nat n → (n ≤ length l)%nat →
  take n (splice off bs l) = splice off bs (take n l).
Proof.
  unfold splice, zlen. intros H0 H1 H2.
  rewrite take_app_ge by (rewrite length_take; lia). rewrite length_take, Nat.min_l by lia.
  rewrite take_app_ge by lia. f_equal; [rewrite take_take; f_equal; lia|]. f_equal.
  rewrite skipn_firstn_comm. f_equal. lia.
Qed.

Lemma slice_take {A} (n : nat) off m (l : list A) :
  0 ≤ off → 0 ≤ m → off + m ≤ Z.of_nat n → slice off m (take n l) = slice off m l.
Proof.
  unfold slice. intros. rewrite skipn_firstn_comm, take_take. f_equal. lia.
Qed.

(** The packet padded to the minimum length *)
Definition pad (skb : list Z) : list Z := skb ++ zeros (ETH_ZLEN - zlen skb).

Lemma zlen_pad skb : zlen (pad skb) = Z.max ETH_ZLEN (zlen skb).
Proof.
  unfold pad. rewrite zlen_app. destruct (decide (ETH_ZLEN ≤ zlen skb)).
  - replace (zlen (zeros _)) with 0; [lia|]. unfold zlen, zeros in *. rewrite length_replicate. lia.
  - rewrite zlen_zeros by lia. lia.
Qed.

Section frames.
Context (ip_fast_csum : list Z → Z → list Z)
        (Hcsum : ∀ h n, zlen (ip_fast_csum h n) = 2)
        (skb_copy_and_csum_dev : list Z → list Z)
        (Hcopy : ∀ skb, zlen (skb_copy_and_csum_dev skb) = zlen skb).

Definition ihl (p : list Z) : Z := Z.land (nth 14 p 0) 15.
Definition checked (p : list Z) : list Z :=
  let p := splice 24 [0; 0] p in
  splice 24 (ip_fast_csum (slice 14 (4 * ihl p) p) (ihl p)) p.
Definition readdressed (a p : list Z) : list Z := splice 26 (next_host a) (splice 30 a p).

Lemma ihl_bound p : 0 ≤ ihl p ≤ 15.
Proof.
  unfold ihl. change 15 with (Z.ones 4) at 1 2. rewrite Z.land_ones by lia.
  pose proof (Z.mod_pos_bound (nth 14 p 0) (2 ^ 4) ltac:(lia)). lia.
Qed.

Lemma zlen_next_host a : zlen a = 4 → zlen (next_host a) = 4.
Proof.
  intros Ha. unfold next_host. rewrite zlen_app. unfold zlen in *. rewrite length_take. cbn [length]. lia.
Qed.

(** What the code does in the buffer, as long as the accesses are inside it *)
Lemma rewrite_addr_ok a buf :
  zlen a = 4 → 34 ≤ zlen buf → rewrite_addr a buf = Some (readdressed a buf).
Proof.
  intros Ha Hb. unfold rewrite_addr, readdressed. cbn [ETHHDR IP_DADDR IP_SADDR].
  change (ETHHDR + IP_DADDR) with 30. change (ETHHDR + IP_SADDR) with 26.
  rewrite store_in_range by lia. cbn.
  rewrite store_in_range; [done|lia|]. rewrite zlen_next_host, splice_length by lia. lia.
Qed.

Lemma nth_slice {A} (p : list A) off d : 0 ≤ off < zlen p → nth 0 (slice off 1 p) d = nth (Z.to_nat off) p d.
Proof.
  intros Ho. unfold slice. change (Z.to_nat 1) with 1%nat.
  destruct (lookup_lt_is_Some_2 p (Z.to_nat off)) as [x Hx]; [unfold zlen in *; lia|].
  rewrite (drop_S p x _ Hx). cbn. symmetry. by apply nth_lookup_Some.
Qed.

Lemma set_check_ok buf :
  74 ≤ zlen buf → set_check ip_fast_csum buf = Some (checked buf).
Proof using Hcsum.
  intros Hb. unfold set_check, checked. change (ETHHDR + IP_CHECK) with 24. change ETHHDR with 14.
  rewrite store_in_range by (unfold zlen in *; cbn; lia). cbn [mbind option_bind].
  set (p := splice 24 [0; 0] buf).
  assert (zlen p = zlen buf) as Hp by (apply splice_length; unfold zlen in *; cbn; lia).
  rewrite load_in_range by lia. cbn [mbind option_bind].
  rewrite nth_slice by lia. change (Z.to_nat 14) with 14%nat. fold (ihl p).
  pose proof (ihl_bound p). rewrite load_in_range by lia. cbn [mbind option_bind].
  rewrite store_in_range; [done|lia|]. rewrite Hcsum. lia.
Qed.

Lemma zlen_checked p : 26 ≤ zlen p → zlen (checked p) = zlen p.
Proof using Hcsum.
  intros Hp. unfold checked. set (q := splice 24 [0; 0] p).
  assert (zlen q = zlen p) as Hq by (apply splice_length; unfold zlen in *; cbn; lia).
  rewrite splice_length; [done|lia|]. rewrite Hcsum. lia.
Qed.

Lemma zlen_readdressed a p : zlen a = 4 → 34 ≤ zlen p → zlen (readdressed a p) = zlen p.
Proof.
  intros Ha Hp. unfold readdressed. rewrite splice_length; [apply splice_length; lia|lia|].
  rewrite zlen_next_host, splice_length by lia. lia.
Qed.

(** The first [n] bytes of the buffer evolve on their own, if they hold the header. *)
Lemma take_readdressed (n : nat) a p :
  zlen a = 4 → (34 ≤ n ≤ length p)%nat → take n (readdressed a p) = readdressed a (take n p).
Proof.
  intros Ha Hn. unfold readdressed.
  assert (length (splice 30 a p) = length p) as Hl
    by (pose proof (splice_length p 30 a); unfold zlen in *; lia).
  rewrite take_splice; [|lia|rewrite zlen_next_host by done; lia|lia].
  rewrite take_splice; [done|lia..].
Qed.

Lemma take_checked (n : nat) p :
  (34 ≤ n ≤ length p)%nat → 14 + 4 * ihl (splice 24 [0; 0] p) ≤ Z.of_nat n →
  take n (checked p) = checked (take n p).
Proof using Hcsum.
  intros Hn Hi. unfold checked. set (q := splice 24 [0; 0] p) in *.
  assert (length q = length p) as Hq.
  { apply Nat2Z.inj. apply (splice_length p 24 [0; 0]); unfold zlen in *; cbn; lia. }
  assert (splice 24 [0; 0] (take n p) = take n q) as ->
    by (symmetry; apply take_splice; unfold zlen; cbn; lia).
  assert (ihl (take n q) = ihl q) as Hih.
  { unfold ihl. by rewrite !nth_lookup, lookup_take_lt by lia. }
  pose proof (ihl_bound q). rewrite Hih, slice_take by lia.
  rewrite take_splice; [done|lia|rewrite Hcsum; lia|lia].
Qed.

(** What becomes of the frame [p] on the way to the peer [o]; [None] when that has no
    address, and the frame is dropped *)
Definition frame (o : nic) (p : list Z) : option (list Z) :=
  match ip_ptr o with
  | Some (a :: _) => Some (checked (readdressed a p))
  | Some [] => None
  | None => Some (checked p)
  end.

Definition addresses (o : nic) : Prop := Forall (λ a, zlen a = 4) (default [] (ip_ptr o)).

(** The header length the packet claims is within the frame. *)
Definition header_fits (skb : list Z) : Prop := 14 + 4 * ihl (pad skb) ≤ zlen (pad skb).

Lemma ihl_splice off bs p : 15 ≤ off → off + zlen bs ≤ zlen p → ihl (splice off bs p) = ihl p.
Proof.
  intros Ho Hb. unfold ihl, splice. f_equal. unfold zlen in *.
  rewrite app_nth1 by (rewrite length_take; lia).
  by rewrite !nth_lookup, lookup_take_lt by lia.
Qed.

Lemma ihl_readdressed a p : zlen a = 4 → 34 ≤ zlen p → ihl (readdressed a p) = ihl p.
Proof.
  intros Ha Hp. unfold readdressed.
  rewrite !ihl_splice; [done|lia..|]. rewrite zlen_next_host, splice_length by lia. lia.
Qed.

(** What nic_start_xmit leaves in the buffer: the padded packet, then old bytes *)
Definition filled (skb buf : list Z) : list Z :=
  splice 0 skb (if zlen skb <? ETH_ZLEN then splice 0 (zeros ETH_ZLEN) buf else buf).

Lemma splice_0 {A} (bs l : list A) : splice 0 bs l = bs ++ drop (length bs) l.
Proof. done. Qed.

Lemma zlen_filled skb buf : zlen skb < 1792 → zlen buf = 1792 → zlen (filled skb buf) = 1792.
Proof.
  intros Hs Hb. unfold filled.
  assert (zlen (if zlen skb <? ETH_ZLEN then splice 0 (zeros ETH_ZLEN) buf else buf) = 1792) as Hl.
  { destruct (zlen skb <? ETH_ZLEN); [|done].
    rewrite splice_length; [done|lia|]. change (zlen (zeros ETH_ZLEN)) with 60. lia. }
  rewrite splice_length; [done|lia|]. lia.
Qed.

Lemma take_filled skb buf :
  zlen skb < 1792 → zlen buf = 1792 → take (length (pad skb)) (filled skb buf) = pad skb.
Proof.
  intros Hs Hb. unfold filled, pad. destruct (Z.ltb_spec (zlen skb) ETH_ZLEN) as [Hz|Hz].
  - rewrite !splice_0. rewrite drop_app_le by (unfold zlen, ETH_ZLEN in *; change (length (zeros 60)) with 60%nat; lia).
    rewrite app_assoc. replace (drop (length skb) (zeros ETH_ZLEN)) with (zeros (ETH_ZLEN - zlen skb)).
    { by rewrite take_app_length. }
    unfold zeros. rewrite drop_replicate. f_equal. unfold zlen. lia.
  - unfold zeros. replace (Z.to_nat (ETH_ZLEN - zlen skb)) with 0%nat by lia.
    rewrite app_nil_r, splice_0. by rewrite take_app_length.
Qed.

Lemma zlen_frame o p f : addresses o → 34 ≤ zlen p → frame o p = Some f → zlen f = zlen p.
Proof using Hcsum.
  unfold addresses, frame. intros Ha Hp Hf. destruct (ip_ptr o) as [[|a l]|]; simplify_eq/=.
  - apply Forall_cons in Ha as [Ha _]. rewrite zlen_checked; rewrite zlen_readdressed by done; lia.
  - rewrite zlen_checked; lia.
Qed.

Lemma take_frame o (n : nat) p :
  addresses o → (34 ≤ n ≤ length p)%nat → 14 + 4 * ihl p ≤ Z.of_nat n →
  take n <$> frame o p = frame o (take n p).
Proof using Hcsum.
  unfold addresses, frame. intros Ha Hn Hi.
  assert (∀ q, (34 ≤ length q)%nat → ihl (splice 24 [0; 0] q) = ihl q) as Hz.
  { intros q Hq. apply ihl_splice; unfold zlen; cbn; lia. }
  destruct (ip_ptr o) as [[|a l]|]; simplify_eq/=; [done|..]; f_equal.
  - apply Forall_cons in Ha as [Ha _].
    pose proof (zlen_readdressed a p Ha ltac:(unfold zlen; lia)) as Hl.
    pose proof (ihl_readdressed a p Ha ltac:(unfold zlen; lia)) as Hr. unfold zlen in Hl.
    rewrite take_checked; [by rewrite take_readdressed|lia|]. rewrite Hz by lia. lia.
  - rewrite take_checked; [done|lia|]. rewrite Hz by lia. lia.
Qed.

(** ** The two devices together *)

(** The peer after nic_rx *)
Definition got (alloc : bool) (bytes : list Z) (o : nic) : nic :=
  let t := st o in
  Nic (tx_buf o) (tx_len o) (msg_enable o) (dev_addr o) (ip_ptr o) (queue o) (registered o)
    (if alloc then Stats (tx_packets t) (tx_bytes t) (tx_dropped t) (rx_packets t + 1)
                     (rx_bytes t + zlen bytes) (rx_dropped t)
     else Stats (tx_packets t) (tx_bytes t) (tx_dropped t) (rx_packets t) (rx_bytes t)
            (rx_dropped t + 1))
    (if alloc then rx o ++ [bytes] else rx o).

Lemma nic_rx_ok alloc j n buf s o :
  nic_dev s !! j = Some o → 0 ≤ n ≤ zlen buf →
  nic_rx alloc j n buf s = Some (with_dev j (got alloc (take (Z.to_nat n) buf) o) s).
Proof.
  intros Ho Hn. unfold nic_rx, got. rewrite Ho. cbn [mbind option_bind].
  destruct alloc; cbn [negb]; [|done]. rewrite load_in_range by lia. cbn [mbind option_bind].
  unfold slice. change (Z.to_nat 0) with 0%nat. rewrite drop_0. unfold zlen in *.
  rewrite length_take. do 4 f_equal. f_equal. lia.
Qed.

Lemma dump_ok buf : 38 ≤ zlen buf → is_Some (dump buf).
Proof.
  intros Hb. unfold dump, dump_line. change ETHHDR with 14. change IPHDR with 20.
  rewrite !load_in_range by lia. cbn. eauto.
Qed.

Lemma peer_ne i : peer i ≠ i.
Proof. by destruct i as [|[]]. Qed.

Lemma nic_hw_xmit_ok alloc i s d o a buf :
  nic_dev s !! i = Some d → nic_dev s !! peer i = Some o → addresses o →
  tx_buf d = Some a → heap s !! a = Some buf → zlen buf = 1792 → 34 ≤ tx_len d ≤ 1792 →
  nic_hw_xmit ip_fast_csum alloc i s = Some
    (match frame o buf with
     | None => set_buf i d a buf (tx_drop (st d)) s
     | Some f => with_dev (peer i) (got alloc (take (Z.to_nat (tx_len d)) f) o)
                   (set_buf i d a f (tx_count (tx_len d) (st d)) s)
     end).
Proof using Hcsum.
  intros Hd Ho Hao Ha Hbuf Hb Hn. unfold nic_hw_xmit. rewrite Hd. cbn [mbind option_bind].
  change (ETHHDR + IPHDR) with 34. rewrite (proj2 (Z.ltb_ge _ _)) by lia.
  rewrite Ha. cbn [mbind option_bind]. rewrite Hbuf. cbn [mbind option_bind].
  destruct (dump_ok buf) as [? ->]; [lia|]. cbn [mbind option_bind]. rewrite Ho. cbn [mbind option_bind].
  assert (∀ q, zlen q = 1792 →
    (b ← set_check ip_fast_csum q;
     nic_rx alloc (peer i) (tx_len d) b (set_buf i d a b (tx_count (tx_len d) (st d)) s)) =
    Some (with_dev (peer i) (got alloc (take (Z.to_nat (tx_len d)) (checked q)) o)
           (set_buf i d a (checked q) (tx_count (tx_len d) (st d)) s))) as Hsend.
  { intros q Hq. rewrite set_check_ok by lia. cbn [mbind option_bind]. apply nic_rx_ok.
    - cbn. by rewrite lookup_insert_ne by (symmetry; apply peer_ne).
    - rewrite zlen_checked; lia. }
  unfold frame, addresses in *. destruct (ip_ptr o) as [[|ad l]|]; cbn [default] in *; [done|..].
  - apply Forall_cons in Hao as [Hao _]. rewrite rewrite_addr_ok by lia. cbn [mbind option_bind].
    apply Hsend. rewrite zlen_readdressed; [done|done|lia].
  - by apply Hsend.
Qed.

Definition with_tx_len (n : Z) (d : nic) : nic :=
  Nic (tx_buf d) n (msg_enable d) (dev_addr d) (ip_ptr d) (queue d) (registered d) (st d) (rx d).

(** Any packet, whatever header it claims to have, on a device that is up *)
Lemma nic_start_xmit_ok alloc skb i s d o a buf :
  nic_dev s !! i = Some d → nic_dev s !! peer i = Some o → addresses o →
  tx_buf d = Some a → heap s !! a = Some buf → zlen buf = 1792 → zlen skb < 1792 →
  let sent := skb_copy_and_csum_dev skb in
  let d1 := with_tx_len (zlen (pad sent)) d in
  nic_start_xmit ip_fast_csum skb_copy_and_csum_dev alloc skb i s = Some
    (match frame o (filled sent buf) with
     | None => set_buf i d1 a (filled sent buf) (tx_drop (st d)) s
     | Some f => with_dev (peer i) (got alloc (take (length (pad sent)) f) o)
                   (set_buf i d1 a f (tx_count (zlen (pad sent)) (st d)) s)
     end).
Proof using Hcsum Hcopy.
  intros Hd Ho Hao Ha Hbuf Hb Hs. cbn zeta. unfold nic_start_xmit.
  rewrite Hd. cbn [mbind option_bind]. unfold MAX_ETH_FRAME_SIZE. rewrite (proj2 (Z.ltb_lt _ _)) by done.
  rewrite Ha. cbn [mbind option_bind]. rewrite Hbuf. cbn [mbind option_bind].
  rewrite <- (Hcopy skb) in Hs |- *. set (sent := skb_copy_and_csum_dev skb) in *.
  assert ((if zlen sent <? ETH_ZLEN then store 0 (zeros ETH_ZLEN) buf else Some buf) =
          Some (if zlen sent <? ETH_ZLEN then splice 0 (zeros ETH_ZLEN) buf else buf)) as ->.
  { destruct (zlen sent <? ETH_ZLEN); [|done].
    apply store_in_range; [lia|]. change (zlen (zeros ETH_ZLEN)) with 60. lia. }
  cbn [mbind option_bind]. rewrite store_in_range; [|lia|].
  2: { destruct (zlen sent <? ETH_ZLEN); [|lia].
       rewrite splice_length; [lia|lia|]. change (zlen (zeros ETH_ZLEN)) with 60. lia. }
  cbn [mbind option_bind]. fold (filled sent buf).
  replace (if zlen sent <? ETH_ZLEN then ETH_ZLEN else zlen sent) with (zlen (pad sent))
    by (rewrite zlen_pad; destruct (Z.ltb_spec (zlen sent) ETH_ZLEN); lia).
  pose proof (zlen_pad sent) as Hp. unfold ETH_ZLEN in Hp.
  rewrite (nic_hw_xmit_ok alloc i _ (with_tx_len (zlen (pad sent)) d) o a (filled sent buf)); cbn -[frame zlen pad filled].
  - unfold set_buf, with_dev. cbn -[frame zlen pad filled]. unfold zlen at 1.
    destruct (frame o (filled sent buf)); by rewrite !insert_insert_eq, ?Nat2Z.id.
  - rewrite lookup_insert_eq. unfold with_tx_len. by rewrite Ha.
  - by rewrite lookup_insert_ne by (symmetry; apply peer_ne).
  - done.
  - done.
  - by rewrite lookup_insert_eq.
  - by apply zlen_filled.
  - lia.
Qed.

(** Apart from the two bytes of the checksum the frame depends on the packet alone. *)
Definition same_but_checksum (f g : list Z) : Prop :=
  zlen f = zlen g ∧ ∀ k, k ≠ 24%nat → k ≠ 25%nat → f !! k = g !! k.

Lemma lookup_splice_out (off : Z) (bs l : list Z) k :
  0 ≤ off → off + zlen bs ≤ zlen l → Z.of_nat k < off ∨ off + zlen bs ≤ Z.of_nat k → splice off bs l !! k = l !! k.
Proof.
  intros H0 H1 Hk. unfold splice, zlen in *. destruct Hk.
  - rewrite lookup_app_l by (rewrite length_take; lia). apply lookup_take_lt. lia.
  - rewrite lookup_app_r by (rewrite length_take; lia). rewrite length_take, Nat.min_l by lia.
    rewrite lookup_app_r, lookup_drop by lia. f_equal. lia.
Qed.

Lemma same_checked p : 26 ≤ zlen p → same_but_checksum (checked p) p.
Proof using Hcsum.
  intros Hp. split; [by apply zlen_checked|]. intros k H4 H5. unfold checked. set (q := splice 24 [0; 0] p).
  assert (zlen q = zlen p) as Hq by (apply splice_length; unfold zlen in *; cbn; lia).
  rewrite lookup_splice_out by (rewrite ?Hcsum; lia).
  apply lookup_splice_out; unfold zlen in *; cbn; lia.
Qed.

Lemma same_take (n : nat) f p : same_but_checksum f p → same_but_checksum (take n f) (take n p).
Proof.
  intros [Hl Hk]. split; [unfold zlen in *; rewrite !length_take; lia|]. intros k H4 H5.
  destruct (decide (k < n)%nat); [rewrite !lookup_take_lt by done; by apply Hk|].
  by rewrite !lookup_take_ge by lia.
Qed.

Lemma take_frame_same o (n : nat) p :
  addresses o → (34 ≤ n ≤ length p)%nat →
  option_Forall2 same_but_checksum (take n <$> frame o p) (frame o (take n p)).
Proof using Hcsum.
  unfold addresses, frame. intros Ha Hn.
  assert (∀ q, zlen q = zlen p → same_but_checksum (take n (checked q)) (checked (take n q))) as Hs.
  { intros q Hq. unfold zlen in *. destruct (same_take n _ _ (same_checked q ltac:(unfold zlen; lia))) as [H1 H2].
    destruct (same_checked (take n q)) as [H3 H4]; [unfold zlen; rewrite length_take; lia|].
    split; [congruence|]. intros k Hk Hk'. rewrite H2, H4; done. }
  destruct (ip_ptr o) as [[|a l]|]; cbn; constructor.
  - apply Forall_cons in Ha as [Ha _]. rewrite <- take_readdressed by done.
    apply Hs, zlen_readdressed; [done|unfold zlen; lia].
  - by apply Hs.
Qed.

(** C24. What an interface that is up transmits is what its peer receives: the bytes that
    skb_copy_and_csum_dev makes of the packet, padded with zeros to 60, the destination
    the peer's first address, the source the next host, the checksum set, and not a
    byte of an earlier packet.  The checksum is that of the frame if the header length
    the packet claims is within it ([header_fits]); in a short frame that claims 48
    bytes or more it also covers bytes of the buffer behind the frame
    ([snull_stale_checksum]), and then the frame is the same but for its two bytes.  A
    packet too long, or for a peer without an address, is counted as dropped. *)
Theorem snull_deliver alloc skb i s d o a buf :
  nic_dev s !! i = Some d → nic_dev s !! peer i = Some o → addresses o →
  tx_buf d = Some a → heap s !! a = Some buf → zlen buf = 1792 →
  let sent := skb_copy_and_csum_dev skb in
  ∃ s' d', nic_start_xmit ip_fast_csum skb_copy_and_csum_dev alloc skb i s = Some s' ∧ nic_dev s' !! i = Some d' ∧
    match (if zlen skb <? 1792 then frame o (pad sent) else None) with
    | Some f => ∃ g, nic_dev s' !! peer i = Some (got alloc g o) ∧ st d' = tx_count (zlen f) (st d) ∧
        same_but_checksum g f ∧ (header_fits sent → g = f)
    | None => nic_dev s' !! peer i = Some o ∧ st d' = tx_drop (st d)
    end.
Proof using Hcsum Hcopy.
  intros Hd Ho Hao Ha Hbuf Hb sent. pose proof (peer_ne i) as Hi.
  destruct (Z.ltb_spec (zlen skb) 1792) as [Hs|Hs].
  2: { eexists _, _. unfold nic_start_xmit. rewrite Hd. cbn [mbind option_bind].
       unfold MAX_ETH_FRAME_SIZE. rewrite (proj2 (Z.ltb_ge _ _)) by done.
       split; [done|]. cbn. by rewrite lookup_insert_eq, lookup_insert_ne. }
  rewrite (nic_start_xmit_ok alloc skb i s d o a buf) by done. fold sent.
  rewrite <- (Hcopy skb) in Hs. fold sent in Hs. clearbody sent.
  unfold header_fits. pose proof (zlen_pad sent) as Hp. unfold ETH_ZLEN in Hp.
  pose proof (zlen_filled sent buf Hs Hb) as Hf. pose proof (take_filled sent buf Hs Hb) as Ht.
  assert (ihl (filled sent buf) = ihl (pad sent)) as Hih.
  { rewrite <- Ht. unfold ihl. by rewrite !nth_lookup, lookup_take_lt by (unfold zlen in *; lia). }
  pose proof (take_frame_same o (length (pad sent)) (filled sent buf) Hao ltac:(unfold zlen in *; lia)) as Hsame.
  assert (14 + 4 * ihl (pad sent) ≤ zlen (pad sent) →
    frame o (pad sent) = take (length (pad sent)) <$> frame o (filled sent buf)) as Hfit.
  { intros Hh. rewrite take_frame, Ht; [done|done|unfold zlen in *; lia..]. }
  rewrite Ht in Hsame. destruct (frame o (filled sent buf)) as [f|] eqn:Hfr; cbn -[got pad take zlen] in *;
    inversion Hsame as [? f' Hff Ef Ef'|Ef]; eexists _, _; (split; [done|]); cbn -[got pad take zlen].
  - rewrite lookup_insert_ne, lookup_insert_eq by done. split; [done|].
    rewrite lookup_insert_eq. eexists. split_and!; [done| |done|].
    + cbn -[pad take zlen]. f_equal. symmetry in Ef'. apply zlen_frame in Ef'; [done|done|lia].
    + intros Hh. specialize (Hfit Hh). congruence.
  - by rewrite lookup_insert_eq, lookup_insert_ne.
Qed.

(** ** Any sequence of calls *)

Definition dev_ok (h : gmap nat (list Z)) (d : nic) : Prop :=
  addresses d ∧
  (queue d = true → ∃ a buf, tx_buf d = Some a ∧ h !! a = Some buf ∧ zlen buf = 1792).
Definition inv (s : sys) : Prop :=
  dom (nic_dev s) = {[0; 1]}%nat ∧ map_Forall (λ _, dev_ok (heap s)) (nic_dev s).

(** Buffers are added or rewritten in place, never freed. *)
Definition heap_grows (h h' : gmap nat (list Z)) : Prop :=
  ∀ a buf, h !! a = Some buf → ∃ buf', h' !! a = Some buf' ∧ zlen buf' = zlen buf.

Lemma heap_grows_refl h : heap_grows h h.
Proof. intros a buf Ha. eauto. Qed.

Lemma heap_grows_insert h a buf' :
  (∀ buf, h !! a = Some buf → zlen buf' = zlen buf) → heap_grows h (<[a := buf']> h).
Proof.
  intros Hl b buf Hb. destruct (decide (a = b)) as [->|].
  - rewrite lookup_insert_eq. eauto.
  - rewrite lookup_insert_ne by done. eauto.
Qed.

Lemma heap_grows_trans h1 h2 h3 : heap_grows h1 h2 → heap_grows h2 h3 → heap_grows h1 h3.
Proof.
  intros H1 H2 a buf Ha. destruct (H1 _ _ Ha) as (b & Hb & <-). destruct (H2 _ _ Hb) as (c & Hc & <-).
  eauto.
Qed.

Lemma dev_ok_grows h h' d : heap_grows h h' → dev_ok h d → dev_ok h' d.
Proof.
  intros Hh [Ha Hq]. split; [done|]. intros Hd. destruct (Hq Hd) as (a & buf & ? & Hb & Hl).
  destruct (Hh _ _ Hb) as (buf' & ? & ?). exists a, buf'. split_and!; [done|done|lia].
Qed.

(** One device changes, the heap grows. *)
Lemma inv_insert s i d h' :
  inv s → is_Some (nic_dev s !! i) → heap_grows (heap s) h' → dev_ok h' d →
  inv (Sys (<[i := d]> (nic_dev s)) h').
Proof.
  intros [Hdom Hf] [d0 Hi] Hh Hd. split; cbn.
  - rewrite dom_insert_L, Hdom. apply elem_of_dom_2 in Hi. rewrite Hdom in Hi. set_solver.
  - apply map_Forall_insert_2; [done|]. intros j dj Hj. eapply dev_ok_grows; [done|]. by eapply Hf.
Qed.

Lemma inv_peer s i d : inv s → nic_dev s !! i = Some d → is_Some (nic_dev s !! peer i).
Proof.
  intros [Hdom _] Hi. apply elem_of_dom. apply elem_of_dom_2 in Hi. rewrite Hdom in *.
  destruct i as [|[|i]]; cbn; set_solver.
Qed.

Lemma inv_xmit alloc skb i s :
  inv s → is_up i s = true →
  ∃ s', nic_start_xmit ip_fast_csum skb_copy_and_csum_dev alloc skb i s = Some s' ∧ inv s' ∧ heap_grows (heap s) (heap s').
Proof using Hcsum Hcopy.
  intros Hinv Hup. unfold is_up in Hup. destruct (nic_dev s !! i) as [d|] eqn:Hd; [|done].
  destruct (inv_peer s i d Hinv Hd) as [o Ho].
  pose proof (proj2 Hinv _ _ Hd) as [Had Hq]. pose proof (proj2 Hinv _ _ Ho) as [Hao Hqo].
  destruct (Hq Hup) as (a & buf & Ha & Hbuf & Hb).
  destruct (Z.ltb_spec (zlen skb) 1792) as [Hs|Hs].
  2: { eexists. unfold nic_start_xmit. rewrite Hd. cbn [mbind option_bind].
       unfold MAX_ETH_FRAME_SIZE. rewrite (proj2 (Z.ltb_ge _ _)) by done.
       split_and!; [done| |apply heap_grows_refl].
       apply inv_insert; [done|eauto|apply heap_grows_refl|by split]. }
  rewrite (nic_start_xmit_ok alloc skb i s d o a buf) by done.
  rewrite <- (Hcopy skb) in Hs. set (sent := skb_copy_and_csum_dev skb) in *.
  pose proof (zlen_filled sent buf Hs Hb) as Hf.
  assert (∀ b, zlen b = 1792 → heap_grows (heap s) (<[a := b]> (heap s))) as Hg.
  { intros b Hz. apply heap_grows_insert. intros ? Hx. simplify_eq. lia. }
  assert (∀ b t, zlen b = 1792 → inv (set_buf i (with_tx_len (zlen (pad sent)) d) a b t s)) as Hset.
  { intros b t Hz. apply inv_insert; [done|eauto|by apply Hg|].
    eapply dev_ok_grows; [by apply Hg|]. by split. }
  destruct (frame o (filled sent buf)) as [f|] eqn:Hfr; eexists; (split; [done|]); cbn -[set_buf got pad].
  - apply zlen_frame in Hfr; [|done|lia]. rewrite Hf in Hfr. split; [|by apply Hg].
    apply inv_insert; [by apply Hset| |apply heap_grows_refl|].
    + cbn. rewrite lookup_insert_ne by (symmetry; apply peer_ne). eauto.
    + eapply dev_ok_grows; [by apply Hg|]. by split.
  - split; [by apply Hset|by apply Hg].
Qed.

Lemma forallb_addresses (l : option (list (list Z))) :
  forallb (λ a, zlen a =? 4) (default [] l) = true → Forall (λ a, zlen a = 4) (default [] l).
Proof. rewrite forallb_forall, Forall_forall. intros H x Hx. apply list_elem_of_In in Hx. apply H in Hx. lia. Qed.

Lemma inv_event e s :
  inv s → ∃ s', do_event ip_fast_csum skb_copy_and_csum_dev e s = Some s' ∧ inv s' ∧ heap_grows (heap s) (heap s').
Proof using Hcsum Hcopy.
  intros Hinv. unfold do_event. destruct (allowed e s) eqn:Hal; [|eauto using heap_grows_refl].
  destruct e as [p i|i|alloc skb i|i l]; cbn [allowed] in Hal.
  - apply andb_prop in Hal as [[[d Hd]%bool_decide_eq_true Hup]%andb_prop Hp].
    unfold is_up in Hup. rewrite Hd in Hup.
    pose proof (proj2 Hinv _ _ Hd) as [Had Hq]. unfold nic_open. rewrite Hd. cbn [mbind option_bind].
    destruct p as [[a c]|]; (eexists; split; [done|]); cbn [snd].
    + apply andb_prop in Hp as [Hp%bool_decide_eq_true Hc].
      assert (heap_grows (heap s) (<[a := c]> (heap s))) as Hg
        by (apply heap_grows_insert; intros ? ?; simplify_eq).
      split; [|done]. apply inv_insert; [done|eauto|done|]. split; [done|]. intros _.
      exists a, c. cbn. rewrite lookup_insert_eq. unfold MAX_ETH_FRAME_SIZE in *. split_and!; [done..|lia].
    + split; [|apply heap_grows_refl].
      apply inv_insert; [done|eauto|apply heap_grows_refl|]. split; [done|]. cbn. intros Hx.
      by rewrite Hx in Hup.
  - unfold is_up in Hal. destruct (nic_dev s !! i) as [d|] eqn:Hd; [|done].
    pose proof (proj2 Hinv _ _ Hd) as [Had Hq]. unfold nic_close. rewrite Hd.
    eexists; split; [done|]. cbn [snd]. split; [|apply heap_grows_refl].
    apply inv_insert; [done|eauto|apply heap_grows_refl|by split].
  - by apply inv_xmit.
  - eexists; split; [done|]. cbn. split; [|apply heap_grows_refl]. split; cbn.
    + rewrite dom_alter_L. apply Hinv.
    + intros j d Hj. destruct (decide (i = j)) as [->|].
      * rewrite lookup_alter_eq in Hj. destruct (nic_dev s !! j) as [d0|] eqn:H0; simplify_eq/=.
        pose proof (proj2 Hinv _ _ H0) as [_ Hq]. split; [by apply forallb_addresses|done].
      * rewrite lookup_alter_ne in Hj by done. by eapply (proj2 Hinv).
Qed.

Lemma inv_run evs s :
  inv s → ∃ s', run ip_fast_csum skb_copy_and_csum_dev evs s = Some s' ∧ inv s' ∧ heap_grows (heap s) (heap s').
Proof using Hcsum Hcopy.
  revert s. induction evs as [|e evs IH]; intros s Hinv; cbn [run]; [eauto using heap_grows_refl|].
  destruct (inv_event e s Hinv) as (s1 & -> & Hinv1 & Hg1). cbn [mbind option_bind].
  destruct (IH s1 Hinv1) as (s2 & -> & Hinv2 & Hg2). eauto using heap_grows_trans.
Qed.

Lemma brook_init_ok mac0 mac1 h :
  ∃ s, brook_init (Some mac0) (Some mac1) 0 0 (Sys ∅ h) = (0, s) ∧ inv s ∧ heap s = h.
Proof.
  eexists. split; [reflexivity|]. split; [|done]. split; cbn.
  - rewrite dom_fmap_L, !dom_alter_L, !dom_insert_L. set_solver.
  - intros i d Hd. rewrite lookup_fmap in Hd.
    destruct i as [|[|i]];
      [vm_compute in Hd; simplify_eq; split; [apply Forall_nil_2|done]..|].
    by rewrite !lookup_alter_ne, !lookup_insert_ne, lookup_empty in Hd by done.
Qed.

Lemma brook_exit_inv s : inv s → brook_exit s = Sys ∅ (heap s).
Proof.
  intros [Hdom _]. unfold brook_exit, exit_step, free_netdev, unregister_netdev. cbn. f_equal.
  apply dom_empty_inv_L. rewrite dom_delete_L, dom_alter_L, dom_delete_L, dom_alter_L, Hdom. set_solver.
Qed.

(** Once the module is loaded, no sequence of opens, closes, address changes and
    packets of any length and content makes it leave its buffers or use freed
    memory, and both devices stay live; no frame buffer that was ever there is freed,
    neither by a close nor by the exit of the module, which frees both devices. *)
Theorem snull_run mac0 mac1 h s evs :
  brook_init (Some mac0) (Some mac1) 0 0 (Sys ∅ h) = (0, s) →
  ∃ s', run ip_fast_csum skb_copy_and_csum_dev evs s = Some s' ∧ dom (nic_dev s') = {[0; 1]}%nat ∧
        heap_grows h (heap s') ∧ brook_exit s' = Sys ∅ (heap s').
Proof using Hcsum Hcopy.
  intros Hi. destruct (brook_init_ok mac0 mac1 h) as (s0 & H0 & Hinv & Hh).
  rewrite H0 in Hi. injection Hi as <-. subst h.
  destruct (inv_run evs s0 Hinv) as (s' & Hr & Hinv' & Hg).
  exists s'. split_and!; [done|apply Hinv'|done|by apply brook_exit_inv].
Qed.

End frames.

(** The Internet checksum, as the kernel documents ip_fast_csum: the complement of
    the ones' complement sum of the header's 16 bit words *)
Fixpoint word_sum (l : list Z) : Z :=
  match l with a :: b :: l => a * 256 + b + word_sum l | _ => 0 end.
Definition inet_csum (h : list Z) (n : Z) : list Z :=
  let s := word_sum h in
  let s := s mod 65536 + s / 65536 in
  let s := 65535 - (s mod 65536 + s / 65536) in
  [Z.shiftr s 8; u8 s].

(** A ping from 192.168.1.1 to 192.168.1.2 through the first interface *)
Definition ping : list Z :=
  [2; 230; 5; 137; 25; 205] ++ [70; 72; 158; 165; 158; 147] ++ [8; 0] ++
  [69; 0; 0; 28; 0; 0; 64; 0; 64; 1; 0; 0; 192; 168; 1; 1; 192; 168; 1; 2] ++ [8; 0; 247; 255].
Definition demo_events : list event :=
  [Open (Some (7%nat, zeros 1792)) 0; Open (Some (8%nat, zeros 1792)) 1;
   SetAddr 0 (Some [[192; 168; 1; 1]]); SetAddr 1 (Some [[192; 168; 2; 1]])].
Definition demo_init : sys :=
  snd (brook_init (Some [70; 72; 158; 165; 158; 147]) (Some [2; 230; 5; 137; 25; 205]) 0 0 (Sys ∅ ∅)).
Definition demo : sys := default demo_init (run inet_csum id demo_events demo_init).

(** The frame comes out of the second interface as if from 192.168.2.2, with a
    checksum that adds up. *)
Example ping_delivered :
  ∃ s' o, nic_start_xmit inet_csum id true ping 0 demo = Some s' ∧ nic_dev s' !! 1%nat = Some o ∧
    rx o = [take 24 ping ++ [181; 141] ++ [192; 168; 2; 2; 192; 168; 2; 1] ++ drop 34 ping
             ++ zeros 22].
Proof. eexists _, _. vm_compute. split_and!; reflexivity. Qed.

Lemma snull_deliver_witness :
  ∃ s' d', nic_start_xmit inet_csum id true ping 0 demo = Some s' ∧ nic_dev s' !! 0%nat = Some d' ∧
    tx_packets (st d') = 1.
Proof.
  destruct (nic_dev demo !! 0%nat) as [d|] eqn:Hd; [|by vm_compute in Hd].
  destruct (nic_dev demo !! 1%nat) as [o|] eqn:Ho; [|by vm_compute in Ho].
  destruct (heap demo !! 7%nat) as [buf|] eqn:Hb; [|by vm_compute in Hb].
  edestruct (snull_deliver inet_csum (λ _ _, eq_refl) id (λ _, eq_refl) true ping 0 demo d o 7 buf) as (s' & d' & E & Hd' & Hm);
    [done|done| | |done| |].
  - vm_compute in Ho. simplify_eq. repeat constructor.
  - vm_compute in Hd. by simplify_eq.
  - vm_compute in Hb. by simplify_eq.
  - exists s', d'. split; [done|]. split; [done|].
    vm_compute in Ho. injection Ho as <-. vm_compute in Hd. injection Hd as <-.
    destruct Hm as (g & _ & -> & _). by vm_compute.
Defined.

(** A packet of 34 bytes that claims a header of 60: its checksum depends on what an
    earlier packet left behind byte 60 of the buffer. *)
Definition long_header : list Z := take 14 ping ++ [79] ++ drop 15 (take 34 ping).
Definition noise : list Z := ping ++ replicate 60 1.
Lemma snull_stale_checksum : ∃ s1 s2 o1 o2 f1 f2,
  run inet_csum id [Xmit true long_header 0] demo = Some s1 ∧
  run inet_csum id [Xmit true noise 0; Xmit true long_header 0] demo = Some s2 ∧
  nic_dev s1 !! 1%nat = Some o1 ∧ nic_dev s2 !! 1%nat = Some o2 ∧ last (rx o1) = Some f1 ∧ last (rx o2) = Some f2 ∧ f1 ≠ f2.
Proof.
  do 6 eexists. split; [vm_compute; reflexivity|]. split; [vm_compute; reflexivity|]. split; [vm_compute; reflexivity|].
  split; [vm_compute; reflexivity|]. split; [vm_compute; reflexivity|]. split; [vm_compute; reflexivity|]. discriminate.
Qed.

Lemma snull_run_witness :
  ∃ s', run inet_csum id (demo_events ++ [Xmit true ping 0; Close 0; Open (Some (9%nat, zeros 1792)) 0])
          demo_init = Some s' ∧ brook_exit s' = Sys ∅ (heap s').
Proof.
  edestruct (snull_run inet_csum (λ _ _, eq_refl) id (λ _, eq_refl)) as (s' & E & _ & _ & Hx); [reflexivity|].
  exists s'. split; [exact E|exact Hx].
Defined.

(** The buffer of each open is still there after the module's exit. *)
Lemma snull_leak :
  ∃ s', run inet_csum id (demo_events ++ [Close 0; Open (Some (9%nat, zeros 1792)) 0; Close 0; Close 1])
          demo_init = Some s' ∧ nic_dev (brook_exit s') = ∅ ∧
        dom (heap (brook_exit s')) = {[7; 8; 9]}%nat.
Proof. eexists. split; [vm_compute; reflexivity|]. split; vm_compute; reflexivity. Qed.

(** brook_exit frees the first interface while the second is still up: a packet sent
    there now reads the freed device. *)
Lemma snull_exit_window : nic_start_xmit inet_csum id true ping 1 (exit_step 0 demo) = None.
Proof. by vm_compute. Qed.

(** The first bytes of an IPv6 frame (type 86 DD), as in the log of the source; its
    bytes 26 to 33, the middle of the source address, are overwritten all the same. *)
Definition neighbour : list Z :=
  [2; 230; 5; 137; 25; 205; 70; 72; 158; 165; 158; 147; 134; 221] ++
  [96; 1; 185; 58; 0; 53; 17; 255; 254; 128; 0; 0; 0; 0; 0; 0; 68; 72; 158; 255] ++ [254; 165; 158; 147].
Lemma snull_rewrites_ipv6 :
  ∃ s' o f, nic_start_xmit inet_csum id true neighbour 0 demo = Some s' ∧ nic_dev s' !! 1%nat = Some o ∧
    rx o = [f] ∧ slice 22 16 f ≠ slice 22 16 neighbour ∧ slice 26 8 f = [192; 168; 2; 2; 192; 168; 2; 1].
Proof. eexists _, _, _. split; [vm_compute; reflexivity|]. split; [vm_compute; reflexivity|].
  split; [reflexivity|]. by vm_compute. Qed.

(** A failed load leaves nothing behind. *)
Lemma snull_init_fails mac0 mac1 r0 r1 h ret s :
  brook_init mac0 mac1 r0 r1 (Sys ∅ h) = (ret, s) → ret ≠ 0 → s = Sys ∅ h.
Proof.
  unfold brook_init. intros E Hr. destruct mac0 as [m0|]; cbn in E; [|by simplify_eq].
  destruct mac1 as [m1|]; cbn in E; [|by simplify_eq].
  unfold register_netdev in E.
  destruct (r0 =? 0), (r1 =? 0); cbn in E; simplify_eq; f_equal;
    apply map_eq; intros [|[|k]]; reflexivity.
Qed.

End Snull.
