(* ===== verification/Second.v ===== *)
(** * A device that counts seconds

    Models ldd-k4/kernel/drivers/second/second.c: a kernel timer re-arms itself
    every HZ jiffies and increments a counter which a read returns.

    [jiffies], the timer wheel and the softirq that runs the handler are the
    kernel's; a step relation interleaves them with the calls of the driver.  The
    handler runs in two steps, because it may be on another processor: between
    them the timer is no longer pending, and del_timer does not wait for it. *)

From S2P Require Import Prelude Kernel.

Module Second.

Definition SECOND_MAJOR : Z := 248.

(** Where the handler is *)
Inductive hpc := Idle | Entered | Rearmed.

(** Where the open in progress is, between add_timer and atomic_set *)
Inductive opc := NotOpening | Added.

(** struct second_dev; [bad] is set when a pending timer is initialised again (the
    timer list is corrupted) or the timer of freed memory is used. *)
Record sys := Sys {
  jiffies : Z;
  counter : Z;                  (** atomic_t, 32 bits *)
  s_timer : option Z;           (** expires, of a pending timer *)
  handler : hpc;
  opening : opc;
  freed : bool;
  bad : bool
}.

Definition set_timer (t : option Z) (s : sys) : sys :=
  Sys (jiffies s) (counter s) t (handler s) (opening s) (freed s) (bad s || freed s).
Definition set_counter (c : Z) (s : sys) : sys :=
  Sys (jiffies s) c (s_timer s) (handler s) (opening s) (freed s) (bad s || freed s).
Definition set_handler (h : hpc) (s : sys) : sys :=
  Sys (jiffies s) (counter s) (s_timer s) h (opening s) (freed s) (bad s).
Definition set_opening (o : opc) (s : sys) : sys :=
  Sys (jiffies s) (counter s) (s_timer s) (handler s) o (freed s) (bad s).

Section second.
Context (HZ : Z).

(** second_timer_handler: mod_timer, then atomic_inc *)
Definition second_timer_handler (s : sys) : option sys :=
  match handler s with
  | Idle => None
  | Entered => Some (set_handler Rearmed (set_timer (Some (jiffies s + HZ)) s))
  | Rearmed => Some (set_handler Idle (set_counter (s32 (counter s + 1)) s))
  end.

(** second_open up to add_timer, and its atomic_set *)
Definition second_open_add (s : sys) : sys :=
  let s := Sys (jiffies s) (counter s) None (handler s) (opening s) (freed s)
             (bad s || bool_decide (is_Some (s_timer s))) in
  set_opening Added (set_timer (Some (jiffies s + HZ)) s).
Definition second_open_set (s : sys) : sys := set_opening NotOpening (set_counter 0 s).

Definition second_open (s : sys) : sys := second_open_set (second_open_add s).

Definition second_release (s : sys) : sys := set_timer None s.

(** [ok]: put_user reached the buffer; the second component is what it stored. *)
Definition second_read (ok : bool) (s : sys) : Z * option Z :=
  if ok then (4, Some (counter s)) else (- EFAULT, None).

(** The kernel detaches an expired timer and calls its function. *)
Definition expire (s : sys) : option sys :=
  match s_timer s, handler s with
  | Some e, Idle => if e <=? jiffies s then Some (set_handler Entered (set_timer None s)) else None
  | _, _ => None
  end.
Definition tick (s : sys) : sys :=
  Sys (jiffies s + 1) (counter s) (s_timer s) (handler s) (opening s) (freed s) (bad s).

(** The softirq keeps up: a jiffy does not pass while a timer waits for its handler. *)
Definition timely (s : sys) : Prop :=
  handler s = Idle ∧ ∀ e, s_timer s = Some e → jiffies s < e.

(** While the device is held open by one process; [strict] is for a kernel that keeps
    up. *)
Inductive step (strict : bool) : sys → sys → Prop :=
| step_tick s : (strict = true → timely s) → step strict s (tick s)
| step_expire s s' : expire s = Some s' → step strict s s'
| step_handler s s' : second_timer_handler s = Some s' → step strict s s'.

(** ** Module *)

Definition second_setup_cdev {W} `{ChrdevKernel W} (second_major dev index : Z) (w : W) : W :=
  single_setup second_major dev index w.
Definition second_init {W} `{ChrdevKernel W} (sz second_major : Z) (w : W) : Z * Z * option Z * W :=
  single_init sz second_major w.
Definition second_exit {W} `{ChrdevKernel W} (second_major devp : Z) (w : W) : W :=
  single_exit second_major devp w.

(** second_exit as the timer sees it: the structure that holds it is freed. *)
Definition unload (s : sys) : sys :=
  Sys (jiffies s) (counter s) (s_timer s) (handler s) (opening s) true (bad s).

(** ** The counter is the time *)

(** [j0] is the jiffy of the open, [n] the number of handlers completed. *)
Definition on_time (strict : bool) (j0 n : Z) (s : sys) : Prop :=
  match handler s, s_timer s with
  | Idle, Some e =>
      j0 + (n + 1) * HZ ≤ e ≤ jiffies s + HZ ∧ (strict = true → e = j0 + (n + 1) * HZ ∧ jiffies s ≤ e)
  | Entered, None =>
      j0 + (n + 1) * HZ ≤ jiffies s ∧ (strict = true → jiffies s = j0 + (n + 1) * HZ)
  | Rearmed, Some e =>
      j0 + (n + 2) * HZ ≤ e ≤ jiffies s + HZ ∧
      (strict = true → e = j0 + (n + 2) * HZ ∧ jiffies s = j0 + (n + 1) * HZ)
  | _, _ => False
  end.
Record counting (strict : bool) (j0 : Z) (s : sys) (n : Z) : Prop := Counting {
  cnt_n : 0 ≤ n;
  cnt_value : counter s = s32 n;
  cnt_ok : bad s = false ∧ freed s = false;
  cnt_time : on_time strict j0 n s
}.

Lemma counting_open strict s :
  0 < HZ → freed s = false → bad s = false → s_timer s = None → handler s = Idle →
  counting strict (jiffies s) (second_open s) 0.
Proof.
  intros HHZ Hf Hb Ht Hh. unfold second_open, second_open_set, second_open_add. split; [lia|done|..].
  - cbn. by rewrite Hf, Hb, Ht.
  - unfold on_time. cbn. rewrite Hh. lia.
Qed.

Lemma counting_step strict j0 s s' :
  0 < HZ → (∃ n, counting strict j0 s n) → step strict s s' → ∃ n, counting strict j0 s' n.
Proof.
  intros HHZ [n [Hn Hv [Hb Hf] Ht]] Hs. unfold on_time in Ht. destruct Hs as [s Hst|s s' E|s s' E].
  - exists n. split; [done..|]. unfold on_time, timely in *. cbn.
    destruct (handler s), (s_timer s) as [e|]; try done; split; try lia; intros Hs;
      destruct (Hst Hs) as [Hi He]; try done. specialize (He _ eq_refl). split; [by apply Ht|lia].
  - unfold expire in E. destruct (s_timer s) as [e|] eqn:Et; [|done].
    destruct (handler s) eqn:Hh; try done. destruct (Z.leb_spec e (jiffies s)); [|done].
    simplify_eq. exists n. split; cbn; [done..|by rewrite Hb, Hf|]. unfold on_time. cbn.
    split; [lia|]. intros Hs. destruct Ht as [? Ht]. specialize (Ht Hs). lia.
  - unfold second_timer_handler in E.
    destruct (handler s) eqn:Hh, (s_timer s) as [e|] eqn:Et; try done; simplify_eq.
    + exists n. split; cbn; [done..|by rewrite Hb, Hf|]. unfold on_time. cbn.
      split; [lia|]. intros Hs. destruct Ht as [? Ht]. specialize (Ht Hs). lia.
    + exists (n + 1). split; cbn; [lia| |by rewrite Hb, Hf|].
      * rewrite Hv. unfold swrap. Z.to_euclidean_division_equations; lia.
      * unfold on_time. cbn. rewrite Et. split; [lia|]. intros Hs. destruct Ht as [? Ht].
        specialize (Ht Hs). lia.
Qed.

(** After an open with no timer pending, a read gives the seconds since: never
    more than have passed, and exactly that many when each expired timer is handled
    within its jiffy; meanwhile the timer is never armed twice. *)
Theorem second_counts strict s0 s :
  0 < HZ → freed s0 = false → bad s0 = false → s_timer s0 = None → handler s0 = Idle →
  rtc (step strict) (second_open s0) s →
  bad s = false ∧
  ∃ n, second_read true s = (4, Some (s32 n)) ∧ 0 ≤ n ≤ (jiffies s - jiffies s0) / HZ ∧
       (strict = true → timely s → n = (jiffies s - jiffies s0) / HZ).
Proof.
  intros HHZ Hf Hb Ht Hh Hr.
  assert (∃ n, counting strict (jiffies s0) s n) as [n [Hn Hv [Hok _] Htime]].
  { assert (∃ n, counting strict (jiffies s0) (second_open s0) n) as Hi by eauto using counting_open.
    revert Hi. induction Hr as [|a b c Hs Hr IH]; [done|]. eauto using counting_step. }
  split; [done|]. exists n. unfold second_read. rewrite Hv. split; [done|].
  unfold on_time in Htime. split.
  - split; [done|]. apply Z.div_le_lower_bound; [done|].
    destruct (handler s), (s_timer s); try done; lia.
  - intros Hs [Hi He]. rewrite Hi in Htime. destruct (s_timer s) as [e|]; [|done].
    destruct Htime as [? Htime]. specialize (Htime Hs). specialize (He _ eq_refl).
    apply Z.div_unique with (jiffies s - jiffies s0 - n * HZ); lia.
Qed.

End second.

Definition demo : sys := Sys 1000 7 None Idle NotOpening false false.

Ltac tk := eapply rtc_l; [apply step_tick; intros _; split; [reflexivity|]; intros ? [= <-]; cbn; lia|].
Ltac ex := eapply rtc_l; [apply step_expire; vm_compute; reflexivity|].
Ltac hd := eapply rtc_l; [apply step_handler; vm_compute; reflexivity|].

(** Two jiffies a second: five jiffies after the open *)
Definition demo_later : sys := Sys 1005 2 (Some 1006) Idle NotOpening false false.
Lemma demo_runs : rtc (step 2 true) (second_open 2 demo) demo_later.
Proof. tk. tk. ex. hd. hd. tk. tk. ex. hd. hd. tk. apply rtc_refl. Qed.

Lemma demo_timely : timely demo_later.
Proof. split; [reflexivity|]. intros ? [= <-]. cbn. lia. Qed.

Lemma second_counts_witness :
  ∃ n, second_read true demo_later = (4, Some (s32 n)) ∧ n = 2.
Proof.
  destruct (second_counts 2 true demo demo_later eq_refl eq_refl eq_refl eq_refl eq_refl demo_runs)
    as (_ & n & Hn & _ & He).
  exists n. split; [exact Hn|]. exact (He eq_refl demo_timely).
Defined.

(** A second open arms the timer that is already pending. *)
Lemma second_reopen s : s_timer s = None → bad (second_open 100 (second_open 100 s)) = true.
Proof. intros Hs. unfold second_open, second_open_set, second_open_add. cbn. by rewrite orb_true_r. Qed.

(** A release while the handler has begun: it arms the timer again, the module is
    unloaded, and the timer expires in freed memory. *)
Lemma second_release_race :
  ∃ s1 s2 s3, expire (tick (second_open 1 demo)) = Some s1 ∧
    second_timer_handler 1 (second_release s1) = Some s2 ∧ s_timer s2 ≠ None ∧
    second_timer_handler 1 s2 = Some s3 ∧ bad s3 = false ∧
    bad <$> expire (tick (unload s3)) = Some true.
Proof. eexists _, _, _. repeat split; vm_compute; done. Qed.

(** Loading and unloading, as for the other single-device drivers *)
Lemma second_init_exit {W} `{ChrdevKernelOk W} sz major (w w' : W) ret major' devp :
  kobs_wf (observe w) → 0 < sz →
  second_init sz major w = (ret, major', devp, w') →
  (ret < 0 ∧ devp = None ∧ observe w' = observe w) ∨
  (ret = 0 ∧ ∃ p, devp = Some p ∧
     regions (observe w') !! MKDEV major' 0 = Some 1 ∧ heap (observe w') !! p = Some sz ∧
     observe (second_exit major' p w') = observe w).
Proof. intros Hwf Hsz Hi. exact (single_init_exit sz major w w' ret major' devp Hwf Hsz Hi). Qed.

End Second.
