(* ===== verification/TlpiIo.v ===== *)
(** * Whole reads, whole writes and lines from a descriptor

    Models The_Linux_Programming_Interface/tlpi-dist/sockets: rdwrn.c (readn,
    writen), read_line.c (readLine) and read_line_buf.c (readLineBuf).

    A descriptor that is read is the bytes that will arrive before the end of the
    file and what each read will do with them: give fewer than were asked for, be
    interrupted by a signal, or fail.  One that is written is the bytes accepted
    so far and what each write will do.  A result [None] is a loop that ran out of
    fuel or an access outside the caller's buffer. *)

From S2P Require Import Prelude.

Module TlpiIo.

Definition EINTR : Z := 4.
Definition newline : Z := 10.

(** What a call to read or write does: transfers at most [S k] bytes, or returns -1
    with an errno *)
Inductive event := Some_bytes (k : nat) | Error (errno : Z).

Record rfd := RFd { incoming : list Z; revents : list event }.
Record wfd := WFd { written : list Z; wevents : list event }.

(** [inl bs]: the bytes read, none at the end of the file; [inr errno]: -1 *)
Definition read (n : Z) (fd : rfd) : (list Z + Z) * rfd :=
  match revents fd with
  | [] => (inl (take (Z.to_nat n) (incoming fd)), RFd (drop (Z.to_nat n) (incoming fd)) [])
  | Error e :: evs => (inr e, RFd (incoming fd) evs)
  | Some_bytes k :: evs =>
      let m := Nat.min (S k) (Z.to_nat n) in
      (inl (take m (incoming fd)), RFd (drop m (incoming fd)) evs)
  end.

(** [inl m]: the number of bytes accepted *)
Definition write (bs : list Z) (fd : wfd) : (Z + Z) * wfd :=
  match wevents fd with
  | [] => (inl (zlen bs), WFd (written fd ++ bs) [])
  | Error e :: evs => (inr e, WFd (written fd) evs)
  | Some_bytes k :: evs =>
      (inl (zlen (take (S k) bs)), WFd (written fd ++ take (S k) bs) evs)
  end.

(** ** readn and writen *)

Fixpoint readn_loop (fuel : nat) (n totRead : Z) (buf : list Z) (fd : rfd) : option (Z * list Z * rfd) :=
  match fuel with
  | O => None
  | S fuel =>
      if totRead <? n then
        let '(numRead, fd) := read (n - totRead) fd in
        match numRead with
        | inl [] => Some (totRead, buf, fd)
        | inr errno =>
            if errno =? EINTR then readn_loop fuel n totRead buf fd else Some (-1, buf, fd)
        | inl bs =>
            buf ← store totRead bs buf;
            readn_loop fuel n (totRead + zlen bs) buf fd
        end
      else Some (totRead, buf, fd)
  end.
Definition readn (fuel : nat) (n : Z) (buf : list Z) (fd : rfd) : option (Z * list Z * rfd) :=
  readn_loop fuel n 0 buf fd.

Fixpoint writen_loop (fuel : nat) (n totWritten : Z) (buf : list Z) (fd : wfd) : option (Z * wfd) :=
  match fuel with
  | O => None
  | S fuel =>
      if totWritten <? n then
        bs ← load totWritten (n - totWritten) buf;
        let '(numWritten, fd) := write bs fd in
        match numWritten with
        | inl m =>
            if m <=? 0 then Some (-1, fd) else writen_loop fuel n (totWritten + m) buf fd
        | inr errno =>
            if errno =? EINTR then writen_loop fuel n totWritten buf fd else Some (-1, fd)
        end
      else Some (totWritten, fd)
  end.
Definition writen (fuel : nat) (n : Z) (buf : list Z) (fd : wfd) : option (Z * wfd) :=
  writen_loop fuel n 0 buf fd.

(** ** readLine *)

Fixpoint readLine_loop (fuel : nat) (n totRead : Z) (buf : list Z) (fd : rfd) : option (Z * list Z * rfd) :=
  match fuel with
  | O => None
  | S fuel =>
      let finish totRead buf fd := buf ← store totRead [0] buf; Some (totRead, buf, fd) in
      let '(numRead, fd) := read 1 fd in
      match numRead with
      | inr errno =>
          if errno =? EINTR then readLine_loop fuel n totRead buf fd else Some (-1, buf, fd)
      | inl [] => if totRead =? 0 then Some (0, buf, fd) else finish totRead buf fd
      | inl (ch :: _) =>
          '(totRead, buf) ← (if totRead <? n - 1
                             then buf ← store totRead [ch] buf; Some (totRead + 1, buf)
                             else Some (totRead, buf));
          if ch =? newline then finish totRead buf fd
          else readLine_loop fuel n totRead buf fd
      end
  end.
(** [buffer]: NULL or a buffer *)
Definition readLine (fuel : nat) (buffer : option (list Z)) (n : Z) (fd : rfd)
    : option (Z * option (list Z) * rfd) :=
  match buffer with
  | None => Some (-1, None, fd)
  | Some buf =>
      if n <=? 0 then Some (-1, buffer, fd)
      else '(r, buf, fd) ← readLine_loop fuel n 0 buf fd; Some (r, Some buf, fd)
  end.

(** ** readLineBuf *)

Definition RL_MAX_BUF : Z := 10.

Record ReadLineBuf := RLBuf { rl_fd : rfd; rl_buf : list Z; rl_next : Z; rl_len : Z }.

Definition readLineBufInit (fd : rfd) (rl : ReadLineBuf) : ReadLineBuf := RLBuf fd (rl_buf rl) 0 0.

(** The refill at the head of the loop: [inl] is a return of -1 or the end of the
    file. *)
Definition refill (rl : ReadLineBuf) : option ((bool * ReadLineBuf) + ReadLineBuf) :=
  if rl_len rl <=? rl_next rl then
    let '(r, fd) := read RL_MAX_BUF (rl_fd rl) in
    match r with
    | inr _ => Some (inl (false, RLBuf fd (rl_buf rl) (rl_next rl) (-1)))
    | inl [] => Some (inl (true, RLBuf fd (rl_buf rl) (rl_next rl) 0))
    | inl bs => buf ← store 0 bs (rl_buf rl); Some (inr (RLBuf fd buf 0 (zlen bs)))
    end
  else Some (inr rl).

Fixpoint readLineBuf_loop (fuel : nat) (n cnt : Z) (buffer : list Z) (rl : ReadLineBuf)
    : option (Z * list Z * ReadLineBuf) :=
  match fuel with
  | O => None
  | S fuel =>
      r ← refill rl;
      match r with
      | inl (false, rl) => Some (-1, buffer, rl)
      | inl (true, rl) => Some (cnt, buffer, rl)
      | inr rl =>
          c ← load (rl_next rl) 1 (rl_buf rl);
          let c := nth 0 c 0 in
          let rl := RLBuf (rl_fd rl) (rl_buf rl) (rl_next rl + 1) (rl_len rl) in
          '(cnt, buffer) ← (if cnt <? n then buffer ← store cnt [c] buffer; Some (cnt + 1, buffer)
                            else Some (cnt, buffer));
          if c =? newline then Some (cnt, buffer, rl) else readLineBuf_loop fuel n cnt buffer rl
      end
  end.
Definition readLineBuf (fuel : nat) (buffer : option (list Z)) (n : Z) (rl : ReadLineBuf)
    : option (Z * option (list Z) * ReadLineBuf) :=
  match buffer with
  | None => Some (-1, None, rl)
  | Some buf =>
      if n <=? 0 then Some (-1, buffer, rl)
      else '(r, buf, rl) ← readLineBuf_loop fuel n 0 buf rl; Some (r, Some buf, rl)
  end.

(** ** Descriptors that do not fail *)

(** Interruptions are not failures. *)
Definition benign (e : event) : bool := match e with Error e => e =? EINTR | _ => true end.
Definition quiet (e : event) : bool := match e with Error _ => false | _ => true end.

Lemma read_cases n fd r fd' :
  1 ≤ n → read n fd = (r, fd') →
  match r with
  | inl bs => incoming fd = bs ++ incoming fd' ∧ zlen bs ≤ n ∧ (bs = [] → incoming fd = []) ∧
              (revents fd' = [] ∧ revents fd = [] ∨ ∃ k, revents fd = Some_bytes k :: revents fd')
  | inr e => incoming fd' = incoming fd ∧ revents fd = Error e :: revents fd'
  end.
Proof.
  intros Hn E. unfold read in E. destruct (revents fd) as [|[k|e] evs] eqn:Hev; simplify_eq; cbn -[Nat.min].
  - rewrite take_drop. split_and!; [done| |intros H|by left].
    + unfold zlen. rewrite length_take. lia.
    + apply take_nil_inv in H as [H|H]; [lia|done].
  - rewrite take_drop. split_and!; [done| |intros H|eauto].
    + unfold zlen. rewrite length_take. lia.
    + apply take_nil_inv in H as [H|H]; [lia|done].
  - done.
Qed.

(** The events left are a tail of the events before. *)
Lemma read_events (P : event → bool) n fd r fd' :
  read n fd = (r, fd') → forallb P (revents fd) = true → forallb P (revents fd') = true.
Proof.
  intros E Hb. unfold read in E. destruct (revents fd) as [|[k|e] evs]; simplify_eq; cbn in *;
    [done|apply andb_prop in Hb as [_ Hb]; exact Hb..].
Qed.

Lemma read_events_length n fd r fd' :
  read n fd = (r, fd') → (length (revents fd') ≤ length (revents fd))%nat.
Proof.
  intros E. unfold read in E. destruct (revents fd) as [|[k|e] evs]; simplify_eq; cbn in *; lia.
Qed.

Lemma store_next (buf : list Z) off bs :
  0 ≤ off → off + zlen bs ≤ zlen buf →
  ∃ buf', store off bs buf = Some buf' ∧ zlen buf' = zlen buf ∧
    ∀ rest, off + zlen bs + zlen rest ≤ zlen buf →
      splice (off + zlen bs) rest buf' = splice off (bs ++ rest) buf.
Proof.
  intros Ho Hl. eexists. split; [by apply store_in_range|]. split; [by apply splice_length|].
  intros rest Hr. by apply splice_app.
Qed.

Lemma splice_nil {A} off (l : list A) : splice off [] l = l.
Proof. unfold splice. cbn. rewrite Nat.add_0_r. apply take_drop. Qed.

(** ** Whole transfers *)

Lemma readn_loop_ok fuel n tot buf fd :
  forallb benign (revents fd) = true → 0 ≤ tot ≤ n → n ≤ zlen buf →
  Z.of_nat (length (revents fd)) + (n - tot) < Z.of_nat fuel →
  let got := take (Z.to_nat (n - tot)) (incoming fd) in
  ∃ fd', readn_loop fuel n tot buf fd = Some (tot + zlen got, splice tot got buf, fd') ∧
    incoming fd = got ++ incoming fd' ∧ forallb benign (revents fd') = true.
Proof.
  revert tot buf fd. induction fuel as [|fuel IH]; intros tot buf fd Hb Ht Hn Hf; [lia|].
  cbn [readn_loop]. cbn zeta. destruct (Z.ltb_spec tot n) as [Hlt|Hge].
  2: { exists fd. replace (n - tot) with 0 by lia. rewrite take_0, splice_nil. cbn. by rewrite Z.add_0_r. }
  destruct (read (n - tot) fd) as [r fd1] eqn:E.
  pose proof (read_events benign _ _ _ _ E Hb) as Hb1. pose proof (read_events_length _ _ _ _ E) as Hl1.
  apply read_cases in E; [|lia]. destruct r as [[|b bs]|e].
  - destruct E as (Hi & _ & Hnil & _). rewrite (Hnil eq_refl) in *. exists fd1.
    rewrite take_nil, splice_nil. cbn. by rewrite Z.add_0_r.
  - destruct E as (Hi & Hbs & _ & _). set (l := b :: bs) in *.
    assert (0 < zlen l) by (unfold zlen; cbn; lia).
    destruct (store_next buf tot l) as (buf' & -> & Hz & Hsp); [lia|lia|]. cbn [mbind option_bind].
    destruct (IH (tot + zlen l) buf' fd1) as (fd' & -> & Hi' & Hb'); [done|lia|lia|lia|].
    assert (take (Z.to_nat (n - tot)) (incoming fd)
            = l ++ take (Z.to_nat (n - (tot + zlen l))) (incoming fd1)) as ->.
    { rewrite Hi, take_app_ge by (unfold zlen in *; lia). f_equal. f_equal. unfold zlen. lia. }
    exists fd'. rewrite zlen_app, Z.add_assoc. rewrite Hsp.
    + rewrite <- app_assoc, <- Hi'. done.
    + unfold zlen in *. rewrite length_take. lia.
  - destruct E as [Hi Hev]. rewrite Hev in Hb, Hf. cbn in Hb, Hf. apply andb_prop in Hb as [-> _].
    rewrite <- Hi. apply IH; [done|lia|lia|lia].
Qed.

Lemma write_cases bs fd r fd' :
  bs ≠ [] → write bs fd = (r, fd') →
  match r with
  | inl m => 0 < m ≤ zlen bs ∧ written fd' = written fd ++ take (Z.to_nat m) bs ∧
             (length (wevents fd') ≤ length (wevents fd))%nat
  | inr e => written fd' = written fd ∧ wevents fd = Error e :: wevents fd'
  end.
Proof.
  intros Hbs E. assert (0 < zlen bs) as Hpos by (destruct bs; [done|unfold zlen; cbn; lia]).
  unfold write in E. destruct (wevents fd) as [|[k|e] evs] eqn:Hev; simplify_eq; cbn -[take].
  - unfold zlen. rewrite Nat2Z.id, firstn_all. unfold zlen in Hpos. split_and!; [lia|lia|done|lia].
  - unfold zlen in *. rewrite Nat2Z.id, length_take. split_and!; [lia|lia| |lia]. f_equal.
    destruct (Nat.le_ge_cases (S k) (length bs)).
    + by rewrite Nat.min_l by done.
    + rewrite Nat.min_r by done. by rewrite firstn_all, take_ge.
  - done.
Qed.

Lemma writen_loop_ok fuel n tot buf fd :
  forallb benign (wevents fd) = true → 0 ≤ tot ≤ n → n ≤ zlen buf →
  Z.of_nat (length (wevents fd)) + (n - tot) < Z.of_nat fuel →
  ∃ fd', writen_loop fuel n tot buf fd = Some (n, fd') ∧
    written fd' = written fd ++ slice tot (n - tot) buf.
Proof.
  revert tot fd. induction fuel as [|fuel IH]; intros tot fd Hb Ht Hn Hf; [lia|].
  cbn [writen_loop]. destruct (Z.ltb_spec tot n) as [Hlt|Hge].
  2: { exists fd. replace tot with n by lia. rewrite Z.sub_diag. by rewrite app_nil_r. }
  rewrite load_in_range by lia. cbn [mbind option_bind].
  pose proof (slice_length buf tot (n - tot) ltac:(lia) ltac:(lia) ltac:(lia)) as Hsl.
  destruct (write (slice tot (n - tot) buf) fd) as [r fd1] eqn:E.
  assert (forallb benign (wevents fd1) = true) as Hb1.
  { unfold write in E. destruct (wevents fd) as [|[k|e] evs]; simplify_eq; cbn in *;
      [done|done|apply andb_prop in Hb as [_ Hb]; exact Hb]. }
  apply write_cases in E; [|intros H; rewrite H in Hsl; unfold zlen in Hsl; cbn [length] in Hsl; lia]. destruct r as [m|e].
  - destruct E as (Hm & Hw & Hl). rewrite (proj2 (Z.leb_gt _ _)) by lia.
    destruct (IH (tot + m) fd1) as (fd' & -> & Hw'); [done|lia|lia|lia|].
    exists fd'. split; [done|]. rewrite Hw', Hw, <- app_assoc. f_equal.
    assert (take (Z.to_nat m) (slice tot (n - tot) buf) = slice tot m buf) as ->
      by (unfold slice; rewrite take_take; f_equal; lia).
    replace (n - tot) with (m + (n - (tot + m))) by lia. by rewrite (slice_app buf tot m) by lia.
  - destruct E as [Hw Hev]. rewrite Hev in Hb, Hf. cbn in Hb, Hf. apply andb_prop in Hb as [-> _].
    rewrite <- Hw. apply IH; [done|lia|lia|lia].
Qed.

(** A fuel that is enough for [n] bytes through [evs] *)
Definition io_fuel (n : Z) (evs : list event) : nat := length evs + Z.to_nat n + 1.

(** However the transfers are cut up and interrupted on either side, writen
    sends exactly the n bytes of its buffer and readn gets exactly them, both return
    n, and neither loops forever. *)
Theorem writen_readn n buf wevs revs buf' :
  0 ≤ n ≤ zlen buf → n ≤ zlen buf' → forallb benign wevs = true → forallb benign revs = true →
  ∃ w r, writen (io_fuel n wevs) n buf (WFd [] wevs) = Some (n, w) ∧
    readn (io_fuel n revs) n buf' (RFd (written w) revs) = Some (n, splice 0 (slice 0 n buf) buf', r) ∧
    incoming r = [].
Proof.
  intros Hn Hn' Hw Hr. unfold io_fuel.
  destruct (writen_loop_ok (length wevs + Z.to_nat n + 1) n 0 buf (WFd [] wevs)) as (w & Ew & Hw');
    [done|lia|lia|cbn; lia|]. cbn in Hw'. rewrite Z.sub_0_r in Hw'.
  destruct (readn_loop_ok (length revs + Z.to_nat n + 1) n 0 buf' (RFd (written w) revs)) as (r & Er & Hi & _);
    [done|lia|lia|cbn; lia|].
  exists w, r. split; [exact Ew|]. cbn [incoming] in Er, Hi. rewrite Z.sub_0_r in Er, Hi.
  assert (zlen (slice 0 n buf) = n) as Hz by (apply slice_length; lia).
  rewrite Hw' in Er, Hi. rewrite take_ge in Er, Hi by (unfold zlen in Hz; lia).
  unfold readn. rewrite Hw', Er, Hz. split; [done|].
  apply (f_equal length) in Hi. rewrite length_app in Hi.
  apply nil_length_inv. lia.
Qed.

Lemma writen_readn_witness :
  ∃ w r, writen 9 5 [104; 101; 108; 108; 111] (WFd [] [Some_bytes 1; Error EINTR; Some_bytes 0]) = Some (5, w) ∧
    readn 8 5 (zeros 8) (RFd (written w) [Error EINTR; Some_bytes 2]) =
      Some (5, splice 0 [104; 101; 108; 108; 111] (zeros 8), r) ∧ incoming r = [].
Proof.
  apply (writen_readn 5 [104; 101; 108; 108; 111] [Some_bytes 1; Error EINTR; Some_bytes 0]
           [Error EINTR; Some_bytes 2] (zeros 8)); vm_compute; try done; split; done.
Defined.

(** Another error ends the loop with -1, also after some bytes were transferred. *)
Lemma readn_error fuel n tot buf fd e evs :
  tot < n → revents fd = Error e :: evs → e ≠ EINTR →
  readn_loop (S fuel) n tot buf fd = Some (-1, buf, RFd (incoming fd) evs).
Proof.
  intros Ht Hev He. cbn [readn_loop]. rewrite (proj2 (Z.ltb_lt _ _)) by done.
  unfold read. rewrite Hev. by rewrite (proj2 (Z.eqb_neq _ _)).
Qed.

(** ** Lines *)

Fixpoint first_line (l : list Z) : list Z :=
  match l with [] => [] | c :: l => if c =? newline then [c] else c :: first_line l end.
Definition rest (l : list Z) : list Z := drop (length (first_line l)) l.

Lemma first_line_rest l : first_line l ++ rest l = l.
Proof.
  unfold rest. induction l as [|c l IH]; cbn; [done|]. destruct (c =? newline); cbn.
  - done.
  - by rewrite IH.
Qed.

Lemma first_line_nil l : first_line l = [] → l = [].
Proof. destruct l as [|c l]; cbn; [done|]. by destruct (c =? newline). Qed.

Lemma rest_length l : (length (first_line l) + length (rest l) = length l)%nat.
Proof. by rewrite <- length_app, first_line_rest. Qed.

(** readLine from the middle of a line *)
Lemma readLine_loop_ok fuel n tot buf fd :
  forallb benign (revents fd) = true → 2 ≤ n ≤ zlen buf → 0 ≤ tot ≤ n - 1 →
  (length (revents fd) + length (first_line (incoming fd)) < fuel)%nat →
  let got := take (Z.to_nat (n - 1 - tot)) (first_line (incoming fd)) in
  ∃ fd', readLine_loop fuel n tot buf fd =
      Some (tot + zlen got,
            (if decide (tot = 0 ∧ incoming fd = []) then buf else splice tot (got ++ [0]) buf), fd') ∧
    incoming fd' = rest (incoming fd) ∧ forallb benign (revents fd') = true ∧
    (length (revents fd') ≤ length (revents fd))%nat.
Proof.
  revert tot buf fd. induction fuel as [|fuel IH]; intros tot buf fd Hb Hn Ht Hf; [lia|].
  cbn [readLine_loop]. cbn zeta. destruct (read 1 fd) as [r fd1] eqn:E.
  pose proof (read_events benign _ _ _ _ E Hb) as Hb1. pose proof (read_events_length _ _ _ _ E) as Hl1.
  apply read_cases in E; [|lia]. destruct r as [[|c [|c' bs]]|e].
  - destruct E as (Hi & _ & Hnil & _). rewrite (Hnil eq_refl) in *. exists fd1. cbn in Hi.
    cbn [first_line]. rewrite take_nil. change (zlen []) with 0. rewrite Z.add_0_r. cbn [app].
    destruct (Z.eqb_spec tot 0) as [->|Hne].
    + by rewrite decide_True.
    + rewrite decide_False by naive_solver. rewrite store_in_range by (unfold zlen in *; cbn; lia). done.
  - destruct E as (Hi & _ & _ & _). rewrite Hi in *. cbn [app first_line] in *.
    rewrite (decide_False (P := tot = 0 ∧ _)) by naive_solver.
    assert (rest (c :: incoming fd1) = if c =? newline then incoming fd1 else rest (incoming fd1)) as ->
      by (unfold rest; cbn; by destruct (c =? newline)).
    destruct (Z.ltb_spec tot (n - 1)) as [Hlt|Hge].
    + replace (Z.to_nat (n - 1 - tot)) with (S (Z.to_nat (n - 1 - (tot + 1)))) by lia.
      destruct (store_next buf tot [c]) as (buf' & -> & Hz & Hsp); [lia|unfold zlen in *; cbn; lia|].
      change (zlen [c]) with 1 in Hsp. cbn [mbind option_bind].
      destruct (c =? newline); cbn [take length] in *.
      * rewrite store_in_range by (unfold zlen in *; cbn; lia). cbn [mbind option_bind].
        exists fd1. rewrite Hsp by (unfold zlen in *; cbn; lia). rewrite take_nil. done.
      * destruct (IH (tot + 1) buf' fd1) as (fd' & -> & Hr & Hb' & Hl'); [done|lia|lia|lia|].
        exists fd'. rewrite decide_False by lia. split_and!; [|done|done|lia].
        set (g := take _ (first_line (incoming fd1))).
        assert (tot + 1 + zlen (g ++ [0]) ≤ zlen buf).
        { subst g. unfold zlen in *. rewrite length_app, length_take. cbn. lia. }
        rewrite Hsp by done. cbn [app]. do 3 f_equal. unfold zlen. cbn. lia.
    + replace (Z.to_nat (n - 1 - tot)) with 0%nat by lia. cbn [take mbind option_bind].
      change (zlen []) with 0. rewrite Z.add_0_r. cbn [app].
      destruct (c =? newline); cbn [length] in *.
      * rewrite store_in_range by (unfold zlen in *; cbn; lia). eauto.
      * destruct (IH tot buf fd1) as (fd' & -> & Hr & Hb' & Hl'); [done|lia|lia|lia|].
        exists fd'. replace (Z.to_nat (n - 1 - tot)) with 0%nat by lia. cbn [take app].
        change (zlen []) with 0. rewrite Z.add_0_r, decide_False by lia.
        split_and!; [done|done|done|lia].
  - destruct E as (_ & Hlen & _). unfold zlen in Hlen. cbn in Hlen. lia.
  - destruct E as [Hi Hev]. rewrite Hev in Hb, Hf. cbn in Hb, Hf. apply andb_prop in Hb as [-> _].
    rewrite <- Hi in *. destruct (IH tot buf fd1) as (fd' & -> & Hr & Hb' & Hl'); [done|done|done|lia|].
    exists fd'. split_and!; [done|done|done|lia].
Qed.

(** ** The buffered reader *)

(** What has arrived and was not given out, and what will arrive *)
Definition visible (rl : ReadLineBuf) : list Z :=
  slice (rl_next rl) (rl_len rl - rl_next rl) (rl_buf rl) ++ incoming (rl_fd rl).
Definition rl_wf (rl : ReadLineBuf) : Prop :=
  zlen (rl_buf rl) = RL_MAX_BUF ∧ 0 ≤ rl_next rl ∧ rl_len rl ≤ RL_MAX_BUF ∧
  forallb quiet (revents (rl_fd rl)) = true.

Lemma slice_nonpos {A} off n (l : list A) : n ≤ 0 → slice off n l = [].
Proof. intros Hn. unfold slice. by replace (Z.to_nat n) with 0%nat by lia. Qed.

Lemma refill_ok rl :
  rl_wf rl →
  ∃ r, refill rl = Some r ∧
    match r with
    | inl (ok, rl') => ok = true ∧ visible rl = [] ∧ visible rl' = [] ∧ rl_wf rl'
    | inr rl' => visible rl' = visible rl ∧ rl_wf rl' ∧ rl_next rl' < rl_len rl'
    end.
Proof.
  intros (Hb & Hn & Hl & Hq). unfold refill. destruct (Z.leb_spec (rl_len rl) (rl_next rl)) as [Hle|Hlt].
  2: { eexists. split; [done|]. split; [done|]. by split. }
  assert (visible rl = incoming (rl_fd rl)) as Hv by (unfold visible; by rewrite slice_nonpos by lia).
  destruct (read RL_MAX_BUF (rl_fd rl)) as [r fd] eqn:E.
  pose proof (read_events quiet _ _ _ _ E Hq) as Hq'. apply read_cases in E; [|unfold RL_MAX_BUF; lia].
  destruct r as [[|b bs]|e].
  - destruct E as (Hi & _ & Hnil & _). eexists. split; [done|]. cbn. rewrite Hv, (Hnil eq_refl).
    unfold visible, rl_wf. cbn [rl_fd rl_buf rl_next rl_len]. rewrite slice_nonpos by lia.
    rewrite (Hnil eq_refl) in Hi. cbn in *. unfold RL_MAX_BUF in *. split_and!; [done..|lia|done].
  - destruct E as (Hi & Hbs & _ & _). set (l := b :: bs) in *.
    assert (0 < zlen l) by (unfold zlen; cbn; lia).
    rewrite store_in_range by lia. eexists. split; [done|]. cbn beta iota. unfold visible at 1, rl_wf.
    cbn [rl_fd rl_buf rl_next rl_len]. rewrite Z.sub_0_r, slice_splice_same, splice_length by lia.
    rewrite Hv, Hi. split_and!; [done..|lia].
  - destruct E as [_ Hev]. by rewrite Hev in Hq.
Qed.

Lemma readLineBuf_loop_ok fuel n cnt buf rl :
  rl_wf rl → n ≤ zlen buf → 0 ≤ cnt ≤ n → (length (first_line (visible rl)) < fuel)%nat →
  let got := take (Z.to_nat (n - cnt)) (first_line (visible rl)) in
  ∃ rl', readLineBuf_loop fuel n cnt buf rl = Some (cnt + zlen got, splice cnt got buf, rl') ∧
    visible rl' = rest (visible rl) ∧ rl_wf rl'.
Proof.
  revert cnt buf rl. induction fuel as [|fuel IH]; intros cnt buf rl Hwf Hn Hc Hf; [lia|].
  cbn [readLineBuf_loop]. cbn zeta. destruct (refill_ok rl Hwf) as ([[ok rl']|rl'] & -> & Hr);
    cbn [mbind option_bind].
  - destruct Hr as (-> & Hv & Hv' & Hwf'). exists rl'. rewrite Hv in *. cbn [first_line].
    rewrite take_nil, splice_nil. change (zlen []) with 0. rewrite Z.add_0_r. done.
  - destruct Hr as (Hv & (Hb & Hnx & Hl & Hq) & Hlt). rewrite <- Hv in *.
    rewrite load_in_range by lia. cbn [mbind option_bind].
    set (rl1 := RLBuf _ _ _ _). set (c := nth 0 (slice (rl_next rl') 1 (rl_buf rl')) 0).
    assert (visible rl' = c :: visible rl1) as Hc1.
    { unfold visible, rl1. cbn [rl_fd rl_buf rl_next rl_len].
      replace (rl_len rl' - rl_next rl') with (1 + (rl_len rl' - (rl_next rl' + 1))) by lia.
      rewrite slice_app by lia. pose proof (slice_length (rl_buf rl') (rl_next rl') 1 Hnx ltac:(lia) ltac:(lia)) as H1.
      unfold c. destruct (slice (rl_next rl') 1 (rl_buf rl')) as [|x [|]]; unfold zlen in H1; cbn in H1;
        [lia|done|lia]. }
    assert (rl_wf rl1) as Hwf1 by (unfold rl_wf, rl1; cbn; split_and!; [done|lia|done|done]).
    clearbody c rl1. rewrite Hc1 in *.
    assert (rest (c :: visible rl1) = if c =? newline then visible rl1 else rest (visible rl1)) as ->
      by (unfold rest; cbn; by destruct (c =? newline)).
    cbn [first_line] in *. destruct (Z.ltb_spec cnt n) as [Hlt'|Hge].
    + replace (Z.to_nat (n - cnt)) with (S (Z.to_nat (n - (cnt + 1)))) by lia.
      destruct (store_next buf cnt [c]) as (buf' & -> & Hz & Hsp); [lia|unfold zlen in *; cbn; lia|].
      change (zlen [c]) with 1 in Hsp. cbn [mbind option_bind].
      destruct (c =? newline); cbn [take length] in *.
      * exists rl1. rewrite take_nil. change (zlen [c]) with 1.
        pose proof (Hsp [] ltac:(unfold zlen in *; cbn; lia)) as H0. rewrite splice_nil in H0.
        cbn [app] in H0. by rewrite H0.
      * destruct (IH (cnt + 1) buf' rl1) as (rl2 & -> & Hr2 & Hwf2); [done|lia|lia|lia|].
        exists rl2. split_and!; [|done|done]. set (g := take _ (first_line (visible rl1))).
        assert (cnt + 1 + zlen g ≤ zlen buf) by (subst g; unfold zlen in *; rewrite length_take; lia).
        rewrite Hsp by done. cbn [app]. do 3 f_equal. unfold zlen. cbn. lia.
    + replace (Z.to_nat (n - cnt)) with 0%nat by lia. rewrite take_0. cbn [mbind option_bind].
      change (zlen []) with 0. rewrite Z.add_0_r, splice_nil. destruct (c =? newline); cbn [length] in *.
      * by exists rl1.
      * destruct (IH cnt buf rl1) as (rl2 & -> & Hr2 & Hwf2); [done|lia|lia|lia|].
        exists rl2. replace (Z.to_nat (n - cnt)) with 0%nat by lia. rewrite take_0.
        change (zlen []) with 0. by rewrite Z.add_0_r, splice_nil.
Qed.

(** ** A file read line by line *)

(** The lines of the first [k] calls: the file is cut behind each newline. *)
Fixpoint lines (k : nat) (l : list Z) : list (list Z) :=
  match k with O => [] | S k => first_line l :: lines k (rest l) end.

Lemma lines_concat l : concat (lines (length l) l) = l.
Proof.
  enough (∀ k, (length l ≤ k)%nat → concat (lines k l) = l) by auto.
  intros k. revert l. induction k as [|k IH]; intros l Hk; cbn.
  - destruct l; [done|cbn in Hk; lia].
  - rewrite IH; [apply first_line_rest|]. pose proof (rest_length l).
    destruct (first_line l) as [|c fl] eqn:E; [|cbn in *; lia].
    apply first_line_nil in E as ->. cbn. lia.
Qed.

(** What [k] calls of readLine return in their buffer; the first component is the
    return value. *)
Fixpoint readLines (fuel k : nat) (n : Z) (buf : list Z) (fd : rfd) : option (list (list Z)) :=
  match k with
  | O => Some []
  | S k =>
      '(r, buf, fd) ← readLine fuel (Some buf) n fd;
      buf ← buf;
      ls ← readLines fuel k n buf fd;
      Some (slice 0 r buf :: ls)
  end.
Fixpoint readLineBufs (fuel k : nat) (n : Z) (buf : list Z) (rl : ReadLineBuf) : option (list (list Z)) :=
  match k with
  | O => Some []
  | S k =>
      '(r, buf, rl) ← readLineBuf fuel (Some buf) n rl;
      buf ← buf;
      ls ← readLineBufs fuel k n buf rl;
      Some (slice 0 r buf :: ls)
  end.

(** The string that readLine leaves is terminated. *)
Lemma readLine_ok fuel n buf fd :
  forallb benign (revents fd) = true → 2 ≤ n ≤ zlen buf →
  (length (revents fd) + length (incoming fd) < fuel)%nat →
  let got := take (Z.to_nat (n - 1)) (first_line (incoming fd)) in
  ∃ buf' fd', readLine fuel (Some buf) n fd = Some (zlen got, Some buf', fd') ∧
    incoming fd' = rest (incoming fd) ∧ forallb benign (revents fd') = true ∧
    (length (revents fd') ≤ length (revents fd))%nat ∧
    zlen buf' = zlen buf ∧ slice 0 (zlen got) buf' = got ∧
    (incoming fd ≠ [] → slice 0 (zlen got + 1) buf' = got ++ [0]).
Proof.
  intros Hb Hn Hf got. pose proof (rest_length (incoming fd)) as Hr.
  destruct (readLine_loop_ok fuel n 0 buf fd) as (fd' & E & Hi & Hb' & Hl'); [done|done|lia|lia|].
  rewrite Z.sub_0_r in E. fold got in E. cbn zeta in E. unfold readLine.
  rewrite (proj2 (Z.leb_gt _ _)), E by lia. cbn [mbind option_bind].
  assert (zlen got ≤ n - 1) as Hg by (unfold got, zlen in *; rewrite length_take; lia).
  pose proof (zlen_nonneg got).
  eexists _, _. split; [done|]. split_and!; [done|done|done|..].
  - case_decide; [done|]. apply splice_length; [lia|]. rewrite zlen_app. change (zlen [0]) with 1. lia.
  - case_decide as Hd.
    + destruct Hd as [_ Hd]. unfold got. rewrite Hd. cbn [first_line]. by rewrite take_nil.
    + rewrite <- splice_app by (change (zlen [0]) with 1; lia).
      rewrite slice_splice_before; [|lia|lia|lia|]; rewrite ?splice_length; try lia;
        [by apply slice_splice_same; lia|change (zlen [0]) with 1; lia].
  - intros Hne. rewrite decide_False by naive_solver.
    replace (zlen got + 1) with (zlen (got ++ [0])) by (rewrite zlen_app; done).
    apply slice_splice_same; [lia|]. rewrite zlen_app. change (zlen [0]) with 1. lia.
Qed.

(** The events before the first failure *)
Fixpoint calmed (evs : list event) : list event :=
  match evs with [] => [] | e :: evs => if benign e then e :: calmed evs else [] end.

Lemma calmed_benign evs : forallb benign (calmed evs) = true.
Proof. induction evs as [|e evs IH]; cbn; [done|]. destruct (benign e) eqn:E; cbn; [by rewrite E|done]. Qed.
Lemma calmed_length evs : (length (calmed evs) ≤ length evs)%nat.
Proof. induction evs as [|e evs IH]; cbn; [done|]. destruct (benign e); cbn; lia. Qed.
Lemma calmed_id evs : forallb benign evs = true → calmed evs = evs.
Proof. induction evs as [|e evs IH]; cbn; [done|]. intros [-> H]%andb_prop. by rewrite IH. Qed.

(** A failing read ends the loop; until then it does what it does without the failure. *)
Lemma readLine_loop_any fuel n tot buf fd :
  2 ≤ n ≤ zlen buf → 0 ≤ tot ≤ n - 1 →
  (length (revents fd) + length (incoming fd) < fuel)%nat →
  ∃ r b fd', readLine_loop fuel n tot buf fd = Some (r, b, fd') ∧ zlen b = zlen buf ∧
    (r = -1 ∧ forallb benign (revents fd) = false ∨
     ∃ fd'', readLine_loop fuel n tot buf (RFd (incoming fd) (calmed (revents fd))) = Some (r, b, fd'')).
Proof.
  revert tot buf fd. induction fuel as [|fuel IH]; intros tot buf [l evs] Hn Ht Hf; [lia|].
  cbn [incoming revents] in *. destruct evs as [|[k|e] evs]; cbn [calmed benign] in *.
  - pose proof (rest_length l) as Hrl.
    destruct (readLine_loop_ok (S fuel) n tot buf (RFd l [])) as (fd' & E & _); [done|done|done|cbn; lia|].
    cbn zeta in E. cbn [incoming] in E. rewrite E. do 3 eexists. split; [done|]. split; [|right; eauto].
    case_decide; [done|]. apply splice_length; [lia|]. unfold zlen in *. rewrite length_app, length_take. cbn. lia.
  - cbn [readLine_loop]. cbn zeta. unfold read. cbn [revents incoming].
    replace (Nat.min (S k) (Z.to_nat 1)) with 1%nat by lia.
    destruct l as [|c l]; cbn [take drop firstn skipn].
    + destruct (Z.eqb_spec tot 0); [do 3 eexists; split; [done|]; split; [done|right; eauto]|].
      rewrite store_in_range by (unfold zlen in *; cbn; lia). cbn [mbind option_bind].
      do 3 eexists. split; [done|]. split; [apply splice_length; unfold zlen in *; cbn; lia|right; eauto].
    + set (tot' := if tot <? n - 1 then tot + 1 else tot).
      assert (∃ buf', (if tot <? n - 1 then b ← store tot [c] buf; Some (tot + 1, b) else Some (tot, buf)) = Some (tot', buf')
        ∧ zlen buf' = zlen buf ∧ 0 ≤ tot' ≤ n - 1) as (buf' & -> & Hz & Ht').
      { unfold tot'. destruct (Z.ltb_spec tot (n - 1)); [|by exists buf].
        destruct (store_next buf tot [c]) as (buf' & -> & Hz & _); [lia|unfold zlen in *; cbn; lia|].
        exists buf'. split_and!; [done|done|lia|lia]. }
      cbn [mbind option_bind length] in *. destruct (c =? newline).
      * rewrite store_in_range by (unfold zlen in *; cbn; lia). cbn [mbind option_bind].
        do 3 eexists. split; [done|]. split; [rewrite splice_length; unfold zlen in *; cbn; lia|right; eauto].
      * rewrite drop_0. destruct (IH tot' buf' (RFd l evs)) as (r & b & fd' & -> & Hb & Hr); [lia|lia|cbn; lia|].
        do 3 eexists. split; [done|]. rewrite <- Hz. split; [done|]. cbn [forallb benign andb]. exact Hr.
  - cbn [readLine_loop]. cbn zeta. unfold read. cbn [revents incoming]. cbn [forallb benign length] in *.
    destruct (Z.eqb_spec e EINTR) as [-> |Hne].
    + destruct (IH tot buf (RFd l evs)) as (r & b & fd' & E & Hb & Hr); [lia|lia|cbn; lia|].
      rewrite E. do 3 eexists. split; [done|]. split; [done|]. cbn [andb revents incoming] in *. exact Hr.
    + do 3 eexists. split; [done|]. split; [done|]. by left.
Qed.

Lemma readLine_any fuel n buf fd :
  2 ≤ n ≤ zlen buf → (length (revents fd) + length (incoming fd) < fuel)%nat →
  let got := take (Z.to_nat (n - 1)) (first_line (incoming fd)) in
  ∃ r buf' fd', readLine fuel (Some buf) n fd = Some (r, Some buf', fd') ∧ zlen buf' = zlen buf ∧
    (r = -1 ∧ forallb benign (revents fd) = false ∨
     r = zlen got ∧ (incoming fd ≠ [] → slice 0 (zlen got + 1) buf' = got ++ [0])).
Proof.
  intros Hn Hf got. destruct (readLine_loop_any fuel n 0 buf fd) as (r & b & fd' & E & Hz & Hr); [lia|lia|done|].
  exists r, b, fd'. unfold readLine at 1. rewrite (proj2 (Z.leb_gt _ _)), E by lia. split; [done|]. split; [done|].
  destruct Hr as [?|[fd'' E2]]; [by left|right].
  pose proof (calmed_length (revents fd)).
  destruct (readLine_ok fuel n buf (RFd (incoming fd) (calmed (revents fd)))) as (b2 & fd2 & E3 & _ & _ & _ & _ & _ & Hs);
    [apply calmed_benign|done|cbn; lia|].
  unfold readLine in E3. rewrite (proj2 (Z.leb_gt _ _)), E2 in E3 by lia. cbn [mbind option_bind incoming] in *.
  by injection E3 as -> -> _.
Qed.

Lemma readLineBuf_ok fuel n buf rl :
  rl_wf rl → 1 ≤ n ≤ zlen buf → (length (visible rl) < fuel)%nat →
  let got := take (Z.to_nat n) (first_line (visible rl)) in
  ∃ buf' rl', readLineBuf fuel (Some buf) n rl = Some (zlen got, Some buf', rl') ∧
    visible rl' = rest (visible rl) ∧ rl_wf rl' ∧ zlen buf' = zlen buf ∧ slice 0 (zlen got) buf' = got.
Proof.
  intros Hwf Hn Hf got. pose proof (rest_length (visible rl)) as Hr.
  destruct (readLineBuf_loop_ok fuel n 0 buf rl) as (rl' & E & Hi & Hwf'); [done|lia|lia|lia|].
  rewrite Z.sub_0_r in E. fold got in E. cbn zeta in E. unfold readLineBuf.
  rewrite (proj2 (Z.leb_gt _ _)), E by lia. cbn [mbind option_bind].
  assert (zlen got ≤ n) as Hg by (unfold got, zlen in *; rewrite length_take; lia).
  eexists _, _. split_and!; [done|done|done|..].
  - apply splice_length; lia.
  - apply slice_splice_same; lia.
Qed.

Lemma readLines_ok fuel k n buf fd :
  forallb benign (revents fd) = true → 2 ≤ n ≤ zlen buf →
  (length (revents fd) + length (incoming fd) < fuel)%nat →
  readLines fuel k n buf fd = Some (take (Z.to_nat (n - 1)) <$> lines k (incoming fd)).
Proof.
  revert buf fd. induction k as [|k IH]; intros buf fd Hb Hn Hf; [done|]. cbn [readLines lines].
  destruct (readLine_ok fuel n buf fd) as (buf' & fd' & -> & Hi & Hb' & Hl & Hz & Hs & _); [done|done|done|].
  cbn [mbind option_bind]. pose proof (rest_length (incoming fd)).
  rewrite IH, Hi, Hs; [done|done|lia|rewrite Hi; lia].
Qed.

Lemma readLineBufs_ok fuel k n buf rl :
  rl_wf rl → 1 ≤ n ≤ zlen buf → (length (visible rl) < fuel)%nat →
  readLineBufs fuel k n buf rl = Some (take (Z.to_nat n) <$> lines k (visible rl)).
Proof.
  revert buf rl. induction k as [|k IH]; intros buf rl Hwf Hn Hf; [done|]. cbn [readLineBufs lines].
  destruct (readLineBuf_ok fuel n buf rl) as (buf' & rl' & -> & Hi & Hwf' & Hz & Hs); [done|done|done|].
  cbn [mbind option_bind]. pose proof (rest_length (visible rl)).
  rewrite IH, Hi, Hs; [done|done|lia|rewrite Hi; lia].
Qed.

(** C16. On the same file, for n of at least 2, called with one byte less, readLineBuf returns line by line
    what readLine returns, whatever blocks the reads deliver; both cut the file
    behind each newline, keep at most n - 1 bytes of a line and discard the others,
    and end on every file. *)
Theorem read_line_buf_equiv k n l evs evs' buf buf' rl :
  2 ≤ n ≤ zlen buf → n - 1 ≤ zlen buf' → zlen (rl_buf rl) = RL_MAX_BUF →
  forallb benign evs = true → forallb quiet evs' = true →
  readLineBufs (length l + 1) k (n - 1) buf' (readLineBufInit (RFd l evs') rl) =
    Some (take (Z.to_nat (n - 1)) <$> lines k l) ∧
  readLines (length evs + length l + 1) k n buf (RFd l evs) =
    readLineBufs (length l + 1) k (n - 1) buf' (readLineBufInit (RFd l evs') rl).
Proof.
  intros Hn Hn' Hrl He He'. set (rl0 := readLineBufInit _ _).
  assert (visible rl0 = l) as Hv by done.
  assert (rl_wf rl0) by (unfold rl_wf, rl0, RL_MAX_BUF in *; cbn; split_and!; [done|lia|lia|done]).
  rewrite readLineBufs_ok, readLines_ok; rewrite ?Hv; cbn; try done; lia.
Qed.

Lemma read_line_buf_equiv_witness :
  let l := [97; 98; 10; 99; 100; 101; 102; 10; 103] in
  readLines 12 4 4 (zeros 4) (RFd l [Some_bytes 0; Error EINTR]) = Some [[97; 98; 10]; [99; 100; 101]; [103]; []] ∧
  readLineBufs 10 4 3 (zeros 3) (readLineBufInit (RFd l [Some_bytes 4; Some_bytes 0]) (RLBuf (RFd [] []) (zeros 10) 0 0)) =
    Some [[97; 98; 10]; [99; 100; 101]; [103]; []].
Proof.
  intros l.
  destruct (read_line_buf_equiv 4 4 l [Some_bytes 0; Error EINTR] [Some_bytes 4; Some_bytes 0] (zeros 4)
              (zeros 3) (RLBuf (RFd [] []) (zeros 10) 0 0)) as [E1 E2];
    [split; vm_compute; done|vm_compute; done|done|done|done|].
  split; [|exact E1]. rewrite E1 in E2. exact E2.
Defined.

(** The two differ when a read is interrupted: readLineBuf returns -1, and the part of
    the line it had is lost to the next call. *)
Lemma readLineBuf_interrupted :
  let rl := readLineBufInit (RFd [97; 98; 10] [Some_bytes 0; Error EINTR]) (RLBuf (RFd [] []) (zeros 10) 0 0) in
  ∃ b rl', readLineBuf 9 (Some (zeros 4)) 4 rl = Some (-1, b, rl') ∧
    readLineBufs 9 1 4 (zeros 4) rl' = Some [[98; 10]].
Proof. eexists _, _. split; vm_compute; reflexivity. Qed.

(** Nor does it terminate the string: a line of n bytes fills the buffer. *)
Lemma readLineBuf_unterminated :
  ∃ rl', readLineBuf 9 (Some (zeros 3)) 3
           (readLineBufInit (RFd [97; 98; 99; 10] []) (RLBuf (RFd [] []) (zeros 10) 0 0)) =
         Some (3, Some [97; 98; 99], rl').
Proof. eexists. vm_compute. reflexivity. Qed.

End TlpiIo.
