(* ===== verification/TlpiNum.v ===== *)
(** * Numbers in text

    Models The_Linux_Programming_Interface/tlpi-dist/lib/get_num.c: getNum, getLong
    and getInt, which read a number from a command line argument and check it, with
    the strtol and atoi of the C library they rest on, and the ["%d"] of printf that
    the programs print numbers with.

    A C string is the list of its bytes before the terminator.  A call of gnFail,
    which exits, is the left value of a sum. *)

From S2P Require Import Prelude.

Module TlpiNum.

Definition LONG_MAX : Z := 2 ^ 63 - 1.
Definition LONG_MIN : Z := - 2 ^ 63.
Definition INT_MAX : Z := 2 ^ 31 - 1.
Definition INT_MIN : Z := - 2 ^ 31.
Definition ERANGE : Z := 34.

(** ** strtol *)

Definition isspace (c : Z) : bool := ((9 <=? c) && (c <=? 13)) || (c =? 32).
Definition plus : Z := 43.
Definition minus : Z := 45.

(** The value of a digit in some base *)
Definition digit_value (c : Z) : option Z :=
  if (48 <=? c) && (c <=? 57) then Some (c - 48)
  else if (97 <=? c) && (c <=? 122) then Some (c - 87)
  else if (65 <=? c) && (c <=? 90) then Some (c - 55)
  else None.
Definition is_digit (base c : Z) : bool :=
  match digit_value c with Some d => d <? base | None => false end.

Fixpoint skip_spaces (l : list Z) : list Z :=
  match l with c :: l' => if isspace c then skip_spaces l' else l | [] => [] end.

(** The longest prefix of digits, and what is behind it *)
Fixpoint span_digits (base : Z) (l : list Z) : list Z * list Z :=
  match l with
  | c :: l' => if is_digit base c then let '(ds, r) := span_digits base l' in (c :: ds, r) else ([], l)
  | [] => ([], [])
  end.
Definition horner (base : Z) (ds : list Z) : Z :=
  foldl (λ acc c, acc * base + default 0 (digit_value c)) 0 ds.

(** The base that a prefix 0x or 0 chooses, and the text behind 0x, which counts only
    in front of a hexadecimal digit *)
Definition hex_prefix (l : list Z) : option (list Z) :=
  match l with
  | 48 :: x :: c :: l' =>
      if ((x =? 120) || (x =? 88)) && is_digit 16 c then Some (c :: l') else None
  | _ => None
  end.
Definition choose_base (base : Z) (l : list Z) : Z * list Z :=
  if base =? 0 then
    match hex_prefix l with
    | Some l' => (16, l')
    | None => match l with 48 :: _ => (8, l) | _ => (10, l) end
    end
  else if base =? 16 then match hex_prefix l with Some l' => (16, l') | None => (16, l) end
  else (base, l).

(** The result, errno and the text at endptr *)
Definition strtol (arg : list Z) (base : Z) : Z * Z * list Z :=
  let l := skip_spaces arg in
  let '(neg, l) := match l with
                   | c :: l' => if c =? minus then (true, l') else if c =? plus then (false, l') else (false, l)
                   | [] => (false, [])
                   end in
  let '(base, l) := choose_base base l in
  match span_digits base l with
  | ([], _) => (0, 0, arg)
  | (ds, r) =>
      let v := if neg then - horner base ds else horner base ds in
      if LONG_MAX <? v then (LONG_MAX, ERANGE, r)
      else if v <? LONG_MIN then (LONG_MIN, ERANGE, r)
      else (v, 0, r)
  end.

(** atoi converts the long to an int. *)
Definition atoi (arg : list Z) : Z := let '(v, _, _) := strtol arg 10 in s32 v.

(** ** getNum, getLong, getInt *)

Definition GN_NONNEG : Z := 0x1.
Definition GN_GT_0 : Z := 0x2.
Definition GN_ANY_BASE : Z := 0x40.     (** 0100 *)
Definition GN_BASE_8 : Z := 0x80.       (** 0200 *)
Definition GN_BASE_16 : Z := 0x100.     (** 0400 *)

(** The messages given to gnFail *)
Inductive failure :=
| NullOrEmpty | StrtolFailed | Nonnumeric | Negative | NotPositive | OutOfRange.

Definition flag (flags bit : Z) : bool := negb (Z.land flags bit =? 0).

Definition getNum (arg : option (list Z)) (flags : Z) : failure + Z :=
  match arg with
  | None | Some [] => inl NullOrEmpty
  | Some s =>
      let base := if flag flags GN_ANY_BASE then 0 else if flag flags GN_BASE_8 then 8
                  else if flag flags GN_BASE_16 then 16 else 10 in
      let '(res, errno, endptr) := strtol s base in
      if negb (errno =? 0) then inl StrtolFailed
      else match endptr with
           | _ :: _ => inl Nonnumeric
           | [] =>
               if flag flags GN_NONNEG && (res <? 0) then inl Negative
               else if flag flags GN_GT_0 && (res <=? 0) then inl NotPositive
               else inr res
           end
  end.
Definition getLong (arg : option (list Z)) (flags : Z) : failure + Z := getNum arg flags.
Definition getInt (arg : option (list Z)) (flags : Z) : failure + Z :=
  match getNum arg flags with
  | inl f => inl f
  | inr res => if (INT_MAX <? res) || (res <? INT_MIN) then inl OutOfRange else inr res
  end.

(** ** Printing *)

(** The decimal digits of a number below 10^fuel *)
Fixpoint print_digits (fuel : nat) (x : Z) : list Z :=
  match fuel with
  | O => []
  | S fuel => if x <? 10 then [48 + x] else print_digits fuel (x / 10) ++ [48 + x mod 10]
  end.
(** ["%d"] of an int *)
Definition print_int (x : Z) : list Z :=
  if x <? 0 then minus :: print_digits 10 (- x) else print_digits 10 x.

Example strtol_hex : strtol [32; 45; 48; 120; 49; 70; 103] 0 = (-31, 0, [103]).
Proof. reflexivity. Qed.
Example getInt_octal : getInt (Some [48; 49; 55]) GN_ANY_BASE = inr 15.
Proof. reflexivity. Qed.
Example print_min : print_int INT_MIN = [45; 50; 49; 52; 55; 52; 56; 51; 54; 52; 56].
Proof. reflexivity. Qed.

(** ** Decimal text *)

Definition decimal_digit (c : Z) : Prop := 48 ≤ c ≤ 57.

(** Optional white space, an optional sign and digits: what a text in base ten is *)
Inductive decimal : list Z → Z → Prop :=
| Decimal ws (neg : bool) sg ds x :
    Forall (λ c, isspace c = true) ws →
    (if neg then sg = [minus] else sg = [] ∨ sg = [plus]) →
    ds ≠ [] → Forall decimal_digit ds →
    x = (if neg then - horner 10 ds else horner 10 ds) →
    decimal (ws ++ sg ++ ds) x.

Lemma is_digit_10 c : is_digit 10 c = true ↔ decimal_digit c.
Proof.
  unfold is_digit, digit_value, decimal_digit.
  destruct ((48 <=? c) && (c <=? 57)) eqn:E1; [lia|].
  destruct ((97 <=? c) && (c <=? 122)) eqn:E2; [lia|].
  destruct ((65 <=? c) && (c <=? 90)) eqn:E3; [lia|]. split; [done|lia].
Qed.

Lemma digit_value_10 c : decimal_digit c → digit_value c = Some (c - 48).
Proof. unfold digit_value, decimal_digit. intros Hc. by rewrite (proj2 (andb_true_iff _ _)) by lia. Qed.

Lemma span_digits_spec base l ds r :
  span_digits base l = (ds, r) →
  l = ds ++ r ∧ Forall (λ c, is_digit base c = true) ds.
Proof.
  revert ds r. induction l as [|c l IH]; intros ds r E; cbn in E; [by simplify_eq|].
  destruct (is_digit base c) eqn:Hc; [|by simplify_eq].
  destruct (span_digits base l) as [ds' r']. simplify_eq.
  destruct (IH ds' r eq_refl) as [-> Hf]. split; [done|by constructor].
Qed.

(** Text that does not go on with a digit *)
Definition no_digit (base : Z) (r : list Z) : Prop :=
  match r with c :: _ => is_digit base c = false | [] => True end.

Lemma span_digits_all base ds r :
  Forall (λ c, is_digit base c = true) ds → no_digit base r → span_digits base (ds ++ r) = (ds, r).
Proof.
  intros Hds Hr. induction Hds as [|c ds Hc _ IH]; cbn; [|by rewrite Hc, IH].
  destruct r as [|c r]; [done|]. cbn in *. by rewrite Hr.
Qed.

Lemma skip_spaces_spec l :
  ∃ ws, l = ws ++ skip_spaces l ∧ Forall (λ c, isspace c = true) ws ∧
    match skip_spaces l with c :: _ => isspace c = false | [] => True end.
Proof.
  induction l as [|c l (ws & E & Hw & Hh)]; cbn; [by exists []|].
  destruct (isspace c) eqn:Hc; [|by exists []].
  exists (c :: ws). split_and!; [by rewrite E at 1|by constructor|done].
Qed.

Lemma skip_spaces_app ws l :
  Forall (λ c, isspace c = true) ws → match l with c :: _ => isspace c = false | [] => True end →
  skip_spaces (ws ++ l) = l.
Proof.
  intros Hw Hl. induction Hw as [|c ws Hc _ IH]; cbn.
  - destruct l as [|c l]; [done|]. cbn. by rewrite Hl.
  - by rewrite Hc.
Qed.

Lemma horner_app base ds es :
  horner base (ds ++ es) = foldl (λ acc c, acc * base + default 0 (digit_value c)) (horner base ds) es.
Proof. unfold horner. apply foldl_app. Qed.

Lemma Forall_digit_10 ds : Forall (λ c, is_digit 10 c = true) ds ↔ Forall decimal_digit ds.
Proof. rewrite !Forall_forall. setoid_rewrite is_digit_10. done. Qed.

(** The value of a text, held within a long *)
Definition clamp (x : Z) : Z * Z :=
  if LONG_MAX <? x then (LONG_MAX, ERANGE) else if x <? LONG_MIN then (LONG_MIN, ERANGE) else (x, 0).

Lemma strtol_decimal s x r : decimal s x → no_digit 10 r → strtol (s ++ r) 10 = (clamp x, r).
Proof.
  intros [ws neg sg ds y Hws Hsg Hne Hds ->] Hr. destruct ds as [|d ds]; [done|].
  pose proof (proj1 (Forall_cons _ _ _) Hds) as [Hd _].
  assert (isspace d = false ∧ (d =? minus) = false ∧ (d =? plus) = false) as (Hd1 & Hd2 & Hd3)
    by (unfold decimal_digit, isspace, minus, plus in *; lia).
  rewrite <- !app_assoc. cbn [app].
  assert (skip_spaces (ws ++ sg ++ d :: ds ++ r) = sg ++ d :: ds ++ r) as Hsk.
  { apply skip_spaces_app; [done|]. destruct neg; [by subst sg|]. by destruct Hsg as [-> | ->]. }
  pose proof (span_digits_all 10 (d :: ds) r (proj2 (Forall_digit_10 _) Hds) Hr) as Hsp. cbn [app] in Hsp.
  unfold strtol, clamp. rewrite Hsk.
  assert (match sg ++ d :: ds ++ r with
          | c :: l' => if c =? minus then (true, l') else if c =? plus then (false, l')
                       else (false, sg ++ d :: ds ++ r)
          | [] => (false, [])
          end = (neg, d :: ds ++ r)) as ->.
  { destruct neg; [by subst sg|]. destruct Hsg as [-> | ->]; cbn [app]; [by rewrite Hd2, Hd3|done]. }
  change (choose_base 10 (d :: ds ++ r)) with (10, d :: ds ++ r). cbn beta iota. rewrite Hsp. set (v := if neg then _ else _).
  destruct (LONG_MAX <? v); [done|]. by destruct (v <? LONG_MIN).
Qed.

Lemma strtol_decimal_inv s v :
  s ≠ [] → strtol s 10 = (v, 0, []) → decimal s v ∧ LONG_MIN ≤ v ≤ LONG_MAX.
Proof.
  intros Hne E. unfold strtol in E. destruct (skip_spaces_spec s) as (ws & Es & Hws & _).
  set (l := skip_spaces s) in *.
  assert (∃ neg sg l1, match l with
    | c :: l' => if c =? minus then (true, l') else if c =? plus then (false, l') else (false, l)
    | [] => (false, [])
    end = (neg, l1) ∧ l = sg ++ l1 ∧ if neg : bool then sg = [minus] else sg = [] ∨ sg = [plus])
    as (neg & sg & l1 & Hm & Hl & Hsg).
  { destruct l as [|c l']; [by exists false, [], []; auto|].
    destruct (Z.eqb_spec c minus) as [->|]; [by exists true, [minus], l'|].
    destruct (Z.eqb_spec c plus) as [->|]; [by exists false, [plus], l'; auto|].
    exists false, [], (c :: l'). auto. }
  rewrite Hm in E. change (choose_base 10 l1) with (10, l1) in E. cbn beta iota in E.
  destruct (span_digits 10 l1) as [ds r] eqn:Hsp.
  apply span_digits_spec in Hsp as [-> Hds]. destruct ds as [|d ds]; [by simplify_eq|].
  set (v' := if neg then _ else _) in *.
  destruct (Z.ltb_spec LONG_MAX v'); [by simplify_eq|]. destruct (Z.ltb_spec v' LONG_MIN); [by simplify_eq|].
  simplify_eq. rewrite app_nil_r in *. split; [|lia]. rewrite Es, Hl.
  apply Decimal with neg; [done|done|done|by apply Forall_digit_10|done].
Qed.

(** What the flags ask of a value *)
Definition flags_ok (flags x : Z) : Prop :=
  (flag flags GN_NONNEG = true → 0 ≤ x) ∧ (flag flags GN_GT_0 = true → 0 < x).
Definition base_10 (flags : Z) : Prop :=
  flag flags GN_ANY_BASE = false ∧ flag flags GN_BASE_8 = false ∧ flag flags GN_BASE_16 = false.

Lemma decimal_nonempty s x : decimal s x → s ≠ [].
Proof.
  intros [ws neg sg ds y ? ? Hne ? ?] E. apply app_eq_nil in E as [_ E].
  by apply app_eq_nil in E as [_ E].
Qed.

Lemma getNum_decimal s flags x :
  base_10 flags →
  getNum (Some s) flags = inr x ↔ decimal s x ∧ LONG_MIN ≤ x ≤ LONG_MAX ∧ flags_ok flags x.
Proof.
  intros (Hb1 & Hb2 & Hb3). unfold getNum, flags_ok. destruct s as [|c s].
  { split; [done|]. intros [Hd _]. by apply decimal_nonempty in Hd. }
  rewrite Hb1, Hb2, Hb3. split.
  - destruct (strtol (c :: s) 10) as [[v e] r] eqn:E. intros H.
    destruct (Z.eqb_spec e 0) as [->|]; [|done]. destruct r; [|done]. cbn [negb] in H.
    apply strtol_decimal_inv in E as [Hd Hv]; [|done].
    destruct (flag flags GN_NONNEG), (flag flags GN_GT_0); cbn [andb] in H;
      destruct (Z.ltb_spec v 0), (Z.leb_spec v 0); simplify_eq; split_and!; try done; lia.
  - intros (Hd & Hx & H1 & H2). rewrite <- (app_nil_r (c :: s)), (strtol_decimal _ _ [] Hd) by done. unfold clamp.
    rewrite !(proj2 (Z.ltb_ge _ _)) by lia. cbn.
    destruct (flag flags GN_NONNEG), (flag flags GN_GT_0); cbn [andb];
      destruct (Z.ltb_spec x 0), (Z.leb_spec x 0); try done;
      first [specialize (H1 eq_refl); lia|specialize (H2 eq_refl); lia].
Qed.

(** C40. In base ten, getInt returns x exactly for the texts that are optional white
    space, an optional sign and digits with the value x, where x is an int and meets
    the flags; every other argument, an overflowing one included, ends the program
    with a message. *)
Theorem getInt_decimal s flags x :
  base_10 flags →
  getInt (Some s) flags = inr x ↔ decimal s x ∧ INT_MIN ≤ x ≤ INT_MAX ∧ flags_ok flags x.
Proof.
  intros Hb. unfold getInt. pose proof (getNum_decimal s flags x Hb) as Hn. split.
  - intros H. destruct (getNum (Some s) flags) as [f|res] eqn:E; [done|].
    destruct (Z.ltb_spec INT_MAX res); [done|]. destruct (Z.ltb_spec res INT_MIN); [done|].
    cbn in H. destruct (proj1 Hn H) as (Hd & _ & Hf). simplify_eq. split_and!; [done|lia|lia|apply Hf..].
  - intros (Hd & Hx & Hf). rewrite (proj2 Hn).
    + by rewrite !(proj2 (Z.ltb_ge _ _)) by lia.
    + split_and!; [done|unfold LONG_MIN, INT_MIN in *; lia|unfold LONG_MAX, INT_MAX in *; lia|done].
Qed.

(** ** Printing and reading back *)

Lemma print_digits_ok fuel x :
  0 ≤ x < 10 ^ Z.of_nat fuel → (0 < fuel)%nat →
  print_digits fuel x ≠ [] ∧ Forall decimal_digit (print_digits fuel x) ∧ horner 10 (print_digits fuel x) = x.
Proof.
  revert x. induction fuel as [|fuel IH]; intros x Hx Hf; [lia|]. cbn [print_digits].
  destruct (Z.ltb_spec x 10) as [Hlt|Hge].
  - split_and!; [done|repeat constructor; unfold decimal_digit; lia|].
    unfold horner. cbn [foldl]. rewrite digit_value_10 by (unfold decimal_digit; lia). cbn. lia.
  - rewrite Nat2Z.inj_succ, Z.pow_succ_r in Hx by lia.
    assert (fuel ≠ 0%nat) by (intros ->; cbn in Hx; lia).
    destruct (IH (x / 10)) as (Hne & Hd & Hh); [Z.to_euclidean_division_equations; lia|lia|].
    assert (decimal_digit (48 + x mod 10)) as Hdig
      by (unfold decimal_digit; pose proof (Z.mod_pos_bound x 10); lia).
    split_and!.
    + by destruct (print_digits fuel (x / 10)).
    + apply Forall_app. split; [done|by apply Forall_singleton].
    + rewrite horner_app, Hh. cbn [foldl]. rewrite digit_value_10 by done. cbn [from_option id].
      Z.to_euclidean_division_equations; lia.
Qed.

Lemma print_int_decimal x : INT_MIN ≤ x ≤ INT_MAX → decimal (print_int x) x.
Proof.
  intros Hx. unfold INT_MIN, INT_MAX in Hx. unfold print_int. destruct (Z.ltb_spec x 0).
  - destruct (print_digits_ok 10 (- x)) as (Hne & Hd & Hh); [change (10 ^ Z.of_nat 10) with (10 ^ 10); lia|lia|].
    apply (Decimal [] true [minus] (print_digits 10 (- x))); [done..|]. cbn beta iota. lia.
  - destruct (print_digits_ok 10 x) as (Hne & Hd & Hh); [change (10 ^ Z.of_nat 10) with (10 ^ 10); lia|lia|].
    apply (Decimal [] false [] (print_digits 10 x)); [done|auto|done|done|]. cbn beta iota. lia.
Qed.

(** The text that atoi reads may go on behind the digits. *)
Lemma atoi_decimal s x r : decimal s x → INT_MIN ≤ x ≤ INT_MAX → no_digit 10 r → atoi (s ++ r) = x.
Proof.
  intros Hd Hx Hr. unfold atoi. rewrite (strtol_decimal s x r Hd Hr). unfold clamp.
  unfold INT_MIN, INT_MAX in Hx. rewrite !(proj2 (Z.ltb_ge _ _)) by (unfold LONG_MAX, LONG_MIN; lia).
  apply swrap_id; [lia|]. unfold fits_s. lia.
Qed.

(** Every int printed with ["%d"] is read back by getInt, when it meets the flags,
    and by atoi, also with a newline or other text behind it. *)
Theorem print_getInt x flags r :
  INT_MIN ≤ x ≤ INT_MAX → base_10 flags → flags_ok flags x → no_digit 10 r →
  getInt (Some (print_int x)) flags = inr x ∧ atoi (print_int x ++ r) = x.
Proof.
  intros Hx Hb Hf Hr. pose proof (print_int_decimal x Hx) as Hd. split; [|by apply atoi_decimal].
  pose proof (proj2 (getNum_decimal (print_int x) flags x Hb)) as Hn. unfold getInt.
  unfold INT_MIN, INT_MAX, LONG_MIN, LONG_MAX in *.
  rewrite Hn by (split_and!; [done|lia|lia|apply Hf..]). by rewrite !(proj2 (Z.ltb_ge _ _)) by lia.
Qed.

Lemma getInt_decimal_witness : base_10 GN_GT_0 ∧ getInt (Some [32; 43; 52; 50]) GN_GT_0 = inr 42.
Proof.
  split; [by vm_compute|]. apply getInt_decimal; [by vm_compute|].
  split; [|vm_compute; split; [split; congruence|done]].
  apply (Decimal [32] false [43] [52; 50]); [repeat constructor|by right|done| |done].
  repeat constructor; vm_compute; congruence.
Defined.

Lemma print_getInt_witness :
  getInt (Some (print_int (-2147483648))) 0 = inr (-2147483648) ∧
  atoi (print_int (-2147483648) ++ [10]) = -2147483648.
Proof. apply print_getInt; vm_compute; [split; congruence|done|done|done]. Defined.

End TlpiNum.
