(* ===== verification/Seqnum.v ===== *)
(** * A service of unique sequence numbers

    Models two servers of The_Linux_Programming_Interface/tlpi-dist: the loop of
    sockets/is_seqnum_sv.c, which reads a length as a line of text and answers with
    the first number of a sequence of that length, with the request and the answer
    of sockets/is_seqnum_cl.c; and the loop of pipes/fifo_seqnum_server.c, which does
    the same with binary requests from a FIFO.

    Connections are the descriptors of [TlpiIo], text is read and printed by
    [TlpiNum]; setting up the sockets and FIFOs is the kernel's.  [grant] is a
    history: first number and length of the sequence a client was given. *)

From S2P Require Import Prelude TlpiIo TlpiNum.

Module Seqnum.
Import TlpiIo TlpiNum.

Definition INT_LEN : Z := 30.

(** The string at the beginning of a buffer *)
Fixpoint cstring (buf : list Z) : list Z :=
  match buf with [] => [] | c :: buf => if c =? 0 then [] else c :: cstring buf end.

Definition grant : Type := Z * Z.

(** ** The server on a stream socket *)

(** snprintf(seqNumStr, INT_LEN, "%d\n", seqNum): the uint32_t is printed as an int. *)
Definition reply (seqNum : Z) : list Z := take 29 (print_int (s32 seqNum) ++ [newline]).

(** One turn of the loop, for an accepted connection that is read from [cfd] and
    written to [out]; a failed write is reported and nothing else. *)
Definition serve_one (fuel : nat) (cfd : rfd) (out : wfd) (reqLenStr : list Z) (seqNum : Z)
    : option (option grant * wfd * list Z * Z) :=
  '(r, b, _) ← readLine fuel (Some reqLenStr) INT_LEN cfd;
  reqLenStr ← b;
  if r <=? 0 then Some (None, out, reqLenStr, seqNum)
  else
    let reqLen := atoi (cstring reqLenStr) in
    if reqLen <=? 0 then Some (None, out, reqLenStr, seqNum)
    else
      let '(_, out) := write (reply seqNum) out in
      Some (Some (seqNum, reqLen), out, reqLenStr, u32 (seqNum + reqLen)).

(** The loop, over the connections in the order they are accepted *)
Fixpoint serve (fuel : nat) (clients : list (rfd * wfd)) (reqLenStr : list Z) (seqNum : Z)
    : option (list (option grant * wfd) * Z) :=
  match clients with
  | [] => Some ([], seqNum)
  | (cfd, out) :: clients =>
      '(g, out, reqLenStr, seqNum) ← serve_one fuel cfd out reqLenStr seqNum;
      '(gs, seqNum) ← serve fuel clients reqLenStr seqNum;
      Some ((g, out) :: gs, seqNum)
  end.

(** argv[1], when it is given: getInt, converted to uint32_t *)
Definition initial_seqNum (arg : option (list Z)) : failure + Z :=
  match arg with
  | None => inr 0
  | Some s => match getInt (Some s) 0 with inl f => inl f | inr x => inr (u32 x) end
  end.

(** ** The client *)

(** What it writes for the argument [reqLenStr], "1" when there is none *)
Definition client_request (arg : option (list Z)) : list Z := default [49] arg ++ [newline].
(** What it reads back and displays; the inner [None] is an exit with a message. *)
Definition client_answer (fuel : nat) (seqNumStr : list Z) (cfd : rfd) : option (option (list Z)) :=
  '(numRead, b, _) ← readLine fuel (Some seqNumStr) INT_LEN cfd;
  seqNumStr ← b;
  if (numRead =? -1) || (numRead =? 0) then Some None else Some (Some (cstring seqNumStr)).

(** ** The server on a FIFO *)

(** struct request, in the byte order of x86: pid and seqLen *)
Definition le32 (bs : list Z) : Z := s32 (foldr (λ b acc, b + 256 * acc) 0 bs).
Definition decode (req : list Z) : Z * Z := (le32 (slice 0 4 req), le32 (slice 4 4 req)).

(** One turn of the loop: [can_open pid] says whether the FIFO of that client exists.
    A grant is recorded with the pid; seqNum is an int. *)
Definition fifo_one (can_open : Z → bool) (serverFd : rfd) (seqNum : Z)
    : option (Z * grant) * rfd * Z :=
  let '(r, fd) := read 8 serverFd in
  match r with
  | inl req =>
      if zlen req =? 8 then
        let '(pid, seqLen) := decode req in
        if can_open pid then (Some (pid, (seqNum, seqLen)), fd, s32 (seqNum + seqLen))
        else (None, fd, seqNum)
      else (None, fd, seqNum)
  | inr _ => (None, fd, seqNum)
  end.
Fixpoint fifo_serve (turns : nat) (can_open : Z → bool) (serverFd : rfd) (seqNum : Z)
    : list (Z * grant) :=
  match turns with
  | O => []
  | S turns =>
      let '(g, fd, seqNum) := fifo_one can_open serverFd seqNum in
      match g with Some g => [g] | None => [] end ++ fifo_serve turns can_open fd seqNum
  end.

(** ** What the service promises *)

(** An allocator that never wraps: sequences are handed out one behind the other. *)
Fixpoint allocate (reqs : list (option Z)) (next : Z) : list (option grant) :=
  match reqs with
  | [] => []
  | None :: reqs => None :: allocate reqs next
  | Some n :: reqs => Some (next, n) :: allocate reqs (next + n)
  end.

(** The length a client asks for: the number at the head of the first 29 bytes of
    its line; [None] when there is none, or it is not positive *)
Definition request (l : list Z) : option Z :=
  match take 29 (first_line l) with
  | [] => None
  | got => let n := atoi (cstring got) in if n <=? 0 then None else Some n
  end.

(** The numbers of a sequence *)
Definition numbers (g : grant) : list Z := (λ j, u32 (g.1 + j)) <$> seqZ 0 g.2.

(** What a client asked for: the length in its line; nothing either if a read fails
    before the line has arrived. *)
Definition outcome (c : rfd * wfd) (r : option Z) : Prop :=
  r = request (incoming c.1) ∨ forallb benign (revents c.1) = false ∧ r = None.

(** The line that stands for a number, and what a client should have been sent *)
Definition text (n : Z) : list Z := print_int (s32 n) ++ [newline].
Definition answered (c : rfd * wfd) (g : option grant * wfd) : Prop :=
  g.2 = match g.1 with Some (first, _) => (write (text first) c.2).2 | None => c.2 end.

Definition total (reqs : list (option Z)) : Z := foldr Z.add 0 (omap id reqs).

Example demo_serve :
  option_map (λ r, (map fst r.1, r.2))
    (serve 20 [(RFd (client_request (Some [53])) [Some_bytes 0], WFd [] []);
              (RFd [120; 10] [], WFd [] []); (RFd (client_request None) [], WFd [] [])]
          (zeros 30) 4294967295) = Some ([Some (4294967295, 5); None; Some (4, 1)], 5).
Proof. vm_compute. reflexivity. Qed.

(** ** One client *)

Definition plain (c : Z) : Prop := c ≠ 0 ∧ c ≠ newline.

Lemma first_line_plain t r : Forall plain t → first_line (t ++ newline :: r) = t ++ [newline].
Proof.
  induction 1 as [|c t [H0 H1] _ IH]; cbn [app first_line]; [done|].
  rewrite (proj2 (Z.eqb_neq _ _)) by done. by rewrite IH.
Qed.

Lemma print_digits_length fuel x : (length (print_digits fuel x) ≤ fuel)%nat.
Proof.
  revert x. induction fuel as [|fuel IH]; intros x; cbn [print_digits]; [done|].
  destruct (x <? 10); cbn [length]; [lia|]. rewrite length_app. cbn [length]. specialize (IH (x / 10)). lia.
Qed.

Lemma print_int_length x : (length (print_int x) ≤ 11)%nat.
Proof.
  unfold print_int. pose proof (print_digits_length 10 x). pose proof (print_digits_length 10 (- x)).
  destruct (x <? 0); cbn [length]; lia.
Qed.

Lemma s32_int x : INT_MIN ≤ s32 x ≤ INT_MAX.
Proof. pose proof (swrap_bound 32 x ltac:(lia)) as H. unfold fits_s, INT_MIN, INT_MAX in *. lia. Qed.

Lemma u32_s32 x : fits_u 32 x → u32 (s32 x) = x.
Proof.
  unfold fits_u, uwrap, swrap. change (2 ^ (32 - 1)) with (2 ^ 31). intros Hx.
  Z.to_euclidean_division_equations; lia.
Qed.

Lemma atoi_line x : INT_MIN ≤ x ≤ INT_MAX → atoi (print_int x ++ [newline]) = x.
Proof. intros Hx. by apply atoi_decimal; [apply print_int_decimal| |]. Qed.

Lemma atoi_text n : fits_u 32 n → u32 (atoi (text n)) = n.
Proof. intros Hn. unfold text. rewrite atoi_line by apply s32_int. by apply u32_s32. Qed.

Lemma reply_text n : reply n = text n.
Proof. unfold reply, text. apply take_ge. rewrite length_app. pose proof (print_int_length (s32 n)). cbn. lia. Qed.

Lemma cstring_zero a r : cstring (a ++ 0 :: r) = cstring a.
Proof. induction a as [|c a IH]; cbn; [done|]. by rewrite IH. Qed.

Lemma cstring_id a : Forall (λ c, c ≠ 0) a → cstring a = a.
Proof. induction 1 as [|c a Hc _ IH]; cbn; [done|]. by rewrite (proj2 (Z.eqb_neq _ _)), IH. Qed.

Lemma cstring_buffer buf got : slice 0 (zlen got + 1) buf = got ++ [0] → cstring buf = cstring got.
Proof.
  unfold slice. rewrite drop_0. intros H. rewrite <- (take_drop (Z.to_nat (zlen got + 1)) buf), H.
  rewrite <- app_assoc. apply cstring_zero.
Qed.

Lemma serve_one_ok fuel cfd out buf seqNum :
  zlen buf = INT_LEN → (length (revents cfd) + length (incoming cfd) < fuel)%nat →
  ∃ r buf', outcome (cfd, out) r ∧ zlen buf' = INT_LEN ∧
    serve_one fuel cfd out buf seqNum = Some
      (match r with
       | Some n => (Some (seqNum, n), (write (text seqNum) out).2, buf', u32 (seqNum + n))
       | None => (None, out, buf', seqNum)
       end).
Proof.
  intros Hbuf Hf. unfold INT_LEN in *.
  destruct (readLine_any fuel 30 buf cfd) as (x & buf' & fd' & E & Hz & Hx); [lia|done|].
  change (Z.to_nat (30 - 1)) with 29%nat in *. unfold serve_one, INT_LEN. rewrite E. cbn [mbind option_bind].
  destruct Hx as [[-> Hb]|[-> Hs]].
  { exists None, buf'. split; [by right|]. split; [lia|done]. }
  exists (request (incoming cfd)), buf'. split; [by left|]. split; [lia|].
  unfold request. set (got := take 29 (first_line (incoming cfd))) in *.
  destruct (decide (incoming cfd = [])) as [Hnil|Hne].
  { assert (got = []) as -> by (unfold got; rewrite Hnil; done). done. }
  rewrite (cstring_buffer buf' got (Hs Hne)).
  assert (got ≠ []) as Hg.
  { unfold got. destruct (first_line (incoming cfd)) eqn:Ef; [by apply first_line_nil in Ef|done]. }
  destruct got as [|c got]; [done|]. rewrite (proj2 (Z.leb_gt _ _)) by (unfold zlen; cbn; lia).
  rewrite reply_text. destruct (atoi (cstring (c :: got)) <=? 0); [done|]. by destruct (write (text seqNum) out).
Qed.

(** ** All clients *)

Definition wrap_grant (g : grant) : grant := (u32 g.1, g.2).

(** Fuel for every call of read on the connection *)
Definition enough (fuel : nat) (c : rfd * wfd) : Prop :=
  (length (revents c.1) + length (incoming c.1) < fuel)%nat.
#[export] Instance enough_dec fuel c : Decision (enough fuel c).
Proof. unfold enough. apply _. Defined.

Lemma u32_add a b : u32 (u32 a + b) = u32 (a + b).
Proof. unfold uwrap. apply Z.add_mod_idemp_l. lia. Qed.

Lemma sum_cons r reqs : total (r :: reqs) = default 0 r + total reqs.
Proof. by destruct r. Qed.

Lemma serve_ok fuel clients buf next :
  Forall (enough fuel) clients → zlen buf = INT_LEN →
  ∃ reqs gs, Forall2 outcome clients reqs ∧
    serve fuel clients buf (u32 next) = Some (gs, u32 (next + total reqs)) ∧
    map fst gs = map (option_map wrap_grant) (allocate reqs next) ∧ Forall2 answered clients gs.
Proof.
  intros Hc. revert buf next. induction Hc as [|[cfd out] clients Hf _ IH]; intros buf next Hbuf.
  { exists [], []. cbn. by rewrite Z.add_0_r. }
  cbn [serve]. cbn zeta.
  destruct (serve_one_ok fuel cfd out buf (u32 next)) as (r & buf' & Ho & Hbuf' & ->); [done..|].
  assert (∀ nxt, (match r with Some n => u32 (u32 next + n) | None => u32 next end) = u32 nxt →
    nxt = next + default 0 r → 
    ∃ reqs gs, Forall2 outcome ((cfd, out) :: clients) (r :: reqs) ∧
      serve fuel clients buf' (u32 nxt) = Some (gs, u32 (next + total (r :: reqs))) ∧
      map fst gs = map (option_map wrap_grant) (allocate reqs nxt) ∧ Forall2 answered clients gs) as Hrest.
  { intros nxt _ ->. destruct (IH buf' (next + default 0 r) Hbuf') as (reqs & gs & H1 & H2 & H3 & H4).
    exists reqs, gs. split_and!; [by constructor| |done|done]. by rewrite H2, sum_cons, Z.add_assoc. }
  destruct r as [n|]; cbn [mbind option_bind default] in *.
  - destruct (Hrest (next + n)) as (reqs & gs & H1 & H2 & H3 & H4); [apply u32_add|done|].
    rewrite u32_add, H2. cbn [mbind option_bind]. exists (Some n :: reqs). eexists. split_and!; [done|done| |].
    + cbn. by rewrite H3.
    + constructor; [done|exact H4].
  - destruct (Hrest next) as (reqs & gs & H1 & H2 & H3 & H4); [done|cbn; lia|].
    rewrite H2. cbn [mbind option_bind]. exists (None :: reqs). eexists. split_and!; [done|done| |].
    + cbn. by rewrite H3.
    + constructor; [done|exact H4].
Qed.

Lemma sum_nonneg reqs : Forall (λ n, 0 ≤ n) (omap id reqs) → 0 ≤ total reqs.
Proof.
  unfold total. generalize (omap id reqs : list Z). induction 1; cbn; lia.
Qed.

(** The sequences of the allocator, put together, are one run of numbers. *)
Lemma allocate_numbers reqs next :
  Forall (λ n, 0 ≤ n) (omap id reqs) →
  concat (map numbers (omap id (map (option_map wrap_grant) (allocate reqs next)))) =
  (λ j, u32 (next + j)) <$> seqZ 0 (total reqs).
Proof.
  revert next. induction reqs as [|[n|] reqs IH]; intros next Hp; [done|rewrite sum_cons..];
    cbn -[total seqZ numbers] in *; [|by apply IH].
  apply Forall_cons in Hp as [Hn Hp]. rewrite IH by done. unfold id in *.
  pose proof (sum_nonneg reqs Hp) as Ht.
  rewrite seqZ_app by lia. rewrite fmap_app. f_equal.
  - unfold numbers, wrap_grant. cbn. apply list_fmap_ext. intros i x _. apply u32_add.
  - rewrite <- (Z.add_0_r (0 + n)), <- fmap_add_seqZ, <- list_fmap_compose.
    apply list_fmap_ext. intros i x _. unfold compose. f_equal. lia.
Qed.

Lemma request_positive l n : request l = Some n → 0 < n.
Proof.
  unfold request. destruct (take 29 (first_line l)); [done|].
  destruct (Z.leb_spec (atoi (cstring (z :: l0))) 0); [done|]. intros. by simplify_eq.
Qed.

Lemma requests_positive clients reqs : Forall2 outcome clients reqs → Forall (λ n, 0 ≤ n) (omap id reqs).
Proof.
  intros H. apply Forall_forall. intros n Hn. apply list_elem_of_omap in Hn as (r & Hr & E). unfold id in E. subst r.
  apply list_elem_of_lookup_1 in Hr as [i Hi]. destruct (Forall2_lookup_r _ _ _ _ _ H Hi) as (c & _ & [E|[_ ?]]); [|done].
  symmetry in E. apply request_positive in E. lia.
Qed.

Lemma run_nodup next t : t ≤ 2 ^ 32 → NoDup ((λ j, u32 (next + j)) <$> seqZ 0 t).
Proof.
  intros Ht. apply NoDup_fmap_2_strong; [|apply NoDup_seqZ].
  intros x y Hx Hy E. apply elem_of_seqZ in Hx, Hy. unfold uwrap in E.
  change (2 ^ 32) with 4294967296 in *. Z.to_euclidean_division_equations; lia.
Qed.

(** C13. The server refines an allocator that hands out sequences one behind the other:
    every client, in the order of the connections, is given what it asked for, a bad
    request nothing, whatever the clients send and however it arrives; a client with a
    failing read is given what it asked for or nothing, according to whether its line came
    first ([outcome]).  What is written to the connection of a client is the line of the
    first number of its sequence and nothing else, and the line stands for that number; so
    the numbers given out are all different as long as there are at most 2^32. *)
Theorem seqnum_unique fuel clients buf next :
  Forall (enough fuel) clients → zlen buf = INT_LEN →
  ∃ reqs gs, Forall2 outcome clients reqs ∧
    serve fuel clients buf (u32 next) = Some (gs, u32 (next + total reqs)) ∧
    map fst gs = map (option_map wrap_grant) (allocate reqs next) ∧
    Forall2 answered clients gs ∧
    (∀ first n, Some (first, n) ∈ map fst gs → u32 (atoi (text first)) = first) ∧
    (total reqs ≤ 2 ^ 32 → NoDup (concat (map numbers (omap id (map fst gs))))).
Proof.
  intros Hc Hbuf. destruct (serve_ok fuel clients buf next Hc Hbuf) as (reqs & gs & Ho & E & Hgs & Ha).
  exists reqs, gs. split_and!; [done|done|done|done| |].
  - intros first n. rewrite Hgs. intros ([[f m]|] & Hg & _)%list_elem_of_fmap; [|done]. injection Hg as -> ->.
    apply atoi_text, uwrap_bound. lia.
  - intros Ht. rewrite Hgs, allocate_numbers by by eapply requests_positive. by apply run_nodup.
Qed.

(** The fourth connection fails in the middle of its line. *)
Definition demo_clients : list (rfd * wfd) :=
  [(RFd (client_request (Some [53])) [Some_bytes 0; Error EINTR], WFd [] []);
   (RFd [120; 10] [], WFd [] []); (RFd (client_request None) [], WFd [] []);
   (RFd (client_request (Some [57])) [Some_bytes 0; Error 104], WFd [] [])].
Lemma seqnum_unique_witness :
  ∃ gs, serve 20 demo_clients (zeros 30) (u32 4294967295) = Some (gs, 5) ∧
    map (written ∘ snd) gs = [[45; 49; 10]; []; [52; 10]; []] ∧ Forall2 answered demo_clients gs.
Proof.
  destruct (seqnum_unique 20 demo_clients (zeros 30) 4294967295) as (reqs & gs & _ & E & _ & Ha & _).
  - apply (bool_decide_unpack (Forall (enough 20) demo_clients)). vm_compute. exact I.
  - done.
  - exists gs. destruct (serve 20 demo_clients (zeros 30) (u32 4294967295)) as [[gs' n]|] eqn:E'; [|done].
    injection E as Eg _. subst gs'. vm_compute in E'. injection E' as <- <-. split; [reflexivity|]. split; [reflexivity|exact Ha].
Defined.

(** ** A whole dialogue *)

Lemma decimal_digit_plain ds : Forall decimal_digit ds → Forall plain ds.
Proof. intros H. eapply Forall_impl; [exact H|]. unfold decimal_digit, plain, newline. lia. Qed.

Lemma print_int_plain x : INT_MIN ≤ x ≤ INT_MAX → Forall plain (print_int x).
Proof.
  intros Hx. unfold INT_MIN, INT_MAX in Hx. unfold print_int.
  pose proof (λ y H, proj1 (proj2 (print_digits_ok 10 y H ltac:(lia)))) as Hd.
  change (10 ^ Z.of_nat 10) with (10 ^ 10) in Hd. destruct (Z.ltb_spec x 0).
  - constructor; [by vm_compute|]. apply decimal_digit_plain, Hd. lia.
  - apply decimal_digit_plain, Hd. lia.
Qed.

(** A line of at most 29 bytes is taken as it is. *)
Lemma line_29 x : INT_MIN ≤ x ≤ INT_MAX →
  take 29 (first_line (print_int x ++ [newline])) = print_int x ++ [newline] ∧
  cstring (print_int x ++ [newline]) = print_int x ++ [newline].
Proof.
  intros Hx. pose proof (print_int_plain x Hx) as Hp. rewrite first_line_plain by done. split.
  - apply take_ge. rewrite length_app. pose proof (print_int_length x). cbn. lia.
  - apply cstring_id, Forall_app. split; [|by apply Forall_singleton].
    eapply Forall_impl; [exact Hp|]. by intros c [? _].
Qed.

(** The text protocol loses nothing: a client that asks for n numbers is granted a
    sequence of n, and the line it displays, a negative number for the upper half of
    the range, stands for the first of them, however both streams are cut up. *)
Theorem seqnum_dialogue n seqNum buf abuf evs evs' :
  0 < n ≤ INT_MAX → fits_u 32 seqNum → zlen buf = INT_LEN → zlen abuf = INT_LEN →
  forallb benign evs = true → forallb benign evs' = true →
  ∃ w buf' t,
    serve_one (length evs + 13) (RFd (client_request (Some (print_int n))) evs) (WFd [] []) buf seqNum =
      Some (Some (seqNum, n), w, buf', u32 (seqNum + n)) ∧
    client_answer (length evs' + 13) abuf (RFd (written w) evs') = Some (Some t) ∧ u32 (atoi t) = seqNum.
Proof.
  intros Hn Hs Hbuf Habuf He He'. assert (INT_MIN ≤ n ≤ INT_MAX) as Hn' by (unfold INT_MIN; lia).
  pose proof (s32_int seqNum) as Hq.
  assert (request (client_request (Some (print_int n))) = Some n) as Hreq.
  { unfold request, client_request. cbn [default from_option]. unfold id.
    destruct (line_29 n Hn') as [-> Hc]. pose proof (atoi_line n Hn') as Ha.
    destruct (print_int n ++ [newline]) as [|c t] eqn:Et; [by destruct (print_int n)|].
    rewrite Hc, Ha. by rewrite (proj2 (Z.leb_gt _ _)) by lia. }
  destruct (serve_one_ok (length evs + 13) (RFd (client_request (Some (print_int n))) evs) (WFd [] []) buf seqNum)
    as (r & buf' & Ho & _ & E); [done|..].
  { cbn. rewrite length_app. pose proof (print_int_length n). cbn. unfold id. lia. }
  destruct Ho as [->|[Hno _]]; [|cbn in Hno; congruence].
  cbn [incoming fst] in E. rewrite Hreq in E. cbn [write wevents snd written app] in E.
  set (t := text seqNum) in *. eexists _, _, t. split; [exact E|].
  split; [|by apply atoi_text]. unfold text in t.
  cbn [written]. unfold client_answer.
  destruct (readLine_ok (length evs' + 13) INT_LEN abuf (RFd t evs'))
    as (b & fd' & -> & _ & _ & _ & _ & _ & Hb); [done|rewrite Habuf; by vm_compute|..].
  { cbn. unfold t. rewrite length_app. pose proof (print_int_length (s32 seqNum)). cbn. lia. }
  cbn [incoming mbind option_bind] in *. change (Z.to_nat (INT_LEN - 1)) with 29%nat in *.
  destruct (line_29 (s32 seqNum) Hq) as [Hl Hc]. fold t in Hl, Hc. rewrite Hl in *.
  assert (0 < zlen t) as Ht by (unfold t; rewrite zlen_app; pose proof (zlen_nonneg (print_int (s32 seqNum)));
                                change (zlen [newline]) with 1; lia).
  rewrite !(proj2 (Z.eqb_neq _ _)) by lia. cbn [orb].
  rewrite (cstring_buffer b t), Hc; [done|]. apply Hb. intros H0. rewrite H0 in Ht. done.
Qed.

Lemma seqnum_dialogue_witness :
  ∃ w buf' t,
    serve_one 14 (RFd (client_request (Some (print_int 7))) [Some_bytes 0]) (WFd [] []) (zeros 30) 4294967295 =
      Some (Some (4294967295, 7), w, buf', u32 (4294967295 + 7)) ∧
    client_answer 15 (zeros 30) (RFd (written w) [Error EINTR; Some_bytes 0]) = Some (Some t) ∧ u32 (atoi t) = 4294967295.
Proof.
  apply (seqnum_dialogue 7 4294967295 (zeros 30) (zeros 30) [Some_bytes 0] [Error EINTR; Some_bytes 0]);
    vm_compute; try done; split; done.
Defined.

(** ** The FIFO *)

(** A request as the client writes it *)
Definition encode (pid seqLen : Z) : list Z :=
  let bytes x := map (λ i, u8 (Z.shiftr x (8 * i))) [0; 1; 2; 3] in bytes pid ++ bytes seqLen.

Lemma byte_div x i : 0 ≤ i → u8 (Z.shiftr x (8 * i)) = (x / 256 ^ i) mod 256.
Proof. intros Hi. unfold uwrap. rewrite Z.shiftr_div_pow2, Z.pow_mul_r by lia. done. Qed.

Lemma le32_bytes x : fits_s 32 x → le32 (map (λ i, u8 (Z.shiftr x (8 * i))) [0; 1; 2; 3]) = x.
Proof.
  intros Hx. unfold le32. cbn [map foldr]. rewrite !byte_div by lia. unfold fits_s, swrap in *.
  change (256 ^ 0) with 1. change (256 ^ 1) with 256. change (256 ^ 2) with 65536.
  change (256 ^ 3) with 16777216. change (2 ^ (32 - 1)) with 2147483648 in *.
  change (2 ^ 32) with 4294967296. Z.to_euclidean_division_equations. lia.
Qed.

Lemma decode_encode pid n : fits_s 32 pid → fits_s 32 n → decode (encode pid n) = (pid, n).
Proof. intros Hp Hn. unfold decode. f_equal; [apply (le32_bytes pid Hp)|apply (le32_bytes n Hn)]. Qed.

(** With whole requests, for positive lengths, from clients that wait for the answer,
    the FIFO server hands out what the other one does, until the int overflows. *)
Lemma fifo_allocates reqs next :
  Forall (λ r, fits_s 32 r.1 ∧ 0 < r.2) reqs → 0 ≤ next →
  next + total (map (Some ∘ snd) reqs) < 2 ^ 31 →
  map (Some ∘ snd)
    (fifo_serve (length reqs) (λ _, true) (RFd (concat (map (λ r, encode r.1 r.2) reqs)) []) next) =
  allocate (map (Some ∘ snd) reqs) next.
Proof.
  intros Hr. revert next. induction Hr as [|[pid n] reqs [Hp Hn] Hr IH]; intros next H0 Ht; [done|].
  assert (0 ≤ total (map (Some ∘ snd) reqs)) as Hpos.
  { apply sum_nonneg. clear -Hr. induction Hr as [|[pid n] reqs [_ Hn] _ IH]; cbn; [done|].
    constructor; [cbn in Hn; unfold id; lia|done]. }
  cbn [map length] in *. rewrite sum_cons in Ht. cbn in Ht, Hp, Hn. unfold id in Ht.
  cbn [fifo_serve]. unfold fifo_one, read. cbn [revents incoming concat map fst snd].
  change (Z.to_nat 8) with (length (encode pid n)). rewrite take_app_length, drop_app_length.
  change (zlen (encode pid n) =? 8) with true. cbn beta iota.
  rewrite decode_encode by (unfold fits_s in *; lia). cbn beta iota.
  cbn [app map allocate compose snd]. f_equal.
  rewrite swrap_id by (unfold fits_s; lia). apply IH; lia.
Qed.

(** The FIFO server does not look at the length: after a request for -1 numbers two
    clients get the same one. *)
Lemma fifo_repeats :
  fifo_serve 3 (λ _, true) (RFd (encode 100 1 ++ encode 101 (-1) ++ encode 102 1) []) 0 =
    [(100, (0, 1)); (101, (1, -1)); (102, (0, 1))].
Proof. vm_compute. reflexivity. Qed.

(** A request cut short is discarded, and what is read from then on is cut in the
    wrong places: here the second client is never answered. *)
Lemma fifo_misaligned :
  fifo_serve 4 (λ p, p =? 101) (RFd (take 3 (encode 100 1) ++ encode 101 1 ++ encode 101 1) [Some_bytes 2]) 0 =
    [(101, (0, 1)); (101, (1, 1))] ∧
  fifo_serve 4 (λ p, p =? 101) (RFd (take 3 (encode 100 1) ++ encode 101 1 ++ encode 101 1) []) 0 = [].
Proof. vm_compute. split; reflexivity. Qed.

End Seqnum.
