(* ===== verification/RtosList.v ===== *)
(** * The lists of FreeRTOS

    Models ldd-k4/arm/FreeRTOS-GCC-ARM926ejs/FreeRTOS/Source/list.c and the macros of
    include/list.h that change or walk a list: rings of items, doubly linked, that
    start and end at a marker inside the list structure.  The scheduler keeps its
    tasks in them.

    Memory maps pointers to items; a pointer is the end marker of a list or an item.
    The integrity checks are off in the configuration of the port.  [None] is an
    access through a pointer that leads nowhere. *)

From Stdlib Require Import Sorting.Sorted.
From S2P Require Import Prelude.

Module RtosList.

Definition portMAX_DELAY : Z := 0xffffffff.

Inductive ptr := End (l : nat) | Item (n : nat).
#[export] Instance ptr_eq_dec : EqDecision ptr.
Proof. solve_decision. Defined.
#[export] Instance ptr_countable : Countable ptr.
Proof.
  apply (inj_countable' (λ p, match p with End l => inl l | Item n => inr n end)
           (λ x, match x with inl l => End l | inr n => Item n end)).
  by intros [].
Defined.

(** struct xLIST_ITEM; the end marker, a struct xMINI_LIST_ITEM, has no owner and no
    container. *)
Record ListItem_t := Node {
  xItemValue : Z;
  pxNext : ptr;
  pxPrevious : ptr;
  pvOwner : Z;
  pvContainer : option nat
}.
Record List_t := Lst { uxNumberOfItems : Z; pxIndex : ptr }.
Record mem := Mem { nodes : gmap ptr ListItem_t; lists : gmap nat List_t }.

(** ** Stores *)

Definition update (f : ListItem_t → ListItem_t) (p : ptr) (m : mem) : option mem :=
  e ← nodes m !! p; Some (Mem (<[p := f e]> (nodes m)) (lists m)).
Definition set_next (p q : ptr) : mem → option mem :=
  update (λ e, Node (xItemValue e) q (pxPrevious e) (pvOwner e) (pvContainer e)) p.
Definition set_prev (p q : ptr) : mem → option mem :=
  update (λ e, Node (xItemValue e) (pxNext e) q (pvOwner e) (pvContainer e)) p.
Definition set_container (n : nat) (c : option nat) : mem → option mem :=
  update (λ e, Node (xItemValue e) (pxNext e) (pxPrevious e) (pvOwner e) c) (Item n).
Definition update_list (f : List_t → List_t) (l : nat) (m : mem) : option mem :=
  L ← lists m !! l; Some (Mem (nodes m) (<[l := f L]> (lists m))).
Definition set_index (l : nat) (p : ptr) : mem → option mem :=
  update_list (λ L, Lst (uxNumberOfItems L) p) l.
Definition add_count (l : nat) (d : Z) : mem → option mem :=
  update_list (λ L, Lst (u32 (uxNumberOfItems L + d)) (pxIndex L)) l.

Definition next (m : mem) (p : ptr) : option ptr := pxNext <$> nodes m !! p.
Definition prev (m : mem) (p : ptr) : option ptr := pxPrevious <$> nodes m !! p.
Definition value (m : mem) (p : ptr) : option Z := xItemValue <$> nodes m !! p.
Definition container (m : mem) (p : ptr) : option (option nat) := pvContainer <$> nodes m !! p.
Definition owner (m : mem) (p : ptr) : option Z := pvOwner <$> nodes m !! p.

(** ** Operations *)

Definition vListInitialise (l : nat) (m : mem) : mem :=
  Mem (<[End l := Node portMAX_DELAY (End l) (End l) 0 None]> (nodes m)) (<[l := Lst 0 (End l)]> (lists m)).

Definition vListInitialiseItem (n : nat) (m : mem) : option mem := set_container n None m.

Definition listSET_LIST_ITEM_VALUE (n : nat) (v : Z) : mem → option mem :=
  update (λ e, Node v (pxNext e) (pxPrevious e) (pvOwner e) (pvContainer e)) (Item n).

Definition vListInsertEnd (l n : nat) (m : mem) : option mem :=
  L ← lists m !! l;
  let index := pxIndex L in
  m ← set_next (Item n) index m;
  p ← prev m index;
  m ← set_prev (Item n) p m;
  p ← prev m index;
  m ← set_next p (Item n) m;
  m ← set_prev index (Item n) m;
  m ← set_container n (Some l) m;
  add_count l 1 m.

(** The loop that looks for the place: the last item from which on the values exceed
    [v] *)
Fixpoint find_place (fuel : nat) (v : Z) (it : ptr) (m : mem) : option ptr :=
  match fuel with
  | O => None
  | S fuel =>
      nx ← next m it;
      nv ← value m nx;
      if nv <=? v then find_place fuel v nx m else Some it
  end.

Definition vListInsert (l n : nat) (m : mem) : option mem :=
  v ← value m (Item n);
  it ← (if v =? portMAX_DELAY then prev m (End l) else find_place (size (nodes m)) v (End l) m);
  nx ← next m it;
  m ← set_next (Item n) nx m;
  nx ← next m (Item n);
  m ← set_prev nx (Item n) m;
  m ← set_prev (Item n) it m;
  m ← set_next it (Item n) m;
  m ← set_container n (Some l) m;
  add_count l 1 m.

(** The number of items that are left *)
Definition uxListRemove (n : nat) (m : mem) : option (Z * mem) :=
  c ← container m (Item n);
  l ← c;
  nx ← next m (Item n);
  pv ← prev m (Item n);
  m ← set_prev nx pv m;
  pv ← prev m (Item n);
  nx ← next m (Item n);
  m ← set_next pv nx m;
  L ← lists m !! l;
  m ← (if decide (pxIndex L = Item n) then pv ← prev m (Item n); set_index l pv m else Some m);
  m ← set_container n None m;
  m ← add_count l (-1) m;
  L ← lists m !! l;
  Some (uxNumberOfItems L, m).

(** The item the index now points to, whose owner the macro returns *)
Definition listGET_OWNER_OF_NEXT_ENTRY (l : nat) (m : mem) : option (ptr * mem) :=
  L ← lists m !! l;
  i ← next m (pxIndex L);
  m ← set_index l i m;
  '(i, m) ← (if decide (i = End l) then i ← next m i; m ← set_index l i m; Some (i, m) else Some (i, m));
  _ ← owner m i;
  Some (i, m).

Definition listGET_HEAD_ENTRY (l : nat) (m : mem) : option ptr := next m (End l).
Definition listGET_ITEM_VALUE_OF_HEAD_ENTRY (l : nat) (m : mem) : option Z := p ← next m (End l); value m p.
Definition listLIST_IS_EMPTY (l : nat) (m : mem) : option bool :=
  L ← lists m !! l; Some (uxNumberOfItems L =? 0).
Definition listIS_CONTAINED_WITHIN (l n : nat) (m : mem) : option bool :=
  c ← container m (Item n); Some (bool_decide (c = Some l)).

(** ** What a store changes *)

(** Everything but the links, the containers and the list structures *)
Record same_rest (m m' : mem) : Prop := {
  sr_dom : dom (nodes m') = dom (nodes m);
  sr_value : ∀ r, value m' r = value m r;
  sr_owner : ∀ r, owner m' r = owner m r
}.

Lemma same_rest_trans m1 m2 m3 : same_rest m1 m2 → same_rest m2 m3 → same_rest m1 m3.
Proof. intros [] []. split; [congruence|intros; congruence..]. Qed.

Lemma update_lookup f p m :
  p ∈ dom (nodes m) →
  ∃ m', update f p m = Some m' ∧ lists m' = lists m ∧ dom (nodes m') = dom (nodes m) ∧
    ∀ r, nodes m' !! r = if decide (r = p) then f <$> nodes m !! r else nodes m !! r.
Proof.
  intros [e He]%elem_of_dom. unfold update. rewrite He. eexists. split; [done|]. split; [done|]. cbn. split.
  - rewrite dom_insert_L. apply elem_of_dom_2 in He. set_solver.
  - intros r. case_decide as Hr; [subst; by rewrite lookup_insert_eq, He|]. by rewrite lookup_insert_ne.
Qed.

Ltac view := unfold next, prev, value, container, owner; intros; simpl;
  match goal with H : ∀ r, nodes _ !! r = _ |- _ => rewrite H end;
  case_decide; subst; [|done]; match goal with |- context [nodes ?m !! ?r] => destruct (nodes m !! r) eqn:? end;
  try done.

Ltac stored Hp :=
  let m' := fresh "m'" in let E := fresh "E" in
  let Hl := fresh "Hl" in let Hd := fresh "Hd" in let Hn := fresh "Hn" in
  match goal with |- context [update ?f ?p ?m] =>
    destruct (update_lookup f p m Hp) as (m' & E & Hl & Hd & Hn) end;
  exists m'; split; [exact E|]; split; [done|];
  split_and!; [split; [done|view..]|view|view|view];
  match goal with H : nodes _ !! _ = None |- _ => by apply not_elem_of_dom in H end.

Lemma set_next_spec p q m :
  p ∈ dom (nodes m) →
  ∃ m', set_next p q m = Some m' ∧ lists m' = lists m ∧ same_rest m m' ∧
    (∀ r, next m' r = if decide (r = p) then Some q else next m r) ∧
    (∀ r, prev m' r = prev m r) ∧ (∀ r, container m' r = container m r).
Proof.
  intros Hp. unfold set_next, set_prev, set_container. stored Hp.
Qed.

Lemma set_prev_spec p q m :
  p ∈ dom (nodes m) →
  ∃ m', set_prev p q m = Some m' ∧ lists m' = lists m ∧ same_rest m m' ∧
    (∀ r, prev m' r = if decide (r = p) then Some q else prev m r) ∧
    (∀ r, next m' r = next m r) ∧ (∀ r, container m' r = container m r).
Proof.
  intros Hp. unfold set_next, set_prev, set_container. stored Hp.
Qed.

Lemma set_container_spec n c m :
  Item n ∈ dom (nodes m) →
  ∃ m', set_container n c m = Some m' ∧ lists m' = lists m ∧ same_rest m m' ∧
    (∀ r, container m' r = if decide (r = Item n) then Some c else container m r) ∧
    (∀ r, next m' r = next m r) ∧ (∀ r, prev m' r = prev m r).
Proof.
  intros Hp. unfold set_next, set_prev, set_container. stored Hp.
Qed.

Lemma in_dom_next m p q : next m p = Some q → p ∈ dom (nodes m).
Proof. unfold next. intros H. apply elem_of_dom. destruct (nodes m !! p); [eauto|done]. Qed.
Lemma in_dom_prev m p q : prev m p = Some q → p ∈ dom (nodes m).
Proof. unfold prev. intros H. apply elem_of_dom. destruct (nodes m !! p); [eauto|done]. Qed.
Lemma in_dom_value m p v : value m p = Some v → p ∈ dom (nodes m).
Proof. unfold value. intros H. apply elem_of_dom. destruct (nodes m !! p); [eauto|done]. Qed.

(** Item [n] is put between [p] and [q] in list [l]. *)
Record linked (l n : nat) (p q : ptr) (L : List_t) (m m' : mem) : Prop := {
  lk_rest : same_rest m m';
  lk_next : ∀ r, next m' r = if decide (r = Item n) then Some q
                             else if decide (r = p) then Some (Item n) else next m r;
  lk_prev : ∀ r, prev m' r = if decide (r = Item n) then Some p
                             else if decide (r = q) then Some (Item n) else prev m r;
  lk_container : ∀ r, container m' r = if decide (r = Item n) then Some (Some l) else container m r;
  lk_lists : lists m' = <[l := Lst (u32 (uxNumberOfItems L + 1)) (pxIndex L)]> (lists m)
}.

(** Runs the store at the head of the goal, whose target must be shown to exist. *)
Ltac store spec :=
  let m' := fresh "m" in let Hl := fresh "Hl" in let Hr := fresh "Hr" in
  let H1 := fresh "H1" in let H2 := fresh "H2" in let H3 := fresh "H3" in
  edestruct spec as (m' & -> & Hl & Hr & H1 & H2 & H3);
  [repeat match goal with H : same_rest _ _ |- _ => rewrite (sr_dom _ _ H) end; done|];
  cbn [mbind option_bind].

Lemma add_count_spec l d m L :
  lists m !! l = Some L →
  add_count l d m = Some (Mem (nodes m) (<[l := Lst (u32 (uxNumberOfItems L + d)) (pxIndex L)]> (lists m))).
Proof. intros HL. unfold add_count, update_list. by rewrite HL. Qed.

(** Views of a memory whose lists changed *)
Lemma same_rest_lists m m' ls : same_rest m m' → same_rest m (Mem (nodes m') ls).
Proof. by intros []. Qed.

Lemma vListInsertEnd_linked l n L p m :
  lists m !! l = Some L → prev m (pxIndex L) = Some p → Item n ∈ dom (nodes m) → p ∈ dom (nodes m) →
  pxIndex L ≠ Item n → p ≠ Item n →
  ∃ m', vListInsertEnd l n m = Some m' ∧ linked l n p (pxIndex L) L m m'.
Proof.
  intros HL Hp Hn Hpd Hq1 Hp1. unfold vListInsertEnd. rewrite HL. cbn [mbind option_bind].
  pose proof (in_dom_prev _ _ _ Hp) as Hqd.
  store (set_next_spec (Item n) (pxIndex L) m). rewrite H2, Hp. cbn [mbind option_bind].
  store (set_prev_spec (Item n) p m0). rewrite H0, decide_False, H2, Hp by done. cbn [mbind option_bind].
  store (set_next_spec p (Item n) m1).
  store (set_prev_spec (pxIndex L) (Item n) m2).
  store (set_container_spec n (Some l) m3).
  rewrite (add_count_spec l 1 m4 L) by congruence. eexists. split; [done|]. split; cbn.
  - apply same_rest_lists. eauto 10 using same_rest_trans.
  - intros r. change (next (Mem (nodes m4) _) r) with (next m4 r). rewrite H13, H10, H6, H4, H1.
    repeat case_decide; congruence.
  - intros r. change (prev (Mem (nodes m4) _) r) with (prev m4 r). rewrite H14, H9, H7, H0, H2.
    repeat case_decide; congruence.
  - intros r. change (container (Mem (nodes m4) _) r) with (container m4 r). rewrite H12, H11, H8, H5, H3.
    done.
  - congruence.
Qed.

Lemma vListInsert_linked l n L v it nx m :
  lists m !! l = Some L → value m (Item n) = Some v →
  (if v =? portMAX_DELAY then prev m (End l) else find_place (size (nodes m)) v (End l) m) = Some it →
  next m it = Some nx → nx ∈ dom (nodes m) → it ≠ Item n → nx ≠ Item n →
  ∃ m', vListInsert l n m = Some m' ∧ linked l n it nx L m m'.
Proof.
  intros HL Hv Hit Hnx Hnxd Hi1 Hx1. unfold vListInsert. rewrite Hv. cbn [mbind option_bind].
  rewrite Hit. cbn [mbind option_bind]. rewrite Hnx. cbn [mbind option_bind].
  pose proof (in_dom_value _ _ _ Hv) as Hn. pose proof (in_dom_next _ _ _ Hnx) as Hitd.
  store (set_next_spec (Item n) nx m). rewrite H1, decide_True by done. cbn [mbind option_bind].
  store (set_prev_spec nx (Item n) m0).
  store (set_prev_spec (Item n) it m1).
  store (set_next_spec it (Item n) m2).
  store (set_container_spec n (Some l) m3).
  rewrite (add_count_spec l 1 m4 L) by congruence. eexists. split; [done|]. split; cbn.
  - apply same_rest_lists. eauto 10 using same_rest_trans.
  - intros r. change (next (Mem (nodes m4) _) r) with (next m4 r). rewrite H13, H9, H7, H4, H1.
    repeat case_decide; congruence.
  - intros r. change (prev (Mem (nodes m4) _) r) with (prev m4 r). rewrite H14, H10, H6, H0, H2.
    repeat case_decide; congruence.
  - intros r. change (container (Mem (nodes m4) _) r) with (container m4 r). rewrite H12, H11, H8, H5, H3.
    done.
  - congruence.
Qed.

(** Item [n], between [p] and [q], is taken out; it keeps its own links. *)
Record unlinked (l n : nat) (p q : ptr) (L : List_t) (m m' : mem) : Prop := {
  ul_rest : same_rest m m';
  ul_next : ∀ r, next m' r = if decide (r = p) then Some q else next m r;
  ul_prev : ∀ r, prev m' r = if decide (r = q) then Some p else prev m r;
  ul_container : ∀ r, container m' r = if decide (r = Item n) then Some None else container m r;
  ul_lists : lists m' = <[l := Lst (u32 (uxNumberOfItems L - 1))
                                   (if decide (pxIndex L = Item n) then p else pxIndex L)]> (lists m)
}.

Lemma uxListRemove_unlinked l n L p q m :
  lists m !! l = Some L → container m (Item n) = Some (Some l) →
  next m (Item n) = Some q → prev m (Item n) = Some p → p ∈ dom (nodes m) → q ∈ dom (nodes m) →
  p ≠ Item n → q ≠ Item n →
  ∃ m', uxListRemove n m = Some (u32 (uxNumberOfItems L - 1), m') ∧ unlinked l n p q L m m'.
Proof.
  intros HL Hc Hq Hp Hpd Hqd Hp1 Hq1. unfold uxListRemove. rewrite Hc. cbn [mbind option_bind].
  rewrite Hq, Hp. cbn [mbind option_bind]. pose proof (in_dom_prev _ _ _ Hp) as Hn.
  store (set_prev_spec q p m). rewrite H1, decide_False, Hp, H2, Hq by done. cbn [mbind option_bind].
  store (set_next_spec p q m0). rewrite Hl0, Hl, HL. cbn [mbind option_bind].
  assert (prev m1 (Item n) = Some p) as Hpn by (rewrite H4, H1, decide_False; done).
  set (L1 := Lst (uxNumberOfItems L) (if decide (pxIndex L = Item n) then p else pxIndex L)).
  assert ((if decide (pxIndex L = Item n) then pv ← prev m1 (Item n); set_index l pv m1 else Some m1) =
          Some (Mem (nodes m1) (<[l := L1]> (lists m1)))) as ->.
  { subst L1. case_decide.
    - rewrite Hpn. cbn. unfold set_index, update_list. by rewrite Hl0, Hl, HL.
    - f_equal. destruct m1 as [N1 L1]. cbn in *. f_equal. rewrite insert_id; [done|]. rewrite Hl0, Hl, HL.
      by destruct L. }
  cbn [mbind option_bind]. set (m2 := Mem _ _).
  assert (same_rest m1 m2) as Hr2 by by split.
  store (set_container_spec n None m2).
  rewrite (add_count_spec l (-1) m3 L1) by (rewrite Hl1; apply lookup_insert_eq). cbn [mbind option_bind].
  cbn. rewrite lookup_insert_eq. eexists. split; [done|]. split; cbn.
  - apply same_rest_lists. eauto 10 using same_rest_trans.
  - intros r. change (next (Mem (nodes m3) _) r) with (next m3 r). rewrite H7.
    change (next m2 r) with (next m1 r). rewrite H0, H2. done.
  - intros r. change (prev (Mem (nodes m3) _) r) with (prev m3 r). rewrite H8.
    change (prev m2 r) with (prev m1 r). rewrite H4, H1. done.
  - intros r. change (container (Mem (nodes m3) _) r) with (container m3 r). rewrite H6.
    change (container m2 r) with (container m1 r). rewrite H5, H3. done.
  - rewrite Hl1. cbn. rewrite insert_insert_eq. by rewrite Hl0, Hl.
Qed.

(** ** Rings *)

(** Each pointer is linked to the one behind it, both ways. *)
Fixpoint links (m : mem) (ps : list ptr) : Prop :=
  match ps with
  | p :: (q :: _) as ps' => next m p = Some q ∧ prev m q = Some p ∧ links m ps'
  | _ => True
  end.

Lemma links_cons m a b ps :
  links m (a :: b :: ps) ↔ next m a = Some b ∧ prev m b = Some a ∧ links m (b :: ps).
Proof. done. Qed.

Lemma links_split m A p q B :
  links m (A ++ p :: q :: B) ↔
  links m (A ++ [p]) ∧ next m p = Some q ∧ prev m q = Some p ∧ links m (q :: B).
Proof.
  induction A as [|a [|b A] IH]; [cbn; naive_solver..|].
  cbn [app] in *. rewrite !links_cons, IH. naive_solver.
Qed.

Lemma links_frame m m' ps :
  links m ps → (∀ r, r ∈ removelast ps → next m' r = next m r) →
  (∀ r, r ∈ tail ps → prev m' r = prev m r) → links m' ps.
Proof.
  induction ps as [|p [|q ps] IH]; [done..|]. intros (Hn & Hp & Hl) H1 H2.
  assert (links m' (q :: ps)) as Hq.
  { apply IH; [done|..].
    - intros r Hr. apply H1. cbn [removelast]. by apply elem_of_cons; right.
    - intros r Hr. apply H2. cbn [tail] in *. by apply elem_of_cons; right. }
  split_and!; [rewrite H1; [done|cbn [removelast]; by apply elem_of_cons; left]
              |rewrite H2; [done|cbn [tail]; by apply elem_of_cons; left]|done].
Qed.

Lemma removelast_cons2 {A} (l : list A) p q B :
  removelast (l ++ p :: q :: B) = l ++ p :: removelast (q :: B).
Proof. by rewrite removelast_app. Qed.

Lemma tail_app_cons {A} (l : list A) p B : tail (l ++ p :: B) = tail (l ++ [p]) ++ B.
Proof. destruct l; cbn; [done|]. by rewrite <- app_assoc. Qed.

Lemma removelast_subset {A} (l : list A) x : x ∈ removelast l → x ∈ l.
Proof.
  induction l as [|a [|b l] IH]; [done|by intros ?%elem_of_nil|]. cbn [removelast] in *.
  rewrite !elem_of_cons in *. naive_solver.
Qed.

Lemma tail_subset {A} (l : list A) x : x ∈ tail l → x ∈ l.
Proof. destruct l; cbn; [done|]. intros. by apply elem_of_cons; right. Qed.

(** The ring with a place in it: [p] and [q] are neighbours. *)
Section neighbours.
Context (m : mem) (A : list ptr) (p q : ptr) (B : list ptr).

Lemma neighbours_nodup :
  NoDup (removelast (A ++ p :: q :: B)) → NoDup (tail (A ++ p :: q :: B)) →
  (p ∉ A) ∧ (p ∉ removelast (q :: B)) ∧ (q ∉ tail (A ++ [p])) ∧ q ∉ B.
Proof.
  rewrite removelast_cons2, tail_app_cons. intros H1 H2.
  apply NoDup_app in H1 as (_ & H1 & H3). apply NoDup_cons in H3 as [H3 _].
  apply NoDup_app in H2 as (_ & H2 & H4). apply NoDup_cons in H4 as [H4 _].
  split_and!; [|done| |done].
  - intros H. apply (H1 p H). by apply elem_of_cons; left.
  - intros H. apply (H2 q H). by apply elem_of_cons; left.
Qed.

Lemma links_linked l n L m' :
  NoDup (removelast (A ++ p :: q :: B)) → NoDup (tail (A ++ p :: q :: B)) →
  Item n ∉ A ++ p :: q :: B →
  links m (A ++ p :: q :: B) → linked l n p q L m m' → links m' (A ++ p :: Item n :: q :: B).
Proof.
  intros Hd1 Hd2 Hn Hl Hk. destruct (neighbours_nodup Hd1 Hd2) as (N1 & N2 & N3 & N4).
  apply links_split in Hl as (HA & _ & _ & HB). pose proof (lk_next _ _ _ _ _ _ _ Hk) as Hnx.
  pose proof (lk_prev _ _ _ _ _ _ _ Hk) as Hpv. rewrite elem_of_app, !elem_of_cons in Hn.
  apply links_split. split_and!.
  - eapply links_frame; [exact HA|..]; intros r Hr.
    + rewrite removelast_last in Hr. rewrite Hnx, !decide_False; [done|by intros ->|].
      intros ->. apply Hn. by left.
    + rewrite Hpv, !decide_False; [done|by intros ->|]. intros ->. apply tail_subset in Hr.
      apply Hn. apply elem_of_app in Hr as [Hr|Hr%list_elem_of_singleton]; auto.
  - rewrite Hnx, decide_False by naive_solver. by rewrite decide_True.
  - by rewrite Hpv, decide_True.
  - apply links_cons. split_and!.
    + by rewrite Hnx, decide_True.
    + rewrite Hpv, decide_False by naive_solver. by rewrite decide_True.
    + eapply links_frame; [exact HB|..]; intros r Hr.
      * rewrite Hnx, !decide_False; [done|by intros ->|]. intros ->. apply removelast_subset in Hr.
        apply Hn. apply elem_of_cons in Hr. naive_solver.
      * cbn [tail] in Hr. rewrite Hpv, !decide_False; [done|by intros ->|]. intros ->. naive_solver.
Qed.

Lemma links_unlinked l n L m' :
  NoDup (removelast (A ++ p :: q :: B)) → NoDup (tail (A ++ p :: q :: B)) →
  links m (A ++ p :: Item n :: q :: B) → unlinked l n p q L m m' → links m' (A ++ p :: q :: B).
Proof.
  intros Hd1 Hd2 Hl Hk. destruct (neighbours_nodup Hd1 Hd2) as (N1 & N2 & N3 & N4).
  apply links_split in Hl as (HA & _ & _ & HB). apply links_cons in HB as (_ & _ & HB).
  pose proof (ul_next _ _ _ _ _ _ _ Hk) as Hnx. pose proof (ul_prev _ _ _ _ _ _ _ Hk) as Hpv.
  apply links_split. split_and!.
  - eapply links_frame; [exact HA|..]; intros r Hr.
    + rewrite removelast_last in Hr. rewrite Hnx, decide_False; [done|by intros ->].
    + rewrite Hpv, decide_False; [done|by intros ->].
  - by rewrite Hnx, decide_True.
  - by rewrite Hpv, decide_True.
  - eapply links_frame; [exact HB|..]; intros r Hr.
    + rewrite Hnx, decide_False; [done|by intros ->].
    + cbn [tail] in Hr. rewrite Hpv, decide_False; [done|by intros ->].
Qed.

End neighbours.

Definition ring (l : nat) (xs : list nat) : list ptr := End l :: (Item <$> xs) ++ [End l].
(** The pointers on either side of a place *)
Definition last_ptr (l : nat) (ys : list nat) : ptr := match last ys with Some y => Item y | None => End l end.
Definition first_ptr (l : nat) (zs : list nat) : ptr := match head zs with Some z => Item z | None => End l end.

Lemma ring_split l ys zs :
  ∃ A B, ring l (ys ++ zs) = A ++ last_ptr l ys :: first_ptr l zs :: B ∧
    ∀ n, ring l (ys ++ n :: zs) = A ++ last_ptr l ys :: Item n :: first_ptr l zs :: B.
Proof.
  unfold ring, last_ptr, first_ptr.
  destruct ys as [|y ys _] using rev_ind; destruct zs as [|z zs]; cbn;
    rewrite ?last_snoc, ?app_nil_r.
  - by exists [], [].
  - by exists [], ((Item <$> zs) ++ [End l]).
  - exists (End l :: (Item <$> ys)), []. rewrite !fmap_app. cbn.
    split; [by rewrite <- app_assoc|]. intros n. rewrite !fmap_app. cbn. by rewrite <- !app_assoc.
  - exists (End l :: (Item <$> ys)), ((Item <$> zs) ++ [End l]). rewrite !fmap_app. cbn.
    split; [by rewrite <- !app_assoc|]. intros n. rewrite !fmap_app. cbn. by rewrite <- !app_assoc.
Qed.

Lemma ring_nodup l xs : NoDup xs → NoDup (removelast (ring l xs)) ∧ NoDup (tail (ring l xs)).
Proof.
  intros Hx. assert (NoDup (Item <$> xs)) as Hi by (apply NoDup_fmap; [by intros ? ? [=]|done]).
  assert (End l ∉ Item <$> xs) as He by (intros (x & ? & _)%list_elem_of_fmap; done).
  unfold ring. split.
  - change (End l :: (Item <$> xs) ++ [End l]) with ((End l :: (Item <$> xs)) ++ [End l]).
    rewrite removelast_last. by constructor.
  - cbn [tail]. apply NoDup_app. split_and!; [done| |apply NoDup_singleton].
    intros r Hr ->%list_elem_of_singleton. done.
Qed.

Lemma elem_of_ring l xs n : Item n ∈ ring l xs ↔ n ∈ xs.
Proof.
  unfold ring. rewrite elem_of_cons, elem_of_app, list_elem_of_singleton, list_elem_of_fmap. naive_solver.
Qed.

(** ** A list in memory *)

(** List [l] holds the items [xs], in the order of its links, and walking it has come
    to [c]. *)
Record is_list (m : mem) (l : nat) (xs : list nat) (c : ptr) : Prop := {
  il_list : lists m !! l = Some (Lst (zlen xs) c);
  il_index : c ∈ removelast (ring l xs);
  il_links : links m (ring l xs);
  il_nodup : NoDup xs;
  il_end : value m (End l) = Some portMAX_DELAY
}.

Lemma il_neighbours m l ys zs c :
  is_list m l (ys ++ zs) c →
  next m (last_ptr l ys) = Some (first_ptr l zs) ∧ prev m (first_ptr l zs) = Some (last_ptr l ys).
Proof.
  intros [_ _ Hl _ _]. destruct (ring_split l ys zs) as (A & B & E & _). rewrite E in Hl.
  apply links_split in Hl. naive_solver.
Qed.

Lemma last_ptr_in l ys zs : last_ptr l ys ∈ removelast (ring l (ys ++ zs)).
Proof.
  destruct (ring_split l ys zs) as (A & B & -> & _). rewrite removelast_cons2.
  apply elem_of_app. right. by apply elem_of_cons; left.
Qed.

Lemma index_insert l ys zs n c :
  c ∈ removelast (ring l (ys ++ zs)) → c ∈ removelast (ring l (ys ++ n :: zs)).
Proof.
  destruct (ring_split l ys zs) as (A & B & E & E'). rewrite E, E'.
  rewrite !removelast_cons2.
  change (removelast (Item n :: first_ptr l zs :: B)) with (Item n :: removelast (first_ptr l zs :: B)).
  rewrite !elem_of_app, !elem_of_cons. naive_solver.
Qed.

(** The list the item goes into *)
Lemma is_list_linked m m' l ys zs c n :
  is_list m l (ys ++ zs) c → linked l n (last_ptr l ys) (first_ptr l zs) (Lst (zlen (ys ++ zs)) c) m m' →
  n ∉ ys ++ zs → zlen (ys ++ zs) + 1 < 2 ^ 32 → is_list m' l (ys ++ n :: zs) c.
Proof.
  intros Hi Hk Hn Hz. destruct (ring_nodup l (ys ++ zs) (il_nodup _ _ _ _ Hi)) as [D1 D2].
  split.
  - rewrite (lk_lists _ _ _ _ _ _ _ Hk), lookup_insert_eq. cbn. do 2 f_equal.
    pose proof (zlen_nonneg (ys ++ zs)). rewrite uwrap_id by (unfold fits_u; lia).
    rewrite !zlen_app. unfold zlen. cbn. lia.
  - apply index_insert, Hi.
  - pose proof (il_links _ _ _ _ Hi) as Hl. destruct (ring_split l ys zs) as (A & B & E & E').
    rewrite E in *. rewrite E'. eapply links_linked; [done|done| |done|done].
    rewrite <- E. by rewrite elem_of_ring.
  - pose proof (il_nodup _ _ _ _ Hi) as Hd. rewrite <- Permutation_middle. by constructor.
  - rewrite (sr_value _ _ (lk_rest _ _ _ _ _ _ _ Hk)). apply Hi.
Qed.

(** The list the item is taken from; an index at the item moves back. *)
Lemma is_list_unlinked m m' l ys zs c n :
  is_list m l (ys ++ n :: zs) c →
  unlinked l n (last_ptr l ys) (first_ptr l zs) (Lst (zlen (ys ++ n :: zs)) c) m m' →
  zlen (ys ++ n :: zs) < 2 ^ 32 →
  is_list m' l (ys ++ zs) (if decide (c = Item n) then last_ptr l ys else c).
Proof.
  intros Hi Hk Hz. pose proof (il_nodup _ _ _ _ Hi) as Hd. rewrite <- Permutation_middle in Hd.
  apply NoDup_cons in Hd as [Hn Hd]. destruct (ring_nodup l (ys ++ zs) Hd) as [D1 D2].
  split.
  - rewrite (ul_lists _ _ _ _ _ _ _ Hk), lookup_insert_eq. cbn. do 2 f_equal.
    rewrite !zlen_app in *. unfold zlen in *. cbn in *. rewrite uwrap_id by (unfold fits_u; lia). lia.
  - case_decide as Hc; [apply last_ptr_in|]. pose proof (il_index _ _ _ _ Hi) as Hx.
    destruct (ring_split l ys zs) as (A & B & E & E'). rewrite E' in Hx. rewrite E.
    rewrite removelast_cons2 in *.
    change (removelast (Item n :: first_ptr l zs :: B)) with (Item n :: removelast (first_ptr l zs :: B)) in Hx.
    rewrite elem_of_app, !elem_of_cons in *. naive_solver.
  - pose proof (il_links _ _ _ _ Hi) as Hl. destruct (ring_split l ys zs) as (A & B & E & E').
    rewrite E' in Hl. rewrite E in *. by eapply links_unlinked.
  - done.
  - rewrite (sr_value _ _ (ul_rest _ _ _ _ _ _ _ Hk)). apply Hi.
Qed.

(** A list whose links and structure were not touched *)
Lemma is_list_frame m m' l xs c :
  is_list m l xs c → lists m' !! l = lists m !! l → value m' (End l) = value m (End l) →
  (∀ r, r ∈ ring l xs → next m' r = next m r ∧ prev m' r = prev m r) → is_list m' l xs c.
Proof.
  intros [] Hl Hv Hr. split; [congruence|done| |done|congruence].
  eapply links_frame; [done|intros r H%removelast_subset|intros r H%tail_subset]; by apply Hr.
Qed.

(** ** Sorted insertion *)

(** In front of the first item with a greater value *)
Fixpoint place (f : nat → Z) (n : nat) (xs : list nat) : list nat :=
  match xs with
  | [] => [n]
  | x :: xs' => if f x <=? f n then x :: place f n xs' else n :: xs
  end.

Lemma place_split f n xs :
  ∃ ys zs, xs = ys ++ zs ∧ place f n xs = ys ++ n :: zs ∧ Forall (λ x, f x ≤ f n) ys ∧
    ∀ z, head zs = Some z → f n < f z.
Proof.
  induction xs as [|x xs (ys & zs & -> & E & Hy & Hz)]; cbn; [by exists [], []|].
  destruct (Z.leb_spec (f x) (f n)).
  - exists (x :: ys), zs. rewrite E. split_and!; [done|done|by constructor|done].
  - exists [], (x :: ys ++ zs). split_and!; [done|done|done|]. cbn. intros ? [= <-]. done.
Qed.

Lemma place_sorted f n xs :
  StronglySorted (λ x y, f x ≤ f y) xs → StronglySorted (λ x y, f x ≤ f y) (place f n xs).
Proof.
  induction 1 as [|x xs Hs IH Hx]; cbn; [repeat constructor|].
  destruct (Z.leb_spec (f x) (f n)).
  - constructor; [done|]. destruct (place_split f n xs) as (ys & zs & -> & -> & _).
    apply Forall_app in Hx as [? ?]. apply Forall_app. split; [done|]. by constructor.
  - constructor; [by constructor|]. constructor; [lia|]. eapply Forall_impl; [exact Hx|]. cbn. lia.
Qed.

(** The loop of vListInsert ends at the place. *)
Lemma find_place_ok m l f v c fuel xs ys zs :
  is_list m l (xs ++ ys ++ zs) c → v < portMAX_DELAY →
  (∀ x, x ∈ ys ++ zs → value m (Item x) = Some (f x)) →
  Forall (λ x, f x ≤ v) ys → (∀ z, head zs = Some z → v < f z) →
  (length ys < fuel)%nat →
  find_place fuel v (last_ptr l xs) m = Some (last_ptr l (xs ++ ys)).
Proof.
  intros Hi Hv Hf Hy Hz. revert fuel xs Hi. induction Hy as [|y ys Hy Hys IH]; intros fuel xs Hi Hfuel;
    (destruct fuel as [|fuel]; [lia|]); cbn [find_place];
    rewrite (proj1 (il_neighbours m l xs _ c Hi)); cbn [mbind option_bind].
  - cbn [app] in *. rewrite app_nil_r. assert (∃ w, value m (first_ptr l zs) = Some w ∧ v < w) as (w & -> & Hw).
    { unfold first_ptr. destruct zs as [|z zs]; cbn.
      - exists portMAX_DELAY. split; [apply Hi|done].
      - exists (f z). split; [apply Hf; by apply elem_of_cons; left|]. by apply Hz. }
    cbn [mbind option_bind]. by rewrite (proj2 (Z.leb_gt _ _)).
  - cbn [app first_ptr head]. rewrite Hf by (by apply elem_of_cons; left). cbn [mbind option_bind].
    rewrite (proj2 (Z.leb_le _ _)) by done.
    specialize (IH (λ x Hx, Hf x (proj2 (elem_of_cons _ _ _) (or_intror Hx))) fuel (xs ++ [y])).
    unfold last_ptr at 1 in IH. rewrite last_snoc, <- !app_assoc in IH. cbn [app] in IH.
    apply IH; [done|cbn in Hfuel; lia].
Qed.

Lemma il_in_dom m l xs c r : is_list m l xs c → r ∈ removelast (ring l xs) → r ∈ dom (nodes m).
Proof.
  intros Hi Hr. assert (∃ ys zs, xs = ys ++ zs ∧ r = last_ptr l ys) as (ys & zs & -> & ->).
  { unfold ring in Hr. change (End l :: (Item <$> xs) ++ [End l]) with ((End l :: (Item <$> xs)) ++ [End l]) in Hr.
    rewrite removelast_last in Hr. apply elem_of_cons in Hr as [->|Hr]; [by exists [], xs|].
    apply list_elem_of_fmap in Hr as (x & -> & Hx). apply list_elem_of_split in Hx as (ys & zs & ->).
    exists (ys ++ [x]), zs. rewrite <- app_assoc. split; [done|]. unfold last_ptr. by rewrite last_snoc. }
  eapply in_dom_next, il_neighbours. exact Hi.
Qed.

Lemma il_size m l xs c : is_list m l xs c → (length xs < size (nodes m))%nat.
Proof.
  intros Hi. pose proof (proj1 (ring_nodup l xs (il_nodup _ _ _ _ Hi))) as Hd.
  assert (list_to_set (removelast (ring l xs)) ⊆ dom (nodes m)) as Hsub.
  { intros r Hr%elem_of_list_to_set. by eapply il_in_dom. }
  apply subseteq_size in Hsub. rewrite size_list_to_set, size_dom in Hsub by done.
  unfold ring in Hsub. change (End l :: (Item <$> xs) ++ [End l]) with ((End l :: (Item <$> xs)) ++ [End l]) in Hsub.
  rewrite removelast_last in Hsub. cbn in Hsub. rewrite length_fmap in Hsub. lia.
Qed.

(** The place vListInsert finds *)
Lemma insert_iterator m l f n xs c :
  is_list m l xs c → 0 ≤ f n ≤ portMAX_DELAY →
  (∀ x, x ∈ xs → value m (Item x) = Some (f x) ∧ f x ≤ portMAX_DELAY) →
  ∃ ys zs, xs = ys ++ zs ∧ place f n xs = ys ++ n :: zs ∧
    (if f n =? portMAX_DELAY then prev m (End l) else find_place (size (nodes m)) (f n) (End l) m)
      = Some (last_ptr l ys).
Proof.
  intros Hi Hn Hf. destruct (place_split f n xs) as (ys & zs & E & Ep & Hy & Hz).
  exists ys, zs. split_and!; [done|done|]. subst xs. destruct (Z.eqb_spec (f n) portMAX_DELAY) as [Hm|Hm].
  - destruct zs as [|z zs].
    + apply (il_neighbours m l ys [] c Hi).
    + specialize (Hz z eq_refl). destruct (Hf z) as [_ ?]; [|lia].
      apply elem_of_app. right. by apply elem_of_cons; left.
  - pose proof (find_place_ok m l f (f n) c (size (nodes m)) [] ys zs) as H. cbn [app] in H.
    apply H; [exact Hi|lia| |done|done|].
    + intros x Hx. by apply Hf.
    + pose proof (il_size _ _ _ _ Hi) as Hsz. rewrite length_app in Hsz. lia.
Qed.

(** ** What the lists promise

    An abstract state has, for each list, the sequence of its items and the item that
    was visited last (or the end), for every item in a list that list, and the value of
    every item.  An item is in one list at most. *)

Record astate := Abs { seqs : gmap nat (list nat * ptr); cont : gmap nat nat; vals : gmap nat Z }.

Definition val (A : astate) (n : nat) : Z := default 0 (vals A !! n).
Definition free (A : astate) (n : nat) : bool := bool_decide (cont A !! n = None).
Definition with_seq (l : nat) (xs : list nat) (c : ptr) (A : astate) : astate :=
  Abs (<[l := (xs, c)]> (seqs A)) (cont A) (vals A).
Definition put (n l : nat) (A : astate) : astate := Abs (seqs A) (<[n := l]> (cont A)) (vals A).
Definition out (n : nat) (A : astate) : astate := Abs (seqs A) (delete n (cont A)) (vals A).
Definition set_val (n : nat) (v : Z) (A : astate) : astate := Abs (seqs A) (cont A) (<[n := v]> (vals A)).

(** A sequence in front of and from the first [x] on *)
Fixpoint cut (x : nat) (xs : list nat) : list nat * list nat :=
  match xs with
  | [] => ([], [])
  | y :: xs' => if decide (y = x) then ([], xs) else let '(a, b) := cut x xs' in (y :: a, b)
  end.
(** In front of the pointer; the end is behind every item. *)
Definition cut_before (c : ptr) (xs : list nat) : list nat * list nat :=
  match c with End _ => (xs, []) | Item x => cut x xs end.
(** Behind the pointer, for a walk that starts at the end marker *)
Definition cut_after (c : ptr) (xs : list nat) : list nat * list nat :=
  match c with End _ => ([], xs) | Item x => ((cut x xs).1 ++ [x], tail (cut x xs).2) end.

(** [OCreate] is the allocation of an item's storage, with vListInitialiseItem and its
    first value; [ODestroy] gives the storage back.  The last four read. *)
Inductive op :=
| OInitialise (l : nat)
| OCreate (n : nat) (v : Z)
| ODestroy (n : nat)
| OSetValue (n : nat) (v : Z)
| OInsert (l n : nat)
| OInsertEnd (l n : nat)
| ORemove (n : nat)
| ONext (l : nat)
| OLength (l : nat)
| OHead (l : nat)
| OValue (n : nat)
| OContainer (n : nat).
Inductive result := RNone | RCount (k : Z) | RItem (p : ptr) | RList (l : option nat).

(** Storage fresh from the allocator: what is in it is not used. *)
Definition new_item (n : nat) (m : mem) : mem :=
  Mem (<[Item n := Node 0 (Item n) (Item n) 0 (Some 0%nat)]> (nodes m)) (lists m).
Definition free_item (n : nat) (m : mem) : mem := Mem (delete (Item n) (nodes m)) (lists m).

Definition cstep (o : op) (m : mem) : option (result * mem) :=
  match o with
  | OInitialise l => Some (RNone, vListInitialise l m)
  | OCreate n v =>
      m ← vListInitialiseItem n (new_item n m); m ← listSET_LIST_ITEM_VALUE n v m; Some (RNone, m)
  | ODestroy n => Some (RNone, free_item n m)
  | OSetValue n v => m ← listSET_LIST_ITEM_VALUE n v m; Some (RNone, m)
  | OInsert l n => m ← vListInsert l n m; Some (RNone, m)
  | OInsertEnd l n => m ← vListInsertEnd l n m; Some (RNone, m)
  | ORemove n => '(k, m) ← uxListRemove n m; Some (RCount k, m)
  | ONext l => '(p, m) ← listGET_OWNER_OF_NEXT_ENTRY l m; Some (RItem p, m)
  | OLength l => L ← lists m !! l; Some (RCount (uxNumberOfItems L), m)
  | OHead l => p ← listGET_HEAD_ENTRY l m; _ ← owner m p; Some (RItem p, m)
  | OValue n => v ← value m (Item n); Some (RCount v, m)
  | OContainer n => c ← container m (Item n); Some (RList c, m)
  end.

(** [None]: the caller breaks the rules (an item that is in a list is inserted, one
    that is not is removed, an empty list is walked, storage of an item in a list is
    given back). *)
Definition astep (o : op) (A : astate) : option (result * astate) :=
  match o with
  | OInitialise l =>
      match seqs A !! l with None => Some (RNone, with_seq l [] (End l) A) | Some _ => None end
  | OCreate n v =>
      match vals A !! n with
      | None => if free A n && (0 <=? v) && (v <=? portMAX_DELAY) && (Z.of_nat (size (vals A)) + 1 <? 2 ^ 32)
                then Some (RNone, set_val n v A) else None
      | Some _ => None
      end
  | ODestroy n =>
      _ ← vals A !! n;
      if free A n then Some (RNone, Abs (seqs A) (cont A) (delete n (vals A))) else None
  | OSetValue n v =>
      _ ← vals A !! n;
      if (0 <=? v) && (v <=? portMAX_DELAY) then Some (RNone, set_val n v A) else None
  | OInsert l n =>
      '(xs, c) ← seqs A !! l; _ ← vals A !! n;
      if free A n then Some (RNone, put n l (with_seq l (place (val A) n xs) c A)) else None
  | OInsertEnd l n =>
      '(xs, c) ← seqs A !! l; _ ← vals A !! n;
      if free A n then
        let '(ys, zs) := cut_before c xs in Some (RNone, put n l (with_seq l (ys ++ n :: zs) c A))
      else None
  | ORemove n =>
      l ← cont A !! n;
      '(xs, c) ← seqs A !! l;
      if bool_decide (n ∈ xs) then
        let '(ys, zs) := cut n xs in
        Some (RCount (zlen xs - 1),
              out n (with_seq l (ys ++ tail zs) (if decide (c = Item n) then last_ptr l ys else c) A))
      else None
  | ONext l =>
      '(xs, c) ← seqs A !! l;
      let '(ys, zs) := cut_after c xs in
      x ← head (zs ++ ys);
      Some (RItem (Item x), with_seq l xs (Item x) A)
  | OLength l => '(xs, _) ← seqs A !! l; Some (RCount (zlen xs), A)
  | OHead l => '(xs, _) ← seqs A !! l; x ← head xs; Some (RItem (Item x), A)
  | OValue n => v ← vals A !! n; Some (RCount v, A)
  | OContainer n => _ ← vals A !! n; Some (RList (cont A !! n), A)
  end.

Record rep (m : mem) (A : astate) : Prop := {
  r_lists : ∀ l xs c, seqs A !! l = Some (xs, c) → is_list m l xs c;
  r_items : ∀ n v, vals A !! n = Some v →
    value m (Item n) = Some v ∧ 0 ≤ v ≤ portMAX_DELAY;
  r_member : ∀ l xs c n, seqs A !! l = Some (xs, c) → n ∈ xs → cont A !! n = Some l ∧ is_Some (vals A !! n);
  r_cont : ∀ n, is_Some (vals A !! n) → container m (Item n) = Some (cont A !! n);
  r_size : Z.of_nat (size (vals A)) < 2 ^ 32
}.

Lemma cut_spec x xs ys zs : cut x xs = (ys, zs) → xs = ys ++ zs ∧ (x ∈ xs → head zs = Some x).
Proof.
  revert ys zs. induction xs as [|y xs IH]; intros ys zs E; cbn in E.
  { simplify_eq. split; [done|by intros ?%elem_of_nil]. }
  case_decide as Hy; [by simplify_eq|]. destruct (cut x xs) as [a b]. simplify_eq.
  destruct (IH a zs eq_refl) as [-> Hh]. split; [done|]. intros [->|Hx]%elem_of_cons; [done|auto].
Qed.

Lemma r_container m A l xs c n : rep m A → seqs A !! l = Some (xs, c) → n ∈ xs →
  container m (Item n) = Some (Some l) ∧ is_Some (vals A !! n).
Proof.
  intros Hr Hl Hn. destruct (r_member _ _ Hr _ _ _ _ Hl Hn) as [Hc Hv]. by rewrite (r_cont _ _ Hr n Hv), Hc.
Qed.

Lemma free_spec m A n l xs c : rep m A → free A n = true → seqs A !! l = Some (xs, c) → n ∉ xs.
Proof.
  unfold free. intros Hr H%bool_decide_eq_true Hl Hn. destruct (r_member _ _ Hr _ _ _ _ Hl Hn). congruence.
Qed.

(** The items of two lists are different. *)
Lemma rep_disjoint m A l l' xs xs' c c' n :
  rep m A → seqs A !! l = Some (xs, c) → seqs A !! l' = Some (xs', c') → l ≠ l' → n ∈ xs → n ∉ xs'.
Proof.
  intros Hr H1 H2 Hne Hn Hn'. destruct (r_container _ _ _ _ _ _ Hr H1 Hn) as [E1 _].
  destruct (r_container _ _ _ _ _ _ Hr H2 Hn') as [E2 _]. congruence.
Qed.

(** A list is shorter than the number of items there are. *)
Lemma rep_length m A l xs c :
  rep m A → seqs A !! l = Some (xs, c) → zlen xs ≤ Z.of_nat (size (vals A)).
Proof.
  intros Hr H. assert (list_to_set xs ⊆ dom (vals A)) as Hs.
  { intros n Hn%elem_of_list_to_set. apply elem_of_dom. by eapply (r_container _ _ _ _ _ _ Hr). }
  apply subseteq_size in Hs. rewrite size_list_to_set, size_dom in Hs.
  - unfold zlen. lia.
  - apply (r_lists _ _ Hr _ _ _ H).
Qed.

Lemma rep_length_free m A l xs c n :
  rep m A → seqs A !! l = Some (xs, c) → n ∉ xs → is_Some (vals A !! n) →
  zlen xs + 1 ≤ Z.of_nat (size (vals A)).
Proof.
  intros Hr H Hn Hv. assert (list_to_set (n :: xs) ⊆ dom (vals A)) as Hs.
  { intros k Hk%elem_of_list_to_set. apply elem_of_dom.
    apply elem_of_cons in Hk as [->|Hk]; [done|by eapply (r_container _ _ _ _ _ _ Hr)]. }
  apply subseteq_size in Hs. rewrite size_list_to_set, size_dom in Hs.
  - unfold zlen. cbn in Hs. lia.
  - constructor; [done|]. apply (r_lists _ _ Hr _ _ _ H).
Qed.

Lemma ring_disjoint l l' xs xs' r :
  l ≠ l' → (∀ n, n ∈ xs → n ∉ xs') → r ∈ ring l xs → r ∉ ring l' xs'.
Proof.
  intros Hl Hd. unfold ring. rewrite !elem_of_cons, !elem_of_app, !list_elem_of_singleton, !list_elem_of_fmap.
  naive_solver.
Qed.

Lemma last_ptr_ring l ys zs : last_ptr l ys ∈ ring l (ys ++ zs).
Proof. apply removelast_subset, last_ptr_in. Qed.

Lemma first_ptr_ring l ys zs : first_ptr l zs ∈ ring l (ys ++ zs).
Proof.
  destruct (ring_split l ys zs) as (A & B & -> & _). rewrite elem_of_app, !elem_of_cons. auto.
Qed.

Lemma rep_linked m m' A l ys zs c n :
  rep m A → seqs A !! l = Some (ys ++ zs, c) → free A n = true → is_Some (vals A !! n) →
  linked l n (last_ptr l ys) (first_ptr l zs) (Lst (zlen (ys ++ zs)) c) m m' →
  rep m' (put n l (with_seq l (ys ++ n :: zs) c A)).
Proof.
  intros Hr Hl Hn Hv Hk. pose proof (lk_rest _ _ _ _ _ _ _ Hk) as Hrest.
  pose proof (free_spec _ _ _ _ _ _ Hr Hn Hl) as Hnl. split; cbn [put out with_seq seqs cont vals].
  - intros l' xs' c' H. apply lookup_insert_Some in H as [[<- [= <- <-]]|[Hne H]].
    + eapply is_list_linked; [by eapply r_lists|done|done|].
      pose proof (rep_length_free _ _ _ _ _ _ Hr Hl Hnl Hv). pose proof (r_size _ _ Hr). lia.
    + pose proof (free_spec _ _ _ _ _ _ Hr Hn H) as Hnl'. eapply is_list_frame; [by eapply r_lists|..].
      * by rewrite (lk_lists _ _ _ _ _ _ _ Hk), lookup_insert_ne.
      * apply Hrest.
      * intros r Hin. pose proof (λ k H1 H2, rep_disjoint _ _ _ _ _ _ _ _ k Hr H Hl (not_eq_sym Hne) H1 H2) as Hd.
        pose proof (ring_disjoint l' l xs' (ys ++ zs) r (not_eq_sym Hne) Hd Hin) as Hout.
        rewrite (lk_next _ _ _ _ _ _ _ Hk), (lk_prev _ _ _ _ _ _ _ Hk).
        rewrite !decide_False; [done|..]; intros ->; try by apply Hnl', (elem_of_ring l').
        -- apply Hout, first_ptr_ring.
        -- apply Hout, last_ptr_ring.
  - intros k v Hkv. rewrite (sr_value _ _ Hrest). by apply (r_items _ _ Hr).
  - intros l' xs' c' k H Hin. rewrite lookup_insert.
    apply lookup_insert_Some in H as [[<- [= <- <-]]|[Hne H]].
    + case_decide as Hkn; [by subst|]. eapply (r_member _ _ Hr); [exact Hl|].
      rewrite elem_of_app, elem_of_cons in *. naive_solver.
    + pose proof (free_spec _ _ _ _ _ _ Hr Hn H) as Hnl'. rewrite decide_False by (by intros ->).
      by eapply (r_member _ _ Hr).
  - intros k Hkv. rewrite (lk_container _ _ _ _ _ _ _ Hk), lookup_insert.
    destruct (decide (n = k)) as [-> |Hne]; [by rewrite decide_True|].
    rewrite decide_False by congruence. by apply (r_cont _ _ Hr).
  - apply Hr.
Qed.

Lemma rep_unlinked m m' A l ys zs c n :
  rep m A → seqs A !! l = Some (ys ++ n :: zs, c) →
  unlinked l n (last_ptr l ys) (first_ptr l zs) (Lst (zlen (ys ++ n :: zs)) c) m m' →
  rep m' (out n (with_seq l (ys ++ zs) (if decide (c = Item n) then last_ptr l ys else c) A)).
Proof.
  intros Hr Hl Hk. pose proof (ul_rest _ _ _ _ _ _ _ Hk) as Hrest.
  pose proof (r_lists _ _ Hr _ _ _ Hl) as Hi. split; cbn [put out with_seq seqs cont vals].
  - intros l' xs' c' H. apply lookup_insert_Some in H as [[<- [= <- <-]]|[Hne H]].
    + eapply is_list_unlinked; [done|done|].
      pose proof (rep_length _ _ _ _ _ Hr Hl). pose proof (r_size _ _ Hr). lia.
    + eapply is_list_frame; [by eapply r_lists|..].
      * by rewrite (ul_lists _ _ _ _ _ _ _ Hk), lookup_insert_ne.
      * apply Hrest.
      * intros r Hin. pose proof (λ k H1 H2, rep_disjoint _ _ _ _ _ _ _ _ k Hr H Hl (not_eq_sym Hne) H1 H2) as Hd.
        pose proof (ring_disjoint l' l xs' _ r (not_eq_sym Hne) Hd Hin) as Hout.
        rewrite (ul_next _ _ _ _ _ _ _ Hk), (ul_prev _ _ _ _ _ _ _ Hk).
        rewrite !decide_False; [done|..]; intros ->; apply Hout.
        -- replace (ys ++ n :: zs) with ((ys ++ [n]) ++ zs) by (by rewrite <- app_assoc). apply first_ptr_ring.
        -- apply last_ptr_ring.
  - intros k v Hkv. rewrite (sr_value _ _ Hrest). by apply (r_items _ _ Hr).
  - intros l' xs' c' k H Hin. rewrite lookup_delete.
    apply lookup_insert_Some in H as [[<- [= <- <-]]|[Hne H]].
    + pose proof (il_nodup _ _ _ _ Hi) as Hd. rewrite <- Permutation_middle in Hd.
      apply NoDup_cons in Hd as [Hd _]. rewrite decide_False by (by intros ->).
      eapply (r_member _ _ Hr); [exact Hl|]. rewrite elem_of_app, elem_of_cons in *. naive_solver.
    + rewrite decide_False; [by eapply (r_member _ _ Hr)|]. intros ->.
      eapply (rep_disjoint _ _ l' l); [done|done|done|done|exact Hin|].
      apply elem_of_app. right. by apply elem_of_cons; left.
  - intros k Hkv. rewrite (ul_container _ _ _ _ _ _ _ Hk), lookup_delete.
    destruct (decide (n = k)) as [-> |Hne]; [by rewrite decide_True|].
    rewrite decide_False by congruence. by apply (r_cont _ _ Hr).
  - apply Hr.
Qed.

(** Pointers of the ring are neither unknown nor the new item. *)
Lemma last_ptr_ne l ys zs n : n ∉ ys ++ zs → last_ptr l ys ≠ Item n.
Proof. intros Hn E. apply Hn, (elem_of_ring l). rewrite <- E. apply last_ptr_ring. Qed.
Lemma first_ptr_ne l ys zs n : n ∉ ys ++ zs → first_ptr l zs ≠ Item n.
Proof. intros Hn E. apply Hn, (elem_of_ring l). rewrite <- E. apply first_ptr_ring. Qed.

Lemma sim_insert m A l n xs c :
  rep m A → seqs A !! l = Some (xs, c) → is_Some (vals A !! n) → free A n = true →
  ∃ m', vListInsert l n m = Some m' ∧ rep m' (put n l (with_seq l (place (val A) n xs) c A)).
Proof.
  intros Hr Hl [v Hv] Hn. pose proof (r_lists _ _ Hr _ _ _ Hl) as Hi.
  assert (∀ k w, vals A !! k = Some w → val A k = w) as Hval by (intros k w H; unfold val; by rewrite H).
  destruct (r_items _ _ Hr _ _ Hv) as [Hvn Hvr]. pose proof (free_spec _ _ _ _ _ _ Hr Hn Hl) as Hnl.
  destruct (insert_iterator m l (val A) n xs c Hi) as (ys & zs & E & Ep & Hit).
  - by rewrite (Hval _ _ Hv).
  - intros x Hx. destruct (r_container _ _ _ _ _ _ Hr Hl Hx) as [_ [w Hw]].
    rewrite (Hval _ _ Hw). destruct (r_items _ _ Hr _ _ Hw). split; [done|lia].
  - rewrite Ep. rewrite (Hval _ _ Hv) in Hit. subst xs.
    destruct (il_neighbours m l ys zs c Hi) as [Hnx Hpv].
    destruct (vListInsert_linked l n (Lst (zlen (ys ++ zs)) c) v (last_ptr l ys) (first_ptr l zs) m)
      as (m' & -> & Hk); [apply Hi|done|done|done|by eapply in_dom_prev| | |].
    + by apply (last_ptr_ne l ys zs).
    + by apply (first_ptr_ne l ys zs).
    + exists m'. split; [done|]. by apply (rep_linked m).
Qed.

Lemma index_cases m l xs c : is_list m l xs c → c = End l ∨ ∃ x, x ∈ xs ∧ c = Item x.
Proof.
  intros Hi. pose proof (il_index _ _ _ _ Hi) as Hc. unfold ring in Hc.
  change (End l :: (Item <$> xs) ++ [End l]) with ((End l :: (Item <$> xs)) ++ [End l]) in Hc.
  rewrite removelast_last in Hc. apply elem_of_cons in Hc as [->|Hc]; [by left|].
  apply list_elem_of_fmap in Hc as (x & -> & ?). eauto.
Qed.

Lemma cut_before_spec m l xs c ys zs :
  is_list m l xs c → cut_before c xs = (ys, zs) → xs = ys ++ zs ∧ c = first_ptr l zs.
Proof.
  intros Hi E. destruct (index_cases _ _ _ _ Hi) as [->|(x & Hx & ->)]; cbn in E.
  - simplify_eq. by rewrite app_nil_r.
  - apply cut_spec in E as [-> Hh]. specialize (Hh Hx). split; [done|]. unfold first_ptr. by rewrite Hh.
Qed.

Lemma cut_after_spec m l xs c ys zs :
  is_list m l xs c → cut_after c xs = (ys, zs) → xs = ys ++ zs ∧ c = last_ptr l ys.
Proof.
  intros Hi E. destruct (index_cases _ _ _ _ Hi) as [->|(x & Hx & ->)]; cbn in E; [by simplify_eq|].
  destruct (cut x xs) as [a b] eqn:Ec. apply cut_spec in Ec as [-> Hh]. specialize (Hh Hx).
  destruct b as [|y b]; [done|]. cbn in *. simplify_eq. unfold last_ptr. rewrite last_snoc, <- app_assoc. done.
Qed.

Lemma sim_insert_end m A l n xs c ys zs :
  rep m A → seqs A !! l = Some (xs, c) → is_Some (vals A !! n) → free A n = true →
  cut_before c xs = (ys, zs) →
  ∃ m', vListInsertEnd l n m = Some m' ∧ rep m' (put n l (with_seq l (ys ++ n :: zs) c A)).
Proof.
  intros Hr Hl [v Hv] Hn Hcut. pose proof (r_lists _ _ Hr _ _ _ Hl) as Hi.
  destruct (cut_before_spec _ _ _ _ _ _ Hi Hcut) as [-> Hc].
  destruct (r_items _ _ Hr _ _ Hv) as [Hvn _]. pose proof (free_spec _ _ _ _ _ _ Hr Hn Hl) as Hnl.
  destruct (il_neighbours m l ys zs c Hi) as [Hnx Hpv].
  destruct (vListInsertEnd_linked l n (Lst (zlen (ys ++ zs)) c) (last_ptr l ys) m) as (m' & -> & Hk).
  - apply Hi.
  - cbn. by rewrite Hc.
  - by eapply in_dom_value.
  - by eapply in_dom_next.
  - cbn. rewrite Hc. by apply (first_ptr_ne l ys zs).
  - by apply (last_ptr_ne l ys zs).
  - exists m'. split; [done|]. cbn [pxIndex] in Hk. rewrite Hc in Hk at 1. apply (rep_linked m); eauto.
Qed.

Lemma sim_remove m A l n xs c ys zs :
  rep m A → seqs A !! l = Some (xs, c) → n ∈ xs → cut n xs = (ys, zs) →
  ∃ m', uxListRemove n m = Some (zlen xs - 1, m') ∧
    rep m' (out n (with_seq l (ys ++ tail zs) (if decide (c = Item n) then last_ptr l ys else c) A)).
Proof.
  intros Hr Hl Hn Hcut. pose proof (r_lists _ _ Hr _ _ _ Hl) as Hi.
  apply cut_spec in Hcut as [-> Hh]. specialize (Hh Hn). destruct zs as [|z zs]; [done|].
  cbn in Hh. simplify_eq. cbn [tail]. destruct (r_container _ _ _ _ _ _ Hr Hl Hn) as [Hc _].
  pose proof (il_nodup _ _ _ _ Hi) as Hd. rewrite <- Permutation_middle in Hd. apply NoDup_cons in Hd as [Hd _].
  destruct (il_neighbours m l ys (n :: zs) c Hi) as [H1 H2]. cbn in H2.
  replace (ys ++ n :: zs) with ((ys ++ [n]) ++ zs) in Hi by (by rewrite <- app_assoc).
  destruct (il_neighbours m l (ys ++ [n]) zs c Hi) as [H3 H4].
  replace (last_ptr l (ys ++ [n])) with (Item n) in H3, H4 by (unfold last_ptr; by rewrite last_snoc).
  rewrite <- app_assoc in Hi. cbn [app] in Hi.
  destruct (uxListRemove_unlinked l n (Lst (zlen (ys ++ n :: zs)) c) (last_ptr l ys) (first_ptr l zs) m)
    as (m' & E & Hk); [apply Hi|done|done|done|by eapply in_dom_next|by eapply in_dom_prev| | |].
  - by apply (last_ptr_ne l ys zs).
  - by apply (first_ptr_ne l ys zs).
  - exists m'. split; [|by apply (rep_unlinked m)]. rewrite E. do 2 f_equal. cbn [uxNumberOfItems].
    pose proof (rep_length _ _ _ _ _ Hr Hl). pose proof (r_size _ _ Hr).
    rewrite zlen_app in *. unfold zlen in *. cbn [length] in *. apply uwrap_id. unfold fits_u. lia.
Qed.

(** Only the index of [l] changes. *)
Lemma rep_set_index m A l xs c p :
  rep m A → seqs A !! l = Some (xs, c) → p ∈ removelast (ring l xs) →
  rep (Mem (nodes m) (<[l := Lst (zlen xs) p]> (lists m))) (with_seq l xs p A).
Proof.
  intros Hr Hl Hp. split; cbn [put out with_seq seqs cont vals].
  - intros l' xs' c' H. apply lookup_insert_Some in H as [[<- [= <- <-]]|[Hne H]].
    + pose proof (r_lists _ _ Hr _ _ _ Hl) as []. split; [by cbn; rewrite lookup_insert_eq|done| |done|done].
      eapply links_frame; [exact il_links0|done|done].
    + eapply is_list_frame; [by eapply r_lists|by cbn; rewrite lookup_insert_ne|done|done].
  - apply (r_items _ _ Hr).
  - intros l' xs' c' k H. apply lookup_insert_Some in H as [[<- [= <- <-]]|[Hne H]];
      by eapply (r_member _ _ Hr).
  - apply (r_cont _ _ Hr).
  - apply Hr.
Qed.

Lemma in_owner m p : p ∈ dom (nodes m) → is_Some (owner m p).
Proof. intros [e He]%elem_of_dom. unfold owner. rewrite He. cbn. eauto. Qed.

Lemma head_in_ring l x xs : Item x ∈ removelast (ring l (x :: xs)).
Proof.
  replace (Item x) with (last_ptr l [x]) by done. exact (last_ptr_in l [x] xs).
Qed.

Lemma sim_next m A l xs c ys zs x :
  rep m A → seqs A !! l = Some (xs, c) → cut_after c xs = (ys, zs) → head (zs ++ ys) = Some x →
  ∃ m', listGET_OWNER_OF_NEXT_ENTRY l m = Some (Item x, m') ∧ rep m' (with_seq l xs (Item x) A).
Proof.
  intros Hr Hl Hcut Hx. pose proof (r_lists _ _ Hr _ _ _ Hl) as Hi.
  destruct (cut_after_spec _ _ _ _ _ _ Hi Hcut) as [E Hc].
  assert (Item x ∈ removelast (ring l xs)) as Hin.
  { subst xs. destruct zs as [|z zs]; cbn in Hx.
    - rewrite app_nil_r. destruct ys as [|y ys]; [done|]. cbn in Hx. simplify_eq. apply head_in_ring.
    - simplify_eq. replace (Item x) with (last_ptr l (ys ++ [x])) by (unfold last_ptr; by rewrite last_snoc).
      replace (ys ++ x :: zs) with ((ys ++ [x]) ++ zs) by (by rewrite <- app_assoc). apply last_ptr_in. }
  pose proof (rep_set_index m A l xs c (Item x) Hr Hl Hin) as Hrep.
  destruct (in_owner m (Item x)) as [o Ho]; [by eapply il_in_dom|].
  unfold listGET_OWNER_OF_NEXT_ENTRY. rewrite (il_list _ _ _ _ Hi). cbn [mbind option_bind pxIndex].
  subst xs c. rewrite (proj1 (il_neighbours m l ys zs _ Hi)). cbn [mbind option_bind].
  unfold set_index, update_list. rewrite (il_list _ _ _ _ Hi). cbn [mbind option_bind uxNumberOfItems].
  destruct zs as [|z zs]; cbn in Hx.
  - change (first_ptr l []) with (End l). rewrite decide_True by done.
    pose proof (il_neighbours m l [] (ys ++ []) _ Hi) as [H1 _]. rewrite app_nil_r in *.
    assert (first_ptr l ys = Item x) as Hfx by (unfold first_ptr; by rewrite Hx).
    change (last_ptr l []) with (End l) in H1. rewrite Hfx in H1.
    change (next (Mem (nodes m) _) (End l)) with (next m (End l)). rewrite H1. cbn [mbind option_bind lists].
    rewrite lookup_insert_eq. cbn [mbind option_bind nodes uxNumberOfItems].
    change (owner (Mem (nodes m) _) (Item x)) with (owner m (Item x)). rewrite Ho. cbn [mbind option_bind].
    eexists. split; [done|]. by rewrite insert_insert_eq.
  - simplify_eq. change (first_ptr l (x :: zs)) with (Item x). rewrite decide_False by done.
    cbn [mbind option_bind]. change (owner (Mem (nodes m) _) (Item x)) with (owner m (Item x)). rewrite Ho.
    cbn [mbind option_bind]. eauto.
Qed.

Lemma sim_initialise m A l :
  rep m A → seqs A !! l = None → rep (vListInitialise l m) (with_seq l [] (End l) A).
Proof.
  intros Hr Hl.
  assert (∀ r, r ≠ End l → nodes (vListInitialise l m) !! r = nodes m !! r) as Hout
    by (intros r Hne; cbn; by rewrite lookup_insert_ne).
  assert (nodes (vListInitialise l m) !! End l = Some (Node portMAX_DELAY (End l) (End l) 0 None)) as Hin
    by (cbn; by rewrite lookup_insert_eq).
  split; cbn [put out with_seq seqs cont vals].
  - intros l' xs c H. apply lookup_insert_Some in H as [[<- [= <- <-]]|[Hne H]].
    + split; [cbn; by rewrite lookup_insert_eq|by apply elem_of_cons; left| |constructor|].
      * cbn. unfold next, prev. by rewrite Hin.
      * unfold value. by rewrite Hin.
    + eapply is_list_frame; [by eapply r_lists|cbn; by rewrite lookup_insert_ne| |].
      * unfold value. rewrite Hout; [done|naive_solver].
      * intros r Hrr. unfold next, prev. rewrite Hout; [done|]. intros ->.
        unfold ring in Hrr. rewrite elem_of_cons, elem_of_app, list_elem_of_singleton, list_elem_of_fmap in Hrr.
        naive_solver.
  - intros n v Hn. unfold value. rewrite Hout by done. by apply (r_items _ _ Hr).
  - intros l' xs c n H Hn. apply lookup_insert_Some in H as [[<- [= <- <-]]|[Hne H]].
    + by apply elem_of_nil in Hn.
    + by eapply (r_member _ _ Hr).
  - intros n Hn. unfold container. rewrite Hout by done. by apply (r_cont _ _ Hr).
  - apply Hr.
Qed.

Lemma sim_set_value m A n v :
  rep m A → is_Some (vals A !! n) → 0 ≤ v ≤ portMAX_DELAY →
  ∃ m', listSET_LIST_ITEM_VALUE n v m = Some m' ∧ rep m' (set_val n v A).
Proof.
  intros Hr [w Hw] Hv. destruct (r_items _ _ Hr _ _ Hw) as [Hwn _]. apply in_dom_value in Hwn.
  unfold listSET_LIST_ITEM_VALUE. match goal with |- context [update ?f ?p ?m] =>
    destruct (update_lookup f p m Hwn) as (m' & E & Hls & Hd & Hn) end.
  exists m'. split; [exact E|]. clear E.
  assert (∀ r, next m' r = next m r ∧ prev m' r = prev m r ∧ container m' r = container m r) as Hsame.
  { intros r. unfold next, prev, container. rewrite Hn. case_decide; [|done]. by destruct (nodes m !! r). }
  split; cbn [set_val seqs cont vals].
  - intros l xs c H. eapply is_list_frame; [by eapply r_lists|by rewrite Hls| |].
    + unfold value. by rewrite Hn, decide_False by done.
    + intros r _. by destruct (Hsame r) as (? & ? & ?).
  - intros k u H. unfold value. rewrite Hn. apply lookup_insert_Some in H as [[<- <-]|[Hne H]].
    + rewrite decide_True by done. apply elem_of_dom in Hwn as [e He]. by rewrite He.
    + rewrite decide_False by (intros [=]; congruence). by apply (r_items _ _ Hr).
  - intros l xs c k H Hk. destruct (r_member _ _ Hr _ _ _ _ H Hk) as [? Hs]. split; [done|].
    apply lookup_insert_is_Some'. auto.
  - intros k Hk. destruct (Hsame (Item k)) as (_ & _ & ->). apply (r_cont _ _ Hr).
    apply lookup_insert_is_Some' in Hk as [-> |Hk]; [eauto|done].
  - rewrite map_size_insert_Some by eauto. apply Hr.
Qed.

Lemma sim_create m A n v : rep m A → vals A !! n = None → free A n = true → 0 ≤ v ≤ portMAX_DELAY →
  Z.of_nat (size (vals A)) + 1 < 2 ^ 32 →
  ∃ m', cstep (OCreate n v) m = Some (RNone, m') ∧ rep m' (set_val n v A).
Proof.
  intros Hr Hn Hf%bool_decide_eq_true Hv Hs. cbn [cstep].
  unfold vListInitialiseItem, set_container, listSET_LIST_ITEM_VALUE, update. cbn. rewrite lookup_insert_eq.
  cbn. rewrite lookup_insert_eq. cbn. eexists. split; [done|]. rewrite !insert_insert_eq.
  set (m1 := Mem _ _).
  assert (∀ r, r ≠ Item n → nodes m1 !! r = nodes m !! r) as Hout by (intros r Hne; cbn; by rewrite lookup_insert_ne).
  split; cbn [set_val seqs cont vals].
  - intros l xs c H. eapply is_list_frame; [by eapply r_lists|done| |].
    + unfold value. by rewrite Hout.
    + intros r Hrr. unfold next, prev. rewrite Hout; [done|]. intros ->. apply elem_of_ring in Hrr.
      destruct (r_member _ _ Hr _ _ _ _ H Hrr) as [_ [w Hw]]. congruence.
  - intros k w [[<- <-]|[Hne Hk]]%lookup_insert_Some.
    + unfold value. cbn. by rewrite lookup_insert_eq.
    + unfold value. rewrite Hout by congruence. by apply (r_items _ _ Hr).
  - intros l xs c k H Hk. destruct (r_member _ _ Hr _ _ _ _ H Hk) as [? Hs']. split; [done|]. apply lookup_insert_is_Some'. auto.
  - intros k Hk. destruct (decide (n = k)) as [<- |Hne].
    + unfold container. cbn. by rewrite lookup_insert_eq, Hf.
    + unfold container. rewrite Hout by congruence. apply (r_cont _ _ Hr).
      apply lookup_insert_is_Some' in Hk as [|]; done.
  - rewrite map_size_insert_None by done. lia.
Qed.

Lemma sim_destroy m A n : rep m A → free A n = true →
  rep (free_item n m) (Abs (seqs A) (cont A) (delete n (vals A))).
Proof.
  intros Hr Hf%bool_decide_eq_true.
  assert (∀ r, r ≠ Item n → nodes (free_item n m) !! r = nodes m !! r) as Hout by (intros r Hne; cbn; by rewrite lookup_delete_ne).
  split; cbn [seqs cont vals].
  - intros l xs c H. eapply is_list_frame; [by eapply r_lists|done| |].
    + unfold value. by rewrite Hout.
    + intros r Hrr. unfold next, prev. rewrite Hout; [done|]. intros ->. apply elem_of_ring in Hrr.
      destruct (r_member _ _ Hr _ _ _ _ H Hrr) as [? _]. congruence.
  - intros k v [Hne Hk]%lookup_delete_Some. unfold value. rewrite Hout by congruence. by apply (r_items _ _ Hr).
  - intros l xs c k H Hk. destruct (r_member _ _ Hr _ _ _ _ H Hk) as [Hc ?]. split; [done|].
    rewrite lookup_delete_ne; [done|]. intros ->. congruence.
  - intros k [v [Hne Hk]%lookup_delete_Some]. unfold container. rewrite Hout by congruence. apply (r_cont _ _ Hr). eauto.
  - pose proof (r_size _ _ Hr). rewrite map_size_delete. destruct (vals A !! n); cbn; lia.
Qed.

Lemma sim_head m A l x xs c : rep m A → seqs A !! l = Some (x :: xs, c) →
  listGET_HEAD_ENTRY l m = Some (Item x) ∧ is_Some (owner m (Item x)).
Proof.
  intros Hr Hl. pose proof (r_lists _ _ Hr _ _ _ Hl) as Hi.
  destruct (il_neighbours m l [] (x :: xs) c Hi) as [H _]. split; [exact H|].
  apply in_owner. eapply il_in_dom; [exact Hi|]. apply head_in_ring.
Qed.

Lemma sim_step o m A r A' :
  rep m A → astep o A = Some (r, A') → ∃ m', cstep o m = Some (r, m') ∧ rep m' A'.
Proof.
  intros Hr E. destruct o as [l|n v|n|n v|l n|l n|n|l|l|l|n|n]; cbn [astep] in E.
  - destruct (seqs A !! l) eqn:Hl; simplify_eq. eexists. split; [done|]. by apply sim_initialise.
  - destruct (vals A !! n) eqn:Hv; [done|]. case_match eqn:Hg; simplify_eq. zbool. apply sim_create; [done|done|done|lia|lia].
  - destruct (vals A !! n) eqn:Hv; [|done]. cbn in E. case_match eqn:Hg; simplify_eq.
    eexists. split; [done|]. by apply sim_destroy.
  - destruct (vals A !! n) as [w|] eqn:Hw; [|done]. cbn [mbind option_bind] in E.
    case_match eqn:Hg; simplify_eq. zbool. cbn [cstep].
    destruct (sim_set_value m A n v Hr) as (m' & -> & Hr'); [eauto|lia|]. cbn. eauto.
  - destruct (seqs A !! l) as [[xs c]|] eqn:Hl; [|done]. cbn [mbind option_bind] in E.
    destruct (vals A !! n) as [w|] eqn:Hw; [|done]. cbn [mbind option_bind] in E.
    destruct (free A n) eqn:Hf; [|done]. simplify_eq. cbn [cstep].
    destruct (sim_insert m A l n xs c Hr Hl) as (m' & -> & Hr'); [eauto|done|]. cbn. eauto.
  - destruct (seqs A !! l) as [[xs c]|] eqn:Hl; [|done]. cbn [mbind option_bind] in E.
    destruct (vals A !! n) as [w|] eqn:Hw; [|done]. cbn [mbind option_bind] in E.
    destruct (free A n) eqn:Hf; [|done]. destruct (cut_before c xs) as [ys zs] eqn:Hc. simplify_eq. cbn [cstep].
    destruct (sim_insert_end m A l n xs c ys zs Hr Hl) as (m' & -> & Hr'); [eauto|done|done|]. cbn. eauto.
  - destruct (cont A !! n) as [l|]; [|done]. cbn [mbind option_bind] in E.
    destruct (seqs A !! l) as [[xs c]|] eqn:Hl; [|done]. cbn [mbind option_bind] in E.
    case_bool_decide as Hn; [|done]. destruct (cut n xs) as [ys zs] eqn:Hc. simplify_eq. cbn [cstep].
    destruct (sim_remove m A l n xs c ys zs Hr Hl Hn Hc) as (m' & -> & Hr'). cbn. eauto.
  - destruct (seqs A !! l) as [[xs c]|] eqn:Hl; [|done]. cbn [mbind option_bind] in E.
    destruct (cut_after c xs) as [ys zs] eqn:Hc. destruct (head (zs ++ ys)) as [x|] eqn:Hx; [|done].
    cbn [mbind option_bind] in E. simplify_eq. cbn [cstep].
    destruct (sim_next m A l xs c ys zs x Hr Hl Hc Hx) as (m' & -> & Hr'). cbn. eauto.
  - destruct (seqs A !! l) as [[xs c]|] eqn:Hl; [|done]. cbn in E. simplify_eq. cbn [cstep].
    rewrite (il_list _ _ _ _ (r_lists _ _ Hr _ _ _ Hl)). cbn. eauto.
  - destruct (seqs A !! l) as [[xs c]|] eqn:Hl; [|done]. cbn [mbind option_bind] in E.
    destruct xs as [|x xs]; [done|]. cbn in E. simplify_eq. cbn [cstep].
    destruct (sim_head _ _ _ _ _ _ Hr Hl) as [-> [o Ho]]. cbn [mbind option_bind]. rewrite Ho. cbn. eauto.
  - destruct (vals A !! n) as [v|] eqn:Hv; [|done]. cbn in E. simplify_eq. cbn [cstep].
    destruct (r_items _ _ Hr _ _ Hv) as [-> _]. cbn. eauto.
  - destruct (vals A !! n) as [v|] eqn:Hv; [|done]. cbn in E. simplify_eq. cbn [cstep].
    rewrite (r_cont _ _ Hr n) by eauto. cbn. eauto.
Qed.

(** ** Walking around a ring *)

Fixpoint walk (k l : nat) (m : mem) : option (list ptr * mem) :=
  match k with
  | O => Some ([], m)
  | S k =>
      '(p, m) ← listGET_OWNER_OF_NEXT_ENTRY l m;
      '(ps, m) ← walk k l m;
      Some (p :: ps, m)
  end.

Lemma cut_middle a x b : x ∉ a → cut x (a ++ x :: b) = (a, x :: b).
Proof.
  induction a as [|y a IH]; intros Hx; cbn; [by rewrite decide_True|].
  rewrite elem_of_cons in Hx. rewrite decide_False by naive_solver. by rewrite IH by naive_solver.
Qed.

Lemma cut_after_last l ys zs : NoDup (ys ++ zs) → cut_after (last_ptr l ys) (ys ++ zs) = (ys, zs).
Proof.
  intros Hd. unfold last_ptr. destruct ys as [|y ys _] using rev_ind; [done|]. rewrite last_snoc. cbn.
  rewrite <- app_assoc in *. cbn [app] in *. rewrite cut_middle; [done|].
  apply NoDup_app in Hd as (_ & Hd & _). intros Hy. apply (Hd y Hy). by apply elem_of_cons; left.
Qed.

Lemma with_seq_twice l xs c xs' c' A : with_seq l xs c (with_seq l xs' c' A) = with_seq l xs c A.
Proof. unfold with_seq. cbn. by rewrite insert_insert_eq. Qed.

(** Along the sequence, without passing the end *)
Lemma walk_along l zs1 : ∀ m A ys zs2,
  rep m A → seqs A !! l = Some (ys ++ zs1 ++ zs2, last_ptr l ys) →
  ∃ m', walk (length zs1) l m = Some (Item <$> zs1, m') ∧
    rep m' (with_seq l (ys ++ zs1 ++ zs2) (last_ptr l (ys ++ zs1)) A).
Proof.
  induction zs1 as [|z zs1 IH]; intros m A ys zs2 Hr Hl.
  - exists m. split; [done|]. rewrite app_nil_r. unfold with_seq. rewrite insert_id by done. by destruct A.
  - pose proof (r_lists _ _ Hr _ _ _ Hl) as Hi.
    pose proof (cut_after_last l ys ((z :: zs1) ++ zs2) (il_nodup _ _ _ _ Hi)) as Hc.
    destruct (sim_next m A l _ _ _ _ z Hr Hl Hc eq_refl) as (m1 & E & Hr1).
    assert (Item z = last_ptr l (ys ++ [z])) as Hz by (unfold last_ptr; by rewrite last_snoc).
    assert (ys ++ (z :: zs1) ++ zs2 = (ys ++ [z]) ++ zs1 ++ zs2) as Hs by (by rewrite <- app_assoc).
    rewrite Hz, Hs in Hr1. destruct (IH m1 _ (ys ++ [z]) zs2 Hr1) as (m2 & Ew & Hr2).
    { cbn. by rewrite lookup_insert_eq. }
    rewrite with_seq_twice, <- Hs, <- app_assoc in Hr2. exists m2. split; [|exact Hr2].
    cbn [length walk]. rewrite E. cbn [mbind option_bind]. rewrite Ew. done.
Qed.

Lemma walk_app l k1 : ∀ k2 m ps1 m1 ps2 m2,
  walk k1 l m = Some (ps1, m1) → walk k2 l m1 = Some (ps2, m2) →
  walk (k1 + k2) l m = Some (ps1 ++ ps2, m2).
Proof.
  induction k1 as [|k1 IH]; intros k2 m ps1 m1 ps2 m2 H1 H2; cbn [walk Nat.add] in *; [by simplify_eq|].
  destruct (listGET_OWNER_OF_NEXT_ENTRY l m) as [[p m']|]; [|done]. cbn [mbind option_bind] in *.
  destruct (walk k1 l m') as [[ps m'']|] eqn:E; [|done]. cbn [mbind option_bind] in *. simplify_eq.
  by rewrite (IH _ _ _ _ _ _ E H2).
Qed.

(** ** Sequences of operations *)

Fixpoint cruns (os : list op) (m : mem) : option (list result * mem) :=
  match os with
  | [] => Some ([], m)
  | o :: os => '(r, m) ← cstep o m; '(rs, m) ← cruns os m; Some (r :: rs, m)
  end.
Fixpoint aruns (os : list op) (A : astate) : option (list result * astate) :=
  match os with
  | [] => Some ([], A)
  | o :: os => '(r, A) ← astep o A; '(rs, A) ← aruns os A; Some (r :: rs, A)
  end.

Lemma sim_runs os : ∀ m A rs A',
  rep m A → aruns os A = Some (rs, A') → ∃ m', cruns os m = Some (rs, m') ∧ rep m' A'.
Proof.
  induction os as [|o os IH]; intros m A rs A' Hr E; cbn in *; [naive_solver|].
  destruct (astep o A) as [[r A1]|] eqn:Ea; [|done]. cbn [mbind option_bind] in E.
  destruct (aruns os A1) as [[rs1 A2]|] eqn:Er; [|done]. cbn [mbind option_bind] in E. simplify_eq.
  destruct (sim_step o m A r A1 Hr Ea) as (m1 & -> & Hr1). cbn [mbind option_bind].
  destruct (IH m1 A1 rs1 A' Hr1 Er) as (m2 & -> & Hr2). eauto.
Qed.

(** ** Properties *)

(** C8. The linked rings refine sequences: any operations that owners may call, in any
    order on any lists, run without leaving a list, return what the sequences say, and
    leave memory in agreement with them.  vListInsert puts the item in front of the first with a
    greater value, vListInsertEnd in front of the one visited last, uxListRemove takes
    it out and moves an index that pointed to it back, and the other lists stay as
    they are. *)
Theorem rtos_list_refines os m A rs A' :
  rep m A → aruns os A = Some (rs, A') → ∃ m', cruns os m = Some (rs, m') ∧ rep m' A'.
Proof. apply sim_runs. Qed.

(** Walking a list is fair: as many calls of listGET_OWNER_OF_NEXT_ENTRY as there are
    items return every item once, starting behind the one visited last and passing
    over the end marker, and the list is unchanged. *)
Theorem rtos_round_robin m A l xs c ys zs :
  rep m A → seqs A !! l = Some (xs, c) → cut_after c xs = (ys, zs) →
  zs ++ ys ≡ₚ xs ∧
  ∃ m' c', walk (length xs) l m = Some (Item <$> (zs ++ ys), m') ∧ rep m' (with_seq l xs c' A).
Proof.
  intros Hr Hl Hcut. pose proof (r_lists _ _ Hr _ _ _ Hl) as Hi.
  destruct (cut_after_spec _ _ _ _ _ _ Hi Hcut) as [-> ->].
  split; [apply Permutation_app_comm|].
  destruct (walk_along l zs m A ys []) as (m1 & E1 & Hr1); [done|by rewrite app_nil_r|].
  rewrite app_nil_r in Hr1. rewrite length_app, Nat.add_comm, fmap_app. destruct ys as [|y ys].
  { exists m1, (last_ptr l ([] ++ zs)). rewrite app_nil_r, Nat.add_0_r. done. }
  set (xs := (y :: ys) ++ zs) in *. set (A1 := with_seq l xs (last_ptr l xs) A) in *.
  assert (seqs A1 !! l = Some (xs, last_ptr l xs)) as Hl1 by (cbn; by rewrite lookup_insert_eq).
  assert (cut_after (last_ptr l xs) xs = (xs, [])) as Hc1.
  { rewrite <- (app_nil_r xs) at 2. apply cut_after_last. rewrite app_nil_r. apply Hi. }
  destruct (sim_next m1 A1 l _ _ _ _ y Hr1 Hl1 Hc1 eq_refl) as (m2 & E2 & Hr2).
  destruct (walk_along l ys m2 _ [y] zs Hr2) as (m3 & E3 & Hr3); [cbn; by rewrite lookup_insert_eq|].
  subst A1. rewrite !with_seq_twice in Hr3. exists m3, (last_ptr l ([y] ++ ys)). split; [|exact Hr3].
  eapply walk_app; [exact E1|]. cbn [length walk]. rewrite E2. cbn [mbind option_bind]. rewrite E3. done.
Qed.

(** ** Two lists of three items *)

Definition item (v : Z) : ListItem_t := Node v (Item 0) (Item 0) 7 None.
Definition demo_mem : mem :=
  vListInitialise 1 (vListInitialise 0
    (Mem {[Item 0 := item 5; Item 1 := item 3; Item 2 := item 5]} ∅)).
Definition demo_abs : astate :=
  Abs {[0%nat := ([], End 0); 1%nat := ([], End 1)]} ∅ {[0%nat := 5; 1%nat := 3; 2%nat := 5]}.

Lemma demo_rep : rep demo_mem demo_abs.
Proof.
  assert (rep (Mem {[Item 0 := item 5; Item 1 := item 3; Item 2 := item 5]} ∅)
              (Abs ∅ ∅ {[0%nat := 5; 1%nat := 3; 2%nat := 5]})) as H.
  { split; cbn; [done| |done| |done].
    - intros n v H. repeat (apply lookup_insert_Some in H as [[<- <-]|[? H]]; [by vm_compute|]).
      apply lookup_singleton_Some in H as [<- <-]. by vm_compute.
    - intros n [v H]. repeat (apply lookup_insert_Some in H as [[<- <-]|[? H]]; [by vm_compute|]).
      apply lookup_singleton_Some in H as [<- <-]. by vm_compute. }
  apply (sim_initialise _ _ 0) in H; [|done]. apply (sim_initialise _ _ 1) in H; [|done].
  replace demo_abs with (with_seq 1 [] (End 1) (with_seq 0 [] (End 0) (Abs ∅ ∅ {[0%nat := 5; 1%nat := 3; 2%nat := 5]})));
    [exact H|]. unfold with_seq, demo_abs. cbn [seqs cont vals]. by f_equal.
Qed.

(** Items of equal value keep the order in which they came. *)
Definition demo_ops : list op := [OInsert 0 0; OInsert 0 1; OInsert 0 2; ONext 0].
Example demo_sequence :
  option_map (λ r, seqs r.2 !! 0%nat) (aruns demo_ops demo_abs) = Some (Some ([1; 0; 2]%nat, Item 1)).
Proof. by vm_compute. Qed.

Lemma rtos_list_refines_witness :
  ∃ m' A', cruns (demo_ops ++ [ORemove 1]) demo_mem =
    Some ([RNone; RNone; RNone; RItem (Item 1); RCount 2], m') ∧ rep m' A'.
Proof.
  destruct (aruns (demo_ops ++ [ORemove 1]) demo_abs) as [[rs A']|] eqn:E; [|by vm_compute in E].
  destruct (rtos_list_refines _ demo_mem demo_abs rs A' demo_rep E) as (m' & Em & Hr).
  exists m', A'. split; [|exact Hr]. rewrite Em. vm_compute in E. by injection E as <- _.
Defined.

Lemma rtos_round_robin_witness :
  ∃ rs m A, cruns demo_ops demo_mem = Some (rs, m) ∧ rep m A ∧
    ∃ m' c', walk 3 0 m = Some ([Item 0; Item 2; Item 1], m') ∧ rep m' (with_seq 0 [1; 0; 2]%nat c' A).
Proof.
  destruct (aruns demo_ops demo_abs) as [[rs A]|] eqn:E; [|by vm_compute in E].
  destruct (sim_runs _ _ _ _ _ demo_rep E) as (m & Em & Hr). exists rs, m, A. split; [exact Em|].
  split; [exact Hr|].
  destruct (rtos_round_robin m A 0 [1; 0; 2]%nat (Item 1) [1]%nat [0; 2]%nat Hr) as [_ H];
    [by vm_compute in E; injection E as _ <-|reflexivity|exact H].
Defined.

End RtosList.
