(* ===== verification/RtosHeap.v ===== *)
(** * The coalescing heap of FreeRTOS

    Models ldd-k4/arm/FreeRTOS-GCC-ARM926ejs/FreeRTOS/Source/portable/MemMang/heap_4.c:
    first fit allocation over a free list that is threaded through the free blocks in
    the order of their addresses, with neighbours joined when a block is freed.

    Memory is the array ucHeap, seen as the block headers that could be stored at its
    aligned addresses; an application may overwrite every one of them that lies in a
    block it owns.  The address of ucHeap is the linker's, a variable of the section.
    [None] is an access outside the array or at an unaligned address.

    The specification ([astep]) is a division of the heap into blocks, used and free:
    an allocation takes the first free block that is large enough and splits it, and
    freeing a block marks it free and joins neighbouring free blocks. *)

From S2P Require Import Prelude.

Module RtosHeap.

Definition portBYTE_ALIGNMENT : Z := 8.
Definition portBYTE_ALIGNMENT_MASK : Z := 7.
Definition configTOTAL_HEAP_SIZE : Z := 20480.
(** sizeof( BlockLink_t ) is 8: a pointer and a size_t of 32 bits. *)
Definition xHeapStructSize : Z := Z.land (8 + (portBYTE_ALIGNMENT - 1)) (u32 (Z.lnot portBYTE_ALIGNMENT_MASK)).
Definition heapMINIMUM_BLOCK_SIZE : Z := Z.shiftl xHeapStructSize 1.
Definition heapBITS_PER_BYTE : Z := 8.

(** A BlockLink_t is xStart or lies in the array; NULL is address 0. *)
Inductive place := Start | At (a : Z).
#[export] Instance place_eq_dec : EqDecision place.
Proof. solve_decision. Defined.
#[export] Instance place_countable : Countable place.
Proof.
  apply (inj_countable' (λ p, match p with Start => None | At a => Some a end)
           (λ x, match x with None => Start | Some a => At a end)).
  by intros [].
Defined.

Record BlockLink_t := Hdr { pxNextFreeBlock : Z; xBlockSize : Z }.

Record heap := Heap {
  hdr : gmap place BlockLink_t;
  pxEnd : Z;
  xFreeBytesRemaining : Z;
  xMinimumEverFreeBytesRemaining : Z;
  xBlockAllocatedBit : Z
}.

(** ** Loads and stores *)

Definition next (s : heap) (p : place) : option Z := pxNextFreeBlock <$> hdr s !! p.
Definition bsize (s : heap) (p : place) : option Z := xBlockSize <$> hdr s !! p.
Definition with_hdr (h : gmap place BlockLink_t) (s : heap) : heap :=
  Heap h (pxEnd s) (xFreeBytesRemaining s) (xMinimumEverFreeBytesRemaining s) (xBlockAllocatedBit s).
Definition set_hdr (p : place) (f : BlockLink_t → BlockLink_t) (s : heap) : option heap :=
  b ← hdr s !! p; Some (with_hdr (<[p := f b]> (hdr s)) s).
Definition set_next (p : place) (n : Z) : heap → option heap := set_hdr p (λ b, Hdr n (xBlockSize b)).
Definition set_size (p : place) (z : Z) : heap → option heap := set_hdr p (λ b, Hdr (pxNextFreeBlock b) z).
Definition set_bytes (f m : Z) (s : heap) : heap := Heap (hdr s) (pxEnd s) f m (xBlockAllocatedBit s).

(** Every step of the loops moves to a higher address of the array. *)
Definition fuel : nat := Z.to_nat configTOTAL_HEAP_SIZE.
Lemma fuel_size : Z.of_nat fuel = 20480.
Proof. by rewrite <- (Z2Nat.id 20480). Qed.
#[local] Opaque fuel.

Section heap.
Variable ucHeap : Z.

(** ** Operations *)

(** uxAddress and xTotalHeapSize after the first conditional of prvHeapInit *)
Definition aligned_heap : Z * Z :=
  if negb (Z.land ucHeap portBYTE_ALIGNMENT_MASK =? 0)
  then let uxAddress := Z.land (u32 (ucHeap + (portBYTE_ALIGNMENT - 1))) (u32 (Z.lnot portBYTE_ALIGNMENT_MASK)) in
       (uxAddress, u32 (configTOTAL_HEAP_SIZE - u32 (uxAddress - ucHeap)))
  else (ucHeap, configTOTAL_HEAP_SIZE).

Definition prvHeapInit (s : heap) : option heap :=
  let '(uxAddress, xTotalHeapSize) := aligned_heap in
  let pucAlignedHeap := uxAddress in
  s ← set_next Start pucAlignedHeap s;
  s ← set_size Start 0 s;
  let uxAddress := u32 (pucAlignedHeap + xTotalHeapSize) in
  let uxAddress := u32 (uxAddress - xHeapStructSize) in
  let uxAddress := Z.land uxAddress (u32 (Z.lnot portBYTE_ALIGNMENT_MASK)) in
  let s := Heap (hdr s) uxAddress (xFreeBytesRemaining s) (xMinimumEverFreeBytesRemaining s) (xBlockAllocatedBit s) in
  s ← set_size (At (pxEnd s)) 0 s;
  s ← set_next (At (pxEnd s)) 0 s;
  let pxFirstFreeBlock := At pucAlignedHeap in
  s ← set_size pxFirstFreeBlock (u32 (uxAddress - pucAlignedHeap)) s;
  s ← set_next pxFirstFreeBlock (pxEnd s) s;
  z ← bsize s pxFirstFreeBlock;
  Some (Heap (hdr s) (pxEnd s) z z (Z.shiftl 1 (4 * heapBITS_PER_BYTE - 1))).

(** The for loop: the last block of the list below the block to insert *)
Fixpoint iterate (fuel : nat) (pxBlockToInsert : Z) (pxIterator : place) (s : heap) : option place :=
  match fuel with
  | O => None
  | S fuel =>
      n ← next s pxIterator;
      if n <? pxBlockToInsert then iterate fuel pxBlockToInsert (At n) s else Some pxIterator
  end.

(** Whether a block that starts at [p] and has [z] bytes ends at [b]; xStart is an
    object of its own and is followed by no block. *)
Definition ends_at (p : place) (z b : Z) : bool :=
  match p with Start => false | At a => u32 (a + z) =? b end.

(** The block in the list before the one that is inserted, [pxIterator], may end where
    it begins; then the two become one, which is the block to insert from here on. *)
Definition join_before (pxIterator : place) (pxBlockToInsert : Z) (s : heap) : option (place * heap) :=
  iz ← bsize s pxIterator;
  if ends_at pxIterator iz pxBlockToInsert
  then z ← bsize s (At pxBlockToInsert); s ← set_size pxIterator (u32 (iz + z)) s; Some (pxIterator, s)
  else Some (At pxBlockToInsert, s).

(** The block to insert may end where the next one in the list begins. *)
Definition join_behind (pxIterator blk : place) (s : heap) : option heap :=
  z ← bsize s blk;
  n ← next s pxIterator;
  if ends_at blk z n
  then if negb (n =? pxEnd s)
       then zn ← bsize s (At n); s ← set_size blk (u32 (z + zn)) s;
            n ← next s pxIterator; nn ← next s (At n); set_next blk nn s
       else set_next blk (pxEnd s) s
  else set_next blk n s.

Definition prvInsertBlockIntoFreeList (pxBlockToInsert : Z) (s : heap) : option heap :=
  pxIterator ← iterate fuel pxBlockToInsert Start s;
  '(blk, s) ← join_before pxIterator pxBlockToInsert s;
  s ← join_behind pxIterator blk s;
  match blk with
  | At b => if decide (pxIterator = At b) then Some s else set_next pxIterator b s
  | Start => Some s
  end.

(** The while loop of pvPortMalloc: the previous block and the block it stops at *)
Fixpoint search (fuel : nat) (xWantedSize : Z) (pxPreviousBlock : place) (pxBlock : Z) (s : heap) : option (place * Z) :=
  match fuel with
  | O => None
  | S fuel =>
      z ← bsize s (At pxBlock);
      n ← next s (At pxBlock);
      if (z <? xWantedSize) && negb (n =? 0) then search fuel xWantedSize (At pxBlock) n s
      else Some (pxPreviousBlock, pxBlock)
  end.

Definition wanted (xWantedSize : Z) : Z :=
  if 0 <? xWantedSize then
    let w := u32 (xWantedSize + xHeapStructSize) in
    if negb (Z.land w portBYTE_ALIGNMENT_MASK =? 0)
    then u32 (w + (portBYTE_ALIGNMENT - Z.land w portBYTE_ALIGNMENT_MASK)) else w
  else xWantedSize.

(** A block that is larger than required is split into two. *)
Definition split_block (pxBlock xWantedSize : Z) (s : heap) : option heap :=
  z ← bsize s (At pxBlock);
  if heapMINIMUM_BLOCK_SIZE <? u32 (z - xWantedSize) then
    let pxNewBlockLink := u32 (pxBlock + xWantedSize) in
    s ← set_size (At pxNewBlockLink) (u32 (z - xWantedSize)) s;
    s ← set_size (At pxBlock) xWantedSize s;
    prvInsertBlockIntoFreeList pxNewBlockLink s
  else Some s.

(** The counters, and the header that says the application owns the block *)
Definition mark_allocated (pxBlock : Z) (s : heap) : option heap :=
  z ← bsize s (At pxBlock);
  let f := u32 (xFreeBytesRemaining s - z) in
  let m := xMinimumEverFreeBytesRemaining s in
  let s := set_bytes f (if f <? m then f else m) s in
  s ← set_size (At pxBlock) (Z.lor z (xBlockAllocatedBit s)) s;
  set_next (At pxBlock) 0 s.

Definition pvPortMalloc (xWantedSize : Z) (s : heap) : option (Z * heap) :=
  s ← (if pxEnd s =? 0 then prvHeapInit s else Some s);
  if Z.land xWantedSize (xBlockAllocatedBit s) =? 0 then
    let xWantedSize := wanted xWantedSize in
    if (0 <? xWantedSize) && (xWantedSize <=? xFreeBytesRemaining s) then
      n ← next s Start;
      '(pxPreviousBlock, pxBlock) ← search fuel xWantedSize Start n s;
      if negb (pxBlock =? pxEnd s) then
        r ← next s pxPreviousBlock;
        let pvReturn := u32 (r + xHeapStructSize) in
        n ← next s (At pxBlock);
        s ← set_next pxPreviousBlock n s;
        s ← split_block pxBlock xWantedSize s;
        s ← mark_allocated pxBlock s;
        Some (pvReturn, s)
      else Some (0, s)
    else Some (0, s)
  else Some (0, s).

Definition vPortFree (pv : Z) (s : heap) : option heap :=
  if negb (pv =? 0) then
    let pxLink := u32 (pv - xHeapStructSize) in
    z ← bsize s (At pxLink);
    if negb (Z.land z (xBlockAllocatedBit s) =? 0) then
      n ← next s (At pxLink);
      if n =? 0 then
        s ← set_size (At pxLink) (Z.land z (u32 (Z.lnot (xBlockAllocatedBit s)))) s;
        z ← bsize s (At pxLink);
        let s := set_bytes (u32 (xFreeBytesRemaining s + z)) (xMinimumEverFreeBytesRemaining s) s in
        prvInsertBlockIntoFreeList pxLink s
      else Some s
    else Some s
  else Some s.

Definition xPortGetFreeHeapSize (s : heap) : Z := xFreeBytesRemaining s.
Definition xPortGetMinimumEverFreeHeapSize (s : heap) : Z := xMinimumEverFreeBytesRemaining s.

(** The heap at reset: the array is zero, like the variables. *)
Definition aligned (a : Z) : bool := a mod 8 =? 0.
Definition slots : list Z := filter (λ a, aligned a = true) (seqZ ucHeap (configTOTAL_HEAP_SIZE - 7)).
Definition reset : heap :=
  Heap (<[Start := Hdr 0 0]> (list_to_map ((λ a, (At a, Hdr 0 0)) <$> slots))) 0 0 0 0.

(** An application writes to memory. *)
Definition scribble (a n z : Z) (s : heap) : option heap := set_hdr (At a) (λ _, Hdr n z) s.

(** ** Specification *)

Inductive status := Used | Free.
#[export] Instance status_eq_dec : EqDecision status.
Proof. solve_decision. Defined.
Record tile := Tile { ad : Z; sz : Z; st : status }.
#[export] Instance tile_eq_dec : EqDecision tile.
Proof. solve_decision. Defined.

Definition base : Z := ucHeap + (- ucHeap) mod 8.
Definition top : Z := ucHeap + configTOTAL_HEAP_SIZE - 8 - (ucHeap + configTOTAL_HEAP_SIZE) mod 8.
Definition is_free (t : tile) : bool := bool_decide (st t = Free).

(** A block and the blocks behind it, joined when both are free *)
Definition join (t : tile) (us : list tile) : list tile :=
  match us with
  | u :: us' => if is_free t && is_free u then Tile (ad t) (sz t + sz u) Free :: us' else t :: us
  | [] => [t]
  end.
Definition coalesce : list tile → list tile := foldr join [].
Definition free_bytes (ts : list tile) : Z := foldr (λ t n, (if is_free t then sz t else 0) + n) 0 ts.

(** The bytes a request takes: the header, then rounded up to the alignment *)
Definition need (n : Z) : Z := (n + 8 + 7) / 8 * 8.

(** The first free block of [w] bytes or more, split when more than 16 bytes are left *)
Fixpoint first_fit (w : Z) (ts : list tile) : option (Z * list tile) :=
  match ts with
  | [] => None
  | t :: ts =>
      if is_free t && (w <=? sz t)
      then Some (ad t + 8, if 16 <? sz t - w then Tile (ad t) w Used :: Tile (ad t + w) (sz t - w) Free :: ts
                           else Tile (ad t) (sz t) Used :: ts)
      else '(p, us) ← first_fit w ts; Some (p, t :: us)
  end.

Fixpoint mark_free (a : Z) (ts : list tile) : list tile :=
  match ts with
  | [] => []
  | t :: ts => if ad t =? a then Tile (ad t) (sz t) Free :: ts else t :: mark_free a ts
  end.

Record astate := Abs { tiles : list tile; low : Z }.

Inductive op := OMalloc (n : Z) | OFree (p : Z) | OFreeSize | OMinimum | OScribble (a n z : Z).

Definition owner_of (a : Z) (ts : list tile) : bool :=
  existsb (λ t, negb (is_free t) && (ad t + 8 <=? a) && (a + 8 <=? ad t + sz t)) ts.
Definition starts (a : Z) (ts : list tile) : bool := existsb (λ t, ad t =? a) ts.

(** [None] stands for a call outside the contract: a pointer that is not the start of
    a block, or a write outside the blocks the application owns. *)
Definition astep (o : op) (A : astate) : option (Z * astate) :=
  match o with
  | OMalloc n =>
      if (n <? 0) || (2 ^ 32 <=? n) then None
      else if (n =? 0) || (2 ^ 31 <=? n) then Some (0, A)
      else match first_fit (need n) (tiles A) with
           | Some (p, ts) => Some (p, Abs ts (low A `min` free_bytes ts))
           | None => Some (0, A)
           end
  | OFree p =>
      if p =? 0 then Some (0, A)
      else if starts (p - 8) (tiles A) then Some (0, Abs (coalesce (mark_free (p - 8) (tiles A))) (low A)) else None
  | OFreeSize => Some (free_bytes (tiles A), A)
  | OMinimum => Some (low A, A)
  | OScribble a n z => if owner_of a (tiles A) && aligned a then Some (0, A) else None
  end.

Definition cstep (o : op) (s : heap) : option (Z * heap) :=
  match o with
  | OMalloc n => pvPortMalloc n s
  | OFree p => s ← vPortFree p s; Some (0, s)
  | OFreeSize => Some (xPortGetFreeHeapSize s, s)
  | OMinimum => Some (xPortGetMinimumEverFreeHeapSize s, s)
  | OScribble a n z => s ← scribble a n z s; Some (0, s)
  end.

Fixpoint cruns (os : list op) (s : heap) : option (list Z * heap) :=
  match os with
  | [] => Some ([], s)
  | o :: os => '(r, s) ← cstep o s; '(rs, s) ← cruns os s; Some (r :: rs, s)
  end.
Fixpoint aruns (os : list op) (A : astate) : option (list Z * astate) :=
  match os with
  | [] => Some ([], A)
  | o :: os => '(r, A) ← astep o A; '(rs, A) ← aruns os A; Some (r :: rs, A)
  end.
Definition initial : astate := Abs [Tile base (top - base) Free] (top - base).

(** An application and its blocks: the pointers it was given and has not freed, with
    the sizes it asked for.  It frees its own blocks and writes into them. *)
Definition allowed (o : op) (live : gmap Z Z) : Prop :=
  match o with
  | OMalloc n => 0 ≤ n < 2 ^ 32
  | OFree p => p = 0 ∨ is_Some (live !! p)
  | OScribble a _ _ => aligned a = true ∧ ∃ p n, live !! p = Some n ∧ p ≤ a ∧ a + 8 ≤ p + n
  | _ => True
  end.
Definition record (o : op) (r : Z) (live : gmap Z Z) : gmap Z Z :=
  match o with
  | OMalloc n => if r =? 0 then live else <[r := n]> live
  | OFree p => delete p live
  | _ => live
  end.
Inductive reach : heap → gmap Z Z → Prop :=
| reach_reset : reach reset ∅
| reach_step o s live r s' : reach s live → allowed o live → cstep o s = Some (r, s') → reach s' (record o r live).

(** ** The free list in memory *)

Record same (s s' : heap) : Prop := {
  same_dom : dom (hdr s') = dom (hdr s);
  same_end : pxEnd s' = pxEnd s;
  same_free : xFreeBytesRemaining s' = xFreeBytesRemaining s;
  same_min : xMinimumEverFreeBytesRemaining s' = xMinimumEverFreeBytesRemaining s;
  same_bit : xBlockAllocatedBit s' = xBlockAllocatedBit s
}.

Lemma heap_same_refl s : same s s.
Proof. by split. Qed.
Lemma same_trans s1 s2 s3 : same s1 s2 → same s2 s3 → same s1 s3.
Proof. intros [] []. split; congruence. Qed.

Lemma set_hdr_ok p f s : p ∈ dom (hdr s) →
  ∃ s' b, set_hdr p f s = Some s' ∧ same s s' ∧ hdr s !! p = Some b ∧ hdr s' = <[p := f b]> (hdr s).
Proof.
  intros [b Hb]%elem_of_dom. unfold set_hdr. rewrite Hb. cbn. eexists _, b. split_and!; [done| |done|done].
  split; cbn; [|done..]. rewrite dom_insert_L. assert (p ∈ dom (hdr s)) by (apply elem_of_dom; eauto). set_solver.
Qed.

Lemma set_next_ok p n s : p ∈ dom (hdr s) →
  ∃ s', set_next p n s = Some s' ∧ same s s' ∧ (∀ r, bsize s' r = bsize s r) ∧
    (∀ r, next s' r = if decide (r = p) then Some n else next s r).
Proof.
  intros Hp. destruct (set_hdr_ok p (λ b, Hdr n (xBlockSize b)) s Hp) as (s' & b & Hs & Hsame & Hb & Hh).
  exists s'. split_and!; [done|done| |]; intros r; unfold bsize, next; rewrite Hh.
  - destruct (decide (r = p)) as [-> |]; [by rewrite lookup_insert_eq, Hb|by rewrite lookup_insert_ne].
  - case_decide; [subst; by rewrite lookup_insert_eq|by rewrite lookup_insert_ne].
Qed.

Lemma set_size_ok p z s : p ∈ dom (hdr s) →
  ∃ s', set_size p z s = Some s' ∧ same s s' ∧ (∀ r, next s' r = next s r) ∧
    (∀ r, bsize s' r = if decide (r = p) then Some z else bsize s r).
Proof.
  intros Hp. destruct (set_hdr_ok p (λ b, Hdr (pxNextFreeBlock b) z) s Hp) as (s' & b & Hs & Hsame & Hb & Hh).
  exists s'. split_and!; [done|done| |]; intros r; unfold bsize, next; rewrite Hh.
  - destruct (decide (r = p)) as [-> |]; [by rewrite lookup_insert_eq, Hb|by rewrite lookup_insert_ne].
  - case_decide; [subst; by rewrite lookup_insert_eq|by rewrite lookup_insert_ne].
Qed.

Lemma dom_bsize s p z : bsize s p = Some z → p ∈ dom (hdr s).
Proof. unfold bsize. destruct (hdr s !! p) eqn:E; [intros; apply elem_of_dom; eauto|done]. Qed.
Lemma dom_next s p z : next s p = Some z → p ∈ dom (hdr s).
Proof. unfold next. destruct (hdr s !! p) eqn:E; [intros; apply elem_of_dom; eauto|done]. Qed.

(** A chain of blocks from [p], at the addresses of the list *)
Fixpoint links (s : heap) (p : place) (l : list Z) : Prop :=
  match l with [] => True | a :: l => next s p = Some a ∧ links s (At a) l end.
Definition endp (p : place) (l : list Z) : place := foldl (λ _ a, At a) p l.

Lemma links_app s l : ∀ p k, links s p (l ++ k) ↔ links s p l ∧ links s (endp p l) k.
Proof. induction l as [|a l IH]; cbn; intros; [tauto|]. rewrite IH. unfold endp. cbn. tauto. Qed.

Lemma endp_snoc p l a : endp p (l ++ [a]) = At a.
Proof. unfold endp. by rewrite foldl_app. Qed.

Lemma endp_cases l : ∀ p, endp p l = p ∨ ∃ a, a ∈ l ∧ endp p l = At a.
Proof.
  induction l as [|a l _] using rev_ind; intros p; [by left|]. right. exists a. rewrite endp_snoc. set_solver.
Qed.

Lemma heap_links_frame s s' l : ∀ p,
  (∀ r, r = p ∨ (∃ a, a ∈ l ∧ r = At a) → next s' r = next s r) → links s p l → links s' p l.
Proof.
  induction l as [|a l IH]; cbn; intros p Heq; [done|]. intros [Hn Hl]. split; [by rewrite Heq; auto|].
  apply IH; [|done]. intros r [-> |(b & ? & ->)]; apply Heq; right; eexists; (split; [|done]); set_solver.
Qed.

(** The link out of the last block of a chain is not part of the chain. *)
Lemma links_last s s' l : ∀ p, NoDup ((At <$> l)) → p ∉ At <$> l →
  (∀ r, r ≠ endp p l → r = p ∨ r ∈ At <$> l → next s' r = next s r) → links s p l → links s' p l.
Proof.
  induction l as [|a l IH]; intros p Hnd Hp Heq; [done|]. intros [Hn Hl].
  apply NoDup_cons in Hnd as [Ha Hnd]. split.
  - rewrite Heq; [done| |by left]. change (p ≠ endp (At a) l).
    destruct (endp_cases l (At a)) as [-> |(b & Hb & ->)]; intros ->; apply Hp; cbn; [set_solver|].
    right. apply list_elem_of_fmap. eauto.
  - fold (links s'). apply IH; [done|done| |done]. intros r Hr Hin. apply Heq; [done|]. right. set_solver.
Qed.

Lemma iterate_ok s x c C : ∀ A fuel p, links s p (A ++ c :: C) → Forall (λ a, a < x) A → x ≤ c →
  (length A < fuel)%nat → iterate fuel x p s = Some (endp p A).
Proof.
  induction A as [|a A IH]; intros [|fuel] p; cbn; intros Hl HA Hx Hf; try lia.
  - destruct Hl as [-> _]. cbn. by rewrite (proj2 (Z.ltb_ge c x)) by lia.
  - destruct Hl as [-> Hl]. cbn. apply Forall_cons in HA as [Ha HA].
    rewrite (proj2 (Z.ltb_lt a x)) by lia. apply IH; [done|done|done|lia].
Qed.

(** ** Divisions of the heap *)

Fixpoint tiled (a : Z) (ts : list tile) (e : Z) : Prop :=
  match ts with
  | [] => a = e
  | t :: ts => ad t = a ∧ 16 ≤ sz t ∧ sz t mod 8 = 0 ∧ tiled (a + sz t) ts e
  end.
Fixpoint frees (ts : list tile) : list Z :=
  match ts with [] => [] | t :: ts => if is_free t then ad t :: frees ts else frees ts end.
Fixpoint coalesced (ts : list tile) : Prop :=
  match ts with
  | t :: ts' => match ts' with u :: _ => is_free t && is_free u = false | [] => True end ∧ coalesced ts'
  | [] => True
  end.

Lemma tiled_app ts us : ∀ a e, tiled a (ts ++ us) e ↔ ∃ m, tiled a ts m ∧ tiled m us e.
Proof.
  induction ts as [|t ts IH]; cbn; intros a e.
  - split; [eauto|]. by intros (m & -> & ?).
  - rewrite IH. split; [intros (? & ? & ? & m & ? & ?)|intros (m & (? & ? & ? & ?) & ?)]; eauto 10.
Qed.

Lemma tiled_le ts : ∀ a e, tiled a ts e → a + 16 * Z.of_nat (length ts) ≤ e.
Proof. induction ts as [|t ts IH]; cbn -[Z.mul]; intros a e; [lia|]. intros (? & ? & ? & H%IH). lia. Qed.

Lemma tiled_in ts t : ∀ a e, tiled a ts e → t ∈ ts → a ≤ ad t ∧ ad t + sz t ≤ e ∧ 16 ≤ sz t ∧ sz t mod 8 = 0.
Proof.
  induction ts as [|u ts IH]; cbn; intros a e; [by intros _ ?%not_elem_of_nil|].
  intros (Ha & H16 & H8 & Ht) [-> |Hin]%elem_of_cons.
  - pose proof (tiled_le _ _ _ Ht). lia.
  - destruct (IH _ _ Ht Hin) as (? & ? & ? & ?). lia.
Qed.

Lemma frees_app ts us : frees (ts ++ us) = frees ts ++ frees us.
Proof. induction ts as [|t ts IH]; cbn; [done|]. rewrite IH. by destruct (is_free t). Qed.

Lemma elem_of_frees ts a : a ∈ frees ts ↔ ∃ t, t ∈ ts ∧ is_free t = true ∧ ad t = a.
Proof.
  induction ts as [|t ts IH]; cbn.
  - split; [by intros ?%not_elem_of_nil|]. intros (? & ?%not_elem_of_nil & _). done.
  - destruct (is_free t) eqn:E; [rewrite elem_of_cons|]; rewrite IH; split.
    + intros [-> |(u & ? & ? & ?)]; [exists t|exists u]; set_solver.
    + intros (u & [-> |?]%elem_of_cons & ? & ?); [by left|right; eauto].
    + intros (u & ? & ? & ?); exists u; set_solver.
    + intros (u & [-> |?]%elem_of_cons & ? & ?); [congruence|eauto].
Qed.

Lemma frees_length ts : (length (frees ts) ≤ length ts)%nat.
Proof. induction ts as [|t ts IH]; cbn; [lia|]. destruct (is_free t); cbn; lia. Qed.

Lemma tiled_NoDup ts : ∀ a e, tiled a ts e → NoDup (frees ts).
Proof.
  induction ts as [|t ts IH]; cbn; intros a e; [by constructor|]. intros (Ha & ? & ? & Ht).
  destruct (is_free t); [|by eapply IH]. apply NoDup_cons. split; [|by eapply IH].
  intros (u & Hu & _ & Hau)%elem_of_frees. pose proof (tiled_in _ _ _ _ Ht Hu). lia.
Qed.

(** The free list behind an address starts at it just when a free block does. *)
Lemma frees_head ts a e : tiled a ts e →
  ∃ c C, frees ts ++ [e] = c :: C ∧ a ≤ c ∧
    (a = c → ts = [] ∧ c = e ∨ ∃ g us, ts = g :: us ∧ is_free g = true ∧ ad g = c ∧ C = frees us ++ [e]) ∧
    (match ts with g :: _ => is_free g = true | [] => True end → a = c).
Proof.
  destruct ts as [|t ts]; cbn; [intros ->; exists e, []; split_and!; [done|lia|by left|done]|].
  intros (Ha & H16 & H8 & Ht). destruct (is_free t) eqn:E.
  - exists (ad t), (frees ts ++ [e]). split_and!; [done|lia| |done]. intros; right. by exists t, ts.
  - pose proof (tiled_le _ _ _ Ht).
    destruct (frees ts ++ [e]) as [|c C] eqn:Ec; [by destruct (frees ts)|].
    assert (a + sz t ≤ c).
    { assert (c ∈ frees ts ++ [e]) as Hc by (rewrite Ec; set_solver).
      apply elem_of_app in Hc as [(u & Hu & _ & <-)%elem_of_frees| ->%list_elem_of_singleton]; [|lia].
      pose proof (tiled_in _ _ _ _ Ht Hu). lia. }
    exists c, C. split_and!; [done|lia|lia|done].
Qed.

Definition last_free (ts : list tile) : bool := match last ts with Some f => is_free f | None => false end.

Lemma last_free_false ts a m : tiled a ts m → last_free ts = false →
  match endp Start (frees ts) with
  | Start => True
  | At b => ∃ t, t ∈ ts ∧ is_free t = true ∧ ad t = b ∧ ad t + sz t < m
  end.
Proof.
  intros Ht Hl. destruct ts as [|f ts _] using rev_ind; [done|].
  unfold last_free in Hl. rewrite last_snoc in Hl. rewrite frees_app. cbn. rewrite Hl, app_nil_r.
  destruct (endp_cases (frees ts) Start) as [-> |(b & (t & Hin & Hf & <-)%elem_of_frees & ->)]; [done|].
  exists t. split_and!; [set_solver|done|done|].
  apply tiled_app in Ht as (k & Ht & Hk). cbn in Hk. pose proof (tiled_in _ _ _ _ Ht Hin). lia.
Qed.

(** ** Inserting a block *)

Hypothesis heap_in_memory : 0 < ucHeap ∧ ucHeap + configTOTAL_HEAP_SIZE ≤ 2 ^ 32.

Lemma base_top : 8 ≤ base ∧ base mod 8 = 0 ∧ top mod 8 = 0 ∧ base + 20464 ≤ top + 8 ∧ top + 8 ≤ ucHeap + 20480 ∧
  ucHeap ≤ base ∧ top + 8 ≤ 2 ^ 32.
Proof using heap_in_memory.
  unfold base, top, configTOTAL_HEAP_SIZE in *. change (2 ^ 32) with 4294967296 in *.
  Z.to_euclidean_division_equations. lia.
Qed.

Definition fcells (s : heap) (ts : list tile) : Prop :=
  ∀ t, t ∈ ts → is_free t = true → bsize s (At (ad t)) = Some (sz t).

Lemma fcells_sub s ts us : (∀ t, t ∈ us → t ∈ ts) → fcells s ts → fcells s us.
Proof. intros Hs H t Ht. by apply H, Hs. Qed.

Lemma fcells_frame s s' ts :
  (∀ t, t ∈ ts → is_free t = true → bsize s' (At (ad t)) = bsize s (At (ad t))) → fcells s ts → fcells s' ts.
Proof. intros Heq H t Ht Hf. rewrite Heq by done. by apply H. Qed.

Lemma join_behind_ok s p b z m bs2 c C : pxEnd s = top →
  bsize s (At b) = Some z → next s p = Some c → fcells s bs2 → b + z = m → tiled m bs2 top →
  frees bs2 ++ [top] = c :: C → links s (At c) C → 0 ≤ b → 16 ≤ z → z mod 8 = 0 →
  ∃ s' z' us n C', join_behind p (At b) s = Some s' ∧ same s s' ∧
    (∀ r, next s' r = if decide (r = At b) then Some n else next s r) ∧
    (∀ r, bsize s' r = if decide (r = At b) then Some z' else bsize s r) ∧
    join (Tile b z Free) bs2 = Tile b z' Free :: us ∧ frees us ++ [top] = n :: C' ∧ links s (At n) C' ∧
    (∀ t, t ∈ us → t ∈ bs2) ∧ tiled (b + z') us top ∧ z ≤ z' ∧ z' mod 8 = 0.
Proof using heap_in_memory.
  intros Hend Hz Hp Hf Hm Ht Hc Hl Hb H16 H8. pose proof base_top as Htop.
  pose proof (tiled_le _ _ _ Ht) as Hle.
  destruct (frees_head _ _ _ Ht) as (c' & C0 & Hc' & Hmc & Heq & Heq'). rewrite Hc in Hc'. simplify_eq.
  unfold join_behind. rewrite Hz, Hp. cbn [mbind option_bind]. unfold ends_at.
  rewrite (uwrap_id 32 (b + z)) by (unfold fits_u; lia).
  assert (is_Some (hdr s !! At b)) as Hdom by (apply elem_of_dom; by eapply dom_bsize).
  destruct (b + z =? c') eqn:E; zbool.
  - destruct (Heq E) as [(-> & ->)|(g & us & -> & Hg & Hgc & ->)].
    + rewrite Hend, Z.eqb_refl. cbn [negb].
      destruct (set_next_ok (At b) top s) as (s' & -> & Hsame & Hb' & Hn'); [by apply elem_of_dom|].
      cbn in Hc. simplify_eq. exists s', z, [], top, []. split_and!; try done; try lia.
      intros r. rewrite Hb'. case_decide; [by subst|done].
    + cbn in Ht. destruct Ht as (_ & Hg16 & Hg8 & Ht). pose proof (tiled_le _ _ _ Ht).
      rewrite Hend, (proj2 (Z.eqb_neq c' top)) by lia. cbn [negb].
      assert (bsize s (At c') = Some (sz g)) as -> by (rewrite <- Hgc; apply Hf; [set_solver|done]).
      cbn [mbind option_bind].
      destruct (set_size_ok (At b) (u32 (z + sz g)) s) as (s1 & -> & Hs1 & Hn1 & Hz1); [by apply elem_of_dom|].
      cbn [mbind option_bind]. rewrite !Hn1, Hp. cbn [mbind option_bind]. rewrite Hn1.
      destruct (frees us ++ [top]) as [|n C'] eqn:EC; [by destruct (frees us)|]. destruct Hl as [Hcn Hl].
      rewrite Hcn. cbn [mbind option_bind].
      destruct (set_next_ok (At b) n s1) as (s' & -> & Hsame & Hb' & Hn').
      { rewrite (same_dom _ _ Hs1). by apply elem_of_dom. }
      rewrite (uwrap_id 32 (z + sz g)) in Hz1 by (unfold fits_u; lia).
      exists s', (z + sz g), us, n, C'. split_and!; try done; try lia.
      * by eapply same_trans.
      * intros r. by rewrite Hn', Hn1.
      * intros r. by rewrite Hb', Hz1.
      * cbn. by rewrite Hg.
      * set_solver.
      * by replace (b + (z + sz g)) with (b + z + sz g) by lia.
      * rewrite Z.add_mod, H8, Hg8 by lia. done.
  - destruct (set_next_ok (At b) c' s) as (s' & -> & Hsame & Hb' & Hn'); [by apply elem_of_dom|].
    exists s', z, bs2, c', C0. split_and!; try done; try lia.
    + intros r. rewrite Hb'. case_decide; [by subst|done].
    + destruct bs2 as [|g us]; [done|]. cbn. destruct (is_free g) eqn:Eg; [|done]. exfalso. by apply E, Heq'.
Qed.

Lemma join_used t us : is_free t = false → join t us = t :: us.
Proof. intros H. destruct us; cbn; [done|]. by rewrite H. Qed.

Lemma foldr_join pre f us : coalesced (pre ++ [f]) → foldr join us (pre ++ [f]) = pre ++ join f us.
Proof.
  rewrite foldr_app. cbn [foldr]. induction pre as [|x pre IH]; [done|]. intros [Hx Hc]. cbn [foldr].
  fold coalesced in Hc. change ((x :: pre) ++ join f us) with (x :: (pre ++ join f us)). fold (app pre [f]) in Hx.
  rewrite (IH Hc). destruct pre as [|y pre]; cbn in Hx |- *.
  - destruct us as [|u us]; cbn; [by rewrite Hx|]. destruct (is_free f && is_free u) eqn:E; cbn.
    + apply andb_prop in E as [Ef _]. rewrite Ef, andb_true_r in Hx. by rewrite Hx.
    + by rewrite Hx.
  - by rewrite Hx.
Qed.

Lemma foldr_join_used bs us : coalesced bs → last_free bs = false → foldr join us bs = bs ++ us.
Proof.
  intros Hc Hl. destruct bs as [|f pre _] using rev_ind; [done|].
  rewrite foldr_join by done. unfold last_free in Hl. rewrite last_snoc in Hl.
  by rewrite join_used, <- app_assoc.
Qed.

Lemma last_free_true bs : last_free bs = true → ∃ pre f, bs = pre ++ [f] ∧ is_free f = true.
Proof.
  destruct bs as [|f pre _] using rev_ind; [done|]. unfold last_free. rewrite last_snoc. eauto.
Qed.

(** The list is sound and its blocks carry their sizes. *)
Record flist (s : heap) (ts : list tile) : Prop := {
  fl_cells : fcells s ts;
  fl_links : links s Start (frees ts ++ [top])
}.

(** Everything else keeps its header. *)
Definition elsewhere (s s' : heap) (ts : list tile) (b : Z) : Prop :=
  ∀ r, r ≠ Start → r ≠ At b → r ∉ At <$> frees ts → next s' r = next s r ∧ bsize s' r = bsize s r.

Lemma links_relink s s' l n C b : ∀ p, links s p l → endp p l ≠ At b → At b ∉ p :: (At <$> l) →
  NoDup (p :: (At <$> l)) → links s (At n) C → b ∉ n :: C → endp p l ∉ At <$> n :: C →
  (∀ r, next s' r = if decide (r = endp p l) then Some b else if decide (r = At b) then Some n else next s r) →
  links s' p (l ++ b :: n :: C).
Proof.
  intros p Hl Hne Hb [Hp Hnd]%NoDup_cons HC HbC He Hn. apply links_app. split; [|split; [|split]].
  - eapply links_last; [done|done| |done]. intros r Hr Hin. rewrite Hn, decide_False by done.
    rewrite decide_False; [done|]. intros ->. apply Hb. set_solver.
  - by rewrite Hn, decide_True.
  - rewrite Hn, decide_False, decide_True by congruence. done.
  - eapply heap_links_frame; [|done]. intros r Hr. assert (r ∈ At <$> n :: C) as Hin.
    { cbn. destruct Hr as [-> |(x & ? & ->)]; [set_solver|]. right. by apply list_elem_of_fmap_2. }
    rewrite Hn, !decide_False; [done| |by intros ->].
    intros ->. apply list_elem_of_fmap in Hin as (x & ? & Hx). naive_solver.
Qed.

Lemma links_behind s s' l n C b : ∀ p, links s p (l ++ [b]) → At b ∉ p :: (At <$> l) →
  NoDup (p :: (At <$> l)) → links s (At n) C → b ∉ n :: C →
  (∀ r, next s' r = if decide (r = At b) then Some n else next s r) →
  links s' p (l ++ b :: n :: C).
Proof.
  intros p Hl Hb [Hp Hnd]%NoDup_cons HC HbC Hn. 
  change (l ++ b :: n :: C) with (l ++ [b] ++ n :: C). rewrite app_assoc. apply links_app.
  rewrite endp_snoc. split; [|split].
  - eapply links_last; [| | |done].
    + rewrite fmap_app. apply NoDup_app. split_and!; [done| |apply NoDup_singleton]. set_solver.
    + rewrite fmap_app. set_solver.
    + intros r Hr _. rewrite endp_snoc in Hr. by rewrite Hn, decide_False.
  - by rewrite Hn, decide_True.
  - eapply heap_links_frame; [|done]. intros r Hr. rewrite Hn, decide_False; [done|].
    intros ->. apply HbC. destruct Hr as [|(x & ? & ?)]; set_solver.
Qed.

Lemma frees_bounds ts a e x : tiled a ts e → x ∈ frees ts → a ≤ x ∧ x < e.
Proof. intros Ht (t & Hin & _ & <-)%elem_of_frees. pose proof (tiled_in _ _ _ _ Ht Hin). lia. Qed.

Lemma At_elem (l : list Z) a : At a ∈ At <$> l ↔ a ∈ l.
Proof. split; [intros (x & ? & ?)%list_elem_of_fmap; naive_solver|by apply list_elem_of_fmap_2]. Qed.

Lemma Start_elem (l : list Z) : Start ∉ At <$> l.
Proof. by intros (x & ? & ?)%list_elem_of_fmap. Qed.

Lemma NoDup_places ts a e : tiled a ts e → NoDup (Start :: (At <$> frees ts)).
Proof.
  intros Ht. apply NoDup_cons. split; [apply Start_elem|].
  apply NoDup_fmap_2; [by intros ?? [= ->]|]. by eapply tiled_NoDup.
Qed.

Lemma join_join f b z bs : is_free f = true →
  join f (join (Tile b z Free) bs) = join (Tile (ad f) (sz f + z) Free) bs.
Proof.
  intros Hf. destruct bs as [|u bs]; [cbn [join]; by rewrite Hf|].
  unfold join at 2. change (is_free (Tile b z Free)) with true. cbn [andb].
  destruct (is_free u) eqn:Eu; unfold join; rewrite Hf; cbn; rewrite ?Eu; cbn; [by rewrite Z.add_assoc|done].
Qed.

(** After the iterator is found, the block in front being free *)
Lemma insert_joined s pre f b bs2 c C : pxEnd s = top →
  tiled base pre (ad f) → is_free f = true → 16 ≤ sz f → sz f mod 8 = 0 → ad f + sz f = ad b →
  16 ≤ sz b → sz b mod 8 = 0 → tiled (ad b + sz b) bs2 top → fcells s ((pre ++ [f]) ++ bs2) →
  frees bs2 ++ [top] = c :: C → links s Start ((frees pre ++ [ad f]) ++ c :: C) → bsize s (At (ad b)) = Some (sz b) →
  ∃ s' s1, join_before (At (ad f)) (ad b) s = Some (At (ad f), s1) ∧ join_behind (At (ad f)) (At (ad f)) s1 = Some s' ∧
    same s s' ∧ flist s' (pre ++ join f (join (Tile (ad b) (sz b) Free) bs2)) ∧
    elsewhere s s' ((pre ++ [f]) ++ bs2) (ad b).
Proof using heap_in_memory.
  intros Hend Htp Hff Hf16 Hf8 Hfb H16 H8 Ht2 Hf Hc Hl Hb. pose proof base_top as Htop.
  pose proof (tiled_le _ _ _ Htp). pose proof (tiled_le _ _ _ Ht2).
  assert (bsize s (At (ad f)) = Some (sz f)) as Hfz by (apply Hf; [set_solver|done]).
  apply links_app in Hl as [Hl1 Hl2]. rewrite endp_snoc in Hl2. destruct Hl2 as [Hfc Hl2].
  unfold join_before. rewrite Hfz. cbn [mbind option_bind ends_at].
  rewrite (uwrap_id 32 (ad f + sz f)) by (unfold fits_u; lia). rewrite Hfb, Z.eqb_refl, Hb. cbn [mbind option_bind].
  destruct (set_size_ok (At (ad f)) (u32 (sz f + sz b)) s) as (s1 & -> & Hs1 & Hn1 & Hz1); [by eapply dom_bsize|].
  rewrite (uwrap_id 32 (sz f + sz b)) in Hz1 by (unfold fits_u; lia). cbn [mbind option_bind].
  assert (∀ t, t ∈ bs2 → ad f < ad t) as Hgt by (intros t Ht; pose proof (tiled_in _ _ _ _ Ht2 Ht); lia).
  assert (links s1 (At c) C) as Hl3 by (eapply heap_links_frame; [|done]; intros; apply Hn1).
  destruct (join_behind_ok s1 (At (ad f)) (ad f) (sz f + sz b) (ad b + sz b) bs2 c C)
    as (s' & z' & us & n & C' & Hj & Hs' & Hn' & Hz' & Hjoin & Hfree & HlC & Hsub & Htu & Hzz & Hz8);
    try first [done|lia|by rewrite (same_end _ _ Hs1)|by rewrite Hn1].
  { by rewrite Hz1, decide_True. }
  { eapply fcells_frame; [|eapply fcells_sub; [|exact Hf]; set_solver].
    intros t Ht _. rewrite Hz1, decide_False; [done|]. intros [= Heq]. specialize (Hgt t Ht). lia. }
  { rewrite Z.add_mod, Hf8, H8 by lia. done. }
  assert (∀ x, x ∈ n :: C' → ad f < x) as HnC.
  { intros x. rewrite <- Hfree. intros [Hx| ->%list_elem_of_singleton]%elem_of_app; [|lia].
    pose proof (frees_bounds _ _ _ _ Htu Hx). lia. }
  assert (∀ x, x ∈ frees pre → x < ad f) as Hpre by (intros x Hx; pose proof (frees_bounds _ _ _ _ Htp Hx); lia).
  exists s', s1. split_and!; [done|done|by eapply same_trans| |].
  - rewrite join_join, Hjoin by done. split.
    + intros t Ht Hft. rewrite Hz'. apply elem_of_app in Ht as [Ht|[-> |Ht]%elem_of_cons].
      * rewrite decide_False, Hz1, decide_False; [apply Hf; [set_solver|done]| |];
          intros [= Heq]; pose proof (tiled_in _ _ _ _ Htp Ht); lia.
      * by rewrite decide_True.
      * rewrite decide_False, Hz1, decide_False; [apply Hf; [set_solver|done]| |];
          intros [= Heq]; specialize (Hgt t (Hsub t Ht)); lia.
    + rewrite frees_app, <- app_assoc. change (frees (Tile (ad f) z' Free :: us)) with (ad f :: frees us).
      rewrite <- app_comm_cons, Hfree.
      eapply (links_behind s1); [| |by eapply NoDup_places|done| |done].
      * eapply heap_links_frame; [|exact Hl1]. intros; apply Hn1.
      * rewrite elem_of_cons, At_elem. intros [|Hx]; [done|]. specialize (Hpre _ Hx). lia.
      * intros Hx. specialize (HnC _ Hx). lia.
  - intros r Hr _ Hnin. rewrite Hn', Hz', !decide_False, Hn1, Hz1, decide_False; [done| | |];
      intros ->; apply Hnin, At_elem; rewrite !frees_app; cbn; rewrite Hff; set_solver.
Qed.

(** The block in front being used, or none *)
Lemma insert_apart s bs1 b bs2 c C : let p := endp Start (frees bs1) in
  pxEnd s = top → tiled base bs1 (ad b) → last_free bs1 = false → 16 ≤ sz b → sz b mod 8 = 0 →
  tiled (ad b + sz b) bs2 top → fcells s (bs1 ++ bs2) → frees bs2 ++ [top] = c :: C →
  links s Start (frees bs1 ++ c :: C) → is_Some (bsize s Start) → bsize s (At (ad b)) = Some (sz b) →
  ∃ s' s1, join_before p (ad b) s = Some (At (ad b), s) ∧ join_behind p (At (ad b)) s = Some s1 ∧
    p ≠ At (ad b) ∧ set_next p (ad b) s1 = Some s' ∧ same s s' ∧
    flist s' (bs1 ++ join (Tile (ad b) (sz b) Free) bs2) ∧ elsewhere s s' (bs1 ++ bs2) (ad b).
Proof using heap_in_memory.
  intros p Hend Ht1 Hlast H16 H8 Ht2 Hf Hc Hl [z0 Hstart] Hb. pose proof base_top as Htop.
  pose proof (tiled_le _ _ _ Ht1). pose proof (tiled_le _ _ _ Ht2).
  pose proof (last_free_false _ _ _ Ht1 Hlast) as Hp. fold p in Hp.
  apply links_app in Hl as (Hl1 & Hpc & Hl2). fold p in Hpc.
  assert (∀ x, x ∈ frees bs1 → x < ad b) as Hpre by (intros x Hx; pose proof (frees_bounds _ _ _ _ Ht1 Hx); lia).
  assert (p = Start ∨ ∃ x, x ∈ frees bs1 ∧ p = At x) as Hp' by apply endp_cases.
  assert (endp Start (frees bs1) = p) as Hpdef by done. clearbody p.
  assert (∀ x, ad b ≤ x → p ≠ At x) as Hpx.
  { intros x ? ->. destruct Hp' as [|(y & Hy%Hpre & [= ->])]; [done|lia]. }
  assert (join_before p (ad b) s = Some (At (ad b), s)) as Hbefore.
  { unfold join_before. destruct p as [|a]; [by rewrite Hstart|].
    destruct Hp as (t & Ht & Hft & <- & Hlt). rewrite (Hf t) by (set_solver || done). cbn.
    pose proof (tiled_in _ _ _ _ Ht1 Ht). rewrite (uwrap_id 32 (ad t + sz t)) by (unfold fits_u; lia).
    by rewrite (proj2 (Z.eqb_neq _ _)) by lia. }
  destruct (join_behind_ok s p (ad b) (sz b) (ad b + sz b) bs2 c C)
    as (s1 & z' & us & n & C' & Hj & Hs1 & Hn1 & Hz1 & Hjoin & Hfree & HlC & Hsub & Htu & Hzz & Hz8); try first [done|lia].
  { eapply fcells_sub; [|exact Hf]; set_solver. }
  assert (p ∈ dom (hdr s1)) as Hdom by (rewrite (same_dom _ _ Hs1); by eapply dom_next).
  destruct (set_next_ok p (ad b) s1 Hdom) as (s' & Hset & Hs' & Hz' & Hn').
  assert (∀ x, x ∈ n :: C' → ad b < x) as HnC.
  { intros x. rewrite <- Hfree. intros [Hx| ->%list_elem_of_singleton]%elem_of_app; [|lia].
    pose proof (frees_bounds _ _ _ _ Htu Hx). lia. }
  exists s', s1. split_and!; [done|done|by apply Hpx|done|by eapply same_trans| |].
  - rewrite Hjoin. split.
    + intros t Ht Hft. rewrite Hz', Hz1. apply elem_of_app in Ht as [Ht|[-> |Ht]%elem_of_cons].
      * rewrite decide_False; [apply Hf; [set_solver|done]|]. intros [= Heq]. pose proof (tiled_in _ _ _ _ Ht1 Ht). lia.
      * by rewrite decide_True.
      * rewrite decide_False; [apply Hf; [set_solver|done]|].
        intros [= Heq]. pose proof (tiled_in _ _ _ _ Htu Ht). lia.
    + rewrite frees_app, <- app_assoc. change (frees (Tile (ad b) z' Free :: us)) with (ad b :: frees us).
      rewrite <- app_comm_cons, Hfree.
      eapply (links_relink s); rewrite ?Hpdef; [done| | |by eapply NoDup_places|done| | |].
      * by apply Hpx.
      * rewrite elem_of_cons, At_elem. intros [|Hx]; [done|]. specialize (Hpre _ Hx). lia.
      * intros Hx. specialize (HnC _ Hx). lia.
      * intros (x & Hx & Hin)%list_elem_of_fmap. apply HnC in Hin. eapply Hpx; [|done]. lia.
      * intros r. by rewrite Hn', Hn1.
  - intros r Hr Hrb Hnin. rewrite Hn', Hz', Hn1, Hz1, !(decide_False (P := r = At (ad b))) by done.
    rewrite decide_False; [done|]. intros ->. destruct Hp' as [-> |(x & Hx & ->)]; [done|].
    apply Hnin, At_elem. rewrite frees_app. set_solver.
Qed.

Lemma insert_ok s bs1 b bs2 : pxEnd s = top → tiled base (bs1 ++ b :: bs2) top → coalesced bs1 →
  fcells s (bs1 ++ bs2) → links s Start (frees bs1 ++ frees bs2 ++ [top]) → is_Some (bsize s Start) →
  bsize s (At (ad b)) = Some (sz b) →
  ∃ s', prvInsertBlockIntoFreeList (ad b) s = Some s' ∧ same s s' ∧
    flist s' (foldr join (join (Tile (ad b) (sz b) Free) bs2) bs1) ∧ elsewhere s s' (bs1 ++ bs2) (ad b).
Proof using heap_in_memory.
  intros Hend Ht Hco Hf Hl [z0 Hstart] Hb. pose proof base_top as Htop.
  apply tiled_app in Ht as (m & Ht1 & Hadb & H16 & H8 & Ht2). fold tiled in Ht2. subst m.
  pose proof (tiled_le _ _ _ Ht1). pose proof (tiled_le _ _ _ Ht2).
  destruct (frees_head _ _ _ Ht2) as (c & C & Hc & Hmc & _).
  rewrite Hc in Hl. apply links_app in Hl as Hl'. destruct Hl' as (Hl1 & Hpc & Hl2).
  unfold prvInsertBlockIntoFreeList.
  rewrite (iterate_ok s (ad b) c C (frees bs1)); [|done| |lia|].
  2:{ apply Forall_forall. intros x Hx. pose proof (frees_bounds _ _ _ _ Ht1 Hx). lia. }
  2:{ pose proof (frees_length bs1). pose proof fuel_size. unfold configTOTAL_HEAP_SIZE in *. lia. }
  cbn [mbind option_bind]. destruct (last_free bs1) eqn:Elast.
  - apply last_free_true in Elast as (pre & f & -> & Hff). rewrite foldr_join by done.
    apply tiled_app in Ht1 as (m & Htp & <- & Hf16 & Hf8 & Hfb). cbn in Hfb.
    assert (frees (pre ++ [f]) = frees pre ++ [ad f]) as Efr by (rewrite frees_app; cbn; by rewrite Hff).
    rewrite Efr in *. rewrite endp_snoc.
    destruct (insert_joined s pre f b bs2 c C) as (s' & s1 & -> & Hj & Hs & Hfl & Hel); [done..|].
    cbn [mbind option_bind]. rewrite Hj. cbn [mbind option_bind]. rewrite decide_True by done. eauto.
  - rewrite foldr_join_used by done.
    destruct (insert_apart s bs1 b bs2 c C) as (s' & s1 & -> & Hj & Hne & Hset & Hs & Hfl & Hel); [done..|].
    cbn [mbind option_bind]. rewrite Hj. cbn [mbind option_bind]. rewrite decide_False by done. eauto.
Qed.

(** ** Joining, splitting and marking blocks *)

Lemma tiled_join t us a e : tiled a (t :: us) e → tiled a (join t us) e.
Proof.
  destruct us as [|u us]; [done|]. unfold join. destruct (is_free t && is_free u); [|done].
  cbn. intros (<- & ? & ? & Hu & ? & ? & ?). split_and!; [done|lia| |by rewrite Z.add_assoc].
  rewrite Z.add_mod by lia. by replace (sz t mod 8) with 0; replace (sz u mod 8) with 0.
Qed.

Lemma tiled_foldr_join us e ts : ∀ a, (∃ m, tiled a ts m ∧ tiled m us e) → tiled a (foldr join us ts) e.
Proof.
  induction ts as [|t ts IH]; intros a (m & Ht & Hu); cbn in Ht |- *; [by subst|].
  destruct Ht as (? & ? & ? & Ht). apply tiled_join. cbn. split_and!; eauto.
Qed.

Lemma join_free_bytes t us : free_bytes (join t us) = free_bytes (t :: us).
Proof.
  destruct us as [|u us]; [done|]. unfold join. destruct (is_free t) eqn:Et; [|done].
  destruct (is_free u) eqn:Eu; [|done]. unfold free_bytes. cbn [foldr andb].
  change (is_free (Tile (ad t) (sz t + sz u) Free)) with true. rewrite Et, Eu. cbn [sz]. lia.
Qed.

Lemma foldr_join_free_bytes us ts : free_bytes (foldr join us ts) = free_bytes (ts ++ us).
Proof. induction ts as [|t ts IH]; [done|]. cbn [foldr]. rewrite join_free_bytes. unfold free_bytes in *. cbn [foldr app]. by rewrite IH. Qed.

Lemma join_elem t us x : x ∈ join t us → is_free x = false → x ∈ t :: us.
Proof.
  destruct us as [|u us]; [done|]. unfold join. destruct (is_free t && is_free u); [|done].
  intros [-> |?]%elem_of_cons; [done|set_solver].
Qed.

Lemma foldr_join_elem us ts x : x ∈ foldr join us ts → is_free x = false → x ∈ ts ++ us.
Proof.
  induction ts as [|t ts IH]; [done|]. cbn [foldr]. intros Hx Hf.
  apply join_elem in Hx; [|done]. apply elem_of_cons in Hx as [-> |Hx]; [set_solver|].
  specialize (IH Hx Hf). set_solver.
Qed.

Lemma coalesced_join t us : coalesced us → coalesced (join t us).
Proof.
  destruct us as [|u us]; [done|]. intros [Hu Hc]. fold coalesced in Hc. unfold join.
  destruct (is_free t && is_free u) eqn:E.
  - apply andb_prop in E as [_ Eu]. rewrite Eu in Hu. split; [|done]. by destruct us.
  - by split.
Qed.

Lemma coalesced_foldr_join us ts : coalesced us → coalesced (foldr join us ts).
Proof. intros. induction ts; [done|]. by apply coalesced_join. Qed.

Lemma coalesced_id ts : coalesced ts → coalesce ts = ts.
Proof.
  induction ts as [|t ts IH]; [done|]. intros [Ht Hc]. unfold coalesce in *. cbn [foldr]. rewrite (IH Hc).
  destruct ts; [done|]. unfold join. by rewrite Ht.
Qed.

Lemma coalesced_app_l ts us : coalesced (ts ++ us) → coalesced ts.
Proof.
  induction ts as [|t ts IH]; [done|]. cbn [app]. intros [Ht Hc]. split; [|by apply IH]. by destruct ts.
Qed.

Lemma coalesced_app_r ts us : coalesced (ts ++ us) → coalesced us.
Proof. induction ts as [|t ts IH]; [done|]. intros [_ Hc]. by apply IH. Qed.

(** A used block may stand anywhere. *)
Lemma coalesced_used ts u us : is_free u = false → coalesced ts → coalesced us → coalesced (ts ++ u :: us).
Proof.
  intros Hu Ht Hus. induction ts as [|t ts IH].
  - split; [|done]. destruct us; [done|]. by rewrite Hu.
  - destruct Ht as [Ht Hc]. split; [|by apply IH]. destruct ts; cbn; [by rewrite Hu, andb_false_r|done].
Qed.

Lemma coalesced_next t us : coalesced (t :: us) → is_free t = true → join t us = t :: us.
Proof. intros [H _] Ht. destruct us as [|u us]; [done|]. unfold join. by rewrite H. Qed.

Lemma free_bytes_app ts us : free_bytes (ts ++ us) = free_bytes ts + free_bytes us.
Proof. unfold free_bytes in *. induction ts as [|t ts IH]; cbn [app foldr]; [done|]. rewrite IH. lia. Qed.

Lemma free_bytes_bound ts : ∀ a e, tiled a ts e → 0 ≤ free_bytes ts ≤ e - a.
Proof.
  unfold free_bytes. induction ts as [|t ts IH]; cbn [tiled foldr]; intros a e; [lia|].
  intros (? & ? & ? & H%IH). destruct (is_free t); lia.
Qed.

Lemma free_bytes_in ts t : ∀ a e, tiled a ts e → t ∈ ts → is_free t = true → sz t ≤ free_bytes ts.
Proof.
  intros a e Ht (l1 & l2 & ->)%list_elem_of_split Hf. rewrite free_bytes_app.
  change (free_bytes (t :: l2)) with ((if is_free t then sz t else 0) + free_bytes l2). rewrite Hf.
  apply tiled_app in Ht as (m & H1 & _ & _ & _ & H2).
  pose proof (free_bytes_bound _ _ _ H1). pose proof (free_bytes_bound _ _ _ H2). lia.
Qed.

(** The block an allocation takes *)
Lemma first_fit_cases w ts :
  (∃ ts1 t ts2, ts = ts1 ++ t :: ts2 ∧ is_free t = true ∧ w ≤ sz t ∧ Forall (λ u, is_free u = true → sz u < w) ts1 ∧
     first_fit w ts = Some (ad t + 8, ts1 ++ (if 16 <? sz t - w
       then Tile (ad t) w Used :: Tile (ad t + w) (sz t - w) Free :: ts2 else Tile (ad t) (sz t) Used :: ts2))) ∨
  (Forall (λ u, is_free u = true → sz u < w) ts ∧ first_fit w ts = None).
Proof.
  induction ts as [|t ts IH]; [by right|]. cbn [first_fit].
  destruct (is_free t) eqn:Ef; [destruct (w <=? sz t) eqn:Ew|]; zbool; cbn [andb].
  - left. exists [], t, ts. split_and!; try done.
  - destruct IH as [(ts1 & u & ts2 & -> & ? & ? & ? & ->)|(? & ->)].
    + left. exists (t :: ts1), u, ts2. split_and!; try done. constructor; [lia|done].
    + right. split; [|done]. constructor; [lia|done].
  - destruct IH as [(ts1 & u & ts2 & -> & ? & ? & ? & ->)|(? & ->)].
    + left. exists (t :: ts1), u, ts2. split_and!; try done. constructor; [congruence|done].
    + right. split; [|done]. constructor; [congruence|done].
Qed.

Lemma mark_free_at a ts1 t ts2 : ad t = a → (∀ u, u ∈ ts1 → ad u ≠ a) →
  mark_free a (ts1 ++ t :: ts2) = ts1 ++ Tile (ad t) (sz t) Free :: ts2.
Proof.
  intros Ha. induction ts1 as [|u ts1 IH]; intros Hne; cbn.
  - by rewrite Ha, Z.eqb_refl.
  - rewrite (proj2 (Z.eqb_neq _ _)) by (apply Hne; set_solver). f_equal. apply IH. set_solver.
Qed.

(** ** The representation of a division in memory *)

Definition ucells (s : heap) (ts : list tile) : Prop :=
  ∀ t, t ∈ ts → is_free t = false → next s (At (ad t)) = Some 0 ∧ bsize s (At (ad t)) = Some (Z.lor (sz t) (2 ^ 31)).

Record ground (s : heap) : Prop := {
  gr_end : pxEnd s = top;
  gr_bit : xBlockAllocatedBit s = 2 ^ 31;
  gr_next : next s (At top) = Some 0;
  gr_size : bsize s (At top) = Some 0;
  gr_start : Start ∈ dom (hdr s);
  gr_dom : ∀ a, a mod 8 = 0 → base ≤ a ≤ top → At a ∈ dom (hdr s)
}.

Record rep (s : heap) (A : astate) : Prop := {
  r_ground : ground s;
  r_tiled : tiled base (tiles A) top;
  r_coal : coalesced (tiles A);
  r_list : flist s (tiles A);
  r_used : ucells s (tiles A);
  r_free : xFreeBytesRemaining s = free_bytes (tiles A);
  r_min : xMinimumEverFreeBytesRemaining s = low A
}.

Lemma ground_same s s' : ground s → same s s' →
  next s' (At top) = next s (At top) → bsize s' (At top) = bsize s (At top) → ground s'.
Proof.
  intros [] [] Hn Hb. split; try congruence; rewrite same_dom0; done.
Qed.

Lemma top_not_free ts a : tiled a ts top → top ∉ frees ts.
Proof. intros Ht Hin. pose proof (frees_bounds _ _ _ _ Ht Hin). lia. Qed.

Lemma tile_aligned ts t : ∀ a e, a mod 8 = 0 → tiled a ts e → t ∈ ts → ad t mod 8 = 0.
Proof.
  induction ts as [|u ts IH]; intros a e Ha; [by intros _ ?%not_elem_of_nil|].
  intros (<- & _ & H8 & Ht) [-> |Hin]%elem_of_cons; [done|]. eapply (IH (ad u + sz u)); [|done|done].
  rewrite Z.add_mod, Ha, H8 by lia. done.
Qed.

(** Addresses of different blocks differ. *)
Lemma tiled_middle ts1 t ts2 a e u : tiled a (ts1 ++ t :: ts2) e → u ∈ ts1 ++ ts2 → ad u ≠ ad t.
Proof.
  intros (m & H1 & <- & H16 & _ & H2)%tiled_app [Hu|Hu]%elem_of_app.
  - pose proof (tiled_in _ _ _ _ H1 Hu). lia.
  - pose proof (tiled_in _ _ _ _ H2 Hu). lia.
Qed.

Lemma middle_not_free ts1 t ts2 a e : tiled a (ts1 ++ t :: ts2) e → At (ad t) ∉ At <$> frees (ts1 ++ ts2).
Proof. intros Ht (u & Hu & _ & E)%At_elem%elem_of_frees. by eapply tiled_middle. Qed.

(** ** Allocation *)

Lemma search_ok s w ts : ∀ fuel p a c C, 0 < w → tiled a ts top → 0 < a → fcells s ts →
  next s (At top) = Some 0 → bsize s (At top) = Some 0 → frees ts ++ [top] = c :: C → links s (At c) C →
  (length (frees ts) < fuel)%nat →
  (∀ ts1 t ts2, ts = ts1 ++ t :: ts2 → is_free t = true → w ≤ sz t → Forall (λ u, is_free u = true → sz u < w) ts1 →
     search fuel w p c s = Some (endp p (frees ts1), ad t)) ∧
  (Forall (λ u, is_free u = true → sz u < w) ts → ∃ q, search fuel w p c s = Some (q, top)).
Proof using heap_in_memory.
  induction ts as [|x ts IH]; intros fuel p a c C Hw Ht Ha Hf Hn Hz Hc Hl Hfuel.
  - cbn in Hc. simplify_eq. destruct fuel as [|fuel]; [cbn in Hfuel; lia|]. cbn [search]. rewrite Hz, Hn. cbn.
    rewrite andb_false_r. split; [|eauto]. intros [|??]; discriminate.
  - cbn [tiled] in Ht. destruct Ht as (Hx & H16 & H8 & Ht).
    assert (fcells s ts) as Hf' by (eapply fcells_sub; [|done]; set_solver).
    cbn [frees] in Hc, Hfuel. destruct (is_free x) eqn:Ex.
    + cbn in Hc. simplify_eq. destruct fuel as [|fuel]; [cbn in Hfuel; lia|]. cbn [search].
      rewrite (Hf x) by (set_solver || done). cbn [mbind option_bind].
      destruct (frees ts ++ [top]) as [|n C'] eqn:EC; [by destruct (frees ts)|]. destruct Hl as [Hnx Hl].
      rewrite Hnx. cbn [mbind option_bind].
      assert (0 < n) as Hn0.
      { assert (n ∈ frees ts ++ [top]) as Hin by (rewrite EC; set_solver). pose proof (tiled_le _ _ _ Ht).
        apply elem_of_app in Hin as [Hin| ->%list_elem_of_singleton]; [|lia].
        pose proof (frees_bounds _ _ _ _ Ht Hin). lia. }
      rewrite (proj2 (Z.eqb_neq n 0)), andb_true_r by lia. cbn in Hfuel.
      destruct (IH fuel (At (ad x)) (ad x + sz x) n C') as [IH1 IH2]; try first [done|lia].
      split.
      * intros [|y ts1] t ts2 Heq Hft Hwt Hall; cbn in Heq; simplify_eq.
        -- by rewrite (proj2 (Z.ltb_ge _ _)) by lia.
        -- apply Forall_cons in Hall as [Hy Hall]. rewrite (proj2 (Z.ltb_lt _ _)) by auto.
           rewrite (IH1 ts1 t ts2) by done. cbn [frees]. by rewrite Ex.
      * intros [Hy Hall]%Forall_cons. rewrite (proj2 (Z.ltb_lt _ _)) by auto. by apply IH2.
    + destruct (IH fuel p (a + sz x) c C) as [IH1 IH2]; try first [done|lia]. split.
      * intros [|y ts1] t ts2 Heq Hft Hwt Hall; cbn in Heq; simplify_eq; [congruence|].
        apply Forall_cons in Hall as [_ Hall]. rewrite (IH1 ts1 t ts2) by done. cbn [frees]. by rewrite Ex.
      * intros [_ Hall]%Forall_cons. by apply IH2.
Qed.

Lemma unlink_ok s ts1 t ts2 : ground s → tiled base (ts1 ++ t :: ts2) top → is_free t = true →
  flist s (ts1 ++ t :: ts2) →
  ∃ s1 n, next s (endp Start (frees ts1)) = Some (ad t) ∧ next s (At (ad t)) = Some n ∧
    set_next (endp Start (frees ts1)) n s = Some s1 ∧ same s s1 ∧ ground s1 ∧
    links s1 Start (frees ts1 ++ frees ts2 ++ [top]) ∧ (∀ r, bsize s1 r = bsize s r) ∧
    (∀ r, r ≠ endp Start (frees ts1) → next s1 r = next s r).
Proof using heap_in_memory.
  intros Hg Ht Hft [Hf Hl]. pose proof base_top as Htop. rewrite frees_app in Hl. cbn [frees] in Hl. rewrite Hft in Hl.
  rewrite <- app_assoc in Hl. apply links_app in Hl as [Hl1 [Hnt Hl2]]. fold links in Hl2.
  destruct (frees ts2 ++ [top]) as [|n C] eqn:EC; [by destruct (frees ts2)|]. destruct Hl2 as [Hn Hl2]. fold links in Hl2.
  destruct (set_next_ok (endp Start (frees ts1)) n s) as (s1 & Hset & Hsame & Hb1 & Hn1); [by eapply dom_next|].
  apply tiled_app in Ht as (m & Ht1 & <- & H16 & H8 & Ht2). pose proof (tiled_le _ _ _ Ht2).
  assert (∀ x, ad t ≤ x → endp Start (frees ts1) ≠ At x) as Hpx.
  { intros x Hx. destruct (endp_cases (frees ts1) Start) as [-> |(y & Hy & ->)]; [done|].
    pose proof (frees_bounds _ _ _ _ Ht1 Hy). intros [= ->]. lia. }
  exists s1, n. split_and!; [done|done|done|done| | |done|].
  - eapply ground_same; [done|done| |by rewrite Hb1]. rewrite Hn1, decide_False; [done|].
    intros E. eapply Hpx; [|done]. lia.
  - apply links_app. split; [|split].
    + pose proof (NoDup_places _ _ _ Ht1) as [??]%NoDup_cons.
      eapply links_last; [done|done| |done]. intros r Hr _. by rewrite Hn1, decide_False.
    + by rewrite Hn1, decide_True.
    + eapply heap_links_frame; [|done]. intros r Hr. rewrite Hn1, decide_False; [done|]. intros ->.
      assert (∃ x, x ∈ n :: C ∧ endp Start (frees ts1) = At x) as (x & Hx & E) by
        (destruct Hr as [-> |(x & ? & ->)]; eexists; (split; [|done]); set_solver).
      rewrite <- EC in Hx. apply elem_of_app in Hx as [Hx| ->%list_elem_of_singleton].
      * pose proof (frees_bounds _ _ _ _ Ht2 Hx). eapply Hpx; [|done]. lia.
      * eapply Hpx; [|done]. lia.
  - intros r Hr. by rewrite Hn1, decide_False.
Qed.

Lemma set_bytes_ground f m s : ground s → ground (set_bytes f m s).
Proof. by intros []. Qed.

Lemma mark_allocated_ok s ts1 u ts2 mn : ground s → tiled base (ts1 ++ u :: ts2) top → is_free u = false →
  coalesced (ts1 ++ u :: ts2) → flist s (ts1 ++ u :: ts2) → ucells s (ts1 ++ ts2) →
  bsize s (At (ad u)) = Some (sz u) → xFreeBytesRemaining s = free_bytes (ts1 ++ u :: ts2) + sz u →
  xMinimumEverFreeBytesRemaining s = mn →
  ∃ s', mark_allocated (ad u) s = Some s' ∧
    rep s' (Abs (ts1 ++ u :: ts2) (mn `min` free_bytes (ts1 ++ u :: ts2))).
Proof using heap_in_memory.
  intros Hg Ht Hu Hco [Hf Hl] Huc Hz Hfree Hmin. pose proof base_top as Htop.
  set (F := free_bytes (ts1 ++ u :: ts2)) in *. unfold mark_allocated. rewrite Hz, Hfree, Hmin. cbn [mbind option_bind].
  pose proof (free_bytes_bound _ _ _ Ht) as HF. fold F in HF.
  replace (F + sz u - sz u) with F by lia. rewrite (uwrap_id 32 F) by (unfold fits_u; lia).
  set (s0 := set_bytes F (if F <? mn then F else mn) s).
  assert (ground s0) as Hg0 by by apply set_bytes_ground.
  change (xBlockAllocatedBit s0) with (xBlockAllocatedBit s). rewrite (gr_bit _ Hg).
  assert (At (ad u) ∈ dom (hdr s)) as Hd by by eapply dom_bsize.
  destruct (set_size_ok (At (ad u)) (Z.lor (sz u) (2 ^ 31)) s0) as (s1 & -> & Hs1 & Hn1 & Hb1); [done|].
  cbn [mbind option_bind].
  destruct (set_next_ok (At (ad u)) 0 s1) as (s2 & -> & Hs2 & Hb2 & Hn2); [by rewrite (same_dom _ _ Hs1)|].
  assert (∀ r, r ≠ At (ad u) → next s2 r = next s r ∧ bsize s2 r = bsize s r) as Heq.
  { intros r Hr. rewrite Hn2, Hb2, Hb1, !decide_False, Hn1 by done. done. }
  assert (∀ x, x ∈ ts1 ++ ts2 → At (ad x) ≠ At (ad u)) as Hne.
  { intros x Hx [= E]. by eapply tiled_middle. }
  assert (At top ≠ At (ad u)) as Htopu.
  { pose proof (tiled_in _ u _ _ Ht ltac:(set_solver)). intros [= E]. lia. }
  exists s2. split; [done|]. split; cbn [tiles low]; try done.
  - eapply ground_same; [exact Hg0|by eapply same_trans| |]; by apply Heq.
  - split.
    + intros t Hin Hft. destruct (Heq (At (ad t))) as [_ ->]; [|by apply Hf].
      apply Hne. assert (t ≠ u) by congruence. set_solver.
    + eapply heap_links_frame; [|done]. intros r Hr. apply Heq. intros ->.
      destruct Hr as [|(x & Hx & [= <-])]; [done|]. apply elem_of_app in Hx as [Hx| E%list_elem_of_singleton]; [|congruence].
      apply (middle_not_free _ _ _ _ _ Ht), At_elem. rewrite frees_app in *. cbn in Hx. by rewrite Hu in Hx.
  - intros t Hin Hft. destruct (decide (ad t = ad u)) as [E|E].
    + assert (t = u) as ->.
      { assert (t ∈ ts1 ++ ts2 ∨ t = u) as [Hx|] by set_solver; [|done]. by destruct (Hne t Hx); f_equal. }
      rewrite Hn2, Hb2, Hb1, !decide_True by done. done.
    + destruct (Heq (At (ad t))) as [-> ->]; [congruence|]. apply Huc; [|done]. assert (t ≠ u) by congruence. set_solver.
  - by rewrite (same_free _ _ Hs2), (same_free _ _ Hs1).
  - rewrite (same_min _ _ Hs2), (same_min _ _ Hs1). cbn. destruct (F <? mn) eqn:E; zbool; lia.
Qed.

Lemma land_7 x : Z.land x 7 = x mod 8.
Proof. change 7 with (Z.ones 3). by rewrite Z.land_ones. Qed.

Lemma wanted_need n : 0 < n < 2 ^ 31 → wanted n = need n.
Proof.
  intros Hn. unfold wanted, need, portBYTE_ALIGNMENT, portBYTE_ALIGNMENT_MASK.
  change xHeapStructSize with 8. change (2 ^ 31) with 2147483648 in Hn.
  rewrite (proj2 (Z.ltb_lt 0 n)), !land_7 by lia. unfold uwrap. change (2 ^ 32) with 4294967296.
  rewrite (Z.mod_small (n + 8)) by lia.
  destruct ((n + 8) mod 8 =? 0) eqn:E; zbool; cbn [negb].
  - Z.to_euclidean_division_equations; lia.
  - rewrite Z.mod_small; Z.to_euclidean_division_equations; lia.
Qed.

Lemma need_spec n : 0 < n → n + 8 ≤ need n < n + 16 ∧ 16 ≤ need n ∧ need n mod 8 = 0.
Proof. unfold need. Z.to_euclidean_division_equations. lia. Qed.

Lemma top_bit n : 0 ≤ n < 2 ^ 32 → Z.land n (2 ^ 31) = 0 ↔ n < 2 ^ 31.
Proof.
  intros Hn. assert (Z.land n (2 ^ 31) = if Z.testbit n 31 then 2 ^ 31 else 0) as ->.
  { apply Z.bits_inj'. intros k Hk. rewrite Z.land_spec, Z.pow2_bits_eqb by lia. destruct (31 =? k) eqn:E; zbool.
    - subst. rewrite andb_true_r. destruct (Z.testbit n 31); [by rewrite Z.pow2_bits_true|by rewrite Z.bits_0].
    - rewrite andb_false_r. destruct (Z.testbit n 31); [by rewrite Z.pow2_bits_false|by rewrite Z.bits_0]. }
  rewrite Z.testbit_eqb by lia. change (2 ^ 31) with 2147483648. change (2 ^ 32) with 4294967296 in Hn.
  destruct (_ =? 1) eqn:E; zbool; Z.to_euclidean_division_equations; lia.
Qed.

Lemma used_not_free ts t a e : tiled a ts e → t ∈ ts → is_free t = false → At (ad t) ∉ At <$> frees ts.
Proof.
  intros Ht (l1 & l2 & ->)%list_elem_of_split Hu Hin. apply (middle_not_free _ _ _ _ _ Ht).
  rewrite frees_app in *. cbn in Hin. by rewrite Hu in Hin.
Qed.

Lemma ucells_frame s s' ts us : (∀ t, t ∈ us → is_free t = false → t ∈ ts) →
  (∀ t, t ∈ us → is_free t = false → next s' (At (ad t)) = next s (At (ad t)) ∧ bsize s' (At (ad t)) = bsize s (At (ad t))) →
  ucells s ts → ucells s' us.
Proof. intros Hsub Heq Hu t Ht Hf. destruct (Heq t Ht Hf) as [-> ->]. apply Hu; auto. Qed.

Lemma bsize_dom s p : p ∈ dom (hdr s) → is_Some (bsize s p).
Proof. unfold bsize. intros [b ->]%elem_of_dom. by eexists. Qed.

Lemma free_bytes_cons t ts : free_bytes (t :: ts) = (if is_free t then sz t else 0) + free_bytes ts.
Proof. done. Qed.

Lemma is_free_Used a z : is_free (Tile a z Used) = false.
Proof. done. Qed.
Lemma is_free_Free a z : is_free (Tile a z Free) = true.
Proof. done. Qed.

(** What an allocation leaves for [mark_allocated]: the block [u] is out of the list *)
Record taken (s s' : heap) (ts1 : list tile) (u : tile) (us : list tile) : Prop := {
  tk_same : same s s';
  tk_ground : ground s';
  tk_tiled : tiled base (ts1 ++ u :: us) top;
  tk_coal : coalesced (ts1 ++ u :: us);
  tk_list : flist s' (ts1 ++ u :: us);
  tk_used : ucells s' (ts1 ++ us);
  tk_size : bsize s' (At (ad u)) = Some (sz u)
}.

(** The rest of a block that is split goes back to the list. *)
Lemma split_block_split s ts1 t ts2 w : ground s → tiled base (ts1 ++ t :: ts2) top → is_free t = true →
  coalesced (ts1 ++ t :: ts2) → fcells s (ts1 ++ t :: ts2) → links s Start (frees ts1 ++ frees ts2 ++ [top]) →
  ucells s (ts1 ++ ts2) → 16 ≤ w → w mod 8 = 0 → w ≤ sz t → 16 < sz t - w →
  ∃ s', split_block (ad t) w s = Some s' ∧
    taken s s' ts1 (Tile (ad t) w Used) (Tile (ad t + w) (sz t - w) Free :: ts2).
Proof using heap_in_memory.
  intros Hg Ht Hft Hco Hf Hl Huc H16 Hw8 Hwt E. pose proof base_top as Htop.
  assert (t ∈ ts1 ++ t :: ts2) as Hin by set_solver.
  pose proof (tiled_in _ _ _ _ Ht Hin) as (Hta & Hte & _ & Ht8).
  pose proof (tile_aligned _ _ base top ltac:(lia) Ht Hin) as Hal.
  pose proof (coalesced_app_l _ _ Hco) as Hc1. pose proof (coalesced_app_r _ _ Hco) as Hc2.
  pose proof Ht as (m & Ht1 & <- & _ & _ & Ht2)%tiled_app. fold tiled in Ht2.
  unfold split_block. rewrite (Hf t) by done. cbn [mbind option_bind]. change heapMINIMUM_BLOCK_SIZE with 16.
  rewrite (uwrap_id 32 (sz t - w)), (proj2 (Z.ltb_lt _ _) E) by (unfold fits_u; lia).
  set (u := Tile (ad t) w Used). set (b := Tile (ad t + w) (sz t - w) Free).
  rewrite (uwrap_id 32 (ad t + w)) by (unfold fits_u; lia).
  assert ((ad t + w) mod 8 = 0) by (rewrite Z.add_mod, Hal, Hw8 by lia; done).
  destruct (set_size_ok (At (ad t + w)) (sz t - w) s) as (s1 & -> & Hs1 & Hn1 & Hb1).
  { apply (gr_dom _ Hg); [done|lia]. }
  cbn [mbind option_bind].
  destruct (set_size_ok (At (ad t)) w s1) as (s2 & -> & Hs2 & Hn2 & Hb2).
  { rewrite (same_dom _ _ Hs1). apply (gr_dom _ Hg); [done|lia]. }
  cbn [mbind option_bind].
  assert (tiled base ((ts1 ++ [u]) ++ b :: ts2) top) as Htb.
  { rewrite <- app_assoc. apply tiled_app. exists (ad t). split; [done|]. cbn. split_and!; try done; try lia.
    - rewrite Zminus_mod, Ht8, Hw8. done.
    - by replace (ad t + w + (sz t - w)) with (ad t + sz t) by lia. }
  assert (∀ x, x ∈ ts1 ++ ts2 → At (ad x) ≠ At (ad t) ∧ At (ad x) ≠ At (ad t + w)) as Hne.
  { intros x Hx. split; intros [= Ex]; [by eapply (tiled_middle ts1 t ts2)|].
    eapply (tiled_middle (ts1 ++ [u]) b ts2); [done| |done]. set_solver. }
  assert (∀ r, r ≠ At (ad t) → r ≠ At (ad t + w) → next s2 r = next s r ∧ bsize s2 r = bsize s r) as Heq2.
  { intros r ??. by rewrite Hn2, Hn1, Hb2, Hb1, !decide_False by done. }
  assert (same s s2) as Hs by by eapply same_trans.
  assert (coalesced (b :: ts2)) as Hcb by (destruct Hc2 as [Hc2 ?]; split; [by rewrite Hft in Hc2|done]).
  assert (coalesced (ts1 ++ [u])) as Hcu by by apply coalesced_used.
  destruct (insert_ok s2 (ts1 ++ [u]) b ts2) as (s3 & Hins & Hs3 & Hfl & Hel); try done.
  { rewrite (same_end _ _ Hs). apply Hg. }
  { intros x Hx Hfx. assert (x ∈ ts1 ++ ts2) as Hx' by (assert (x ≠ u) by (by intros ->); set_solver).
    destruct (Hne x Hx'). destruct (Heq2 (At (ad x))) as [_ ->]; [done..|]. apply Hf; [set_solver|done]. }
  { rewrite frees_app. cbn [frees]. rewrite app_nil_r. eapply heap_links_frame; [|done]. intros. by rewrite Hn2, Hn1. }
  { apply bsize_dom. rewrite (same_dom _ _ Hs). apply Hg. }
  { cbn [ad sz b]. rewrite Hb2, Hb1, decide_False, decide_True; [done|done|]. intros [= ?]. lia. }
  change (Tile (ad b) (sz b) Free) with b in Hfl. rewrite (coalesced_next b ts2), foldr_join_used in Hfl;
    [|done|unfold last_free; by rewrite last_snoc|done|done].
  rewrite <- app_assoc in Htb, Hfl. cbn [app] in Htb, Hfl.
  assert (∀ r, r ≠ Start → r ≠ At (ad t) → r ≠ At (ad t + w) → r ∉ At <$> frees (ts1 ++ ts2) →
    next s3 r = next s r ∧ bsize s3 r = bsize s r) as Heq3.
  { intros r ????. destruct (Hel r) as [-> ->]; [done|done| |by apply Heq2].
    rewrite !frees_app in *. cbn. by rewrite app_nil_r. }
  exists s3. split; [exact Hins|]. split; try done.
  - by eapply same_trans.
  - assert (At top ∉ At <$> frees (ts1 ++ ts2)).
    { intros Hx%At_elem. rewrite frees_app in Hx. apply elem_of_app in Hx as [Hx|Hx];
        eapply frees_bounds in Hx; try done; lia. }
    eapply ground_same; [exact Hg|by eapply same_trans| |]; apply Heq3; try done; intros [= ?]; lia.
  - by apply coalesced_used.
  - eapply ucells_frame; [| |exact Huc]; intros x Hx Hux; assert (x ≠ b) by (by intros ->);
      assert (x ∈ ts1 ++ ts2) as Hx' by set_solver; [done|]. destruct (Hne x Hx').
    apply Heq3; [done..|]. intros (y & Hy & Hfy & Hay)%At_elem%elem_of_frees.
    eapply (used_not_free _ x _ _ Ht); [set_solver|done|]. apply At_elem, elem_of_frees. exists y. set_solver.
  - destruct (Hel (At (ad t))) as [_ Hsz]; [done|intros [= ?]; lia| |].
    + rewrite !frees_app. cbn. rewrite app_nil_r, <- frees_app. by eapply middle_not_free.
    + cbn [ad sz u]. rewrite Hsz, Hb2, decide_True by done. done.
Qed.

Lemma split_block_whole s ts1 t ts2 w : ground s → tiled base (ts1 ++ t :: ts2) top → is_free t = true →
  coalesced (ts1 ++ t :: ts2) → fcells s (ts1 ++ t :: ts2) → links s Start (frees ts1 ++ frees ts2 ++ [top]) →
  ucells s (ts1 ++ ts2) → 16 ≤ w → w mod 8 = 0 → w ≤ sz t → sz t - w ≤ 16 →
  split_block (ad t) w s = Some s ∧ taken s s ts1 (Tile (ad t) (sz t) Used) ts2.
Proof using heap_in_memory.
  intros Hg Ht Hft Hco Hf Hl Huc H16 Hw8 Hwt E. pose proof base_top as Htop.
  assert (t ∈ ts1 ++ t :: ts2) as Hin by set_solver.
  pose proof (tiled_in _ _ _ _ Ht Hin) as (Hta & Hte & _ & Ht8).
  pose proof Ht as (m & Ht1 & <- & _ & _ & Ht2)%tiled_app. fold tiled in Ht2.
  unfold split_block. rewrite (Hf t) by done. cbn [mbind option_bind]. change heapMINIMUM_BLOCK_SIZE with 16.
  rewrite (uwrap_id 32 (sz t - w)), (proj2 (Z.ltb_ge 16 (sz t - w)) E) by (unfold fits_u; lia).
  set (u := Tile (ad t) (sz t) Used). split; [done|]. split; try done.
  - apply tiled_app. exists (ad t). split; [done|]. cbn. split_and!; [done|lia|done|done].
  - apply coalesced_used; [done|by eapply coalesced_app_l|]. apply coalesced_app_r in Hco. by destruct Hco.
  - split; [|by rewrite frees_app, <- app_assoc]. intros x Hx Hfx. apply Hf; [|done].
    assert (x ≠ u) by (by intros ->). set_solver.
  - exact (Hf t Hin Hft).
Qed.

Lemma fit_free_bytes w ts a e : tiled a ts e → ∀ t, t ∈ ts → is_free t = true → w ≤ sz t → w ≤ free_bytes ts.
Proof. intros Ht t Hin Hf Hw. pose proof (free_bytes_in _ _ _ _ Ht Hin Hf). lia. Qed.

Lemma used_total s s' ts1 t ts2 u us : taken s s' ts1 u us → is_free t = true → is_free u = false →
  (u = Tile (ad t) (sz t) Used ∧ us = ts2 ∨
   ∃ w, u = Tile (ad t) w Used ∧ us = Tile (ad t + w) (sz t - w) Free :: ts2) →
  free_bytes (ts1 ++ u :: us) + sz u = free_bytes (ts1 ++ t :: ts2).
Proof.
  intros _ Ht Hu [[-> ->]|(w & -> & ->)]; rewrite !free_bytes_app, !free_bytes_cons, Ht, is_free_Used.
  - cbn [sz]. lia.
  - rewrite is_free_Free. cbn [sz]. lia.
Qed.

(** A block that fits is taken out of the list, split and marked. *)
Lemma allocate_ok s A ts1 t ts2 w : rep s A → tiles A = ts1 ++ t :: ts2 → is_free t = true →
  16 ≤ w → w mod 8 = 0 → w ≤ sz t →
  let ts := ts1 ++ (if 16 <? sz t - w then Tile (ad t) w Used :: Tile (ad t + w) (sz t - w) Free :: ts2
                    else Tile (ad t) (sz t) Used :: ts2) in
  ∃ s1 s2 s3 n, let p := endp Start (frees ts1) in
    next s p = Some (ad t) ∧ next s (At (ad t)) = Some n ∧ set_next p n s = Some s1 ∧
    split_block (ad t) w s1 = Some s2 ∧ mark_allocated (ad t) s2 = Some s3 ∧
    rep s3 (Abs ts (low A `min` free_bytes ts)).
Proof using heap_in_memory.
  intros [Hg Ht Hco Hfl Huc Hfree Hmin] HA Hft H16 H8 Hwt. rewrite HA in *.
  destruct (unlink_ok s ts1 t ts2) as (s1 & n & Hpt & Htn & Hset & Hs1 & Hg1 & Hl1 & Hb1 & Hn1); [done..|].
  assert (fcells s1 (ts1 ++ t :: ts2)) as Hf1 by (eapply fcells_frame; [|apply Hfl]; intros; apply Hb1).
  assert (ucells s1 (ts1 ++ ts2)) as Huc1.
  { eapply ucells_frame; [| |exact Huc]; [set_solver|]. intros x Hx Hux. rewrite Hb1, Hn1; [done|].
    destruct (endp_cases (frees ts1) Start) as [-> |(y & Hy & ->)]; [done|]. intros E.
    apply (used_not_free _ x _ _ Ht); [set_solver|done|]. rewrite E. apply At_elem. rewrite frees_app. set_solver. }
  assert (∃ s2 u us, split_block (ad t) w s1 = Some s2 ∧ taken s1 s2 ts1 u us ∧ is_free u = false ∧ ad u = ad t ∧
    (u = Tile (ad t) (sz t) Used ∧ us = ts2 ∨
     ∃ w, u = Tile (ad t) w Used ∧ us = Tile (ad t + w) (sz t - w) Free :: ts2) ∧
    (if 16 <? sz t - w then Tile (ad t) w Used :: Tile (ad t + w) (sz t - w) Free :: ts2
     else Tile (ad t) (sz t) Used :: ts2) = u :: us) as (s2 & u & us & Hsplit & Htk & Hu & Hau & Hcase & ->).
  { destruct (16 <? sz t - w) eqn:E; zbool.
    - destruct (split_block_split s1 ts1 t ts2 w) as (s2 & ? & ?); [done..|]. exists s2. eauto 12.
    - destruct (split_block_whole s1 ts1 t ts2 w) as (? & ?); [done..|]. exists s1. eauto 12. }
  pose proof (used_total _ _ _ t ts2 _ _ Htk Hft Hu Hcase) as Htot. destruct Htk.
  destruct (mark_allocated_ok s2 ts1 u us (low A)) as (s3 & Hmark & Hrep); try done.
  { rewrite (same_free _ _ tk_same0), (same_free _ _ Hs1). lia. }
  { by rewrite (same_min _ _ tk_same0), (same_min _ _ Hs1). }
  rewrite Hau in Hmark. exists s1, s2, s3, n. split_and!; try done.
Qed.

Lemma malloc_ok s A n r A' : rep s A → astep (OMalloc n) A = Some (r, A') →
  ∃ s', pvPortMalloc n s = Some (r, s') ∧ rep s' A'.
Proof using heap_in_memory.
  intros Hrep. pose proof Hrep as [Hg Ht Hco Hfl Huc Hfree Hmin]. pose proof base_top as Htop. cbn [astep].
  destruct ((n <? 0) || (2 ^ 32 <=? n)) eqn:E1; [done|]. zbool. unfold pvPortMalloc.
  rewrite (gr_end _ Hg), (proj2 (Z.eqb_neq top 0)) by lia. cbn [mbind option_bind]. rewrite (gr_bit _ Hg).
  pose proof (top_bit n ltac:(lia)) as Htb.
  destruct ((n =? 0) || (2 ^ 31 <=? n)) eqn:E2.
  - intros [= <- <-]. exists s. split; [|done]. apply orb_true_iff in E2 as [E2|E2]; zbool.
    + subst n. by rewrite (proj2 (Z.eqb_eq _ _)) by (apply Htb; lia).
    + rewrite (proj2 (Z.eqb_neq _ _)); [done|]. rewrite Htb. lia.
  - zbool. rewrite (proj2 (Z.eqb_eq _ _)) by (apply Htb; lia). rewrite wanted_need by lia.
    destruct (need_spec n) as (Hn1 & Hn2 & Hn3); [lia|]. rewrite (proj2 (Z.ltb_lt 0 (need n))), Hfree by lia. cbn [andb].
    destruct Hfl as [Hf Hl]. destruct (frees (tiles A) ++ [top]) as [|c C] eqn:Ec; [by destruct (frees (tiles A))|].
    destruct Hl as [Hc Hl]. fold links in Hl.
    destruct (search_ok s (need n) (tiles A) fuel Start base c C) as [Hs1 Hs2]; try first [done|lia|apply Hg].
    { pose proof (frees_length (tiles A)). pose proof (tiled_le _ _ _ Ht). pose proof fuel_size. lia. }
    destruct (first_fit_cases (need n) (tiles A)) as [(ts1 & t & ts2 & Htiles & Hft & Hw & Hsm & ->)|[Hsm ->]].
    + intros [= <- <-]. rewrite (proj2 (Z.leb_le _ _)).
      2:{ eapply fit_free_bytes; [done| |done|done]. rewrite Htiles. set_solver. }
      rewrite Hc. cbn [mbind option_bind]. rewrite (Hs1 ts1 t ts2) by done. cbn [mbind option_bind].
      assert (t ∈ tiles A) as Hin by (rewrite Htiles; set_solver). pose proof (tiled_in _ _ _ _ Ht Hin).
      rewrite (gr_end _ Hg), (proj2 (Z.eqb_neq (ad t) top)) by lia. cbn [negb].
      destruct (allocate_ok s A ts1 t ts2 (need n)) as (s1 & s2 & s3 & m & -> & -> & Hset & Hsplit & Hmark & Hrep3); [done..|].
      cbn [mbind option_bind]. rewrite Hset. cbn [mbind option_bind]. rewrite Hsplit. cbn [mbind option_bind].
      rewrite Hmark. cbn [mbind option_bind]. change xHeapStructSize with 8.
      rewrite uwrap_id by (unfold fits_u; lia). eauto.
    + intros [= <- <-]. exists s. split; [|done]. destruct (need n <=? free_bytes (tiles A)); [|done].
      rewrite Hc. cbn [mbind option_bind]. destruct (Hs2 Hsm) as [q ->]. cbn [mbind option_bind].
      by rewrite (gr_end _ Hg), Z.eqb_refl.
Qed.

(** ** Freeing *)

Lemma lor_bit z : 0 ≤ z < 2 ^ 31 → Z.lor z (2 ^ 31) = z + 2 ^ 31.
Proof.
  intros Hz. symmetry. apply Z.add_nocarry_lxor || rewrite Z.add_nocarry_lxor; [|apply top_bit; lia].
  rewrite Z.lxor_lor; [done|]. apply top_bit; lia.
Qed.

Lemma land_lor_bit z : 0 ≤ z < 2 ^ 31 → Z.land (Z.lor z (2 ^ 31)) (2 ^ 31) ≠ 0.
Proof. intros Hz H. rewrite lor_bit in H by done. apply top_bit in H; lia. Qed.

Lemma clear_bit z : 0 ≤ z < 2 ^ 31 → Z.land (Z.lor z (2 ^ 31)) (u32 (Z.lnot (2 ^ 31))) = z.
Proof.
  intros Hz. rewrite lor_bit by done. change (u32 (Z.lnot (2 ^ 31))) with (Z.ones 31). rewrite Z.land_ones by lia.
  change (2 ^ 31) with 2147483648 in *. Z.to_euclidean_division_equations. lia.
Qed.

Lemma starts_spec a ts : starts a ts = true → ∃ ts1 t ts2, ts = ts1 ++ t :: ts2 ∧ ad t = a.
Proof.
  unfold starts. rewrite existsb_exists. intros (t & Hin%list_elem_of_In & Ha). zbool.
  apply list_elem_of_split in Hin as (l1 & l2 & ->). eauto.
Qed.

Lemma free_used s A ts1 t ts2 : rep s A → tiles A = ts1 ++ t :: ts2 → is_free t = false →
  let ts := coalesce (ts1 ++ Tile (ad t) (sz t) Free :: ts2) in
  ∃ s1 s', set_size (At (ad t)) (sz t) s = Some s1 ∧ bsize s1 (At (ad t)) = Some (sz t) ∧
    prvInsertBlockIntoFreeList (ad t)
      (set_bytes (u32 (xFreeBytesRemaining s1 + sz t)) (xMinimumEverFreeBytesRemaining s1) s1) = Some s' ∧
    rep s' (Abs ts (low A)).
Proof using heap_in_memory.
  intros [Hg Ht Hco [Hf Hl] Huc Hfree Hmin] HA Hft ts. rewrite HA in *. pose proof base_top as Htop.
  assert (t ∈ ts1 ++ t :: ts2) as Hin by set_solver. destruct (Huc t Hin Hft) as [Hnt Hbt].
  pose proof (tiled_in _ _ _ _ Ht Hin) as (? & ? & ? & ?).
  pose proof (coalesced_app_l _ _ Hco) as Hc1. pose proof (coalesced_app_r _ _ Hco) as [_ Hc2]. fold coalesced in Hc2.
  destruct (set_size_ok (At (ad t)) (sz t) s) as (s1 & Hset & Hs1 & Hn1 & Hb1); [by eapply dom_bsize|].
  assert (tiled base (ts1 ++ Tile (ad t) (sz t) Free :: ts2) top) as Ht'.
  { apply tiled_app in Ht as (m & ? & <- & ?). apply tiled_app. exists (ad t). by split_and!. }
  assert (xFreeBytesRemaining s1 + sz t = free_bytes ts) as Efree.
  { unfold ts, coalesce. rewrite foldr_join_free_bytes, app_nil_r, (same_free _ _ Hs1), Hfree.
    rewrite !free_bytes_app, !free_bytes_cons, Hft, is_free_Free. cbn [sz]. lia. }
  assert (tiled base ts top) as Htts by (apply tiled_foldr_join; by exists top).
  pose proof (free_bytes_bound _ _ _ Htts) as HF.
  assert (u32 (xFreeBytesRemaining s1 + sz t) = free_bytes ts) as Eu.
  { rewrite Efree. apply uwrap_id. unfold fits_u; lia. }
  assert (At top ≠ At (ad t)) as Htopt by (intros [= E]; lia).
  assert (ground s1) as Hg1 by (eapply ground_same; [done|done|by rewrite Hn1|by rewrite Hb1, decide_False]).
  set (s2 := set_bytes (free_bytes ts) (xMinimumEverFreeBytesRemaining s1) s1).
  assert (ground s2) as Hg2 by by apply set_bytes_ground.
  assert (∀ r, bsize s2 r = if decide (r = At (ad t)) then Some (sz t) else bsize s r) as Hb2 by exact Hb1.
  assert (∀ r, next s2 r = next s r) as Hn2 by exact Hn1.
  assert (ts = foldr join (join (Tile (ad t) (sz t) Free) ts2) ts1) as Hts.
  { unfold ts, coalesce. rewrite foldr_app. cbn [foldr]. by rewrite (coalesced_id ts2 Hc2 : foldr join [] ts2 = ts2). }
  assert (frees (ts1 ++ t :: ts2) = frees (ts1 ++ ts2)) as Efr by (rewrite !frees_app; cbn; by rewrite Hft).
  destruct (insert_ok s2 ts1 t ts2) as (s' & Hins & Hs' & Hfl & Hel); try done.
  { apply Hg2. }
  { intros x Hx Hfx. rewrite Hb2, decide_False; [apply Hf; [set_solver|done]|]. intros [= E]. by eapply tiled_middle. }
  { rewrite app_assoc, <- frees_app, <- Efr. eapply heap_links_frame; [|exact Hl]. intros; apply Hn2. }
  { apply bsize_dom, Hg2. }
  { by rewrite Hb2, decide_True. }
  rewrite <- Hts in Hfl.
  assert (At top ∉ At <$> frees (ts1 ++ ts2)) as Htf.
  { rewrite At_elem, <- Efr. by eapply top_not_free. }
  exists s1, s'. split_and!; [done|by rewrite Hb1, decide_True|by rewrite Eu|]. split; cbn [tiles low]; try done.
  - eapply ground_same; [exact Hg2|done| |]; by apply Hel.
  - unfold ts, coalesce. by apply coalesced_foldr_join.
  - intros x Hx Hux. unfold ts, coalesce in Hx. apply foldr_join_elem in Hx; [|done]. rewrite app_nil_r in Hx.
    assert (x ∈ ts1 ++ ts2) as Hx' by (assert (x ≠ Tile (ad t) (sz t) Free) by (by intros ->); set_solver).
    assert (At (ad x) ≠ At (ad t)) as Hne by (intros [= E]; by eapply tiled_middle).
    destruct (Hel (At (ad x))) as [-> ->]; [done|done| |].
    + rewrite <- Efr. eapply used_not_free; [done|set_solver|done].
    + rewrite Hn2, Hb2, decide_False by done. apply Huc; [set_solver|done].
  - by rewrite (same_free _ _ Hs').
  - rewrite (same_min _ _ Hs'). cbn. by rewrite (same_min _ _ Hs1).
Qed.

Lemma free_ok s A p r A' : rep s A → astep (OFree p) A = Some (r, A') → ∃ s', vPortFree p s = Some s' ∧ rep s' A'.
Proof using heap_in_memory.
  intros Hrep. pose proof Hrep as [Hg Ht Hco [Hf _] Huc _ _]. pose proof base_top as Htop. cbn [astep]. unfold vPortFree.
  destruct (p =? 0) eqn:Ep; [intros; simplify_eq; eauto|]. zbool. cbn [negb].
  destruct (starts (p - 8) (tiles A)) eqn:Es; [|done]. intros [= <- <-].
  apply starts_spec in Es as (ts1 & t & ts2 & HA & Hat). rewrite HA in Ht.
  assert (t ∈ tiles A) as Hin by (rewrite HA; set_solver).
  pose proof (tiled_in _ t _ _ Ht ltac:(set_solver)) as (? & ? & ? & ?).
  change (2 ^ 32) with 4294967296 in Htop. assert (0 ≤ sz t < 2 ^ 31) as Hsz.
  { change (2 ^ 31) with 2147483648. unfold top, base, configTOTAL_HEAP_SIZE in *. Z.to_euclidean_division_equations. lia. }
  change xHeapStructSize with 8. rewrite uwrap_id by (unfold fits_u; change (2 ^ 32) with 4294967296; lia).
  rewrite HA, mark_free_at by (first [done|intros u Hu; rewrite <- Hat; eapply tiled_middle; [done|set_solver]]).
  rewrite <- Hat, (gr_bit _ Hg). destruct (is_free t) eqn:Hft.
  - rewrite (Hf t) by done. cbn [mbind option_bind]. rewrite (proj2 (Z.eqb_eq _ _)) by (apply top_bit; lia). cbn [negb].
    assert (t = Tile (ad t) (sz t) Free) as <-.
    { unfold is_free in Hft. apply bool_decide_eq_true in Hft. destruct t; cbn in *. by subst. }
    rewrite coalesced_id by (by rewrite <- HA). exists s. split; [done|]. rewrite <- HA. by destruct A.
  - destruct (Huc t) as [Hn Hb]; [done|done|]. rewrite Hb. cbn [mbind option_bind].
    rewrite (proj2 (Z.eqb_neq _ _)) by (by apply land_lor_bit). cbn [negb]. rewrite Hn. cbn [mbind option_bind].
    rewrite Z.eqb_refl, clear_bit by done.
    destruct (free_used s A ts1 t ts2) as (s1 & s' & -> & Hb1 & Hins & Hrep'); [done..|].
    cbn [mbind option_bind]. rewrite Hb1. cbn [mbind option_bind]. eauto.
Qed.

(** ** Runs *)

Lemma owner_spec a ts : owner_of a ts = true →
  ∃ t, t ∈ ts ∧ is_free t = false ∧ ad t + 8 ≤ a ∧ a + 8 ≤ ad t + sz t.
Proof.
  unfold owner_of. rewrite existsb_exists. intros (t & Hin%list_elem_of_In & Ha). zbool. eauto.
Qed.

(** An address inside a used block is the header of no block. *)
Lemma inside_no_header ts t u b e a : tiled b ts e → t ∈ ts → u ∈ ts → ad t < a < ad t + sz t → ad u ≠ a.
Proof.
  intros Ht (l1 & l2 & ->)%list_elem_of_split Hu Ha. apply tiled_app in Ht as (m & H1 & <- & H16 & _ & H2). fold tiled in H2.
  apply elem_of_app in Hu as [Hu|[-> |Hu]%elem_of_cons]; [|lia|].
  - pose proof (tiled_in _ _ _ _ H1 Hu). lia.
  - pose proof (tiled_in _ _ _ _ H2 Hu). lia.
Qed.

Lemma scribble_ok s A a n z : rep s A → owner_of a (tiles A) = true → aligned a = true →
  ∃ s', scribble a n z s = Some s' ∧ rep s' A.
Proof using heap_in_memory.
  intros [Hg Ht Hco [Hf Hl] Huc Hfree Hmin] (t & Hin & Hu & Ha1 & Ha2)%owner_spec Hal%Z.eqb_eq.
  pose proof base_top as Htop. pose proof (tiled_in _ _ _ _ Ht Hin) as (? & ? & ? & ?).
  destruct (set_hdr_ok (At a) (λ _, Hdr n z) s) as (s' & b & Hset & Hs & _ & Hh); [apply Hg; [done|lia]|].
  assert (∀ r, r ≠ At a → next s' r = next s r ∧ bsize s' r = bsize s r) as Heq.
  { intros r Hr. unfold next, bsize. by rewrite Hh, lookup_insert_ne by done. }
  assert (∀ u, u ∈ tiles A → At (ad u) ≠ At a) as Hne.
  { intros u Hu' [= E]. eapply (inside_no_header _ t u); [done|done|done| |done]. lia. }
  assert (At top ≠ At a) as Htopa by (intros [= E]; lia).
  exists s'. split; [done|]. split; try done.
  - eapply ground_same; [done|done| |]; by apply Heq.
  - split; [intros u Hu' Hfu; rewrite (proj2 (Heq _ (Hne u Hu'))); by apply Hf|].
    eapply heap_links_frame; [|done]. intros r Hr. apply Heq. intros ->. destruct Hr as [|(x & Hx & [= ->])]; [done|].
    apply elem_of_app in Hx as [(u & Hu' & _ & E)%elem_of_frees|E%list_elem_of_singleton]; [|congruence].
    apply (Hne u Hu'). by f_equal.
  - eapply ucells_frame; [| |exact Huc]; [done|]. intros u Hu' _. by apply Heq, Hne.
  - by rewrite (same_free _ _ Hs).
  - by rewrite (same_min _ _ Hs).
Qed.

Lemma heap_step_ok o s A r A' : rep s A → astep o A = Some (r, A') → ∃ s', cstep o s = Some (r, s') ∧ rep s' A'.
Proof using heap_in_memory.
  intros Hrep. destruct o as [n|p| | |a n z].
  - by apply malloc_ok.
  - intros H. destruct (free_ok _ _ _ _ _ Hrep H) as (s' & Hs & ?). exists s'. split; [|done]. cbn [cstep]. rewrite Hs. cbn.
    cbn [astep] in H. by cases.
  - intros [= <- <-]. exists s. by rewrite <- (r_free _ _ Hrep).
  - intros [= <- <-]. exists s. by rewrite <- (r_min _ _ Hrep).
  - cbn [astep]. destruct (owner_of a (tiles A) && aligned a) eqn:E; [|done]. zbool. intros [= <- <-].
    destruct (scribble_ok s A a n z) as (s' & Hs & ?); [done..|]. exists s'. split; [|done]. cbn [cstep]. by rewrite Hs.
Qed.

Lemma heap_runs_ok os : ∀ s A rs A', rep s A → aruns os A = Some (rs, A') → ∃ s', cruns os s = Some (rs, s') ∧ rep s' A'.
Proof using heap_in_memory.
  induction os as [|o os IH]; intros s A rs A' Hrep; cbn [aruns cruns]; [intros [= <- <-]; eauto|].
  destruct (astep o A) as [[r A1]|] eqn:E1; [|done]. cbn [mbind option_bind].
  destruct (aruns os A1) as [[rs1 A2]|] eqn:E2; [|done]. cbn [mbind option_bind]. intros [= <- <-].
  destruct (heap_step_ok _ _ _ _ _ Hrep E1) as (s1 & -> & Hrep1). cbn [mbind option_bind].
  destruct (IH _ _ _ _ Hrep1 E2) as (s2 & -> & Hrep2). eauto.
Qed.

Lemma reset_dom a : a mod 8 = 0 → ucHeap ≤ a → a + 8 ≤ ucHeap + configTOTAL_HEAP_SIZE → At a ∈ dom (hdr reset).
Proof using heap_in_memory.
  intros Ha Hlo Hhi. unfold reset. cbn [hdr]. rewrite dom_insert_L, dom_list_to_map_L. apply elem_of_union_r, elem_of_list_to_set.
  rewrite <- list_fmap_compose. apply list_elem_of_fmap. exists a. split; [done|]. unfold slots.
  apply list_elem_of_filter. split; [by apply Z.eqb_eq|]. apply elem_of_seqZ. lia.
Qed.

Lemma land_mask x : 0 ≤ x < 2 ^ 32 → Z.land x (u32 (Z.lnot 7)) = x - x mod 8.
Proof.
  intros Hx. change (u32 (Z.lnot 7)) with (Z.land (Z.ones 32) (Z.lnot (Z.ones 3))).
  rewrite Z.land_assoc, Z.land_ones, Z.mod_small by lia. rewrite <- Z.ldiff_land, Z.ldiff_ones_r by lia.
  rewrite Z.shiftr_div_pow2, Z.shiftl_mul_pow2 by lia. change (2 ^ 3) with 8. Z.to_euclidean_division_equations. lia.
Qed.

Lemma aligned_heap_ok : aligned_heap = (base, ucHeap + configTOTAL_HEAP_SIZE - base).
Proof using heap_in_memory.
  unfold aligned_heap, portBYTE_ALIGNMENT, portBYTE_ALIGNMENT_MASK.
  unfold configTOTAL_HEAP_SIZE, base in *. rewrite land_7. change (2 ^ 32) with 4294967296 in *.
  destruct (ucHeap mod 8 =? 0) eqn:E; zbool; cbn [negb].
  - f_equal; Z.to_euclidean_division_equations; lia.
  - rewrite (uwrap_id 32 (ucHeap + (8 - 1))) by (unfold fits_u; change (2 ^ 32) with 4294967296; lia).
    rewrite land_mask by (change (2 ^ 32) with 4294967296; lia). cbn zeta.
    assert (ucHeap + (8 - 1) - (ucHeap + (8 - 1)) mod 8 = ucHeap + - ucHeap mod 8) as ->.
    { Z.to_euclidean_division_equations; lia. }
    assert (0 ≤ - ucHeap mod 8 < 8) by (apply Z.mod_pos_bound; lia).
    rewrite (uwrap_id 32 (_ - ucHeap)), uwrap_id; [f_equal; lia|..];
      unfold fits_u; change (2 ^ 32) with 4294967296; lia.
Qed.

Lemma end_address : Z.land (u32 (u32 (base + (ucHeap + configTOTAL_HEAP_SIZE - base)) - 8)) (u32 (Z.lnot 7)) = top.
Proof using heap_in_memory.
  assert (u32 (u32 (base + (ucHeap + configTOTAL_HEAP_SIZE - base)) - 8) = ucHeap + configTOTAL_HEAP_SIZE - 8) as ->.
  { unfold uwrap. rewrite Zminus_mod_idemp_l, Z.mod_small; [lia|]. unfold configTOTAL_HEAP_SIZE in *. lia. }
  rewrite land_mask by (unfold configTOTAL_HEAP_SIZE in *; lia). unfold top. f_equal.
  rewrite <- (Z_mod_plus_full (ucHeap + _) (- 1) 8). f_equal; lia.
Qed.

(** Every header of the array can be written. *)
Definition spans (s : heap) : Prop :=
  Start ∈ dom (hdr s) ∧ ∀ a, a mod 8 = 0 → base ≤ a ≤ top → At a ∈ dom (hdr s).

Lemma spans_same s s' : spans s → same s s' → spans s'.
Proof. intros [] []. unfold spans. by rewrite same_dom0. Qed.

Lemma heap_init_ok s : spans s → ∃ s', prvHeapInit s = Some s' ∧ rep s' initial.
Proof using heap_in_memory.
  intros Hsp. destruct base_top as (Hb8 & Hbm & Htm & Hbt & Hth & Hub & Htt). unfold prvHeapInit, portBYTE_ALIGNMENT_MASK.
  rewrite aligned_heap_ok. change xHeapStructSize with 8. rewrite end_address.
  destruct (set_next_ok Start base s) as (s1 & -> & Hs1 & Hb1 & Hn1); [apply Hsp|]. cbn [mbind option_bind].
  apply (spans_same _ _ Hsp) in Hs1 as Hsp1.
  destruct (set_size_ok Start 0 s1) as (s2 & -> & Hs2 & Hn2 & Hb2); [apply Hsp1|]. cbn [mbind option_bind pxEnd].
  apply (spans_same _ _ Hsp1) in Hs2 as Hsp2.
  set (s3 := Heap (hdr s2) top _ _ _).
  destruct (set_size_ok (At top) 0 s3) as (s4 & -> & Hs4 & Hn4 & Hb4); [by apply Hsp2; [|lia]|]. cbn [mbind option_bind].
  assert (spans s3) as Hsp3 by exact Hsp2. apply (spans_same _ _ Hsp3) in Hs4 as Hsp4.
  assert (pxEnd s4 = top) as He4 by apply (same_end _ _ Hs4). rewrite He4.
  destruct (set_next_ok (At top) 0 s4) as (s5 & -> & Hs5 & Hb5 & Hn5); [by apply Hsp4; [|lia]|]. cbn [mbind option_bind].
  apply (spans_same _ _ Hsp4) in Hs5 as Hsp5.
  assert (pxEnd s5 = top) as He5 by by rewrite (same_end _ _ Hs5).
  destruct (set_size_ok (At base) (u32 (top - base)) s5) as (s6 & -> & Hs6 & Hn6 & Hb6); [by apply Hsp5; [|lia]|].
  rewrite (uwrap_id 32 (top - base)) in Hb6 by (unfold fits_u; lia).
  cbn [mbind option_bind]. apply (spans_same _ _ Hsp5) in Hs6 as Hsp6.
  assert (pxEnd s6 = top) as He6 by by rewrite (same_end _ _ Hs6). rewrite He6.
  destruct (set_next_ok (At base) top s6) as (s7 & -> & Hs7 & Hb7 & Hn7); [by apply Hsp6; [|lia]|]. cbn [mbind option_bind].
  apply (spans_same _ _ Hsp6) in Hs7 as Hsp7.
  assert (pxEnd s7 = top) as He7 by by rewrite (same_end _ _ Hs7).
  rewrite Hb7, Hb6, decide_True by done. cbn [mbind option_bind]. rewrite He7.
  set (s8 := Heap (hdr s7) top _ _ _). exists s8. split; [done|].
  assert (∀ r, next s8 r = if decide (r = At base) then Some top else if decide (r = At top) then Some 0
                           else if decide (r = Start) then Some base else next s r) as Hn8.
  { intros r. change (next s8 r) with (next s7 r). rewrite Hn7, Hn6, Hn5, Hn4. change (next s3 r) with (next s2 r).
    by rewrite Hn2, Hn1. }
  assert (∀ r, bsize s8 r = if decide (r = At base) then Some (top - base) else if decide (r = At top) then Some 0
                            else if decide (r = Start) then Some 0 else bsize s r) as Hz8.
  { intros r. change (bsize s8 r) with (bsize s7 r). rewrite Hb7, Hb6, Hb5, Hb4. change (bsize s3 r) with (bsize s2 r).
    by rewrite Hb2, Hb1. }
  assert (At top ≠ At base) as Hne by (intros [= E]; lia).
  assert ((top - base) mod 8 = 0) by (by rewrite Zminus_mod, Hbm, Htm).
  split; cbn [tiles low initial].
  - split; try done; [by rewrite Hn8, decide_False, decide_True|by rewrite Hz8, decide_False, decide_True|apply Hsp7|apply Hsp7].
  - cbn. split_and!; lia.
  - done.
  - split.
    + intros t ->%list_elem_of_singleton _. cbn [ad sz]. by rewrite Hz8, decide_True.
    + change (links s8 Start [base; top]). split; [by rewrite Hn8|].
      split; [by rewrite Hn8, decide_True|done].
  - intros t ->%list_elem_of_singleton. done.
  - change (top - base = top - base + 0). lia.
  - done.
Qed.

Lemma spans_reset : spans reset.
Proof using heap_in_memory.
  pose proof base_top as Htop. split.
  - unfold reset. cbn [hdr]. rewrite dom_insert_L. set_solver.
  - intros a Ha Hb. apply reset_dom; unfold configTOTAL_HEAP_SIZE; [done|lia|lia].
Qed.

(** The first call sets the heap up. *)
Lemma first_malloc n : ∃ s, prvHeapInit reset = Some s ∧ rep s initial ∧ pvPortMalloc n reset = pvPortMalloc n s.
Proof using heap_in_memory.
  pose proof base_top as Htop. destruct (heap_init_ok reset spans_reset) as (s & Hs & Hrep). exists s. split_and!; [done|done|].
  unfold pvPortMalloc at 1. change (pxEnd reset) with 0. rewrite Z.eqb_refl, Hs. unfold pvPortMalloc.
  rewrite (gr_end _ (r_ground _ _ Hrep)), (proj2 (Z.eqb_neq top 0)) by lia. done.
Qed.

Lemma heap4_refines_init n os rs A : aruns (OMalloc n :: os) initial = Some (rs, A) →
  ∃ s, cruns (OMalloc n :: os) reset = Some (rs, s) ∧ rep s A.
Proof using heap_in_memory.
  intros H. destruct (first_malloc n) as (s0 & _ & Hrep & Heq).
  destruct (heap_runs_ok _ _ _ _ _ Hrep H) as (s & Hs & ?). exists s. split; [|done].
  cbn [cruns cstep] in *. by rewrite Heq.
Qed.

(** ** The application's view *)

(** The blocks of the application are the used blocks of the heap. *)
Record owns (A : astate) (live : gmap Z Z) : Prop := {
  ow_live p n : live !! p = Some n → ∃ t, t ∈ tiles A ∧ is_free t = false ∧ p = ad t + 8 ∧ n + 8 ≤ sz t;
  ow_tile t : t ∈ tiles A → is_free t = false → is_Some (live !! (ad t + 8))
}.

Lemma tiled_inj ts a e t u : tiled a ts e → t ∈ ts → u ∈ ts → ad t = ad u → t = u.
Proof.
  intros Ht (l1 & l2 & ->)%list_elem_of_split Hu E. assert (u = t ∨ u ∈ l1 ++ l2) as [|Hu'] by set_solver; [done|].
  exfalso. by eapply (tiled_middle l1 t l2).
Qed.

Lemma tiled_apart ts a e t u : tiled a ts e → t ∈ ts → u ∈ ts → ad t ≠ ad u →
  ad t + sz t ≤ ad u ∨ ad u + sz u ≤ ad t.
Proof.
  intros Ht (l1 & l2 & ->)%list_elem_of_split Hu E. apply tiled_app in Ht as (m & H1 & <- & _ & _ & H2). fold tiled in H2.
  apply elem_of_app in Hu as [Hu|[-> |Hu]%elem_of_cons]; [|done|].
  - pose proof (tiled_in _ _ _ _ H1 Hu). lia.
  - pose proof (tiled_in _ _ _ _ H2 Hu). lia.
Qed.

Lemma owns_allowed A live o : tiled base (tiles A) top → owns A live → allowed o live → is_Some (astep o A).
Proof using heap_in_memory.
  intros Ht Ho. destruct o as [n|p| | |a n z]; cbn [allowed astep]; try (intros; by eexists).
  - intros Hn. rewrite (proj2 (Z.ltb_ge n 0)), (proj2 (Z.leb_gt (2 ^ 32) n)) by lia. cbn [orb]. repeat case_match; by eexists.
  - intros [-> |[n Hp]]; [by eexists|]. case_match; [by eexists|].
    destruct (ow_live _ _ Ho _ _ Hp) as (t & Hin & _ & -> & _).
    assert (starts (ad t + 8 - 8) (tiles A) = true) as ->; [|by eexists].
    apply existsb_exists. exists t. split; [by apply list_elem_of_In|]. apply Z.eqb_eq. lia.
  - intros (Hal & p & m & Hp & H1 & H2). destruct (ow_live _ _ Ho _ _ Hp) as (t & Hin & Hu & -> & Hm).
    assert (owner_of a (tiles A) = true) as ->; [|rewrite Hal; by eexists].
    apply existsb_exists. exists t. split; [by apply list_elem_of_In|]. rewrite Hu, !(proj2 (Z.leb_le _ _)) by lia. done.
Qed.

Lemma join_keeps t us x : x ∈ t :: us → is_free x = false → x ∈ join t us.
Proof.
  destruct us as [|u us]; [done|]. unfold join. intros Hx Hf. destruct (is_free t) eqn:Et; [|done].
  destruct (is_free u) eqn:Eu; [|done]. cbn [andb]. assert (x ≠ t) by congruence. assert (x ≠ u) by congruence. set_solver.
Qed.

Lemma coalesce_used ts x : is_free x = false → x ∈ coalesce ts ↔ x ∈ ts.
Proof.
  intros Hf. split.
  - intros Hx. apply foldr_join_elem in Hx; [|done]. by rewrite app_nil_r in Hx.
  - induction ts as [|t ts IH]; [done|]. intros Hx. apply join_keeps; [|done]. fold (coalesce ts). set_solver.
Qed.

Lemma owns_malloc A live ts1 t ts2 u us n m : tiles A = ts1 ++ t :: ts2 → is_free t = true → is_free u = false →
  ad u = ad t → n + 8 ≤ sz u → (∀ x, x ∈ us → is_free x = false → x ∈ ts2) → (∀ x, x ∈ ts2 → x ∈ us) →
  owns A live → owns (Abs (ts1 ++ u :: us) m) (<[ad t + 8 := n]> live).
Proof.
  intros HA Hft Hu Hau Hn Hus1 Hus2 [H1 H2]. rewrite HA in *. split; cbn [tiles].
  - intros p k [[<- <-]|[Hne Hp]]%lookup_insert_Some.
    + exists u. split_and!; [set_solver|done|by rewrite Hau|done].
    + destruct (H1 _ _ Hp) as (x & Hin & Hx & ? & ?). exists x. split_and!; try done.
      assert (x ≠ t) by congruence. set_solver.
  - intros x Hin Hx. apply lookup_insert_is_Some'. destruct (decide (x = u)) as [-> |Hne]; [left; by rewrite Hau|].
    right. apply H2; [|done]. set_solver.
Qed.

Lemma owns_free A live ts1 t ts2 m : tiles A = ts1 ++ t :: ts2 → tiled base (tiles A) top → is_free t = false →
  owns A live → owns (Abs (coalesce (ts1 ++ Tile (ad t) (sz t) Free :: ts2)) m) (delete (ad t + 8) live).
Proof.
  intros HA Ht Hft [H1 H2]. rewrite HA in *. split; cbn [tiles].
  - intros p k [Hne Hp]%lookup_delete_Some. destruct (H1 _ _ Hp) as (x & Hin & Hx & -> & ?). exists x.
    split_and!; try done. apply coalesce_used; [done|]. assert (x ≠ t) by congruence. set_solver.
  - intros x Hin Hx. rewrite coalesce_used in Hin by done.
    assert (x ∈ ts1 ++ ts2) as Hx'.
    { apply elem_of_app. apply elem_of_app in Hin as [?|[-> |?]%elem_of_cons]; [by left|done|by right]. }
    rewrite lookup_delete_ne; [apply H2; [set_solver|done]|]. pose proof (tiled_middle _ _ _ _ _ _ Ht Hx'). lia.
Qed.

Lemma owns_step A live o r A' : tiled base (tiles A) top → owns A live → allowed o live → astep o A = Some (r, A') →
  owns A' (record o r live).
Proof using heap_in_memory.
  intros Ht Ho Hal. pose proof base_top as Htop. destruct o as [n|p| | |a n z]; cbn [astep record allowed] in *.
  - destruct (_ || _) eqn:E1; [done|]. destruct ((n =? 0) || _) eqn:E2; [by intros [= <- <-]|]. zbool.
    destruct (need_spec n) as (? & ? & ?); [lia|].
    destruct (first_fit_cases (need n) (tiles A)) as [(ts1 & t & ts2 & Htiles & Hft & Hw & _ & ->)|[_ ->]]; [|by intros [= <- <-]].
    assert (t ∈ tiles A) as Hin by (rewrite Htiles; set_solver). pose proof (tiled_in _ _ _ _ Ht Hin).
    intros [= <- <-]. rewrite (proj2 (Z.eqb_neq _ _)) by lia. destruct (16 <? sz t - need n).
    + eapply owns_malloc; try done; [cbn; lia| |set_solver].
      intros x Hx Hux. assert (x ≠ Tile (ad t + need n) (sz t - need n) Free) by (by intros ->). set_solver.
    + eapply owns_malloc; try done. cbn. lia.
  - destruct (p =? 0) eqn:Ep; zbool.
    + intros [= <- <-]. subst p. rewrite delete_id; [done|]. destruct (live !! 0) as [n|] eqn:E; [|done].
      destruct (ow_live _ _ Ho _ _ E) as (t & Hin & _ & ? & _). pose proof (tiled_in _ _ _ _ Ht Hin). lia.
    + destruct (starts _ _) eqn:Es; [|done]. intros [= <- <-]. apply starts_spec in Es as (ts1 & t & ts2 & HA & Hat).
      destruct Hal as [|[n Hp]]; [done|]. destruct (ow_live _ _ Ho _ _ Hp) as (x & Hin & Hx & Hpx & _).
      assert (x = t) as ->. { eapply tiled_inj; [done|done| |lia]. rewrite HA. set_solver. }
      rewrite HA, mark_free_at; [|done|].
      * rewrite Hpx. by eapply owns_free.
      * intros u Hu. rewrite HA in Ht. rewrite <- Hat. eapply tiled_middle; [done|]. set_solver.
  - by intros [= <- <-].
  - by intros [= <- <-].
  - case_match; [|done]. by intros [= <- <-].
Qed.

(** What every reachable heap is: not set up yet, or a division into blocks *)
Lemma reach_rep s live : reach s live → (s = reset ∧ live = ∅) ∨ ∃ A, rep s A ∧ owns A live.
Proof using heap_in_memory.
  induction 1 as [|o s live r s' Hr IH Hal Hstep]; [by left|].
  assert (∃ A, (∃ s0, rep s0 A ∧ cstep o s0 = Some (r, s')) ∧ owns A live ∨
               s' = reset ∧ record o r live = ∅) as (A & [((s0 & Hrep & Hs0) & Ho)|[-> ->]]).
  { destruct IH as [[-> ->]|(A & Hrep & Ho)]; [|eauto 6]. destruct o as [n|p| | |a n z]; cbn [cstep] in Hstep.
    - destruct (first_malloc n) as (s0 & _ & Hrep & Heq). exists initial. left. split.
      + exists s0. cbn [cstep]. by rewrite <- Heq.
      + split; [done|]. intros t ->%list_elem_of_singleton. done.
    - destruct Hal as [-> |[? ?]]; [|done]. exists initial. right. unfold vPortFree in Hstep. cbn in Hstep. simplify_eq.
      split; [done|]. apply delete_empty.
    - exists initial. right. by simplify_eq.
    - exists initial. right. by simplify_eq.
    - destruct Hal as (_ & ? & ? & ? & _). done. }
  - right. destruct (owns_allowed A live o) as [[r' A'] HA]; [apply Hrep|done|done|].
    destruct (heap_step_ok _ _ _ _ _ Hrep HA) as (s1 & Hs1 & Hrep1). rewrite Hs0 in Hs1. simplify_eq.
    exists A'. split; [done|]. eapply owns_step; [apply Hrep|done|done|done].
  - by left.
Qed.

Lemma reach_progress s live o : reach s live → allowed o live → is_Some (cstep o s).
Proof using heap_in_memory.
  intros Hr Hal. destruct (reach_rep _ _ Hr) as [[-> ->]|(A & Hrep & Ho)].
  - destruct o as [n|p| | |a n z]; cbn [cstep].
    + destruct (first_malloc n) as (s0 & _ & Hrep & Heq). rewrite Heq.
      destruct (owns_allowed initial ∅ (OMalloc n)) as [[r A] HA]; [apply Hrep| |done|].
      * split; [done|]. intros t ->%list_elem_of_singleton. done.
      * destruct (heap_step_ok _ _ _ _ _ Hrep HA) as (s1 & Hs1 & _). by eexists.
    + destruct Hal as [-> |[? ?]]; [by eexists|done].
    + by eexists.
    + by eexists.
    + destruct Hal as (_ & ? & ? & ? & _). done.
  - destruct (owns_allowed A live o) as [[r A'] HA]; [apply Hrep|done|done|].
    destruct (heap_step_ok _ _ _ _ _ Hrep HA) as (s1 & Hs1 & _). by eexists.
Qed.

Lemma all_free ts a e : tiled a ts e → coalesced ts → a < e → (∀ t, t ∈ ts → is_free t = true) → ts = [Tile a (e - a) Free].
Proof.
  intros Ht Hc Hae Hf. destruct ts as [|t [|u ts]].
  - cbn in Ht. lia.
  - assert (is_free t = true) as Hft by (apply Hf; set_solver). unfold is_free in Hft. apply bool_decide_eq_true in Hft.
    destruct t as [b z x]. cbn in *. destruct Ht as (-> & _ & _ & <-). subst. repeat f_equal. lia.
  - destruct Hc as [Hc _]. rewrite !Hf in Hc by set_solver. done.
Qed.

(** A sequence of calls with its results, as the application keeps account of it *)
Fixpoint follows (os : list op) (rs : list Z) (live : gmap Z Z) : gmap Z Z :=
  match os, rs with
  | o :: os, r :: rs => follows os rs (record o r live)
  | _, _ => live
  end.
Fixpoint obeys (os : list op) (rs : list Z) (live : gmap Z Z) : Prop :=
  match os, rs with
  | o :: os, r :: rs => allowed o live ∧ obeys os rs (record o r live)
  | _, _ => True
  end.

Lemma reach_cruns os : ∀ s live rs s', reach s live → cruns os s = Some (rs, s') → obeys os rs live →
  reach s' (follows os rs live).
Proof.
  induction os as [|o os IH]; intros s live rs s' Hr; cbn [cruns]; [intros [= <- <-]; eauto|].
  destruct (cstep o s) as [[r s1]|] eqn:E1; [|done]. cbn [mbind option_bind].
  destruct (cruns os s1) as [[rs1 s2]|] eqn:E2; [|done]. cbn [mbind option_bind]. intros [= <- <-] [Hal Hob].
  eapply IH; [|done|done]. by eapply reach_step.
Qed.

(** C5. The allocator behaves as its specification: in every sequence of calls that
    begins with an allocation, every allocation returns the address the first fit
    gives and NULL just when no free block is large enough, freeing joins the block
    with free neighbours, and the two counters are the number of free bytes and its
    minimum; none of the calls touches memory outside the array. *)
Theorem heap4_refines n os rs A : aruns (OMalloc n :: os) initial = Some (rs, A) →
  ∃ s, cruns (OMalloc n :: os) reset = Some (rs, s) ∧ rep s A.
Proof using heap_in_memory. apply heap4_refines_init. Qed.

(** The blocks of an application are in the array. *)
Lemma live_inside s live p n : reach s live → live !! p = Some n →
  p mod 8 = 0 ∧ ucHeap + 8 ≤ p ∧ p + n ≤ ucHeap + configTOTAL_HEAP_SIZE.
Proof using heap_in_memory.
  intros Hr Hp. pose proof base_top as Htop. destruct (reach_rep _ _ Hr) as [[-> ->]|(A & [_ Ht _ _ _ _ _] & Ho)]; [done|].
  destruct (ow_live _ _ Ho _ _ Hp) as (t & Hin & _ & -> & Hn).
  pose proof (tiled_in _ _ _ _ Ht Hin). pose proof (tile_aligned _ _ base top ltac:(lia) Ht Hin).
  unfold configTOTAL_HEAP_SIZE. split_and!; [|lia|lia]. Z.to_euclidean_division_equations. lia.
Qed.

(** They do not overlap, nor does one cover the header of another. *)
Lemma live_apart s live p n q m : reach s live → live !! p = Some n → live !! q = Some m → p ≠ q → p + n ≤ q - 8 ∨ q + m ≤ p - 8.
Proof using heap_in_memory.
  intros Hr. destruct (reach_rep _ _ Hr) as [[-> ->]|(A & [_ Ht _ _ _ _ _] & Ho)]; [done|].
  intros Hp Hq Hne. destruct (ow_live _ _ Ho _ _ Hp) as (t & Hint & _ & -> & Hn).
  destruct (ow_live _ _ Ho _ _ Hq) as (u & Hinu & _ & -> & Hm).
  destruct (tiled_apart _ _ _ _ _ Ht Hint Hinu); lia.
Qed.

(** The blocks in the free list of a heap that has been set up: the chain from xStart to
    pxEnd, whose blocks lie between the beginning of the array and pxEnd and have no byte in
    common with a block of the application or its header. *)
Definition free_blocks_apart (s : heap) (live : gmap Z Z) : Prop :=
  ∃ l, links s Start (l ++ [pxEnd s]) ∧
    ∀ f, f ∈ l → ∃ z, bsize s (At f) = Some z ∧ 16 ≤ z ∧ ucHeap ≤ f ∧ f + z ≤ pxEnd s ∧
      ∀ p n, live !! p = Some n → p + n ≤ f ∨ f + z ≤ p - 8.

Lemma reach_free_apart s live : reach s live → pxEnd s ≠ 0 → free_blocks_apart s live.
Proof using heap_in_memory.
  intros Hr He. pose proof base_top as Htop. destruct (reach_rep _ _ Hr) as [[-> _]|(A & [Hg Ht _ [Hf Hl] _ _ _] & Ho)]; [done|].
  exists (frees (tiles A)). rewrite (gr_end _ Hg). split; [done|]. intros f (t & Hin & Hft & <-)%elem_of_frees.
  pose proof (tiled_in _ _ _ _ Ht Hin) as (? & ? & ? & _). exists (sz t). split_and!; [by apply Hf|lia|lia|lia|].
  intros p n Hp. destruct (ow_live _ _ Ho _ _ Hp) as (u & Hinu & Hu & -> & Hn).
  destruct (tiled_apart _ _ _ t u Ht Hin Hinu); [|lia|lia]. intros E.
  assert (t = u) as -> by (by eapply tiled_inj). congruence.
Qed.

(** They end before the end marker. *)
Lemma live_below_end s live p n : reach s live → live !! p = Some n → p + n ≤ pxEnd s ∧ pxEnd s + 8 ≤ ucHeap + configTOTAL_HEAP_SIZE.
Proof using heap_in_memory.
  intros Hr Hp. pose proof base_top as Htop. destruct (reach_rep _ _ Hr) as [[-> ->]|(A & [Hg Ht _ _ _ _ _] & Ho)]; [done|].
  destruct (ow_live _ _ Ho _ _ Hp) as (t & Hin & _ & -> & Hn). rewrite (gr_end _ Hg).
  pose proof (tiled_in _ _ _ _ Ht Hin). unfold configTOTAL_HEAP_SIZE. lia.
Qed.

(** C20. Whatever an application does with its blocks (it frees its own and writes into
    them), the next call terminates without an access outside the array; its blocks are
    aligned and lie inside the array, before the end marker pxEnd and its header; they do
    not overlap, nor does one cover the header of another; and none has a byte, of its own
    or of its header, in common with a block of the free list, header included. *)
Theorem heap4_safe s live : reach s live →
  (∀ o, allowed o live → is_Some (cstep o s)) ∧
  (∀ p n, live !! p = Some n → p mod 8 = 0 ∧ ucHeap + 8 ≤ p ∧ p + n ≤ pxEnd s ∧ pxEnd s + 8 ≤ ucHeap + configTOTAL_HEAP_SIZE) ∧
  (∀ p n q m, live !! p = Some n → live !! q = Some m → p ≠ q → p + n ≤ q - 8 ∨ q + m ≤ p - 8) ∧
  (pxEnd s ≠ 0 → free_blocks_apart s live).
Proof using heap_in_memory.
  intros Hr. split_and!; [by intros; eapply reach_progress| |by intros; eapply live_apart|by apply reach_free_apart].
  intros p n Hp. destruct (live_inside _ _ _ _ Hr Hp) as (? & ? & _). destruct (live_below_end _ _ _ _ Hr Hp). done.
Qed.

(** The heap does not fragment for good: once an application has freed all its
    blocks, in whatever order, the whole heap is one free block again, all its bytes
    are counted as free, and a request succeeds just when the heap at reset could have
    satisfied it. *)
Theorem heap4_reclaims s n : reach s ∅ → pxEnd s ≠ 0 → 0 < n < 2 ^ 31 →
  xPortGetFreeHeapSize s = top - base ∧ hdr s !! At base = Some (Hdr top (top - base)) ∧
  ∃ s' r, pvPortMalloc n s = Some (r, s') ∧ r = if need n <=? top - base then base + 8 else 0.
Proof using heap_in_memory.
  intros Hr He Hn. pose proof base_top as Htop. destruct (reach_rep _ _ Hr) as [[-> _]|(A & Hrep & Ho)]; [done|].
  pose proof Hrep as [Hg Ht Hco [Hf Hl] _ Hfree _].
  assert (tiles A = [Tile base (top - base) Free]) as HA.
  { apply all_free; [done|done|lia|]. intros t Hin. destruct (is_free t) eqn:E; [done|].
    by destruct (ow_tile _ _ Ho t Hin E). }
  rewrite HA in Hf, Hl, Hfree. split_and!.
  - unfold xPortGetFreeHeapSize. rewrite Hfree, free_bytes_cons, is_free_Free. cbn [sz]. change (free_bytes []) with 0. lia.
  - specialize (Hf (Tile base (top - base) Free) ltac:(set_solver) eq_refl). destruct Hl as (_ & Hl & _).
    cbn [ad sz] in Hf, Hl. unfold next, bsize in *. destruct (hdr s !! At base) as [[]|]; naive_solver.
  - destruct (astep (OMalloc n) A) as [[r A']|] eqn:E.
    + destruct (malloc_ok _ _ _ _ _ Hrep E) as (s' & Hs & _). exists s', r. split; [done|].
      cbn [astep] in E. rewrite HA in E. cbn [first_fit] in E. rewrite is_free_Free in E. cbn [sz ad andb] in E.
      destruct (need n <=? top - base); cases; lia || done.
    + destruct (owns_allowed A ∅ (OMalloc n)) as [? H]; [done|done|cbn [allowed]; lia|]. by rewrite E in H.
Qed.

End heap.

(** ** Witnesses *)

Definition demo_heap : Z := 4099.
Definition demo_ops : list op :=
  [OMalloc 50; OMalloc 7; OFreeSize; OFree 4112; OFree 4112; OScribble 4224 5 5; OMalloc 90; OMalloc 30000; OFree 4288; OMinimum].

Lemma demo_memory : 0 < demo_heap ∧ demo_heap + configTOTAL_HEAP_SIZE ≤ 2 ^ 32.
Proof. by vm_compute. Qed.

Lemma heap4_refines_witness : ∃ s,
  cruns demo_heap (OMalloc 100 :: demo_ops) (reset demo_heap) =
    Some ([4112; 4224; 4288; 20272; 0; 0; 0; 4112; 0; 0; 20272], s).
Proof.
  destruct (heap4_refines demo_heap demo_memory 100 demo_ops
    [4112; 4224; 4288; 20272; 0; 0; 0; 4112; 0; 0; 20272]
    (Abs [Tile 4104 112 Used; Tile 4216 64 Used; Tile 4280 20288 Free] 20272) eq_refl) as (s & Hs & _).
  by exists s.
Defined.

Lemma demo_live : ∃ s, reach demo_heap s (<[4224 := 50]> {[4112 := 100]}).
Proof.
  destruct (heap4_refines_init demo_heap demo_memory 100 [OMalloc 50] [4112; 4224] _ eq_refl) as (s & Hs & _).
  exists s. refine (reach_cruns demo_heap [OMalloc 100; OMalloc 50] (reset demo_heap) ∅ [4112; 4224] s
    (reach_reset demo_heap) Hs _). by repeat split.
Qed.

Lemma heap4_safe_witness : ∃ s (live : gmap Z Z), is_Some (cstep demo_heap (OFree 4112) s) ∧ live !! 4112 = Some 100 ∧
  live !! 4224 = Some 50 ∧ (4112 + 100 ≤ 4224 - 8 ∨ 4224 + 50 ≤ 4112 - 8).
Proof.
  destruct demo_live as [s Hs]. exists s, (<[4224 := 50]> {[4112 := 100]}).
  destruct (heap4_safe demo_heap demo_memory s _ Hs) as (Hp & _ & Hd & _). split_and!; try done.
  - apply Hp. right. by eexists.
  - by eapply (Hd 4112 100 4224 50).
Defined.

Definition demo_pair : list op := [OMalloc 100; OMalloc 50; OFree 4112; OFree 4224].

Lemma demo_obeys : obeys demo_pair [4112; 4224; 0; 0] ∅.
Proof. repeat split; try (vm_compute; congruence); right; by eexists. Qed.

Lemma demo_freed : ∃ s, reach demo_heap s ∅ ∧ pxEnd s ≠ 0.
Proof.
  destruct (heap4_refines_init demo_heap demo_memory 100 (tail demo_pair) [4112; 4224; 0; 0] _ eq_refl) as (s & Hs & Hrep).
  pose proof (reach_cruns demo_heap demo_pair (reset demo_heap) ∅ [4112; 4224; 0; 0] s (reach_reset demo_heap) Hs demo_obeys) as Hr.
  assert (follows demo_pair [4112; 4224; 0; 0] ∅ = ∅) as E by (vm_compute; exact eq_refl).
  rewrite E in Hr. exists s. split; [exact Hr|].
  rewrite (gr_end _ _ (r_ground _ _ _ Hrep)). vm_compute. congruence.
Qed.

Lemma heap4_reclaims_witness : ∃ s, xPortGetFreeHeapSize s = 20464 ∧
  ∃ s' r, pvPortMalloc demo_heap 20000 s = Some (r, s') ∧ r = 4112.
Proof.
  destruct demo_freed as (s & Hs & He). exists s.
  destruct (heap4_reclaims demo_heap demo_memory s 20000 Hs He) as (Hf & _ & s' & r & Hm & Hr); [done|].
  split; [exact Hf|]. exists s', r. split; [done|]. by vm_compute in Hr.
Defined.

End RtosHeap.
