(* ===== verification/RtosAlloc.v ===== *)
(** * What FreeRTOS asks of its heap

    [Allocator] states what the creation of queues relies on: every request is answered
    with NULL or with a block of its own inside the heap.  It is met by heap_1.c, the
    allocator that the Makefile of the demo links, which is modelled here, and by heap_4.c
    of [RtosHeap]. *)

From S2P Require Import Prelude RtosHeap.
Import RtosHeap.

Module RtosAlloc.

(** [a_ok s live]: an application that has the blocks [live] can have brought the heap into
    the state [s].  The heap lies between [a_low] and [a_high]. *)
Class Allocator (S : Type) := {
  a_malloc : Z → S → option (Z * S);
  a_ok : S → gmap Z Z → Prop;
  a_low : Z;
  a_high : Z;
  a_answers s live n : a_ok s live → 0 ≤ n < 2 ^ 32 → ∃ p s', a_malloc n s = Some (p, s') ∧ a_ok s' (if p =? 0 then live else <[p := n]> live);
  a_inside s live p n : a_ok s live → live !! p = Some n → a_low ≤ p ∧ p + n ≤ a_high;
  a_apart s live p n q m : a_ok s live → live !! p = Some n → live !! q = Some m → p ≠ q → p + n ≤ q ∨ q + m ≤ p
}.

(** ** heap_1.c: blocks are taken one after the other and never given back *)

Record heap1 := Heap1 { xNextFreeByte : Z; pucAlignedHeap : Z }.
Definition configADJUSTED_HEAP_SIZE : Z := configTOTAL_HEAP_SIZE - portBYTE_ALIGNMENT.
Definition heap1_reset : heap1 := Heap1 0 0.

Section heap1.
Variable ucHeap : Z.

(** The size, rounded up *)
Definition heap1_round (xWantedSize : Z) : Z :=
  if negb (Z.land xWantedSize portBYTE_ALIGNMENT_MASK =? 0)
  then u32 (xWantedSize + (portBYTE_ALIGNMENT - Z.land xWantedSize portBYTE_ALIGNMENT_MASK)) else xWantedSize.

Definition heap1_malloc (xWantedSize : Z) (s : heap1) : Z * heap1 :=
  let xWantedSize := heap1_round xWantedSize in
  let s := if pucAlignedHeap s =? 0
           then Heap1 (xNextFreeByte s) (Z.land (u32 (ucHeap + portBYTE_ALIGNMENT)) (u32 (Z.lnot portBYTE_ALIGNMENT_MASK))) else s in
  if (u32 (xNextFreeByte s + xWantedSize) <? configADJUSTED_HEAP_SIZE) && (xNextFreeByte s <? u32 (xNextFreeByte s + xWantedSize))
  then (u32 (pucAlignedHeap s + xNextFreeByte s), Heap1 (u32 (xNextFreeByte s + xWantedSize)) (pucAlignedHeap s))
  else (0, s).

(** Only needed when static memory is not cleared at reset *)
Definition heap1_initialise_blocks (s : heap1) : heap1 := Heap1 0 (pucAlignedHeap s).
(** configASSERT is not defined. *)
Definition heap1_free (pv : Z) (s : heap1) : heap1 := s.
Definition heap1_free_size (s : heap1) : Z := u32 (configADJUSTED_HEAP_SIZE - xNextFreeByte s).

Hypothesis heap_in_memory : 0 < ucHeap ∧ ucHeap + configTOTAL_HEAP_SIZE < 2 ^ 32.

Definition first_block : Z := ucHeap + 8 - (ucHeap + 8) mod 8.

(** What is used is a prefix of the aligned array, in which the blocks are apart. *)
Record heap1_ok (s : heap1) (live : gmap Z Z) : Prop := {
  h1_base : pucAlignedHeap s = first_block ∨ pucAlignedHeap s = 0 ∧ xNextFreeByte s = 0;
  h1_next : 0 ≤ xNextFreeByte s < configADJUSTED_HEAP_SIZE;
  h1_aligned : xNextFreeByte s mod 8 = 0;
  h1_live p n : live !! p = Some n → 0 ≤ n ∧ p mod 8 = 0 ∧ first_block ≤ p ∧ p + n ≤ first_block + xNextFreeByte s;
  h1_apart p n q m : live !! p = Some n → live !! q = Some m → p ≠ q → p + n ≤ q ∨ q + m ≤ p
}.

Lemma heap1_round_ok n : 0 ≤ n < 2 ^ 32 → heap1_round n mod 8 = 0 ∧ (n ≤ heap1_round n < 2 ^ 32 ∨ heap1_round n = 0).
Proof.
  intros Hn. unfold heap1_round, portBYTE_ALIGNMENT, portBYTE_ALIGNMENT_MASK. rewrite land_7. destruct (Z.eqb_spec (n mod 8) 0) as [E|E]; cbn [negb]; [split; [done|lia]|].
  unfold uwrap. change (2 ^ 32) with 4294967296 in *. Z.to_euclidean_division_equations. lia.
Qed.

Lemma first_block_ok : 8 ≤ first_block ∧ first_block mod 8 = 0 ∧ ucHeap < first_block ≤ ucHeap + 8.
Proof using heap_in_memory. unfold first_block, configTOTAL_HEAP_SIZE in *. change (2 ^ 32) with 4294967296 in *. Z.to_euclidean_division_equations. lia. Qed.

Lemma heap1_base : Z.land (u32 (ucHeap + portBYTE_ALIGNMENT)) (u32 (Z.lnot portBYTE_ALIGNMENT_MASK)) = first_block.
Proof using heap_in_memory.
  unfold portBYTE_ALIGNMENT, portBYTE_ALIGNMENT_MASK, first_block, configTOTAL_HEAP_SIZE in *. rewrite uwrap_id by (unfold fits_u; lia). apply land_mask. lia.
Qed.

(** An allocation fails just when the rounded size does not fit into the rest. *)
Lemma heap1_malloc_ok s live n : heap1_ok s live → 0 ≤ n < 2 ^ 32 →
  let '(p, s') := heap1_malloc n s in
  heap1_ok s' (if p =? 0 then live else <[p := n]> live) ∧
  p = if (0 <? heap1_round n) && (xNextFreeByte s + heap1_round n <? configADJUSTED_HEAP_SIZE) then first_block + xNextFreeByte s else 0.
Proof using heap_in_memory.
  intros [Hb Hn Ha Hl Hd] Hw. destruct (heap1_round_ok n Hw) as [Hr8 Hr]. pose proof first_block_ok as (F1 & F2 & F3). unfold heap1_malloc.
  set (s1 := if pucAlignedHeap s =? 0 then _ else s). assert (pucAlignedHeap s1 = first_block ∧ xNextFreeByte s1 = xNextFreeByte s) as [E1 E2].
  { subst s1. destruct (Z.eqb_spec (pucAlignedHeap s) 0); cbn; rewrite ?heap1_base; [done|]. destruct Hb as [|[? _]]; done. }
  rewrite E1, E2. set (x := xNextFreeByte s) in *. set (r := heap1_round n) in *. unfold configADJUSTED_HEAP_SIZE, configTOTAL_HEAP_SIZE, portBYTE_ALIGNMENT in *.
  assert ((u32 (x + r) <? 20480 - 8) && (x <? u32 (x + r)) = (0 <? r) && (x + r <? 20480 - 8)) as ->.
  { assert (0 ≤ r < 2 ^ 32) as Hr0 by lia. unfold uwrap. change (2 ^ 32) with 4294967296 in *. destruct (decide (x + r < 4294967296)) as [Hlt|Hge].
    - rewrite Z.mod_small by lia. destruct (Z.ltb_spec (x + r) (20480 - 8)), (Z.ltb_spec x (x + r)), (Z.ltb_spec 0 r); cbn; lia.
    - assert ((x + r) mod 4294967296 = x + r - 4294967296) as -> by (Z.to_euclidean_division_equations; lia).
      destruct (Z.ltb_spec (x + r - 4294967296) (20480 - 8)), (Z.ltb_spec x (x + r - 4294967296)), (Z.ltb_spec 0 r), (Z.ltb_spec (x + r) (20480 - 8)); cbn; lia. }
  destruct ((0 <? r) && (x + r <? 20480 - 8)) eqn:E.
  - apply andb_true_iff in E as [Er Ex]. zbool. rewrite (uwrap_id 32 (x + r)), (uwrap_id 32 (first_block + x)) by (unfold fits_u; lia). cbv beta iota. split; [|done].
    rewrite (proj2 (Z.eqb_neq (first_block + x) 0)) by lia. split; cbn [xNextFreeByte pucAlignedHeap]; unfold configADJUSTED_HEAP_SIZE, configTOTAL_HEAP_SIZE, portBYTE_ALIGNMENT.
    + by left.
    + lia.
    + Z.to_euclidean_division_equations. lia.
    + intros p k [[<- <-]|[_ Hk]]%lookup_insert_Some; [split_and!; [lia|Z.to_euclidean_division_equations; lia|lia|lia]|]. destruct (Hl p k Hk) as (? & ? & ? & ?). split_and!; lia.
    + intros p k q j [[<- <-]|[_ Hk]]%lookup_insert_Some [[<- <-]|[_ Hj]]%lookup_insert_Some Hne.
      * done.
      * destruct (Hl _ _ Hj) as (? & ? & ? & ?). lia.
      * destruct (Hl _ _ Hk) as (? & ? & ? & ?). lia.
      * by eapply Hd.
  - split; [|done]. cbn [Z.eqb]. split; rewrite ?E1, ?E2; try done. by left.
Qed.

Lemma heap1_ok_reset : heap1_ok heap1_reset ∅.
Proof. split; cbn; [by right|by vm_compute|done|intros p n; by rewrite lookup_empty|intros p n q m; by rewrite lookup_empty]. Qed.

Lemma heap1_answers s live n : heap1_ok s live → 0 ≤ n < 2 ^ 32 →
  ∃ p s', Some (heap1_malloc n s) = Some (p, s') ∧ heap1_ok s' (if p =? 0 then live else <[p := n]> live).
Proof using heap_in_memory.
  intros Hs Hn. pose proof (heap1_malloc_ok s live n Hs Hn) as H. destruct (heap1_malloc n s) as [p s']. exists p, s'. by split; [|apply H].
Qed.

Lemma heap1_inside s live p n : heap1_ok s live → live !! p = Some n → ucHeap ≤ p ∧ p + n ≤ ucHeap + configTOTAL_HEAP_SIZE.
Proof using heap_in_memory.
  intros [_ Hx _ Hl _] Hp. pose proof first_block_ok as (_ & _ & ?). destruct (Hl p n Hp) as (? & ? & ? & ?).
  unfold configADJUSTED_HEAP_SIZE, configTOTAL_HEAP_SIZE, portBYTE_ALIGNMENT in *. lia.
Qed.

Instance heap1_allocator : Allocator heap1 := {|
  a_malloc n s := Some (heap1_malloc n s);
  a_ok := heap1_ok;
  a_low := ucHeap;
  a_high := ucHeap + configTOTAL_HEAP_SIZE;
  a_answers := heap1_answers;
  a_inside := heap1_inside;
  a_apart s live p n q m Hs := h1_apart s live Hs p n q m
|}.

End heap1.

(** ** heap_4.c *)

Section heap4.
Variable ucHeap : Z.
Hypothesis heap_in_memory : 0 < ucHeap ∧ ucHeap + configTOTAL_HEAP_SIZE < 2 ^ 32.

Lemma heap4_memory : 0 < ucHeap ∧ ucHeap + configTOTAL_HEAP_SIZE ≤ 2 ^ 32.
Proof using heap_in_memory. lia. Qed.

Lemma heap4_answers s live n : reach ucHeap s live → 0 ≤ n < 2 ^ 32 →
  ∃ p s', pvPortMalloc ucHeap n s = Some (p, s') ∧ reach ucHeap s' (if p =? 0 then live else <[p := n]> live).
Proof using heap_in_memory.
  intros Hs Hn. destruct (reach_progress ucHeap heap4_memory s live (OMalloc n) Hs Hn) as [[p s'] E]. exists p, s'. split; [exact E|].
  exact (reach_step ucHeap (OMalloc n) s live p s' Hs Hn E).
Qed.

Lemma heap4_inside s live p n : reach ucHeap s live → live !! p = Some n → ucHeap ≤ p ∧ p + n ≤ ucHeap + configTOTAL_HEAP_SIZE.
Proof using heap_in_memory. intros Hs Hp. destruct (live_inside ucHeap heap4_memory s live p n Hs Hp) as (_ & ? & ?). lia. Qed.

Lemma heap4_apart s live p n q m : reach ucHeap s live → live !! p = Some n → live !! q = Some m → p ≠ q → p + n ≤ q ∨ q + m ≤ p.
Proof using heap_in_memory. intros Hs Hp Hq Hne. destruct (live_apart ucHeap heap4_memory s live p n q m Hs Hp Hq Hne); lia. Qed.

Instance heap4_allocator : Allocator heap := {|
  a_malloc := pvPortMalloc ucHeap;
  a_ok := reach ucHeap;
  a_low := ucHeap;
  a_high := ucHeap + configTOTAL_HEAP_SIZE;
  a_answers := heap4_answers;
  a_inside := heap4_inside;
  a_apart := heap4_apart
|}.

End heap4.

End RtosAlloc.
