(* ===== verification/RtosTask.v ===== *)
(** * The scheduler of FreeRTOS

    Models ldd-k4/arm/FreeRTOS-GCC-ARM926ejs/FreeRTOS/Source/tasks.c as it is configured
    by Demo/FreeRTOSConfig.h (preemptive with time slices, five priorities, 32 bit
    ticks, no mutexes, no trace or statistics, no tickless idle), with vTickISR of
    portable/GCC/ARM926EJ-S/portISR.c.

    The variables of the file are the record [sched].  The lists and the list items of
    the task control blocks are in a memory of lists, which the operations only touch
    through list.c: they are written for any implementation of its calls
    ([ListMem]) and run over the linked rings of [RtosList.mem] as well as over the
    sequences that specify them; [sim] says that the two agree.

    A kernel call is a function on the two states.  [None] is a pointer that leads
    nowhere, or a use of a list against its rules.  A yield is the call of
    vTaskSwitchContext that the software interrupt makes; what the task does after it,
    when it runs again, is a function of its own.  Critical sections are not broken by
    interrupts, so calls of tasks and of interrupt handlers come in any order, one at a
    time. *)

From S2P Require Import Prelude RtosList.
Import RtosList.

Module RtosTask.

Definition configMAX_PRIORITIES : nat := 5.
Definition tskIDLE_PRIORITY : nat := 0.
Definition taskEVENT_LIST_ITEM_VALUE_IN_USE : Z := 0x80000000.

(** ** Memory of lists *)

Class ListMem (M : Type) := list_step : op → M → option (result * M).
#[export] Instance mem_lists : ListMem mem := cstep.
#[export] Instance spec_lists : ListMem astate := astep.

(** The lists of the scheduler; event lists of other parts of the kernel follow. *)
Definition pxReadyTasksLists (uxPriority : nat) : nat := uxPriority.
Definition xDelayedTaskList1 : nat := 5.
Definition xDelayedTaskList2 : nat := 6.
Definition xPendingReadyList : nat := 7.
Definition xTasksWaitingTermination : nat := 8.
Definition xSuspendedTaskList : nat := 9.
Definition event_list (e : nat) : nat := 10 + e.

(** The two items of a task, and the task an item is in *)
Definition xStateListItem (t : nat) : nat := 2 * t.
Definition xEventListItem (t : nat) : nat := 2 * t + 1.
Definition pvOwner_task (n : nat) : nat := Nat.div2 n.

(** ** State *)

Inductive notify_state := taskNOT_WAITING_NOTIFICATION | taskWAITING_NOTIFICATION | taskNOTIFICATION_RECEIVED.
#[export] Instance notify_state_eq_dec : EqDecision notify_state.
Proof. solve_decision. Defined.

Record TCB_t := Tcb {
  uxPriority : nat;
  ulNotifiedValue : Z;
  ucNotifyState : notify_state
}.

Record sched := Sched {
  tcbs : gmap nat TCB_t;
  pxCurrentTCB : option nat;
  pxDelayedTaskList : nat;
  pxOverflowDelayedTaskList : nat;
  uxDeletedTasksWaitingCleanUp : Z;
  uxCurrentNumberOfTasks : Z;
  xTickCount : Z;
  uxTopReadyPriority : nat;
  xSchedulerRunning : bool;
  uxPendedTicks : Z;
  xYieldPending : bool;
  xNumOfOverflows : Z;
  uxTaskNumber : Z;
  xNextTaskUnblockTime : Z;
  xIdleTaskHandle : option nat;
  uxSchedulerSuspended : Z
}.

Definition with_tcbs (x : gmap nat TCB_t) (s : sched) : sched :=
  Sched x (pxCurrentTCB s) (pxDelayedTaskList s) (pxOverflowDelayedTaskList s) (uxDeletedTasksWaitingCleanUp s)
    (uxCurrentNumberOfTasks s) (xTickCount s) (uxTopReadyPriority s) (xSchedulerRunning s) (uxPendedTicks s)
    (xYieldPending s) (xNumOfOverflows s) (uxTaskNumber s) (xNextTaskUnblockTime s) (xIdleTaskHandle s) (uxSchedulerSuspended s).
Definition with_current (x : option nat) (s : sched) : sched :=
  Sched (tcbs s) x (pxDelayedTaskList s) (pxOverflowDelayedTaskList s) (uxDeletedTasksWaitingCleanUp s)
    (uxCurrentNumberOfTasks s) (xTickCount s) (uxTopReadyPriority s) (xSchedulerRunning s) (uxPendedTicks s)
    (xYieldPending s) (xNumOfOverflows s) (uxTaskNumber s) (xNextTaskUnblockTime s) (xIdleTaskHandle s) (uxSchedulerSuspended s).
Definition with_delayed (x y : nat) (s : sched) : sched :=
  Sched (tcbs s) (pxCurrentTCB s) x y (uxDeletedTasksWaitingCleanUp s)
    (uxCurrentNumberOfTasks s) (xTickCount s) (uxTopReadyPriority s) (xSchedulerRunning s) (uxPendedTicks s)
    (xYieldPending s) (xNumOfOverflows s) (uxTaskNumber s) (xNextTaskUnblockTime s) (xIdleTaskHandle s) (uxSchedulerSuspended s).
Definition with_deleted (x : Z) (s : sched) : sched :=
  Sched (tcbs s) (pxCurrentTCB s) (pxDelayedTaskList s) (pxOverflowDelayedTaskList s) x
    (uxCurrentNumberOfTasks s) (xTickCount s) (uxTopReadyPriority s) (xSchedulerRunning s) (uxPendedTicks s)
    (xYieldPending s) (xNumOfOverflows s) (uxTaskNumber s) (xNextTaskUnblockTime s) (xIdleTaskHandle s) (uxSchedulerSuspended s).
Definition with_number (x : Z) (s : sched) : sched :=
  Sched (tcbs s) (pxCurrentTCB s) (pxDelayedTaskList s) (pxOverflowDelayedTaskList s) (uxDeletedTasksWaitingCleanUp s)
    x (xTickCount s) (uxTopReadyPriority s) (xSchedulerRunning s) (uxPendedTicks s)
    (xYieldPending s) (xNumOfOverflows s) (uxTaskNumber s) (xNextTaskUnblockTime s) (xIdleTaskHandle s) (uxSchedulerSuspended s).
Definition with_tick (x : Z) (s : sched) : sched :=
  Sched (tcbs s) (pxCurrentTCB s) (pxDelayedTaskList s) (pxOverflowDelayedTaskList s) (uxDeletedTasksWaitingCleanUp s)
    (uxCurrentNumberOfTasks s) x (uxTopReadyPriority s) (xSchedulerRunning s) (uxPendedTicks s)
    (xYieldPending s) (xNumOfOverflows s) (uxTaskNumber s) (xNextTaskUnblockTime s) (xIdleTaskHandle s) (uxSchedulerSuspended s).
Definition with_top (x : nat) (s : sched) : sched :=
  Sched (tcbs s) (pxCurrentTCB s) (pxDelayedTaskList s) (pxOverflowDelayedTaskList s) (uxDeletedTasksWaitingCleanUp s)
    (uxCurrentNumberOfTasks s) (xTickCount s) x (xSchedulerRunning s) (uxPendedTicks s)
    (xYieldPending s) (xNumOfOverflows s) (uxTaskNumber s) (xNextTaskUnblockTime s) (xIdleTaskHandle s) (uxSchedulerSuspended s).
Definition with_running (x : bool) (s : sched) : sched :=
  Sched (tcbs s) (pxCurrentTCB s) (pxDelayedTaskList s) (pxOverflowDelayedTaskList s) (uxDeletedTasksWaitingCleanUp s)
    (uxCurrentNumberOfTasks s) (xTickCount s) (uxTopReadyPriority s) x (uxPendedTicks s)
    (xYieldPending s) (xNumOfOverflows s) (uxTaskNumber s) (xNextTaskUnblockTime s) (xIdleTaskHandle s) (uxSchedulerSuspended s).
Definition with_pended (x : Z) (s : sched) : sched :=
  Sched (tcbs s) (pxCurrentTCB s) (pxDelayedTaskList s) (pxOverflowDelayedTaskList s) (uxDeletedTasksWaitingCleanUp s)
    (uxCurrentNumberOfTasks s) (xTickCount s) (uxTopReadyPriority s) (xSchedulerRunning s) x
    (xYieldPending s) (xNumOfOverflows s) (uxTaskNumber s) (xNextTaskUnblockTime s) (xIdleTaskHandle s) (uxSchedulerSuspended s).
Definition with_yield (x : bool) (s : sched) : sched :=
  Sched (tcbs s) (pxCurrentTCB s) (pxDelayedTaskList s) (pxOverflowDelayedTaskList s) (uxDeletedTasksWaitingCleanUp s)
    (uxCurrentNumberOfTasks s) (xTickCount s) (uxTopReadyPriority s) (xSchedulerRunning s) (uxPendedTicks s)
    x (xNumOfOverflows s) (uxTaskNumber s) (xNextTaskUnblockTime s) (xIdleTaskHandle s) (uxSchedulerSuspended s).
Definition with_overflows (x : Z) (s : sched) : sched :=
  Sched (tcbs s) (pxCurrentTCB s) (pxDelayedTaskList s) (pxOverflowDelayedTaskList s) (uxDeletedTasksWaitingCleanUp s)
    (uxCurrentNumberOfTasks s) (xTickCount s) (uxTopReadyPriority s) (xSchedulerRunning s) (uxPendedTicks s)
    (xYieldPending s) x (uxTaskNumber s) (xNextTaskUnblockTime s) (xIdleTaskHandle s) (uxSchedulerSuspended s).
Definition with_task_number (x : Z) (s : sched) : sched :=
  Sched (tcbs s) (pxCurrentTCB s) (pxDelayedTaskList s) (pxOverflowDelayedTaskList s) (uxDeletedTasksWaitingCleanUp s)
    (uxCurrentNumberOfTasks s) (xTickCount s) (uxTopReadyPriority s) (xSchedulerRunning s) (uxPendedTicks s)
    (xYieldPending s) (xNumOfOverflows s) x (xNextTaskUnblockTime s) (xIdleTaskHandle s) (uxSchedulerSuspended s).
Definition with_unblock (x : Z) (s : sched) : sched :=
  Sched (tcbs s) (pxCurrentTCB s) (pxDelayedTaskList s) (pxOverflowDelayedTaskList s) (uxDeletedTasksWaitingCleanUp s)
    (uxCurrentNumberOfTasks s) (xTickCount s) (uxTopReadyPriority s) (xSchedulerRunning s) (uxPendedTicks s)
    (xYieldPending s) (xNumOfOverflows s) (uxTaskNumber s) x (xIdleTaskHandle s) (uxSchedulerSuspended s).
Definition with_idle (x : option nat) (s : sched) : sched :=
  Sched (tcbs s) (pxCurrentTCB s) (pxDelayedTaskList s) (pxOverflowDelayedTaskList s) (uxDeletedTasksWaitingCleanUp s)
    (uxCurrentNumberOfTasks s) (xTickCount s) (uxTopReadyPriority s) (xSchedulerRunning s) (uxPendedTicks s)
    (xYieldPending s) (xNumOfOverflows s) (uxTaskNumber s) (xNextTaskUnblockTime s) x (uxSchedulerSuspended s).
Definition with_suspended (x : Z) (s : sched) : sched :=
  Sched (tcbs s) (pxCurrentTCB s) (pxDelayedTaskList s) (pxOverflowDelayedTaskList s) (uxDeletedTasksWaitingCleanUp s)
    (uxCurrentNumberOfTasks s) (xTickCount s) (uxTopReadyPriority s) (xSchedulerRunning s) (uxPendedTicks s)
    (xYieldPending s) (xNumOfOverflows s) (uxTaskNumber s) (xNextTaskUnblockTime s) (xIdleTaskHandle s) x.

(** ** Kernel calls *)

Definition kcall (M X : Type) : Type := sched → M → option (X * sched * M).
#[export] Instance kcall_ret M : MRet (kcall M) := λ X x s m, Some (x, s, m).
#[export] Instance kcall_bind M : MBind (kcall M) := λ X Y k f s m,
  match f s m with Some (x, s, m) => k x s m | None => None end.
#[export] Instance kcall_fmap M : FMap (kcall M) := λ X Y g f, x ← f; mret (g x).

Section kernel.
Context {M : Type} `{ListMem M}.
Abbreviation K := (kcall M).

Definition fail {X} : K X := λ _ _, None.
Definition gets {X} (f : sched → X) : K X := λ s m, Some (f s, s, m).
Definition modify (f : sched → sched) : K unit := λ s m, Some ((), f s, m).
Definition list_call (o : op) : K result := λ s m,
  match list_step o m with Some (r, m) => Some (r, s, m) | None => None end.

Definition uxListRemove (n : nat) : K Z :=
  r ← list_call (ORemove n); match r with RCount k => mret k | _ => fail end.
Definition vListInsertEnd (l n : nat) : K unit := _ ← list_call (OInsertEnd l n); mret ().
Definition vListInsert (l n : nat) : K unit := _ ← list_call (OInsert l n); mret ().
Definition vListInitialise (l : nat) : K unit := _ ← list_call (OInitialise l); mret ().
Definition listSET_LIST_ITEM_VALUE (n : nat) (v : Z) : K unit := _ ← list_call (OSetValue n v); mret ().
Definition listGET_LIST_ITEM_VALUE (n : nat) : K Z :=
  r ← list_call (OValue n); match r with RCount v => mret v | _ => fail end.
Definition listCURRENT_LIST_LENGTH (l : nat) : K Z :=
  r ← list_call (OLength l); match r with RCount k => mret k | _ => fail end.
Definition listLIST_IS_EMPTY (l : nat) : K bool := k ← listCURRENT_LIST_LENGTH l; mret (k =? 0).
Definition listLIST_ITEM_CONTAINER (n : nat) : K (option nat) :=
  r ← list_call (OContainer n); match r with RList c => mret c | _ => fail end.
Definition owner_of (r : result) : K nat :=
  match r with RItem (Item n) => mret (pvOwner_task n) | _ => fail end.
Definition listGET_OWNER_OF_HEAD_ENTRY (l : nat) : K nat := r ← list_call (OHead l); owner_of r.
Definition listGET_OWNER_OF_NEXT_ENTRY (l : nat) : K nat := r ← list_call (ONext l); owner_of r.

(** ** Task control blocks *)

Definition tcb (t : nat) : K TCB_t :=
  x ← gets (λ s, tcbs s !! t); match x with Some c => mret c | None => fail end.
Definition priority (t : nat) : K nat := c ← tcb t; mret (uxPriority c).
Definition set_tcb (t : nat) (c : TCB_t) : K unit := modify (λ s, with_tcbs (<[t := c]> (tcbs s)) s).
Definition current : K nat :=
  x ← gets pxCurrentTCB; match x with Some t => mret t | None => fail end.
Definition prvGetTCBFromHandle (pxHandle : option nat) : K nat :=
  match pxHandle with None => current | Some t => mret t end.
Definition update_tcb (t : nat) (f : TCB_t → TCB_t) : K unit := c ← tcb t; set_tcb t (f c).

(** ** Ready lists *)

Definition taskRECORD_READY_PRIORITY (p : nat) : K unit :=
  top ← gets uxTopReadyPriority; if (top <? p)%nat then modify (with_top p) else mret ().

Definition prvAddTaskToReadyList (t : nat) : K unit :=
  p ← priority t;
  taskRECORD_READY_PRIORITY p;;
  vListInsertEnd (pxReadyTasksLists p) (xStateListItem t).

(** The while loop of taskSELECT_HIGHEST_PRIORITY_TASK; below priority 0 there is no
    list. *)
Fixpoint highest (uxTopPriority : nat) : K nat :=
  e ← listLIST_IS_EMPTY (pxReadyTasksLists uxTopPriority);
  if e : bool then match uxTopPriority with O => fail | S p => highest p end else mret uxTopPriority.

Definition taskSELECT_HIGHEST_PRIORITY_TASK : K unit :=
  top ← gets uxTopReadyPriority;
  uxTopPriority ← highest top;
  t ← listGET_OWNER_OF_NEXT_ENTRY (pxReadyTasksLists uxTopPriority);
  modify (with_current (Some t));;
  modify (with_top uxTopPriority).

Definition vTaskSwitchContext : K unit :=
  suspended ← gets uxSchedulerSuspended;
  if negb (suspended =? 0) then modify (with_yield true)
  else modify (with_yield false);; taskSELECT_HIGHEST_PRIORITY_TASK.

(** portYIELD and portYIELD_WITHIN_API: the software interrupt *)
Definition portYIELD : K unit := vTaskSwitchContext.

(** ** Delayed tasks *)

Definition prvResetNextTaskUnblockTime : K unit :=
  d ← gets pxDelayedTaskList;
  e ← listLIST_IS_EMPTY d;
  if e : bool then modify (with_unblock portMAX_DELAY)
  else
    t ← listGET_OWNER_OF_HEAD_ENTRY d;
    v ← listGET_LIST_ITEM_VALUE (xStateListItem t);
    modify (with_unblock v).

Definition taskSWITCH_DELAYED_LISTS : K unit :=
  d ← gets pxDelayedTaskList;
  o ← gets pxOverflowDelayedTaskList;
  modify (with_delayed o d);;
  n ← gets xNumOfOverflows;
  modify (with_overflows (s32 (n + 1)));;
  prvResetNextTaskUnblockTime.

Definition prvAddCurrentTaskToDelayedList (xTicksToWait : Z) (xCanBlockIndefinitely : bool) : K unit :=
  xConstTickCount ← gets xTickCount;
  t ← current;
  _ ← uxListRemove (xStateListItem t);
  if (xTicksToWait =? portMAX_DELAY) && xCanBlockIndefinitely
  then vListInsertEnd xSuspendedTaskList (xStateListItem t)
  else
    let xTimeToWake := u32 (xConstTickCount + xTicksToWait) in
    listSET_LIST_ITEM_VALUE (xStateListItem t) xTimeToWake;;
    if xTimeToWake <? xConstTickCount
    then o ← gets pxOverflowDelayedTaskList; vListInsert o (xStateListItem t)
    else
      d ← gets pxDelayedTaskList;
      vListInsert d (xStateListItem t);;
      n ← gets xNextTaskUnblockTime;
      if xTimeToWake <? n then modify (with_unblock xTimeToWake) else mret ().

(** An event item that is in a list is taken out. *)
Definition leave_event_list (t : nat) : K unit :=
  c ← listLIST_ITEM_CONTAINER (xEventListItem t);
  match c with Some _ => _ ← uxListRemove (xEventListItem t); mret () | None => mret () end.

(** The loop of xTaskIncrementTick over the tasks that are due; each round takes one out
    of the delayed list, so more rounds than there are tasks are never needed. *)
Fixpoint unblock_due (fuel : nat) (xConstTickCount : Z) (xSwitchRequired : bool) : K bool :=
  match fuel with
  | O => fail
  | S fuel =>
      d ← gets pxDelayedTaskList;
      e ← listLIST_IS_EMPTY d;
      if e : bool then modify (with_unblock portMAX_DELAY);; mret xSwitchRequired
      else
        t ← listGET_OWNER_OF_HEAD_ENTRY d;
        xItemValue ← listGET_LIST_ITEM_VALUE (xStateListItem t);
        if xConstTickCount <? xItemValue
        then modify (with_unblock xItemValue);; mret xSwitchRequired
        else
          _ ← uxListRemove (xStateListItem t);
          leave_event_list t;;
          prvAddTaskToReadyList t;;
          p ← priority t; c ← current; pc ← priority c;
          unblock_due fuel xConstTickCount (xSwitchRequired || (pc <=? p)%nat)
  end.

Definition xTaskIncrementTick : K bool :=
  suspended ← gets uxSchedulerSuspended;
  xSwitchRequired ←
    (if suspended =? 0 then
       tick ← gets xTickCount;
       let xConstTickCount := u32 (tick + 1) in
       modify (with_tick xConstTickCount);;
       (if xConstTickCount =? 0 then taskSWITCH_DELAYED_LISTS else mret ());;
       n ← gets xNextTaskUnblockTime;
       fuel ← gets (λ s, S (size (tcbs s)));
       xSwitchRequired ← (if n <=? xConstTickCount then unblock_due fuel xConstTickCount false else mret false);
       c ← current; pc ← priority c;
       k ← listCURRENT_LIST_LENGTH (pxReadyTasksLists pc);
       mret (xSwitchRequired || (1 <? k))
     else
       n ← gets uxPendedTicks; modify (with_pended (u32 (n + 1)));; mret false);
  y ← gets xYieldPending;
  mret (xSwitchRequired || y).

Definition vTickISR : K unit :=
  r ← xTaskIncrementTick; if r : bool then vTaskSwitchContext else mret ().

(** ** Suspending the scheduler *)

Definition vTaskSuspendAll : K unit :=
  n ← gets uxSchedulerSuspended; modify (with_suspended (u32 (n + 1))).

Fixpoint move_pending (fuel : nat) (moved : bool) : K bool :=
  match fuel with
  | O => fail
  | S fuel =>
      e ← listLIST_IS_EMPTY xPendingReadyList;
      if e : bool then mret moved
      else
        t ← listGET_OWNER_OF_HEAD_ENTRY xPendingReadyList;
        _ ← uxListRemove (xEventListItem t);
        _ ← uxListRemove (xStateListItem t);
        prvAddTaskToReadyList t;;
        p ← priority t; c ← current; pc ← priority c;
        (if (pc <=? p)%nat then modify (with_yield true) else mret ());;
        move_pending fuel true
  end.

Fixpoint replay_ticks (uxPendedCounts : nat) : K unit :=
  match uxPendedCounts with
  | O => mret ()
  | S n =>
      r ← xTaskIncrementTick;
      (if r : bool then modify (with_yield true) else mret ());;
      replay_ticks n
  end.

Definition xTaskResumeAll : K bool :=
  n ← gets uxSchedulerSuspended;
  modify (with_suspended (u32 (n - 1)));;
  suspended ← gets uxSchedulerSuspended;
  tasks ← gets uxCurrentNumberOfTasks;
  if (suspended =? 0) && (0 <? tasks) then
    fuel ← gets (λ s, S (size (tcbs s)));
    moved ← move_pending fuel false;
    (if moved : bool then prvResetNextTaskUnblockTime else mret ());;
    pended ← gets uxPendedTicks;
    (if 0 <? pended then replay_ticks (Z.to_nat pended);; modify (with_pended 0) else mret ());;
    y ← gets xYieldPending;
    if y : bool then portYIELD;; mret true else mret false
  else mret false.

(** ** Delays *)

Definition vTaskDelay (xTicksToDelay : Z) : K unit :=
  xAlreadyYielded ←
    (if 0 <? xTicksToDelay then
       vTaskSuspendAll;; prvAddCurrentTaskToDelayedList xTicksToDelay false;; xTaskResumeAll
     else mret false);
  if xAlreadyYielded : bool then mret () else portYIELD.

Definition should_delay (previous wake now : Z) : bool :=
  if now <? previous then (wake <? previous) && (now <? wake) else (wake <? previous) || (now <? wake).

(** The new value of pxPreviousWakeTime *)
Definition vTaskDelayUntil (xPreviousWakeTime xTimeIncrement : Z) : K Z :=
  vTaskSuspendAll;;
  xConstTickCount ← gets xTickCount;
  let xTimeToWake := u32 (xPreviousWakeTime + xTimeIncrement) in
  (if should_delay xPreviousWakeTime xTimeToWake xConstTickCount
   then prvAddCurrentTaskToDelayedList (u32 (xTimeToWake - xConstTickCount)) false else mret ());;
  xAlreadyYielded ← xTaskResumeAll;
  (if xAlreadyYielded : bool then mret () else portYIELD);;
  mret xTimeToWake.

(** ** Creating and deleting tasks *)

Definition prvInitialiseTaskLists : K unit :=
  vListInitialise (pxReadyTasksLists 0);; vListInitialise (pxReadyTasksLists 1);; vListInitialise (pxReadyTasksLists 2);;
  vListInitialise (pxReadyTasksLists 3);; vListInitialise (pxReadyTasksLists 4);;
  vListInitialise xDelayedTaskList1;; vListInitialise xDelayedTaskList2;; vListInitialise xPendingReadyList;;
  vListInitialise xTasksWaitingTermination;; vListInitialise xSuspendedTaskList;;
  modify (with_delayed xDelayedTaskList1 xDelayedTaskList2).

Definition clamp (uxPriority : Z) : nat :=
  if Z.of_nat configMAX_PRIORITIES <=? uxPriority then configMAX_PRIORITIES - 1 else Z.to_nat uxPriority.
Definition event_value (p : nat) : Z := u32 (Z.of_nat configMAX_PRIORITIES - Z.of_nat p).

(** The storage of the task is new; its list items are set up. *)
Definition prvInitialiseNewTask (t : nat) (uxPriority : Z) : K unit :=
  let p := clamp uxPriority in
  modify (λ s, with_tcbs (<[t := Tcb p 0 taskNOT_WAITING_NOTIFICATION]> (tcbs s)) s);;
  _ ← list_call (OCreate (xStateListItem t) 0);
  _ ← list_call (OCreate (xEventListItem t) (event_value p));
  mret ().

Definition prvAddNewTaskToReadyList (t : nat) : K unit :=
  n ← gets uxCurrentNumberOfTasks;
  modify (with_number (u32 (n + 1)));;
  c ← gets pxCurrentTCB;
  running ← gets xSchedulerRunning;
  match c with
  | None =>
      modify (with_current (Some t));;
      n ← gets uxCurrentNumberOfTasks;
      if n =? 1 then prvInitialiseTaskLists else mret ()
  | Some c =>
      if negb running
      then pc ← priority c; p ← priority t; if (pc <=? p)%nat then modify (with_current (Some t)) else mret ()
      else mret ()
  end;;
  k ← gets uxTaskNumber;
  modify (with_task_number (u32 (k + 1)));;
  prvAddTaskToReadyList t;;
  if running : bool then
    c ← current; pc ← priority c; p ← priority t;
    if (pc <? p)%nat then portYIELD else mret ()
  else mret ().

(** [stack] and [block] say whether pvPortMalloc gave memory for the stack and for the
    control block; a stack without a control block is given back. *)
Definition xTaskCreate (stack block : bool) (t : nat) (uxPriority : Z) : K bool :=
  if stack && block
  then prvInitialiseNewTask t uxPriority;; prvAddNewTaskToReadyList t;; mret true
  else mret false.

Definition prvDeleteTCB (t : nat) : K unit :=
  _ ← list_call (ODestroy (xStateListItem t));
  _ ← list_call (ODestroy (xEventListItem t));
  modify (λ s, with_tcbs (delete t (tcbs s)) s).

Definition vTaskDelete (xTaskToDelete : option nat) : K unit :=
  t ← prvGetTCBFromHandle xTaskToDelete;
  _ ← uxListRemove (xStateListItem t);
  leave_event_list t;;
  k ← gets uxTaskNumber;
  modify (with_task_number (u32 (k + 1)));;
  c ← gets pxCurrentTCB;
  (if decide (c = Some t) then
     vListInsertEnd xTasksWaitingTermination (xStateListItem t);;
     n ← gets uxDeletedTasksWaitingCleanUp; modify (with_deleted (u32 (n + 1)))
   else
     n ← gets uxCurrentNumberOfTasks;
     modify (with_number (u32 (n - 1)));;
     prvDeleteTCB t;;
     prvResetNextTaskUnblockTime);;
  running ← gets xSchedulerRunning;
  if running && bool_decide (c = Some t) then portYIELD else mret ().

(** A round of the loop of prvCheckTasksWaitingTermination, up to the call that may
    yield: whether there is nothing to clean up *)
Definition reap_check : K bool :=
  vTaskSuspendAll;;
  xListIsEmpty ← listLIST_IS_EMPTY xTasksWaitingTermination;
  _ ← xTaskResumeAll;
  mret xListIsEmpty.

(** The rest of the round, when the idle task runs again *)
Definition reap_take : K unit :=
  t ← listGET_OWNER_OF_HEAD_ENTRY xTasksWaitingTermination;
  _ ← uxListRemove (xStateListItem t);
  n ← gets uxCurrentNumberOfTasks; modify (with_number (u32 (n - 1)));;
  n ← gets uxDeletedTasksWaitingCleanUp; modify (with_deleted (u32 (n - 1)));;
  prvDeleteTCB t.

Definition vTaskStartScheduler (created : bool) (idle : nat) : K unit :=
  r ← xTaskCreate created created idle (Z.of_nat tskIDLE_PRIORITY);
  if r : bool then
    modify (with_idle (Some idle));;
    modify (with_unblock portMAX_DELAY);;
    modify (with_running true);;
    modify (with_tick 0)
  else mret ().

(** ** Priorities *)

Definition uxTaskPriorityGet (xTask : option nat) : K nat := t ← prvGetTCBFromHandle xTask; priority t.

Definition set_priority (p : nat) (c : TCB_t) : TCB_t := Tcb p (ulNotifiedValue c) (ucNotifyState c).

Definition vTaskPrioritySet (xTask : option nat) (uxNewPriority : Z) : K unit :=
  let new := clamp uxNewPriority in
  t ← prvGetTCBFromHandle xTask;
  old ← priority t;
  if (old =? new)%nat then mret ()
  else
    c ← current; pc ← priority c;
    let xYieldRequired :=
      if (old <? new)%nat then negb (t =? c)%nat && (pc <=? new)%nat else (t =? c)%nat in
    update_tcb t (set_priority new);;
    v ← listGET_LIST_ITEM_VALUE (xEventListItem t);
    (if Z.land v taskEVENT_LIST_ITEM_VALUE_IN_USE =? 0
     then listSET_LIST_ITEM_VALUE (xEventListItem t) (event_value new) else mret ());;
    l ← listLIST_ITEM_CONTAINER (xStateListItem t);
    (if decide (l = Some (pxReadyTasksLists old))
     then _ ← uxListRemove (xStateListItem t); prvAddTaskToReadyList t else mret ());;
    if xYieldRequired : bool then portYIELD else mret ().

(** ** Suspended tasks *)

Definition vTaskSuspend (xTaskToSuspend : option nat) : K unit :=
  t ← prvGetTCBFromHandle xTaskToSuspend;
  _ ← uxListRemove (xStateListItem t);
  leave_event_list t;;
  vListInsertEnd xSuspendedTaskList (xStateListItem t);;
  running ← gets xSchedulerRunning;
  (if running : bool then prvResetNextTaskUnblockTime else mret ());;
  c ← gets pxCurrentTCB;
  if decide (c = Some t) then
    if running : bool then portYIELD
    else
      k ← listCURRENT_LIST_LENGTH xSuspendedTaskList;
      n ← gets uxCurrentNumberOfTasks;
      if k =? n then modify (with_current None) else vTaskSwitchContext
  else mret ().

Definition prvTaskIsTaskSuspended (t : nat) : K bool :=
  l ← listLIST_ITEM_CONTAINER (xStateListItem t);
  if decide (l = Some xSuspendedTaskList) then
    e ← listLIST_ITEM_CONTAINER (xEventListItem t);
    if decide (e = Some xPendingReadyList) then mret false else mret (bool_decide (e = None))
  else mret false.

Definition vTaskResume (xTaskToResume : option nat) : K unit :=
  c ← gets pxCurrentTCB;
  match xTaskToResume with
  | None => mret ()
  | Some t =>
      if decide (c = Some t) then mret ()
      else
        b ← prvTaskIsTaskSuspended t;
        if b : bool then
          _ ← uxListRemove (xStateListItem t);
          prvAddTaskToReadyList t;;
          p ← priority t; c ← current; pc ← priority c;
          if (pc <=? p)%nat then portYIELD else mret ()
        else mret ()
  end.

Definition xTaskResumeFromISR (t : nat) : K bool :=
  b ← prvTaskIsTaskSuspended t;
  if b : bool then
    suspended ← gets uxSchedulerSuspended;
    if suspended =? 0 then
      p ← priority t; c ← current; pc ← priority c;
      _ ← uxListRemove (xStateListItem t);
      prvAddTaskToReadyList t;;
      mret (pc <=? p)%nat
    else vListInsertEnd xPendingReadyList (xEventListItem t);; mret false
  else mret false.

(** ** Event lists *)

Definition vTaskPlaceOnEventList (pxEventList : nat) (xTicksToWait : Z) : K unit :=
  t ← current;
  vListInsert pxEventList (xEventListItem t);;
  prvAddCurrentTaskToDelayedList xTicksToWait true.

Definition vTaskPlaceOnUnorderedEventList (pxEventList : nat) (xItemValue xTicksToWait : Z) : K unit :=
  t ← current;
  listSET_LIST_ITEM_VALUE (xEventListItem t) (Z.lor xItemValue taskEVENT_LIST_ITEM_VALUE_IN_USE);;
  vListInsertEnd pxEventList (xEventListItem t);;
  prvAddCurrentTaskToDelayedList xTicksToWait true.

Definition xTaskRemoveFromEventList (pxEventList : nat) : K bool :=
  t ← listGET_OWNER_OF_HEAD_ENTRY pxEventList;
  _ ← uxListRemove (xEventListItem t);
  suspended ← gets uxSchedulerSuspended;
  (if suspended =? 0 then _ ← uxListRemove (xStateListItem t); prvAddTaskToReadyList t
   else vListInsertEnd xPendingReadyList (xEventListItem t));;
  p ← priority t; c ← current; pc ← priority c;
  if (pc <? p)%nat then modify (with_yield true);; mret true else mret false.

Definition xTaskRemoveFromUnorderedEventList (t : nat) (xItemValue : Z) : K bool :=
  listSET_LIST_ITEM_VALUE (xEventListItem t) (Z.lor xItemValue taskEVENT_LIST_ITEM_VALUE_IN_USE);;
  _ ← uxListRemove (xEventListItem t);
  _ ← uxListRemove (xStateListItem t);
  prvAddTaskToReadyList t;;
  p ← priority t; c ← current; pc ← priority c;
  if (pc <? p)%nat then modify (with_yield true);; mret true else mret false.

Definition vTaskMissedYield : K unit := modify (with_yield true).

(** ** Time outs *)

Record TimeOut_t := TimeOut { xOverflowCount : Z; xTimeOnEntering : Z }.

Definition vTaskSetTimeOutState : K TimeOut_t := gets (λ s, TimeOut (xNumOfOverflows s) (xTickCount s)).

(** Whether the time is over, and the time out and the ticks to wait after the call *)
Definition xTaskCheckForTimeOut (o : TimeOut_t) (xTicksToWait : Z) : K (bool * TimeOut_t * Z) :=
  xConstTickCount ← gets xTickCount;
  n ← gets xNumOfOverflows;
  let elapsed := u32 (xConstTickCount - xTimeOnEntering o) in
  if xTicksToWait =? portMAX_DELAY then mret (false, o, xTicksToWait)
  else if negb (n =? xOverflowCount o) && (xTimeOnEntering o <=? xConstTickCount) then mret (true, o, xTicksToWait)
  else if elapsed <? xTicksToWait
  then o' ← vTaskSetTimeOutState; mret (false, o', u32 (xTicksToWait - elapsed))
  else mret (true, o, xTicksToWait).

(** ** Notifications *)

Inductive eNotifyAction := eNoAction | eSetBits | eIncrement | eSetValueWithOverwrite | eSetValueWithoutOverwrite.

Definition set_notify (x : notify_state) (c : TCB_t) : TCB_t := Tcb (uxPriority c) (ulNotifiedValue c) x.
Definition set_value (v : Z) (c : TCB_t) : TCB_t := Tcb (uxPriority c) v (ucNotifyState c).

(** ulTaskNotifyTake up to the end of its first critical section *)
Definition ulTaskNotifyTake_wait (xTicksToWait : Z) : K unit :=
  t ← current; c ← tcb t;
  if ulNotifiedValue c =? 0 then
    update_tcb t (set_notify taskWAITING_NOTIFICATION);;
    if 0 <? xTicksToWait then prvAddCurrentTaskToDelayedList xTicksToWait true;; portYIELD else mret ()
  else mret ().

(** The rest of it, when the task runs again *)
Definition ulTaskNotifyTake_take (xClearCountOnExit : bool) : K Z :=
  t ← current; c ← tcb t;
  let ulReturn := ulNotifiedValue c in
  (if negb (ulReturn =? 0)
   then update_tcb t (set_value (if xClearCountOnExit then 0 else u32 (ulReturn - 1))) else mret ());;
  update_tcb t (set_notify taskNOT_WAITING_NOTIFICATION);;
  mret ulReturn.

Definition xTaskNotifyWait_wait (ulBitsToClearOnEntry xTicksToWait : Z) : K unit :=
  t ← current; c ← tcb t;
  if negb (bool_decide (ucNotifyState c = taskNOTIFICATION_RECEIVED)) then
    update_tcb t (set_value (Z.land (ulNotifiedValue c) (u32 (Z.lnot ulBitsToClearOnEntry))));;
    update_tcb t (set_notify taskWAITING_NOTIFICATION);;
    if 0 <? xTicksToWait then prvAddCurrentTaskToDelayedList xTicksToWait true;; portYIELD else mret ()
  else mret ().

(** The value for pulNotificationValue, and whether a notification came *)
Definition xTaskNotifyWait_take (ulBitsToClearOnExit : Z) : K (Z * bool) :=
  t ← current; c ← tcb t;
  r ← (if decide (ucNotifyState c = taskWAITING_NOTIFICATION) then mret false
       else update_tcb t (set_value (Z.land (ulNotifiedValue c) (u32 (Z.lnot ulBitsToClearOnExit))));; mret true);
  update_tcb t (set_notify taskNOT_WAITING_NOTIFICATION);;
  mret (ulNotifiedValue c, r).

(** The switch over the action: the new value, and whether it could be set *)
Definition notified (a : eNotifyAction) (ulValue old : Z) (st : notify_state) : Z * bool :=
  match a with
  | eSetBits => (Z.lor old ulValue, true)
  | eIncrement => (u32 (old + 1), true)
  | eSetValueWithOverwrite => (ulValue, true)
  | eSetValueWithoutOverwrite =>
      if decide (st = taskNOTIFICATION_RECEIVED) then (old, false) else (ulValue, true)
  | eNoAction => (old, true)
  end.

Definition xTaskGenericNotify (t : nat) (ulValue : Z) (eAction : eNotifyAction) : K (bool * Z) :=
  c ← tcb t;
  let ucOriginalNotifyState := ucNotifyState c in
  let '(v, xReturn) := notified eAction ulValue (ulNotifiedValue c) ucOriginalNotifyState in
  update_tcb t (set_notify taskNOTIFICATION_RECEIVED);;
  update_tcb t (set_value v);;
  (if decide (ucOriginalNotifyState = taskWAITING_NOTIFICATION) then
     _ ← uxListRemove (xStateListItem t);
     prvAddTaskToReadyList t;;
     p ← priority t; c ← current; pc ← priority c;
     if (pc <? p)%nat then portYIELD else mret ()
   else mret ());;
  mret (xReturn, ulNotifiedValue c).

(** [flag]: whether the caller passes pxHigherPriorityTaskWoken.  The results are what
    the function returns, the previous value, and the flag. *)
Definition xTaskGenericNotifyFromISR (t : nat) (ulValue : Z) (eAction : eNotifyAction) (flag : bool) : K (bool * Z * bool) :=
  c ← tcb t;
  let ucOriginalNotifyState := ucNotifyState c in
  let '(v, xReturn) := notified eAction ulValue (ulNotifiedValue c) ucOriginalNotifyState in
  update_tcb t (set_notify taskNOTIFICATION_RECEIVED);;
  update_tcb t (set_value v);;
  woken ← (if decide (ucOriginalNotifyState = taskWAITING_NOTIFICATION) then
     suspended ← gets uxSchedulerSuspended;
     (if suspended =? 0 then _ ← uxListRemove (xStateListItem t); prvAddTaskToReadyList t
      else vListInsertEnd xPendingReadyList (xEventListItem t));;
     p ← priority t; c ← current; pc ← priority c;
     if (pc <? p)%nat then if flag then mret true else modify (with_yield true);; mret false else mret false
   else mret false);
  mret (xReturn, ulNotifiedValue c, woken).

Definition vTaskNotifyGiveFromISR (t : nat) (flag : bool) : K bool :=
  c ← tcb t;
  let ucOriginalNotifyState := ucNotifyState c in
  update_tcb t (set_notify taskNOTIFICATION_RECEIVED);;
  update_tcb t (set_value (u32 (ulNotifiedValue c + 1)));;
  if decide (ucOriginalNotifyState = taskWAITING_NOTIFICATION) then
    suspended ← gets uxSchedulerSuspended;
    (if suspended =? 0 then _ ← uxListRemove (xStateListItem t); prvAddTaskToReadyList t
     else vListInsertEnd xPendingReadyList (xEventListItem t));;
    p ← priority t; c ← current; pc ← priority c;
    if (pc <? p)%nat then if flag then mret true else modify (with_yield true);; mret false else mret false
  else mret false.

Definition xTaskNotifyStateClear (xTask : option nat) : K bool :=
  t ← prvGetTCBFromHandle xTask; c ← tcb t;
  if decide (ucNotifyState c = taskNOTIFICATION_RECEIVED)
  then update_tcb t (set_notify taskNOT_WAITING_NOTIFICATION);; mret true else mret false.

(** ** The calls of tasks and of interrupt handlers *)

Inductive call :=
| CTick
| CYield
| CSuspendAll
| CResumeAll
| CDelay (xTicksToDelay : Z)
| CDelayUntil (xPreviousWakeTime xTimeIncrement : Z)
| CCreate (t : nat) (uxPriority : Z)
| CStart (idle : nat)
| CDelete (xTask : option nat)
| CReapCheck
| CReapTake
| CPriorityGet (xTask : option nat)
| CPrioritySet (xTask : option nat) (uxPriority : Z)
| CSuspend (xTask : option nat)
| CResume (xTask : option nat)
| CResumeFromISR (t : nat)
| CEventList (l : nat)
| CPlace (l : nat) (xTicksToWait : Z)
| CPlaceUnordered (l : nat) (xItemValue xTicksToWait : Z)
| CRemove (l : nat)
| CRemoveUnordered (t : nat) (xItemValue : Z)
| CMissedYield
| CSetTimeOut
| CCheckTimeOut (o : TimeOut_t) (xTicksToWait : Z)
| CTakeWait (xTicksToWait : Z)
| CTake (xClearCountOnExit : bool)
| CNotifyWait (ulBitsToClearOnEntry xTicksToWait : Z)
| CNotifyTake (ulBitsToClearOnExit : Z)
| CNotify (t : nat) (ulValue : Z) (eAction : eNotifyAction)
| CNotifyFromISR (t : nat) (ulValue : Z) (eAction : eNotifyAction) (flag : bool)
| CGiveFromISR (t : nat) (flag : bool)
| CStateClear (xTask : option nat).

Inductive answer :=
| ANone | ABool (b : bool) | ANat (n : nat) | AZ (z : Z) | ATime (o : TimeOut_t)
| ACheck (r : bool * TimeOut_t * Z) | AWait (r : Z * bool) | ANotify (r : bool * Z) | AISR (r : bool * Z * bool).

Definition run_call (c : call) : K answer :=
  match c with
  | CTick => vTickISR;; mret ANone
  | CYield => portYIELD;; mret ANone
  | CSuspendAll => vTaskSuspendAll;; mret ANone
  | CResumeAll => ABool <$> xTaskResumeAll
  | CDelay k => vTaskDelay k;; mret ANone
  | CDelayUntil p k => AZ <$> vTaskDelayUntil p k
  | CCreate t p => ABool <$> xTaskCreate true true t p
  | CStart i => vTaskStartScheduler true i;; mret ANone
  | CDelete h => vTaskDelete h;; mret ANone
  | CReapCheck => ABool <$> reap_check
  | CReapTake => reap_take;; mret ANone
  | CPriorityGet h => ANat <$> uxTaskPriorityGet h
  | CPrioritySet h p => vTaskPrioritySet h p;; mret ANone
  | CSuspend h => vTaskSuspend h;; mret ANone
  | CResume h => vTaskResume h;; mret ANone
  | CResumeFromISR t => ABool <$> xTaskResumeFromISR t
  | CEventList l => vListInitialise l;; mret ANone
  | CPlace l k => vTaskPlaceOnEventList l k;; mret ANone
  | CPlaceUnordered l v k => vTaskPlaceOnUnorderedEventList l v k;; mret ANone
  | CRemove l => ABool <$> xTaskRemoveFromEventList l
  | CRemoveUnordered t v => ABool <$> xTaskRemoveFromUnorderedEventList t v
  | CMissedYield => vTaskMissedYield;; mret ANone
  | CSetTimeOut => ATime <$> vTaskSetTimeOutState
  | CCheckTimeOut o k => ACheck <$> xTaskCheckForTimeOut o k
  | CTakeWait k => ulTaskNotifyTake_wait k;; mret ANone
  | CTake b => AZ <$> ulTaskNotifyTake_take b
  | CNotifyWait a k => xTaskNotifyWait_wait a k;; mret ANone
  | CNotifyTake b => AWait <$> xTaskNotifyWait_take b
  | CNotify t v a => ANotify <$> xTaskGenericNotify t v a
  | CNotifyFromISR t v a f => AISR <$> xTaskGenericNotifyFromISR t v a f
  | CGiveFromISR t f => ABool <$> vTaskNotifyGiveFromISR t f
  | CStateClear h => ABool <$> xTaskNotifyStateClear h
  end.

End kernel.

(** ** Linked rings and sequences

    A call that runs over the sequences runs over the rings in the same way. *)

Definition sim {X} (fc : kcall mem X) (fa : kcall astate X) : Prop :=
  ∀ s m A x s' A', rep m A → fa s A = Some (x, s', A') → ∃ m', fc s m = Some (x, s', m') ∧ rep m' A'.

Lemma sim_bind {X Y} (fc : kcall mem X) fa (kc : X → kcall mem Y) ka :
  sim fc fa → (∀ x, sim (kc x) (ka x)) → sim (fc ≫= kc) (fa ≫= ka).
Proof.
  intros Hf Hk s m A y s' A' Hr. unfold mbind, kcall_bind.
  destruct (fa s A) as [[[x s1] A1]|] eqn:E; [|done]. destruct (Hf _ _ _ _ _ _ Hr E) as (m1 & -> & Hr1). by apply Hk.
Qed.

Lemma sim_ret {X} (x : X) : sim (mret x) (mret x).
Proof. intros s m A y s' A' Hr [= <- <- <-]. by exists m. Qed.
Lemma sim_gets {X} (f : sched → X) : sim (gets f) (gets f).
Proof. intros s m A y s' A' Hr [= <- <- <-]. by exists m. Qed.
Lemma sim_modify f : sim (modify f) (modify f).
Proof. intros s m A y s' A' Hr [= <- <- <-]. by exists m. Qed.
Lemma sim_fail {X} : sim (X := X) fail fail.
Proof. done. Qed.
Lemma sim_list o : sim (list_call o) (list_call o).
Proof.
  intros s m A y s' A' Hr. unfold list_call, list_step, spec_lists, mem_lists.
  destruct (astep o A) as [[r A1]|] eqn:E; [|done]. intros [= <- <- <-].
  destruct (RtosList.sim_step o m A r A1 Hr E) as (m1 & -> & Hr1). eauto.
Qed.

Create HintDb sim.
#[export] Hint Resolve @sim_ret @sim_gets @sim_modify @sim_fail sim_list : sim.

(** Both sides are the same term: take it apart. *)
Ltac solve_sim :=
  repeat (intros; cbv zeta; lazymatch goal with
    | |- sim (_ ≫= _) _ => apply sim_bind
    | |- sim (match ?x with _ => _ end) _ => destruct x
    | |- sim _ _ => first [solve [auto 2 with sim]]
    end).

Lemma sim_uxListRemove n : sim (uxListRemove n) (uxListRemove n).
Proof. unfold uxListRemove. solve_sim. Qed.
Lemma sim_vListInsertEnd l n : sim (vListInsertEnd l n) (vListInsertEnd l n).
Proof. unfold vListInsertEnd. solve_sim. Qed.
Lemma sim_vListInsert l n : sim (vListInsert l n) (vListInsert l n).
Proof. unfold vListInsert. solve_sim. Qed.
Lemma sim_vListInitialise l : sim (vListInitialise l) (vListInitialise l).
Proof. unfold vListInitialise. solve_sim. Qed.
Lemma sim_set_item_value n v : sim (listSET_LIST_ITEM_VALUE n v) (listSET_LIST_ITEM_VALUE n v).
Proof. unfold listSET_LIST_ITEM_VALUE. solve_sim. Qed.
Lemma sim_get_item_value n : sim (listGET_LIST_ITEM_VALUE n) (listGET_LIST_ITEM_VALUE n).
Proof. unfold listGET_LIST_ITEM_VALUE. solve_sim. Qed.
Lemma sim_list_length l : sim (listCURRENT_LIST_LENGTH l) (listCURRENT_LIST_LENGTH l).
Proof. unfold listCURRENT_LIST_LENGTH. solve_sim. Qed.
Lemma sim_item_container n : sim (listLIST_ITEM_CONTAINER n) (listLIST_ITEM_CONTAINER n).
Proof. unfold listLIST_ITEM_CONTAINER. solve_sim. Qed.
Lemma sim_owner_of r : sim (owner_of r) (owner_of r).
Proof. unfold owner_of. solve_sim. Qed.
#[export] Hint Resolve sim_uxListRemove sim_vListInsertEnd sim_vListInsert sim_vListInitialise sim_set_item_value
  sim_get_item_value sim_list_length sim_item_container sim_owner_of : sim.

Lemma sim_list_empty l : sim (listLIST_IS_EMPTY l) (listLIST_IS_EMPTY l).
Proof. unfold listLIST_IS_EMPTY. solve_sim. Qed.
Lemma sim_head_owner l : sim (listGET_OWNER_OF_HEAD_ENTRY l) (listGET_OWNER_OF_HEAD_ENTRY l).
Proof. unfold listGET_OWNER_OF_HEAD_ENTRY. solve_sim. Qed.
Lemma sim_next_owner l : sim (listGET_OWNER_OF_NEXT_ENTRY l) (listGET_OWNER_OF_NEXT_ENTRY l).
Proof. unfold listGET_OWNER_OF_NEXT_ENTRY. solve_sim. Qed.
Lemma sim_tcb t : sim (tcb t) (tcb t).
Proof. unfold tcb. solve_sim. Qed.
Lemma sim_current : sim current current.
Proof. unfold current. solve_sim. Qed.
Lemma sim_set_tcb t c : sim (set_tcb t c) (set_tcb t c).
Proof. unfold set_tcb. solve_sim. Qed.
#[export] Hint Resolve sim_list_empty sim_head_owner sim_next_owner sim_tcb sim_current sim_set_tcb : sim.

Lemma sim_priority t : sim (priority t) (priority t).
Proof. unfold priority. solve_sim. Qed.
Lemma sim_handle h : sim (prvGetTCBFromHandle h) (prvGetTCBFromHandle h).
Proof. unfold prvGetTCBFromHandle. solve_sim. Qed.
Lemma sim_update_tcb t f : sim (update_tcb t f) (update_tcb t f).
Proof. unfold update_tcb. solve_sim. Qed.
Lemma sim_highest p : sim (highest p) (highest p).
Proof. induction p; cbn [highest]; solve_sim. Qed.
#[export] Hint Resolve sim_priority sim_handle sim_update_tcb sim_highest : sim.

Lemma sim_add_ready t : sim (prvAddTaskToReadyList t) (prvAddTaskToReadyList t).
Proof. unfold prvAddTaskToReadyList, taskRECORD_READY_PRIORITY. solve_sim. Qed.
Lemma sim_switch : sim vTaskSwitchContext vTaskSwitchContext.
Proof. unfold vTaskSwitchContext, taskSELECT_HIGHEST_PRIORITY_TASK. solve_sim. Qed.
Lemma sim_yield : sim portYIELD portYIELD.
Proof. apply sim_switch. Qed.
Lemma sim_reset_unblock : sim prvResetNextTaskUnblockTime prvResetNextTaskUnblockTime.
Proof. unfold prvResetNextTaskUnblockTime. solve_sim. Qed.
Lemma sim_leave t : sim (leave_event_list t) (leave_event_list t).
Proof. unfold leave_event_list. solve_sim. Qed.
#[export] Hint Resolve sim_add_ready sim_switch sim_yield sim_reset_unblock sim_leave : sim.

Lemma sim_switch_lists : sim taskSWITCH_DELAYED_LISTS taskSWITCH_DELAYED_LISTS.
Proof. unfold taskSWITCH_DELAYED_LISTS. solve_sim. Qed.
Lemma sim_add_delayed w b : sim (prvAddCurrentTaskToDelayedList w b) (prvAddCurrentTaskToDelayedList w b).
Proof. unfold prvAddCurrentTaskToDelayedList. solve_sim. Qed.
Lemma sim_unblock fuel : ∀ tick b, sim (unblock_due fuel tick b) (unblock_due fuel tick b).
Proof. induction fuel; cbn [unblock_due]; solve_sim. Qed.
#[export] Hint Resolve sim_switch_lists sim_add_delayed sim_unblock : sim.

Lemma sim_tick : sim xTaskIncrementTick xTaskIncrementTick.
Proof. unfold xTaskIncrementTick. solve_sim. Qed.
Lemma sim_suspend_all : sim vTaskSuspendAll vTaskSuspendAll.
Proof. unfold vTaskSuspendAll. solve_sim. Qed.
Lemma sim_pending fuel : ∀ b, sim (move_pending fuel b) (move_pending fuel b).
Proof. induction fuel; cbn [move_pending]; solve_sim. Qed.
#[export] Hint Resolve sim_tick sim_suspend_all sim_pending : sim.

Lemma sim_replay n : sim (replay_ticks n) (replay_ticks n).
Proof. induction n; cbn [replay_ticks]; solve_sim. Qed.
#[export] Hint Resolve sim_replay : sim.
Lemma sim_resume_all : sim xTaskResumeAll xTaskResumeAll.
Proof. unfold xTaskResumeAll. solve_sim. Qed.
#[export] Hint Resolve sim_resume_all : sim.

Lemma sim_fmap {X Y} (g : X → Y) fc fa : sim fc fa → sim (g <$> fc) (g <$> fa).
Proof. intros Hf. apply sim_bind; [done|]. intros x. apply sim_ret. Qed.

Ltac sim_unfold f := unfold f; solve_sim.

Lemma sim_delay k : sim (vTaskDelay k) (vTaskDelay k).
Proof. sim_unfold @vTaskDelay. Qed.
Lemma sim_delay_until p k : sim (vTaskDelayUntil p k) (vTaskDelayUntil p k).
Proof. sim_unfold @vTaskDelayUntil. Qed.
Lemma sim_init_lists : sim prvInitialiseTaskLists prvInitialiseTaskLists.
Proof. sim_unfold @prvInitialiseTaskLists. Qed.
Lemma sim_init_task t p : sim (prvInitialiseNewTask t p) (prvInitialiseNewTask t p).
Proof. sim_unfold @prvInitialiseNewTask. Qed.
#[export] Hint Resolve sim_init_lists sim_init_task : sim.
Lemma sim_add_new t : sim (prvAddNewTaskToReadyList t) (prvAddNewTaskToReadyList t).
Proof. sim_unfold @prvAddNewTaskToReadyList. Qed.
#[export] Hint Resolve sim_add_new : sim.
Lemma sim_task_create a b t p : sim (xTaskCreate a b t p) (xTaskCreate a b t p).
Proof. sim_unfold @xTaskCreate. Qed.
Lemma sim_delete_tcb t : sim (prvDeleteTCB t) (prvDeleteTCB t).
Proof. sim_unfold @prvDeleteTCB. Qed.
#[export] Hint Resolve sim_task_create sim_delete_tcb : sim.
Lemma sim_start a i : sim (vTaskStartScheduler a i) (vTaskStartScheduler a i).
Proof. sim_unfold @vTaskStartScheduler. Qed.
Lemma sim_delete h : sim (vTaskDelete h) (vTaskDelete h).
Proof. sim_unfold @vTaskDelete. Qed.
Lemma sim_reap_check : sim reap_check reap_check.
Proof. sim_unfold @reap_check. Qed.
Lemma sim_reap_take : sim reap_take reap_take.
Proof. sim_unfold @reap_take. Qed.
Lemma sim_priority_set h p : sim (vTaskPrioritySet h p) (vTaskPrioritySet h p).
Proof. sim_unfold @vTaskPrioritySet. Qed.
Lemma sim_suspend h : sim (vTaskSuspend h) (vTaskSuspend h).
Proof. sim_unfold @vTaskSuspend. Qed.
Lemma sim_is_suspended t : sim (prvTaskIsTaskSuspended t) (prvTaskIsTaskSuspended t).
Proof. sim_unfold @prvTaskIsTaskSuspended. Qed.
#[export] Hint Resolve sim_is_suspended : sim.
Lemma sim_resume h : sim (vTaskResume h) (vTaskResume h).
Proof. sim_unfold @vTaskResume. Qed.
Lemma sim_resume_isr t : sim (xTaskResumeFromISR t) (xTaskResumeFromISR t).
Proof. sim_unfold @xTaskResumeFromISR. Qed.
Lemma sim_place l k : sim (vTaskPlaceOnEventList l k) (vTaskPlaceOnEventList l k).
Proof. sim_unfold @vTaskPlaceOnEventList. Qed.
Lemma sim_place_unordered l v k : sim (vTaskPlaceOnUnorderedEventList l v k) (vTaskPlaceOnUnorderedEventList l v k).
Proof. sim_unfold @vTaskPlaceOnUnorderedEventList. Qed.
Lemma sim_remove_event l : sim (xTaskRemoveFromEventList l) (xTaskRemoveFromEventList l).
Proof. sim_unfold @xTaskRemoveFromEventList. Qed.
Lemma sim_remove_unordered t v : sim (xTaskRemoveFromUnorderedEventList t v) (xTaskRemoveFromUnorderedEventList t v).
Proof. sim_unfold @xTaskRemoveFromUnorderedEventList. Qed.
Lemma sim_check o k : sim (xTaskCheckForTimeOut o k) (xTaskCheckForTimeOut o k).
Proof. unfold xTaskCheckForTimeOut, vTaskSetTimeOutState. solve_sim. Qed.
Lemma sim_notify t v a : sim (xTaskGenericNotify t v a) (xTaskGenericNotify t v a).
Proof. unfold xTaskGenericNotify. solve_sim. Qed.
Lemma sim_notify_isr t v a f : sim (xTaskGenericNotifyFromISR t v a f) (xTaskGenericNotifyFromISR t v a f).
Proof. unfold xTaskGenericNotifyFromISR. solve_sim. Qed.
Lemma sim_give_isr t f : sim (vTaskNotifyGiveFromISR t f) (vTaskNotifyGiveFromISR t f).
Proof. unfold vTaskNotifyGiveFromISR. solve_sim. Qed.
#[export] Hint Resolve sim_delay sim_delay_until sim_start sim_delete sim_reap_check sim_reap_take sim_priority_set sim_suspend
  sim_resume sim_resume_isr sim_place sim_place_unordered sim_remove_event sim_remove_unordered sim_check sim_notify
  sim_notify_isr sim_give_isr : sim.

(** Every call *)
Lemma sim_call c : sim (run_call c) (run_call c).
Proof.
  destruct c; cbn [run_call]; try apply sim_fmap;
    unfold vTickISR, uxTaskPriorityGet, vTaskMissedYield, vTaskSetTimeOutState, ulTaskNotifyTake_wait, ulTaskNotifyTake_take,
      xTaskNotifyWait_wait, xTaskNotifyWait_take, xTaskNotifyStateClear; solve_sim.
Qed.

End RtosTask.
