(* ===== verification/RtosSched.v ===== *)
(** * Correctness of the scheduler of FreeRTOS

    The calls of [RtosTask] over sequences.  [wp] says that a call runs to its end, and
    what holds then; the rules for list.c calls come first, then the invariant of the
    scheduler's lists and counters, and the calls that keep it. *)

From Stdlib Require Import Sorting.Sorted.
From S2P Require Import Prelude RtosList RtosTask.
Import RtosList RtosTask.

Module RtosSched.

(** ** Lists that are well formed *)

Definition items (A : astate) (l : nat) : list nat := match seqs A !! l with Some (xs, _) => xs | None => [] end.

Record wf (A : astate) : Prop := {
  w_nodup : ∀ l xs c, seqs A !! l = Some (xs, c) → NoDup xs;
  w_member : ∀ l xs c n, seqs A !! l = Some (xs, c) → n ∈ xs → cont A !! n = Some l;
  w_cont : ∀ n l, cont A !! n = Some l → ∃ xs c, seqs A !! l = Some (xs, c) ∧ n ∈ xs;
  w_index : ∀ l xs c, seqs A !! l = Some (xs, c) → c = End l ∨ ∃ x, x ∈ xs ∧ c = Item x;
  w_vals : ∀ n l, cont A !! n = Some l → is_Some (vals A !! n);
  w_range : ∀ n v, vals A !! n = Some v → 0 ≤ v ≤ portMAX_DELAY
}.

Lemma items_cont A l n : wf A → n ∈ items A l ↔ cont A !! n = Some l.
Proof.
  intros Hw. unfold items. split.
  - destruct (seqs A !! l) as [[xs c]|] eqn:E; [|by intros ?%not_elem_of_nil]. by eapply (w_member _ Hw).
  - intros Hc. destruct (w_cont _ Hw _ _ Hc) as (xs & c & -> & ?). done.
Qed.

Lemma items_nodup A l : wf A → NoDup (items A l).
Proof. intros Hw. unfold items. destruct (seqs A !! l) as [[xs c]|] eqn:E; [by eapply w_nodup|constructor]. Qed.

(** The same lists, in another order or with another index *)
Definition same_lists (A A' : astate) : Prop := ∀ l, is_Some (seqs A' !! l) ↔ is_Some (seqs A !! l).

Record removed (n : nat) (A A' : astate) : Prop := {
  rm_wf : wf A';
  rm_cont : cont A' = delete n (cont A);
  rm_vals : vals A' = vals A;
  rm_lists : same_lists A A';
  rm_items : ∀ l, items A' l = filter (λ x, x ≠ n) (items A l)
}.

Lemma filter_out (n : nat) (xs : list nat) : n ∉ xs → filter (λ x, x ≠ n) xs = xs.
Proof.
  induction xs as [|x xs IH]; [done|]. rewrite not_elem_of_cons. intros [Hx Hn].
  rewrite filter_cons_True by congruence. by rewrite IH.
Qed.

Lemma cut_filter n (xs ys zs : list nat) : NoDup xs → n ∈ xs → cut n xs = (ys, zs) → ys ++ tail zs = filter (λ x, x ≠ n) xs ∧ n ∉ ys ++ tail zs.
Proof.
  intros Hnd Hin Hcut. destruct (cut_spec _ _ _ _ Hcut) as [-> Hh]. specialize (Hh Hin).
  destruct zs as [|z zs]; [done|]. cbn in Hh. simplify_eq. cbn [tail].
  apply NoDup_app in Hnd as (Hy & Hd & Hz). apply NoDup_cons in Hz as [Hz _].
  assert (n ∉ ys) as Hny by (intros Hn; apply (Hd n Hn); set_solver).
  rewrite filter_app, filter_cons_False by tauto. rewrite !filter_out by done. split; [done|]. set_solver.
Qed.

Lemma astep_remove A n l : wf A → cont A !! n = Some l →
  ∃ A', astep (ORemove n) A = Some (RCount (zlen (items A l) - 1), A') ∧ removed n A A'.
Proof.
  intros Hw Hc. destruct (w_cont _ Hw _ _ Hc) as (xs & c & Hl & Hin). cbn [astep]. rewrite Hc. cbn [mbind option_bind].
  rewrite Hl. cbn [mbind option_bind]. rewrite bool_decide_eq_true_2 by done.
  destruct (cut n xs) as [ys zs] eqn:Ecut. unfold items. rewrite Hl. eexists. split; [done|].
  destruct (cut_filter _ _ _ _ (w_nodup _ Hw _ _ _ Hl) Hin Ecut) as [Ef Hn].
  set (c' := if decide (c = Item n) then _ else _).
  assert (∀ l' xs' d, <[l := (ys ++ tail zs, c')]> (seqs A) !! l' = Some (xs', d) →
    ∃ xs0 d0, seqs A !! l' = Some (xs0, d0) ∧ xs' = filter (λ x, x ≠ n) xs0 ∧ (l' ≠ l → d = d0)) as Hseq.
  { intros l' xs' d [[<- [= <- <-]]|[Hne H]]%lookup_insert_Some; [by exists xs, c|].
    exists xs', d. split_and!; [done| |done]. rewrite filter_out; [done|]. intros Hin'.
    pose proof (w_member _ Hw _ _ _ _ H Hin'). congruence. }
  split; cbn [out with_seq seqs cont vals].
  - split; cbn [out with_seq seqs cont vals].
    + intros l' xs' d H. destruct (Hseq _ _ _ H) as (xs0 & d0 & H0 & -> & _). apply NoDup_filter. by eapply (w_nodup _ Hw).
    + intros l' xs' d k H Hk. destruct (Hseq _ _ _ H) as (xs0 & d0 & H0 & -> & _).
      apply list_elem_of_filter in Hk as [Hne Hk]. rewrite lookup_delete_ne by done. by eapply (w_member _ Hw).
    + intros k l' [Hne Hk]%lookup_delete_Some. destruct (w_cont _ Hw _ _ Hk) as (xs0 & d0 & H0 & Hk0).
      destruct (decide (l' = l)) as [-> |Hl'].
      * rewrite lookup_insert_eq. eexists _, _. split; [done|]. rewrite Ef. assert (xs0 = xs) as -> by congruence.
        by apply list_elem_of_filter.
      * rewrite lookup_insert_ne by done. eauto.
    + intros l' xs' d [[<- [= <- <-]]|[Hne H]]%lookup_insert_Some; [|by eapply (w_index _ Hw)]. subst c'.
      destruct (cut_spec _ _ _ _ Ecut) as [-> Hh]. specialize (Hh Hin). case_decide as Hd.
      * unfold last_ptr. destruct ys as [|y ys _] using rev_ind; [by left|]. rewrite last_snoc. right. exists y. set_solver.
      * destruct (w_index _ Hw _ _ _ Hl) as [-> |(x & Hx & ->)]; [by left|]. right. exists x. split; [|done].
        rewrite Ef. apply list_elem_of_filter. split; [congruence|done].
    + intros k l' [_ Hk]%lookup_delete_Some. by eapply (w_vals _ Hw).
    + apply (w_range _ Hw).
  - done.
  - done.
  - intros l'. cbn [out with_seq seqs]. rewrite lookup_insert_is_Some'. split; [intros [-> |]; eauto|auto].
  - intros l'. unfold items. cbn [out with_seq seqs]. destruct (<[l:=_]> (seqs A) !! l') as [[xs' d]|] eqn:E.
    + destruct (Hseq _ _ _ E) as (xs0 & d0 & -> & -> & _). done.
    + apply lookup_insert_None in E as [-> _]. done.
Qed.

Record inserted (l n : nat) (A A' : astate) : Prop := {
  in_wf : wf A';
  in_cont : cont A' = <[n := l]> (cont A);
  in_vals : vals A' = vals A;
  in_lists : same_lists A A';
  in_other : ∀ l', l' ≠ l → items A' l' = items A l'
}.

(** An item between two parts of a sequence *)
Lemma inserted_at A l n ys zs c : wf A → seqs A !! l = Some (ys ++ zs, c) → is_Some (vals A !! n) → cont A !! n = None →
  inserted l n A (put n l (with_seq l (ys ++ n :: zs) c A)) ∧
  items (put n l (with_seq l (ys ++ n :: zs) c A)) l = ys ++ n :: zs.
Proof.
  intros Hw Hl Hv Hn. assert (∀ l' xs d, seqs A !! l' = Some (xs, d) → n ∉ xs) as Hfree.
  { intros l' xs d H Hin. pose proof (w_member _ Hw _ _ _ _ H Hin). congruence. }
  pose proof (Hfree _ _ _ Hl) as Hnl. split; [|unfold items; cbn; by rewrite lookup_insert_eq].
  split; cbn [put with_seq seqs cont vals].
  - split; cbn [put with_seq seqs cont vals].
    + intros l' xs d [[<- [= <- <-]]|[Hne H]]%lookup_insert_Some; [|by eapply (w_nodup _ Hw)].
      rewrite <- Permutation_middle. apply NoDup_cons. split; [done|]. by eapply (w_nodup _ Hw).
    + intros l' xs d k H Hk. rewrite lookup_insert. apply lookup_insert_Some in H as [[<- [= <- <-]]|[Hne H]].
      * case_decide; [done|]. eapply (w_member _ Hw); [done|]. rewrite elem_of_app, elem_of_cons in *. naive_solver.
      * rewrite decide_False; [by eapply (w_member _ Hw)|]. intros ->. by eapply Hfree.
    + intros k l' [[<- <-]|[Hne Hk]]%lookup_insert_Some.
      * rewrite lookup_insert_eq. eexists _, _. split; [done|]. set_solver.
      * destruct (w_cont _ Hw _ _ Hk) as (xs0 & d0 & H0 & Hk0). destruct (decide (l' = l)) as [-> |Hl'].
        -- rewrite lookup_insert_eq. eexists _, _. split; [done|]. simplify_eq. set_solver.
        -- rewrite lookup_insert_ne by done. eauto.
    + intros l' xs d [[<- [= <- <-]]|[Hne H]]%lookup_insert_Some; [|by eapply (w_index _ Hw)].
      destruct (w_index _ Hw _ _ _ Hl) as [-> |(x & Hx & ->)]; [by left|]. right. exists x. set_solver.
    + intros k l' [[<- <-]|[Hne Hk]]%lookup_insert_Some; [done|]. by eapply (w_vals _ Hw).
    + apply (w_range _ Hw).
  - done.
  - done.
  - intros l'. cbn [put with_seq seqs]. rewrite lookup_insert_is_Some'. split; [intros [-> |]; eauto|auto].
  - intros l' Hne. unfold items. cbn [put with_seq seqs]. by rewrite lookup_insert_ne.
Qed.

Lemma astep_insert A l n : wf A → is_Some (seqs A !! l) → is_Some (vals A !! n) → cont A !! n = None →
  ∃ A', astep (OInsert l n) A = Some (RNone, A') ∧ inserted l n A A' ∧ items A' l = place (val A) n (items A l).
Proof.
  intros Hw [[xs c] Hl] [v Hv] Hn. cbn [astep]. rewrite Hl. cbn [mbind option_bind]. rewrite Hv. cbn [mbind option_bind].
  unfold free. rewrite bool_decide_eq_true_2 by done. eexists. split; [done|].
  destruct (place_split (val A) n xs) as (ys & zs & E & Ep & _).
  unfold items at 2. rewrite Hl, Ep. rewrite E in Hl. apply inserted_at; eauto.
Qed.

Lemma astep_insert_end A l n : wf A → is_Some (seqs A !! l) → is_Some (vals A !! n) → cont A !! n = None →
  ∃ A', astep (OInsertEnd l n) A = Some (RNone, A') ∧ inserted l n A A' ∧ items A' l ≡ₚ n :: items A l.
Proof.
  intros Hw [[xs c] Hl] [v Hv] Hn. cbn [astep]. rewrite Hl. cbn [mbind option_bind]. rewrite Hv. cbn [mbind option_bind].
  unfold free. rewrite bool_decide_eq_true_2 by done. destruct (cut_before c xs) as [ys zs] eqn:Ecut. eexists. split; [done|].
  assert (xs = ys ++ zs) as E.
  { destruct c as [l'|x]; cbn in Ecut; [simplify_eq; by rewrite app_nil_r|]. by apply cut_spec in Ecut as [-> _]. }
  unfold items at 2. rewrite Hl, E. rewrite E in Hl. destruct (inserted_at A l n ys zs c) as [? ->]; [done|done|eauto|done|].
  split; [done|]. by rewrite Permutation_middle.
Qed.

(** The index moves. *)
Record walked (A A' : astate) : Prop := {
  wk_wf : wf A';
  wk_cont : cont A' = cont A;
  wk_vals : vals A' = vals A;
  wk_lists : same_lists A A';
  wk_items : ∀ l, items A' l = items A l
}.

Lemma astep_next A l : wf A → items A l ≠ [] →
  ∃ x A', astep (ONext l) A = Some (RItem (Item x), A') ∧ x ∈ items A l ∧ walked A A'.
Proof.
  intros Hw Hne. unfold items in Hne. destruct (seqs A !! l) as [[xs c]|] eqn:Hl; [|done]. cbn [astep]. rewrite Hl.
  cbn [mbind option_bind]. destruct (cut_after c xs) as [ys zs] eqn:Ecut.
  assert (xs = ys ++ zs) as E.
  { destruct (w_index _ Hw _ _ _ Hl) as [-> |(x & Hx & ->)]; cbn in Ecut; [by simplify_eq|].
    destruct (cut x xs) as [a b] eqn:Ec. apply cut_spec in Ec as [-> Hh]. specialize (Hh Hx).
    destruct b as [|y b]; [done|]. cbn in *. simplify_eq. by rewrite <- app_assoc. }
  destruct (head (zs ++ ys)) as [x|] eqn:Ex; [|by destruct zs, ys; simplify_eq/=].
  assert (x ∈ xs) as Hx. { destruct (zs ++ ys) as [|z r] eqn:Ez; [done|]. cbn in Ex. simplify_eq.
    rewrite (Permutation_app_comm ys zs), Ez. set_solver. }
  cbn [mbind option_bind]. eexists x, _. split; [done|]. split; [unfold items; by rewrite Hl|].
  assert (∀ l', items (with_seq l xs (Item x) A) l' = items A l') as Hit.
  { intros l'. unfold items. cbn. destruct (decide (l' = l)) as [-> |]; [by rewrite lookup_insert_eq, Hl|by rewrite lookup_insert_ne]. }
  split; try done.
  - split; cbn [with_seq seqs cont vals].
    + intros l' xs' d [[<- [= <- <-]]|[? H]]%lookup_insert_Some; by eapply (w_nodup _ Hw).
    + intros l' xs' d k [[<- [= <- <-]]|[? H]]%lookup_insert_Some; by eapply (w_member _ Hw).
    + intros k l' Hk. apply (items_cont _ _ _ Hw) in Hk. rewrite <- Hit in Hk. unfold items in Hk.
      cbn in Hk. destruct (<[l:=_]> (seqs A) !! l') as [[]|]; [eauto|by apply not_elem_of_nil in Hk].
    + intros l' xs' d [[<- [= <- <-]]|[? H]]%lookup_insert_Some; [eauto|by eapply (w_index _ Hw)].
    + apply (w_vals _ Hw).
    + apply (w_range _ Hw).
  - intros l'. cbn. rewrite lookup_insert_is_Some'. split; [intros [-> |]; eauto|auto].
Qed.

Record revalued (n : nat) (v : Z) (A A' : astate) : Prop := {
  rv_wf : wf A';
  rv_cont : cont A' = cont A;
  rv_vals : vals A' = <[n := v]> (vals A);
  rv_seqs : seqs A' = seqs A
}.

Lemma astep_set_value A n v : wf A → is_Some (vals A !! n) → 0 ≤ v ≤ portMAX_DELAY →
  ∃ A', astep (OSetValue n v) A = Some (RNone, A') ∧ revalued n v A A'.
Proof.
  intros Hw [w Hn] Hv. cbn [astep]. rewrite Hn. cbn [mbind option_bind]. rewrite !(proj2 (Z.leb_le _ _)) by lia. cbn [andb].
  eexists. split; [done|]. split; try done. destruct Hw. split; cbn; try done.
  - intros k l Hk. apply lookup_insert_is_Some'. right. eauto.
  - intros k u [[<- <-]|[_ Hk]]%lookup_insert_Some; eauto.
Qed.

(** ** Calls that run to their end *)

Definition wp {X} (f : kcall astate X) (Q : X → sched → astate → Prop) (s : sched) (A : astate) : Prop :=
  ∃ x s' A', f s A = Some (x, s', A') ∧ Q x s' A'.

Lemma wp_bind {X Y} (f : kcall astate X) (k : X → kcall astate Y) Q s A :
  wp f (λ x, wp (k x) Q) s A → wp (f ≫= k) Q s A.
Proof. intros (x & s1 & A1 & E & y & s2 & A2 & E2 & HQ). exists y, s2, A2. unfold mbind, kcall_bind. by rewrite E. Qed.
Lemma wp_ret {X} (x : X) (Q : X → sched → astate → Prop) s A : Q x s A → wp (mret x) Q s A.
Proof. intros. by exists x, s, A. Qed.
Lemma wp_gets {X} (f : sched → X) (Q : X → sched → astate → Prop) s A : Q (f s) s A → wp (gets f) Q s A.
Proof. intros. by eexists _, _, _. Qed.
Lemma wp_modify f (Q : unit → sched → astate → Prop) s A : Q () (f s) A → wp (modify f) Q s A.
Proof. intros. by eexists _, _, _. Qed.
Lemma wp_mono {X} (f : kcall astate X) (P Q : X → sched → astate → Prop) s A :
  wp f P s A → (∀ x s' A', P x s' A' → Q x s' A') → wp f Q s A.
Proof. intros (x & s1 & A1 & E & HP) HQ. exists x, s1, A1. auto. Qed.

Lemma wp_list o r A' (Q : result → sched → astate → Prop) s A : astep o A = Some (r, A') → Q r s A' → wp (list_call o) Q s A.
Proof. intros E HQ. exists r, s, A'. split; [|done]. unfold list_call, list_step, spec_lists. by rewrite E. Qed.

Section list_rules.
Context (s : sched) (A : astate).
Implicit Type (Q : Z → sched → astate → Prop).

Lemma wp_remove n l Q : wf A → cont A !! n = Some l →
  (∀ A', removed n A A' → Q (zlen (items A l) - 1) s A') → wp (uxListRemove n) Q s A.
Proof.
  intros Hw Hc HQ. destruct (astep_remove _ _ _ Hw Hc) as (A' & E & Hr). unfold uxListRemove.
  apply wp_bind. eapply wp_list; [done|]. apply wp_ret. auto.
Qed.

Lemma wp_insert_end l n (Q : unit → sched → astate → Prop) : wf A → is_Some (seqs A !! l) → is_Some (vals A !! n) → cont A !! n = None →
  (∀ A', inserted l n A A' → items A' l ≡ₚ n :: items A l → Q () s A') → wp (vListInsertEnd l n) Q s A.
Proof.
  intros Hw Hl Hv Hn HQ. destruct (astep_insert_end _ _ _ Hw Hl Hv Hn) as (A' & E & Hi & Hp). unfold vListInsertEnd.
  apply wp_bind. eapply wp_list; [done|]. apply wp_ret. auto.
Qed.

Lemma wp_insert l n (Q : unit → sched → astate → Prop) : wf A → is_Some (seqs A !! l) → is_Some (vals A !! n) → cont A !! n = None →
  (∀ A', inserted l n A A' → items A' l = place (val A) n (items A l) → Q () s A') → wp (vListInsert l n) Q s A.
Proof.
  intros Hw Hl Hv Hn HQ. destruct (astep_insert _ _ _ Hw Hl Hv Hn) as (A' & E & Hi & Hp). unfold vListInsert.
  apply wp_bind. eapply wp_list; [done|]. apply wp_ret. auto.
Qed.

Lemma wp_set_item n v (Q : unit → sched → astate → Prop) : wf A → is_Some (vals A !! n) → 0 ≤ v ≤ portMAX_DELAY →
  (∀ A', revalued n v A A' → Q () s A') → wp (listSET_LIST_ITEM_VALUE n v) Q s A.
Proof.
  intros Hw Hn Hv HQ. destruct (astep_set_value _ _ _ Hw Hn Hv) as (A' & E & Hr). unfold listSET_LIST_ITEM_VALUE.
  apply wp_bind. eapply wp_list; [done|]. apply wp_ret. auto.
Qed.

Lemma wp_get_item n Q : is_Some (vals A !! n) → Q (val A n) s A → wp (listGET_LIST_ITEM_VALUE n) Q s A.
Proof.
  intros [v Hv] HQ. unfold listGET_LIST_ITEM_VALUE. apply wp_bind. eapply wp_list; [cbn; by rewrite Hv|].
  apply wp_ret. unfold val in HQ. by rewrite Hv in HQ.
Qed.

Lemma wp_length l Q : is_Some (seqs A !! l) → Q (zlen (items A l)) s A → wp (listCURRENT_LIST_LENGTH l) Q s A.
Proof.
  intros [[xs c] Hl] HQ. unfold listCURRENT_LIST_LENGTH. apply wp_bind. eapply wp_list; [cbn; by rewrite Hl|].
  apply wp_ret. unfold items in HQ. by rewrite Hl in HQ.
Qed.

Lemma wp_empty l (Q : bool → sched → astate → Prop) : is_Some (seqs A !! l) → Q (bool_decide (items A l = [])) s A →
  wp (listLIST_IS_EMPTY l) Q s A.
Proof.
  intros Hl HQ. unfold listLIST_IS_EMPTY. apply wp_bind, wp_length; [done|]. apply wp_ret.
  by replace (zlen (items A l) =? 0) with (bool_decide (items A l = [])) by (by destruct (items A l)).
Qed.

Lemma wp_container n (Q : option nat → sched → astate → Prop) : is_Some (vals A !! n) → Q (cont A !! n) s A →
  wp (listLIST_ITEM_CONTAINER n) Q s A.
Proof.
  intros [v Hv] HQ. unfold listLIST_ITEM_CONTAINER. apply wp_bind. eapply wp_list; [cbn; by rewrite Hv|]. by apply wp_ret.
Qed.

Lemma wp_head l x xs (Q : nat → sched → astate → Prop) : items A l = x :: xs → Q (pvOwner_task x) s A →
  wp (listGET_OWNER_OF_HEAD_ENTRY l) Q s A.
Proof.
  unfold items. intros Hx HQ. destruct (seqs A !! l) as [[ys c]|] eqn:Hl; [|done]. subst ys.
  unfold listGET_OWNER_OF_HEAD_ENTRY. apply wp_bind. eapply wp_list; [cbn; by rewrite Hl|]. by apply wp_ret.
Qed.

Lemma wp_next l (Q : nat → sched → astate → Prop) : wf A → items A l ≠ [] →
  (∀ x A', x ∈ items A l → walked A A' → Q (pvOwner_task x) s A') → wp (listGET_OWNER_OF_NEXT_ENTRY l) Q s A.
Proof.
  intros Hw Hne HQ. destruct (astep_next _ _ Hw Hne) as (x & A' & E & Hx & Hk).
  unfold listGET_OWNER_OF_NEXT_ENTRY. apply wp_bind. eapply wp_list; [done|]. apply wp_ret. auto.
Qed.

Lemma wp_tcb t c (Q : TCB_t → sched → astate → Prop) : tcbs s !! t = Some c → Q c s A → wp (tcb t) Q s A.
Proof. intros Ht HQ. unfold tcb. apply wp_bind, wp_gets. rewrite Ht. by apply wp_ret. Qed.

Lemma wp_priority t c (Q : nat → sched → astate → Prop) : tcbs s !! t = Some c → Q (uxPriority c) s A → wp (priority t) Q s A.
Proof. intros Ht HQ. unfold priority. eapply wp_bind, wp_tcb; [done|]. by apply wp_ret. Qed.

Lemma wp_current t (Q : nat → sched → astate → Prop) : pxCurrentTCB s = Some t → Q t s A → wp current Q s A.
Proof. intros Ht HQ. unfold current. apply wp_bind, wp_gets. rewrite Ht. by apply wp_ret. Qed.

End list_rules.

(** ** The invariant

    Tasks that are between two lists are in [X].  The times of the delayed tasks are at
    least [lo], which is the next tick except while the tick handler runs. *)

Definition parked (l : nat) : Prop :=
  l = xDelayedTaskList1 ∨ l = xDelayedTaskList2 ∨ l = xTasksWaitingTermination ∨ l = xSuspendedTaskList.

Definition by_value (A : astate) (x y : nat) : Prop := val A x ≤ val A y.

Record kinv (lo : Z) (X : gset nat) (s : sched) (A : astate) : Prop := {
  k_wf : wf A;
  k_lists : ∀ l, (l < 10)%nat → is_Some (seqs A !! l);
  k_prio : ∀ t c, tcbs s !! t = Some c → (uxPriority c < 5)%nat;
  k_items : ∀ t, is_Some (tcbs s !! t) → is_Some (vals A !! xStateListItem t) ∧ is_Some (vals A !! xEventListItem t);
  k_owner : ∀ n l, cont A !! n = Some l → is_Some (tcbs s !! pvOwner_task n);
  k_state : ∀ t c, tcbs s !! t = Some c → t ∉ X →
    ∃ l, cont A !! xStateListItem t = Some l ∧ (l = uxPriority c ∨ parked l);
  k_out : ∀ t, t ∈ X → cont A !! xStateListItem t = None ∧ is_Some (tcbs s !! t);
  k_event : ∀ t l, cont A !! xEventListItem t = Some l → l = xPendingReadyList ∨ (10 ≤ l)%nat;
  k_top : ∀ n l, cont A !! n = Some l → (l < 5)%nat → (l ≤ uxTopReadyPriority s)%nat;
  k_top5 : (uxTopReadyPriority s < 5)%nat;
  k_two : pxDelayedTaskList s = xDelayedTaskList1 ∧ pxOverflowDelayedTaskList s = xDelayedTaskList2 ∨
          pxDelayedTaskList s = xDelayedTaskList2 ∧ pxOverflowDelayedTaskList s = xDelayedTaskList1;
  k_due : ∀ n, cont A !! n = Some (pxDelayedTaskList s) → lo ≤ val A n ∧ xNextTaskUnblockTime s ≤ val A n;
  k_over : ∀ n, cont A !! n = Some (pxOverflowDelayedTaskList s) → val A n < xTickCount s;
  k_sorted : ∀ l, l = xDelayedTaskList1 ∨ l = xDelayedTaskList2 → StronglySorted (by_value A) (items A l);
  k_tick : 0 ≤ xTickCount s < 2 ^ 32;
  k_next : 0 ≤ xNextTaskUnblockTime s ≤ portMAX_DELAY
}.

#[local] Arguments xStateListItem : simpl never.
#[local] Arguments xEventListItem : simpl never.
#[local] Arguments pvOwner_task : simpl never.

Lemma owner_state t : pvOwner_task (xStateListItem t) = t.
Proof. apply Nat.div2_double. Qed.
Lemma owner_event t : pvOwner_task (xEventListItem t) = t.
Proof. unfold pvOwner_task, xEventListItem. rewrite Nat.add_1_r. apply Nat.div2_succ_double. Qed.
Lemma item_cases n : n = xStateListItem (pvOwner_task n) ∨ n = xEventListItem (pvOwner_task n).
Proof.
  unfold xStateListItem, xEventListItem, pvOwner_task. pose proof (Nat.div2_odd n) as E.
  destruct (Nat.odd n); cbn [Nat.b2n] in E; lia.
Qed.
Lemma state_event t u : xStateListItem t ≠ xEventListItem u.
Proof. unfold xStateListItem, xEventListItem. lia. Qed.
Lemma state_inj t u : xStateListItem t = xStateListItem u → t = u.
Proof. unfold xStateListItem. lia. Qed.
Lemma event_inj t u : xEventListItem t = xEventListItem u → t = u.
Proof. unfold xEventListItem. lia. Qed.

(** What a list below the event lists holds, other than the pending ready list *)
Lemma state_item lo X s A n l : kinv lo X s A → cont A !! n = Some l → (l < 10)%nat → l ≠ xPendingReadyList →
  n = xStateListItem (pvOwner_task n) ∧ ∃ c, tcbs s !! pvOwner_task n = Some c ∧ (l = uxPriority c ∨ parked l).
Proof.
  intros Hk Hn Hl H7. destruct (k_owner _ _ _ _ Hk _ _ Hn) as [c Hc]. destruct (item_cases n) as [E|E].
  - split; [done|]. exists c. split; [done|]. rewrite E in Hn.
    destruct (decide (pvOwner_task n ∈ X)) as [HX|HX].
    + destruct (k_out _ _ _ _ Hk _ HX) as [? _]. congruence.
    + destruct (k_state _ _ _ _ Hk _ _ Hc HX) as (l' & Hl' & ?). by simplify_eq.
  - rewrite E in Hn. destruct (k_event _ _ _ _ Hk _ _ Hn); [done|lia].
Qed.

Lemma val_same A A' n : vals A' = vals A → val A' n = val A n.
Proof. unfold val. by intros ->. Qed.

Lemma by_value_same A A' xs : vals A' = vals A → StronglySorted (by_value A) xs → StronglySorted (by_value A') xs.
Proof.
  intros Hv. induction 1 as [|x xs Hs IH Hx]; constructor; [done|]. eapply Forall_impl; [exact Hx|].
  unfold by_value. intros y. by rewrite !(val_same A A').
Qed.

Lemma sorted_filter A (P : nat → Prop) `{∀ x, Decision (P x)} xs :
  StronglySorted (by_value A) xs → StronglySorted (by_value A) (filter P xs).
Proof.
  induction 1 as [|x xs Hs IH Hx]; [constructor|]. rewrite filter_cons. case_decide; [|done].
  constructor; [done|]. rewrite Forall_forall in *. intros y [_ Hy]%list_elem_of_filter. by apply Hx.
Qed.

(** A state item is taken out of its list. *)
Lemma kinv_leave lo X s A A' t : kinv lo X s A → is_Some (tcbs s !! t) → removed (xStateListItem t) A A' →
  kinv lo ({[t]} ∪ X) s A'.
Proof.
  intros Hk Ht [Hw Hc Hv Hls Hit]. destruct Hk. split; try done.
  - intros l Hl. apply Hls. auto.
  - intros u Hu. rewrite Hv. auto.
  - intros n l. rewrite Hc. intros [_ Hn]%lookup_delete_Some. eauto.
  - intros u c Hu HX. rewrite Hc, lookup_delete_ne; [apply k_state0; [done|set_solver]|].
    intros E%state_inj. set_solver.
  - intros u Hu. rewrite Hc. destruct (decide (u = t)) as [-> |Hne]; [by rewrite lookup_delete_eq|].
    rewrite lookup_delete_ne by (intros E%state_inj; done). apply k_out0. set_solver.
  - intros u l. rewrite Hc. intros [_ Hn]%lookup_delete_Some. eauto.
  - intros n l. rewrite Hc. intros [_ Hn]%lookup_delete_Some. eauto.
  - intros n. rewrite Hc, (val_same A A') by done. intros [_ Hn]%lookup_delete_Some. eauto.
  - intros n. rewrite Hc, (val_same A A') by done. intros [_ Hn]%lookup_delete_Some. eauto.
  - intros l Hl. rewrite Hit. apply sorted_filter. eapply by_value_same; eauto.
Qed.

(** An event item is taken out of its list. *)
Lemma kinv_leave_event lo X s A A' t : kinv lo X s A → removed (xEventListItem t) A A' → kinv lo X s A'.
Proof.
  intros Hk [Hw Hc Hv Hls Hit]. pose proof (λ u, state_event u t) as Hse. destruct Hk. split; try done.
  - intros l Hl. apply Hls. auto.
  - intros u Hu. rewrite Hv. auto.
  - intros n l. rewrite Hc. intros [_ Hn]%lookup_delete_Some. eauto.
  - intros u c Hu HX. rewrite Hc, lookup_delete_ne by done. by apply k_state0.
  - intros u Hu. rewrite Hc, lookup_delete_ne by done. by apply k_out0.
  - intros u l. rewrite Hc. intros [_ Hn]%lookup_delete_Some. eauto.
  - intros n l. rewrite Hc. intros [_ Hn]%lookup_delete_Some. eauto.
  - intros n. rewrite Hc, (val_same A A') by done. intros [_ Hn]%lookup_delete_Some. eauto.
  - intros n. rewrite Hc, (val_same A A') by done. intros [_ Hn]%lookup_delete_Some. eauto.
  - intros l Hl. rewrite Hit. apply sorted_filter. eapply by_value_same; eauto.
Qed.

(** A state item enters a list. *)
Lemma kinv_enter lo X s A A' t c l : kinv lo X s A → t ∈ X → tcbs s !! t = Some c → inserted l (xStateListItem t) A A' →
  (l = uxPriority c ∧ (l ≤ uxTopReadyPriority s)%nat ∨ parked l) →
  (l = xDelayedTaskList1 ∨ l = xDelayedTaskList2 → items A' l = place (val A) (xStateListItem t) (items A l)) →
  (l = pxDelayedTaskList s → lo ≤ val A (xStateListItem t) ∧ xNextTaskUnblockTime s ≤ val A (xStateListItem t)) →
  (l = pxOverflowDelayedTaskList s → val A (xStateListItem t) < xTickCount s) →
  kinv lo (X ∖ {[t]}) s A'.
Proof.
  intros Hk HX Ht [Hw Hc Hv Hls Hit] Hl Hpl Hd Ho. pose proof (λ u, state_event t u) as Hse. destruct Hk.
  assert (l < 10 ∧ l ≠ 7)%nat as [Hl10 Hl7] by (specialize (k_prio0 _ _ Ht);
    unfold parked, xDelayedTaskList1, xDelayedTaskList2, xTasksWaitingTermination, xSuspendedTaskList in Hl; lia).
  split; try done.
  - intros k ?. apply Hls. auto.
  - intros u Hu. rewrite Hv. auto.
  - intros n k. rewrite Hc. intros [[<- <-]|[_ Hn]]%lookup_insert_Some; [rewrite owner_state|]; eauto.
  - intros u cu Hu HXu. rewrite Hc. destruct (decide (u = t)) as [-> |Hne].
    + rewrite lookup_insert_eq. exists l. split; [done|]. simplify_eq. tauto.
    + rewrite lookup_insert_ne by (intros E%state_inj; done). apply k_state0; [done|set_solver].
  - intros u Hu. rewrite Hc, lookup_insert_ne by (intros E%state_inj; set_solver). apply k_out0. set_solver.
  - intros u k. rewrite Hc, lookup_insert_ne by done. apply k_event0.
  - intros n k. rewrite Hc. intros [[<- <-]|[_ Hn]]%lookup_insert_Some; [|eauto]. intros Hl5.
    destruct Hl as [[_ ?]|Hl]; [done|].
    unfold parked, xDelayedTaskList1, xDelayedTaskList2, xTasksWaitingTermination, xSuspendedTaskList in Hl. lia.
  - intros n. rewrite Hc, (val_same A A') by done. intros [[<- E]|[_ Hn]]%lookup_insert_Some; eauto.
  - intros n. rewrite Hc, (val_same A A') by done. intros [[<- E]|[_ Hn]]%lookup_insert_Some; eauto.
  - intros k Hk. eapply by_value_same; [done|]. destruct (decide (k = l)) as [-> |Hne].
    + rewrite Hpl by done. apply place_sorted. by apply k_sorted0.
    + rewrite Hit by done. by apply k_sorted0.
Qed.

(** An event item enters a list. *)
Lemma kinv_enter_event lo X s A A' t l : kinv lo X s A → is_Some (tcbs s !! t) → inserted l (xEventListItem t) A A' →
  (l = xPendingReadyList ∨ (10 ≤ l)%nat) → kinv lo X s A'.
Proof.
  intros Hk Ht [Hw Hc Hv Hls Hit] Hl. pose proof (λ u, state_event u t) as Hse. destruct Hk.
  assert (∀ k, (k < 7)%nat → k ≠ l) as Hne by (unfold xPendingReadyList in Hl; lia).
  assert (pxDelayedTaskList s < 7 ∧ pxOverflowDelayedTaskList s < 7)%nat as [Hd Ho]
    by (destruct k_two0 as [[-> ->]|[-> ->]]; unfold xDelayedTaskList1, xDelayedTaskList2; lia).
  split; try done.
  - intros k ?. apply Hls. auto.
  - intros u Hu. rewrite Hv. auto.
  - intros n k. rewrite Hc. intros [[<- <-]|[_ Hn]]%lookup_insert_Some; [by rewrite owner_event|eauto].
  - intros u cu Hu HXu. rewrite Hc, lookup_insert_ne by done. by apply k_state0.
  - intros u Hu. rewrite Hc, lookup_insert_ne by done. by apply k_out0.
  - intros u k. rewrite Hc. intros [[_ <-]|[_ Hn]]%lookup_insert_Some; [done|eauto].
  - intros n k. rewrite Hc. intros [[<- <-]|[_ Hn]]%lookup_insert_Some Hk5; [|eauto]. by destruct (Hne l); [lia|].
  - intros n. rewrite Hc, (val_same A A') by done. intros [[<- E]|[_ Hn]]%lookup_insert_Some; [|eauto]. by destruct (Hne _ Hd).
  - intros n. rewrite Hc, (val_same A A') by done. intros [[<- E]|[_ Hn]]%lookup_insert_Some; [|eauto]. by destruct (Hne _ Ho).
  - intros k Hk. eapply by_value_same; [done|].
    rewrite Hit by (apply Hne; unfold xDelayedTaskList1, xDelayedTaskList2 in Hk; lia). by apply k_sorted0.
Qed.

(** A value changes that is not in a delayed list. *)
Lemma kinv_revalue lo X s A A' n v : kinv lo X s A → revalued n v A A' →
  (∀ l, l = xDelayedTaskList1 ∨ l = xDelayedTaskList2 → cont A !! n ≠ Some l) → kinv lo X s A'.
Proof.
  intros Hk [Hw Hc Hv Hs] Hn. destruct Hk.
  assert (∀ k, k ≠ n → val A' k = val A k) as Hval by (intros k Hk; unfold val; by rewrite Hv, lookup_insert_ne).
  assert (∀ k l, cont A !! k = Some l → l = xDelayedTaskList1 ∨ l = xDelayedTaskList2 → val A' k = val A k) as Hval2.
  { intros k l Hk Hl. apply Hval. intros ->. by apply (Hn l). }
  assert ((pxDelayedTaskList s = xDelayedTaskList1 ∨ pxDelayedTaskList s = xDelayedTaskList2) ∧
          (pxOverflowDelayedTaskList s = xDelayedTaskList1 ∨ pxOverflowDelayedTaskList s = xDelayedTaskList2)) as [Hd Ho] by naive_solver.
  assert (∀ l, items A' l = items A l) as Hit by (intros l; unfold items; by rewrite Hs).
  split; rewrite ?Hc, ?Hs; try done.
  - intros u Hu. rewrite Hv, !lookup_insert_is_Some'. destruct (k_items0 u Hu). auto.
  - intros k Hk. rewrite (Hval2 k _ Hk Hd). eauto.
  - intros k Hk. rewrite (Hval2 k _ Hk Ho). eauto.
  - intros l Hl. rewrite Hit. specialize (k_sorted0 l Hl).
    assert (Forall (λ x, val A' x = val A x) (items A l)) as Hall.
    { apply Forall_forall. intros x Hx. apply (items_cont _ _ _ k_wf0) in Hx. by eapply Hval2. }
    clear -k_sorted0 Hall. induction k_sorted0 as [|x xs Hs IH Hx]; [constructor|].
    apply Forall_cons in Hall as [Ex Hall]. constructor; [by apply IH|]. rewrite Forall_forall in *. intros y Hy.
    specialize (Hx y Hy). specialize (Hall y Hy). unfold by_value in *. cbn in Hall. lia.
Qed.

(** ** Kernel calls and the invariant *)

Lemma kinv_ext lo X s s' A : kinv lo X s A → tcbs s' = tcbs s → uxTopReadyPriority s' = uxTopReadyPriority s →
  pxDelayedTaskList s' = pxDelayedTaskList s → pxOverflowDelayedTaskList s' = pxOverflowDelayedTaskList s →
  xNextTaskUnblockTime s' = xNextTaskUnblockTime s → xTickCount s' = xTickCount s → kinv lo X s' A.
Proof. intros [] E1 E2 E3 E4 E5 E6. split; rewrite ?E1, ?E2, ?E3, ?E4, ?E5, ?E6; done. Qed.

Lemma kinv_with_top lo X s A p : kinv lo X s A → (p < 5)%nat → (∀ n l, cont A !! n = Some l → (l < 5)%nat → (l ≤ p)%nat) →
  kinv lo X (with_top p s) A.
Proof. intros [] Hp Hl. by split. Qed.

Lemma kinv_walked lo X s A A' : kinv lo X s A → walked A A' → kinv lo X s A'.
Proof.
  intros [] [Hw Hc Hv Hls Hit]. split; rewrite ?Hc; try done.
  - intros l Hl. apply Hls. auto.
  - intros u Hu. rewrite Hv. auto.
  - intros n. rewrite (val_same A A') by done. auto.
  - intros n. rewrite (val_same A A') by done. auto.
  - intros l Hl. rewrite Hit. eapply by_value_same; eauto.
Qed.

Lemma kinv_unblock lo X s A v : kinv lo X s A → 0 ≤ v ≤ portMAX_DELAY →
  (∀ n, cont A !! n = Some (pxDelayedTaskList s) → v ≤ val A n) → kinv lo X (with_unblock v s) A.
Proof.
  intros [] Hv Hn. split; try done. cbn. intros n Hc. split; [|auto]. by apply (k_due0 n).
Qed.

Lemma with_top_id s : with_top (uxTopReadyPriority s) s = s.
Proof. by destruct s. Qed.

Lemma wp_leave_state lo X s A t c (Q : Z → sched → astate → Prop) : kinv lo X s A → tcbs s !! t = Some c → t ∉ X →
  (∀ k A', kinv lo ({[t]} ∪ X) s A' → removed (xStateListItem t) A A' → Q k s A') → wp (uxListRemove (xStateListItem t)) Q s A.
Proof.
  intros Hk Ht HX HQ. destruct (k_state _ _ _ _ Hk _ _ Ht HX) as (l & Hl & _).
  eapply wp_remove; [apply Hk|done|]. intros A' Hr. apply HQ; [|done]. eapply kinv_leave; eauto.
Qed.

Lemma removed_none n A : wf A → cont A !! n = None → removed n A A.
Proof.
  intros Hw Hn. split; [done|by rewrite delete_id|done|done|]. intros l. rewrite filter_out; [done|].
  rewrite items_cont by done. congruence.
Qed.

Lemma wp_leave_event lo X s A t (Q : unit → sched → astate → Prop) : kinv lo X s A → is_Some (tcbs s !! t) →
  (∀ A', kinv lo X s A' → removed (xEventListItem t) A A' → Q () s A') → wp (leave_event_list t) Q s A.
Proof.
  intros Hk Ht HQ. unfold leave_event_list. apply wp_bind, wp_container; [by apply (k_items _ _ _ _ Hk)|].
  destruct (cont A !! xEventListItem t) as [l|] eqn:E.
  - apply wp_bind. eapply wp_remove; [apply Hk|done|]. intros A' Hr. apply wp_ret, HQ; [|done]. by eapply kinv_leave_event.
  - apply wp_ret, HQ; [done|]. apply removed_none; [apply Hk|done].
Qed.

Lemma wp_add_ready lo X s A t c (Q : unit → sched → astate → Prop) : kinv lo X s A → t ∈ X → tcbs s !! t = Some c →
  (∀ A', let s' := with_top (uxTopReadyPriority s `max` uxPriority c) s in
    kinv lo (X ∖ {[t]}) s' A' → inserted (uxPriority c) (xStateListItem t) A A' → Q () s' A') →
  wp (prvAddTaskToReadyList t) Q s A.
Proof.
  intros Hk HX Ht HQ. pose proof (k_prio _ _ _ _ Hk _ _ Ht) as Hp. pose proof (k_top5 _ _ _ _ Hk) as H5.
  unfold prvAddTaskToReadyList. eapply wp_bind, wp_priority; [done|]. apply wp_bind. unfold taskRECORD_READY_PRIORITY.
  apply wp_bind, wp_gets. set (s' := with_top _ s) in HQ.
  assert (kinv lo X s' A) as Hk' by (apply kinv_with_top; [done|lia|]; intros n l Hn Hl;
    pose proof (k_top _ _ _ _ Hk _ _ Hn Hl); lia).
  assert (wp (vListInsertEnd (pxReadyTasksLists (uxPriority c)) (xStateListItem t)) Q s' A) as Hgoal.
  { destruct (k_out _ _ _ _ Hk _ HX) as [Hn _]. apply wp_insert_end; [apply Hk|apply Hk; unfold pxReadyTasksLists; lia| |done|].
    - apply (k_items _ _ _ _ Hk). eauto.
    - intros A' Hi _. apply HQ; [|done]. eapply kinv_enter; [exact Hk'|done|exact Ht|done|..].
      + left. split; [done|]. cbn. unfold pxReadyTasksLists. lia.
      + unfold pxReadyTasksLists, xDelayedTaskList1, xDelayedTaskList2. lia.
      + destruct (k_two _ _ _ _ Hk) as [[E _]|[E _]]; cbn; rewrite E; unfold pxReadyTasksLists, xDelayedTaskList1, xDelayedTaskList2; lia.
      + destruct (k_two _ _ _ _ Hk) as [[_ E]|[_ E]]; cbn; rewrite E; unfold pxReadyTasksLists, xDelayedTaskList1, xDelayedTaskList2; lia. }
  destruct (Nat.ltb_spec (uxTopReadyPriority s) (uxPriority c)) as [Hlt|Hge].
  - apply wp_modify. subst s'. by rewrite Nat.max_r in Hgoal by lia.
  - apply wp_ret. subst s'. by rewrite Nat.max_l, with_top_id in Hgoal by lia.
Qed.

(** The highest priority with a ready task is found. *)
Lemma wp_highest s A (Q : nat → sched → astate → Prop) : ∀ top, wf A → (top < 5)%nat →
  (∀ l, (l < 10)%nat → is_Some (seqs A !! l)) → (∃ p, (p ≤ top)%nat ∧ items A p ≠ []) →
  (∀ p, (p ≤ top)%nat → items A p ≠ [] → (∀ q, (p < q ≤ top)%nat → items A q = []) → Q p s A) → wp (highest top) Q s A.
Proof.
  induction top as [|top IH]; intros Hw H5 Hls (p & Hp & Hne) HQ; cbn [highest]; apply wp_bind, wp_empty; try (apply Hls; unfold pxReadyTasksLists; lia);
    unfold pxReadyTasksLists; case_bool_decide as E.
  - assert (p = 0%nat) as -> by lia. done.
  - apply wp_ret, HQ; [lia|done|]. lia.
  - apply IH; [done|lia|done| |].
    + exists p. split; [|done]. destruct (decide (p = S top)) as [-> |]; [done|lia].
    + intros q Hq Hqn Hall. apply HQ; [lia|done|]. intros r Hr. destruct (decide (r = S top)) as [-> |]; [done|]. apply Hall. lia.
  - apply wp_ret, HQ; [lia|done|]. lia.
Qed.

(** The task the processor runs: ready, with no ready task of a higher priority *)
Definition top_task (s : sched) (A : astate) (t : nat) : Prop :=
  ∃ c, tcbs s !! t = Some c ∧ cont A !! xStateListItem t = Some (uxPriority c) ∧
    ∀ n l, cont A !! n = Some l → (l < 5)%nat → (l ≤ uxPriority c)%nat.

Lemma wp_switch lo X s A (Q : unit → sched → astate → Prop) : kinv lo X s A →
  (∃ n l, cont A !! n = Some l ∧ (l < 5)%nat) →
  (uxSchedulerSuspended s ≠ 0 → Q () (with_yield true s) A) →
  (uxSchedulerSuspended s = 0 → ∀ t p A', let s' := with_top p (with_current (Some t) (with_yield false s)) in
    top_task s' A' t → walked A A' → kinv lo X s' A' → Q () s' A') →
  wp vTaskSwitchContext Q s A.
Proof.
  intros Hk (n & l & Hn & Hl) HQ1 HQ2. unfold vTaskSwitchContext. apply wp_bind, wp_gets.
  destruct (uxSchedulerSuspended s =? 0) eqn:E; zbool; cbn [negb]; [|apply wp_modify; auto].
  apply wp_bind, wp_modify. unfold taskSELECT_HIGHEST_PRIORITY_TASK. apply wp_bind, wp_gets. cbn.
  pose proof (k_wf _ _ _ _ Hk) as Hw. apply wp_bind, wp_highest; [done|apply Hk|apply Hk| |].
  { exists l. split; [by eapply (k_top _ _ _ _ Hk)|]. intros E0. apply (items_cont _ _ _ Hw) in Hn. rewrite E0 in Hn.
    by apply not_elem_of_nil in Hn. }
  intros p Hp Hne Hall. apply wp_bind, wp_next; [done|done|]. intros x A' Hx Hwk. unfold pxReadyTasksLists in *.
  apply (items_cont _ _ _ Hw) in Hx. pose proof (k_top5 _ _ _ _ Hk) as H5.
  assert (∀ m q, cont A !! m = Some q → (q < 5)%nat → (q ≤ p)%nat) as Hmax.
  { intros m q Hm Hq. destruct (decide (q ≤ p)%nat); [done|]. pose proof (k_top _ _ _ _ Hk _ _ Hm Hq).
    apply (items_cont _ _ _ Hw) in Hm. rewrite Hall in Hm by lia. by apply not_elem_of_nil in Hm. }
  destruct (state_item _ _ _ _ _ _ Hk Hx) as [Ex (c & Hc & Hpc)]; [lia|unfold xPendingReadyList; lia|].
  assert (p = uxPriority c) as Hpeq.
  { destruct Hpc as [|Hpc]; [done|].
    unfold parked, xDelayedTaskList1, xDelayedTaskList2, xTasksWaitingTermination, xSuspendedTaskList in Hpc. lia. }
  apply wp_bind, wp_modify, wp_modify. apply HQ2; [done| |done|].
  - exists c. cbn. rewrite (wk_cont _ _ Hwk), <- Ex, Hx, <- Hpeq. done.
  - apply kinv_with_top; [|lia|by rewrite (wk_cont _ _ Hwk)]. eapply kinv_walked; [|done]. by eapply kinv_ext.
Qed.

(** ** Time *)

Lemma delayed_ids lo X s A : kinv lo X s A →
  ((pxDelayedTaskList s = 5 ∨ pxDelayedTaskList s = 6)%nat) ∧ ((pxOverflowDelayedTaskList s = 5 ∨ pxOverflowDelayedTaskList s = 6)%nat) ∧
  pxDelayedTaskList s ≠ pxOverflowDelayedTaskList s.
Proof.
  intros Hk. destruct (k_two _ _ _ _ Hk) as [[-> ->]|[-> ->]]; unfold xDelayedTaskList1, xDelayedTaskList2; lia.
Qed.

Lemma delayed_item lo X s A n : kinv lo X s A → cont A !! n = Some (pxDelayedTaskList s) →
  n = xStateListItem (pvOwner_task n) ∧ is_Some (tcbs s !! pvOwner_task n) ∧ (pvOwner_task n ∉ X) ∧ is_Some (vals A !! n).
Proof.
  intros Hk Hn. destruct (delayed_ids _ _ _ _ Hk) as (Hd & _).
  destruct (state_item _ _ _ _ _ _ Hk Hn) as [E (c & Hc & _)]; [lia|unfold xPendingReadyList; lia|].
  split_and!; [done|eauto| |by eapply (w_vals _ (k_wf _ _ _ _ Hk))].
  intros HX. destruct (k_out _ _ _ _ Hk _ HX) as [H _]. rewrite <- E in H. congruence.
Qed.

Lemma val_range A n : wf A → is_Some (vals A !! n) → 0 ≤ val A n ≤ portMAX_DELAY.
Proof. intros Hw [v Hv]. unfold val. rewrite Hv. by apply (w_range _ Hw n). Qed.

(** The head of the delayed list has the least time. *)
Lemma head_least lo X s A x xs n : kinv lo X s A → items A (pxDelayedTaskList s) = x :: xs →
  cont A !! n = Some (pxDelayedTaskList s) → val A x ≤ val A n.
Proof.
  intros Hk Hx Hn. apply (items_cont _ _ _ (k_wf _ _ _ _ Hk)) in Hn. destruct (delayed_ids _ _ _ _ Hk) as (Hd & _).
  pose proof (k_sorted _ _ _ _ Hk (pxDelayedTaskList s) Hd) as Hs. rewrite Hx in Hs, Hn.
  apply StronglySorted_inv in Hs as [_ Hs]. rewrite Forall_forall in Hs.
  apply elem_of_cons in Hn as [-> |Hn]; [lia|]. by apply Hs.
Qed.

(** The time is computed anew, whatever it was. *)
Lemma wp_reset_unblock0 lo X s A (Q : unit → sched → astate → Prop) : kinv lo X (with_unblock 0 s) A →
  (∀ v, kinv lo X (with_unblock v s) A → Q () (with_unblock v s) A) → wp prvResetNextTaskUnblockTime Q s A.
Proof.
  intros Hk HQ. destruct (delayed_ids _ _ _ _ Hk) as (Hd & _). pose proof (k_wf _ _ _ _ Hk) as Hw. cbn in Hd.
  assert (∀ v, 0 ≤ v ≤ portMAX_DELAY → (∀ n, cont A !! n = Some (pxDelayedTaskList s) → v ≤ val A n) → Q () (with_unblock v s) A) as HQ'.
  { intros v Hv Hn. by apply HQ, (kinv_unblock _ _ _ _ v Hk). }
  unfold prvResetNextTaskUnblockTime. apply wp_bind, wp_gets, wp_bind, wp_empty; [apply Hk; lia|].
  case_bool_decide as E.
  - apply wp_modify, HQ'; [done|]. intros n Hn. apply (items_cont _ _ _ Hw) in Hn. rewrite E in Hn.
    by apply not_elem_of_nil in Hn.
  - destruct (items A (pxDelayedTaskList s)) as [|x xs] eqn:Ex; [done|].
    assert (cont A !! x = Some (pxDelayedTaskList s)) as Hx by (apply (items_cont _ _ _ Hw); rewrite Ex; set_solver).
    destruct (delayed_item _ _ _ _ _ Hk Hx) as (Hxs & _ & _ & Hv).
    eapply wp_bind, wp_head; [done|]. rewrite Hxs in Hv. apply wp_bind, wp_get_item; [done|]. rewrite <- Hxs in *.
    apply wp_modify, HQ'; [by apply val_range|]. intros n Hn. by eapply (head_least _ _ _ _ _ _ _ Hk).
Qed.

Lemma wp_reset_unblock lo X s A (Q : unit → sched → astate → Prop) : kinv lo X s A →
  (∀ v, kinv lo X (with_unblock v s) A → Q () (with_unblock v s) A) → wp prvResetNextTaskUnblockTime Q s A.
Proof.
  intros Hk. apply wp_reset_unblock0, kinv_unblock; [done|done|]. intros n Hn.
  apply val_range; [apply Hk|]. eapply w_vals; [apply Hk|done].
Qed.

Definition due (s : sched) (A : astate) (tick : Z) (t : nat) : Prop :=
  cont A !! xStateListItem t = Some (pxDelayedTaskList s) ∧ val A (xStateListItem t) ≤ tick.

(** The tasks that are due go to their ready lists and leave the event lists; the
    others stay where they are. *)
Record unblocked (s : sched) (A A' : astate) (tick : Z) : Prop := {
  ub_due : ∀ t c, due s A tick t → tcbs s !! t = Some c →
    cont A' !! xStateListItem t = Some (uxPriority c) ∧ cont A' !! xEventListItem t = None;
  ub_other : ∀ t, ¬ due s A tick t →
    cont A' !! xStateListItem t = cont A !! xStateListItem t ∧ cont A' !! xEventListItem t = cont A !! xEventListItem t;
  ub_vals : vals A' = vals A;
  ub_lists : same_lists A A'
}.

(** The state but for the two variables that the loop may write *)
Definition only_top_unblock (s s' : sched) : Prop := ∃ p v, s' = with_unblock v (with_top p s).

Lemma only_refl s : only_top_unblock s s.
Proof. exists (uxTopReadyPriority s), (xNextTaskUnblockTime s). by destruct s. Qed.

Lemma unblocked_none lo X s A tick : kinv lo X s A → tick < lo → unblocked s A A tick.
Proof.
  intros Hk Hlo. split; [|done..]. intros t c [Hd Hv]. destruct (k_due _ _ _ _ Hk _ Hd). lia.
Qed.

Lemma kinv_raise lo lo' X s A : kinv lo X s A → (∀ n, cont A !! n = Some (pxDelayedTaskList s) → lo' ≤ val A n) → kinv lo' X s A.
Proof. intros [] H. split; try done. intros n Hn. split; [auto|]. by apply (k_due0 n). Qed.

Lemma items_length lo X s A : kinv lo X s A → (length (items A (pxDelayedTaskList s)) ≤ size (tcbs s))%nat.
Proof.
  intros Hk. pose proof (k_wf _ _ _ _ Hk) as Hw.
  assert (NoDup (pvOwner_task <$> items A (pxDelayedTaskList s))) as Hnd.
  { apply NoDup_fmap_2_strong; [|by apply items_nodup]. intros x y Hx Hy E.
    apply (items_cont _ _ _ Hw) in Hx, Hy. destruct (delayed_item _ _ _ _ _ Hk Hx) as [Ex _].
    destruct (delayed_item _ _ _ _ _ Hk Hy) as [Ey _]. congruence. }
  assert (list_to_set (pvOwner_task <$> items A (pxDelayedTaskList s)) ⊆ dom (tcbs s)) as Hsub.
  { intros t Ht%elem_of_list_to_set. apply list_elem_of_fmap in Ht as (x & -> & Hx). apply (items_cont _ _ _ Hw) in Hx.
    apply elem_of_dom. by apply (delayed_item _ _ _ _ _ Hk Hx). }
  apply subseteq_size in Hsub. rewrite size_list_to_set, length_fmap, size_dom in Hsub by done. done.
Qed.

(** Nothing more is due. *)
Lemma unblocked_done X s A tick sw cc : kinv tick X s A →
  (∀ n, cont A !! n = Some (pxDelayedTaskList s) → tick < val A n) → ∀ v, 0 ≤ v ≤ portMAX_DELAY →
  (∀ n, cont A !! n = Some (pxDelayedTaskList s) → v ≤ val A n) →
  kinv (tick + 1) X (with_unblock v s) A ∧ unblocked s A A tick ∧ only_top_unblock s (with_unblock v s) ∧
  (sw = true ↔ sw = true ∨ ∃ t c, due s A tick t ∧ tcbs s !! t = Some c ∧ (uxPriority cc ≤ uxPriority c)%nat).
Proof.
  intros Hk Hlt v Hv Hn. split_and!.
  - apply kinv_unblock; [|done|done]. eapply kinv_raise; [done|]. intros n H. specialize (Hlt n H). lia.
  - split; [|done..]. intros t c [H ?]. specialize (Hlt _ H). lia.
  - exists (uxTopReadyPriority s), v. by rewrite with_top_id.
  - split; [auto|]. intros [|(t & c & [H ?] & _)]; [done|]. specialize (Hlt _ H). lia.
Qed.

(** One task is moved: what is due afterwards *)
Lemma due_step lo X s A A1 A2 A3 t p s' tick : kinv lo X s A → due s A tick t →
  removed (xStateListItem t) A A1 → removed (xEventListItem t) A1 A2 → inserted p (xStateListItem t) A2 A3 →
  (p < 5)%nat → pxDelayedTaskList s' = pxDelayedTaskList s →
  (∀ u, due s' A3 tick u ↔ due s A tick u ∧ u ≠ t) ∧
  (∀ u, u ≠ t → cont A3 !! xStateListItem u = cont A !! xStateListItem u ∧ cont A3 !! xEventListItem u = cont A !! xEventListItem u) ∧
  cont A3 !! xStateListItem t = Some p ∧ cont A3 !! xEventListItem t = None ∧ vals A3 = vals A.
Proof.
  intros Hk Hdue H1 H2 H3 Hp Hd. destruct (delayed_ids _ _ _ _ Hk) as (Hids & _).
  pose proof (state_event t t) as Hse.
  assert (vals A3 = vals A) as Hv by (by rewrite (in_vals _ _ _ _ H3), (rm_vals _ _ _ H2), (rm_vals _ _ _ H1)).
  assert (∀ u, u ≠ t → cont A3 !! xStateListItem u = cont A !! xStateListItem u ∧ cont A3 !! xEventListItem u = cont A !! xEventListItem u) as Hc.
  { intros u Hu. rewrite (in_cont _ _ _ _ H3), (rm_cont _ _ _ H2), (rm_cont _ _ _ H1).
    pose proof (state_event u t). pose proof (state_event t u).
    assert (xStateListItem t ≠ xStateListItem u) by (intros E%state_inj; done).
    assert (xEventListItem t ≠ xEventListItem u) by (intros E%event_inj; done).
    rewrite !lookup_insert_ne, !lookup_delete_ne by done. done. }
  assert (cont A3 !! xStateListItem t = Some p) as Ht by (by rewrite (in_cont _ _ _ _ H3), lookup_insert_eq).
  split_and!; try done.
  - intros u. unfold due. rewrite Hd, (val_same A A3) by done. destruct (decide (u = t)) as [-> |Hne].
    + rewrite Ht. split; [intros [[= E] _]; lia|tauto].
    + rewrite (proj1 (Hc u Hne)). tauto.
  - rewrite (in_cont _ _ _ _ H3), (rm_cont _ _ _ H2), lookup_insert_ne, lookup_delete_eq by done. done.
Qed.

Lemma wp_unblock X cur cc tick : ∀ fuel s A sw, kinv tick X s A → pxCurrentTCB s = Some cur → tcbs s !! cur = Some cc →
  (length (items A (pxDelayedTaskList s)) < fuel)%nat →
  wp (unblock_due fuel tick sw) (λ r s' A', kinv (tick + 1) X s' A' ∧ unblocked s A A' tick ∧ only_top_unblock s s' ∧
    (r = true ↔ sw = true ∨ ∃ t c, due s A tick t ∧ tcbs s !! t = Some c ∧ (uxPriority cc ≤ uxPriority c)%nat)) s A.
Proof.
  induction fuel as [|fuel IH]; intros s A sw Hk Hcur Hcc Hfuel; [lia|]. cbn [unblock_due].
  destruct (delayed_ids _ _ _ _ Hk) as (Hd & _). pose proof (k_wf _ _ _ _ Hk) as Hw.
  apply wp_bind, wp_gets, wp_bind, wp_empty; [apply Hk; lia|]. case_bool_decide as E.
  { assert (∀ n, cont A !! n ≠ Some (pxDelayedTaskList s)) as Hnone.
    { intros n Hn. apply (items_cont _ _ _ Hw) in Hn. rewrite E in Hn. by apply not_elem_of_nil in Hn. }
    apply wp_bind, wp_modify, wp_ret, unblocked_done; [done| |done|]; intros n Hn; by destruct (Hnone n). }
  destruct (items A (pxDelayedTaskList s)) as [|x xs] eqn:Ex; [done|].
  assert (cont A !! x = Some (pxDelayedTaskList s)) as Hx by (apply (items_cont _ _ _ Hw); rewrite Ex; set_solver).
  destruct (delayed_item _ _ _ _ _ Hk Hx) as (Hxs & [c Hc] & HX & Hv).
  eapply wp_bind, wp_head; [done|]. set (t := pvOwner_task x) in *.
  rewrite Hxs in Hv, Hx. apply wp_bind, wp_get_item; [done|].
  assert (∀ n, cont A !! n = Some (pxDelayedTaskList s) → val A (xStateListItem t) ≤ val A n) as Hleast.
  { intros n Hn. rewrite <- Hxs. by eapply head_least. }
  destruct (tick <? val A (xStateListItem t)) eqn:Et; zbool.
  { apply wp_bind, wp_modify, wp_ret, unblocked_done; [done| |by apply val_range|done]. intros n Hn. specialize (Hleast n Hn). lia. }
  assert (due s A tick t) as Hdue by done.
  eapply wp_bind, wp_leave_state; [done|done|done|]. intros k A1 Hk1 H1.
  eapply wp_bind, wp_leave_event; [exact Hk1|eauto|]. intros A2 Hk2 H2.
  eapply wp_bind, wp_add_ready; [exact Hk2|set_solver|done|]. intros A3 s3 Hk3 H3.
  replace (({[t]} ∪ X) ∖ {[t]}) with X in Hk3 by set_solver.
  pose proof (k_prio _ _ _ _ Hk _ _ Hc) as Hp.
  destruct (due_step _ _ _ _ _ _ _ _ _ s3 _ Hk Hdue H1 H2 H3 Hp eq_refl) as (Hdue3 & Hoth & Hts & Hte & Hvals).
  eapply wp_bind, wp_priority; [exact Hc|]. eapply wp_bind, wp_current; [exact Hcur|].
  eapply wp_bind, wp_priority; [exact Hcc|].
  eapply wp_mono; [apply (IH s3 A3); [done|done|done|]|].
  { change (pxDelayedTaskList s3) with (pxDelayedTaskList s). rewrite (in_other _ _ _ _ H3) by lia.
    rewrite (rm_items _ _ _ H2), (rm_items _ _ _ H1), Ex, Hxs, filter_cons_False by tauto.
    pose proof (length_filter (λ y, y ≠ xEventListItem t) (filter (λ y, y ≠ xStateListItem t) xs)).
    pose proof (length_filter (λ y, y ≠ xStateListItem t) xs). cbn in Hfuel. lia. }
  intros r s' A' (Hk' & [U1 U2 U3 U4] & (q & v & ->) & Hr). split_and!; [done| | |].
  - split.
    + intros u cu Hu Hcu. destruct (decide (u = t)) as [-> |Hne]; [|by apply U1; [apply Hdue3|]].
      destruct (U2 t) as [-> ->]; [intros [_ ?]%Hdue3; done|]. by simplify_eq.
    + intros u Hu. destruct (decide (u = t)) as [-> |Hne]; [done|].
      destruct (U2 u) as [-> ->]; [intros [? _]%Hdue3; done|]. by apply Hoth.
    + by rewrite U3.
    + intros l. rewrite (U4 l), (in_lists _ _ _ _ H3 l), (rm_lists _ _ _ H2 l). apply (rm_lists _ _ _ H1).
  - exists q, v. done.
  - rewrite Hr, orb_true_iff, Nat.leb_le. split.
    + intros [[?|?]|(u & cu & [Hu _]%Hdue3 & ?)]; [by left|right; eauto|right; eauto].
    + intros [?|(u & cu & Hu & Hcu & ?)]; [by left; left|]. destruct (decide (u = t)) as [-> |Hne].
      * left. right. by simplify_eq.
      * right. exists u, cu. split_and!; [by apply Hdue3|done|done].
Qed.

(** The ticks until a delayed task is due, in whichever list it is *)
Definition remaining (s : sched) (A : astate) (t : nat) : option Z :=
  if decide (cont A !! xStateListItem t = Some (pxDelayedTaskList s)) then Some (val A (xStateListItem t) - xTickCount s)
  else if decide (cont A !! xStateListItem t = Some (pxOverflowDelayedTaskList s))
  then Some (val A (xStateListItem t) - xTickCount s + 2 ^ 32)
  else None.

Lemma remaining_cases lo X s A t r : kinv lo X s A → remaining s A t = Some r ↔
  cont A !! xStateListItem t = Some (pxDelayedTaskList s) ∧ r = val A (xStateListItem t) - xTickCount s ∨
  cont A !! xStateListItem t = Some (pxOverflowDelayedTaskList s) ∧ r = val A (xStateListItem t) - xTickCount s + 2 ^ 32.
Proof.
  intros Hk. destruct (delayed_ids _ _ _ _ Hk) as (_ & _ & Hdo). unfold remaining. repeat case_decide; split; naive_solver congruence.
Qed.

(** The variables a tick may write *)
Definition tick_frame (s s' : sched) : Prop :=
  ∃ k d e o p v, s' = with_unblock v (with_top p (with_overflows o (with_delayed d e (with_tick k s)))).

(** What a tick does: the clocks of all delayed tasks advance by one, and exactly the
    tasks whose time is up become ready. *)
Record ticked (s : sched) (A : astate) (s' : sched) (A' : astate) : Prop := {
  tk_due : ∀ t c, remaining s A t = Some 1 → tcbs s !! t = Some c →
    cont A' !! xStateListItem t = Some (uxPriority c) ∧ cont A' !! xEventListItem t = None;
  tk_other : ∀ t, remaining s A t ≠ Some 1 →
    cont A' !! xStateListItem t = cont A !! xStateListItem t ∧ cont A' !! xEventListItem t = cont A !! xEventListItem t;
  tk_clock : ∀ t r, remaining s A t = Some r → r ≠ 1 → remaining s' A' t = Some (r - 1);
  tk_vals : vals A' = vals A;
  tk_lists : same_lists A A';
  tk_count : xTickCount s' = u32 (xTickCount s + 1);
  tk_overflows : xNumOfOverflows s' = (if xTickCount s' =? 0 then s32 (xNumOfOverflows s + 1) else xNumOfOverflows s)
}.

(** The first part of a tick: the count advances and the lists are switched when it
    wraps. *)
Lemma wp_advance X s A (Q : unit → sched → astate → Prop) : kinv (xTickCount s + 1) X s A →
  let tick := u32 (xTickCount s + 1) in
  (∀ s1, kinv tick X s1 A → xTickCount s1 = tick → (∃ d e o v, s1 = with_unblock v (with_overflows o (with_delayed d e (with_tick tick s)))) →
    (∀ t, due s1 A tick t ↔ remaining s A t = Some 1) →
    (∀ t r, remaining s A t = Some r → remaining s1 A t = Some (r - 1)) →
    xNumOfOverflows s1 = (if tick =? 0 then s32 (xNumOfOverflows s + 1) else xNumOfOverflows s) → Q () s1 A) →
  wp (modify (with_tick tick);; if tick =? 0 then taskSWITCH_DELAYED_LISTS else mret ()) Q s A.
Proof.
  intros Hk tick HQ. destruct (delayed_ids _ _ _ _ Hk) as (Hd & Ho & Hdo). pose proof (k_wf _ _ _ _ Hk) as Hw.
  pose proof (k_tick _ _ _ _ Hk) as Ht. change (2 ^ 32) with 4294967296 in Ht.
  assert (∀ n, cont A !! n = Some (pxOverflowDelayedTaskList s) → 0 ≤ val A n < xTickCount s) as Hover.
  { intros n Hn. pose proof (k_over _ _ _ _ Hk _ Hn). pose proof (val_range A n Hw (w_vals _ Hw _ _ Hn)). lia. }
  assert (∀ n, cont A !! n = Some (pxDelayedTaskList s) → xTickCount s + 1 ≤ val A n ≤ 4294967295) as Hdue.
  { intros n Hn. destruct (k_due _ _ _ _ Hk _ Hn). pose proof (val_range A n Hw (w_vals _ Hw _ _ Hn)). unfold portMAX_DELAY in *. lia. }
  apply wp_bind, wp_modify. destruct (tick =? 0) eqn:E0; zbool; unfold tick, uwrap in E0; change (2 ^ 32) with 4294967296 in E0.
  - assert (xTickCount s = 4294967295) as Et by (Z.to_euclidean_division_equations; lia).
    assert (tick = 0) as Etick by (unfold tick; by rewrite Et).
    unfold taskSWITCH_DELAYED_LISTS. do 2 apply wp_bind, wp_gets. apply wp_bind, wp_modify, wp_bind, wp_gets, wp_bind, wp_modify. cbn.
    set (s0 := with_overflows _ _). apply (wp_reset_unblock0 tick X).
    { rewrite Etick. destruct Hk. split; try done; cbn -[Z.pow].
      - naive_solver.
      - intros n Hn. specialize (Hover n Hn). lia.
      - intros n Hn. specialize (Hdue n Hn). lia.
      - lia. }
    intros v Hkv. apply HQ; [done|done|by eexists _, _, _, v|..].
    + intros t. rewrite (remaining_cases _ _ _ _ _ _ Hk). unfold due. cbn -[Z.pow]. change (2 ^ 32) with 4294967296. rewrite Etick, Et. split.
      * intros [Hc Hv]. right. specialize (Hover _ Hc). split; [done|lia].
      * intros [[Hc Hr]|[Hc Hr]]; [specialize (Hdue _ Hc); lia|]. split; [done|lia].
    + intros t r. rewrite (remaining_cases _ _ _ _ _ _ Hk), (remaining_cases _ _ _ _ _ _ Hkv). cbn -[Z.pow]. change (2 ^ 32) with 4294967296.
      fold tick. rewrite Etick, Et. intros [[Hc ->]|[Hc ->]]; [specialize (Hdue _ Hc); lia|left; split; [done|lia]].
    + done.
  - assert (tick = xTickCount s + 1 ∧ xTickCount s + 1 < 4294967296) as [Etick Hlt].
    { unfold tick, uwrap. change (2 ^ 32) with 4294967296. Z.to_euclidean_division_equations; lia. }
    assert (kinv tick X (with_tick tick s) A) as Hk1.
    { rewrite Etick. destruct Hk. split; try done; cbn -[Z.pow].
      - intros n Hn. specialize (Hover n Hn). lia.
      - change (2 ^ 32) with 4294967296. lia. }
    apply wp_ret, HQ; [done|done| |..].
    + exists (pxDelayedTaskList s), (pxOverflowDelayedTaskList s), (xNumOfOverflows s), (xNextTaskUnblockTime s). done.
    + intros t. rewrite (remaining_cases _ _ _ _ _ _ Hk). unfold due. cbn -[Z.pow]. change (2 ^ 32) with 4294967296. rewrite Etick. split.
      * intros [Hc Hv]. left. specialize (Hdue _ Hc). split; [done|lia].
      * intros [[Hc Hr]|[Hc Hr]]; [split; [done|lia]|]. specialize (Hover _ Hc). lia.
    + intros t r. rewrite (remaining_cases _ _ _ _ _ _ Hk), (remaining_cases _ _ _ _ _ _ Hk1). cbn -[Z.pow].
      rewrite Etick. intros [[Hc ->]|[Hc ->]]; [left|right]; (split; [done|lia]).
    + done.
Qed.

Lemma wp_assoc {X Y Z} (f : kcall astate X) (g : X → kcall astate Y) (k : Y → kcall astate Z) Q s A :
  wp ((f ≫= g) ≫= k) Q s A → wp (f ≫= λ x, g x ≫= k) Q s A.
Proof.
  unfold wp, mbind, kcall_bind. destruct (f s A) as [[[x s1] A1]|]; [done|]. intros (? & ? & ? & ? & _). done.
Qed.

Lemma wp_unbind {X Y} (f : kcall astate X) (k : X → kcall astate Y) Q s A : wp (f ≫= k) Q s A → wp f (λ x, wp (k x) Q) s A.
Proof.
  unfold wp, mbind, kcall_bind. destruct (f s A) as [[[x s1] A1]|]; [eauto 10|]. intros (? & ? & ? & ? & _). done.
Qed.

(** Whether a tick asks for a switch: a yield was asked for, a task became ready that is
    at least as urgent as the running one, or the running task has to share. *)
Definition wants_switch (s : sched) (A A' : astate) (cc : TCB_t) : Prop :=
  xYieldPending s = true ∨ (∃ t c, remaining s A t = Some 1 ∧ tcbs s !! t = Some c ∧ (uxPriority cc ≤ uxPriority c)%nat) ∨
  (2 ≤ length (items A' (uxPriority cc)))%nat.

Lemma ticked_of X s A s1 s' A' : kinv (xTickCount s1) X s1 A → kinv (xTickCount s1 + 1) X s' A' → xTickCount s1 = u32 (xTickCount s + 1) →
  (∀ t, due s1 A (xTickCount s1) t ↔ remaining s A t = Some 1) →
  (∀ t r, remaining s A t = Some r → remaining s1 A t = Some (r - 1)) →
  xNumOfOverflows s1 = (if xTickCount s1 =? 0 then s32 (xNumOfOverflows s + 1) else xNumOfOverflows s) →
  tcbs s1 = tcbs s → unblocked s1 A A' (xTickCount s1) → only_top_unblock s1 s' → ticked s A s' A'.
Proof.
  intros Hk Hk' Ht Hdue Hrem Hov Htcb [U1 U2 U3 U4] (p & v & ->). split; try done.
  - intros t c Hr Hc. apply U1; [by apply Hdue|by rewrite Htcb].
  - intros t Hr. apply U2. by rewrite Hdue.
  - intros t r Hr Hne. apply Hrem in Hr as Hr1. apply (remaining_cases _ _ _ _ _ _ Hk').
    apply (remaining_cases _ _ _ _ _ _ Hk) in Hr1. cbn -[Z.pow] in *. rewrite (val_same A A') by done.
    destruct (U2 t) as [-> _]; [|done]. rewrite Hdue, Hr. congruence.
Qed.

Lemma wp_tick X s A cur cc (Q : bool → sched → astate → Prop) : kinv (xTickCount s + 1) X s A →
  uxSchedulerSuspended s = 0 → pxCurrentTCB s = Some cur → tcbs s !! cur = Some cc →
  (∀ r s' A', kinv (xTickCount s' + 1) X s' A' → ticked s A s' A' → tick_frame s s' →
    (r = true ↔ wants_switch s A A' cc) → Q r s' A') → wp xTaskIncrementTick Q s A.
Proof.
  intros Hk Hsus Hcur Hcc HQ. unfold xTaskIncrementTick. apply wp_bind, wp_gets, wp_bind. rewrite Hsus. cbn [Z.eqb].
  apply wp_bind, wp_gets. cbv zeta. set (tick := u32 (xTickCount s + 1)).
  apply wp_assoc, wp_bind, (wp_advance X); [done|]. fold tick.
  intros s1 Hk1 Ht1 (d & e & o & v & Es1) Hdue Hrem Hov.
  assert (tcbs s1 = tcbs s ∧ pxCurrentTCB s1 = pxCurrentTCB s ∧ xYieldPending s1 = xYieldPending s) as (Htcb & Hcur1 & Hy1) by (by rewrite Es1).
  apply wp_bind, wp_gets, wp_bind, wp_gets, wp_bind.
  pose proof (k_prio _ _ _ _ Hk _ _ Hcc) as Hp.
  assert (∀ sw s' A', kinv (tick + 1) X s' A' → unblocked s1 A A' tick → only_top_unblock s1 s' →
    (sw = true ↔ ∃ t c, due s1 A tick t ∧ tcbs s1 !! t = Some c ∧ (uxPriority cc ≤ uxPriority c)%nat) →
    wp (c ← current; pc ← priority c; k ← listCURRENT_LIST_LENGTH (pxReadyTasksLists pc); mret (sw || (1 <? k)))
      (λ x, wp (y ← gets xYieldPending; mret (x || y)) Q) s' A') as Hrest.
  { intros sw s' A' Hk' Hub Hot Hsw. pose proof (ticked_of X s A s1 s' A') as Htick. rewrite Ht1 in Htick.
    specialize (Htick Hk1 Hk' eq_refl Hdue Hrem Hov Htcb Hub Hot). destruct Hot as (p & v' & ->).
    eapply wp_bind, wp_current; [cbn; by rewrite Hcur1|]. eapply wp_bind, wp_priority; [cbn; by rewrite Htcb|].
    apply wp_bind, wp_length; [apply Hk'; unfold pxReadyTasksLists; lia|]. apply wp_ret, wp_bind, wp_gets, wp_ret.
    apply HQ; [cbn; by rewrite Ht1|done| |].
    - rewrite Es1. by exists tick, d, e, o, p, v'.
    - cbn. unfold wants_switch. rewrite !orb_true_iff, Hsw, Hy1, Z.ltb_lt. unfold pxReadyTasksLists.
      assert (1 < zlen (items A' (uxPriority cc)) ↔ (2 ≤ length (items A' (uxPriority cc)))%nat) as -> by (unfold zlen; lia).
      setoid_rewrite Hdue. rewrite Htcb. tauto. }
  destruct (xNextTaskUnblockTime s1 <=? tick) eqn:En; zbool.
  - eapply wp_mono; [eapply (wp_unblock X cur cc tick); [done|congruence|congruence|]|].
    + pose proof (items_length _ _ _ _ Hk1). lia.
    + intros sw s' A' (Hk' & Hub & Hot & Hsw). apply Hrest; [done|done|done|]. rewrite Hsw. split; [intros [|?]; [done|done]|auto].
  - assert (∀ t, ¬ due s1 A tick t) as Hno by (intros t [H ?]; destruct (k_due _ _ _ _ Hk1 _ H); lia).
    apply wp_ret, Hrest.
    + eapply kinv_raise; [exact Hk1|]. intros n Hn. destruct (k_due _ _ _ _ Hk1 _ Hn). lia.
    + split; [|done..]. intros t c Hd. by destruct (Hno t).
    + apply only_refl.
    + split; [done|]. intros (t & c & Hd & _). by destruct (Hno t).
Qed.

End RtosSched.
