(* ===== verification/RtosSys.v ===== *)
(** * Time and the running task in FreeRTOS

    The calls of [RtosTask] one after another, in any order: the invariant [sinv] that
    they keep, what any number of ticks does to the tasks that wait, whether the ticks
    came while the scheduler was suspended or not, and which task runs. *)

From S2P Require Import Prelude RtosList RtosTask RtosSched.
Import RtosList RtosTask RtosSched.

Module RtosSys.

#[local] Arguments xStateListItem : simpl never.
#[local] Arguments xEventListItem : simpl never.
#[local] Arguments pvOwner_task : simpl never.

Lemma task_in_hand (t : nat) : t ∈ ({[t]} ∪ ∅ : gset nat).
Proof. set_solver. Qed.
Lemma from_hand (t : nat) : ({[t]} ∪ ∅) ∖ {[t]} = (∅ : gset nat).
Proof. set_solver. Qed.

(** ** Many ticks *)

(** The variables that time does not change *)
Record kframe (s s' : sched) : Prop := {
  f_tcbs : tcbs s' = tcbs s;
  f_current : pxCurrentTCB s' = pxCurrentTCB s;
  f_idle : xIdleTaskHandle s' = xIdleTaskHandle s;
  f_running : xSchedulerRunning s' = xSchedulerRunning s;
  f_suspended : uxSchedulerSuspended s' = uxSchedulerSuspended s;
  f_pended : uxPendedTicks s' = uxPendedTicks s;
  f_number : uxCurrentNumberOfTasks s' = uxCurrentNumberOfTasks s
}.

Lemma kframe_refl s : kframe s s.
Proof. by split. Qed.
Lemma kframe_trans s1 s2 s3 : kframe s1 s2 → kframe s2 s3 → kframe s1 s3.
Proof. intros [] []. split; congruence. Qed.
Lemma kframe_tick s s' : tick_frame s s' → kframe s s'.
Proof. intros (k & d & e & o & p & v & ->). by split. Qed.
Lemma kframe_yield s y : kframe s (with_yield y s).
Proof. by split. Qed.

(** The count of overflows after the tick count wrapped [w] times *)
Definition overflowed (o w : Z) : Z := if w =? 0 then o else s32 (o + w).

(** What [n] ticks do: tasks that waited for no more than [n] are ready and out of the
    event lists, the others wait [n] ticks less, and nothing else moves. *)
Record elapsed (n : Z) (s : sched) (A : astate) (s' : sched) (A' : astate) : Prop := {
  e_ready : ∀ t c r, tcbs s !! t = Some c → remaining s A t = Some r → r ≤ n →
    cont A' !! xStateListItem t = Some (uxPriority c) ∧ cont A' !! xEventListItem t = None;
  e_wait : ∀ t r, remaining s A t = Some r → n < r →
    remaining s' A' t = Some (r - n) ∧ cont A' !! xStateListItem t = cont A !! xStateListItem t ∧
    cont A' !! xEventListItem t = cont A !! xEventListItem t;
  e_other : ∀ t, remaining s A t = None →
    cont A' !! xStateListItem t = cont A !! xStateListItem t ∧ cont A' !! xEventListItem t = cont A !! xEventListItem t;
  e_count : xTickCount s' = u32 (xTickCount s + n);
  e_over : xNumOfOverflows s' = overflowed (xNumOfOverflows s) ((xTickCount s + n) / 2 ^ 32);
  e_vals : vals A' = vals A;
  e_lists : same_lists A A'
}.

Lemma remaining_none lo X s A t l : kinv lo X s A → cont A !! xStateListItem t = Some l →
  (l ≠ xDelayedTaskList1 ∧ l ≠ xDelayedTaskList2) → remaining s A t = None.
Proof.
  intros Hk Hc [H1 H2]. unfold remaining. rewrite Hc.
  destruct (k_two _ _ _ _ Hk) as [[-> ->]|[-> ->]]; rewrite !decide_False; congruence.
Qed.

Lemma remaining_pos X s A t r : kinv (xTickCount s + 1) X s A → remaining s A t = Some r → 0 < r.
Proof.
  intros Hk [[Hc ->]|[Hc ->]]%(remaining_cases _ _ _ _ _ _ Hk).
  - destruct (k_due _ _ _ _ Hk _ Hc). lia.
  - pose proof (k_tick _ _ _ _ Hk). pose proof (k_wf _ _ _ _ Hk) as Hw.
    pose proof (val_range A _ Hw (w_vals _ Hw _ _ Hc)). lia.
Qed.

Lemma elapsed_0 X s A : kinv (xTickCount s + 1) X s A → elapsed 0 s A s A.
Proof.
  intros Hk. pose proof (k_tick _ _ _ _ Hk) as Ht. change (2 ^ 32) with 4294967296 in *. split; try done.
  - intros t c r _ Hr. pose proof (remaining_pos _ _ _ _ _ Hk Hr). lia.
  - intros t r Hr _. by rewrite Z.sub_0_r.
  - unfold uwrap. change (2 ^ 32) with 4294967296. rewrite Z.add_0_r, Z.mod_small; lia.
  - change (2 ^ 32) with 4294967296. by rewrite Z.add_0_r, Z.div_small by lia.
Qed.

Lemma remaining_same lo lo' X X' s A s' A' t : kinv lo X s A → kinv lo' X' s' A' → remaining s A t = None →
  cont A' !! xStateListItem t = cont A !! xStateListItem t → remaining s' A' t = None.
Proof.
  intros Hk Hk' Hr Hc. unfold remaining in *. rewrite Hc.
  destruct (k_two _ _ _ _ Hk) as [[E1 E2]|[E1 E2]], (k_two _ _ _ _ Hk') as [[-> ->]|[-> ->]]; rewrite E1, E2 in Hr;
    repeat case_decide; done.
Qed.

Lemma overflowed_add o w1 w2 : 0 ≤ w1 → 0 ≤ w2 → overflowed (overflowed o w1) w2 = overflowed o (w1 + w2).
Proof.
  intros H1 H2. unfold overflowed, swrap. change (2 ^ 32) with 4294967296. change (2 ^ (32 - 1)) with 2147483648.
  destruct (w1 =? 0) eqn:E1, (w2 =? 0) eqn:E2, (w1 + w2 =? 0) eqn:E3; zbool; try lia;
    Z.to_euclidean_division_equations; lia.
Qed.

Lemma u32_add_add a n m : u32 (u32 (a + n) + m) = u32 (a + (n + m)).
Proof. unfold uwrap. change (2 ^ 32) with 4294967296. Z.to_euclidean_division_equations; lia. Qed.

Lemma wraps_add a n m : (a + n) / 2 ^ 32 + (u32 (a + n) + m) / 2 ^ 32 = (a + (n + m)) / 2 ^ 32.
Proof. unfold uwrap. change (2 ^ 32) with 4294967296. Z.to_euclidean_division_equations; lia. Qed.

Lemma ticked_elapsed X s A s' A' : kinv (xTickCount s + 1) X s A → kinv (xTickCount s' + 1) X s' A' → ticked s A s' A' → elapsed 1 s A s' A'.
Proof.
  intros Hk Hk' [T1 T2 T3 T4 T5 T6 T7]. pose proof (k_tick _ _ _ _ Hk) as Ht. split; try done.
  - intros t c r Hc Hr Hle. pose proof (remaining_pos _ _ _ _ _ Hk Hr). apply T1; [|done]. rewrite Hr. f_equal. lia.
  - intros t r Hr Hlt. split; [apply T3; [done|lia]|]. apply T2. rewrite Hr. intros [= ?]. lia.
  - intros t Hr. apply T2. by rewrite Hr.
  - rewrite T7, T6. unfold overflowed, uwrap. change (2 ^ 32) with 4294967296 in *. clear T7 T6.
    destruct ((xTickCount s + 1) mod 4294967296 =? 0) eqn:E1, ((xTickCount s + 1) / 4294967296 =? 0) eqn:E2; zbool;
      [Z.to_euclidean_division_equations; lia| |done|Z.to_euclidean_division_equations; lia].
    f_equal. f_equal. Z.to_euclidean_division_equations; lia.
Qed.

Lemma elapsed_trans X s A s1 A1 s2 A2 n m : 0 ≤ n → 0 ≤ m → kinv (xTickCount s + 1) X s A → kinv (xTickCount s1 + 1) X s1 A1 →
  tcbs s1 = tcbs s → elapsed n s A s1 A1 → elapsed m s1 A1 s2 A2 → elapsed (n + m) s A s2 A2.
Proof.
  intros Hn Hm Hk Hk1 Htcb [E1 E2 E3 E4 E5 E6 E7] [D1 D2 D3 D4 D5 D6 D7]. split.
  - intros t c r Ht Hr Hle. destruct (decide (r ≤ n)) as [Hrn|Hrn].
    + destruct (E1 t c r Ht Hr Hrn) as [Hs He]. destruct (D3 t) as [-> ->]; [|done].
      pose proof (k_prio _ _ _ _ Hk _ _ Ht). eapply remaining_none; [exact Hk1|exact Hs|].
      unfold xDelayedTaskList1, xDelayedTaskList2. lia.
    + destruct (E2 t r Hr) as (Hr1 & _); [lia|]. eapply D1; [by rewrite Htcb|exact Hr1|lia].
  - intros t r Hr Hlt. destruct (E2 t r Hr) as (Hr1 & Hs & He); [lia|].
    destruct (D2 t _ Hr1) as (-> & -> & ->); [lia|]. split; [f_equal; lia|done].
  - intros t Hr. destruct (E3 t Hr) as [Hs He]. destruct (D3 t) as [-> ->]; [|done].
    by apply (remaining_same _ _ _ _ _ _ _ _ _ Hk Hk1 Hr Hs).
  - rewrite D4, E4. apply u32_add_add.
  - rewrite D5, E4, E5, <- wraps_add. pose proof (k_tick _ _ _ _ Hk) as Ht. pose proof (k_tick _ _ _ _ Hk1) as Ht1. rewrite E4 in Ht1.
    apply overflowed_add; apply Z.div_pos; lia.
  - congruence.
  - intros l. rewrite (D7 l). apply E7.
Qed.

(** No ready task has a priority above [p]. *)
Definition bounded (A : astate) (p : nat) : Prop := ∀ n l, cont A !! n = Some l → (l < 5)%nat → (l ≤ p)%nat.

Lemma bounded_ticked X s A s' A' cc : kinv (xTickCount s + 1) X s A → kinv (xTickCount s' + 1) X s' A' → tcbs s' = tcbs s →
  ticked s A s' A' → ¬ wants_switch s A A' cc → bounded A (uxPriority cc) → bounded A' (uxPriority cc).
Proof.
  intros Hk Hk' Htcb HT Hno Hb n l Hn Hl.
  destruct (state_item _ _ _ _ _ _ Hk' Hn) as [En (c & Hc & _)]; [lia|unfold xPendingReadyList; lia|].
  rewrite Htcb in Hc. rewrite En in Hn. set (t := pvOwner_task n) in *.
  destruct (decide (remaining s A t = Some 1)) as [Hr|Hr].
  - destruct (tk_due _ _ _ _ HT t c Hr Hc) as [Hs _]. rewrite Hs in Hn. simplify_eq.
    destruct (decide (uxPriority c ≤ uxPriority cc)%nat); [done|]. destruct Hno. right. left. exists t, c. split_and!; [done|done|lia].
  - destruct (tk_other _ _ _ _ HT t Hr) as [Hs _]. rewrite Hs in Hn. by eapply Hb.
Qed.

Lemma kinv_yield lo X s A y : kinv lo X s A → kinv lo X (with_yield y s) A.
Proof. intros Hk. by eapply kinv_ext. Qed.

(** A yield that is not asked for in the end was not needed. *)
Definition quiet (s : sched) (A : astate) (s' : sched) (A' : astate) (p : nat) : Prop :=
  xYieldPending s' = false → xYieldPending s = false ∧ (bounded A p → bounded A' p).

Lemma wp_replay X cur cc : ∀ n s A, kinv (xTickCount s + 1) X s A → uxSchedulerSuspended s = 0 → pxCurrentTCB s = Some cur →
  tcbs s !! cur = Some cc →
  wp (replay_ticks n) (λ _ s' A', kinv (xTickCount s' + 1) X s' A' ∧ elapsed (Z.of_nat n) s A s' A' ∧ kframe s s' ∧
    quiet s A s' A' (uxPriority cc)) s A.
Proof.
  intros n s A Hk Hs Hcur Hcc. set (s0 := s). set (A0 := A).
  assert (∀ k n s A, kinv (xTickCount s + 1) X s A → elapsed (Z.of_nat k) s0 A0 s A → kframe s0 s → quiet s0 A0 s A (uxPriority cc) →
    wp (replay_ticks n) (λ _ s' A', kinv (xTickCount s' + 1) X s' A' ∧ elapsed (Z.of_nat (k + n)) s0 A0 s' A' ∧ kframe s0 s' ∧
      quiet s0 A0 s' A' (uxPriority cc)) s A) as Hgen.
  { clear n. intros k n. revert k. induction n as [|n IH]; intros k s1 A1 Hk1 He Hf Hq; cbn [replay_ticks].
    { apply wp_ret. by rewrite Nat.add_0_r. }
    assert (Hcur1 := Hcur). assert (Hcc1 := Hcc). fold s0 in Hcur1, Hcc1. rewrite <- (f_current _ _ Hf) in Hcur1. rewrite <- (f_tcbs _ _ Hf) in Hcc1.
    apply wp_bind. eapply wp_tick; [done|by rewrite (f_suspended _ _ Hf)|done|done|].
    intros r s2 A2 Hk2 HT Hfr Hr. apply kframe_tick in Hfr as Hf2. apply wp_bind.
    assert (elapsed (Z.of_nat (S k)) s0 A0 s2 A2) as He2.
    { replace (Z.of_nat (S k)) with (Z.of_nat k + 1) by lia. eapply elapsed_trans; [lia|lia|exact Hk|exact Hk1|by destruct Hf|done|by eapply ticked_elapsed]. }
    assert (kframe s0 s2) as Hf02 by (by eapply kframe_trans).
    destruct r; [apply wp_modify|apply wp_ret]; rewrite <- Nat.add_succ_comm; apply IH.
    - by apply kinv_yield.
    - by destruct He2; split.
    - eapply kframe_trans; [done|apply kframe_yield].
    - done.
    - done.
    - done.
    - done.
    - assert (¬ wants_switch s1 A1 A2 cc) as Hno by (rewrite <- Hr; done).
      assert (xYieldPending s1 = false) as Hy1 by (destruct (xYieldPending s1) eqn:E; [by destruct Hno; left|done]).
      intros _. destruct (Hq Hy1) as [? Hb]. split; [done|]. intros Hb0. eapply bounded_ticked; [exact Hk1|done|by destruct Hf2|done|done|]. auto. }
  apply (Hgen 0%nat n s A); [done|by eapply elapsed_0|apply kframe_refl|]. intros ?. done.
Qed.

(** ** The pending ready list *)

(** Tasks are woken: each is where it was, or ready and in no event list. *)
Record woken (s : sched) (A A' : astate) : Prop := {
  wo_task : ∀ t c, tcbs s !! t = Some c →
    cont A' !! xStateListItem t = cont A !! xStateListItem t ∧ cont A' !! xEventListItem t = cont A !! xEventListItem t ∨
    cont A' !! xStateListItem t = Some (uxPriority c) ∧ cont A' !! xEventListItem t = None;
  wo_vals : vals A' = vals A;
  wo_lists : same_lists A A'
}.

Lemma woken_refl s A : woken s A A.
Proof. split; [auto|done|done]. Qed.

Lemma woken_trans s s' A1 A2 A3 : tcbs s' = tcbs s → woken s A1 A2 → woken s' A2 A3 → woken s A1 A3.
Proof.
  intros Ht [W1 W2 W3] [V1 V2 V3]. split; [|congruence|intros l; rewrite (V3 l); apply W3].
  intros t c Hc. assert (tcbs s' !! t = Some c) as Hc' by congruence.
  destruct (V1 t c Hc') as [[-> ->]|?]; [by apply W1|by right].
Qed.

Lemma elapsed_woken X n s A s' A' : kinv (xTickCount s + 1) X s A → elapsed n s A s' A' → woken s A A'.
Proof.
  intros Hk [E1 E2 E3 _ _ E6 E7]. split; [|done|done]. intros t c Hc. destruct (remaining s A t) as [r|] eqn:Hr; [|left; auto].
  destruct (decide (r ≤ n)); [right; eauto|]. left. destruct (E2 t r Hr) as (_ & ? & ?); [lia|done].
Qed.

(** The pending ready list holds event items. *)
Lemma pending_item lo s A n : kinv lo ∅ s A → cont A !! n = Some xPendingReadyList →
  n = xEventListItem (pvOwner_task n) ∧ is_Some (tcbs s !! pvOwner_task n).
Proof.
  intros Hk Hn. destruct (k_owner _ _ _ _ Hk _ _ Hn) as [c Hc]. split; [|eauto]. destruct (item_cases n) as [E|E]; [|done].
  rewrite E in Hn. destruct (k_state _ _ _ _ Hk _ _ Hc) as (l & Hl & Hor); [set_solver|].
  pose proof (k_prio _ _ _ _ Hk _ _ Hc). simplify_eq.
  unfold parked, xPendingReadyList, xDelayedTaskList1, xDelayedTaskList2, xTasksWaitingTermination, xSuspendedTaskList in Hor. lia.
Qed.

Lemma pending_length lo s A : kinv lo ∅ s A → (length (items A xPendingReadyList) ≤ size (tcbs s))%nat.
Proof.
  intros Hk. pose proof (k_wf _ _ _ _ Hk) as Hw.
  assert (NoDup (pvOwner_task <$> items A xPendingReadyList)) as Hnd.
  { apply NoDup_fmap_2_strong; [|by apply items_nodup]. intros x y Hx Hy E.
    apply (items_cont _ _ _ Hw) in Hx, Hy. destruct (pending_item _ _ _ _ Hk Hx) as [Ex _].
    destruct (pending_item _ _ _ _ Hk Hy) as [Ey _]. congruence. }
  assert (list_to_set (pvOwner_task <$> items A xPendingReadyList) ⊆ dom (tcbs s)) as Hsub.
  { intros t Ht%elem_of_list_to_set. apply list_elem_of_fmap in Ht as (x & -> & Hx). apply (items_cont _ _ _ Hw) in Hx.
    apply elem_of_dom. by apply (pending_item _ _ _ _ Hk Hx). }
  apply subseteq_size in Hsub. rewrite size_list_to_set, length_fmap, size_dom in Hsub by done. done.
Qed.

(** A task that is put into a ready list, out of its event list *)
Lemma cont_ready t p (C C' : gmap nat nat) : C' = <[xStateListItem t := p]> (delete (xEventListItem t) (delete (xStateListItem t) C)) →
  C' !! xStateListItem t = Some p ∧ C' !! xEventListItem t = None ∧
  ∀ u, u ≠ t → C' !! xStateListItem u = C !! xStateListItem u ∧ C' !! xEventListItem u = C !! xEventListItem u.
Proof.
  intros ->. pose proof (state_event t t). split_and!; [apply lookup_insert_eq|by rewrite lookup_insert_ne, lookup_delete_eq|].
  intros u Hu. pose proof (state_event u t). pose proof (state_event t u).
  assert (xStateListItem t ≠ xStateListItem u) by (intros E%state_inj; done).
  assert (xEventListItem t ≠ xEventListItem u) by (intros E%event_inj; done).
  by rewrite !lookup_insert_ne, !lookup_delete_ne by done.
Qed.

Lemma woken_ready s A A' t c : tcbs s !! t = Some c →
  cont A' = <[xStateListItem t := uxPriority c]> (delete (xEventListItem t) (delete (xStateListItem t) (cont A))) →
  vals A' = vals A → same_lists A A' → woken s A A'.
Proof.
  intros Hc (Hs & He & Ho)%cont_ready Hv Hl. split; [|done|done]. intros u cu Hu.
  destruct (decide (u = t)) as [-> |Hne]; [right; by simplify_eq|left; auto].
Qed.

Lemma same_lists_trans A1 A2 A3 : same_lists A1 A2 → same_lists A2 A3 → same_lists A1 A3.
Proof. intros H1 H2 l. rewrite (H2 l). apply H1. Qed.

Lemma bounded_ready lo s A A' t c p : kinv lo ∅ s A → cont A' = <[xStateListItem t := uxPriority c]> (delete (xEventListItem t) (delete (xStateListItem t) (cont A))) →
  (uxPriority c ≤ p)%nat → bounded A p → bounded A' p.
Proof.
  intros Hk E Hp Hb n l. rewrite E. intros [[_ <-]|[_ [_ [_ Hn]%lookup_delete_Some]%lookup_delete_Some]]%lookup_insert_Some Hl; [done|].
  by eapply Hb.
Qed.

(** The event item of a task that is ready may be taken out of its list; so may be the
    items of one that is between lists. *)
Lemma wp_leave_event_in lo X s A t l (Q : Z → sched → astate → Prop) : kinv lo X s A → cont A !! xEventListItem t = Some l →
  (∀ k A', kinv lo X s A' → removed (xEventListItem t) A A' → Q k s A') → wp (uxListRemove (xEventListItem t)) Q s A.
Proof.
  intros Hk Hl HQ. eapply wp_remove; [apply Hk|done|]. intros A' Hr. apply HQ; [|done]. by eapply kinv_leave_event.
Qed.

Definition yield_top (s s' : sched) : Prop := ∃ y p, s' = with_yield y (with_top p s).

Lemma yield_top_frame s s' : yield_top s s' → kframe s s'.
Proof. intros (y & p & ->). by split. Qed.

Lemma wp_move_pending cur cc : ∀ fuel lo s A b, kinv lo ∅ s A → pxCurrentTCB s = Some cur → tcbs s !! cur = Some cc →
  (length (items A xPendingReadyList) < fuel)%nat →
  wp (move_pending fuel b) (λ r s' A', kinv lo ∅ s' A' ∧ woken s A A' ∧ yield_top s s' ∧ items A' xPendingReadyList = [] ∧
    (items A xPendingReadyList = [] → s' = s ∧ A' = A ∧ r = b) ∧ quiet s A s' A' (uxPriority cc)) s A.
Proof.
  induction fuel as [|fuel IH]; intros lo s A b Hk Hcur Hcc Hfuel; [lia|]. cbn [move_pending].
  pose proof (k_wf _ _ _ _ Hk) as Hw. apply wp_bind, wp_empty; [apply Hk; unfold xPendingReadyList; lia|].
  case_bool_decide as E.
  { apply wp_ret. split_and!; [done|apply woken_refl|exists (xYieldPending s), (uxTopReadyPriority s); by destruct s|done|done|done]. }
  destruct (items A xPendingReadyList) as [|x xs] eqn:Ex; [done|].
  assert (cont A !! x = Some xPendingReadyList) as Hx by (apply (items_cont _ _ _ Hw); rewrite Ex; apply elem_of_cons; by left).
  destruct (pending_item _ _ _ _ Hk Hx) as [Exe [c Hc]]. eapply wp_bind, wp_head; [done|]. set (t := pvOwner_task x) in *. rewrite Exe in Hx.
  eapply wp_bind, wp_leave_event_in; [done|done|]. intros k A1 Hk1 H1.
  eapply wp_bind, wp_leave_state; [exact Hk1|done|apply not_elem_of_empty|]. intros k2 A2 Hk2 H2.
  eapply wp_bind, wp_add_ready; [exact Hk2|apply task_in_hand|done|]. intros A3 s3 Hk3 H3.
  rewrite from_hand in Hk3.
  assert (cont A3 = <[xStateListItem t := uxPriority c]> (delete (xEventListItem t) (delete (xStateListItem t) (cont A)))) as Hcont.
  { rewrite (in_cont _ _ _ _ H3), (rm_cont _ _ _ H2), (rm_cont _ _ _ H1). by rewrite delete_delete. }
  assert (woken s A A3) as Hwk.
  { eapply woken_ready; [exact Hc|done| |]. { by rewrite (in_vals _ _ _ _ H3), (rm_vals _ _ _ H2), (rm_vals _ _ _ H1). }
    eapply same_lists_trans; [apply (rm_lists _ _ _ H1)|]. eapply same_lists_trans; [apply (rm_lists _ _ _ H2)|apply (in_lists _ _ _ _ H3)]. }
  pose proof (k_prio _ _ _ _ Hk _ _ Hc) as Hp.
  assert (length (items A3 xPendingReadyList) < fuel)%nat as Hlen.
  { rewrite (in_other _ _ _ _ H3) by (unfold xPendingReadyList; lia). rewrite (rm_items _ _ _ H2), (rm_items _ _ _ H1), Ex, Exe, filter_cons_False by tauto.
    pose proof (length_filter (λ y, y ≠ xStateListItem t) (filter (λ y, y ≠ xEventListItem t) xs)).
    pose proof (length_filter (λ y, y ≠ xEventListItem t) xs). cbn in Hfuel. lia. }
  eapply wp_bind, wp_priority; [exact Hc|]. eapply wp_bind, wp_current; [exact Hcur|]. eapply wp_bind, wp_priority; [exact Hcc|].
  apply wp_bind. destruct (Nat.leb_spec (uxPriority cc) (uxPriority c)) as [Hle|Hgt]; [apply wp_modify|apply wp_ret].
  - eapply wp_mono; [apply (IH lo (with_yield true s3) A3); [by apply kinv_yield|done|done|done]|].
    intros r s' A' (Hk' & Hwk' & (y & p & ->) & Hemp & _ & Hq). split_and!; [done|exact (woken_trans s (with_yield true s3) A A3 A' eq_refl Hwk Hwk')|by exists y, p|done|done|].
    intros Hy. by destruct (Hq Hy).
  - eapply wp_mono; [apply (IH lo s3 A3); [done|done|done|done]|].
    intros r s' A' (Hk' & Hwk' & (y & p & ->) & Hemp & _ & Hq). split_and!; [done|exact (woken_trans s s3 A A3 A' eq_refl Hwk Hwk')|by exists y, p|done|done|].
    intros Hy. destruct (Hq Hy) as [Hy0 Hb]. split; [done|]. intros Hb0. apply Hb. eapply bounded_ready; [exact Hk|done|lia|done].
Qed.

(** ** The invariant of the whole scheduler *)

Definition ready (s : sched) (A : astate) (t : nat) : Prop :=
  ∃ c, tcbs s !! t = Some c ∧ cont A !! xStateListItem t = Some (uxPriority c).

Definition blocked_list (l : nat) : Prop := l = xDelayedTaskList1 ∨ l = xDelayedTaskList2 ∨ l = xSuspendedTaskList.

(** An event item is in a list because its task waits, or because it is about to become
    ready. *)
Definition event_ok (l : nat) (state : option nat) : Prop :=
  ∃ m, state = Some m ∧ (blocked_list m ∨ l = xPendingReadyList ∧ m ≠ xTasksWaitingTermination).

(** Between calls, and in those that block the running task before they yield *)
Record base (s : sched) (A : astate) : Prop := {
  b_k : kinv (xTickCount s + 1) ∅ s A;
  b_current : ∃ t c, pxCurrentTCB s = Some t ∧ tcbs s !! t = Some c;
  b_idle : xSchedulerRunning s = true → ∃ t, xIdleTaskHandle s = Some t ∧ ready s A t;
  b_event : ∀ t l, cont A !! xEventListItem t = Some l → event_ok l (cont A !! xStateListItem t);
  b_pending : uxSchedulerSuspended s = 0 → ∀ n, cont A !! n ≠ Some xPendingReadyList;
  b_pended : uxSchedulerSuspended s = 0 → uxPendedTicks s = 0;
  b_suspended : 0 ≤ uxSchedulerSuspended s < 2 ^ 32;
  b_ticks : 0 ≤ uxPendedTicks s < 2 ^ 32;
  b_number : uxCurrentNumberOfTasks s = Z.of_nat (size (tcbs s)) ∧ uxCurrentNumberOfTasks s < 2 ^ 32
}.

(** [owed]: an interrupt handler was told to yield and has not done so yet.  Unless it
    was, and unless a yield is pending, no ready task is more urgent than the running
    one. *)
Record sinv (owed : bool) (s : sched) (A : astate) : Prop := {
  i_base : base s A;
  i_bound : owed = false → xYieldPending s = false →
    ∀ t c, pxCurrentTCB s = Some t → tcbs s !! t = Some c → bounded A (uxPriority c)
}.

Lemma ready_woken s s' A A' t : tcbs s' = tcbs s → woken s A A' → ready s A t → ready s' A' t.
Proof.
  intros Ht Hw (c & Hc & Hl). exists c. rewrite Ht. split; [done|]. destruct (wo_task _ _ _ Hw t c Hc) as [[-> _]|[? _]]; done.
Qed.

Lemma event_woken lo s s' A A' : kinv lo ∅ s' A' → tcbs s' = tcbs s → woken s A A' →
  (∀ t l, cont A !! xEventListItem t = Some l → event_ok l (cont A !! xStateListItem t)) →
  ∀ t l, cont A' !! xEventListItem t = Some l → event_ok l (cont A' !! xStateListItem t).
Proof.
  intros Hk Ht Hw He t l Hl. destruct (k_owner _ _ _ _ Hk _ _ Hl) as [c Hc]. rewrite owner_event, Ht in Hc.
  destruct (wo_task _ _ _ Hw t c Hc) as [[Es Ee]|[_ Ee]]; [|congruence]. rewrite Es. apply He. congruence.
Qed.

Lemma top_bounded s A t c : tcbs s !! t = Some c → top_task s A t ↔ cont A !! xStateListItem t = Some (uxPriority c) ∧ bounded A (uxPriority c).
Proof.
  intros Hc. split; [|intros [? ?]; by exists c]. intros (c' & Hc' & ?). by simplify_eq.
Qed.

Lemma event_pending_woken s s' A A' lo : kinv lo ∅ s' A' → tcbs s' = tcbs s → woken s A A' →
  (∀ n, cont A !! n ≠ Some xPendingReadyList) → ∀ n, cont A' !! n ≠ Some xPendingReadyList.
Proof.
  intros Hk Ht Hw Hno n Hn. destruct (pending_item _ _ _ _ Hk Hn) as [E [c Hc]]. rewrite E in Hn. rewrite Ht in Hc.
  destruct (wo_task _ _ _ Hw _ _ Hc) as [[_ Ee]|[_ Ee]]; [|congruence]. rewrite Ee in Hn. by apply Hno in Hn.
Qed.

(** ** A switch of tasks *)

Definition switched (s s' : sched) : Prop := ∃ t p, s' = with_top p (with_current (Some t) (with_yield false s)).

Lemma top_ready s A t : top_task s A t → ready s A t.
Proof. intros (c & Hc & Hl & _). by exists c. Qed.

Lemma base_switch s A s' A' : base s A → walked A A' → switched s s' → kinv (xTickCount s + 1) ∅ s' A' →
  (∃ t, pxCurrentTCB s' = Some t ∧ top_task s' A' t) → sinv false s' A'.
Proof.
  intros [] [Hw Hc Hv Hl Hi] (t & p & ->) Hk Htop. split.
  - split; cbn -[Z.pow]; try done; try rewrite Hc; try done.
    + destruct Htop as (u & Hu & cu & Hcu & _). cbn in *. eauto.
    + intros Hr. destruct (b_idle0 Hr) as (i & Hi1 & ci & Hci & Hcl). exists i. split; [done|]. exists ci. cbn. by rewrite Hc.
  - intros _ _ u c Hu Hcu. destruct Htop as (u' & Hu' & Htop). assert (u' = u) as -> by congruence.
    apply (top_bounded _ _ _ _ Hcu) in Htop. by destruct Htop.
Qed.

Lemma idle_somewhere s A : base s A → xSchedulerRunning s = true → ∃ n l, cont A !! n = Some l ∧ (l < 5)%nat.
Proof.
  intros Hb Hr. destruct (b_idle _ _ Hb Hr) as (t & _ & c & Hc & Hl). eexists _, _. split; [done|].
  by eapply (k_prio _ _ _ _ (b_k _ _ Hb)).
Qed.

Definition runs_top (s : sched) (A : astate) : Prop := ∃ t, pxCurrentTCB s = Some t ∧ top_task s A t.

Lemma wp_yield_now s A (Q : unit → sched → astate → Prop) : base s A → xSchedulerRunning s = true → uxSchedulerSuspended s = 0 →
  (∀ s' A', sinv false s' A' → runs_top s' A' → walked A A' → switched s s' → Q () s' A') → wp portYIELD Q s A.
Proof.
  intros Hb Hr Hs HQ. unfold portYIELD. eapply wp_switch; [apply Hb|by eapply idle_somewhere|done|].
  intros _ t p A' s' Htop Hwk Hk. apply HQ; [|by exists t|done|by exists t, p].
  eapply base_switch; [done|done|by exists t, p|done|]. exists t. done.
Qed.

Lemma base_yield s A y : base s A → base (with_yield y s) A.
Proof. intros []. split; try done. by apply kinv_yield. Qed.

(** While the scheduler is suspended, the switch is put off. *)
Lemma wp_yield s A (Q : unit → sched → astate → Prop) : base s A → xSchedulerRunning s = true →
  (∀ s' A', sinv false s' A' → (uxSchedulerSuspended s = 0 → runs_top s' A') → tcbs s' = tcbs s → Q () s' A') → wp portYIELD Q s A.
Proof.
  intros Hb Hr HQ. destruct (decide (uxSchedulerSuspended s = 0)) as [Hs|Hs].
  { apply wp_yield_now; [done|done|done|]. intros s' A' ?? _ (t & p & ->). by apply HQ. }
  unfold portYIELD. eapply wp_switch; [apply Hb|by eapply idle_somewhere| |done]. intros _. apply HQ; [|done|done].
  split; [by apply base_yield|done].
Qed.

(** ** Suspending and resuming the scheduler *)

Lemma elapsed_ext n s A s0 s1 A1 s2 A2 : elapsed n s A s1 A1 → walked A1 A2 →
  tcbs s0 = tcbs s → pxDelayedTaskList s0 = pxDelayedTaskList s → pxOverflowDelayedTaskList s0 = pxOverflowDelayedTaskList s →
  xTickCount s0 = xTickCount s → xNumOfOverflows s0 = xNumOfOverflows s →
  pxDelayedTaskList s2 = pxDelayedTaskList s1 → pxOverflowDelayedTaskList s2 = pxOverflowDelayedTaskList s1 →
  xTickCount s2 = xTickCount s1 → xNumOfOverflows s2 = xNumOfOverflows s1 → elapsed n s0 A s2 A2.
Proof.
  intros [E1 E2 E3 E4 E5 E6 E7] [_ Hc Hv Hl _] F1 F2 F3 F4 F5 G2 G3 G4 G5.
  assert (∀ t, remaining s0 A t = remaining s A t) as R0 by (intros t; unfold remaining; by rewrite F2, F3, F4).
  assert (∀ t, remaining s2 A2 t = remaining s1 A1 t) as R2.
  { intros t. unfold remaining. rewrite G2, G3, G4, Hc. by rewrite !(val_same A1 A2). }
  split; try intros t; rewrite ?R0, ?R2, ?Hc, ?F1, ?F4, ?F5, ?G4, ?G5; auto; [apply E1|congruence|].
  rewrite (Hl t). apply E7.
Qed.

Lemma walked_refl A : wf A → walked A A.
Proof. by split. Qed.

(** Up to the test for a pending yield: [s] is the state in which the nesting count has
    become 0. *)
Definition resumed (s : sched) (A : astate) (s' : sched) (A' : astate) : Prop :=
  base s' A' ∧ woken s A A' ∧ tcbs s' = tcbs s ∧ pxCurrentTCB s' = pxCurrentTCB s ∧ xSchedulerRunning s' = xSchedulerRunning s ∧
  uxSchedulerSuspended s' = 0 ∧
  (∀ t c, pxCurrentTCB s = Some t → tcbs s !! t = Some c → quiet s A s' A' (uxPriority c)) ∧
  (items A xPendingReadyList = [] → elapsed (uxPendedTicks s) s A s' A').

Lemma wp_resume_work s A (Q : bool → sched → astate → Prop) : base (with_suspended 1 s) A → uxSchedulerSuspended s = 0 →
  (∀ s' A', resumed s A s' A' → wp (y ← gets xYieldPending; if y : bool then portYIELD;; mret true else mret false) Q s' A') →
  wp (fuel ← gets (λ s, S (size (tcbs s)));
      moved ← move_pending fuel false;
      (if moved : bool then prvResetNextTaskUnblockTime else mret ());;
      pended ← gets uxPendedTicks;
      (if 0 <? pended then replay_ticks (Z.to_nat pended);; modify (with_pended 0) else mret ());;
      y ← gets xYieldPending;
      if y : bool then portYIELD;; mret true else mret false) Q s A.
Proof.
  intros [Bk Bc Bi Be _ _ _ Bt Bn] Hs HQ. cbn -[Z.pow] in *. destruct Bc as (cur & cc & Hcur & Hcc).
  assert (kinv (xTickCount s + 1) ∅ s A) as Hk by (by eapply kinv_ext). clear Bk.
  apply wp_bind, wp_gets, wp_bind. eapply wp_mono; [eapply (wp_move_pending cur cc); [done|done|done|]|].
  { pose proof (pending_length _ _ _ Hk). lia. }
  intros moved s1 A1 (Hk1 & Hw1 & Hyt & Hemp & Hsame & Hq1). apply yield_top_frame in Hyt as Hf1.
  assert (xTickCount s1 = xTickCount s) as Ht1 by (by destruct Hyt as (y & p & ->)).
  apply wp_bind.
  assert (∀ s2, kinv (xTickCount s + 1) ∅ s2 A1 → kframe s s2 → xTickCount s2 = xTickCount s → xYieldPending s2 = xYieldPending s1 →
    (items A xPendingReadyList = [] → s2 = s) →
    wp (pended ← gets uxPendedTicks;
      (if 0 <? pended then replay_ticks (Z.to_nat pended);; modify (with_pended 0) else mret ());;
      y ← gets xYieldPending;
      if y : bool then portYIELD;; mret true else mret false) Q s2 A1) as Hrest.
  { intros s2 Hk2 Hf2 Ht2 Hy2 Hsame2. apply wp_bind, wp_gets, wp_bind. rewrite (f_pended _ _ Hf2).
    assert (∀ s3 A3, kinv (xTickCount s3 + 1) ∅ s3 A3 → elapsed (uxPendedTicks s) s2 A1 s3 A3 → kframe s2 s3 → quiet s2 A1 s3 A3 (uxPriority cc) →
      resumed s A (with_pended 0 s3) A3) as Hfin.
    { intros s3 A3 Hk3 He3 Hf3 Hq3. pose proof (kframe_trans _ _ _ Hf2 Hf3) as [F1 F2 F3 F4 F5 F6 F7].
      assert (woken s A A3) as Hw3. { eapply woken_trans; [exact (f_tcbs _ _ Hf2)|done|]. eapply elapsed_woken; [|done]. by rewrite Ht2. }
      assert (∀ n, cont A1 !! n ≠ Some xPendingReadyList) as Hno1.
      { intros n Hn. apply (items_cont _ _ _ (k_wf _ _ _ _ Hk1)) in Hn. rewrite Hemp in Hn. by apply not_elem_of_nil in Hn. }
      assert (kinv (xTickCount s3 + 1) ∅ (with_pended 0 s3) A3) as Hk3' by (by eapply kinv_ext).
      split_and!; try done.
      - split; cbn -[Z.pow]; try done.
        + exists cur, cc. by rewrite F2, F1.
        + rewrite F4, F3. intros Hr. destruct (Bi Hr) as (i & ? & ?). exists i. split; [done|]. eapply ready_woken; [exact F1|done|done].
        + eapply event_woken; [exact Hk3'|exact F1|done|done].
        + intros _. eapply (event_pending_woken s2 s3); [exact Hk3|apply Hf3|eapply elapsed_woken; [|exact He3]; by rewrite Ht2|done].
        + lia.
        + by rewrite F7, F1.
      - cbn. by rewrite F5.
      - intros t c Ht Hc. simplify_eq. intros Hy. cbn in Hy. destruct (Hq3 Hy) as [Hy' Hb']. rewrite Hy2 in Hy'.
        destruct (Hq1 Hy') as [? Hb]. split; [done|]. intros ?. apply Hb', Hb. done.
      - intros Hnil. destruct (Hsame Hnil) as (_ & -> & _). specialize (Hsame2 Hnil) as ->.
        eapply elapsed_ext; [exact He3|apply walked_refl; apply Hk3|done..]. }
    destruct (0 <? uxPendedTicks s) eqn:Ep; zbool.
    - apply wp_bind. eapply wp_mono; [apply (wp_replay ∅ cur cc); [by rewrite Ht2|by rewrite (f_suspended _ _ Hf2)|by rewrite (f_current _ _ Hf2)|by rewrite (f_tcbs _ _ Hf2)]|].
      intros _ s3 A3 (Hk3 & He3 & Hf3 & Hq3). apply wp_modify, HQ, Hfin; [done| |done|done]. by rewrite Z2Nat.id in He3 by lia.
    - assert (uxPendedTicks s = 0) as Ep0 by lia. apply wp_ret, HQ.
      assert (with_pended 0 s2 = s2) as <- by (rewrite <- Ep0, <- (f_pended _ _ Hf2); by destruct s2).
      apply Hfin; [by rewrite Ht2|rewrite Ep0; eapply elapsed_0; by rewrite Ht2|apply kframe_refl|]. intros Hy. done. }
  destruct moved.
  - eapply wp_reset_unblock; [exact Hk1|]. intros v Hk2. apply Hrest; [done| |done|done|].
    + eapply kframe_trans; [exact Hf1|]. by split.
    + intros Hnil. by destruct (Hsame Hnil) as (_ & _ & ?).
  - apply wp_ret, Hrest; [done|done|done|done|]. intros Hnil. by destruct (Hsame Hnil) as (-> & _).
Qed.

Lemma u32_id n : 0 ≤ n < 2 ^ 32 → u32 n = n.
Proof. intros. unfold uwrap. by apply Z.mod_small. Qed.

Lemma base_suspended s A n : base s A → 0 < n < 2 ^ 32 → base (with_suspended n s) A.
Proof. intros [] Hn. split; cbn -[Z.pow]; try done; [by eapply kinv_ext|lia..]. Qed.

Lemma elapsed_switched n s A s1 A1 s2 A2 : elapsed n s A s1 A1 → walked A1 A2 → switched s1 s2 → elapsed n s A s2 A2.
Proof. intros He Hw (t & p & ->). by eapply elapsed_ext. Qed.

Lemma wp_resume_all s A (Q : bool → sched → astate → Prop) : base s A → xSchedulerRunning s = true → 0 < uxSchedulerSuspended s →
  (uxSchedulerSuspended s ≠ 1 → Q false (with_suspended (uxSchedulerSuspended s - 1) s) A) →
  (uxSchedulerSuspended s = 1 → ∀ s1 A1, resumed (with_suspended 0 s) A s1 A1 →
    (xYieldPending s1 = true → ∀ s' A', sinv false s' A' → runs_top s' A' → walked A1 A' → switched s1 s' → Q true s' A') ∧
    (xYieldPending s1 = false → Q false s1 A1)) →
  wp xTaskResumeAll Q s A.
Proof.
  intros Hb Hr Hs HQ1 HQ2. pose proof (b_suspended _ _ Hb) as Hs2. unfold xTaskResumeAll.
  apply wp_bind, wp_gets, wp_bind, wp_modify, wp_bind, wp_gets, wp_bind, wp_gets. rewrite u32_id by lia. cbn -[Z.pow].
  assert (0 < uxCurrentNumberOfTasks s) as Hnum.
  { destruct (b_number _ _ Hb) as [-> _]. destruct (b_current _ _ Hb) as (t & c & _ & Hc).
    destruct (decide (size (tcbs s) = 0%nat)) as [E|]; [|lia]. apply map_size_empty_inv in E. by rewrite E in Hc. }
  rewrite (proj2 (Z.ltb_lt _ _) Hnum), andb_true_r. destruct (uxSchedulerSuspended s - 1 =? 0) eqn:E; zbool.
  - assert (uxSchedulerSuspended s = 1) as Es by lia. specialize (HQ2 Es).
    replace (uxSchedulerSuspended s - 1) with 0 by lia. apply wp_resume_work; [|done|].
    { replace (with_suspended 1 (with_suspended 0 s)) with s; [done|]. rewrite <- Es. by destruct s. }
    intros s1 A1 Hres. destruct (HQ2 _ _ Hres) as [Hy Hn]. destruct Hres as (Hb1 & _ & _ & _ & Hr1 & Hs1 & _).
    apply wp_bind, wp_gets. destruct (xYieldPending s1); [|by apply wp_ret, Hn].
    apply wp_bind, wp_yield_now; [done|by rewrite Hr1|done|]. intros. apply wp_ret. by apply Hy.
  - apply wp_ret, HQ1. lia.
Qed.

Lemma resumed_sinv o s A s1 A1 : sinv o s A → resumed (with_suspended 0 s) A s1 A1 → xYieldPending s1 = false → sinv o s1 A1.
Proof.
  intros Hi (Hb & Hw & Ht & Hc & _ & _ & Hq & _) Hy. cbn in *. split; [done|]. intros Ho _ t c Htc Hcc. rewrite Hc in Htc. rewrite Ht in Hcc.
  destruct (Hq t c Htc Hcc Hy) as [Hy0 Hbd]. apply Hbd. by eapply (i_bound _ _ _ Hi Ho Hy0).
Qed.

Lemma sinv_weaken o s A : sinv false s A → sinv o s A.
Proof. intros [Hb Hbd]. split; [done|]. intros _. by apply Hbd. Qed.

(** ** Tick interrupts *)

Lemma base_elapsed s A s' A' : base s A → kinv (xTickCount s' + 1) ∅ s' A' → kframe s s' → woken s A A' → base s' A'.
Proof.
  intros [] Hk [F1 F2 F3 F4 F5 F6 F7] Hw. split; rewrite ?F1, ?F2, ?F3, ?F4, ?F5, ?F6, ?F7; try done.
  - intros Hr. destruct (b_idle0 Hr) as (i & ? & ?). exists i. split; [done|]. by eapply ready_woken.
  - by eapply event_woken.
  - intros Hs. eapply event_pending_woken; [exact Hk|exact F1|done|auto].
Qed.

(** A tick that the suspended scheduler only counts *)
Lemma wp_tick_pended s A (Q : unit → sched → astate → Prop) : base s A → xSchedulerRunning s = true → uxSchedulerSuspended s ≠ 0 →
  Q () (with_pended (u32 (uxPendedTicks s + 1)) s) A → wp vTickISR Q s A.
Proof.
  intros Hb Hr Hs HQ. unfold vTickISR, xTaskIncrementTick. apply wp_bind, wp_bind, wp_gets, wp_bind. rewrite (proj2 (Z.eqb_neq _ _) Hs).
  apply wp_bind, wp_gets, wp_bind, wp_modify, wp_ret, wp_bind, wp_gets, wp_ret. cbn.
  destruct (xYieldPending s) eqn:Ey; [|by apply wp_ret].
  unfold vTaskSwitchContext. apply wp_bind, wp_gets. cbn. rewrite (proj2 (Z.eqb_neq _ _) Hs). apply wp_modify.
  set (s1 := with_pended _ s) in *. replace (with_yield true s1) with s1; [done|]. subst s1. rewrite <- Ey. by destruct s.
Qed.

Lemma base_pended s A n : base s A → 0 ≤ n < 2 ^ 32 → uxSchedulerSuspended s ≠ 0 → base (with_pended n s) A.
Proof. intros [] Hn Hs. split; cbn -[Z.pow]; try done. by eapply kinv_ext. Qed.

Lemma wp_vTickISR o s A (Q : unit → sched → astate → Prop) : sinv o s A → xSchedulerRunning s = true →
  (uxSchedulerSuspended s = 0 → ∀ s' A', sinv o s' A' → elapsed 1 s A s' A' → tcbs s' = tcbs s → uxSchedulerSuspended s' = 0 →
    xSchedulerRunning s' = true → Q () s' A') →
  (uxSchedulerSuspended s ≠ 0 → sinv o (with_pended (u32 (uxPendedTicks s + 1)) s) A → Q () (with_pended (u32 (uxPendedTicks s + 1)) s) A) →
  wp vTickISR Q s A.
Proof.
  intros Hi Hr HQ1 HQ2. pose proof (i_base _ _ _ Hi) as Hb. destruct (b_current _ _ Hb) as (cur & cc & Hcur & Hcc).
  destruct (decide (uxSchedulerSuspended s = 0)) as [Hs|Hs].
  - specialize (HQ1 Hs). unfold vTickISR. eapply wp_bind, wp_tick; [apply Hb|done|done|done|]. intros r s1 A1 Hk1 HT Hfr Hsw. apply kframe_tick in Hfr as Hf.
    pose proof (ticked_elapsed _ _ _ _ _ (b_k _ _ Hb) Hk1 HT) as He. pose proof (elapsed_woken _ _ _ _ _ _ (b_k _ _ Hb) He) as Hw.
    pose proof (base_elapsed _ _ _ _ Hb Hk1 Hf Hw) as Hb1. destruct Hf as [F1 F2 F3 F4 F5 F6 F7]. destruct r.
    + apply wp_yield_now; [done|congruence|congruence|]. intros s2 A2 Hi2 _ Hwk Hsd. apply HQ1.
      * split; [apply Hi2|]. intros _. by apply (i_bound _ _ _ Hi2).
      * by eapply elapsed_switched.
      * by destruct Hsd as (t & p & ->).
      * destruct Hsd as (t & p & ->). cbn. congruence.
      * destruct Hsd as (t & p & ->). cbn. congruence.
    + assert (¬ wants_switch s A A1 cc) as Hno by (rewrite <- Hsw; done).
      apply wp_ret, HQ1; [|done|done|congruence|congruence]. split; [done|].
      intros Ho _ t c Ht Hc. assert (t = cur) as -> by congruence. assert (c = cc) as -> by congruence.
      assert (xYieldPending s = false) as Hy by (destruct (xYieldPending s) eqn:E; [by destruct Hno; left|done]).
      pose proof (i_bound _ _ _ Hi Ho Hy _ _ Hcur Hcc) as Hbd. eapply bounded_ticked; [apply Hb|done|done|done|done|done].
  - apply wp_tick_pended; [done|done|done|]. apply HQ2; [done|]. destruct Hi. split; [|done]. apply base_pended; [done| |done].
    apply Z.mod_pos_bound. lia.
Qed.

(** The timer interrupt [n] times *)
Fixpoint ticks {M} `{ListMem M} (n : nat) : kcall M unit :=
  match n with O => mret () | S n => vTickISR;; ticks n end.

Lemma wp_ticks_pended n : ∀ s A (Q : unit → sched → astate → Prop), base s A → xSchedulerRunning s = true → uxSchedulerSuspended s ≠ 0 →
  uxPendedTicks s + Z.of_nat n < 2 ^ 32 →
  Q () (with_pended (uxPendedTicks s + Z.of_nat n) s) A → wp (ticks n) Q s A.
Proof.
  induction n as [|n IH]; intros s A Q Hb Hr Hs Hn HQ; cbn [ticks].
  { apply wp_ret. rewrite Z.add_0_r in HQ. by destruct s. }
  pose proof (b_ticks _ _ Hb). apply wp_bind, wp_tick_pended; [done|done|done|]. rewrite u32_id by lia.
  apply IH; [apply base_pended; [done|lia|done]|done|done|cbn -[Z.pow]; lia|]. cbn -[Z.pow].
  by replace (uxPendedTicks s + 1 + Z.of_nat n) with (uxPendedTicks s + Z.of_nat (S n)) by lia.
Qed.

(** Ticks of the running scheduler *)
Definition ticks_post (n : nat) (s : sched) (A : astate) (s' : sched) (A' : astate) : Prop :=
  sinv false s' A' ∧ elapsed (Z.of_nat n) s A s' A' ∧ tcbs s' = tcbs s ∧ uxSchedulerSuspended s' = 0 ∧ xSchedulerRunning s' = true.

Lemma wp_ticks n s A : sinv false s A → xSchedulerRunning s = true → uxSchedulerSuspended s = 0 →
  wp (ticks n) (λ _ s' A', ticks_post n s A s' A') s A.
Proof.
  intros Hi Hr Hs.
  assert (∀ k n s1 A1, ticks_post k s A s1 A1 → wp (ticks n) (λ _ s' A', ticks_post (k + n) s A s' A') s1 A1) as Hgen.
  { clear n. intros k n. revert k. induction n as [|n IH]; intros k s1 A1 Hp; cbn [ticks].
    { apply wp_ret. by rewrite Nat.add_0_r. }
    destruct Hp as (Hi1 & He1 & Ht1 & Hs1 & Hr1). apply wp_bind. eapply wp_vTickISR; [done|done| |done].
    intros _ s2 A2 Hi2 He2 Ht2 Hs2 Hr2. rewrite <- Nat.add_succ_comm. apply IH. split_and!; [done| |congruence|done|done].
    replace (Z.of_nat (S k)) with (Z.of_nat k + 1) by lia. eapply elapsed_trans; [lia|lia|apply Hi|apply Hi1|done|done|done]. }
  apply (Hgen 0%nat). split_and!; [done|eapply elapsed_0; apply Hi|done|done|done].
Qed.

(** ** Blocking *)

(** The running task goes to a list of blocked tasks; the variables change only in the
    next time to unblock. *)
Record blocked (s : sched) (A : astate) (s' : sched) (A' : astate) (cur : nat) : Prop := {
  bl_k : kinv (xTickCount s + 1) ∅ s' A';
  bl_frame : ∃ v, s' = with_unblock v s;
  bl_list : ∃ l, cont A' = <[xStateListItem cur := l]> (delete (xStateListItem cur) (cont A)) ∧ blocked_list l;
  bl_vals : ∀ n, n ≠ xStateListItem cur → vals A' !! n = vals A !! n;
  bl_lists : same_lists A A'
}.

Lemma with_unblock_id s : with_unblock (xNextTaskUnblockTime s) s = s.
Proof. by destruct s. Qed.

Lemma val_insert A A' n v k : vals A' = <[n := v]> (vals A) → val A' k = if decide (n = k) then v else val A k.
Proof. intros E. unfold val. rewrite E, lookup_insert. by case_decide. Qed.

Lemma wp_add_delayed s A cur cc k inf (Q : unit → sched → astate → Prop) : kinv (xTickCount s + 1) ∅ s A →
  pxCurrentTCB s = Some cur → tcbs s !! cur = Some cc → 0 < k ≤ portMAX_DELAY →
  (∀ s' A', blocked s A s' A' cur → (k ≠ portMAX_DELAY ∨ inf = false → remaining s' A' cur = Some k) → Q () s' A') →
  wp (prvAddCurrentTaskToDelayedList k inf) Q s A.
Proof.
  intros Hk Hcur Hcc Hkr HQ. pose proof (k_tick _ _ _ _ Hk) as Ht. destruct (delayed_ids _ _ _ _ Hk) as (Hd & Ho & Hdo).
  unfold prvAddCurrentTaskToDelayedList. apply wp_bind, wp_gets. eapply wp_bind, wp_current; [done|].
  eapply wp_bind, wp_leave_state; [done|done|apply not_elem_of_empty|]. intros z A1 Hk1 H1.
  assert (cont A1 !! xStateListItem cur = None) as Hfree by (by rewrite (rm_cont _ _ _ H1), lookup_delete_eq).
  assert (is_Some (vals A1 !! xStateListItem cur)) as Hval by (apply (k_items _ _ _ _ Hk1); eauto).
  destruct ((k =? portMAX_DELAY) && inf) eqn:Einf; zbool.
  - apply wp_insert_end; [apply Hk1|apply Hk1; unfold xSuspendedTaskList; lia|done|done|]. intros A2 H2 _. apply HQ; [|naive_solver].
    split.
    + rewrite <- (from_hand cur). eapply kinv_enter; [exact Hk1|apply task_in_hand|done|done|..]; unfold parked, xSuspendedTaskList, xDelayedTaskList1, xDelayedTaskList2; [tauto|lia|lia|lia].
    + exists (xNextTaskUnblockTime s). by rewrite with_unblock_id.
    + eexists. split; [by rewrite (in_cont _ _ _ _ H2), (rm_cont _ _ _ H1)|]. by right; right.
    + intros n Hn. by rewrite (in_vals _ _ _ _ H2), (rm_vals _ _ _ H1).
    + eapply same_lists_trans; [apply (rm_lists _ _ _ H1)|apply (in_lists _ _ _ _ H2)].
  - cbv zeta. set (w := u32 (xTickCount s + k)).
    assert (w = xTickCount s + k ∧ xTickCount s < w ∨ w = xTickCount s + k - 4294967296 ∧ w < xTickCount s) as Hw.
    { unfold w, uwrap. unfold portMAX_DELAY in Hkr. change (2 ^ 32) with 4294967296 in *. Z.to_euclidean_division_equations; lia. }
    assert (0 ≤ w ≤ portMAX_DELAY) as Hwr by (pose proof (Z.mod_pos_bound (xTickCount s + k) (2 ^ 32)); unfold portMAX_DELAY, w, uwrap; lia).
    apply wp_bind, wp_set_item; [apply Hk1|done|done|]. intros A2 H2.
    assert (kinv (xTickCount s + 1) ({[cur]} ∪ ∅) s A2) as Hk2 by (eapply kinv_revalue; [done|done|]; intros l _; congruence).
    assert (val A2 (xStateListItem cur) = w) as Hv2 by (rewrite (val_insert _ _ _ _ _ (rv_vals _ _ _ _ H2)); by rewrite decide_True).
    assert (is_Some (vals A2 !! xStateListItem cur)) as Hval2 by (apply (k_items _ _ _ _ Hk2); eauto).
    assert (cont A2 !! xStateListItem cur = None) as Hfree2 by (by rewrite (rv_cont _ _ _ _ H2)).
    assert (∀ l v A3, (l = pxDelayedTaskList s ∧ xTickCount s < w ∧ v ≤ w ∨ l = pxOverflowDelayedTaskList s ∧ w < xTickCount s) → 0 ≤ v ≤ portMAX_DELAY →
      v ≤ xNextTaskUnblockTime s → inserted l (xStateListItem cur) A2 A3 → items A3 l = place (val A2) (xStateListItem cur) (items A2 l) →
      Q () (with_unblock v s) A3) as Hfin.
    { intros l v A3 Hl Hv Hvn H3 Hpl.
      assert (kinv (xTickCount s + 1) ∅ (with_unblock v s) A3) as Hk3.
      { rewrite <- (from_hand cur). eapply kinv_enter; [|apply task_in_hand|exact Hcc|exact H3|..]; cbn.
        - apply kinv_unblock; [exact Hk2|done|]. intros n Hn. destruct (k_due _ _ _ _ Hk2 _ Hn). lia.
        - right. unfold parked, xDelayedTaskList1, xDelayedTaskList2. destruct Hl as [[-> _]|[-> _]]; lia.
        - done.
        - rewrite Hv2. intros ->. destruct Hl as [?|[? _]]; [lia|congruence].
        - rewrite Hv2. intros ->. destruct Hl as [[? _]|?]; [congruence|lia]. }
      assert (cont A3 = <[xStateListItem cur := l]> (delete (xStateListItem cur) (cont A))) as Hc3.
      { by rewrite (in_cont _ _ _ _ H3), (rv_cont _ _ _ _ H2), (rm_cont _ _ _ H1). }
      apply HQ.
      - split; [done|by exists v| | |].
        + exists l. split; [done|]. unfold blocked_list, xDelayedTaskList1, xDelayedTaskList2. destruct Hl as [[-> _]|[-> _]]; lia.
        + intros n Hn. by rewrite (in_vals _ _ _ _ H3), (rv_vals _ _ _ _ H2), lookup_insert_ne, (rm_vals _ _ _ H1).
        + eapply same_lists_trans; [apply (rm_lists _ _ _ H1)|]. eapply same_lists_trans; [|apply (in_lists _ _ _ _ H3)].
          intros m. by rewrite (rv_seqs _ _ _ _ H2).
      - intros _. apply (remaining_cases _ _ _ _ _ _ Hk3). cbn -[Z.pow]. rewrite (val_same A2 A3), Hv2, Hc3, lookup_insert_eq by apply H3.
        destruct Hl as [(-> & ? & ?)|[-> ?]]; [left|right]; (split; [done|lia]). }
    destruct (w <? xTickCount s) eqn:Ew; zbool.
    + apply wp_bind, wp_gets, wp_insert; [apply Hk2|apply Hk2; lia|done|done|]. intros A3 H3 Hpl.
      rewrite <- (with_unblock_id s). eapply (Hfin _ _ A3); [right; done|apply Hk|lia|done|done].
    + apply wp_bind, wp_gets, wp_bind, wp_insert; [apply Hk2|apply Hk2; lia|done|done|]. intros A3 H3 Hpl. apply wp_bind, wp_gets.
      destruct (w <? xNextTaskUnblockTime s) eqn:En; zbool.
      * apply wp_modify. eapply Hfin; [|done|lia|done|done]. left. split_and!; [done|lia|lia].
      * apply wp_ret. rewrite <- (with_unblock_id s). eapply (Hfin _ _ A3); [|apply Hk|lia|done|done]. left. split_and!; [done|lia|lia].
Qed.

(** ** Moving one task *)

(** The state item of [t] is now in list [l]; its event item may have left its list. *)
Definition moved_to (t l : nat) (A A' : astate) : Prop :=
  cont A' !! xStateListItem t = Some l ∧
  ∀ n, n ≠ xStateListItem t → cont A' !! n = cont A !! n ∨ n = xEventListItem t ∧ cont A' !! n = None.

Lemma moved_insert t l A A' : cont A' = <[xStateListItem t := l]> (delete (xStateListItem t) (cont A)) → moved_to t l A A'.
Proof.
  intros E. split; rewrite E; [apply lookup_insert_eq|]. intros n Hn. rewrite lookup_insert_ne, lookup_delete_ne by done. by left.
Qed.

Lemma moved_insert_event t l A A' :
  cont A' = <[xStateListItem t := l]> (delete (xEventListItem t) (delete (xStateListItem t) (cont A))) → moved_to t l A A'.
Proof.
  intros E. split; rewrite E; [apply lookup_insert_eq|]. intros n Hn. rewrite lookup_insert_ne by done.
  destruct (decide (n = xEventListItem t)) as [-> |Hne]; [right; by rewrite lookup_delete_eq|]. rewrite !lookup_delete_ne by done. by left.
Qed.

Lemma moved_state t l A A' u : moved_to t l A A' → u ≠ t → cont A' !! xStateListItem u = cont A !! xStateListItem u.
Proof.
  intros [_ H] Hu. destruct (H (xStateListItem u)) as [|[E _]]; [by intros ?%state_inj|done|]. by destruct (state_event u t).
Qed.

Lemma moved_event t l A A' u : moved_to t l A A' → cont A' !! xEventListItem u = cont A !! xEventListItem u ∨ u = t ∧ cont A' !! xEventListItem u = None.
Proof.
  intros [_ H]. destruct (H (xEventListItem u)) as [|[E ?]]; [intros E; by destruct (state_event t u)|by left|]. apply event_inj in E. by right.
Qed.

Lemma ready_moved s s' A A' t l u : moved_to t l A A' → tcbs s' = tcbs s → u ≠ t → ready s A u → ready s' A' u.
Proof.
  intros Hm Ht Hu (c & Hc & Hl). exists c. rewrite Ht. split; [done|]. by rewrite (moved_state _ _ _ _ _ Hm).
Qed.

Lemma ready_made s s' A A' t c u : moved_to t (uxPriority c) A A' → tcbs s !! t = Some c → tcbs s' = tcbs s → ready s A u → ready s' A' u.
Proof.
  intros Hm Hc Ht Hr. destruct (decide (u = t)) as [-> |]; [|by eapply ready_moved]. exists c. rewrite Ht. split; [done|apply Hm].
Qed.

Lemma base_moved s A s' A' t c l : base s A → kinv (xTickCount s' + 1) ∅ s' A' → kframe s s' → tcbs s !! t = Some c → moved_to t l A A' →
  (∀ m, cont A' !! xEventListItem t = Some m → event_ok m (Some l)) →
  (xSchedulerRunning s = true → xIdleTaskHandle s = Some t → l = uxPriority c) → base s' A'.
Proof.
  intros [] Hk [F1 F2 F3 F4 F5 F6 F7] Hc Hm Hl Hi. split; rewrite ?F1, ?F2, ?F3, ?F4, ?F5, ?F6, ?F7; try done.
  - intros Hr. destruct (b_idle0 Hr) as (i & Hih & Hrd). exists i. split; [done|]. destruct (decide (i = t)) as [-> |Hne].
    + exists c. rewrite F1. split; [done|]. rewrite <- (Hi Hr Hih). apply Hm.
    + by eapply ready_moved.
  - intros u m Hu. destruct (decide (u = t)) as [-> |Hne].
    + rewrite (proj1 Hm). by apply Hl.
    + rewrite (moved_state _ _ _ _ _ Hm) by done. destruct (moved_event _ _ _ _ u Hm) as [E|[? _]]; [|done]. apply b_event0. congruence.
  - intros Hs n Hn. destruct (pending_item _ _ _ _ Hk Hn) as [E _]. rewrite E in Hn.
    destruct (moved_event _ _ _ _ (pvOwner_task n) Hm) as [E'|[_ E']]; [|congruence]. rewrite E' in Hn. by apply b_pending0 in Hn.
Qed.

(** After a task was made ready, which the running task has to make room for unless it
    is more urgent *)
Lemma sinv_woke o o' s A s' A' t c cur cc : sinv o s A → base s' A' → kframe s s' → pxCurrentTCB s = Some cur → tcbs s !! cur = Some cc →
  tcbs s !! t = Some c → moved_to t (uxPriority c) A A' →
  (o' = false → xYieldPending s' = false → o = false ∧ xYieldPending s = false ∧ (uxPriority c ≤ uxPriority cc)%nat) → sinv o' s' A'.
Proof.
  intros Hi Hb Hf Hcur Hcc Hc Hm Hy. split; [done|]. intros Ho Hy' u cu Hu Hcu. rewrite (f_current _ _ Hf) in Hu. rewrite (f_tcbs _ _ Hf) in Hcu.
  assert (u = cur) as -> by congruence. assert (cu = cc) as -> by congruence. destruct (Hy Ho Hy') as (Ho0 & Hy0 & Hle).
  pose proof (i_bound _ _ _ Hi Ho0 Hy0 _ _ Hcur Hcc) as Hbd. intros n l Hn Hl. destruct (decide (n = xStateListItem t)) as [-> |Hne].
  - destruct Hm as [Hs _]. rewrite Hs in Hn. by simplify_eq.
  - destruct Hm as [_ Ho']. destruct (Ho' n Hne) as [E|[_ E]]; [|congruence]. rewrite E in Hn. by eapply Hbd.
Qed.

Lemma wp_make_ready s A t c (Q : unit → sched → astate → Prop) : base s A → tcbs s !! t = Some c →
  (∀ l, cont A !! xEventListItem t = Some l → l = xPendingReadyList) →
  (∀ s' A', base s' A' → (∃ p, s' = with_top p s) → moved_to t (uxPriority c) A A' → vals A' = vals A → same_lists A A' → Q () s' A') →
  wp (_ ← uxListRemove (xStateListItem t); prvAddTaskToReadyList t) Q s A.
Proof.
  intros Hb Hc He HQ. eapply wp_bind, wp_leave_state; [apply Hb|done|apply not_elem_of_empty|]. intros k A1 Hk1 H1.
  eapply wp_add_ready; [exact Hk1|apply task_in_hand|done|]. intros A2 s2 Hk2 H2. rewrite from_hand in Hk2.
  assert (cont A2 = <[xStateListItem t := uxPriority c]> (delete (xStateListItem t) (cont A))) as Hcont
    by (by rewrite (in_cont _ _ _ _ H2), (rm_cont _ _ _ H1)).
  pose proof (moved_insert _ _ _ _ Hcont) as Hm. apply HQ; [|by eexists|done|by rewrite (in_vals _ _ _ _ H2), (rm_vals _ _ _ H1)|].
  - eapply base_moved; [exact Hb|done|by split|done|done| |done]. intros m Hme. pose proof (k_prio _ _ _ _ (b_k _ _ Hb) _ _ Hc).
    exists (uxPriority c). split; [done|]. right. unfold xTasksWaitingTermination. split; [|lia].
    destruct (moved_event _ _ _ _ t Hm) as [E|[_ E]]; rewrite E in Hme; [by apply He|done].
  - eapply same_lists_trans; [apply (rm_lists _ _ _ H1)|apply (in_lists _ _ _ _ H2)].
Qed.

(** The event item of a task leaves its list. *)
Lemma base_leave_event s A A' t : base s A → kinv (xTickCount s + 1) ∅ s A' → removed (xEventListItem t) A A' → base s A'.
Proof.
  intros [] Hk [_ Hc _ _ _]. pose proof (λ u, state_event u t) as Hse. split; rewrite ?Hc; try done.
  - intros Hr. destruct (b_idle0 Hr) as (i & ? & ci & ? & ?). exists i. split; [done|]. exists ci. split; [done|]. by rewrite Hc, lookup_delete_ne by done.
  - intros u l [_ Hu]%lookup_delete_Some. rewrite lookup_delete_ne by done. eauto.
  - intros Hs n [_ Hn]%lookup_delete_Some. by apply b_pending0 in Hn.
Qed.

Lemma sinv_leave_event o s A A' t : sinv o s A → kinv (xTickCount s + 1) ∅ s A' → removed (xEventListItem t) A A' → sinv o s A'.
Proof.
  intros [Hb Ht] Hk H. split; [by eapply base_leave_event|]. intros Ho Hy u c Hu Hc n l. rewrite (rm_cont _ _ _ H).
  intros [_ Hn]%lookup_delete_Some. by eapply (Ht Ho Hy u c Hu Hc).
Qed.
End RtosSys.
