(* ===== verification/RtosCalls.v ===== *)
(** * Every call of the FreeRTOS scheduler

    Each call of [RtosTask.call], made when its caller may make it ([legal], which has
    the assertions of the code), runs to its end and keeps the invariant of [RtosSys].
    The theorems about whole runs are here: delays are exact, ticks that come while the
    scheduler is suspended are not lost, time outs are exact, and the most urgent ready
    task runs. *)

From S2P Require Import Prelude RtosList RtosTask RtosSched RtosSys.
Import RtosList RtosTask RtosSched RtosSys.

Module RtosCalls.

#[local] Arguments xStateListItem : simpl never.
#[local] Arguments xEventListItem : simpl never.
#[local] Arguments pvOwner_task : simpl never.

Definition handle (s : sched) (h : option nat) : option nat := match h with None => pxCurrentTCB s | Some t => Some t end.

(** ** Waking a task *)

Lemma sinv_ext o s A s' : sinv o s A → base s' A → kframe s s' → xYieldPending s' = xYieldPending s → sinv o s' A.
Proof.
  intros [Hb Hbd] Hb' Hf Hy. split; [done|]. rewrite Hy, (f_tcbs _ _ Hf), (f_current _ _ Hf). done.
Qed.

Lemma wp_handle s A h t (Q : nat → sched → astate → Prop) : handle s h = Some t → Q t s A → wp (prvGetTCBFromHandle h) Q s A.
Proof. intros Hh HQ. destruct h as [u|]; cbn in *; [simplify_eq; by apply wp_ret|by eapply wp_current]. Qed.

(** The test of the priorities behind every wake-up; [y] says whether it has to be
    strict. *)
Section wake.
Context (o : bool) (s : sched) (A : astate) (t : nat) (c : TCB_t) (cur : nat) (cc : TCB_t).
Hypotheses (Hi : sinv o s A) (Hc : tcbs s !! t = Some c) (Hcur : pxCurrentTCB s = Some cur) (Hcc : tcbs s !! cur = Some cc).

Lemma wake_sinv p A' : base (with_top p s) A' → moved_to t (uxPriority c) A A' →
  (uxPriority c ≤ uxPriority cc)%nat → sinv o (with_top p s) A'.
Proof using Hi Hc Hcur Hcc. intros Hb Hm Hle. apply (sinv_woke o o s A _ A' t c cur cc); [exact Hi|done|by split|done|done|done|done|]. intros ? Hy. by split_and!. Qed.

Lemma wp_compare_lt p A' (Q : bool → sched → astate → Prop) : base (with_top p s) A' →
  Q (uxPriority cc <? uxPriority c)%nat (with_top p s) A' →
  wp (p ← priority t; c ← current; pc ← priority c; mret (pc <? p)%nat) Q (with_top p s) A'.
Proof using Hc Hcur Hcc.
  intros Hb HQ. eapply wp_bind, wp_priority; [exact Hc|]. eapply wp_bind, wp_current; [exact Hcur|].
  eapply wp_bind, wp_priority; [exact Hcc|]. by apply wp_ret.
Qed.
End wake.

Lemma wp_task_is_suspended s A t (Q : bool → sched → astate → Prop) : base s A → is_Some (tcbs s !! t) →
  Q (bool_decide (cont A !! xStateListItem t = Some xSuspendedTaskList ∧ cont A !! xEventListItem t = None)) s A →
  wp (prvTaskIsTaskSuspended t) Q s A.
Proof.
  intros Hb Ht HQ. destruct (k_items _ _ _ _ (b_k _ _ Hb) t Ht) as [Hs He]. unfold prvTaskIsTaskSuspended.
  apply wp_bind, wp_container; [done|]. case_decide as Hl.
  - apply wp_bind, wp_container; [done|]. case_decide as Hp; apply wp_ret.
    + rewrite bool_decide_eq_false_2 in HQ; [done|]. intros [_ ?]. congruence.
    + erewrite bool_decide_ext; [exact HQ|]. tauto.
  - apply wp_ret. rewrite bool_decide_eq_false_2 in HQ; [done|]. naive_solver.
Qed.

Lemma wp_resume o s A h (Q : unit → sched → astate → Prop) : sinv o s A → xSchedulerRunning s = true →
  (∀ t, h = Some t → is_Some (tcbs s !! t)) → (∀ s' A', sinv o s' A' → Q () s' A') → wp (vTaskResume h) Q s A.
Proof.
  intros Hi Hr Hh HQ. pose proof (i_base _ _ _ Hi) as Hb. unfold vTaskResume. apply wp_bind, wp_gets.
  destruct h as [t|]; [|by apply wp_ret, HQ]. destruct (Hh t eq_refl) as [c Hc]. destruct (b_current _ _ Hb) as (cur & cc & Hcur & Hcc).
  case_decide; [by apply wp_ret, HQ|]. apply wp_bind, wp_task_is_suspended; [done|eauto|].
  case_bool_decide as Hs; [|by apply wp_ret, HQ]. destruct Hs as [_ He].
  apply wp_assoc, wp_bind. eapply wp_make_ready; [done|done|congruence|]. intros s1 A1 Hb1 [p ->] Hm _ _.
  eapply wp_bind, wp_priority; [exact Hc|]. eapply wp_bind, wp_current; [exact Hcur|]. eapply wp_bind, wp_priority; [exact Hcc|].
  destruct (Nat.leb_spec (uxPriority cc) (uxPriority c)) as [Hle|Hgt].
  - apply wp_yield; [done|done|]. intros. apply HQ. by apply sinv_weaken.
  - apply wp_ret, HQ. by eapply (wake_sinv o s A t c cur cc); [| | | | | |lia].
Qed.

(** An event item of a task goes to the pending ready list. *)
Lemma wp_pend o s A t c (Q : unit → sched → astate → Prop) : sinv o s A → tcbs s !! t = Some c → cont A !! xEventListItem t = None →
  cont A !! xStateListItem t ≠ Some xTasksWaitingTermination → uxSchedulerSuspended s ≠ 0 → (∀ A', sinv o s A' → Q () s A') → wp (vListInsertEnd xPendingReadyList (xEventListItem t)) Q s A.
Proof.
  intros Hi Hc He H8 Hs HQ. pose proof (i_base _ _ _ Hi) as Hb. pose proof (b_k _ _ Hb) as Hk.
  destruct (k_state _ _ _ _ Hk _ _ Hc) as (m & Hm & _); [apply not_elem_of_empty|].
  apply wp_insert_end; [apply Hk|apply Hk; unfold xPendingReadyList; lia|apply (k_items _ _ _ _ Hk); eauto|done|].
  intros A' H _. assert (kinv (xTickCount s + 1) ∅ s A') as Hk' by (eapply kinv_enter_event; [exact Hk|eauto|exact H|by left]).
  apply HQ. destruct Hi as [[] Hbd]. pose proof (λ u, state_event u t) as Hse. destruct H as [_ Hcont _ _ _].
  assert (∀ u, cont A' !! xStateListItem u = cont A !! xStateListItem u) as Hst by (intros u; by rewrite Hcont, lookup_insert_ne).
  split; [split; try done|].
  - intros Hr. destruct (b_idle0 Hr) as (i & ? & ci & ? & ?). exists i. split; [done|]. exists ci. by rewrite Hst.
  - intros u l. rewrite Hst, Hcont. intros [[<-%event_inj <-]|[_ ?]]%lookup_insert_Some; [|eauto].
    exists m. split; [done|]. right. split; [done|congruence].
  - intros Ho Hy u cu Hu Hcu n l. rewrite Hcont. intros [[_ <-]|[_ Hn]]%lookup_insert_Some; [unfold xPendingReadyList; lia|].
    by apply (Hbd Ho Hy u cu Hu Hcu n).
Qed.

Lemma wp_resume_isr o s A t (Q : bool → sched → astate → Prop) : sinv o s A → is_Some (tcbs s !! t) →
  (∀ r s' A', sinv (o || r) s' A' → Q r s' A') → wp (xTaskResumeFromISR t) Q s A.
Proof.
  intros Hi [c Hc] HQ. pose proof (i_base _ _ _ Hi) as Hb. destruct (b_current _ _ Hb) as (cur & cc & Hcur & Hcc).
  assert (∀ s' A', sinv o s' A' → Q false s' A') as HQf by (intros s' A' H; apply HQ; by rewrite orb_false_r).
  unfold xTaskResumeFromISR. apply wp_bind, wp_task_is_suspended; [done|eauto|].
  case_bool_decide as Hs; [|by apply wp_ret, HQf]. destruct Hs as [H9 He]. apply wp_bind, wp_gets.
  destruct (uxSchedulerSuspended s =? 0) eqn:Es; zbool.
  - eapply wp_bind, wp_priority; [exact Hc|]. eapply wp_bind, wp_current; [exact Hcur|]. eapply wp_bind, wp_priority; [exact Hcc|].
    apply wp_assoc, wp_bind. eapply wp_make_ready; [done|done|congruence|]. intros s1 A1 Hb1 [p ->] Hm _ _. apply wp_ret, HQ.
    apply (sinv_woke o _ s A _ A1 t c cur cc); [exact Hi|done|by split|done|done|done|done|]. intros [Ho Hle]%orb_false_iff Hy. apply Nat.leb_gt in Hle. split_and!; [done|done|lia].
  - eapply wp_bind, wp_pend; [done|done|done|by rewrite H9|done|]. intros A' Hi'. by apply wp_ret, HQf.
Qed.

(** A task whose event item is in no list becomes ready, or pending while the scheduler
    is suspended. *)
Lemma wp_wake_or_pend o s A t c cur cc (Q : unit → sched → astate → Prop) : sinv o s A → tcbs s !! t = Some c →
  pxCurrentTCB s = Some cur → tcbs s !! cur = Some cc → cont A !! xEventListItem t = None →
  cont A !! xStateListItem t ≠ Some xTasksWaitingTermination →
  (∀ s' A', base s' A' → kframe s s' → ((uxPriority c ≤ uxPriority cc)%nat → sinv o s' A') → Q () s' A') →
  wp (if uxSchedulerSuspended s =? 0 then _ ← uxListRemove (xStateListItem t); prvAddTaskToReadyList t
      else vListInsertEnd xPendingReadyList (xEventListItem t)) Q s A.
Proof.
  intros Hi Hc Hcur Hcc He H8 HQ. destruct (uxSchedulerSuspended s =? 0) eqn:Es; zbool.
  - eapply wp_make_ready; [apply Hi|done|congruence|]. intros s1 A1 Hb1 [p ->] Hm _ _. apply HQ; [done|by split|].
    by eapply (wake_sinv o s A t c cur cc).
  - eapply wp_pend; [done|done|done|done|done|]. intros A' Hi'. apply HQ; [apply Hi'|apply kframe_refl|done].
Qed.

Lemma sinv_yield o s A : base s A → sinv o (with_yield true s) A.
Proof. intros Hb. split; [by apply base_yield|done]. Qed.

(** The end of the calls that wake a task from an event list *)
Lemma wp_ask_yield o s A t c cur cc (Q : bool → sched → astate → Prop) : base s A → ((uxPriority c ≤ uxPriority cc)%nat → sinv o s A) →
  tcbs s !! t = Some c → pxCurrentTCB s = Some cur → tcbs s !! cur = Some cc → (∀ r s' A', sinv o s' A' → Q r s' A') →
  wp (p ← priority t; c ← current; pc ← priority c; if (pc <? p)%nat then modify (with_yield true);; mret true else mret false) Q s A.
Proof.
  intros Hb Hi Hc Hcur Hcc HQ. eapply wp_bind, wp_priority; [exact Hc|]. eapply wp_bind, wp_current; [exact Hcur|].
  eapply wp_bind, wp_priority; [exact Hcc|]. destruct (Nat.ltb_spec (uxPriority cc) (uxPriority c)) as [Hlt|Hge].
  - apply wp_bind, wp_modify, wp_ret, HQ. by apply sinv_yield.
  - apply wp_ret, HQ. by apply Hi.
Qed.

Lemma event_list_item lo s A n l : kinv lo ∅ s A → cont A !! n = Some l → (10 ≤ l)%nat →
  n = xEventListItem (pvOwner_task n) ∧ is_Some (tcbs s !! pvOwner_task n).
Proof.
  intros Hk Hn Hl. destruct (k_owner _ _ _ _ Hk _ _ Hn) as [c Hc]. split; [|eauto]. destruct (item_cases n) as [E|E]; [|done].
  rewrite E in Hn. destruct (k_state _ _ _ _ Hk _ _ Hc) as (l' & Hl' & Hor); [apply not_elem_of_empty|].
  pose proof (k_prio _ _ _ _ Hk _ _ Hc). simplify_eq.
  unfold parked, xDelayedTaskList1, xDelayedTaskList2, xTasksWaitingTermination, xSuspendedTaskList in Hor. lia.
Qed.

Lemma wp_remove_event o s A l (Q : bool → sched → astate → Prop) : sinv o s A → (10 ≤ l)%nat → items A l ≠ [] →
  (∀ r s' A', sinv o s' A' → Q r s' A') → wp (xTaskRemoveFromEventList l) Q s A.
Proof.
  intros Hi Hl Hne HQ. pose proof (b_k _ _ (i_base _ _ _ Hi)) as Hk. destruct (b_current _ _ (i_base _ _ _ Hi)) as (cur & cc & Hcur & Hcc).
  destruct (items A l) as [|x xs] eqn:Ex; [done|]. unfold xTaskRemoveFromEventList. eapply wp_bind, wp_head; [done|].
  assert (cont A !! x = Some l) as Hx by (apply (items_cont _ _ _ (k_wf _ _ _ _ Hk)); rewrite Ex; apply elem_of_cons; by left).
  destruct (event_list_item _ _ _ _ _ Hk Hx Hl) as [E [c Hc]]. rewrite E in Hx. set (t := pvOwner_task x) in *.
  eapply wp_bind, wp_leave_event_in; [done|done|]. intros k A1 Hk1 H1. pose proof (sinv_leave_event _ _ _ _ _ Hi Hk1 H1) as Hi1.
  apply wp_bind, wp_gets, wp_bind. eapply (wp_wake_or_pend o s A1 t c cur cc); [done|done|done|done|by rewrite (rm_cont _ _ _ H1), lookup_delete_eq| |].
  { rewrite (rm_cont _ _ _ H1), lookup_delete_ne by (by intros ?%eq_sym%state_event).
    destruct (b_event _ _ (i_base _ _ _ Hi) _ _ Hx) as (m & -> & [Hbl|[Hp _]]); [|unfold xPendingReadyList in Hp; lia].
    unfold blocked_list, xDelayedTaskList1, xDelayedTaskList2, xSuspendedTaskList, xTasksWaitingTermination in *. intros [= ->]. lia. }
  intros s2 A2 Hb2 Hf Hi2. eapply wp_ask_yield; [done|exact Hi2|by rewrite (f_tcbs _ _ Hf)|by rewrite (f_current _ _ Hf)|by rewrite (f_tcbs _ _ Hf)|done].
Qed.

Lemma base_revalue s A A' n v : base s A → kinv (xTickCount s + 1) ∅ s A' → revalued n v A A' → base s A'.
Proof.
  intros [] Hk [_ Hc _ _]. split; rewrite ?Hc; try done. intros Hr. destruct (b_idle0 Hr) as (i & ? & ci & ? & ?). exists i.
  split; [done|]. exists ci. by rewrite Hc.
Qed.

Lemma bounded_same A A' p : cont A' = cont A → bounded A p → bounded A' p.
Proof. unfold bounded. by intros ->. Qed.

(** The value of an event item changes. *)
Lemma wp_set_event o s A t v (Q : unit → sched → astate → Prop) : sinv o s A → is_Some (tcbs s !! t) → 0 ≤ v ≤ portMAX_DELAY →
  (∀ A', sinv o s A' → cont A' = cont A → same_lists A A' → Q () s A') → wp (listSET_LIST_ITEM_VALUE (xEventListItem t) v) Q s A.
Proof.
  intros Hi Ht Hv HQ. pose proof (b_k _ _ (i_base _ _ _ Hi)) as Hk. apply wp_set_item; [apply Hk|by apply (k_items _ _ _ _ Hk)|done|].
  intros A' H. assert (kinv (xTickCount s + 1) ∅ s A') as Hk'.
  { eapply kinv_revalue; [exact Hk|exact H|]. intros l Hl He. destruct (k_event _ _ _ _ Hk _ _ He);
      unfold xPendingReadyList, xDelayedTaskList1, xDelayedTaskList2 in *; lia. }
  apply HQ; [|apply H|intros l; by rewrite (rv_seqs _ _ _ _ H)]. split; [eapply base_revalue; [apply Hi|done|done]|].
  intros Ho Hy u c Hu Hc. eapply bounded_same; [apply H|]. by eapply (i_bound _ _ _ Hi Ho Hy).
Qed.

Lemma lor_range a b : 0 ≤ a ≤ portMAX_DELAY → 0 ≤ b ≤ portMAX_DELAY → 0 ≤ Z.lor a b ≤ portMAX_DELAY.
Proof.
  unfold portMAX_DELAY. intros Ha Hb. split; [apply Z.lor_nonneg; lia|]. apply Z.lt_succ_r. change (Z.succ 0xffffffff) with (2 ^ 32).
  destruct (decide (Z.lor a b = 0)) as [-> |Hne]; [lia|]. apply Z.log2_lt_pow2; [pose proof (proj2 (Z.lor_nonneg a b)); lia|].
  rewrite Z.log2_lor by lia. apply Z.max_lub_lt.
  - destruct (decide (a = 0)) as [-> |]; [done|]. apply Z.log2_lt_pow2; lia.
  - destruct (decide (b = 0)) as [-> |]; [done|]. apply Z.log2_lt_pow2; lia.
Qed.

Lemma wp_remove_unordered o s A t v l (Q : bool → sched → astate → Prop) : sinv o s A → 0 ≤ v ≤ portMAX_DELAY → is_Some (tcbs s !! t) →
  cont A !! xEventListItem t = Some l → (∀ r s' A', sinv o s' A' → Q r s' A') → wp (xTaskRemoveFromUnorderedEventList t v) Q s A.
Proof.
  intros Hi Hv [c Hc] Hl HQ. destruct (b_current _ _ (i_base _ _ _ Hi)) as (cur & cc & Hcur & Hcc). unfold xTaskRemoveFromUnorderedEventList.
  apply wp_bind. eapply (wp_set_event o); [done|eauto|by apply lor_range|]. intros A1 Hi1 Hc1 _.
  eapply wp_bind, wp_leave_event_in; [apply Hi1|by rewrite Hc1|]. intros k A2 Hk2 H2. pose proof (sinv_leave_event _ _ _ _ _ Hi1 Hk2 H2) as Hi2.
  apply wp_assoc, wp_bind. eapply wp_make_ready; [apply Hi2|done|by rewrite (rm_cont _ _ _ H2), lookup_delete_eq|].
  intros s3 A3 Hb3 [p ->] Hm _ _. eapply wp_ask_yield; [done| |exact Hc|exact Hcur|exact Hcc|done].
  by eapply (wake_sinv o s A2 t c cur cc).
Qed.

(** ** Notifications *)

Definition put_tcb (t : nat) (c : TCB_t) (s : sched) : sched := with_tcbs (<[t := c]> (tcbs s)) s.

Lemma wp_update_tcb s A t c f (Q : unit → sched → astate → Prop) : tcbs s !! t = Some c → Q () (put_tcb t (f c) s) A →
  wp (update_tcb t f) Q s A.
Proof. intros Hc HQ. unfold update_tcb. eapply wp_bind, wp_tcb; [done|]. by apply wp_modify. Qed.

Lemma kinv_tcb lo X s A t c c' : kinv lo X s A → tcbs s !! t = Some c → (uxPriority c' < 5)%nat →
  (t ∈ X ∨ uxPriority c' = uxPriority c ∨ ∃ l, cont A !! xStateListItem t = Some l ∧ parked l) → kinv lo X (put_tcb t c' s) A.
Proof.
  intros [] Hc Hp Hor. split; cbn; try done.
  - intros u cu [[<- <-]|[_ Hu]]%lookup_insert_Some; eauto.
  - intros u Hu. apply k_items0. destruct (decide (u = t)) as [-> |]; [eauto|]. by rewrite lookup_insert_ne in Hu.
  - intros n l Hn. rewrite lookup_insert_is_Some'. right. eauto.
  - intros u cu [[<- <-]|[_ Hu]]%lookup_insert_Some HX; [|eauto]. destruct Hor as [?|[E|(l & Hl & Hpk)]]; [done| |eauto].
    rewrite E. eauto.
  - intros u Hu. destruct (k_out0 u Hu). rewrite lookup_insert_is_Some'. auto.
Qed.

Lemma ready_put_tcb s A t c c' u : tcbs s !! t = Some c → uxPriority c' = uxPriority c → ready s A u → ready (put_tcb t c' s) A u.
Proof.
  intros Hc Hp (cu & Hcu & Hl). unfold ready. cbn. destruct (decide (u = t)) as [-> |Hne].
  - exists c'. rewrite lookup_insert_eq, Hp. split; [done|]. by simplify_eq.
  - exists cu. by rewrite lookup_insert_ne.
Qed.

(** Anything but the priority of a task changes. *)
Lemma sinv_tcb o s A t c c' : sinv o s A → tcbs s !! t = Some c → uxPriority c' = uxPriority c → sinv o (put_tcb t c' s) A.
Proof.
  intros [[] Hbd] Hc Hp. split; [split; try done; cbn -[Z.pow]|].
  - eapply kinv_tcb; [exact b_k0|done| |auto]. rewrite Hp. by apply (k_prio _ _ _ _ b_k0 t).
  - destruct b_current0 as (u & cu & ? & ?). exists u. destruct (decide (u = t)) as [-> |]; [exists c'; by rewrite lookup_insert_eq|exists cu; by rewrite lookup_insert_ne].
  - intros Hr. destruct (b_idle0 Hr) as (i & ? & ?). exists i. split; [done|]. by eapply ready_put_tcb.
  - by rewrite map_size_insert_Some by eauto.
  - cbn. intros Ho Hy u cu Hu [[<- <-]|[_ Hcu]]%lookup_insert_Some; [rewrite Hp; by eapply Hbd|by eapply Hbd].
Qed.

Lemma sinv_put_tcb2 o s A t c f g : sinv o s A → tcbs s !! t = Some c → uxPriority (f c) = uxPriority c → uxPriority (g (f c)) = uxPriority c →
  sinv o (put_tcb t (g (f c)) (put_tcb t (f c) s)) A.
Proof. intros Hi Hc Hf Hg. eapply sinv_tcb; [eapply sinv_tcb; [done|exact Hc|done]|cbn; apply lookup_insert_eq|congruence]. Qed.

(** What is asserted of a task that waits for a notification: it is in no event list;
    an interrupt handler that may have to put it into the pending ready list also
    relies on that it was not deleted. *)
Definition waits_unlisted (s : sched) (A : astate) (t : nat) : Prop :=
  ∀ c, tcbs s !! t = Some c → ucNotifyState c = taskWAITING_NOTIFICATION → cont A !! xEventListItem t = None.
Definition waits_alive (s : sched) (A : astate) (t : nat) : Prop :=
  ∀ c, tcbs s !! t = Some c → ucNotifyState c = taskWAITING_NOTIFICATION → cont A !! xStateListItem t ≠ Some xTasksWaitingTermination.

Lemma wp_notify o s A t v a (Q : bool * Z → sched → astate → Prop) : sinv o s A → xSchedulerRunning s = true → is_Some (tcbs s !! t) →
  waits_unlisted s A t → (∀ r s' A', sinv o s' A' → Q r s' A') → wp (xTaskGenericNotify t v a) Q s A.
Proof.
  intros Hi Hr [c Hc] He HQ. specialize (He c Hc). unfold xTaskGenericNotify. eapply wp_bind, wp_tcb; [done|]. cbv zeta.
  destruct (notified a v (ulNotifiedValue c) (ucNotifyState c)) as [w xr].
  eapply wp_bind, wp_update_tcb; [done|]. eapply wp_bind, wp_update_tcb; [cbn; apply lookup_insert_eq|].
  pose proof (sinv_put_tcb2 _ _ _ _ _ (set_notify taskNOTIFICATION_RECEIVED) (set_value w) Hi Hc eq_refl eq_refl) as Hi2.
  set (s2 := put_tcb t _ (put_tcb t _ s)) in *.
  assert (tcbs s2 !! t = Some (set_value w (set_notify taskNOTIFICATION_RECEIVED c))) as Hc2 by (cbn; apply lookup_insert_eq).
  apply wp_bind. case_decide as Hw; [specialize (He Hw)|by apply wp_ret, wp_ret, HQ].
  destruct (b_current _ _ (i_base _ _ _ Hi2)) as (cur & cc & Hcur & Hcc).
  apply wp_assoc, wp_bind. eapply wp_make_ready; [apply Hi2|exact Hc2|congruence|]. intros s3 A3 Hb3 [p ->] Hm _ _.
  eapply wp_bind, wp_priority; [exact Hc2|]. eapply wp_bind, wp_current; [exact Hcur|]. eapply wp_bind, wp_priority; [exact Hcc|].
  destruct (Nat.ltb_spec (uxPriority cc) (uxPriority (set_value w (set_notify taskNOTIFICATION_RECEIVED c)))) as [Hlt|Hge].
  - apply wp_yield; [done|done|]. intros. apply wp_ret, HQ. by apply sinv_weaken.
  - apply wp_ret, wp_ret, HQ. by eapply (wake_sinv o s2 A t _ cur cc).
Qed.

(** The end of the calls that notify from an interrupt *)
Lemma wp_wake_flag o s A t c cur cc flag (Q : bool → sched → astate → Prop) : sinv o s A → tcbs s !! t = Some c →
  pxCurrentTCB s = Some cur → tcbs s !! cur = Some cc → cont A !! xEventListItem t = None →
  cont A !! xStateListItem t ≠ Some xTasksWaitingTermination → (∀ r s' A', sinv (o || r) s' A' → Q r s' A') →
  wp (suspended ← gets uxSchedulerSuspended;
     (if suspended =? 0 then _ ← uxListRemove (xStateListItem t); prvAddTaskToReadyList t
      else vListInsertEnd xPendingReadyList (xEventListItem t));;
     p ← priority t; c ← current; pc ← priority c;
     if (pc <? p)%nat then if flag : bool then mret true else modify (with_yield true);; mret false else mret false) Q s A.
Proof.
  intros Hi Hc Hcur Hcc He H8 HQ. apply wp_bind, wp_gets, wp_bind. eapply (wp_wake_or_pend o s A t c cur cc); [done..|].
  intros s2 A2 Hb2 Hf Hi2. eapply wp_bind, wp_priority; [by rewrite (f_tcbs _ _ Hf)|]. eapply wp_bind, wp_current; [by rewrite (f_current _ _ Hf)|].
  eapply wp_bind, wp_priority; [by rewrite (f_tcbs _ _ Hf)|]. destruct (Nat.ltb_spec (uxPriority cc) (uxPriority c)) as [Hlt|Hge]; [destruct flag|].
  - apply wp_ret, HQ. split; [done|]. by rewrite orb_true_r.
  - apply wp_bind, wp_modify, wp_ret, HQ. by apply sinv_yield.
  - apply wp_ret, HQ. rewrite orb_false_r. by apply Hi2.
Qed.

Lemma wp_notify_isr o s A t v a flag (Q : bool * Z * bool → sched → astate → Prop) : sinv o s A → is_Some (tcbs s !! t) →
  waits_unlisted s A t → waits_alive s A t →
   (∀ x y r s' A', sinv (o || r) s' A' → Q (x, y, r) s' A') → wp (xTaskGenericNotifyFromISR t v a flag) Q s A.
Proof.
  intros Hi [c Hc] He H8 HQ. specialize (He c Hc). specialize (H8 c Hc). unfold xTaskGenericNotifyFromISR. eapply wp_bind, wp_tcb; [done|]. cbv zeta.
  destruct (notified a v (ulNotifiedValue c) (ucNotifyState c)) as [w xr].
  eapply wp_bind, wp_update_tcb; [done|]. eapply wp_bind, wp_update_tcb; [cbn; apply lookup_insert_eq|].
  pose proof (sinv_put_tcb2 _ _ _ _ _ (set_notify taskNOTIFICATION_RECEIVED) (set_value w) Hi Hc eq_refl eq_refl) as Hi2.
  apply wp_bind. case_decide as Hw; [specialize (He Hw); specialize (H8 Hw)|apply wp_ret, wp_ret, HQ; by rewrite orb_false_r].
  destruct (b_current _ _ (i_base _ _ _ Hi2)) as (cur & cc & Hcur & Hcc).
  eapply (wp_wake_flag o _ A t _ cur cc flag); [exact Hi2|cbn; apply lookup_insert_eq|done|done|done|done|]. intros. by apply wp_ret, HQ.
Qed.

Lemma wp_give_isr o s A t flag (Q : bool → sched → astate → Prop) : sinv o s A → is_Some (tcbs s !! t) →
  waits_unlisted s A t → waits_alive s A t →
   (∀ r s' A', sinv (o || r) s' A' → Q r s' A') → wp (vTaskNotifyGiveFromISR t flag) Q s A.
Proof.
  intros Hi [c Hc] He H8 HQ. specialize (He c Hc). specialize (H8 c Hc). unfold vTaskNotifyGiveFromISR. eapply wp_bind, wp_tcb; [done|]. cbv zeta.
  eapply wp_bind, wp_update_tcb; [done|]. eapply wp_bind, wp_update_tcb; [cbn; apply lookup_insert_eq|].
  pose proof (sinv_put_tcb2 _ _ _ _ _ (set_notify taskNOTIFICATION_RECEIVED) (set_value (u32 (ulNotifiedValue c + 1))) Hi Hc eq_refl eq_refl) as Hi2.
  case_decide as Hw; [specialize (He Hw); specialize (H8 Hw)|apply wp_ret, HQ; by rewrite orb_false_r].
  destruct (b_current _ _ (i_base _ _ _ Hi2)) as (cur & cc & Hcur & Hcc).
  eapply (wp_wake_flag o _ A t _ cur cc flag); [exact Hi2|cbn; apply lookup_insert_eq|done|done|done|done|]. intros. by apply HQ.
Qed.

(** ** Blocking calls *)

Definition not_idle (s : sched) (t : nat) : Prop := xSchedulerRunning s = true ∧ xIdleTaskHandle s ≠ Some t.

Lemma bounded_moved t l A A' p : moved_to t l A A' → (l < 5 → l ≤ p)%nat → bounded A p → bounded A' p.
Proof.
  intros [Hs Ho] Hl Hb n m Hn Hm. destruct (decide (n = xStateListItem t)) as [-> |Hne].
  - rewrite Hs in Hn. simplify_eq. auto.
  - destruct (Ho n Hne) as [E|[_ E]]; [|congruence]. rewrite E in Hn. by eapply Hb.
Qed.

Lemma blocked_above l : blocked_list l → (5 ≤ l)%nat.
Proof. unfold blocked_list, xDelayedTaskList1, xDelayedTaskList2, xSuspendedTaskList. lia. Qed.

Lemma sinv_blocked o s A s' A' cur cc : sinv o s A → tcbs s !! cur = Some cc → not_idle s cur → blocked s A s' A' cur → sinv o s' A'.
Proof.
  intros Hi Hcc [Hr Hid] [Hk [v ->] (l & Hc & Hl) Hv Hls]. apply moved_insert in Hc. pose proof (blocked_above _ Hl). split.
  - eapply base_moved; [apply Hi|done|by split|exact Hcc|exact Hc| |done].
    intros m _. exists l. split; [done|by left].
  - cbn. intros Ho Hy u cu Hu Hcu. eapply bounded_moved; [exact Hc|lia|]. by eapply (i_bound _ _ _ Hi Ho Hy).
Qed.

Lemma wp_block o s A k inf cur cc (Q : unit → sched → astate → Prop) : sinv o s A → pxCurrentTCB s = Some cur → tcbs s !! cur = Some cc →
  not_idle s cur → 0 < k ≤ portMAX_DELAY →
  (∀ s' A', sinv o s' A' → blocked s A s' A' cur → (k ≠ portMAX_DELAY ∨ inf = false → remaining s' A' cur = Some k) → Q () s' A') →
  wp (prvAddCurrentTaskToDelayedList k inf) Q s A.
Proof.
  intros Hi Hcur Hcc Hid Hk HQ. eapply wp_add_delayed; [apply Hi|done|done|done|]. intros s' A' Hbl Hrem. apply HQ; [|done|done].
  by eapply sinv_blocked.
Qed.

(** The running task puts its event item into a list; it is about to block. *)
Lemma kinv_place s A A' l cur : kinv (xTickCount s + 1) ∅ s A → is_Some (tcbs s !! cur) → (10 ≤ l)%nat → inserted l (xEventListItem cur) A A' →
  kinv (xTickCount s + 1) ∅ s A'.
Proof. intros Hk Hc Hl H. eapply kinv_enter_event; [exact Hk|done|exact H|by right]. Qed.

Lemma wp_placed o s A A1 l k cur cc (Q : unit → sched → astate → Prop) : sinv o s A → pxCurrentTCB s = Some cur → tcbs s !! cur = Some cc →
  not_idle s cur → 0 < k ≤ portMAX_DELAY → (10 ≤ l)%nat → inserted l (xEventListItem cur) A A1 → (∀ s' A', sinv o s' A' → Q () s' A') →
  wp (prvAddCurrentTaskToDelayedList k true) Q s A1.
Proof.
  intros Hi Hcur Hcc Hid Hk Hl H HQ. pose proof (kinv_place _ _ _ _ _ (b_k _ _ (i_base _ _ _ Hi)) (ex_intro _ _ Hcc) Hl H) as Hk1.
  eapply wp_add_delayed; [exact Hk1|done|done|done|]. intros s' A' [Hk' [v ->] (m & Hm & Hml) _ _] _. apply moved_insert in Hm.
  pose proof (blocked_above _ Hml). apply HQ. destruct Hi as [[] Hbd]. destruct Hid as [Hr Hid]. destruct H as [_ Hc1 _ _ _].
  assert (∀ u, cont A1 !! xStateListItem u = cont A !! xStateListItem u) as Hst by (intros u; rewrite Hc1, lookup_insert_ne by (by intros ?%eq_sym%state_event); done).
  split; [split; try done; cbn -[Z.pow]|].
  - intros _. destruct (b_idle0 Hr) as (i & Hih & ci & Hci & Hcl). exists i. split; [done|]. exists ci. cbn. split; [done|].
    rewrite (moved_state _ _ _ _ _ Hm), Hst by (intros ->; done). done.
  - intros u n Hu. destruct (decide (u = cur)) as [-> |Hne]; [exists m; split; [apply Hm|by left]|].
    rewrite (moved_state _ _ _ _ _ Hm), Hst by done. destruct (moved_event _ _ _ _ u Hm) as [E|[? _]]; [|done].
    apply b_event0. rewrite E, Hc1, lookup_insert_ne in Hu by (by intros ?%event_inj). done.
  - intros Hs n Hn. destruct (pending_item _ _ _ _ Hk' Hn) as [E _]. rewrite E in Hn.
    destruct (moved_event _ _ _ _ (pvOwner_task n) Hm) as [E'|[_ E']]; [|congruence]. rewrite E', Hc1, lookup_insert in Hn.
    case_decide; [simplify_eq; unfold xPendingReadyList in Hl; lia|]. by apply b_pending0 in Hn.
  - cbn. intros Ho Hy u cu Hu Hcu. eapply bounded_moved; [exact Hm|lia|]. intros n q. rewrite Hc1.
    intros [[_ <-]|[_ Hn]]%lookup_insert_Some; [lia|]. by eapply (Hbd Ho Hy u cu).
Qed.

Lemma wp_place o s A l k cur cc (Q : unit → sched → astate → Prop) : sinv o s A → pxCurrentTCB s = Some cur → tcbs s !! cur = Some cc →
  not_idle s cur → 0 < k ≤ portMAX_DELAY → (10 ≤ l)%nat → is_Some (seqs A !! l) → cont A !! xEventListItem cur = None →
  (∀ s' A', sinv o s' A' → Q () s' A') → wp (vTaskPlaceOnEventList l k) Q s A.
Proof.
  intros Hi Hcur Hcc Hid Hk Hl Hls He HQ. pose proof (b_k _ _ (i_base _ _ _ Hi)) as Hkv. unfold vTaskPlaceOnEventList. eapply wp_bind, wp_current; [done|].
  apply wp_bind, wp_insert; [apply Hkv|done|apply (k_items _ _ _ _ Hkv); eauto|done|]. intros A1 H1 _. by eapply wp_placed.
Qed.

Lemma wp_place_unordered o s A l v k cur cc (Q : unit → sched → astate → Prop) : sinv o s A → pxCurrentTCB s = Some cur → tcbs s !! cur = Some cc →
  not_idle s cur → 0 < k ≤ portMAX_DELAY → 0 ≤ v ≤ portMAX_DELAY → (10 ≤ l)%nat → is_Some (seqs A !! l) → cont A !! xEventListItem cur = None →
  (∀ s' A', sinv o s' A' → Q () s' A') → wp (vTaskPlaceOnUnorderedEventList l v k) Q s A.
Proof.
  intros Hi Hcur Hcc Hid Hk Hv Hl Hls He HQ. unfold vTaskPlaceOnUnorderedEventList. eapply wp_bind, wp_current; [done|].
  apply wp_bind. eapply (wp_set_event o); [done|eauto|by apply lor_range|]. intros A1 Hi1 Hc1 Hsl. pose proof (b_k _ _ (i_base _ _ _ Hi1)) as Hkv.
  apply wp_bind, wp_insert_end; [apply Hkv|by apply Hsl|apply (k_items _ _ _ _ Hkv); eauto|by rewrite Hc1|]. intros A2 H2 _. by eapply wp_placed.
Qed.

Lemma wp_block_yield o s A k cur cc (Q : unit → sched → astate → Prop) : sinv o s A → pxCurrentTCB s = Some cur → tcbs s !! cur = Some cc →
  (0 < k → not_idle s cur) → k ≤ portMAX_DELAY → (∀ s' A', sinv o s' A' → Q () s' A') →
  wp (if 0 <? k then prvAddCurrentTaskToDelayedList k true;; portYIELD else mret ()) Q s A.
Proof.
  intros Hi Hcur Hcc Hid Hk HQ. destruct (0 <? k) eqn:E; zbool; [|by apply wp_ret, HQ]. apply wp_bind.
  eapply wp_block; [exact Hi|done|done|auto|lia|]. intros s1 A1 Hi1 [_ [v ->] _ _ _] _. apply wp_yield; [apply Hi1|by apply Hid|].
  intros. apply HQ. by apply sinv_weaken.
Qed.

Lemma wp_take_wait o s A k cur cc (Q : unit → sched → astate → Prop) : sinv o s A → pxCurrentTCB s = Some cur → tcbs s !! cur = Some cc →
  (0 < k → not_idle s cur) → k ≤ portMAX_DELAY → (∀ s' A', sinv o s' A' → Q () s' A') → wp (ulTaskNotifyTake_wait k) Q s A.
Proof.
  intros Hi Hcur Hcc Hid Hk HQ. unfold ulTaskNotifyTake_wait. eapply wp_bind, wp_current; [done|]. eapply wp_bind, wp_tcb; [done|].
  case_match; [|by apply wp_ret, HQ]. eapply wp_bind, wp_update_tcb; [done|].
  eapply wp_block_yield; [by eapply sinv_tcb|done|cbn; apply lookup_insert_eq|done|done|done].
Qed.

Lemma wp_notify_wait o s A b k cur cc (Q : unit → sched → astate → Prop) : sinv o s A → pxCurrentTCB s = Some cur → tcbs s !! cur = Some cc →
  (0 < k → not_idle s cur) → k ≤ portMAX_DELAY → (∀ s' A', sinv o s' A' → Q () s' A') → wp (xTaskNotifyWait_wait b k) Q s A.
Proof.
  intros Hi Hcur Hcc Hid Hk HQ. unfold xTaskNotifyWait_wait. eapply wp_bind, wp_current; [done|]. eapply wp_bind, wp_tcb; [done|].
  case_match; [|by apply wp_ret, HQ]. eapply wp_bind, wp_update_tcb; [done|]. eapply wp_bind, wp_update_tcb; [cbn; apply lookup_insert_eq|].
  eapply wp_block_yield; [by eapply sinv_put_tcb2|done|cbn; apply lookup_insert_eq|done|done|done].
Qed.

Lemma wp_take o s A b cur cc (Q : Z → sched → astate → Prop) : sinv o s A → pxCurrentTCB s = Some cur → tcbs s !! cur = Some cc →
  (∀ r s' A', sinv o s' A' → Q r s' A') → wp (ulTaskNotifyTake_take b) Q s A.
Proof.
  intros Hi Hcur Hcc HQ. unfold ulTaskNotifyTake_take. eapply wp_bind, wp_current; [done|]. eapply wp_bind, wp_tcb; [done|]. apply wp_bind.
  case_match.
  - eapply wp_update_tcb; [done|]. eapply wp_bind, wp_update_tcb; [cbn; apply lookup_insert_eq|]. apply wp_ret, HQ. by eapply sinv_put_tcb2.
  - eapply wp_ret, wp_bind, wp_update_tcb; [done|]. apply wp_ret, HQ. by eapply sinv_tcb.
Qed.

Lemma wp_notify_take o s A b cur cc (Q : Z * bool → sched → astate → Prop) : sinv o s A → pxCurrentTCB s = Some cur → tcbs s !! cur = Some cc →
  (∀ r s' A', sinv o s' A' → Q r s' A') → wp (xTaskNotifyWait_take b) Q s A.
Proof.
  intros Hi Hcur Hcc HQ. unfold xTaskNotifyWait_take. eapply wp_bind, wp_current; [done|]. eapply wp_bind, wp_tcb; [done|]. apply wp_bind.
  case_decide.
  - eapply wp_ret, wp_bind, wp_update_tcb; [done|]. apply wp_ret, HQ. by eapply sinv_tcb.
  - eapply wp_bind, wp_update_tcb; [done|]. eapply wp_ret, wp_bind, wp_update_tcb; [cbn; apply lookup_insert_eq|]. apply wp_ret, HQ. by eapply sinv_put_tcb2.
Qed.

Lemma wp_state_clear o s A h t (Q : bool → sched → astate → Prop) : sinv o s A → handle s h = Some t → is_Some (tcbs s !! t) →
  (∀ r s' A', sinv o s' A' → Q r s' A') → wp (xTaskNotifyStateClear h) Q s A.
Proof.
  intros Hi Hh [c Hc] HQ. unfold xTaskNotifyStateClear. eapply wp_bind, wp_handle; [done|]. eapply wp_bind, wp_tcb; [done|].
  case_decide; [|by apply wp_ret, HQ]. eapply wp_bind, wp_update_tcb; [done|]. apply wp_ret, HQ. by eapply sinv_tcb.
Qed.

(** ** Suspending the scheduler *)

Lemma sinv_suspended o s A n : sinv o s A → 0 < n < 2 ^ 32 → sinv o (with_suspended n s) A.
Proof. intros [Hb Hbd] Hn. split; [by apply base_suspended|done]. Qed.

Lemma wp_suspend_all s A (Q : unit → sched → astate → Prop) : base s A → uxSchedulerSuspended s + 1 < 2 ^ 32 →
  Q () (with_suspended (uxSchedulerSuspended s + 1) s) A → wp vTaskSuspendAll Q s A.
Proof.
  intros Hb Hs HQ. pose proof (b_suspended _ _ Hb). unfold vTaskSuspendAll. apply wp_bind, wp_gets, wp_modify. by rewrite u32_id by lia.
Qed.

Lemma wp_resume_sinv o s A (Q : bool → sched → astate → Prop) : sinv o s A → xSchedulerRunning s = true → 0 < uxSchedulerSuspended s →
  (∀ r s' A', sinv o s' A' → uxSchedulerSuspended s' = uxSchedulerSuspended s - 1 → xSchedulerRunning s' = true → tcbs s' = tcbs s → Q r s' A') →
  wp xTaskResumeAll Q s A.
Proof.
  intros Hi Hr Hs HQ. pose proof (b_suspended _ _ (i_base _ _ _ Hi)) as Hs2. eapply wp_resume_all; [apply Hi|done|done| |].
  - intros Hne. apply HQ; [apply sinv_suspended; [done|lia]|done|done|done].
  - intros H1 s1 A1 Hres. pose proof Hres as (_ & _ & Ht & _ & Hr1 & Hs1 & _). cbn in *. split.
    + intros _ s' A' Hi' _ _ (t & p & ->). apply HQ; [by apply sinv_weaken|cbn; lia|cbn; congruence|cbn; congruence].
    + intros Hy. apply HQ; [by eapply resumed_sinv|lia|cbn in *; congruence|cbn in *; congruence].
Qed.

(** Resuming, and a yield if none happened: the end of every blocking call made with the
    scheduler suspended *)
Lemma wp_resume_yield o s A (Q : unit → sched → astate → Prop) : sinv o s A → xSchedulerRunning s = true → 0 < uxSchedulerSuspended s →
  (∀ s' A', sinv o s' A' → Q () s' A') → wp (r ← xTaskResumeAll; if r : bool then mret () else portYIELD) Q s A.
Proof.
  intros Hi Hr Hs HQ. apply wp_bind. eapply wp_resume_sinv; [exact Hi|done|done|]. intros r s1 A1 Hi1 Hs1 Hr1 _.
  destruct r; [by apply wp_ret, HQ|]. apply wp_yield; [apply Hi1|done|]. intros. apply HQ. by apply sinv_weaken.
Qed.

Lemma wp_delay o s A k cur cc (Q : unit → sched → astate → Prop) : sinv o s A → pxCurrentTCB s = Some cur → tcbs s !! cur = Some cc →
  not_idle s cur → 0 ≤ k ≤ portMAX_DELAY → uxSchedulerSuspended s = 0 → (∀ s' A', sinv o s' A' → Q () s' A') → wp (vTaskDelay k) Q s A.
Proof.
  intros Hi Hcur Hcc Hid Hk Hs HQ. unfold vTaskDelay. destruct (0 <? k) eqn:E; zbool.
  - apply wp_bind, wp_bind, wp_suspend_all; [apply Hi|lia|]. rewrite Hs. cbn [Z.add].
    apply wp_bind. eapply wp_block; [apply sinv_suspended; [exact Hi|lia]|done|done|done|lia|].
    intros s1 A1 Hi1 [_ [v ->] _ _ _] _. eapply wp_unbind, wp_resume_yield; [exact Hi1|apply Hid|cbn; lia|done].
  - apply wp_bind, wp_ret, wp_yield; [apply Hi|apply Hid|]. intros. apply HQ. by apply sinv_weaken.
Qed.

(** The test of vTaskDelayUntil: the wake time has not been reached yet, whatever
    wrapped. *)
Lemma should_delay_spec P N k : 0 ≤ P < 2 ^ 32 → 0 ≤ N < 2 ^ 32 → 0 ≤ k < 2 ^ 32 →
  should_delay P (u32 (P + k)) N = (u32 (N - P) <? k) ∧ (u32 (N - P) < k → u32 (u32 (P + k) - N) = k - u32 (N - P)).
Proof.
  unfold should_delay, uwrap. change (2 ^ 32) with 4294967296. intros HP HN Hk.
  assert ((P + k) mod 4294967296 = P + k ∧ P + k < 4294967296 ∨ (P + k) mod 4294967296 = P + k - 4294967296 ∧ 4294967296 ≤ P + k) as Hw
    by (Z.to_euclidean_division_equations; lia).
  assert ((N - P) mod 4294967296 = N - P ∧ P ≤ N ∨ (N - P) mod 4294967296 = N - P + 4294967296 ∧ N < P) as He
    by (Z.to_euclidean_division_equations; lia).
  generalize dependent ((P + k) mod 4294967296). intros w Hw. generalize dependent ((N - P) mod 4294967296). intros e He. split.
  - apply eq_true_iff_eq. rewrite Z.ltb_lt. destruct (N <? P) eqn:E; zbool; rewrite ?andb_true_iff, ?orb_true_iff, !Z.ltb_lt; lia.
  - intros Hlt. replace (w - N) with (k - e + (if decide (0 ≤ w - N) then 0 else -1) * 4294967296) by (case_decide; lia).
    rewrite Z.mod_add by lia. apply Z.mod_small. lia.
Qed.

Lemma wp_delay_until o s A P k cur cc (Q : Z → sched → astate → Prop) : sinv o s A → pxCurrentTCB s = Some cur → tcbs s !! cur = Some cc →
  not_idle s cur → 0 ≤ P < 2 ^ 32 → 0 < k < 2 ^ 32 → uxSchedulerSuspended s = 0 → (∀ r s' A', sinv o s' A' → Q r s' A') →
  wp (vTaskDelayUntil P k) Q s A.
Proof.
  intros Hi Hcur Hcc Hid HP Hk Hs HQ. pose proof (k_tick _ _ _ _ (b_k _ _ (i_base _ _ _ Hi))) as Ht.
  destruct (should_delay_spec P (xTickCount s) k) as [E1 E2]; [done|done|lia|]. unfold vTaskDelayUntil.
  apply wp_bind, wp_suspend_all; [apply Hi|lia|]. rewrite Hs. cbn [Z.add]. apply wp_bind, wp_gets. cbv zeta. cbn -[Z.pow].
  pose proof (sinv_suspended o s A 1 Hi ltac:(lia)) as Hi1. apply wp_bind.
  assert (∀ s1 A1, sinv o s1 A1 → xSchedulerRunning s1 = true → 0 < uxSchedulerSuspended s1 →
    wp (xAlreadyYielded ← xTaskResumeAll; (if xAlreadyYielded : bool then mret () else portYIELD);; mret (u32 (P + k))) Q s1 A1) as Hend.
  { intros s1 A1 Hi2 Hr Hs1. apply wp_assoc, wp_bind. eapply wp_resume_yield; [exact Hi2|done|done|]. intros. by apply wp_ret, HQ. }
  rewrite E1. destruct (u32 (xTickCount s - P) <? k) eqn:E; zbool; [|apply wp_ret, Hend; [done|apply Hid|cbn; lia]].
  rewrite E2 by done. pose proof (Z.mod_pos_bound (xTickCount s - P) (2 ^ 32)). unfold uwrap in *.
  eapply wp_block; [exact Hi1|done|done|done|unfold portMAX_DELAY; lia|]. intros s1 A1 Hi2 [_ [v ->] _ _ _] _. apply Hend; [done|apply Hid|cbn; lia].
Qed.

(** ** Priorities *)

Lemma clamp_range p : 0 ≤ p → (clamp p < 5)%nat.
Proof. intros Hp. unfold clamp, configMAX_PRIORITIES. case_match; zbool; lia. Qed.

Lemma event_value_range p : 0 ≤ event_value p ≤ portMAX_DELAY.
Proof. unfold event_value, portMAX_DELAY. pose proof (Z.mod_pos_bound (Z.of_nat configMAX_PRIORITIES - Z.of_nat p) (2 ^ 32)). unfold uwrap. lia. Qed.

(** A task with a new priority, in the ready list for it or waiting *)
Lemma base_priority s A A' t c p q : base s A → tcbs s !! t = Some c →
  kinv (xTickCount s + 1) ∅ (with_top q (put_tcb t (set_priority p c) s)) A' →
  (∃ l, cont A !! xStateListItem t = Some l ∧ parked l) ∧ cont A' = cont A ∨ ready s A t ∧ moved_to t p A A' →
  base (with_top q (put_tcb t (set_priority p c) s)) A'.
Proof.
  intros [] Hc Hk Hor.
  assert (∀ u, ready s A u → ready (with_top q (put_tcb t (set_priority p c) s)) A' u) as Hrd.
  { intros u (cu & Hcu & Hl). unfold ready. cbn. destruct (decide (u = t)) as [-> |Hne].
    - exists (set_priority p c). rewrite lookup_insert_eq. split; [done|]. destruct Hor as [[(l & Hl' & Hpk) _]|[_ [? _]]]; [|done].
      simplify_eq. pose proof (k_prio _ _ _ _ b_k0 _ _ Hc).
      unfold parked, xDelayedTaskList1, xDelayedTaskList2, xTasksWaitingTermination, xSuspendedTaskList in Hpk. lia.
    - exists cu. rewrite lookup_insert_ne by done. split; [done|]. destruct Hor as [[_ ->]|[_ Hm]]; [done|]. by rewrite (moved_state _ _ _ _ _ Hm). }
  assert (∀ u, cont A' !! xEventListItem u = cont A !! xEventListItem u ∨ cont A' !! xEventListItem u = None) as Hev.
  { intros u. destruct Hor as [[_ ->]|[_ Hm]]; [by left|]. destruct (moved_event _ _ _ _ u Hm) as [|[_ ?]]; auto. }
  split; cbn -[Z.pow]; try done.
  - destruct b_current0 as (u & cu & ? & ?). exists u. destruct (decide (u = t)) as [-> |]; [eexists; by rewrite lookup_insert_eq|exists cu; by rewrite lookup_insert_ne].
  - intros Hr. destruct (b_idle0 Hr) as (i & ? & ?). eauto.
  - intros u l Hu. destruct (Hev u) as [E|E]; rewrite E in Hu; [|done]. pose proof (b_event0 u l Hu) as Hok.
    destruct Hor as [[_ ->]|[(c' & Hc' & Hl') Hmv]]; [done|]. destruct (decide (u = t)) as [-> |Hne]; [|by rewrite (moved_state _ _ _ _ _ Hmv)].
    simplify_eq. pose proof (k_prio _ _ _ _ b_k0 _ _ Hc). destruct Hok as (m & Hm & Hbl). exists p. split; [apply Hmv|]. right. simplify_eq.
    pose proof (k_prio _ _ _ _ Hk t (set_priority p c) (lookup_insert_eq _ _ _)) as Hp5. cbn in Hp5.
    destruct Hbl as [Hbl|[? _]]; [pose proof (blocked_above _ Hbl); lia|]. split; [done|unfold xTasksWaitingTermination; lia].
  - intros Hs n Hn. destruct (pending_item _ _ _ _ Hk Hn) as [E _]. rewrite E in Hn.
    destruct (Hev (pvOwner_task n)) as [E'|E']; rewrite E' in Hn; [|done]. by apply b_pending0 in Hn.
  - by rewrite map_size_insert_Some by eauto.
Qed.

(** A list operation does the same whatever the variables of the scheduler are. *)
Lemma wp_set_frame n v P s s' A (Q : unit → sched → astate → Prop) : wp (listSET_LIST_ITEM_VALUE n v) (λ _ _ A', P A') s A →
  (∀ A', P A' → Q () s' A') → wp (listSET_LIST_ITEM_VALUE n v) Q s' A.
Proof.
  unfold wp, listSET_LIST_ITEM_VALUE, mbind, kcall_bind, list_call. intros (x & s1 & A1 & E & HP) HQ.
  destruct (list_step (OSetValue n v) A) as [[r A2]|]; [|done]. injection E as <- <- <-. exists (), s', A2. auto.
Qed.

Lemma bounded_le A p q : bounded A p → (p ≤ q)%nat → bounded A q.
Proof. intros Hb Hle n l Hn Hl. specialize (Hb n l Hn Hl). lia. Qed.

(** Moving a task to the ready list of its new priority, when it is ready *)
Lemma wp_reinsert o s A t c new (Q : unit → sched → astate → Prop) : sinv o s A → tcbs s !! t = Some c → (new < 5)%nat →
  (∀ q A', base (with_top q (put_tcb t (set_priority new c) s)) A' → (cont A' = cont A ∨ ready s A t ∧ moved_to t new A A') →
    Q () (with_top q (put_tcb t (set_priority new c) s)) A') →
  wp (l ← listLIST_ITEM_CONTAINER (xStateListItem t);
      if decide (l = Some (pxReadyTasksLists (uxPriority c)))
      then _ ← uxListRemove (xStateListItem t); prvAddTaskToReadyList t else mret ()) Q (put_tcb t (set_priority new c) s) A.
Proof.
  intros Hi Hc Hn HQ. pose proof (i_base _ _ _ Hi) as Hb. pose proof (b_k _ _ Hb) as Hk. set (s' := put_tcb t _ s) in *.
  assert (tcbs s' !! t = Some (set_priority new c)) as Hc' by (cbn; apply lookup_insert_eq).
  destruct (k_state _ _ _ _ Hk _ _ Hc) as (l & Hl & Hor); [apply not_elem_of_empty|].
  apply wp_bind, wp_container; [apply (k_items _ _ _ _ Hk); eauto|]. rewrite Hl. case_decide as E; simplify_eq.
  - eapply wp_bind, wp_remove; [apply Hk|done|]. intros A1 H1.
    assert (kinv (xTickCount s + 1) ({[t]} ∪ ∅) s' A1) as Hk1.
    { eapply kinv_tcb; [eapply kinv_leave; [exact Hk|eauto|exact H1]|exact Hc|done|left; apply task_in_hand]. }
    eapply wp_add_ready; [exact Hk1|apply task_in_hand|exact Hc'|]. intros A2 s2 Hk2 H2. rewrite from_hand in Hk2.
    assert (moved_to t new A A2) as Hm by (apply moved_insert; by rewrite (in_cont _ _ _ _ H2), (rm_cont _ _ _ H1)).
    assert (ready s A t) as Hrd by (by exists c). apply HQ; [|by right]. apply base_priority with A; [done|done|exact Hk2|by right].
  - assert (parked l) as Hpk by (destruct Hor as [?|?]; [|done]; unfold pxReadyTasksLists in *; congruence).
    apply wp_ret. rewrite <- (with_top_id s'). apply HQ; [|by left]. apply base_priority with A; [done|done| |left; eauto].
    eapply kinv_ext; [apply (kinv_tcb (xTickCount s + 1) ∅ s A t c (set_priority new c)); [exact Hk|exact Hc|exact Hn|right; right; eauto]|done..].
Qed.

Lemma wp_priority_set o s A h t p (Q : unit → sched → astate → Prop) : sinv o s A → xSchedulerRunning s = true → handle s h = Some t →
  is_Some (tcbs s !! t) → 0 ≤ p → (∀ s' A', sinv o s' A' → Q () s' A') → wp (vTaskPrioritySet h p) Q s A.
Proof.
  intros Hi Hr Hh [c Hc] Hp HQ. pose proof (i_base _ _ _ Hi) as Hb. pose proof (b_k _ _ Hb) as Hk. destruct (b_current _ _ Hb) as (cur & cc & Hcur & Hcc).
  unfold vTaskPrioritySet. cbv zeta. eapply wp_bind, wp_handle; [done|]. eapply wp_bind, wp_priority; [done|].
  pose proof (clamp_range p Hp) as Hnew. set (new := clamp p) in *. destruct (Nat.eqb_spec (uxPriority c) new) as [|Hne]; [by apply wp_ret, HQ|].
  eapply wp_bind, wp_current; [done|]. eapply wp_bind, wp_priority; [done|]. eapply wp_bind, wp_update_tcb; [done|]. set (s' := put_tcb t _ s).
  apply wp_bind, wp_get_item; [apply (k_items _ _ _ _ Hk); eauto|]. apply wp_bind.
  set (yield := if (uxPriority c <? new)%nat then _ else _).
  assert (∀ A1, sinv o s A1 → wp (l ← listLIST_ITEM_CONTAINER (xStateListItem t);
    (if decide (l = Some (pxReadyTasksLists (uxPriority c))) then _ ← uxListRemove (xStateListItem t); prvAddTaskToReadyList t else mret ());;
    if yield : bool then portYIELD else mret ()) Q s' A1) as Hrest.
  { intros A1 Hi1. apply wp_assoc, wp_bind. eapply wp_reinsert; [exact Hi1|done|done|]. intros q A2 Hb2 Hor.
    destruct yield eqn:Ey; [apply wp_yield; [done|done|intros; apply HQ; by apply sinv_weaken]|].
    apply wp_ret, HQ. split; [done|]. cbn. intros Ho Hy u cu Hu Hcu. assert (u = cur) as -> by congruence.
    pose proof (i_bound _ _ _ Hi1 Ho Hy _ _ Hcur Hcc) as Hbd. subst yield.
    assert (∀ q, bounded A1 q → (ready s A1 t → new ≤ q)%nat → bounded A2 q) as Hmv.
    { intros q' Hq' Hle. destruct Hor as [E|[Hrd Hm]]; [by eapply bounded_same|]. eapply bounded_moved; [exact Hm|intros _; by apply Hle|done]. }
    apply lookup_insert_Some in Hcu as [[<- <-]|[Hne' Hcu]].
    - simplify_eq. rewrite Nat.eqb_refl in Ey. cbn. apply Hmv; [|lia]. eapply bounded_le; [exact Hbd|].
      destruct (Nat.ltb_spec (uxPriority c) new); [lia|done].
    - simplify_eq. apply Nat.eqb_neq in Hne'. rewrite Hne' in Ey. apply Hmv; [done|]. intros (c' & Hc' & Hl'). simplify_eq.
      destruct (Nat.ltb_spec (uxPriority c) new) as [Hlt|Hge]; cbn in Ey; [apply Nat.leb_gt in Ey; lia|].
      pose proof (Hbd _ _ Hl' (k_prio _ _ _ _ Hk _ _ Hc)). lia. }
  destruct (Z.land _ _ =? 0); [|by apply wp_ret, Hrest]. eapply (wp_set_frame _ _ (λ A1, sinv o s A1)); [|done].
  eapply (wp_set_event o s A t); [done|eauto|apply event_value_range|done].
Qed.

(** ** Suspending tasks *)

Lemma wp_suspend o s A h t (Q : unit → sched → astate → Prop) : sinv o s A → handle s h = Some t → is_Some (tcbs s !! t) → not_idle s t →
  (∀ s' A', sinv o s' A' → Q () s' A') → wp (vTaskSuspend h) Q s A.
Proof.
  intros Hi Hh [c Hc] [Hr Hid] HQ. pose proof (b_k _ _ (i_base _ _ _ Hi)) as Hk. unfold vTaskSuspend. eapply wp_bind, wp_handle; [done|].
  eapply wp_bind, wp_leave_state; [exact Hk|done|apply not_elem_of_empty|]. intros k A1 Hk1 H1.
  eapply wp_bind, wp_leave_event; [exact Hk1|eauto|]. intros A2 Hk2 H2.
  assert (cont A2 !! xStateListItem t = None) as Hfree.
  { rewrite (rm_cont _ _ _ H2), lookup_delete_ne, (rm_cont _ _ _ H1), lookup_delete_eq by (intros E; by destruct (state_event t t)). done. }
  apply wp_bind, wp_insert_end; [apply Hk2|apply Hk2; unfold xSuspendedTaskList; lia|apply (k_items _ _ _ _ Hk2); eauto|done|]. intros A3 H3 _.
  assert (kinv (xTickCount s + 1) ∅ s A3) as Hk3.
  { rewrite <- (from_hand t). destruct (delayed_ids _ _ _ _ Hk) as (Hd & Ho & _).
    eapply kinv_enter; [exact Hk2|apply task_in_hand|exact Hc|exact H3|..]; unfold parked, xSuspendedTaskList, xDelayedTaskList1, xDelayedTaskList2; [tauto|lia|lia|lia]. }
  assert (moved_to t xSuspendedTaskList A A3) as Hm.
  { apply moved_insert_event. by rewrite (in_cont _ _ _ _ H3), (rm_cont _ _ _ H2), (rm_cont _ _ _ H1). }
  apply wp_bind, wp_gets. rewrite Hr. eapply wp_bind, wp_reset_unblock; [exact Hk3|]. intros v Hk4.
  assert (base (with_unblock v s) A3) as Hb4.
  { eapply base_moved; [apply Hi|exact Hk4|by split|exact Hc|exact Hm| |intros _ ?; by destruct Hid].
    intros m _. eexists. split; [done|]. left. by right; right. }
  apply wp_bind, wp_gets. case_decide as Ec.
  - apply wp_yield; [done|done|]. intros. apply HQ. by apply sinv_weaken.
  - apply wp_ret, HQ. split; [done|]. cbn. intros Ho Hy u cu Hu Hcu. eapply bounded_moved; [exact Hm|unfold xSuspendedTaskList; lia|].
    by eapply (i_bound _ _ _ Hi Ho Hy).
Qed.

(** ** Deleting tasks *)

Definition without (n : nat) (A : astate) : astate := Abs (seqs A) (cont A) (delete n (vals A)).

Lemma wp_destroy s A n (Q : result → sched → astate → Prop) : is_Some (vals A !! n) → cont A !! n = None →
  Q RNone s (without n A) → wp (list_call (ODestroy n)) Q s A.
Proof.
  intros [v Hv] Hn HQ. eapply wp_list; [|exact HQ]. cbn [astep]. rewrite Hv. cbn [mbind option_bind]. unfold free.
  by rewrite bool_decide_eq_true_2 by done.
Qed.

Lemma wf_without A n : wf A → cont A !! n = None → wf (without n A).
Proof.
  intros [] Hn. split; cbn; try done.
  - intros k l Hk. rewrite lookup_delete_ne by congruence. eauto.
  - intros k v [_ Hk]%lookup_delete_Some. eauto.
Qed.

Lemma val_without A n k l : cont A !! n = None → cont A !! k = Some l → val (without n A) k = val A k.
Proof. intros Hn Hk. unfold val. cbn. by rewrite lookup_delete_ne by congruence. Qed.

Lemma sorted_ext A A' xs : (∀ x, x ∈ xs → val A' x = val A x) → Sorted.StronglySorted (by_value A) xs → Sorted.StronglySorted (by_value A') xs.
Proof.
  intros Hval Hs. induction Hs as [|x xs Hs IH Hx]; constructor.
  - apply IH. intros y Hy. apply Hval, elem_of_cons. by right.
  - rewrite Forall_forall in *. intros y Hy. unfold by_value. rewrite !Hval by (apply elem_of_cons; auto). by apply Hx.
Qed.

(** The storage of a task that is in no list is given back. *)
Lemma kinv_delete lo s A t : kinv lo ({[t]} ∪ ∅) s A → cont A !! xEventListItem t = None →
  kinv lo ∅ (with_tcbs (delete t (tcbs s)) s) (without (xEventListItem t) (without (xStateListItem t) A)).
Proof.
  intros Hk He. destruct (k_out _ _ _ _ Hk t (task_in_hand t)) as [Hs _]. pose proof (k_wf _ _ _ _ Hk) as Hw.
  assert (∀ n l, cont A !! n = Some l → pvOwner_task n ≠ t) as Hown.
  { intros n l Hn E. destruct (item_cases n) as [En|En]; rewrite E in En; congruence. }
  assert (∀ n l, cont A !! n = Some l → val (without (xEventListItem t) (without (xStateListItem t) A)) n = val A n) as Hval.
  { intros n l Hn. by rewrite (val_without _ _ _ l), (val_without _ _ _ l). }
  destruct Hk. split; cbn -[Z.pow]; try done.
  - by apply wf_without; [apply wf_without|].
  - intros u c [_ Hu]%lookup_delete_Some. eauto.
  - intros u [c [Hne Hu]%lookup_delete_Some]. destruct (k_items0 u) as [Hi1 Hi2]; [eauto|].
    pose proof (state_event t u). pose proof (state_event u t).
    rewrite !lookup_delete_ne; [done|..]; try done; try (intros E; apply state_inj in E; done); try (intros E; apply event_inj in E; done).
  - intros n l Hn. rewrite lookup_delete_ne by (intros E; by eapply Hown). eauto.
  - intros u c [Hne Hu]%lookup_delete_Some _. apply k_state0; [done|]. set_solver.
  - intros n Hn. rewrite (Hval _ _ Hn). auto.
  - intros n Hn. rewrite (Hval _ _ Hn). auto.
  - intros l Hl. eapply sorted_ext; [|by apply k_sorted0]. intros x Hx. apply (items_cont _ _ _ Hw) in Hx. by eapply Hval.
Qed.

Lemma wp_delete_tcb lo s A t (Q : unit → sched → astate → Prop) : kinv lo ({[t]} ∪ ∅) s A → cont A !! xEventListItem t = None →
  (let A' := without (xEventListItem t) (without (xStateListItem t) A) in
   kinv lo ∅ (with_tcbs (delete t (tcbs s)) s) A' → Q () (with_tcbs (delete t (tcbs s)) s) A') → wp (prvDeleteTCB t) Q s A.
Proof.
  intros Hk He HQ. destruct (k_out _ _ _ _ Hk t (task_in_hand t)) as [Hs Ht]. destruct (k_items _ _ _ _ Hk t Ht) as [Hv1 Hv2].
  unfold prvDeleteTCB. apply wp_bind, wp_destroy; [done|done|]. apply wp_bind, wp_destroy; [|done|].
  { cbn. rewrite lookup_delete_ne; [done|]. intros E. by destruct (state_event t t). }
  apply wp_modify, HQ. by apply kinv_delete.
Qed.

(** The invariant without a task that is neither idle nor running *)
Lemma base_deleted s A s' A' t : base s A → kinv (xTickCount s' + 1) ∅ s' A' → is_Some (tcbs s !! t) → pxCurrentTCB s ≠ Some t →
  not_idle s t → (∀ n, n ≠ xStateListItem t → n ≠ xEventListItem t → cont A' !! n = cont A !! n) →
  cont A' !! xEventListItem t = None →
  tcbs s' = delete t (tcbs s) → pxCurrentTCB s' = pxCurrentTCB s → xIdleTaskHandle s' = xIdleTaskHandle s →
  xSchedulerRunning s' = xSchedulerRunning s → uxSchedulerSuspended s' = uxSchedulerSuspended s → uxPendedTicks s' = uxPendedTicks s →
  uxCurrentNumberOfTasks s' = uxCurrentNumberOfTasks s - 1 → base s' A'.
Proof.
  intros [] Hk Ht Hnc [_ Hid] Hc Hce F1 F2 F3 F4 F5 F6 F7.
  assert (∀ u, u ≠ t → cont A' !! xStateListItem u = cont A !! xStateListItem u ∧ cont A' !! xEventListItem u = cont A !! xEventListItem u) as Hu.
  { intros u Hu. pose proof (state_event t u). pose proof (state_event u t). split; apply Hc; try done; try (intros E; apply state_inj in E; done); intros E; apply event_inj in E; done. }
  split; rewrite ?F1, ?F2, ?F3, ?F4, ?F5, ?F6, ?F7; try done.
  - destruct b_current0 as (u & cu & Hcu & ?). exists u, cu. rewrite lookup_delete_ne by congruence. done.
  - intros Hr. destruct (b_idle0 Hr) as (i & Hih & ci & Hci & Hcl). exists i. split; [done|]. exists ci.
    assert (i ≠ t) as Hit by congruence. rewrite F1, lookup_delete_ne by done. by rewrite (proj1 (Hu i Hit)).
  - intros u l He. destruct (decide (u = t)) as [-> |Hne]; [congruence|]. destruct (Hu u Hne) as [-> Ee]. apply b_event0. congruence.
  - intros Hs n Hn. destruct (pending_item _ _ _ _ Hk Hn) as [E _]. rewrite E in Hn.
    destruct (decide (pvOwner_task n = t)) as [Eo|Hne]; [rewrite Eo in Hn; congruence|]. rewrite (proj2 (Hu _ Hne)) in Hn. by apply b_pending0 in Hn.
  - destruct Ht as [c Hc']. rewrite map_size_delete, Hc'. assert (size (tcbs s) ≠ 0%nat) by (intros E%map_size_empty_inv; by rewrite E in Hc'). lia.
Qed.

Lemma number_pos s A : base s A → 0 < uxCurrentNumberOfTasks s.
Proof.
  intros []. destruct b_number0 as [-> _]. destruct b_current0 as (t & c & _ & Hc).
  destruct (decide (size (tcbs s) = 0%nat)) as [E|]; [|lia]. apply map_size_empty_inv in E. by rewrite E in Hc.
Qed.

Lemma wp_delete o s A h t (Q : unit → sched → astate → Prop) : sinv o s A → handle s h = Some t → is_Some (tcbs s !! t) → not_idle s t →
  (∀ s' A', sinv o s' A' → Q () s' A') → wp (vTaskDelete h) Q s A.
Proof.
  intros Hi Hh [c Hc] Hid HQ. pose proof (i_base _ _ _ Hi) as Hb. pose proof (b_k _ _ Hb) as Hk. pose proof (state_event t t) as Hse.
  unfold vTaskDelete. eapply wp_bind, wp_handle; [done|].
  eapply wp_bind, wp_leave_state; [exact Hk|done|apply not_elem_of_empty|]. intros k A1 Hk1 H1.
  eapply wp_bind, wp_leave_event; [exact Hk1|eauto|]. intros A2 Hk2 H2.
  assert (cont A2 !! xStateListItem t = None) as Hfree by (by rewrite (rm_cont _ _ _ H2), lookup_delete_ne, (rm_cont _ _ _ H1), lookup_delete_eq).
  assert (cont A2 !! xEventListItem t = None) as Hfree2 by (by rewrite (rm_cont _ _ _ H2), lookup_delete_eq).
  apply wp_bind, wp_gets, wp_bind, wp_modify, wp_bind, wp_gets, wp_bind. cbn. case_decide as Ec.
  - (* The running task deletes itself. *)
    apply wp_bind, wp_insert_end; [apply Hk2|apply Hk2; unfold xTasksWaitingTermination; lia|apply (k_items _ _ _ _ Hk2); eauto|done|]. intros A3 H3 _.
    apply wp_bind, wp_gets, wp_modify, wp_bind, wp_gets. cbn. rewrite (proj1 Hid), bool_decide_eq_true_2 by done. cbn [andb].
    assert (kinv (xTickCount s + 1) ∅ s A3) as Hk3.
    { rewrite <- (from_hand t). destruct (delayed_ids _ _ _ _ Hk) as (Hd & Ho & _).
      eapply kinv_enter; [exact Hk2|apply task_in_hand|exact Hc|exact H3|..]; unfold parked, xTasksWaitingTermination, xDelayedTaskList1, xDelayedTaskList2; [tauto|lia|lia|lia]. }
    assert (moved_to t xTasksWaitingTermination A A3) as Hm.
    { apply moved_insert_event. by rewrite (in_cont _ _ _ _ H3), (rm_cont _ _ _ H2), (rm_cont _ _ _ H1). }
    apply wp_yield; [|apply Hid|intros; apply HQ; by apply sinv_weaken].
    eapply base_moved; [exact Hb|by eapply kinv_ext|by split|exact Hc|exact Hm| |intros _ ?; by destruct (proj2 Hid)].
    intros m. rewrite (in_cont _ _ _ _ H3), lookup_insert_ne, Hfree2 by done. done.
  - pose proof (number_pos _ _ Hb) as Hpos. destruct (b_number _ _ Hb) as [_ Hn].
    apply wp_bind, wp_gets, wp_bind, wp_modify, wp_bind. cbn -[Z.pow]. rewrite u32_id by lia.
    eapply (wp_delete_tcb (xTickCount s + 1)); [by eapply kinv_ext|done|]. cbn -[Z.pow without]. intros Hk3.
    eapply wp_reset_unblock; [exact Hk3|]. intros v Hk4. apply wp_bind, wp_gets. rewrite bool_decide_eq_false_2, andb_false_r by done.
    apply wp_ret, HQ. split.
    + eapply (base_deleted s A _ _ t); [done|exact Hk4|eauto|done|done| |done|done..].
      intros n Hn1 Hn2. cbn. by rewrite (rm_cont _ _ _ H2), (rm_cont _ _ _ H1), !lookup_delete_ne by done.
    + cbn. intros Ho Hy u cu Hu [_ Hcu]%lookup_delete_Some n l. cbn. rewrite (rm_cont _ _ _ H2), (rm_cont _ _ _ H1).
      intros [_ [_ Hn']%lookup_delete_Some]%lookup_delete_Some. by eapply (i_bound _ _ _ Hi Ho Hy).
Qed.

Lemma wp_reap_check o s A (Q : bool → sched → astate → Prop) : sinv o s A → xSchedulerRunning s = true → uxSchedulerSuspended s + 1 < 2 ^ 32 →
  (∀ r s' A', sinv o s' A' → Q r s' A') → wp reap_check Q s A.
Proof.
  intros Hi Hr Hs HQ. pose proof (b_suspended _ _ (i_base _ _ _ Hi)). unfold reap_check. apply wp_bind, wp_suspend_all; [apply Hi|done|].
  apply wp_bind, wp_empty; [apply (b_k _ _ (i_base _ _ _ Hi)); unfold xTasksWaitingTermination; lia|].
  apply wp_bind. eapply wp_resume_sinv; [apply sinv_suspended; [exact Hi|lia]|done|cbn; lia|]. intros. by apply wp_ret, HQ.
Qed.

Lemma termination_item lo s A n : kinv lo ∅ s A → cont A !! n = Some xTasksWaitingTermination →
  n = xStateListItem (pvOwner_task n) ∧ is_Some (tcbs s !! pvOwner_task n).
Proof.
  intros Hk Hn. destruct (state_item _ _ _ _ _ _ Hk Hn) as [E (c & Hc & _)]; [unfold xTasksWaitingTermination; lia|done|]. eauto.
Qed.

(** The idle task cleans up. *)
Lemma wp_reap_take o s A (Q : unit → sched → astate → Prop) : sinv o s A → xSchedulerRunning s = true → pxCurrentTCB s = xIdleTaskHandle s →
  items A xTasksWaitingTermination ≠ [] → (∀ s' A', sinv o s' A' → Q () s' A') → wp reap_take Q s A.
Proof.
  intros Hi Hr Hci Hne HQ. pose proof (i_base _ _ _ Hi) as Hb. pose proof (b_k _ _ Hb) as Hk.
  destruct (items A xTasksWaitingTermination) as [|x xs] eqn:Ex; [done|].
  assert (cont A !! x = Some xTasksWaitingTermination) as Hx by (apply (items_cont _ _ _ (k_wf _ _ _ _ Hk)); rewrite Ex; apply elem_of_cons; by left).
  destruct (termination_item _ _ _ _ Hk Hx) as [E [c Hc]]. unfold reap_take. eapply wp_bind, wp_head; [done|]. rewrite E in Hx. set (t := pvOwner_task x) in *.
  assert (not_idle s t) as Hid.
  { split; [done|]. intros Hit. destruct (b_idle _ _ Hb Hr) as (i & Hi1 & ci & Hcic & Hcl). assert (i = t) as -> by congruence.
    pose proof (k_prio _ _ _ _ Hk _ _ Hcic).
    rewrite Hcl in Hx. injection Hx as ?. unfold xTasksWaitingTermination in *. lia. }
  assert (cont A !! xEventListItem t = None) as He.
  { destruct (cont A !! xEventListItem t) as [l|] eqn:El; [|done]. destruct (b_event _ _ Hb _ _ El) as (m & Em & Hm). rewrite Hx in Em. simplify_eq.
    unfold blocked_list, xDelayedTaskList1, xDelayedTaskList2, xSuspendedTaskList, xTasksWaitingTermination in Hm. lia. }
  eapply wp_bind, wp_leave_state; [exact Hk|done|apply not_elem_of_empty|]. intros k A1 Hk1 H1. pose proof (state_event t t) as Hse.
  pose proof (number_pos _ _ Hb). destruct (b_number _ _ Hb) as [_ Hn].
  apply wp_bind, wp_gets, wp_bind, wp_modify, wp_bind, wp_gets, wp_bind, wp_modify. cbn -[Z.pow]. rewrite (u32_id (uxCurrentNumberOfTasks s - 1)) by lia.
  assert (cont A1 !! xEventListItem t = None) as He1 by (by rewrite (rm_cont _ _ _ H1), lookup_delete_ne).
  eapply (wp_delete_tcb (xTickCount s + 1)); [by eapply kinv_ext|done|]. cbn -[Z.pow without]. intros Hk2. apply HQ. split.
  - eapply (base_deleted s A _ _ t); [done|exact Hk2|eauto|rewrite Hci; apply Hid|done| |done|done..].
    intros n Hn1 Hn2. cbn. by rewrite (rm_cont _ _ _ H1), lookup_delete_ne by done.
  - cbn. intros Ho Hy u cu Hu [_ Hcu]%lookup_delete_Some n l. cbn. rewrite (rm_cont _ _ _ H1).
    intros [_ Hn']%lookup_delete_Some. by eapply (i_bound _ _ _ Hi Ho Hy).
Qed.

(** ** Creating tasks *)

(** Before the first task: only lists outside the scheduler may exist. *)
Definition sched0 : sched := Sched ∅ None 0 0 0 0 0 0 false 0 false 0 0 0 None 0.

Record initial (s : sched) (A : astate) : Prop := {
  n_sched : s = sched0;
  n_wf : wf A;
  n_cont : cont A = ∅;
  n_lists : ∀ l, (l < 10)%nat → seqs A !! l = None
}.

Record fresh (t : nat) (s : sched) (A : astate) : Prop := {
  fr_tcb : tcbs s !! t = None;
  fr_state : vals A !! xStateListItem t = None;
  fr_event : vals A !! xEventListItem t = None;
  fr_size : Z.of_nat (size (vals A)) + 2 < 2 ^ 32;
  fr_number : uxCurrentNumberOfTasks s + 1 < 2 ^ 32
}.

Definition born (t p : nat) (A : astate) : astate := set_val (xEventListItem t) (event_value p) (set_val (xStateListItem t) 0 A).

Lemma not_listed A n : wf A → vals A !! n = None → cont A !! n = None.
Proof. intros Hw Hn. destruct (cont A !! n) as [l|] eqn:E; [|done]. destruct (w_vals _ Hw _ _ E) as [v Hv]. congruence. Qed.

Lemma wf_set_val A n v : wf A → 0 ≤ v ≤ portMAX_DELAY → wf (set_val n v A).
Proof.
  intros [] Hv. split; cbn; try done.
  - intros k l Hk. rewrite lookup_insert_is_Some'. eauto.
  - intros k u [[<- <-]|[_ Hk]]%lookup_insert_Some; eauto.
Qed.

Lemma wp_create_item s A n v (Q : result → sched → astate → Prop) : wf A → vals A !! n = None → 0 ≤ v ≤ portMAX_DELAY →
  Z.of_nat (size (vals A)) + 1 < 2 ^ 32 → Q RNone s (set_val n v A) → wp (list_call (OCreate n v)) Q s A.
Proof.
  intros Hw Hn Hv Hs HQ. eapply wp_list; [|exact HQ]. cbn [astep]. rewrite Hn. unfold free. rewrite bool_decide_eq_true_2 by (by apply not_listed).
  by rewrite !(proj2 (Z.leb_le _ _)), (proj2 (Z.ltb_lt _ _) Hs) by lia.
Qed.

Lemma wp_init_task s A t p (Q : unit → sched → astate → Prop) : wf A → fresh t s A →
  Q () (put_tcb t (Tcb (clamp p) 0 taskNOT_WAITING_NOTIFICATION) s) (born t (clamp p) A) → wp (prvInitialiseNewTask t p) Q s A.
Proof.
  intros Hw [_ Hs He Hsz _] HQ. unfold prvInitialiseNewTask. cbv zeta. apply wp_bind, wp_modify.
  apply wp_bind, wp_create_item; [done|done|unfold portMAX_DELAY; lia|lia|]. apply wp_bind, wp_create_item.
  - apply wf_set_val; [done|unfold portMAX_DELAY; lia].
  - cbn. rewrite lookup_insert_ne; [done|]. apply state_event.
  - apply event_value_range.
  - cbn. rewrite map_size_insert_None by done. lia.
  - by apply wp_ret.
Qed.

Lemma val_born A t p n l : wf A → vals A !! xStateListItem t = None → vals A !! xEventListItem t = None → cont A !! n = Some l →
  val (born t p A) n = val A n.
Proof.
  intros Hw Hs He Hn. unfold val. cbn. apply not_listed in Hs, He; [|done..]. by rewrite !lookup_insert_ne by congruence.
Qed.

Lemma kinv_new lo s A t c : kinv lo ∅ s A → fresh t s A → (uxPriority c < 5)%nat →
  kinv lo ({[t]} ∪ ∅) (put_tcb t c s) (born t (uxPriority c) A).
Proof.
  intros Hk [Ht Hs He _ _] Hp. pose proof (k_wf _ _ _ _ Hk) as Hw. pose proof (val_born A t (uxPriority c)) as Hval.
  pose proof (not_listed _ _ Hw Hs) as Hcs. pose proof (state_event t t) as Hse. destruct Hk. split; cbn -[Z.pow]; try done.
  - apply wf_set_val; [apply wf_set_val; [done|unfold portMAX_DELAY; lia]|apply event_value_range].
  - intros u cu [[<- <-]|[_ Hu]]%lookup_insert_Some; eauto.
  - intros u Hu. rewrite !lookup_insert_is_Some'. destruct (decide (u = t)) as [-> |Hne]; [auto|]. rewrite lookup_insert_ne in Hu by done.
    destruct (k_items0 u Hu). auto.
  - intros n l Hn. rewrite lookup_insert_is_Some'. eauto.
  - intros u cu [[<- <-]|[_ Hu]]%lookup_insert_Some HX; [by destruct (HX (task_in_hand t))|]. apply k_state0; [done|apply not_elem_of_empty].
  - intros u Hu. assert (u = t) as -> by set_solver. rewrite lookup_insert_eq. eauto.
  - intros n Hn. rewrite (Hval _ _ Hw Hs He Hn). auto.
  - intros n Hn. rewrite (Hval _ _ Hw Hs He Hn). auto.
  - intros l Hl. eapply sorted_ext; [|by apply k_sorted0]. intros x Hx. apply (items_cont _ _ _ Hw) in Hx. by eapply Hval.
Qed.

Lemma base_created s A s' A' t c : base s A → kinv (xTickCount s' + 1) ∅ s' A' → fresh t s A → tcbs s' = <[t := c]> (tcbs s) →
  cont A' = <[xStateListItem t := uxPriority c]> (cont A) →
  (pxCurrentTCB s' = pxCurrentTCB s ∨ pxCurrentTCB s' = Some t) → xIdleTaskHandle s' = xIdleTaskHandle s →
  xSchedulerRunning s' = xSchedulerRunning s → uxSchedulerSuspended s' = uxSchedulerSuspended s → uxPendedTicks s' = uxPendedTicks s →
  uxCurrentNumberOfTasks s' = uxCurrentNumberOfTasks s + 1 → base s' A'.
Proof.
  intros [] Hk [Ht Hs He _ Hn] F1 F2 F3 F4 F5 F6 F7 F8. pose proof (not_listed _ _ (k_wf _ _ _ _ b_k0) He) as Hce. pose proof (state_event t) as Hse.
  split; rewrite ?F1, ?F2, ?F4, ?F5, ?F6, ?F7, ?F8; try done.
  - destruct F3 as [->| ->]; [|exists t, c; by rewrite lookup_insert_eq]. destruct b_current0 as (u & cu & ? & ?). exists u, cu.
    rewrite lookup_insert_ne by congruence. done.
  - intros Hr. destruct (b_idle0 Hr) as (i & Hih & ci & Hci & Hcl). exists i. split; [done|]. exists ci. assert (i ≠ t) by congruence.
    rewrite F1, F2, !lookup_insert_ne by (try done; intros E; apply state_inj in E; done). done.
  - intros u l. rewrite lookup_insert_ne by done. intros Hu. rewrite lookup_insert_ne; [by apply b_event0|]. intros E%state_inj. congruence.
  - intros Hsu n. rewrite lookup_insert. case_decide; [|auto]. intros [= E]. pose proof (k_prio _ _ _ _ Hk t c). rewrite F1, lookup_insert_eq in *.
    unfold xPendingReadyList in E. specialize (H0 eq_refl). lia.
  - rewrite map_size_insert_None by done. lia.
Qed.

(** What a task created before the start of the scheduler leaves as it is *)
Definition early (s : sched) (A : astate) (s' : sched) (A' : astate) (t : nat) : Prop :=
  xSchedulerRunning s = false → uxSchedulerSuspended s' = uxSchedulerSuspended s ∧ xTickCount s' = xTickCount s ∧ ready s' A' t ∧
    ∀ n l, cont A' !! n = Some l → cont A !! n = Some l ∨ (l < 5)%nat.

(** The end of a creation: the new task goes to its ready list. *)
Lemma wp_enter_ready s A t c (Q : unit → sched → astate → Prop) : kinv (xTickCount s + 1) ({[t]} ∪ ∅) s A → tcbs s !! t = Some c →
  (∀ q A', kinv (xTickCount s + 1) ∅ (with_top q s) A' → cont A' = <[xStateListItem t := uxPriority c]> (cont A) → Q () (with_top q s) A') →
  wp (prvAddTaskToReadyList t) Q s A.
Proof.
  intros Hk Hc HQ. eapply wp_add_ready; [exact Hk|apply task_in_hand|exact Hc|]. intros A' s' Hk' H. rewrite from_hand in Hk'.
  apply HQ; [done|apply H].
Qed.

Lemma wp_create o s A t p (Q : bool → sched → astate → Prop) : sinv o s A → fresh t s A → 0 ≤ p →
  (∀ s' A', sinv o s' A' → xSchedulerRunning s' = xSchedulerRunning s → early s A s' A' t → Q true s' A') →
  wp (xTaskCreate true true t p) Q s A.
Proof.
  intros Hi Hf Hp HQ. pose proof (i_base _ _ _ Hi) as Hb. pose proof (b_k _ _ Hb) as Hk. destruct (b_current _ _ Hb) as (cur & cc & Hcur & Hcc).
  pose proof (clamp_range p Hp) as Hp5. set (c := Tcb (clamp p) 0 taskNOT_WAITING_NOTIFICATION).
  pose proof (kinv_new _ _ _ _ c Hk Hf Hp5) as Hk1. pose proof (number_pos _ _ Hb) as Hpos. pose proof (fr_number _ _ _ Hf) as Hn.
  assert (cur ≠ t) as Hct by (intros ->; rewrite (fr_tcb _ _ _ Hf) in Hcc; done).
  unfold xTaskCreate. cbn [andb]. apply wp_bind, wp_init_task; [apply Hk|done|]. fold c. change (clamp p) with (uxPriority c).
  apply wp_bind. unfold prvAddNewTaskToReadyList. apply wp_bind, wp_gets, wp_bind, wp_modify, wp_bind, wp_gets, wp_bind, wp_gets, wp_bind. cbn -[Z.pow born].
  rewrite Hcur, (u32_id (_ + 1)) by lia. set (s2 := with_number _ (put_tcb t c s)).
  assert (∀ x, (x = pxCurrentTCB s ∨ x = Some t) →
    (∀ u cu, x = Some u → <[t := c]> (tcbs s) !! u = Some cu → o = false → xYieldPending s = false → xSchedulerRunning s = false → bounded A (uxPriority cu) ∧ (uxPriority c ≤ uxPriority cu)%nat) →
    (xSchedulerRunning s = true → x = pxCurrentTCB s) →
    wp (k ← gets uxTaskNumber; modify (with_task_number (u32 (k + 1)));; prvAddTaskToReadyList t;;
        if xSchedulerRunning s then c ← current; pc ← priority c; p ← priority t; if (pc <? p)%nat then portYIELD else mret () else mret ())
      (λ _, wp (mret true) Q) (with_current x s2) (born t (uxPriority c) A)) as Hrest.
  { intros x Hx Hbd Hrun. apply wp_bind, wp_gets, wp_bind, wp_modify, wp_bind.
    eapply (wp_enter_ready _ _ t c); [by eapply kinv_ext|cbn; apply lookup_insert_eq|]. intros q A3 Hk3 Hc3. set (s3 := with_top q _) in *.
    assert (base s3 A3) as Hb3 by (eapply (base_created s A); [done|exact Hk3|done|done|done|done|done..]).
    destruct (xSchedulerRunning s) eqn:Er.
    - specialize (Hrun eq_refl) as ->. eapply wp_bind, wp_current; [exact Hcur|]. eapply wp_bind, wp_priority; [cbn; by rewrite lookup_insert_ne|].
      eapply wp_bind, wp_priority; [cbn; apply lookup_insert_eq|]. destruct (Nat.ltb_spec (uxPriority cc) (uxPriority c)) as [Hlt|Hge].
      + unfold portYIELD. eapply wp_switch; [apply Hb3|by eapply idle_somewhere| |].
        * intros _. apply wp_ret, HQ; [by apply sinv_yield|by cbn|intros ?; congruence].
        * intros _ u q' A4 s4 Htop Hwk Hk4. apply wp_ret, HQ; [|by cbn|intros ?; congruence]. apply sinv_weaken. eapply base_switch; [exact Hb3|done|by exists u, q'|done|by exists u].
      + apply wp_ret, wp_ret, HQ; [|by cbn|intros ?; congruence]. split; [done|]. cbn. intros Ho Hy u cu Hu. rewrite Hcur in Hu. injection Hu as <-.
        rewrite lookup_insert_ne by done. intros Hcu. simplify_eq. intros n l. rewrite Hc3.
        intros [[_ <-]|[_ Hnl]]%lookup_insert_Some; [done|]. by eapply (i_bound _ _ _ Hi eq_refl Hy).
    - apply wp_ret, wp_ret, HQ; [|by cbn|].
      + split; [done|]. cbn. intros Ho Hy u cu Hu Hcu. destruct (Hbd _ _ Hu Hcu Ho Hy eq_refl) as [Hb0 Hle]. intros n l. rewrite Hc3.
        intros [[_ <-]|[_ Hnl]]%lookup_insert_Some; [done|]. by apply (Hb0 n).
      + intros _. split_and!; [done|done|exists c; cbn; by rewrite lookup_insert_eq, Hc3, lookup_insert_eq|].
        intros n l. rewrite Hc3. intros [[_ <-]|[_ ?]]%lookup_insert_Some; [by right|by left]. }
  destruct (xSchedulerRunning s) eqn:Er; cbn [negb].
  - apply wp_ret. replace s2 with (with_current (pxCurrentTCB s) s2) by (by destruct s). apply Hrest; [by left|done|done].
  - eapply wp_bind, wp_priority; [cbn; by rewrite lookup_insert_ne|]. eapply wp_bind, wp_priority; [cbn; apply lookup_insert_eq|].
    destruct (Nat.leb_spec (uxPriority cc) (uxPriority c)) as [Hle|Hgt].
    + apply wp_modify, Hrest; [by right| |done]. intros u cu [= <-]. rewrite lookup_insert_eq. intros [= <-] Ho Hy _.
      split; [|done]. eapply bounded_le; [by eapply (i_bound _ _ _ Hi Ho Hy)|done].
    + apply wp_ret. replace s2 with (with_current (pxCurrentTCB s) s2) by (by destruct s). apply Hrest; [by left| |done].
      intros u cu Hu. rewrite Hcur in Hu. injection Hu as <-. rewrite lookup_insert_ne by done. intros Hcu Ho Hy _.
      assert (cu = cc) as -> by congruence. split; [by eapply (i_bound _ _ _ Hi Ho Hy)|lia].
Qed.

Lemma wp_list_init s A l (Q : unit → sched → astate → Prop) : seqs A !! l = None → Q () s (with_seq l [] (End l) A) →
  wp (vListInitialise l) Q s A.
Proof. intros Hl HQ. unfold vListInitialise. apply wp_bind. eapply wp_list; [cbn; by rewrite Hl|]. by apply wp_ret. Qed.

Lemma wf_list_init A l : wf A → seqs A !! l = None → wf (with_seq l [] (End l) A).
Proof.
  intros Hw Hl. pose proof (w_cont _ Hw) as Hc. destruct Hw. split; cbn; try done.
  - intros k xs c [[<- [= <- <-]]|[_ Hk]]%lookup_insert_Some; [constructor|eauto].
  - intros k xs c n [[<- [= <- <-]]|[_ Hk]]%lookup_insert_Some Hn; [by apply not_elem_of_nil in Hn|eauto].
  - intros n k Hn. destruct (Hc n k Hn) as (xs & c & Hk & ?). exists xs, c. split; [|done]. rewrite lookup_insert_ne by congruence. done.
  - intros k xs c [[<- [= <- <-]]|[_ Hk]]%lookup_insert_Some; [by left|eauto].
Qed.

(** All lists of the scheduler, empty *)
Definition with_lists (A : astate) : astate :=
  foldl (λ A l, with_seq l [] (End l) A) A (seq 0 10).

Lemma wp_init_lists s A (Q : unit → sched → astate → Prop) : (∀ l, (l < 10)%nat → seqs A !! l = None) →
  Q () (with_delayed xDelayedTaskList1 xDelayedTaskList2 s) (with_lists A) → wp prvInitialiseTaskLists Q s A.
Proof.
  intros Hl HQ. unfold prvInitialiseTaskLists.
  do 10 (apply wp_bind, wp_list_init; [cbn; rewrite ?lookup_insert_ne by done; apply Hl; vm_compute; lia|]). by apply wp_modify.
Qed.

Lemma with_lists_spec A : wf A → (∀ l, (l < 10)%nat → seqs A !! l = None) →
  wf (with_lists A) ∧ (∀ l, (l < 10)%nat → seqs (with_lists A) !! l = Some ([], End l)) ∧ cont (with_lists A) = cont A ∧ vals (with_lists A) = vals A.
Proof.
  intros Hw Hl. split_and!; [| |done|done].
  - unfold with_lists. cbn [seq foldl]. repeat (apply wf_list_init; [|cbn; rewrite ?lookup_insert_ne by done; apply Hl; lia]). done.
  - intros l Hl10. unfold with_lists. cbn [seq foldl with_seq seqs].
    do 10 (destruct l as [|l]; [rewrite ?lookup_insert_ne by done; apply lookup_insert_eq|]). lia.
Qed.

(** The first task: its creation makes the lists. *)
Lemma wp_create_first o s A t p (Q : bool → sched → astate → Prop) : initial s A → fresh t s A → 0 ≤ p →
  (∀ s' A', sinv o s' A' → xSchedulerRunning s' = false → early s A s' A' t → Q true s' A') →
  wp (xTaskCreate true true t p) Q s A.
Proof.
  intros [-> Hw Hc Hl] Hf Hp HQ. pose proof (clamp_range p Hp) as Hp5. set (c := Tcb (clamp p) 0 taskNOT_WAITING_NOTIFICATION).
  pose proof (state_event t t) as Hse.
  unfold xTaskCreate. cbn [andb]. apply wp_bind, wp_init_task; [done|done|]. fold c. change (clamp p) with (uxPriority c). set (A1 := born t _ A).
  assert (wf A1) as Hw1 by (apply wf_set_val; [apply wf_set_val; [done|unfold portMAX_DELAY; lia]|apply event_value_range]).
  destruct (with_lists_spec A1) as (Hw2 & Hl2 & Hc2 & Hv2); [done|done|].
  apply wp_bind. unfold prvAddNewTaskToReadyList. apply wp_bind, wp_gets, wp_bind, wp_modify, wp_bind, wp_gets, wp_bind, wp_gets, wp_bind. cbn -[born uwrap with_lists].
  apply wp_bind, wp_modify, wp_bind, wp_gets. cbn -[born uwrap with_lists]. change (u32 1 =? 1) with true. apply wp_init_lists; [done|].
  apply wp_bind, wp_gets, wp_bind, wp_modify, wp_bind. cbn -[born uwrap with_lists]. change (u32 1) with 1. set (s2 := with_task_number _ _).
  assert (cont (with_lists A1) = ∅) as Hc0 by (by rewrite Hc2).
  assert (∀ l, (l < 10)%nat → items (with_lists A1) l = []) as Hit by (intros l H10; unfold items; by rewrite Hl2).
  assert (kinv 1 ({[t]} ∪ ∅) s2 (with_lists A1)) as Hk2.
  { split; rewrite ?Hc0; try done; cbn -[Z.pow with_lists].
    - intros l H10. rewrite Hl2 by done. eauto.
    - intros u cu [[<- <-]|[_ Hu]]%lookup_insert_Some; [done|]. by rewrite lookup_empty in Hu.
    - intros u Hu. rewrite Hv2. cbn. destruct (decide (u = t)) as [-> |Hne]; [rewrite !lookup_insert_is_Some'; auto|].
      rewrite lookup_insert_ne, lookup_empty in Hu by done. by destruct Hu.
    - intros u cu [[<- <-]|[_ Hu]]%lookup_insert_Some HX; [by destruct (HX (task_in_hand t))|]. by rewrite lookup_empty in Hu.
    - intros u Hu. assert (u = t) as -> by set_solver. rewrite lookup_insert_eq, lookup_empty. eauto.
    - lia.
    - by left.
    - intros l Hl'. rewrite Hit by (unfold xDelayedTaskList1, xDelayedTaskList2 in Hl'; lia). constructor. }
  eapply (wp_enter_ready _ _ t c); [exact Hk2|cbn; apply lookup_insert_eq|]. intros q A3 Hk3 Hc3. rewrite Hc0 in Hc3.
  assert (∀ n l, cont A3 !! n = Some l → n = xStateListItem t ∧ l = uxPriority c) as Hone.
  { intros n l. rewrite Hc3. intros [[<- <-]|[_ Hn]]%lookup_insert_Some; [done|]. by rewrite lookup_empty in Hn. }
  apply wp_ret, wp_ret, HQ; [|done|].
  - split.
    + split; cbn -[Z.pow]; try done.
      * exists t, c. by rewrite lookup_insert_eq.
      * intros u l Hu. destruct (Hone _ _ Hu) as [E _]. by destruct (state_event t u).
      * intros _ n Hn. destruct (Hone _ _ Hn) as [_ E]. unfold xPendingReadyList in E. subst c. cbn in *. lia.
      * by rewrite map_size_insert_None.
    + cbn. intros _ _ u cu [= <-]. rewrite lookup_insert_eq. intros [= <-] n l Hn _. by destruct (Hone _ _ Hn) as [_ ->].
  - intros _. split_and!; [done|done|exists c; cbn; by rewrite lookup_insert_eq, Hc3, lookup_insert_eq|].
    intros n l Hn. right. by destruct (Hone _ _ Hn) as [_ ->].
Qed.

Lemma wp_create_any o s A t p (Q : bool → sched → astate → Prop) : (initial s A ∨ sinv o s A) → fresh t s A → 0 ≤ p →
  (∀ s' A', sinv o s' A' → xSchedulerRunning s' = xSchedulerRunning s → early s A s' A' t → Q true s' A') →
  wp (xTaskCreate true true t p) Q s A.
Proof.
  intros [Hn|Hi] Hf Hp HQ; [|by eapply wp_create]. eapply (wp_create_first o); [done|done|done|]. destruct Hn as [-> _ _ _].
  intros s' A' Hi Hr Hrest. by apply HQ.
Qed.

(** No task waits before the scheduler is started; its start sets the clock to 0. *)
Lemma wp_start o s A i (Q : unit → sched → astate → Prop) : (initial s A ∨ sinv o s A) → xSchedulerRunning s = false →
  xTickCount s = 0 → fresh i s A → (∀ n l, cont A !! n = Some l → (l < 5)%nat) →
  (∀ s' A', sinv o s' A' → Q () s' A') → wp (vTaskStartScheduler true i) Q s A.
Proof.
  intros Hi Hr Ht Hf Hc HQ. unfold vTaskStartScheduler. apply wp_bind. eapply (wp_create_any o); [done|done|unfold tskIDLE_PRIORITY; lia|].
  intros s1 A1 Hi1 Hr1 Hearly. destruct (Hearly Hr) as (Hs1 & Ht1 & Hrd & Hc1).
  do 3 apply wp_bind, wp_modify. apply wp_modify, HQ.
  assert (∀ n l, cont A1 !! n = Some l → (l < 5)%nat) as Hc5 by (intros n l Hn; destruct (Hc1 n l Hn); eauto).
  destruct Hi1 as [[] Hbd]. destruct (delayed_ids _ _ _ _ b_k0) as (Hd & _). split; [split; cbn -[Z.pow]; try done|done].
  - rewrite Ht1, Ht in b_k0. eapply kinv_ext; [eapply (kinv_unblock _ _ _ _ portMAX_DELAY); [exact b_k0|done|]|try done..]; cbn; [|congruence].
    intros n Hn. specialize (Hc5 _ _ Hn). lia.
  - intros _. by exists i.
Qed.

Lemma wp_event_list o s A l (Q : unit → sched → astate → Prop) : sinv o s A → (10 ≤ l)%nat → seqs A !! l = None →
  (∀ A', sinv o s A' → Q () s A') → wp (vListInitialise l) Q s A.
Proof.
  intros Hi Hl Hn HQ. apply wp_list_init; [done|]. apply HQ. destruct Hi as [[] Hbd]. split; [split; try done|done].
  pose proof (wf_list_init _ _ (k_wf _ _ _ _ b_k0) Hn) as Hw. destruct b_k0. split; try done.
  - intros k Hk. cbn. rewrite lookup_insert_is_Some'. auto.
  - intros k Hk. unfold items. cbn. rewrite lookup_insert_ne; [by apply k_sorted0|]. unfold xDelayedTaskList1, xDelayedTaskList2 in Hk. lia.
Qed.
End RtosCalls.
