(* ===== verification/RtosRun.v ===== *)
(** * Runs of the FreeRTOS scheduler

    The calls of tasks and interrupt handlers in any order, over the linked rings of
    list.c, from before the first task is created: every call that its caller may make
    ([legal]) runs to its end, and the most urgent ready task runs.  Then what time does:
    delays, ticks while the scheduler is suspended, and time outs. *)

From S2P Require Import Prelude RtosList RtosTask RtosSched RtosSys RtosCalls.
Import RtosList RtosTask RtosSched RtosSys RtosCalls.

Module RtosRun.

#[local] Arguments xStateListItem : simpl never.
#[local] Arguments xEventListItem : simpl never.
#[local] Arguments pvOwner_task : simpl never.

(** ** When a call may be made

    The handle is of a task that exists, the idle task does not block, a task blocks or
    deletes itself only while the scheduler is not suspended, and the assertions of the
    code hold. *)

Definition on_task (h : option nat) (P : nat → Prop) : Prop := match h with Some t => P t | None => False end.
#[export] Instance on_task_dec h P `{∀ t, Decision (P t)} : Decision (on_task h P).
Proof. destruct h; apply _. Defined.

Definition is_task (s : sched) (t : nat) : Prop := is_Some (tcbs s !! t).
Definition may_block (s : sched) : Prop := on_task (pxCurrentTCB s) (λ t, xIdleTaskHandle s ≠ Some t).
Definition waits (k : Z) : Prop := 0 < k ≤ portMAX_DELAY.
Definition unlisted (A : astate) (t : nat) : Prop := cont A !! xEventListItem t = None.
Definition alive (A : astate) (t : nat) : Prop := cont A !! xStateListItem t ≠ Some xTasksWaitingTermination.
(** What the code asserts of the target of a notification, if the target waits for one *)
Definition notifiable (s : sched) (t : nat) (P : Prop) : Prop :=
  match tcbs s !! t with
  | Some c => ucNotifyState c = taskWAITING_NOTIFICATION → P
  | None => False
  end.
Definition new_task (t : nat) (s : sched) (A : astate) : Prop :=
  (tcbs s !! t = None ∧ vals A !! xStateListItem t = None ∧ vals A !! xEventListItem t = None) ∧
  Z.of_nat (size (vals A)) + 2 < 2 ^ 32 ∧ uxCurrentNumberOfTasks s + 1 < 2 ^ 32.

Definition legal (c : call) (s : sched) (A : astate) : Prop :=
  match c with
  | CCreate t p => new_task t s A ∧ 0 ≤ p
  | CStart i => new_task i s A ∧ xSchedulerRunning s = false ∧ xTickCount s = 0 ∧ map_Forall (λ _ l, (l < 5)%nat) (cont A)
  | CEventList l => (10 ≤ l)%nat ∧ seqs A !! l = None
  | _ => xSchedulerRunning s = true ∧
    match c with
    | CSuspendAll => uxSchedulerSuspended s + 1 < 2 ^ 32
    | CResumeAll => 0 < uxSchedulerSuspended s
    | CDelay k => may_block s ∧ uxSchedulerSuspended s = 0 ∧ 0 ≤ k ≤ portMAX_DELAY
    | CDelayUntil p k => may_block s ∧ uxSchedulerSuspended s = 0 ∧ 0 ≤ p < 2 ^ 32 ∧ 0 < k < 2 ^ 32
    | CDelete h => on_task (handle s h) (λ t, is_task s t ∧ xIdleTaskHandle s ≠ Some t ∧
        (pxCurrentTCB s = Some t → uxSchedulerSuspended s = 0))
    | CReapCheck => uxSchedulerSuspended s = 0
    | CReapTake => pxCurrentTCB s = xIdleTaskHandle s ∧ items A xTasksWaitingTermination ≠ []
    | CPriorityGet h => on_task (handle s h) (is_task s)
    | CPrioritySet h p => on_task (handle s h) (is_task s) ∧ 0 ≤ p
    | CSuspend h => on_task (handle s h) (λ t, is_task s t ∧ xIdleTaskHandle s ≠ Some t ∧
        (pxCurrentTCB s = Some t → uxSchedulerSuspended s = 0))
    | CResume h => match h with Some t => is_task s t | None => True end
    | CResumeFromISR t => is_task s t
    | CPlace l k => may_block s ∧ waits k ∧ (10 ≤ l)%nat ∧ is_Some (seqs A !! l) ∧ on_task (pxCurrentTCB s) (unlisted A)
    | CPlaceUnordered l v k => may_block s ∧ waits k ∧ (10 ≤ l)%nat ∧ is_Some (seqs A !! l) ∧
        on_task (pxCurrentTCB s) (unlisted A) ∧ 0 ≤ v ≤ portMAX_DELAY
    | CRemove l => (10 ≤ l)%nat ∧ items A l ≠ []
    | CRemoveUnordered t v => is_task s t ∧ ¬ unlisted A t ∧ 0 ≤ v ≤ portMAX_DELAY
    | CTakeWait k | CNotifyWait _ k => (0 < k → may_block s) ∧ k ≤ portMAX_DELAY
    | CNotify t _ _ => notifiable s t (unlisted A t)
    | CNotifyFromISR t _ _ _ | CGiveFromISR t _ => notifiable s t (unlisted A t ∧ alive A t)
    | CStateClear h => on_task (handle s h) (is_task s)
    | _ => True
    end
  end.

#[export] Instance legal_dec c s A : Decision (legal c s A).
Proof. destruct c; unfold legal, new_task, notifiable, may_block, waits, is_task, unlisted, alive; repeat case_match; apply _. Defined.

(** Whether an interrupt handler still owes a yield after the call *)
Definition owes (c : call) (a : answer) (o : bool) : bool :=
  match c, a with
  | CYield, _ => false
  | CResumeFromISR _, ABool b | CGiveFromISR _ _, ABool b => o || b
  | CNotifyFromISR _ _ _ _, AISR (_, _, b) => o || b
  | _, _ => o
  end.

Lemma fresh_new t s A : new_task t s A → fresh t s A.
Proof. intros [(? & ? & ?) [? ?]]. by split. Qed.

Lemma wp_fmap {X Y} (g : X → Y) (f : kcall astate X) Q s A : wp f (λ x, Q (g x)) s A → wp (g <$> f) Q s A.
Proof. intros H. apply wp_bind. eapply wp_mono; [exact H|]. intros x s' A' HQ. by apply wp_ret. Qed.

Lemma wp_unit (f : kcall astate unit) (Q : answer → sched → astate → Prop) s A : wp f (λ _, Q ANone) s A → wp (f;; mret ANone) Q s A.
Proof. intros H. apply wp_bind. eapply wp_mono; [exact H|]. intros [] s' A' HQ. by apply wp_ret. Qed.

Lemma on_task_inv h P : on_task h P → ∃ t, h = Some t ∧ P t.
Proof. destruct h; [eauto|done]. Qed.

Lemma notifiable_inv s t P : notifiable s t P → is_task s t ∧ ∀ c, tcbs s !! t = Some c → ucNotifyState c = taskWAITING_NOTIFICATION → P.
Proof. unfold notifiable, is_task. destruct (tcbs s !! t) eqn:E; naive_solver. Qed.

Lemma may_block_inv o s A : sinv o s A → xSchedulerRunning s = true → may_block s →
  ∃ t c, pxCurrentTCB s = Some t ∧ tcbs s !! t = Some c ∧ not_idle s t.
Proof.
  intros Hi Hr (t & Ht & Hid)%on_task_inv. destruct (b_current _ _ (i_base _ _ _ Hi)) as (t' & c & ? & ?). assert (t' = t) as -> by congruence. by exists t, c.
Qed.

(** The running task, for calls that a task makes for itself *)
Ltac blocker Hi Hr Hm := destruct (may_block_inv _ _ _ Hi Hr Hm) as (cur & cc & Hcur & Hcc & Hid).
Ltac runner Hi := destruct (b_current _ _ (i_base _ _ _ Hi)) as (cur & cc & Hcur & Hcc).

Lemma sched_call_ok c o s A : sinv o s A → legal c s A → wp (run_call c) (λ a s' A', sinv (owes c a o) s' A') s A.
Proof.
  intros Hi Hl. assert (∀ k, (0 < k → may_block s) → xSchedulerRunning s = true → ∀ cur, pxCurrentTCB s = Some cur → 0 < k → not_idle s cur) as Hnid.
  { intros k Hb Hr cur Hcur Hk. destruct (may_block_inv _ _ _ Hi Hr (Hb Hk)) as (t & ? & ? & ? & ?). by simplify_eq. }
  destruct c; cbn [legal run_call owes] in *; try destruct Hl as [Hr Hl]; try first [apply wp_fmap|apply wp_unit].
  - eapply wp_vTickISR; [exact Hi|done|done|done].
  - apply wp_yield; [apply Hi|done|done].
  - apply wp_suspend_all; [apply Hi|done|]. apply sinv_suspended; [done|]. pose proof (b_suspended _ _ (i_base _ _ _ Hi)). lia.
  - eapply wp_resume_sinv; [exact Hi|done|done|done].
  - destruct Hl as (Hm & ? & ?). blocker Hi Hr Hm. by eapply wp_delay.
  - destruct Hl as (Hm & ? & ? & ?). blocker Hi Hr Hm. by eapply wp_delay_until.
  - eapply (wp_create_any o); [by right|by apply fresh_new|done|done].
  - destruct Hl as (Hr0 & Ht & Hc). eapply (wp_start o); [by right|done|done|by apply fresh_new| |done]. intros n l Hn. by apply (Hc n l).
  - apply on_task_inv in Hl as (t & Hh & ? & ? & _). by eapply wp_delete.
  - eapply wp_reap_check; [exact Hi|done|lia|done].
  - destruct Hl. by eapply wp_reap_take.
  - apply on_task_inv in Hl as (t & Hh & c & Hc). unfold uxTaskPriorityGet. eapply wp_bind, wp_handle; [done|]. by eapply wp_priority.
  - destruct Hl as [(t & Hh & Ht)%on_task_inv Hp]. by eapply wp_priority_set.
  - apply on_task_inv in Hl as (t & Hh & ? & ? & _). by eapply wp_suspend.
  - eapply wp_resume; [exact Hi|done| |done]. by intros t ->.
  - eapply wp_resume_isr; [exact Hi|done|done].
  - eapply wp_event_list; [exact Hi|done|done|done].
  - destruct Hl as (Hm & Hk & H10 & Hls & (t & Ht & Hu)%on_task_inv). blocker Hi Hr Hm. simplify_eq. by eapply (wp_place o).
  - destruct Hl as (Hm & Hk & H10 & Hls & (t & Ht & Hu)%on_task_inv & Hv). blocker Hi Hr Hm. simplify_eq. by eapply (wp_place_unordered o).
  - destruct Hl. by eapply wp_remove_event.
  - destruct Hl as (Ht & He & Hv). unfold unlisted in He. destruct (cont A !! xEventListItem t) as [l|] eqn:El; [|done]. by eapply wp_remove_unordered.
  - apply wp_modify. apply sinv_yield, Hi.
  - by apply wp_gets.
  - unfold xTaskCheckForTimeOut, vTaskSetTimeOutState. apply wp_bind, wp_gets, wp_bind, wp_gets. cbv zeta. repeat case_match; try (by apply wp_ret).
  - destruct Hl. runner Hi. eapply (wp_take_wait o); [done|done|done|by apply Hnid|done|done].
  - runner Hi. by eapply (wp_take o).
  - destruct Hl. runner Hi. eapply (wp_notify_wait o); [done|done|done|by apply Hnid|done|done].
  - runner Hi. by eapply (wp_notify_take o).
  - apply notifiable_inv in Hl as [? Hn]. by eapply wp_notify.
  - apply notifiable_inv in Hl as [? Hn]. eapply wp_notify_isr; [done|done|..]; intros c Hc Hw; naive_solver.
  - apply notifiable_inv in Hl as [? Hn]. eapply wp_give_isr; [done|done|..]; intros c Hc Hw; naive_solver.
  - apply on_task_inv in Hl as (t & Hh & Ht). by eapply wp_state_clear.
Qed.

Lemma first_call_ok c o s A : initial s A → legal c s A → wp (run_call c) (λ a s' A', initial s' A' ∨ sinv (owes c a o) s' A') s A.
Proof.
  intros Hn Hl. assert (xSchedulerRunning s ≠ true) as Hr by (by rewrite (n_sched _ _ Hn)).
  destruct c; cbn [legal run_call owes] in *; try (by destruct Hl as [? _]); try first [apply wp_fmap|apply wp_unit].
  - destruct Hl. eapply (wp_create_any o); [by left|by apply fresh_new|done|by right].
  - destruct Hl as (? & Hr0 & Ht & Hc). eapply (wp_start o); [by left|done|done|by apply fresh_new| |by right]. intros n l' Hn'. by apply (Hc n l').
  - destruct Hl as [H10 Hls]. apply wp_list_init; [done|]. left. destruct Hn as [? Hw Hc Hall]. split; [done|by apply wf_list_init|done|].
    intros k Hk. cbn. rewrite lookup_insert_ne by lia. auto.
Qed.

(** ** Runs over the linked rings *)

Definition mem0 : mem := Mem ∅ ∅.
Definition astate0 : astate := Abs ∅ ∅ ∅.

Inductive reach : bool → sched → mem → astate → Prop :=
| reach_start : reach false sched0 mem0 astate0
| reach_call o s m A c a s' m' A' : reach o s m A → legal c s A →
    run_call c s m = Some (a, s', m') → run_call c s A = Some (a, s', A') → reach (owes c a o) s' m' A'.

Lemma initial0 : initial sched0 astate0.
Proof. split; [done| |done|done]. split; cbn; intros *; try (by rewrite lookup_empty). Qed.
Lemma rep0 : rep mem0 astate0.
Proof. split; cbn; intros *; by rewrite lookup_empty || done. Qed.

Lemma any_call_ok c o s A : initial s A ∨ sinv o s A → legal c s A →
  wp (run_call c) (λ a s' A', initial s' A' ∨ sinv (owes c a o) s' A') s A.
Proof.
  intros [Hn|Hi] Hl; [by apply first_call_ok|]. eapply wp_mono; [by apply sched_call_ok|]. by right.
Qed.

Lemma reach_inv o s m A : reach o s m A → rep m A ∧ (initial s A ∨ sinv o s A).
Proof.
  induction 1 as [|o s m A c a s' m' A' _ [Hr Hi] Hl Em EA]; [split; [apply rep0|left; apply initial0]|].
  destruct (sim_call c s m A a s' A' Hr EA) as (m2 & Em2 & Hr2). assert (m2 = m') as -> by congruence. split; [done|].
  destruct (any_call_ok c o s A Hi Hl) as (a2 & s2 & A2 & E & HP). assert (a2 = a ∧ s2 = s' ∧ A2 = A') as (-> & -> & ->) by (split_and!; congruence). done.
Qed.

(** C3. A call that meets the conditions of [legal] (handles of existing tasks, blocking
    calls only from tasks that may block, and what the code asserts: above all that a task
    that waits for a notification is in no event list when it is notified) runs to its end
    on the linked rings of list.c, from the creation of the first task on, with any calls
    that meet them before it: no null or foreign pointer is followed, no item is inserted
    twice or removed from no list, the loops end.  The rings stay the sequences of the
    specification, and the invariant of the scheduler holds: every task is in exactly
    one list, delayed tasks are sorted by time and not overdue. *)
Theorem rtos_kernel_safe o s m A c : reach o s m A → legal c s A →
  (∃ a s' m' A', run_call c s m = Some (a, s', m') ∧ run_call c s A = Some (a, s', A') ∧ rep m' A' ∧ (initial s' A' ∨ sinv (owes c a o) s' A')) ∧
  rep m A ∧ (initial s A ∨ sinv o s A).
Proof.
  intros Hre Hl. destruct (reach_inv _ _ _ _ Hre) as [Hr Hi]. split; [|done].
  destruct (any_call_ok c o s A Hi Hl) as (a & s' & A' & E & HP). destruct (sim_call c s m A a s' A' Hr E) as (m' & Em & Hr').
  by exists a, s', m', A'.
Qed.

(** C14. The running task is one of the most urgent: unless an interrupt handler still has
    to yield, or a yield is pending because the scheduler is suspended, no ready task has
    a higher priority than the running one; and after a yield, the task that runs is
    ready, with no ready task above it. *)
Theorem rtos_highest_runs s m A : reach false s m A → xSchedulerRunning s = true →
  (∀ t, xYieldPending s = false → pxCurrentTCB s = Some t → ready s A t → top_task s A t) ∧
  (uxSchedulerSuspended s = 0 → ∃ s' m' A', run_call CYield s m = Some (ANone, s', m') ∧ rep m' A' ∧
    xYieldPending s' = false ∧ ∃ t, pxCurrentTCB s' = Some t ∧ top_task s' A' t).
Proof.
  intros Hre Hr. destruct (reach_inv _ _ _ _ Hre) as [Hm [Hn|Hi]]; [by rewrite (n_sched _ _ Hn) in Hr|]. split.
  - intros t Hy Ht (c & Hc & Hl). exists c. split_and!; [done|done|]. by eapply (i_bound _ _ _ Hi eq_refl Hy).
  - intros Hs. assert (wp (run_call CYield) (λ a s' A', a = ANone ∧ xYieldPending s' = false ∧ runs_top s' A') s A) as (a & s' & A' & E & -> & Hy & Ht).
    { apply wp_unit, wp_yield_now; [apply Hi|done|done|]. intros s' A' _ Ht _ (t & p & ->). done. }
    destruct (sim_call CYield s m A _ _ _ Hm E) as (m' & Em & Hr'). by exists s', m', A'.
Qed.

(** ** Delays *)

Lemma sim_ticks n : sim (ticks n) (ticks n).
Proof. induction n as [|n IH]; cbn [ticks]; [apply sim_ret|]. apply sim_bind; [|done]. unfold vTickISR. solve_sim. Qed.
#[local] Hint Resolve sim_ticks : sim.

(** vTaskDelay with [j] timer interrupts before the scheduler is resumed *)
Definition vTaskDelay_interrupted {M} `{ListMem M} (j : nat) (xTicksToDelay : Z) : kcall M unit :=
  xAlreadyYielded ←
    (if 0 <? xTicksToDelay then
       vTaskSuspendAll;; prvAddCurrentTaskToDelayedList xTicksToDelay false;; ticks j;; xTaskResumeAll
     else mret false);
  if xAlreadyYielded : bool then mret () else portYIELD.

Lemma delay_uninterrupted {M} `{ListMem M} k s (m : M) : vTaskDelay_interrupted 0 k s m = vTaskDelay k s m.
Proof.
  unfold vTaskDelay_interrupted, vTaskDelay, mbind, kcall_bind. destruct (0 <? k); [|done].
  destruct (vTaskSuspendAll s m) as [[[[] s1] m1]|]; [|done]. by destruct (prvAddCurrentTaskToDelayedList k false s1 m1) as [[[[] s2] m2]|].
Qed.

(** Where [cur] is [e] ticks after it went to sleep for [k] *)
Definition slept (k e : Z) (s : sched) (A : astate) (cur : nat) : Prop :=
  (e < k → remaining s A cur = Some (k - e)) ∧ (k ≤ e → ready s A cur ∧ cont A !! xEventListItem cur = None).

Lemma elapsed_slept X k n s A s' A' cur : kinv (xTickCount s + 1) X s A → is_Some (tcbs s !! cur) → tcbs s' = tcbs s →
  remaining s A cur = Some k → elapsed n s A s' A' → slept k n s' A' cur.
Proof.
  intros Hk [c Hc] Ht Hr He. split.
  - intros Hlt. by destruct (e_wait _ _ _ _ _ He cur k Hr Hlt).
  - intros Hle. destruct (e_ready _ _ _ _ _ He cur c k Hc Hr Hle). split; [|done]. exists c. by rewrite Ht.
Qed.

(** Resuming the scheduler and yielding, after [j] ticks that it counted *)
Lemma wp_resume_pended s A (Q : unit → sched → astate → Prop) : base s A → xSchedulerRunning s = true → uxSchedulerSuspended s = 1 →
  (∀ n, cont A !! n ≠ Some xPendingReadyList) →
  (∀ s' A', sinv false s' A' → elapsed (uxPendedTicks s) s A s' A' → tcbs s' = tcbs s → uxSchedulerSuspended s' = 0 → xSchedulerRunning s' = true → Q () s' A') →
  wp (r ← xTaskResumeAll; if r : bool then mret () else portYIELD) Q s A.
Proof.
  intros Hb Hr Hs Hp HQ. pose proof (b_k _ _ Hb) as Hk.
  assert (items A xPendingReadyList = []) as Hnil.
  { destruct (items A xPendingReadyList) as [|x xs] eqn:E; [done|]. destruct (Hp x). apply (items_cont _ _ _ (k_wf _ _ _ _ Hk)). rewrite E. apply elem_of_cons. by left. }
  apply wp_bind, wp_resume_all; [done|done|lia|lia|]. intros _ s1 A1 Hres. destruct Hres as (Hb1 & _ & Ht & Hc & Hr1 & Hs1 & _ & He). cbn in *.
  specialize (He Hnil).
  assert (elapsed (uxPendedTicks s) s A s1 A1) as He1 by (eapply elapsed_ext; [exact He|apply walked_refl, (b_k _ _ Hb1)|done..]). split.
  - intros _ s' A' Hi _ Hw Hsw. apply wp_ret, HQ; [done|by eapply elapsed_switched|..]; destruct Hsw as (t & p & ->); cbn; congruence.
  - intros _. apply wp_yield_now; [done|congruence|done|]. intros s' A' Hi _ Hw Hsw.
    apply HQ; [done|by eapply elapsed_switched|..]; destruct Hsw as (t & p & ->); cbn; congruence.
Qed.

(** The running task blocks for [k] ticks, [j] ticks come, and the scheduler is resumed. *)
Lemma wp_sleep s A j k cur cc (Q : unit → sched → astate → Prop) : sinv false s A → uxSchedulerSuspended s = 0 → pxCurrentTCB s = Some cur →
  tcbs s !! cur = Some cc → not_idle s cur → 0 < k ≤ portMAX_DELAY → Z.of_nat j < 2 ^ 32 →
  (∀ s1 A1 s' A', kinv (xTickCount s1 + 1) ∅ s1 A1 → tcbs s1 = tcbs s → remaining s1 A1 cur = Some k → xTickCount s1 = xTickCount s →
    sinv false s' A' → elapsed (Z.of_nat j) s1 A1 s' A' → tcbs s' = tcbs s → uxSchedulerSuspended s' = 0 → xSchedulerRunning s' = true → Q () s' A') →
  wp (prvAddCurrentTaskToDelayedList k false;; ticks j;; r ← xTaskResumeAll; if r : bool then mret () else portYIELD) Q (with_suspended 1 s) A.
Proof.
  intros Hi Hs Hcur Hcc Hid Hk Hj HQ. pose proof (i_base _ _ _ Hi) as Hb. pose proof (b_pended _ _ Hb Hs) as Hp0.
  apply wp_bind. eapply wp_block; [apply (sinv_suspended _ _ _ 1 Hi); lia|done|done|done|done|].
  intros s1 A1 Hi1 Hbl Hrem. destruct Hbl as [Hk1 [v ->] (l & Hl & Hbl) _ _]. specialize (Hrem (or_intror eq_refl)).
  apply wp_bind, wp_ticks_pended; [apply Hi1|apply Hid|cbn; lia|cbn -[Z.pow]; rewrite Hp0; lia|]. cbn -[Z.pow]. rewrite Hp0, Z.add_0_l.
  apply wp_resume_pended; [apply base_pended; [apply Hi1|lia|cbn; lia]|apply Hid|done| |].
  - intros n. apply moved_insert in Hl. destruct (decide (n = xStateListItem cur)) as [-> |Hne].
    + rewrite (proj1 Hl). pose proof (blocked_above _ Hbl). unfold blocked_list, xDelayedTaskList1, xDelayedTaskList2, xSuspendedTaskList, xPendingReadyList in *. intros [= ?]. lia.
    + destruct (proj2 Hl n Hne) as [->|[_ ->]]; [by apply (b_pending _ _ Hb)|done].
  - intros s' A' Hi' He Ht Hs' Hr'. eapply (HQ (with_unblock v (with_suspended 1 s)) A1); try done. cbn in He.
    eapply elapsed_ext; [exact He|apply walked_refl, (b_k _ _ (i_base _ _ _ Hi'))|done..].
Qed.

Lemma wp_unbind2 {X Y} (f : kcall astate unit) (g : kcall astate unit) (h : kcall astate X) (k : X → kcall astate Y) (Q : Y → sched → astate → Prop) s A :
  wp (f;; g;; h ≫= k) Q s A → wp (f;; g;; h) (λ x, wp (k x) Q) s A.
Proof.
  unfold wp, mbind, kcall_bind. destruct (f s A) as [[[[] s1] A1]|]; [|naive_solver]. destruct (g s1 A1) as [[[[] s2] A2]|]; [|naive_solver].
  destruct (h s2 A2) as [[[x s3] A3]|]; [eauto 10|naive_solver].
Qed.

Lemma wp_sim {X} (fc : kcall mem X) fa Q s m A : sim fc fa → rep m A → wp fa Q s A → ∃ x s' m' A', fc s m = Some (x, s', m') ∧ rep m' A' ∧ Q x s' A'.
Proof. intros Hs Hr (x & s' & A' & E & HQ). destruct (Hs _ _ _ _ _ _ Hr E) as (m' & Em & Hr'). by exists x, s', m', A'. Qed.

Lemma wp_delay_slept s A j k cur cc : sinv false s A → uxSchedulerSuspended s = 0 → pxCurrentTCB s = Some cur →
  tcbs s !! cur = Some cc → not_idle s cur → 0 < k ≤ portMAX_DELAY → Z.of_nat j < 2 ^ 32 → ∀ n,
  wp (vTaskDelay_interrupted j k;; ticks n) (λ _ s' A', slept k (Z.of_nat j + Z.of_nat n) s' A' cur) s A.
Proof.
  intros Hi Hs Hcur Hcc Hid Hk Hj n. unfold vTaskDelay_interrupted. rewrite (proj2 (Z.ltb_lt 0 k)) by lia.
  apply wp_bind, wp_bind, wp_bind, wp_suspend_all; [apply Hi|lia|]. rewrite Hs. cbn [Z.add]. apply wp_unbind2.
  eapply wp_sleep; [done..|]. intros s1 A1 s2 A2 Hk1 Ht1 Hr1 _ Hi2 He2 Ht2 Hs2 Hr2.
  eapply wp_mono; [by apply wp_ticks|]. intros _ s3 A3 (Hi3 & He3 & Ht3 & _). cbn.
  eapply (elapsed_slept _ _ _ s1 A1); [exact Hk1|rewrite Ht1; eauto|congruence|exact Hr1|].
  eapply elapsed_trans; [lia|lia|exact Hk1|apply Hi2|congruence|exact He2|exact He3].
Qed.

Lemma reach_running o s m A : reach o s m A → xSchedulerRunning s = true → rep m A ∧ sinv o s A.
Proof. intros Hre Hr. destruct (reach_inv _ _ _ _ Hre) as [Hm [Hn|Hi]]; [by rewrite (n_sched _ _ Hn) in Hr|done]. Qed.

(** C7. A delay is exact: a task that calls vTaskDelay with [k] is asleep until [k] ticks
    have passed and ready from then on, whether the ticks come while the call still has
    the scheduler suspended ([j] of them) or later, and also when the tick count
    overflows. *)
Theorem rtos_delay_exact s m A k j n cur : reach false s m A → xSchedulerRunning s = true → uxSchedulerSuspended s = 0 →
  pxCurrentTCB s = Some cur → xIdleTaskHandle s ≠ Some cur → 0 < k ≤ portMAX_DELAY → Z.of_nat j < 2 ^ 32 →
  ∃ s' m' A', (vTaskDelay_interrupted j k;; ticks n) s m = Some ((), s', m') ∧ rep m' A' ∧
    (Z.of_nat j + Z.of_nat n < k → remaining s' A' cur = Some (k - (Z.of_nat j + Z.of_nat n))) ∧
    (k ≤ Z.of_nat j + Z.of_nat n → ready s' A' cur ∧ cont A' !! xEventListItem cur = None).
Proof.
  intros Hre Hr Hs Hcur Hid Hk Hj. destruct (reach_running _ _ _ _ Hre Hr) as [Hm Hi].
  destruct (b_current _ _ (i_base _ _ _ Hi)) as (cur' & cc & Hcur' & Hcc). assert (cur' = cur) as -> by congruence.
  edestruct (wp_sim (vTaskDelay_interrupted j k;; ticks n)) as ([] & s' & m' & A' & E & Hr' & HQ); [|exact Hm|eapply wp_delay_slept; done|].
  { unfold vTaskDelay_interrupted. solve_sim. }
  by exists s', m', A'.
Qed.

(** ** Periods *)

Lemma wp_until_slept s A P k n cur cc : sinv false s A → uxSchedulerSuspended s = 0 → pxCurrentTCB s = Some cur →
  tcbs s !! cur = Some cc → not_idle s cur → ready s A cur → 0 ≤ P < 2 ^ 32 → 0 < k < 2 ^ 32 →
  let e := u32 (xTickCount s - P) in
  wp (w ← vTaskDelayUntil P k; ticks n;; mret w) (λ w s' A', w = u32 (P + k) ∧
    if e <? k then slept (k - e) (Z.of_nat n) s' A' cur else ready s' A' cur) s A.
Proof.
  intros Hi Hs Hcur Hcc Hid Hrd HP Hk e. pose proof (k_tick _ _ _ _ (b_k _ _ (i_base _ _ _ Hi))) as Ht. pose proof (i_base _ _ _ Hi) as Hb.
  destruct (should_delay_spec P (xTickCount s) k) as [E1 E2]; [done|done|lia|]. fold e in E1, E2.
  assert (0 ≤ e) as He0 by (unfold e, uwrap; apply Z.mod_pos_bound; lia).
  unfold vTaskDelayUntil. apply wp_bind, wp_bind, wp_suspend_all; [apply Hi|lia|]. rewrite Hs. cbn [Z.add].
  apply wp_bind, wp_gets. cbv zeta. cbn [xTickCount with_suspended]. rewrite E1. destruct (e <? k) eqn:Ee; zbool.
  - rewrite E2 by done. pose proof (wp_sleep s A 0 (k - e) cur cc) as Hsl.
    assert (∀ (Q : unit → sched → astate → Prop), wp (prvAddCurrentTaskToDelayedList (k - e) false;; (r ← xTaskResumeAll; if r : bool then mret () else portYIELD)) Q (with_suspended 1 s) A →
      wp (prvAddCurrentTaskToDelayedList (k - e) false) (λ _, wp (r ← xTaskResumeAll; if r : bool then mret () else portYIELD) Q) (with_suspended 1 s) A) as Hun
      by (intros Q HQ; by apply wp_unbind in HQ).
    apply wp_bind. eapply wp_mono; [apply Hun, (Hsl (λ _ s' A', ∃ s1 A1, kinv (xTickCount s1 + 1) ∅ s1 A1 ∧ tcbs s1 = tcbs s ∧ remaining s1 A1 cur = Some (k - e) ∧
      sinv false s' A' ∧ elapsed 0 s1 A1 s' A' ∧ tcbs s' = tcbs s ∧ uxSchedulerSuspended s' = 0 ∧ xSchedulerRunning s' = true)); try done|].
    + unfold portMAX_DELAY. lia.
    + intros s1 A1 s' A' ? ? ? _ ? ? ? ? ?. by exists s1, A1.
    + intros [] s1 A1 Hw. apply wp_assoc, wp_bind. eapply wp_mono; [exact Hw|].
      intros _ s2 A2 (s0 & A0 & Hk0 & Ht0 & Hr0 & Hi2 & He2 & Ht2 & Hs2 & Hr2). apply wp_ret, wp_bind.
      eapply wp_mono; [by apply wp_ticks|]. intros _ s3 A3 (Hi3 & He3 & Ht3 & _). apply wp_ret. split; [done|].
      eapply (elapsed_slept _ _ _ s0 A0); [exact Hk0|rewrite Ht0; eauto|congruence|exact Hr0|].
      replace (Z.of_nat n) with (0 + Z.of_nat n) by lia. eapply elapsed_trans; [lia|lia|exact Hk0|apply Hi2|congruence|exact He2|exact He3].
  - apply wp_bind, wp_ret, wp_assoc, wp_bind. pose proof (b_pended _ _ Hb Hs) as Hp0. apply wp_resume_pended; [apply base_suspended; [done|lia]|apply Hid|done|by apply (b_pending _ _ Hb)|].
    intros s2 A2 Hi2 He2 Ht2 Hs2 Hr2. apply wp_ret, wp_bind. eapply wp_mono; [by apply wp_ticks|]. intros _ s3 A3 (Hi3 & He3 & Ht3 & _). apply wp_ret. split; [done|].
    eapply ready_woken; [exact Ht3|eapply elapsed_woken; [apply Hi2|exact He3]|].
    eapply (ready_woken (with_suspended 1 s)); [exact Ht2|eapply elapsed_woken; [|exact He2]; apply (base_suspended _ _ 1 Hb); lia|exact Hrd].
Qed.

(** A periodic task keeps its period: a call of vTaskDelayUntil made [e] ticks after
    the last wake time, with a period of [k], sleeps exactly the [k - e] ticks that are
    left, wherever the tick count overflows; when none are left it does not sleep.  The
    new wake time is one period after the old one. *)
Theorem rtos_period_exact s m A P k n cur : reach false s m A → xSchedulerRunning s = true → uxSchedulerSuspended s = 0 →
  pxCurrentTCB s = Some cur → xIdleTaskHandle s ≠ Some cur → ready s A cur → 0 ≤ P < 2 ^ 32 → 0 < k < 2 ^ 32 →
  let e := u32 (xTickCount s - P) in
  ∃ s' m' A', (w ← vTaskDelayUntil P k; ticks n;; mret w) s m = Some (u32 (P + k), s', m') ∧ rep m' A' ∧
    if e <? k then slept (k - e) (Z.of_nat n) s' A' cur else ready s' A' cur.
Proof.
  intros Hre Hr Hs Hcur Hid Hrd HP Hk e. destruct (reach_running _ _ _ _ Hre Hr) as [Hm Hi].
  destruct (b_current _ _ (i_base _ _ _ Hi)) as (cur' & cc & Hcur' & Hcc). assert (cur' = cur) as -> by congruence.
  pose proof (wp_until_slept s A P k n cur cc Hi Hs Hcur Hcc (conj Hr Hid) Hrd HP Hk) as Hw. cbv zeta in Hw.
  assert (sim (w ← vTaskDelayUntil P k; ticks n;; mret w) (w ← vTaskDelayUntil P k; ticks n;; mret w)) as Hsim by solve_sim.
  destruct (wp_sim _ _ _ _ _ _ Hsim Hm Hw) as (w & s' & m' & A' & E & Hr' & -> & HQ).
  by exists s', m', A'.
Qed.

(** ** Ticks while the scheduler is suspended *)

(** The tasks are in the same lists, with the same time to wait. *)
Definition same_tasks (s1 : sched) (A1 : astate) (s2 : sched) (A2 : astate) : Prop :=
  xTickCount s1 = xTickCount s2 ∧ xNumOfOverflows s1 = xNumOfOverflows s2 ∧ tcbs s1 = tcbs s2 ∧
  ∀ t, is_Some (tcbs s1 !! t) → cont A1 !! xStateListItem t = cont A2 !! xStateListItem t ∧
    cont A1 !! xEventListItem t = cont A2 !! xEventListItem t ∧ remaining s1 A1 t = remaining s2 A2 t.

Lemma elapsed_same n s A s1 A1 s2 A2 : base s1 A1 → base s2 A2 → kinv (xTickCount s + 1) ∅ s A → tcbs s1 = tcbs s → tcbs s2 = tcbs s →
  elapsed n s A s1 A1 → elapsed n s A s2 A2 → same_tasks s1 A1 s2 A2.
Proof.
  intros Hb1 Hb2 Hk T1 T2 H1 H2. split_and!; [by rewrite (e_count _ _ _ _ _ H1), (e_count _ _ _ _ _ H2)|by rewrite (e_over _ _ _ _ _ H1), (e_over _ _ _ _ _ H2)|congruence|].
  intros t. rewrite T1. intros [c Hc]. pose proof (k_prio _ _ _ _ Hk _ _ Hc) as Hp. destruct (remaining s A t) as [r|] eqn:Hr.
  - destruct (decide (n < r)) as [Hlt|Hge].
    + destruct (e_wait _ _ _ _ _ H1 t r Hr Hlt) as (-> & -> & ->). by destruct (e_wait _ _ _ _ _ H2 t r Hr Hlt) as (-> & -> & ->).
    + destruct (e_ready _ _ _ _ _ H1 t c r Hc Hr) as [S1 ->]; [lia|]. destruct (e_ready _ _ _ _ _ H2 t c r Hc Hr) as [S2 ->]; [lia|]. rewrite S1, S2.
      split_and!; [done|done|]. rewrite (remaining_none _ _ _ _ _ _ (b_k _ _ Hb1) S1), (remaining_none _ _ _ _ _ _ (b_k _ _ Hb2) S2);
        unfold xDelayedTaskList1, xDelayedTaskList2; lia || done.
  - destruct (e_other _ _ _ _ _ H1 t Hr) as [S1 E1]. destruct (e_other _ _ _ _ _ H2 t Hr) as [S2 E2]. rewrite S1, S2, E1, E2. split_and!; [done|done|].
    by rewrite (remaining_same _ _ _ _ _ _ _ _ _ Hk (b_k _ _ Hb1) Hr S1), (remaining_same _ _ _ _ _ _ _ _ _ Hk (b_k _ _ Hb2) Hr S2).
Qed.

(** [n] timer interrupts while a task has the scheduler suspended *)
Definition suspended_ticks {M} `{ListMem M} (n : nat) : kcall M unit :=
  vTaskSuspendAll;; ticks n;; r ← xTaskResumeAll; if r : bool then mret () else portYIELD.

Lemma wp_suspended_ticks n s A (Q : unit → sched → astate → Prop) : sinv false s A → xSchedulerRunning s = true → uxSchedulerSuspended s = 0 → Z.of_nat n < 2 ^ 32 →
  (∀ s' A', sinv false s' A' → elapsed (Z.of_nat n) s A s' A' → tcbs s' = tcbs s → Q () s' A') → wp (suspended_ticks n) Q s A.
Proof.
  intros Hi Hr Hs Hn HQ. pose proof (i_base _ _ _ Hi) as Hb. pose proof (b_pended _ _ Hb Hs) as Hp. unfold suspended_ticks.
  apply wp_bind, wp_suspend_all; [done|lia|]. rewrite Hs. cbn [Z.add]. pose proof (base_suspended _ _ 1 Hb ltac:(lia)) as Hb1.
  apply wp_bind, wp_ticks_pended; [done|done|cbn; lia|cbn -[Z.pow]; lia|]. cbn -[Z.pow]. rewrite Hp, Z.add_0_l.
  apply wp_resume_pended; [apply base_pended; [done|lia|cbn; lia]|done|done|by apply (b_pending _ _ Hb)|].
  intros s' A' Hi' He Ht _ _. apply HQ; [done| |done]. eapply elapsed_ext; [exact He|apply walked_refl, (b_k _ _ (i_base _ _ _ Hi'))|done..].
Qed.

(** C23. No tick is lost while the scheduler is suspended: [n] ticks in that time, and
    then xTaskResumeAll, leave the clock, the lists of all tasks and what they still have
    to wait exactly as [n] ticks of the running scheduler do. *)
Theorem rtos_suspended_ticks s m A n : reach false s m A → xSchedulerRunning s = true → uxSchedulerSuspended s = 0 → Z.of_nat n < 2 ^ 32 →
  ∃ s1 m1 A1 s2 m2 A2, suspended_ticks n s m = Some ((), s1, m1) ∧ ticks n s m = Some ((), s2, m2) ∧ rep m1 A1 ∧ rep m2 A2 ∧
    same_tasks s1 A1 s2 A2.
Proof.
  intros Hre Hr Hs Hn. destruct (reach_running _ _ _ _ Hre Hr) as [Hm Hi]. pose proof (i_base _ _ _ Hi) as Hb.
  assert (sim (suspended_ticks n) (suspended_ticks n)) as Hsim by (unfold suspended_ticks; solve_sim).
  assert (wp (suspended_ticks n) (λ _ s' A', sinv false s' A' ∧ elapsed (Z.of_nat n) s A s' A' ∧ tcbs s' = tcbs s) s A) as Hw
    by (apply wp_suspended_ticks; auto).
  destruct (wp_sim _ _ _ _ _ _ Hsim Hm Hw) as ([] & s1 & m1 & A1 & E1 & Hr1 & Hi1 & He1 & Ht1).
  destruct (wp_sim _ _ _ _ _ _ (sim_ticks n) Hm (wp_ticks n s A Hi Hr Hs)) as ([] & s2 & m2 & A2 & E2 & Hr2 & Hi2 & He2 & Ht2 & _).
  exists s1, m1, A1, s2, m2, A2. split_and!; [done|done|done|done|].
  eapply elapsed_same; [apply Hi1|apply Hi2|apply Hb|done|done|exact He1|exact He2].
Qed.

(** ** Time outs *)

Lemma timeout_check n o k s0 s : 0 ≤ n < 2 ^ 32 → 0 ≤ xTickCount s0 < 2 ^ 32 → 0 ≤ k ≤ portMAX_DELAY →
  xTickCount s = u32 (xTickCount s0 + n) → xNumOfOverflows s = overflowed (xNumOfOverflows s0) ((xTickCount s0 + n) / 2 ^ 32) →
  o = TimeOut (xNumOfOverflows s0) (xTickCount s0) → ∀ M `(ListMem M) (m : M),
  xTaskCheckForTimeOut o k s m = Some (
    (if k =? portMAX_DELAY then (false, o, k)
     else if n <? k then (false, TimeOut (xNumOfOverflows s) (xTickCount s), k - n) else (true, o, k)), s, m).
Proof.
  intros Hn Ht Hk Hc Ho -> M L m. unfold xTaskCheckForTimeOut, vTaskSetTimeOutState, mbind, kcall_bind, gets, mret, kcall_ret. cbn [xOverflowCount xTimeOnEntering].
  destruct (k =? portMAX_DELAY) eqn:Ek; zbool; [done|]. unfold portMAX_DELAY in *. rewrite Hc.
  assert (u32 (u32 (xTickCount s0 + n) - xTickCount s0) = n) as ->.
  { unfold uwrap. change (2 ^ 32) with 4294967296 in *. Z.to_euclidean_division_equations; lia. }
  assert (negb (xNumOfOverflows s =? xNumOfOverflows s0) && (xTickCount s0 <=? u32 (xTickCount s0 + n)) = false) as ->.
  { destruct (decide (xTickCount s0 + n < 2 ^ 32)) as [Hlt|Hge].
    - rewrite Ho, Z.div_small by lia. by rewrite Z.eqb_refl.
    - assert (u32 (xTickCount s0 + n) < xTickCount s0) as Hw by (unfold uwrap; change (2 ^ 32) with 4294967296 in *; Z.to_euclidean_division_equations; lia).
      rewrite (proj2 (Z.leb_gt _ _) Hw). apply andb_false_r. }
  destruct (n <? k) eqn:E; zbool; [|done]. by rewrite (u32_id (k - n)), Hc by lia.
Qed.

(** Time outs are exact: [n] ticks after vTaskSetTimeOutState, xTaskCheckForTimeOut
    reports a time out if and only if the [k] ticks to wait are over (never, for
    portMAX_DELAY); otherwise it leaves the [k - n] ticks that are left, from now on.
    Overflows of the tick count in between make no difference. *)
Theorem rtos_timeout_exact s m A n k : reach false s m A → xSchedulerRunning s = true → uxSchedulerSuspended s = 0 →
  Z.of_nat n < 2 ^ 32 → 0 ≤ k ≤ portMAX_DELAY →
  ∃ r s' m', (o ← vTaskSetTimeOutState; ticks n;; xTaskCheckForTimeOut o k) s m = Some (r, s', m') ∧
    let o := TimeOut (xNumOfOverflows s) (xTickCount s) in
    xTickCount s' = u32 (xTickCount s + Z.of_nat n) ∧
    r = if k =? portMAX_DELAY then (false, o, k)
        else if Z.of_nat n <? k then (false, TimeOut (xNumOfOverflows s') (xTickCount s'), k - Z.of_nat n) else (true, o, k).
Proof.
  intros Hre Hr Hs Hn Hk. destruct (reach_running _ _ _ _ Hre Hr) as [Hm Hi]. pose proof (k_tick _ _ _ _ (b_k _ _ (i_base _ _ _ Hi))) as Ht.
  destruct (wp_sim _ _ _ _ _ _ (sim_ticks n) Hm (wp_ticks n s A Hi Hr Hs)) as ([] & s' & m' & A' & E & _ & _ & He & _).
  eexists _, s', m'. split; [|split; [apply (e_count _ _ _ _ _ He)|reflexivity]].
  unfold mbind at 1, kcall_bind at 1, vTaskSetTimeOutState at 1, gets at 1. unfold mbind at 1, kcall_bind at 1. rewrite E.
  exact (timeout_check (Z.of_nat n) _ k s s' ltac:(lia) Ht Hk (e_count _ _ _ _ _ He) (e_over _ _ _ _ _ He) eq_refl mem mem_lists m').
Qed.

(** ** A system with three tasks and an event list *)

Definition state : Type := bool * sched * mem * astate.

Definition play_call (c : call) (x : state) : option state :=
  let '(o, s, m, A) := x in
  if decide (legal c s A) then
    match run_call c s m, run_call c s A with Some (_, _, m'), Some (a, s', A') => Some (owes c a o, s', m', A') | _, _ => None end
  else None.

Fixpoint play (cs : list call) (x : state) : option state :=
  match cs with [] => Some x | c :: cs => x ← play_call c x; play cs x end.

Definition reached (x : state) : Prop := let '(o, s, m, A) := x in reach o s m A.

Lemma play_reached cs : ∀ x y, reached x → play cs x = Some y → reached y.
Proof.
  induction cs as [|c cs IH]; intros x y Hx; cbn [play]; [by intros [= <-]|].
  destruct (play_call c x) as [z|] eqn:E; [|done]. cbn [mbind option_bind]. apply IH. destruct x as [[[o s] m] A]. cbn in E.
  case_decide as Hl; [|done]. destruct (run_call c s m) as [[[a1 s1] m1]|] eqn:Em; [|done]. destruct (run_call c s A) as [[[a2 s2] A2]|] eqn:EA; [|done].
  injection E as <-. destruct (reach_inv _ _ _ _ Hx) as [Hr _]. destruct (sim_call c s m A _ _ _ Hr EA) as (m' & Em' & _).
  assert (a1 = a2 ∧ s1 = s2) as [-> ->] by (split; congruence). by eapply reach_call.
Qed.

Definition demo_calls : list call := [CEventList 10; CCreate 0 2; CCreate 1 9; CStart 2; CTick; CPrioritySet (Some 1%nat) 1].
Definition demo : state := match play demo_calls (false, sched0, mem0, astate0) with Some x => x | None => (true, sched0, mem0, astate0) end.
Definition demo_s : sched := demo.1.1.2.
Definition demo_m : mem := demo.1.2.
Definition demo_A : astate := demo.2.

Lemma demo_reach : reach false demo_s demo_m demo_A.
Proof.
  assert (reached demo) as H.
  { apply (play_reached demo_calls (false, sched0, mem0, astate0)); [apply reach_start|]. vm_compute. reflexivity. }
  assert (demo = (false, demo_s, demo_m, demo_A)) as E by (vm_compute; reflexivity). by rewrite E in H.
Qed.

Example demo_facts : xSchedulerRunning demo_s = true ∧ uxSchedulerSuspended demo_s = 0 ∧ pxCurrentTCB demo_s = Some 0%nat ∧
  xIdleTaskHandle demo_s = Some 2%nat ∧ xYieldPending demo_s = false.
Proof. vm_compute. done. Qed.

Lemma demo_clock : xTickCount demo_s = 1.
Proof. vm_compute. reflexivity. Qed.
Lemma demo_overflows : xNumOfOverflows demo_s = 0.
Proof. vm_compute. reflexivity. Qed.

Lemma demo_ready : ready demo_s demo_A 0.
Proof. exists (Tcb 2 0 taskNOT_WAITING_NOTIFICATION). split; vm_compute; reflexivity. Qed.

Lemma demo_legal : legal (CPlace 10 7) demo_s demo_A.
Proof. apply (bool_decide_unpack _). vm_compute. exact I. Qed.

#[local] Opaque demo demo_s demo_m demo_A.

Lemma rtos_kernel_safe_witness : ∃ a s' m', run_call (CPlace 10 7) demo_s demo_m = Some (a, s', m').
Proof.
  destruct (rtos_kernel_safe false demo_s demo_m demo_A (CPlace 10 7) demo_reach demo_legal) as [(a & s' & m' & A' & E & _) _]. by exists a, s', m'.
Defined.

Lemma rtos_highest_runs_witness : top_task demo_s demo_A 0.
Proof.
  destruct demo_facts as (H1 & _ & H3 & _ & H6). destruct (rtos_highest_runs demo_s demo_m demo_A demo_reach H1) as [H _].
  exact (H 0%nat H6 H3 demo_ready).
Defined.

Lemma rtos_delay_exact_witness : ∃ s' m' A', (vTaskDelay_interrupted 1 3;; ticks 1) demo_s demo_m = Some ((), s', m') ∧ rep m' A' ∧
  remaining s' A' 0 = Some 1.
Proof.
  destruct demo_facts as (H1 & H2 & H3 & H4 & _).
  destruct (rtos_delay_exact demo_s demo_m demo_A 3 1 1 0 demo_reach H1 H2 H3) as (s' & m' & A' & E & Hr & Hlt & _);
    [rewrite H4; discriminate|vm_compute; split; [reflexivity|discriminate]|reflexivity|]. exists s', m', A'. split; [exact E|]. split; [exact Hr|]. apply Hlt. reflexivity.
Defined.

Lemma rtos_period_exact_witness : ∃ s' m' A', (w ← vTaskDelayUntil 4294967295 5; ticks 1;; mret w) demo_s demo_m = Some (4, s', m') ∧ rep m' A' ∧
  slept 3 1 s' A' 0.
Proof.
  destruct demo_facts as (H1 & H2 & H3 & H4 & _).
  destruct (rtos_period_exact demo_s demo_m demo_A 4294967295 5 1 0 demo_reach H1 H2 H3) as (s' & m' & A' & E & Hr & HS);
    [rewrite H4; discriminate|exact demo_ready|split; [discriminate|reflexivity]|split; reflexivity|]. exists s', m', A'. split; [exact E|]. split; [exact Hr|]. rewrite demo_clock in HS. exact HS.
Defined.

Lemma rtos_suspended_ticks_witness : ∃ s1 m1 A1 s2 m2 A2, suspended_ticks 3 demo_s demo_m = Some ((), s1, m1) ∧ ticks 3 demo_s demo_m = Some ((), s2, m2) ∧
  rep m1 A1 ∧ rep m2 A2 ∧ same_tasks s1 A1 s2 A2.
Proof.
  destruct demo_facts as (H1 & H2 & _). apply (rtos_suspended_ticks demo_s demo_m demo_A 3 demo_reach H1 H2). reflexivity.
Defined.

Lemma rtos_timeout_exact_witness : ∃ s' m', (o ← vTaskSetTimeOutState; ticks 2;; xTaskCheckForTimeOut o 2) demo_s demo_m = Some ((true, TimeOut 0 1, 2), s', m').
Proof.
  destruct demo_facts as (H1 & H2 & _).
  destruct (rtos_timeout_exact demo_s demo_m demo_A 2 2 demo_reach H1 H2) as (r & s' & m' & E & _ & Hr); [reflexivity|split; discriminate|].
  exists s', m'. rewrite E, Hr. rewrite demo_clock, demo_overflows. reflexivity.
Defined.

(** ** Resuming a task that waits for a notification *)

Fixpoint run_calls (cs : list call) (s : sched) (m : mem) : option (sched * mem) :=
  match cs with
  | [] => Some (s, m)
  | c :: cs => match run_call c s m with Some (_, s, m) => run_calls cs s m | None => None end
  end.

(** A task that waits for a notification without a time limit is taken for a suspended
    one: vTaskResume makes it ready although nothing has notified it. *)
Theorem rtos_resume_unnotified :
  ∃ s m, run_calls [CTakeWait portMAX_DELAY; CResume (Some 0%nat)] demo_s demo_m = Some (s, m) ∧
    pxCurrentTCB s = Some 0%nat ∧ ucNotifyState <$> tcbs s !! 0%nat = Some taskWAITING_NOTIFICATION.
Proof. eexists _, _. split; [vm_compute; reflexivity|]. split; vm_compute; reflexivity. Qed.

(** With the scheduler suspended, xTaskResumeFromISR puts such a task into the pending
    ready list, and a notification from another interrupt inserts the same item again;
    xTaskResumeAll then removes it twice and follows a null container. *)
Theorem rtos_resume_notify_clash :
  is_Some (run_calls [CTakeWait portMAX_DELAY; CSuspendAll; CResumeFromISR 0; CGiveFromISR 0 true] demo_s demo_m) ∧
  run_calls [CTakeWait portMAX_DELAY; CSuspendAll; CResumeFromISR 0; CGiveFromISR 0 true; CResumeAll] demo_s demo_m = None.
Proof. split; [eexists; vm_compute; reflexivity|vm_compute; reflexivity]. Qed.

End RtosRun.
