(* ===== verification/RtosFrame.v ===== *)
(** * What calls of the FreeRTOS scheduler leave alone

    For the parts of the kernel that are built on the scheduler: which changes a call can
    make to the lists of waiting tasks, to the task that runs and to a task that is about
    to block.  The statements are about what holds when a call ends, so they need none of
    the invariants of [RtosSys], and they follow the code: [keeps] composes along the
    sequence of statements. *)

From S2P Require Import Prelude RtosList RtosTask RtosSched RtosSys RtosCalls RtosRun.
Import RtosList RtosTask RtosSched RtosSys RtosCalls RtosRun.

Module RtosFrame.

#[local] Arguments xStateListItem : simpl never.
#[local] Arguments xEventListItem : simpl never.
#[local] Arguments pvOwner_task : simpl never.

(** ** Relations between the states before and after *)

(** The scheduler runs, and the lists it names are its own. *)
Record sane (s : sched) : Prop := {
  sn_running : xSchedulerRunning s = true;
  sn_current : is_Some (pxCurrentTCB s);
  sn_delayed : (pxDelayedTaskList s < 10)%nat;
  sn_overflow : (pxOverflowDelayedTaskList s < 10)%nat;
  sn_prio : ∀ t c, tcbs s !! t = Some c → (uxPriority c < 5)%nat;
  sn_top : (uxTopReadyPriority s < 5)%nat
}.

Definition krel : Type := sched → astate → sched → astate → Prop.
Definition keeps {X} (R : krel) (f : kcall astate X) : Prop :=
  ∀ s A x s' A', sane s → f s A = Some (x, s', A') → sane s' ∧ R s A s' A'.

Class KRel (R : krel) : Prop := {
  krel_refl s A : R s A s A;
  krel_trans s1 A1 s2 A2 s3 A3 : R s1 A1 s2 A2 → R s2 A2 s3 A3 → R s1 A1 s3 A3
}.

(** Event lists only lose members, and none disappears. *)
Definition shrink (A A' : astate) : Prop :=
  (∀ n l, (10 ≤ l)%nat → cont A' !! n = Some l → cont A !! n = Some l) ∧
  (∀ l, (10 ≤ l)%nat → is_Some (seqs A !! l) → is_Some (seqs A' !! l)).

Definition waiting (s : sched) (t : nat) : Prop := ∃ c, tcbs s !! t = Some c ∧ ucNotifyState c = taskWAITING_NOTIFICATION.

(** No other task than [c0] comes to wait for a notification. *)
Definition gentle (c0 : option nat) : krel := λ s A s' A',
  shrink A A' ∧ xIdleTaskHandle s' = xIdleTaskHandle s ∧ ∀ t, c0 ≠ Some t → waiting s' t → waiting s t.

(** What interrupt handlers cannot do: end the suspension of the scheduler, or change the
    running task under it *)
Definition steady : krel := λ s A s' A',
  uxSchedulerSuspended s' = uxSchedulerSuspended s ∧ (uxSchedulerSuspended s ≠ 0 → pxCurrentTCB s' = pxCurrentTCB s).

(** A task that is in a ready list and waits for nothing *)
Definition calm (s : sched) (A : astate) (t : nat) : Prop :=
  cont A !! xEventListItem t = None ∧ (∃ l, (l < 5)%nat ∧ cont A !! xStateListItem t = Some l) ∧ ¬ waiting s t.
Definition soothing (X : nat → Prop) : krel := λ s A s' A', ∀ t, ¬ X t → calm s A t → calm s' A' t.
Definition nobody (t : nat) : Prop := False.

#[export] Instance gentle_krel c0 : KRel (gentle c0).
Proof.
  split; [intros s A; split_and!; [split; eauto|done|done]|].
  intros s1 A1 s2 A2 s3 A3 ([H1 H2] & H3 & H4) ([H5 H6] & H7 & H8). split_and!; [split; eauto|congruence|eauto].
Qed.
#[export] Instance steady_krel : KRel steady.
Proof.
  split; [done|]. intros s1 A1 s2 A2 s3 A3 [H1 H2] [H3 H4]. split; [congruence|]. intros Hs. rewrite H4 by congruence. auto.
Qed.
#[export] Instance soothing_krel X : KRel (soothing X).
Proof. split; unfold soothing; eauto. Qed.

(** ** Rules *)

Section rules.
Context (R : krel) `{!KRel R}.

Lemma keeps_bind {X Y} (f : kcall astate X) (k : X → kcall astate Y) : keeps R f → (∀ x, keeps R (k x)) → keeps R (f ≫= k).
Proof using Type*.
  intros Hf Hk s A y s' A' Hs. unfold mbind, kcall_bind. destruct (f s A) as [[[x s1] A1]|] eqn:E; [|done]. intros E'.
  destruct (Hf _ _ _ _ _ Hs E) as [Hs1 H1]. destruct (Hk _ _ _ _ _ _ Hs1 E') as [Hs2 H2]. split; [done|]. by eapply krel_trans.
Qed.
Lemma keeps_ret {X} (x : X) : keeps R (mret x).
Proof using Type*. intros s A y s' A' Hs [= <- <- <-]. split; [done|apply krel_refl]. Qed.
Lemma keeps_gets {X} (f : sched → X) : keeps R (gets f).
Proof using Type*. intros s A y s' A' Hs [= <- <- <-]. split; [done|apply krel_refl]. Qed.
Lemma keeps_fail {X} : keeps R (fail : kcall astate X).
Proof. done. Qed.
Lemma keeps_modify f : (∀ s A, sane s → sane (f s) ∧ R s A (f s) A) → keeps R (modify f).
Proof. intros Hf s A y s' A' Hs [= <- <- <-]. auto. Qed.
Lemma keeps_list o : (∀ s A r A', astep o A = Some (r, A') → R s A s A') → keeps R (list_call o).
Proof.
  intros Ho s A r s' A' Hs. unfold list_call, list_step, spec_lists. destruct (astep o A) as [[r1 A1]|] eqn:E; [|done].
  intros [= <- <- <-]. eauto.
Qed.

(** What is read from the state is known. *)
Lemma keeps_gets_bind {X Y} (f : sched → X) (k : X → kcall astate Y) : (∀ x, (∃ s, sane s ∧ x = f s) → keeps R (k x)) → keeps R (gets f ≫= k).
Proof. intros Hk s A y s' A' Hs E. eapply (Hk (f s)); eauto. Qed.
Lemma keeps_priority_bind {Y} t (k : nat → kcall astate Y) : (∀ p, (p < 5)%nat → keeps R (k p)) → keeps R (priority t ≫= k).
Proof.
  intros Hk s A y s' A' Hs. unfold priority, tcb, gets, mbind, kcall_bind, mret, kcall_ret, fail.
  destruct (tcbs s !! t) as [c|] eqn:E; [|done]. apply Hk; [|done]. by eapply sn_prio.
Qed.

End rules.

Create HintDb keeps.
#[export] Hint Resolve keeps_ret keeps_gets keeps_fail : keeps.
#[export] Hint Extern 2 (KRel _) => apply _ : keeps.

Ltac solve_keeps :=
  repeat (intros; cbv zeta; lazymatch goal with
    | |- keeps _ (_ ≫= _) => apply keeps_bind; [apply _|..]
    | |- keeps _ (match ?x with _ => _ end) => destruct x
    | |- keeps _ _ => first [solve [eauto 3 with keeps]]
    end).

(** ** Lists *)

Section lists.
Context (A : astate).

Lemma remove_inv n r A' : astep (ORemove n) A = Some (r, A') →
  is_Some (cont A !! n) ∧ cont A' = delete n (cont A) ∧ ∀ l, is_Some (seqs A !! l) → is_Some (seqs A' !! l).
Proof.
  cbn [astep]. destruct (cont A !! n) as [l|] eqn:E; [|done]. cbn. destruct (seqs A !! l) as [[xs c]|]; [|done]. cbn.
  destruct (bool_decide _); [|done]. destruct (cut n xs) as [ys zs]. intros [= <- <-]. split_and!; [done|done|].
  intros k Hk. cbn. apply lookup_insert_is_Some'. by right.
Qed.

Lemma insert_inv o l n r A' : o = OInsert l n ∨ o = OInsertEnd l n → astep o A = Some (r, A') →
  cont A !! n = None ∧ cont A' = <[n := l]> (cont A) ∧ ∀ k, is_Some (seqs A !! k) → is_Some (seqs A' !! k).
Proof.
  assert (free A n = true → cont A !! n = None) as Hfree by apply bool_decide_eq_true.
  intros [-> | ->]; cbn [astep]; (destruct (seqs A !! l) as [[xs c]|]; [|done]); cbn; (destruct (vals A !! n); [|done]); cbn;
    (destruct (free A n) eqn:E; [|done]).
  - intros [= <- <-]. split_and!; [auto|done|]. intros k Hk. cbn. apply lookup_insert_is_Some'. by right.
  - destruct (cut_before c xs) as [ys zs]. intros [= <- <-]. split_and!; [auto|done|]. intros k Hk. cbn. apply lookup_insert_is_Some'. by right.
Qed.

(** The other calls leave items where they are. *)
Definition still (o : op) : bool := match o with OInsert _ _ | OInsertEnd _ _ | ORemove _ => false | _ => true end.

Lemma still_inv o r A' : still o = true → astep o A = Some (r, A') → cont A' = cont A ∧ ∀ k, is_Some (seqs A !! k) → is_Some (seqs A' !! k).
Proof.
  assert (∀ l p k, is_Some (seqs A !! k) → is_Some ((<[l := p]> (seqs A) : gmap nat (list nat * ptr)) !! k)) as Hins
    by (intros; apply lookup_insert_is_Some'; by right).
  destruct o as [l|n v|n|n v|? ?|? ?|?|l|l|l|n|n]; try done; intros _; cbn [astep].
  - destruct (seqs A !! l); [done|]. intros [= <- <-]. split; [done|]. intros k. apply Hins.
  - destruct (vals A !! n); [done|]. destruct (_ && _); [|done]. by intros [= <- <-].
  - destruct (vals A !! n); [|done]. cbn. destruct (free A n); [|done]. by intros [= <- <-].
  - destruct (vals A !! n); [|done]. cbn. destruct (_ && _); [|done]. by intros [= <- <-].
  - destruct (seqs A !! l) as [[xs c]|]; [|done]. cbn. destruct (cut_after c xs) as [ys zs]. destruct (head (zs ++ ys)); [|done].
    intros [= <- <-]. split; [done|]. intros k. apply Hins.
  - destruct (seqs A !! l) as [[xs c]|]; [|done]. by intros [= <- <-].
  - destruct (seqs A !! l) as [[xs c]|]; [|done]. cbn. destruct (head xs); [|done]. by intros [= <- <-].
  - destruct (vals A !! n); [|done]. by intros [= <- <-].
  - destruct (vals A !! n); [|done]. by intros [= <- <-].
Qed.

End lists.

(** The variables that the relations are about *)
Definition alike (s s' : sched) : Prop :=
  tcbs s' = tcbs s ∧ pxCurrentTCB s' = pxCurrentTCB s ∧ uxSchedulerSuspended s' = uxSchedulerSuspended s ∧ xIdleTaskHandle s' = xIdleTaskHandle s.

(** Relations that hold of list calls which leave items where they are, and of assignments
    to other variables *)
Class Still (R : krel) : Prop := {
  still_krel :: KRel R;
  still_list o s A r A' : still o = true → astep o A = Some (r, A') → R s A s A';
  still_alike s s' A : alike s s' → R s A s' A
}.

#[export] Instance gentle_still c0 : Still (gentle c0).
Proof.
  split; [apply _|..].
  - intros o s A r A' Ho E. destruct (still_inv _ _ _ _ Ho E) as [Hc Hl]. split_and!; [|done|done]. split; [by rewrite Hc|auto].
  - intros s s' A (Ht & _ & _ & Hi). split_and!; [split; eauto|done|]. unfold waiting. by rewrite Ht.
Qed.
#[export] Instance steady_still : Still steady.
Proof. split; [apply _|by intros|]. intros s s' A (_ & Hc & Hs & _). by split. Qed.
#[export] Instance soothing_still X : Still (soothing X).
Proof.
  split; [apply _|..].
  - intros o s A r A' Ho E t _ Ht. destruct (still_inv _ _ _ _ Ho E) as [Hc _]. unfold calm in *. by rewrite Hc.
  - intros s s' A (Ht & _) t _. unfold calm, waiting. by rewrite Ht.
Qed.

Section reads.
Context (R : krel) `{!Still R}.

Lemma keeps_still o : still o = true → keeps R (list_call o).
Proof using Type*. intros Ho. apply keeps_list. intros. by eapply still_list. Qed.
Ltac by_still := solve_keeps; try (by apply keeps_still).

Lemma keeps_initialise l : keeps R (vListInitialise l).
Proof using Type*. apply keeps_bind; [apply _|by apply keeps_still|solve_keeps]. Qed.
Lemma keeps_set_value n v : keeps R (listSET_LIST_ITEM_VALUE n v).
Proof using Type*. apply keeps_bind; [apply _|by apply keeps_still|solve_keeps]. Qed.
Lemma keeps_get_value n : keeps R (listGET_LIST_ITEM_VALUE n).
Proof using Type*. apply keeps_bind; [apply _|by apply keeps_still|solve_keeps]. Qed.
Lemma keeps_length l : keeps R (listCURRENT_LIST_LENGTH l).
Proof using Type*. apply keeps_bind; [apply _|by apply keeps_still|solve_keeps]. Qed.
Lemma keeps_container n : keeps R (listLIST_ITEM_CONTAINER n).
Proof using Type*. apply keeps_bind; [apply _|by apply keeps_still|solve_keeps]. Qed.
Lemma keeps_owner_of r : keeps R (owner_of r).
Proof using Type*. unfold owner_of. solve_keeps. Qed.
Lemma keeps_head l : keeps R (listGET_OWNER_OF_HEAD_ENTRY l).
Proof using Type*. apply keeps_bind; [apply _|by apply keeps_still|apply keeps_owner_of]. Qed.
Lemma keeps_next l : keeps R (listGET_OWNER_OF_NEXT_ENTRY l).
Proof using Type*. apply keeps_bind; [apply _|by apply keeps_still|apply keeps_owner_of]. Qed.
Lemma keeps_empty l : keeps R (listLIST_IS_EMPTY l).
Proof using Type*. apply keeps_bind; [apply _|apply keeps_length|solve_keeps]. Qed.
Lemma keeps_tcb t : keeps R (tcb t).
Proof using Type*. unfold tcb. solve_keeps. Qed.
Lemma keeps_current : keeps R current.
Proof using Type*. unfold current. solve_keeps. Qed.
Lemma keeps_priority t : keeps R (priority t).
Proof using Type*. apply keeps_bind; [apply _|apply keeps_tcb|solve_keeps]. Qed.
Lemma keeps_handle h : keeps R (prvGetTCBFromHandle h).
Proof using Type*. unfold prvGetTCBFromHandle. destruct h; [solve_keeps|apply keeps_current]. Qed.
Lemma keeps_highest p : keeps R (highest p).
Proof using Type*. induction p; cbn [highest]; (apply keeps_bind; [apply _|apply keeps_empty|]); solve_keeps; done. Qed.

End reads.

#[export] Hint Resolve keeps_initialise keeps_set_value keeps_get_value keeps_length keeps_container keeps_owner_of keeps_head
  keeps_next keeps_empty keeps_tcb keeps_current keeps_priority keeps_handle keeps_highest : keeps.
#[export] Hint Extern 2 (Still _) => apply _ : keeps.

(** Assignments to the variables of the scheduler *)
Definition same_lists_of (s s' : sched) : Prop :=
  xSchedulerRunning s' = xSchedulerRunning s ∧ pxDelayedTaskList s' = pxDelayedTaskList s ∧
  pxOverflowDelayedTaskList s' = pxOverflowDelayedTaskList s ∧ uxTopReadyPriority s' = uxTopReadyPriority s.

Section assignments.
Context (R : krel) `{!Still R}.

Lemma keeps_mild f : (∀ s, alike s (f s) ∧ same_lists_of s (f s)) → keeps R (modify f).
Proof using Type*.
  intros Hf. apply keeps_modify. intros s A Hs. destruct (Hf s) as [Ha (H1 & H2 & H3 & H4)]. split; [|by apply still_alike].
  destruct Ha as (H5 & H6 & _), Hs. split; rewrite ?H1, ?H2, ?H3, ?H4, ?H5, ?H6; done.
Qed.
Lemma keeps_with_top p : (p < 5)%nat → keeps R (modify (with_top p)).
Proof using Type*. intros Hp. apply keeps_modify. intros s A []. split; [by split|by apply still_alike]. Qed.

Lemma keeps_with_unblock v : keeps R (modify (with_unblock v)).
Proof using Type*. by apply keeps_mild. Qed.
Lemma keeps_with_tick v : keeps R (modify (with_tick v)).
Proof using Type*. by apply keeps_mild. Qed.
Lemma keeps_with_pended v : keeps R (modify (with_pended v)).
Proof using Type*. by apply keeps_mild. Qed.
Lemma keeps_with_yield v : keeps R (modify (with_yield v)).
Proof using Type*. by apply keeps_mild. Qed.
Lemma keeps_with_overflows v : keeps R (modify (with_overflows v)).
Proof using Type*. by apply keeps_mild. Qed.
Lemma keeps_with_number v : keeps R (modify (with_number v)).
Proof using Type*. by apply keeps_mild. Qed.
Lemma keeps_with_deleted v : keeps R (modify (with_deleted v)).
Proof using Type*. by apply keeps_mild. Qed.
Lemma keeps_with_task_number v : keeps R (modify (with_task_number v)).
Proof using Type*. by apply keeps_mild. Qed.

Lemma keeps_record p : (p < 5)%nat → keeps R (taskRECORD_READY_PRIORITY p).
Proof using Type*. intros Hp. unfold taskRECORD_READY_PRIORITY. solve_keeps. by apply keeps_with_top. Qed.

End assignments.
#[export] Hint Resolve keeps_with_unblock keeps_with_tick keeps_with_pended keeps_with_yield keeps_with_overflows keeps_with_number
  keeps_with_deleted keeps_with_task_number keeps_record : keeps.

(** Walks over the delayed list, and choosing the next task apart *)
Section walks.
Context (R : krel) `{!Still R}.

Lemma keeps_reset_unblock : keeps R prvResetNextTaskUnblockTime.
Proof using Type*. unfold prvResetNextTaskUnblockTime. solve_keeps. Qed.

Lemma keeps_with_delayed x y : (x < 10)%nat → (y < 10)%nat → keeps R (modify (with_delayed x y)).
Proof using Type*. intros Hx Hy. apply keeps_modify. intros s A []. split; [by split|by apply still_alike]. Qed.

Lemma keeps_switch_lists : keeps R taskSWITCH_DELAYED_LISTS.
Proof using Type*.
  unfold taskSWITCH_DELAYED_LISTS. apply keeps_gets_bind. intros d (s & Hs & ->). apply keeps_gets_bind. intros o (s' & Hs' & ->).
  apply keeps_bind; [apply _|apply keeps_with_delayed; [apply Hs'|apply Hs]|]. intros _.
  apply keeps_bind; [apply _|solve_keeps|]. intros n. apply keeps_bind; [apply _|by apply keeps_mild|]. intros _. apply keeps_reset_unblock.
Qed.

End walks.
#[export] Hint Resolve keeps_reset_unblock keeps_switch_lists : keeps.

(** ** Calls only take tasks out of event lists *)

Section gentle.
Context (c0 : option nat).

Lemma gentle_remove n : keeps (gentle c0) (uxListRemove n).
Proof.
  apply keeps_bind; [apply _| |solve_keeps]. apply keeps_list. intros s A r A' E. destruct (remove_inv _ _ _ _ E) as (_ & Hc & Hl).
  split_and!; [|done|done]. split; [|auto]. intros k l _. rewrite Hc. by intros [_ ?]%lookup_delete_Some.
Qed.

Lemma gentle_insert_op o l n : o = OInsert l n ∨ o = OInsertEnd l n → (l < 10)%nat → keeps (gentle c0) (list_call o).
Proof.
  intros Ho Hl. apply keeps_list. intros s A r A' E. destruct (insert_inv _ _ _ _ _ _ Ho E) as (_ & Hc & Hk).
  split_and!; [|done|done]. split; [|auto]. intros k m Hm. rewrite Hc. intros [[_ ->]|[_ ?]]%lookup_insert_Some; [lia|done].
Qed.
Lemma gentle_insert_end l n : (l < 10)%nat → keeps (gentle c0) (vListInsertEnd l n).
Proof. intros Hl. apply keeps_bind; [apply _|eapply gentle_insert_op; [by right|done]|solve_keeps]. Qed.
Lemma gentle_insert l n : (l < 10)%nat → keeps (gentle c0) (vListInsert l n).
Proof. intros Hl. apply keeps_bind; [apply _|eapply gentle_insert_op; [by left|done]|solve_keeps]. Qed.

Lemma gentle_add_ready t : keeps (gentle c0) (prvAddTaskToReadyList t).
Proof.
  apply keeps_priority_bind. intros p Hp. apply keeps_bind; [apply _|by apply keeps_record; [apply _|]|]. intros _.
  apply gentle_insert_end. unfold pxReadyTasksLists. lia.
Qed.

Lemma gentle_update t f : (∀ c, (uxPriority c < 5)%nat → (uxPriority (f c) < 5)%nat) →
  (c0 ≠ Some t → ∀ c, ucNotifyState (f c) = taskWAITING_NOTIFICATION → ucNotifyState c = taskWAITING_NOTIFICATION) → keeps (gentle c0) (update_tcb t f).
Proof.
  intros Hp Hn s A x s' A' Hs. unfold update_tcb, tcb, set_tcb, gets, modify, mbind, kcall_bind, mret, kcall_ret, fail.
  destruct (tcbs s !! t) as [c|] eqn:E; [|done]. intros [= <- <- <-]. split.
  - destruct Hs. split; cbn; try done. intros u d [[<- <-]|[_ Hd]]%lookup_insert_Some; eauto.
  - split_and!; [split; eauto|done|]. intros u Hu (d & Hd & Hw). cbn in Hd. apply lookup_insert_Some in Hd as [[<- <-]|[_ Hd]]; [|by exists d].
    exists c. split; [done|]. by apply Hn.
Qed.

End gentle.
#[export] Hint Resolve gentle_remove gentle_insert_end gentle_insert gentle_add_ready : keeps.
#[export] Hint Extern 3 (_ < 10)%nat => (unfold xSuspendedTaskList, xPendingReadyList, xTasksWaitingTermination, xDelayedTaskList1, xDelayedTaskList2; lia) : keeps.

(** ** The task that is chosen *)

Lemma empty_inv l s A x s' A' : listLIST_IS_EMPTY l s A = Some (x, s', A') → s' = s ∧ A' = A.
Proof.
  unfold listLIST_IS_EMPTY, listCURRENT_LIST_LENGTH, list_call, list_step, spec_lists, mbind, kcall_bind. cbn [astep].
  destruct (seqs A !! l) as [[xs c]|]; [|done]. cbn. by intros [= <- <- <-].
Qed.

Lemma highest_inv top : ∀ s A p s' A', highest top s A = Some (p, s', A') → (p ≤ top)%nat ∧ s' = s ∧ A' = A.
Proof.
  induction top as [|top IH]; intros s A p s' A'; cbn [highest]; unfold mbind, kcall_bind;
    (destruct (listLIST_IS_EMPTY _ s A) as [[[[] s1] A1]|] eqn:E; [| |done]); apply empty_inv in E as [-> ->]; try done.
  - by intros [= <- <- <-].
  - intros H. destruct (IH _ _ _ _ _ H). split; [lia|done].
  - by intros [= <- <- <-].
Qed.

(** The running task is the one that the index of a ready list is at. *)
Definition chosen (s : sched) (A : astate) : Prop := ∃ p n xs, (p < 5)%nat ∧ seqs A !! p = Some (xs, Item n) ∧ pxCurrentTCB s = Some (pvOwner_task n).

Lemma select_inv s A x s' A' : sane s → taskSELECT_HIGHEST_PRIORITY_TASK s A = Some (x, s', A') →
  chosen s' A' ∧ cont A' = cont A ∧ (∀ k, is_Some (seqs A !! k) → is_Some (seqs A' !! k)) ∧ ∃ t p, (p < 5)%nat ∧ s' = with_top p (with_current (Some t) s).
Proof.
  intros Hs. unfold taskSELECT_HIGHEST_PRIORITY_TASK, mbind, kcall_bind, gets, modify.
  destruct (highest _ s A) as [[[p s1] A1]|] eqn:E; [|done]. apply highest_inv in E as (Hp & -> & ->). pose proof (sn_top _ Hs) as H5.
  unfold listGET_OWNER_OF_NEXT_ENTRY, list_call, list_step, spec_lists, mbind, kcall_bind. cbn [astep]. unfold pxReadyTasksLists.
  destruct (seqs A !! p) as [[xs c]|] eqn:El; [|done]. cbn. destruct (cut_after c xs) as [ys zs] eqn:Ec.
  destruct (head (zs ++ ys)) as [n|] eqn:Eh; [|done]. cbn. intros [= <- <- <-]. split_and!.
  - exists p, n, xs. split_and!; [lia| |done]. cbn. by rewrite lookup_insert_eq.
  - done.
  - intros k Hk. cbn. apply lookup_insert_is_Some'. by right.
  - exists (pvOwner_task n), p. split; [lia|done].
Qed.

Lemma chosen_ready lo X s A t : kinv lo X s A → chosen s A → pxCurrentTCB s = Some t → ∃ l, (l < 5)%nat ∧ cont A !! xStateListItem t = Some l.
Proof.
  intros Hk (p & n & xs & Hp & Hl & Hc) Ht. assert (t = pvOwner_task n) as -> by congruence.
  destruct (w_index _ (k_wf _ _ _ _ Hk) _ _ _ Hl) as [|(x & Hx & [= <-])]; [done|]. pose proof (w_member _ (k_wf _ _ _ _ Hk) _ _ _ _ Hl Hx) as Hm.
  destruct (item_cases n) as [En|En]; [exists p; split; [done|by rewrite <- En]|].
  rewrite En in Hm. apply (k_event _ _ _ _ Hk) in Hm. unfold xPendingReadyList in Hm. lia.
Qed.

Lemma sane_select p t s : sane s → (p < 5)%nat → sane (with_top p (with_current (Some t) s)).
Proof. intros [] Hp. split; cbn; done. Qed.

(** What the change of context keeps *)
Lemma keeps_switch R `{!Still R} : (∀ s A t p A', uxSchedulerSuspended s = 0 → cont A' = cont A → (∀ k, is_Some (seqs A !! k) → is_Some (seqs A' !! k)) →
    R s A (with_top p (with_current (Some t) (with_yield false s))) A') → keeps R vTaskSwitchContext.
Proof.
  intros HR s A x s' A' Hs. unfold vTaskSwitchContext, mbind at 1, kcall_bind at 1, gets.
  destruct (Z.eqb_spec (uxSchedulerSuspended s) 0) as [H0|H0]; cbn [negb].
  - unfold mbind, kcall_bind, modify. intros E. assert (sane (with_yield false s)) as Hy by (destruct Hs; by split).
    destruct (select_inv _ _ _ _ _ Hy E) as (_ & Hc & Hl & t & p & Hp & ->). split; [by apply sane_select|]. by apply HR.
  - intros [= <- <- <-]. split; [destruct Hs; by split|]. by apply still_alike.
Qed.

Lemma gentle_switch c0 : keeps (gentle c0) vTaskSwitchContext.
Proof. apply keeps_switch; [apply _|]. intros s A t p A' _ Hc Hl. split_and!; [split; [by rewrite Hc|auto]|done|done]. Qed.
Lemma steady_switch : keeps steady vTaskSwitchContext.
Proof. apply keeps_switch; [apply _|]. by intros s A t p A' H0 Hc Hl. Qed.
Lemma soothing_switch X : keeps (soothing X) vTaskSwitchContext.
Proof. apply keeps_switch; [apply _|]. intros s A t p A' _ Hc Hl u _. unfold calm, waiting. by rewrite Hc. Qed.
Lemma keeps_yield R : keeps R vTaskSwitchContext → keeps R portYIELD.
Proof. done. Qed.
#[export] Hint Resolve gentle_switch steady_switch soothing_switch keeps_yield : keeps.

(** ** Every call of a task *)

Section gentle_calls.
Context (c0 : option nat).
Abbreviation G := (gentle c0).

Lemma gentle_add_delayed k b : keeps G (prvAddCurrentTaskToDelayedList k b).
Proof.
  unfold prvAddCurrentTaskToDelayedList. apply keeps_bind; [apply _|solve_keeps|]. intros tick. apply keeps_bind; [apply _|solve_keeps|]. intros t.
  apply keeps_bind; [apply _|solve_keeps|]. intros _. destruct (_ && b); [apply gentle_insert_end; unfold xSuspendedTaskList; lia|].
  apply keeps_bind; [apply _|solve_keeps|]. intros _. destruct (_ <? _).
  - apply keeps_gets_bind. intros o (s & Hs & ->). apply gentle_insert, Hs.
  - apply keeps_gets_bind. intros o (s & Hs & ->). apply keeps_bind; [apply _|apply gentle_insert, Hs|]. intros _. solve_keeps.
Qed.
Lemma gentle_leave t : keeps G (leave_event_list t).
Proof. unfold leave_event_list. solve_keeps. Qed.
#[local] Hint Resolve gentle_add_delayed gentle_leave : keeps.

Lemma gentle_unblock fuel : ∀ tick b, keeps G (unblock_due fuel tick b).
Proof. induction fuel; intros; cbn [unblock_due]; solve_keeps. Qed.
#[local] Hint Resolve gentle_unblock : keeps.
Lemma gentle_tick : keeps G xTaskIncrementTick.
Proof. unfold xTaskIncrementTick. solve_keeps. Qed.
#[local] Hint Resolve gentle_tick : keeps.
Lemma gentle_tick_isr : keeps G vTickISR.
Proof. unfold vTickISR. solve_keeps. Qed.

Lemma gentle_with_suspended n : keeps G (modify (with_suspended n)).
Proof. apply keeps_modify. intros s A []. split; [by split|]. split_and!; [split; eauto|done|done]. Qed.
#[local] Hint Resolve gentle_with_suspended : keeps.
Lemma gentle_suspend_all : keeps G vTaskSuspendAll.
Proof. unfold vTaskSuspendAll. solve_keeps. Qed.
Lemma gentle_pending fuel : ∀ b, keeps G (move_pending fuel b).
Proof. induction fuel; intros; cbn [move_pending]; solve_keeps. Qed.
Lemma gentle_replay n : keeps G (replay_ticks n).
Proof. induction n; cbn [replay_ticks]; solve_keeps. Qed.
#[local] Hint Resolve gentle_suspend_all gentle_pending gentle_replay : keeps.
Lemma gentle_resume_all : keeps G xTaskResumeAll.
Proof. unfold xTaskResumeAll. solve_keeps. Qed.
#[local] Hint Resolve gentle_resume_all : keeps.
Lemma gentle_delay k : keeps G (vTaskDelay k).
Proof. unfold vTaskDelay. solve_keeps. Qed.
Lemma gentle_delay_until p k : keeps G (vTaskDelayUntil p k).
Proof. unfold vTaskDelayUntil. solve_keeps. Qed.

Lemma keeps_create_op R `{!Still R} n v : keeps R (list_call (OCreate n v)).
Proof. by apply keeps_still. Qed.
Lemma keeps_destroy_op R `{!Still R} n : keeps R (list_call (ODestroy n)).
Proof. by apply keeps_still. Qed.
#[local] Hint Resolve keeps_create_op keeps_destroy_op : keeps.

Lemma gentle_init_task t p : 0 ≤ p → keeps G (prvInitialiseNewTask t p).
Proof.
  intros Hp. unfold prvInitialiseNewTask. cbv zeta. apply keeps_bind; [apply _| |solve_keeps]. apply keeps_modify. intros s A [].
  split; [split; cbn; try done|split_and!; [split; eauto|done|]].
  - intros u c [[<- <-]|[_ Hu]]%lookup_insert_Some; [by apply clamp_range|eauto].
  - intros u _ (c & Hc & Hw). cbn in Hc. apply lookup_insert_Some in Hc as [[_ <-]|[_ Hc]]; [done|by exists c].
Qed.

Lemma gentle_add_new t : keeps G (prvAddNewTaskToReadyList t).
Proof.
  unfold prvAddNewTaskToReadyList. apply keeps_bind; [apply _|solve_keeps|]. intros n. apply keeps_bind; [apply _|solve_keeps|]. intros _.
  apply keeps_gets_bind. intros c (s & Hs & ->). apply keeps_gets_bind. intros r (s' & Hs' & ->).
  rewrite (sn_running _ Hs'). destruct (sn_current _ Hs) as [c ->]. cbn [negb]. solve_keeps.
Qed.
Lemma gentle_create t p : 0 ≤ p → keeps G (xTaskCreate true true t p).
Proof.
  intros Hp. unfold xTaskCreate. cbn [andb]. apply keeps_bind; [apply _|by apply gentle_init_task|]. intros _.
  apply keeps_bind; [apply _|apply gentle_add_new|solve_keeps].
Qed.

Lemma gentle_delete_tcb t : keeps G (prvDeleteTCB t).
Proof.
  unfold prvDeleteTCB. do 2 (apply keeps_bind; [apply _|solve_keeps|]; intros _). apply keeps_modify. intros s A [].
  split; [split; cbn; try done|split_and!; [split; eauto|done|]].
  - intros u c [_ Hu]%lookup_delete_Some. eauto.
  - intros u _ (c & Hc & Hw). cbn in Hc. apply lookup_delete_Some in Hc as [_ Hc]. by exists c.
Qed.
#[local] Hint Resolve gentle_delete_tcb : keeps.
Lemma gentle_delete h : keeps G (vTaskDelete h).
Proof. unfold vTaskDelete. solve_keeps. Qed.
Lemma gentle_reap_check : keeps G reap_check.
Proof. unfold reap_check. solve_keeps. Qed.
Lemma gentle_reap_take : keeps G reap_take.
Proof. unfold reap_take. solve_keeps. Qed.

Lemma gentle_priority_set h p : 0 ≤ p → keeps G (vTaskPrioritySet h p).
Proof.
  intros Hp. unfold vTaskPrioritySet. assert (∀ t, keeps G (update_tcb t (set_priority (clamp p)))) as Hu.
  { intros t. apply gentle_update; [|done]. intros c _. by apply clamp_range. }
  solve_keeps; try apply Hu.
Qed.

Lemma gentle_suspend h : keeps G (vTaskSuspend h).
Proof.
  unfold vTaskSuspend. do 4 (apply keeps_bind; [apply _|solve_keeps|]; intros ?). apply keeps_gets_bind. intros r (s & Hs & ->).
  rewrite (sn_running _ Hs). solve_keeps.
Qed.
Lemma gentle_is_suspended t : keeps G (prvTaskIsTaskSuspended t).
Proof. unfold prvTaskIsTaskSuspended. solve_keeps. Qed.
#[local] Hint Resolve gentle_is_suspended : keeps.
Lemma gentle_resume h : keeps G (vTaskResume h).
Proof. unfold vTaskResume. solve_keeps. Qed.
Lemma gentle_resume_isr t : keeps G (xTaskResumeFromISR t).
Proof. unfold xTaskResumeFromISR. solve_keeps. Qed.
Lemma gentle_remove_event l : keeps G (xTaskRemoveFromEventList l).
Proof. unfold xTaskRemoveFromEventList. solve_keeps. Qed.
Lemma gentle_remove_unordered t v : keeps G (xTaskRemoveFromUnorderedEventList t v).
Proof. unfold xTaskRemoveFromUnorderedEventList. solve_keeps. Qed.

Lemma gentle_set_notify t n : n ≠ taskWAITING_NOTIFICATION → keeps G (update_tcb t (set_notify n)).
Proof. intros Hn. by apply gentle_update. Qed.
Lemma gentle_set_value t v : keeps G (update_tcb t (set_value v)).
Proof. by apply gentle_update. Qed.
#[local] Hint Resolve gentle_set_value : keeps.
#[local] Hint Extern 2 (keeps _ (update_tcb _ (set_notify _))) => (by apply gentle_set_notify) : keeps.
Lemma gentle_notify t v a : keeps G (xTaskGenericNotify t v a).
Proof. unfold xTaskGenericNotify. solve_keeps. Qed.
Lemma gentle_notify_isr t v a f : keeps G (xTaskGenericNotifyFromISR t v a f).
Proof. unfold xTaskGenericNotifyFromISR. solve_keeps. Qed.
Lemma gentle_give_isr t f : keeps G (vTaskNotifyGiveFromISR t f).
Proof. unfold vTaskNotifyGiveFromISR. solve_keeps. Qed.
Lemma gentle_take b : keeps G (ulTaskNotifyTake_take b).
Proof. unfold ulTaskNotifyTake_take. solve_keeps. Qed.
Lemma gentle_notify_take b : keeps G (xTaskNotifyWait_take b).
Proof. unfold xTaskNotifyWait_take. solve_keeps. Qed.
Lemma gentle_state_clear h : keeps G (xTaskNotifyStateClear h).
Proof. unfold xTaskNotifyStateClear. solve_keeps. Qed.
Lemma gentle_check o k : keeps G (xTaskCheckForTimeOut o k).
Proof. unfold xTaskCheckForTimeOut, vTaskSetTimeOutState. solve_keeps. Qed.

End gentle_calls.
#[export] Hint Resolve gentle_tick_isr gentle_suspend_all gentle_resume_all gentle_delay gentle_delay_until gentle_create gentle_delete
  gentle_reap_check gentle_reap_take gentle_priority_set gentle_suspend gentle_resume gentle_resume_isr gentle_remove_event
  gentle_remove_unordered gentle_notify gentle_notify_isr gentle_give_isr gentle_take gentle_notify_take gentle_state_clear gentle_check
  gentle_add_delayed gentle_leave gentle_set_value gentle_tick gentle_is_suspended gentle_unblock gentle_pending gentle_replay : keeps.

(** Only the running task comes to wait for a notification. *)
Lemma gentle_waits {X} (k : nat → kcall astate X) : (∀ t, keeps (gentle (Some t)) (k t)) →
  ∀ s A x s' A', sane s → (current ≫= k) s A = Some (x, s', A') → sane s' ∧ gentle (pxCurrentTCB s) s A s' A'.
Proof.
  intros Hk s A x s' A' Hs. unfold current, gets, mbind, kcall_bind, mret, kcall_ret, fail.
  destruct (pxCurrentTCB s) as [t|]; [|done]. by apply Hk.
Qed.
Lemma gentle_set_waiting t : keeps (gentle (Some t)) (update_tcb t (set_notify taskWAITING_NOTIFICATION)).
Proof. by apply gentle_update. Qed.
#[export] Hint Resolve gentle_set_waiting : keeps.

(** The calls of applications: not those that other parts of the kernel make on lists of
    waiting tasks, nor the start of the scheduler *)
Definition public (c : call) : Prop :=
  match c with
  | CStart _ | CPlace _ _ | CPlaceUnordered _ _ _ | CRemove _ | CRemoveUnordered _ _ => False
  | CCreate _ p | CPrioritySet _ p => 0 ≤ p
  | _ => True
  end.

Lemma keeps_fmap R `{!KRel R} {X Y} (g : X → Y) (f : kcall astate X) : keeps R f → keeps R (g <$> f).
Proof. intros Hf. apply keeps_bind; [apply _|done|solve_keeps]. Qed.

Lemma then_ret_inv {X Y} (f : kcall astate X) (y : Y) s A z s' A' : (f;; mret y) s A = Some (z, s', A') → ∃ x, f s A = Some (x, s', A').
Proof. unfold mbind, kcall_bind. destruct (f s A) as [[[x s1] A1]|]; [|done]. intros [= <- <- <-]. by exists x. Qed.

Lemma gentle_call c s A a s' A' : public c → sane s → run_call c s A = Some (a, s', A') → sane s' ∧ gentle (pxCurrentTCB s) s A s' A'.
Proof.
  assert (∀ f : kcall astate answer, keeps (gentle (pxCurrentTCB s)) f → sane s → f s A = Some (a, s', A') → sane s' ∧ gentle (pxCurrentTCB s) s A s' A') as Hf
    by (unfold keeps; eauto).
  destruct c; cbn [public run_call]; intros Hp; try done;
    try (by apply Hf; first [apply keeps_fmap; [apply _|unfold uxTaskPriorityGet, vTaskSetTimeOutState; solve_keeps]|unfold vTaskMissedYield; solve_keeps]).
  - intros Hs [x E]%then_ret_inv. eapply gentle_waits; [|done|exact E]. intros t. cbv beta. solve_keeps.
  - intros Hs [x E]%then_ret_inv. eapply gentle_waits; [|done|exact E]. intros t. cbv beta. solve_keeps.
Qed.

(** ** The running task and the suspension of the scheduler

    [invar v f]: [f] leaves [v] of the variables alone; [v] reads the running task, the
    suspension, or both. *)

Definition invar {V X} (v : sched → V) (f : kcall astate X) : Prop := ∀ s A x s' A', f s A = Some (x, s', A') → v s' = v s.

Class Core {V} (v : sched → V) : Prop :=
  core s s' : pxCurrentTCB s' = pxCurrentTCB s → uxSchedulerSuspended s' = uxSchedulerSuspended s → v s' = v s.
#[export] Instance current_core : Core pxCurrentTCB.
Proof. by intros s s'. Qed.
#[export] Instance suspended_core : Core uxSchedulerSuspended.
Proof. by intros s s'. Qed.

Section invar.
Context {V : Type} (v : sched → V).

Lemma invar_bind {X Y} (f : kcall astate X) (k : X → kcall astate Y) : invar v f → (∀ x, invar v (k x)) → invar v (f ≫= k).
Proof.
  intros Hf Hk s A y s' A'. unfold mbind, kcall_bind. destruct (f s A) as [[[x s1] A1]|] eqn:E; [|done]. intros E'.
  rewrite (Hk _ _ _ _ _ _ E'). eauto.
Qed.
Lemma invar_ret {X} (x : X) : invar v (mret x).
Proof. by intros s A y s' A' [= <- <- <-]. Qed.
Lemma invar_gets {X} (f : sched → X) : invar v (gets f).
Proof. by intros s A y s' A' [= <- <- <-]. Qed.
Lemma invar_fail {X} : invar v (fail : kcall astate X).
Proof. done. Qed.
Lemma invar_list o : invar v (list_call o).
Proof. intros s A r s' A'. unfold list_call. destruct (list_step o A) as [[? ?]|]; [|done]. by intros [= <- <- <-]. Qed.
Lemma invar_modify f : (∀ s, v (f s) = v s) → invar v (modify f).
Proof. intros Hf s A y s' A' [= <- <- <-]. auto. Qed.
Lemma invar_core `{!Core v} f : (∀ s, pxCurrentTCB (f s) = pxCurrentTCB s) → (∀ s, uxSchedulerSuspended (f s) = uxSchedulerSuspended s) → invar v (modify f).
Proof. intros H1 H2. apply invar_modify. intros s. by apply core. Qed.

End invar.

Create HintDb invar.
#[export] Hint Resolve invar_ret invar_gets invar_fail invar_list : invar.
#[export] Hint Extern 2 (invar _ (modify _)) => (apply invar_core; [apply _|done|done]) : invar.

Ltac solve_invar :=
  repeat (intros; cbv zeta; lazymatch goal with
    | |- invar _ (_ ≫= _) => apply invar_bind
    | |- invar _ (match ?x with _ => _ end) => destruct x
    | |- invar _ _ => first [solve [eauto 3 with invar]]
    end).
Ltac invar_unfold :=
  unfold uxListRemove, vListInsertEnd, vListInsert, vListInitialise, listSET_LIST_ITEM_VALUE, listGET_LIST_ITEM_VALUE,
    listGET_OWNER_OF_HEAD_ENTRY, listGET_OWNER_OF_NEXT_ENTRY, listLIST_IS_EMPTY, listLIST_ITEM_CONTAINER, listCURRENT_LIST_LENGTH,
    update_tcb, set_tcb, priority, prvGetTCBFromHandle, current, tcb, owner_of; solve_invar.

Section invar_calls.
Context {V : Type} (v : sched → V) `{!Core v}.

Lemma invar_add_ready t : invar v (prvAddTaskToReadyList t).
Proof using Type*. unfold prvAddTaskToReadyList, taskRECORD_READY_PRIORITY. invar_unfold. Qed.
Lemma invar_add_delayed k b : invar v (prvAddCurrentTaskToDelayedList k b).
Proof using Type*. unfold prvAddCurrentTaskToDelayedList. invar_unfold. Qed.
Lemma invar_leave t : invar v (leave_event_list t).
Proof using Type*. unfold leave_event_list. invar_unfold. Qed.
Lemma invar_reset_unblock : invar v prvResetNextTaskUnblockTime.
Proof using Type*. unfold prvResetNextTaskUnblockTime. invar_unfold. Qed.
Lemma invar_is_suspended t : invar v (prvTaskIsTaskSuspended t).
Proof using Type*. unfold prvTaskIsTaskSuspended. invar_unfold. Qed.
#[local] Hint Resolve invar_add_ready invar_add_delayed invar_leave invar_reset_unblock invar_is_suspended : invar.
Lemma invar_unblock fuel : ∀ tick b, invar v (unblock_due fuel tick b).
Proof using Type*. induction fuel; intros; cbn [unblock_due]; invar_unfold. Qed.
#[local] Hint Resolve invar_unblock : invar.
Lemma invar_tick : invar v xTaskIncrementTick.
Proof using Type*. unfold xTaskIncrementTick, taskSWITCH_DELAYED_LISTS. invar_unfold. Qed.
#[local] Hint Resolve invar_tick : invar.
Lemma invar_pending fuel : ∀ b, invar v (move_pending fuel b).
Proof using Type*. induction fuel; intros; cbn [move_pending]; invar_unfold. Qed.
Lemma invar_replay n : invar v (replay_ticks n).
Proof using Type*. induction n; cbn [replay_ticks]; invar_unfold. Qed.
Lemma invar_resume_isr t : invar v (xTaskResumeFromISR t).
Proof using Type*. unfold xTaskResumeFromISR. invar_unfold. Qed.
Lemma invar_remove_event l : invar v (xTaskRemoveFromEventList l).
Proof using Type*. unfold xTaskRemoveFromEventList. invar_unfold. Qed.
Lemma invar_notify_isr t x a f : invar v (xTaskGenericNotifyFromISR t x a f).
Proof using Type*. unfold xTaskGenericNotifyFromISR. invar_unfold. Qed.
Lemma invar_give_isr t f : invar v (vTaskNotifyGiveFromISR t f).
Proof using Type*. unfold vTaskNotifyGiveFromISR. invar_unfold. Qed.

End invar_calls.
#[export] Hint Resolve invar_add_ready invar_add_delayed invar_leave invar_reset_unblock invar_is_suspended invar_unblock invar_tick
  invar_pending invar_replay invar_resume_isr invar_remove_event invar_notify_isr invar_give_isr : invar.
#[export] Hint Extern 2 (Core _) => apply _ : invar.

(** ** A change of the running task

    After a call, the task that ran still runs, or the one that the ready lists give and
    the scheduler is not suspended. *)

Definition lands {X} (f : kcall astate X) : Prop := ∀ s A x s' A', sane s → f s A = Some (x, s', A') →
  pxCurrentTCB s' = pxCurrentTCB s ∨ chosen s' A' ∧ uxSchedulerSuspended s' = 0.
(** What may follow such a change *)
Definition polite {X} (f : kcall astate X) : Prop := ∀ s A x s' A', sane s → f s A = Some (x, s', A') →
  sane s' ∧ (pxCurrentTCB s' = pxCurrentTCB s ∧ A' = A ∧ uxSchedulerSuspended s' = uxSchedulerSuspended s ∨ chosen s' A' ∧ uxSchedulerSuspended s' = 0).

Definition anything : krel := λ s A s' A', True.
#[export] Instance anything_still : Still anything.
Proof. split; [by split|done|done]. Qed.
Abbreviation keeps_sane f := (keeps anything f).

Lemma keeps_sane_gentle {X} (f : kcall astate X) : keeps (gentle None) f → keeps_sane f.
Proof. intros Hf s A x s' A' Hs E. by destruct (Hf _ _ _ _ _ Hs E). Qed.
#[export] Hint Resolve keeps_sane_gentle | 5 : keeps.
Lemma keeps_sane_update t f : (∀ c, (uxPriority c < 5)%nat → (uxPriority (f c) < 5)%nat) → keeps_sane (update_tcb t f).
Proof.
  intros Hp s A x s' A' Hs. unfold update_tcb, tcb, set_tcb, gets, modify, mbind, kcall_bind, mret, kcall_ret, fail.
  destruct (tcbs s !! t) as [c|] eqn:E; [|done]. intros [= <- <- <-]. split; [|done].
  destruct Hs. split; cbn; try done. intros u d [[<- <-]|[_ Hd]]%lookup_insert_Some; eauto.
Qed.
#[export] Hint Extern 2 (keeps anything (update_tcb _ (set_notify _))) => (by apply keeps_sane_update) : keeps.

Lemma polite_ret {X} (x : X) : polite (mret x).
Proof. intros s A y s' A' Hs [= <- <- <-]. split; [done|by left]. Qed.
Lemma polite_switch : polite vTaskSwitchContext.
Proof.
  intros s A x s' A' Hs E. split; [by eapply (keeps_sane_gentle _ (gentle_switch None))|]. revert E. unfold vTaskSwitchContext, mbind at 1, kcall_bind at 1, gets.
  destruct (Z.eqb_spec (uxSchedulerSuspended s) 0) as [H0|H0]; cbn [negb].
  - unfold mbind, kcall_bind, modify. intros E. assert (sane (with_yield false s)) as Hy by (destruct Hs; by split).
    destruct (select_inv _ _ _ _ _ Hy E) as (Hc & _ & _ & t & p & _ & ->). by right.
  - intros [= <- <- <-]. by left.
Qed.
Lemma polite_bind {X Y} (f : kcall astate X) (k : X → kcall astate Y) : polite f → (∀ x, polite (k x)) → polite (f ≫= k).
Proof.
  intros Hf Hk s A y s' A' Hs. unfold mbind, kcall_bind. destruct (f s A) as [[[x s1] A1]|] eqn:E; [|done]. intros E'.
  destruct (Hf _ _ _ _ _ Hs E) as [Hs1 H1]. destruct (Hk _ _ _ _ _ _ Hs1 E') as [Hs2 H2]. split; [done|].
  destruct H2 as [(Hc & -> & Hu)|?]; [|by right]. destruct H1 as [(Hc1 & -> & Hu1)|[(p & n & xs & ? & ? & ?) ?]]; [left|right].
  - split_and!; congruence.
  - split; [|congruence]. exists p, n, xs. split_and!; [done|done|congruence].
Qed.

Lemma lands_bind {X Y} (f : kcall astate X) (k : X → kcall astate Y) : keeps_sane f → invar pxCurrentTCB f → (∀ x, lands (k x)) → lands (f ≫= k).
Proof.
  intros Hg Hf Hk s A y s' A' Hs. unfold mbind, kcall_bind. destruct (f s A) as [[[x s1] A1]|] eqn:E; [|done]. intros E'.
  destruct (Hg _ _ _ _ _ Hs E) as [Hs1 _]. rewrite <- (Hf _ _ _ _ _ E). by eapply Hk.
Qed.
Lemma lands_then {X Y} (f : kcall astate X) (k : X → kcall astate Y) : keeps_sane f → lands f → (∀ x, polite (k x)) → lands (f ≫= k).
Proof.
  intros Hg Hf Hk s A y s' A' Hs. unfold mbind, kcall_bind. destruct (f s A) as [[[x s1] A1]|] eqn:E; [|done]. intros E'.
  destruct (Hg _ _ _ _ _ Hs E) as [Hs1 _]. destruct (Hk _ _ _ _ _ _ Hs1 E') as [_ [(Hc & -> & Hu)|?]]; [|by right].
  destruct (Hf _ _ _ _ _ Hs E) as [|[(p & n & xs & ? & ? & ?) ?]]; [left; congruence|right]. split; [|congruence].
  exists p, n, xs. split_and!; [done|done|congruence].
Qed.
Lemma lands_polite {X} (f : kcall astate X) : polite f → lands f.
Proof. intros Hf s A x s' A' Hs E. destruct (Hf _ _ _ _ _ Hs E) as [_ [(? & _)|?]]; [by left|by right]. Qed.
Lemma lands_invar {X} (f : kcall astate X) : invar pxCurrentTCB f → lands f.
Proof. intros Hf s A x s' A' _ E. left. eauto. Qed.
Lemma lands_switch : lands vTaskSwitchContext.
Proof. apply lands_polite, polite_switch. Qed.
Lemma lands_yield : lands portYIELD.
Proof. apply lands_switch. Qed.
Lemma polite_yield : polite portYIELD.
Proof. apply polite_switch. Qed.

Create HintDb lands.
#[export] Hint Resolve lands_switch lands_yield polite_ret polite_yield polite_switch : lands.
#[export] Hint Extern 4 (lands (mret _)) => (apply lands_polite, polite_ret) : lands.

Ltac solve_polite :=
  repeat (intros; cbv zeta; lazymatch goal with
    | |- polite (_ ≫= _) => apply polite_bind
    | |- polite (match ?x with _ => _ end) => destruct x
    | |- polite _ => first [solve [eauto 3 with lands]]
    end).
(** Statements that do not change the running task come first, then the one that may. *)
Ltac solve_lands :=
  repeat (intros; cbv zeta; lazymatch goal with
    | |- lands (_ ≫= _) => first
        [ apply lands_bind; [solve [solve_keeps]|solve [invar_unfold]|]
        | apply lands_then; [solve [solve_keeps]| |solve [solve_polite]] ]
    | |- lands (match ?x with _ => _ end) => destruct x
    | |- lands _ => first [solve [eauto 3 with lands] | solve [apply lands_invar; invar_unfold]]
    end).

Lemma lands_tick_isr : lands vTickISR.
Proof. unfold vTickISR. solve_lands. Qed.
Lemma invar_suspend_all : invar pxCurrentTCB vTaskSuspendAll.
Proof. apply invar_bind; [solve_invar|]. intros n. by apply invar_modify. Qed.
#[export] Hint Resolve lands_tick_isr : lands.
#[export] Hint Resolve invar_suspend_all : invar.
Lemma lands_resume_all : lands xTaskResumeAll.
Proof.
  unfold xTaskResumeAll. apply lands_bind; [solve_keeps|solve_invar|]. intros n.
  apply lands_bind; [apply keeps_sane_gentle, gentle_with_suspended|by apply invar_modify|]. intros _. solve_lands.
Qed.
#[export] Hint Resolve lands_resume_all : lands.

Lemma lands_delay k : lands (vTaskDelay k).
Proof. unfold vTaskDelay. solve_lands. Qed.
Lemma lands_delay_until p k : lands (vTaskDelayUntil p k).
Proof. unfold vTaskDelayUntil. solve_lands. Qed.
Lemma lands_gets_bind {X Y} (f : sched → X) (k : X → kcall astate Y) : (∀ x, (∃ s, sane s ∧ x = f s) → lands (k x)) → lands (gets f ≫= k).
Proof. intros Hk s A y s' A' Hs E. eapply (Hk (f s)); [by exists s|done|exact E]. Qed.

Lemma lands_create t p : 0 ≤ p → lands (xTaskCreate true true t p).
Proof.
  intros Hp. unfold xTaskCreate. cbn [andb]. apply lands_bind; [by apply keeps_sane_gentle, gentle_init_task|unfold prvInitialiseNewTask; invar_unfold|]. intros _.
  apply lands_then; [apply keeps_sane_gentle, gentle_add_new| |solve_polite]. unfold prvAddNewTaskToReadyList.
  apply lands_bind; [solve_keeps|solve_invar|]. intros n. apply lands_bind; [solve_keeps|solve_invar|]. intros _.
  apply lands_gets_bind. intros c (s & Hs & ->). apply lands_gets_bind. intros r (s' & Hs' & ->).
  rewrite (sn_running _ Hs'). destruct (sn_current _ Hs) as [c ->]. cbn [negb]. solve_lands.
Qed.

Lemma keeps_sane_delete_tcb t : keeps_sane (prvDeleteTCB t).
Proof. apply keeps_sane_gentle, gentle_delete_tcb. Qed.
#[export] Hint Resolve keeps_sane_delete_tcb : keeps.
Lemma invar_delete_tcb {V} (v : sched → V) `{!Core v} t : invar v (prvDeleteTCB t).
Proof. unfold prvDeleteTCB. invar_unfold. Qed.
#[export] Hint Resolve invar_delete_tcb : invar.
Lemma lands_delete h : lands (vTaskDelete h).
Proof. unfold vTaskDelete. solve_lands. Qed.
Lemma lands_reap_check : lands reap_check.
Proof. unfold reap_check. solve_lands. Qed.
Lemma invar_reap_take : invar pxCurrentTCB reap_take.
Proof. unfold reap_take. invar_unfold. Qed.
Lemma lands_priority_set h p : 0 ≤ p → lands (vTaskPrioritySet h p).
Proof.
  intros Hp. unfold vTaskPrioritySet. assert (∀ t, keeps_sane (update_tcb t (set_priority (clamp p)))) as Hu.
  { intros t. apply keeps_sane_update. intros c _. by apply clamp_range. }
  apply lands_bind; [solve_keeps|invar_unfold|]. intros t. apply lands_bind; [solve_keeps|invar_unfold|]. intros old.
  destruct (old =? clamp p)%nat; [solve_lands|]. do 2 (apply lands_bind; [solve_keeps|invar_unfold|]; intros ?). cbv zeta.
  apply lands_bind; [apply Hu|invar_unfold|]. intros _. solve_lands.
Qed.
Lemma lands_suspend h : lands (vTaskSuspend h).
Proof.
  unfold vTaskSuspend. do 4 (apply lands_bind; [solve_keeps|invar_unfold|]; intros ?). apply lands_gets_bind. intros r (s & Hs & ->).
  rewrite (sn_running _ Hs). solve_lands.
Qed.
Lemma lands_resume h : lands (vTaskResume h).
Proof. unfold vTaskResume. solve_lands. Qed.
Lemma lands_notify t v a : lands (xTaskGenericNotify t v a).
Proof. unfold xTaskGenericNotify. solve_lands. Qed.

Lemma lands_take_wait k : lands (ulTaskNotifyTake_wait k).
Proof. unfold ulTaskNotifyTake_wait. solve_lands. Qed.
Lemma lands_notify_wait b k : lands (xTaskNotifyWait_wait b k).
Proof. unfold xTaskNotifyWait_wait. solve_lands. Qed.
#[export] Hint Resolve lands_delay lands_delay_until lands_create lands_delete lands_reap_check lands_priority_set lands_suspend lands_resume
  lands_notify lands_take_wait lands_notify_wait : lands.
#[export] Hint Resolve invar_reap_take : invar.

Lemma keeps_sane_waits t : keeps_sane (update_tcb t (set_notify taskWAITING_NOTIFICATION)).
Proof. by apply keeps_sane_update. Qed.
#[export] Hint Resolve keeps_sane_waits : keeps.

Lemma keeps_sane_take_wait k : keeps_sane (ulTaskNotifyTake_wait k).
Proof. unfold ulTaskNotifyTake_wait. solve_keeps. Qed.
Lemma keeps_sane_notify_wait b k : keeps_sane (xTaskNotifyWait_wait b k).
Proof. unfold xTaskNotifyWait_wait. solve_keeps. Qed.
#[export] Hint Resolve keeps_sane_take_wait keeps_sane_notify_wait : keeps.

Lemma lands_fmap {X Y} (g : X → Y) (f : kcall astate X) : keeps_sane f → lands f → lands (g <$> f).
Proof. intros Hg Hf. apply lands_then; [done|done|solve_polite]. Qed.

Lemma lands_call c : public c → lands (run_call c).
Proof.
  intros Hp. destruct c; cbn [public run_call] in *; try done;
    try (by (apply lands_fmap; [solve [eauto 6 with keeps]|solve [eauto with lands]]));
    try (by (apply lands_then; [solve [eauto 6 with keeps]|solve [eauto with lands]|solve_polite])).
  all: apply lands_invar; unfold uxTaskPriorityGet, vTaskMissedYield, vTaskSetTimeOutState, xTaskCheckForTimeOut, ulTaskNotifyTake_take,
    xTaskNotifyWait_take, xTaskNotifyStateClear, vTaskSetTimeOutState, fmap, kcall_fmap; invar_unfold.
Qed.

(** ** Interrupt handlers *)

Definition interrupt (c : call) : bool :=
  match c with CTick | CYield | CResumeFromISR _ | CNotifyFromISR _ _ _ _ | CGiveFromISR _ _ => true | _ => false end.

Lemma steady_invar {X} (f : kcall astate X) : keeps_sane f → invar pxCurrentTCB f → invar uxSchedulerSuspended f → keeps steady f.
Proof.
  intros Hg Hc Hu s A x s' A' Hs E. destruct (Hg _ _ _ _ _ Hs E) as [Hs' _]. split; [done|]. split; [by eapply Hu|]. intros _. by eapply Hc.
Qed.

Lemma steady_call c : interrupt c = true → keeps steady (run_call c).
Proof.
  destruct c; try done; intros _; cbn [run_call].
  - apply keeps_bind; [apply _| |solve_keeps]. unfold vTickISR. apply keeps_bind; [apply _|apply steady_invar; [solve_keeps|invar_unfold|invar_unfold]|]. intros []; solve_keeps.
  - solve_keeps.
  - apply keeps_fmap; [apply _|]. apply steady_invar; [solve_keeps|invar_unfold|invar_unfold].
  - apply keeps_fmap; [apply _|]. apply steady_invar; [solve_keeps|invar_unfold|invar_unfold].
  - apply keeps_fmap; [apply _|]. apply steady_invar; [solve_keeps|invar_unfold|invar_unfold].
Qed.

(** ** A task that is ready and waits for nothing stays so *)

Lemma list_call_inv o s A r s' A' : list_call o s A = Some (r, s', A') → s' = s ∧ astep o A = Some (r, A').
Proof. unfold list_call, list_step, spec_lists. destruct (astep o A) as [[r1 A1]|]; [|done]. by intros [= <- <- <-]. Qed.

Lemma remove_call_inv n s A x s' A' : uxListRemove n s A = Some (x, s', A') → s' = s ∧ is_Some (cont A !! n) ∧ cont A' = delete n (cont A).
Proof.
  unfold uxListRemove, mbind, kcall_bind. destruct (list_call _ s A) as [[[r s1] A1]|] eqn:E; [|done].
  apply list_call_inv in E as [-> E]. destruct (remove_inv _ _ _ _ E) as (H1 & H2 & _). destruct r; try done. by intros [= <- <- <-].
Qed.

Lemma insert_end_inv l n s A x s' A' : vListInsertEnd l n s A = Some (x, s', A') → s' = s ∧ cont A !! n = None ∧ cont A' = <[n := l]> (cont A).
Proof.
  unfold vListInsertEnd, mbind, kcall_bind. destruct (list_call _ s A) as [[[r s1] A1]|] eqn:E; [|done].
  apply list_call_inv in E as [-> E]. destruct (insert_inv A _ l n _ _ (or_intror eq_refl) E) as (H1 & H2 & _). by intros [= <- <- <-].
Qed.

Lemma leave_inv t s A x s' A' : leave_event_list t s A = Some (x, s', A') → s' = s ∧ cont A' = delete (xEventListItem t) (cont A).
Proof.
  unfold leave_event_list, listLIST_ITEM_CONTAINER, mbind, kcall_bind. destruct (list_call _ s A) as [[[r s1] A1]|] eqn:E; [|done].
  apply list_call_inv in E as [-> E]. cbn [astep] in E. destruct (vals A !! _); [|done]. cbn in E. simplify_eq. cbn.
  destruct (cont A1 !! xEventListItem t) as [l|] eqn:Ec.
  - destruct (uxListRemove _ s A1) as [[[y s2] A2]|] eqn:E2; [|done]. intros [= <- <- <-]. by destruct (remove_call_inv _ _ _ _ _ _ E2) as (-> & _ & ->).
  - intros [= <- <- <-]. by rewrite delete_id.
Qed.

Lemma add_ready_inv t s A x s' A' : sane s → prvAddTaskToReadyList t s A = Some (x, s', A') →
  ∃ p, (p < 5)%nat ∧ cont A' = <[xStateListItem t := p]> (cont A) ∧ alike s s'.
Proof.
  intros Hs. unfold prvAddTaskToReadyList, priority, tcb, taskRECORD_READY_PRIORITY, gets, mbind, kcall_bind, mret, kcall_ret, fail, pxReadyTasksLists.
  destruct (tcbs s !! t) as [c|] eqn:E; [|done]. pose proof (sn_prio _ Hs _ _ E).
  destruct (_ <? _)%nat; cbn; intros E'; destruct (insert_end_inv _ _ _ _ _ _ _ E') as (-> & _ & Hc); by exists (uxPriority c).
Qed.

Lemma calm_cont s A A' t : cont A' !! xEventListItem t = cont A !! xEventListItem t → cont A' !! xStateListItem t = cont A !! xStateListItem t →
  calm s A t → calm s A' t.
Proof. unfold calm. by intros -> ->. Qed.

Section soothing.
Context (X : nat → Prop).
Abbreviation S := (soothing X).

Lemma soothing_remove_event t : keeps S (uxListRemove (xEventListItem t)).
Proof.
  intros s A x s' A' Hs E. destruct (remove_call_inv _ _ _ _ _ _ E) as (-> & [l Hl] & Hc). split; [done|]. intros u _ Hu.
  apply (calm_cont s A); [..|done]; rewrite Hc, lookup_delete_ne; try done; [|symmetry; apply state_event].
  intros Ht%event_inj. subst u. destruct Hu as [Hu _]. congruence.
Qed.
Lemma soothing_remove_state t : X t → keeps S (uxListRemove (xStateListItem t)).
Proof.
  intros HX s A x s' A' Hs E. destruct (remove_call_inv _ _ _ _ _ _ E) as (-> & _ & Hc). split; [done|]. intros u Hn Hu.
  apply (calm_cont s A); [..|done]; rewrite Hc, lookup_delete_ne; try done; [apply state_event|]. intros Ht%state_inj. by subst.
Qed.
Lemma soothing_insert_event l t : X t → keeps S (vListInsertEnd l (xEventListItem t)).
Proof.
  intros HX s A x s' A' Hs E. destruct (insert_end_inv _ _ _ _ _ _ _ E) as (-> & _ & Hc). split; [done|]. intros u Hn Hu.
  apply (calm_cont s A); [..|done]; rewrite Hc, lookup_insert_ne; try done; [|symmetry; apply state_event]. intros Ht%event_inj. by subst.
Qed.
Lemma soothing_add_ready t : keeps S (prvAddTaskToReadyList t).
Proof.
  intros s A x s' A' Hs E. split; [by eapply (keeps_sane_gentle _ (gentle_add_ready None t))|].
  destruct (add_ready_inv _ _ _ _ _ _ Hs E) as (p & Hp & Hc & Ha). intros u _ (H1 & (l & Hl & H2) & H3). split_and!.
  - by rewrite Hc, lookup_insert_ne by apply state_event.
  - rewrite Hc. destruct (decide (u = t)) as [-> |Hne]; [exists p; by rewrite lookup_insert_eq|].
    exists l. split; [done|]. rewrite lookup_insert_ne; [done|]. by intros ?%state_inj.
  - destruct Ha as [Ht _]. unfold waiting. by rewrite Ht.
Qed.
Lemma soothing_leave t : keeps S (leave_event_list t).
Proof.
  intros s A x s' A' Hs E. destruct (leave_inv _ _ _ _ _ _ E) as [-> Hc]. split; [done|]. intros u _ (H1 & H2 & H3). split_and!; [..|done]; rewrite Hc.
  - apply lookup_delete_None. by right.
  - rewrite lookup_delete_ne; [done|]. apply not_eq_sym, state_event.
Qed.

(** A task that is taken out of its lists and made ready *)
Lemma soothing_requeue t : keeps S ((_ ← uxListRemove (xStateListItem t); leave_event_list t);; prvAddTaskToReadyList t).
Proof.
  intros s A x s' A' Hs. unfold mbind, kcall_bind. destruct (uxListRemove _ s A) as [[[y1 s1] A1]|] eqn:E1; [|done].
  destruct (leave_event_list t s1 A1) as [[[y2 s2] A2]|] eqn:E2; [|done]. intros E3.
  destruct (remove_call_inv _ _ _ _ _ _ E1) as (-> & _ & H1). destruct (leave_inv _ _ _ _ _ _ E2) as [-> H2].
  destruct (add_ready_inv _ _ _ _ _ _ Hs E3) as (p & Hp & H3 & Ha).
  split; [by eapply (keeps_sane_gentle _ (gentle_add_ready None t))|]. intros u _ (Hu1 & (l & Hl & Hu2) & Hu3). split_and!.
  - rewrite H3, lookup_insert_ne, H2 by apply state_event. apply lookup_delete_None. right. rewrite H1. apply lookup_delete_None. by right.
  - rewrite H3. destruct (decide (u = t)) as [-> |Hne]; [exists p; by rewrite lookup_insert_eq|]. exists l. split; [done|].
    rewrite lookup_insert_ne, H2, lookup_delete_ne, H1, lookup_delete_ne; try done; try (by intros ?%state_inj). apply not_eq_sym, state_event.
  - destruct Ha as [Ht _]. unfold waiting. by rewrite Ht.
Qed.

Lemma soothing_update t f : (∀ c, (uxPriority c < 5)%nat → (uxPriority (f c) < 5)%nat) →
  (∀ c, ucNotifyState (f c) = taskWAITING_NOTIFICATION → ucNotifyState c = taskWAITING_NOTIFICATION) → keeps S (update_tcb t f).
Proof.
  intros Hp Hn s A x s' A' Hs E. destruct (gentle_update None t f Hp (λ _, Hn) _ _ _ _ _ Hs E) as (Hs' & _ & _ & Hw). split; [done|].
  assert (A' = A) as ->.
  { revert E. unfold update_tcb, tcb, set_tcb, gets, modify, mbind, kcall_bind, mret, kcall_ret, fail. destruct (tcbs s !! t); [|done]. by intros [= <- <- <-]. }
  intros u _ (H1 & H2 & H3). split_and!; [done|done|]. intros Hu. by apply H3, Hw.
Qed.

End soothing.
#[export] Hint Resolve soothing_remove_event soothing_remove_state soothing_insert_event soothing_add_ready soothing_leave : keeps.
#[export] Hint Extern 2 (keeps (soothing _) (update_tcb _ _)) => (by apply soothing_update) : keeps.

Lemma soothing_mono X {Y} (f : kcall astate Y) : keeps (soothing nobody) f → keeps (soothing X) f.
Proof. intros Hf s A x s' A' Hs E. destruct (Hf _ _ _ _ _ Hs E) as [? H]. split; [done|]. intros t _. apply H. intros []. Qed.

(** When the task in hand is not calm, it does not matter what becomes of it. *)
Lemma soothing_one t s A s' A' : ¬ calm s A t → soothing (eq t) s A s' A' → soothing nobody s A s' A'.
Proof. intros Ht H u _ Hu. apply H; [|done]. by intros <-. Qed.

Lemma soothing_removed_then {Y} t (k : Z → kcall astate Y) : (∀ x, keeps (soothing (eq t)) (k x)) → keeps (soothing nobody) (uxListRemove (xEventListItem t) ≫= k).
Proof.
  intros Hk s A x s' A' Hs E. destruct (keeps_bind (soothing (eq t)) _ k (soothing_remove_event _ t) Hk _ _ _ _ _ Hs E) as [Hs' HS]. split; [done|].
  apply (soothing_one t); [|done]. unfold mbind, kcall_bind in E. destruct (uxListRemove _ s A) as [[[? s1] A1]|] eqn:E1; [|done].
  destruct (remove_call_inv _ _ _ _ _ _ E1) as (_ & [l Hl] & _). intros [Hn _]. congruence.
Qed.

Lemma soothing_tcb_then {Y} t (k : TCB_t → kcall astate Y) :
  (∀ c, ucNotifyState c = taskWAITING_NOTIFICATION → keeps (soothing (eq t)) (k c)) →
  (∀ c, ucNotifyState c ≠ taskWAITING_NOTIFICATION → keeps (soothing nobody) (k c)) → keeps (soothing nobody) (tcb t ≫= k).
Proof.
  intros H1 H2 s A x s' A' Hs. unfold tcb, gets, mbind, kcall_bind, mret, kcall_ret, fail. destruct (tcbs s !! t) as [c|] eqn:E; [|done].
  intros E'. destruct (decide (ucNotifyState c = taskWAITING_NOTIFICATION)) as [Hw|Hw]; [|by eapply H2].
  destruct (H1 c Hw _ _ _ _ _ Hs E') as [? HS]. split; [done|]. apply (soothing_one t); [|done]. intros (_ & _ & Hn). apply Hn. by exists c.
Qed.

Lemma keeps_assoc R {X Y W} (f : kcall astate X) (g : X → kcall astate Y) (k : Y → kcall astate W) :
  keeps R ((f ≫= g) ≫= k) → keeps R (f ≫= λ x, g x ≫= k).
Proof.
  intros H s A x s' A' Hs E. eapply H; [done|]. revert E. unfold mbind, kcall_bind. by destruct (f s A) as [[[? ?] ?]|].
Qed.

Lemma soothing_unblock fuel : ∀ tick b, keeps (soothing nobody) (unblock_due fuel tick b).
Proof.
  induction fuel as [|fuel IH]; intros; cbn [unblock_due]; [solve_keeps|]. do 2 (apply keeps_bind; [apply _|solve_keeps|]; intros ?).
  case_match; [solve_keeps|]. apply keeps_bind; [apply _|solve_keeps|]. intros t. apply keeps_bind; [apply _|solve_keeps|]. intros v.
  destruct (_ <? _); [solve_keeps|]. eapply keeps_assoc, keeps_assoc.
  apply keeps_bind; [apply _|apply soothing_requeue|]. intros _. solve_keeps.
Qed.
#[export] Hint Resolve soothing_unblock : keeps.
Lemma soothing_tick : keeps (soothing nobody) xTaskIncrementTick.
Proof. unfold xTaskIncrementTick. solve_keeps. Qed.
#[export] Hint Resolve soothing_tick : keeps.

Lemma soothing_remove_event_list l : keeps (soothing nobody) (xTaskRemoveFromEventList l).
Proof. unfold xTaskRemoveFromEventList. apply keeps_bind; [apply _|solve_keeps|]. intros t. apply soothing_removed_then. intros _. solve_keeps. Qed.

Lemma soothing_pending fuel : ∀ b, keeps (soothing nobody) (move_pending fuel b).
Proof.
  induction fuel as [|fuel IH]; intros b; cbn [move_pending]; [solve_keeps|]. apply keeps_bind; [apply _|solve_keeps|]. intros e.
  destruct e; [solve_keeps|]. apply keeps_bind; [apply _|solve_keeps|]. intros t.
  assert (∀ b, keeps (soothing (eq t)) (move_pending fuel b)) by (intros; apply soothing_mono, IH).
  apply soothing_removed_then. intros _. solve_keeps.
Qed.
Lemma soothing_replay n : keeps (soothing nobody) (replay_ticks n).
Proof. induction n; cbn [replay_ticks]; solve_keeps. Qed.
Lemma soothing_with_suspended X n : keeps (soothing X) (modify (with_suspended n)).
Proof. apply keeps_modify. intros s A []. split; [by split|]. intros t _ Ht. exact Ht. Qed.
#[export] Hint Resolve soothing_remove_event_list soothing_pending soothing_replay soothing_with_suspended : keeps.
Lemma soothing_suspend_all : keeps (soothing nobody) vTaskSuspendAll.
Proof. unfold vTaskSuspendAll. solve_keeps. Qed.
Lemma soothing_resume_all : keeps (soothing nobody) xTaskResumeAll.
Proof. unfold xTaskResumeAll. solve_keeps. Qed.
#[export] Hint Resolve soothing_suspend_all soothing_resume_all : keeps.

Lemma is_suspended_inv t s A b s' A' : prvTaskIsTaskSuspended t s A = Some (b, s', A') → s' = s ∧ A' = A ∧ (b = true → ¬ calm s A t).
Proof.
  unfold prvTaskIsTaskSuspended, listLIST_ITEM_CONTAINER, list_call, list_step, spec_lists, mbind, kcall_bind. cbn [astep].
  destruct (vals A !! xStateListItem t); [|done]. cbn. destruct (decide (cont A !! xStateListItem t = Some xSuspendedTaskList)) as [Hc|]; [|by intros [= <- <- <-]].
  cbn. destruct (vals A !! xEventListItem t); [|done]. cbn. intros E. assert (s' = s ∧ A' = A) as [-> ->] by (destruct (decide _); by injection E as <- <- <-).
  split_and!; [done|done|]. intros _ (_ & (l & Hl & H2) & _). unfold xSuspendedTaskList in *. assert (l = 9%nat) by congruence. lia.
Qed.
Lemma soothing_resume_isr t : keeps (soothing nobody) (xTaskResumeFromISR t).
Proof.
  intros s A x s' A' Hs. unfold xTaskResumeFromISR. unfold mbind at 1, kcall_bind at 1.
  destruct (prvTaskIsTaskSuspended t s A) as [[[b s1] A1]|] eqn:E; [|done]. destruct (is_suspended_inv _ _ _ _ _ _ E) as (-> & -> & Hb).
  destruct b; [|intros [= <- <- <-]; split; [done|by intros ? _]]. specialize (Hb eq_refl).
  match goal with |- ?f s A = _ → _ => assert (keeps (soothing (eq t)) f) as Hf by solve_keeps end.
  intros E'. destruct (Hf _ _ _ _ _ Hs E') as [? HS]. split; [done|]. by apply (soothing_one t).
Qed.
Lemma soothing_notify_isr t v a f : keeps (soothing nobody) (xTaskGenericNotifyFromISR t v a f).
Proof. unfold xTaskGenericNotifyFromISR. apply soothing_tcb_then; intros c Hw; [|rewrite (decide_False (P := ucNotifyState c = _)) by done]; solve_keeps. Qed.
Lemma soothing_give_isr t f : keeps (soothing nobody) (vTaskNotifyGiveFromISR t f).
Proof. unfold vTaskNotifyGiveFromISR. apply soothing_tcb_then; intros c Hw; [|rewrite (decide_False (P := ucNotifyState c = _)) by done]; solve_keeps. Qed.
#[export] Hint Resolve soothing_resume_isr soothing_notify_isr soothing_give_isr : keeps.

Lemma soothing_call c : interrupt c = true → keeps (soothing nobody) (run_call c).
Proof.
  destruct c; try done; intros _; cbn [run_call]; first [apply keeps_fmap; [apply _|]|idtac]; unfold vTickISR; solve_keeps.
Qed.

Lemma interrupt_public c : interrupt c = true → public c.
Proof. by destruct c. Qed.

End RtosFrame.
