(* ===== verification/RtosQueue.v ===== *)
(** * Queues of FreeRTOS

    Models ldd-k4/arm/FreeRTOS-GCC-ARM926ejs/FreeRTOS/Source/queue.c as it is configured
    by Demo/FreeRTOSConfig.h: without mutexes, queue sets, co-routines and registry, so a
    binary or counting semaphore is a queue of items of size zero.

    A queue is the record [Queue_t] with the bytes behind its storage pointer; its two
    lists of waiting tasks are event lists of the scheduler, named by the handle of the
    queue.  The functions are kernel calls of [RtosTask] that take the queue and give it
    back.  xQueueGenericSend and xQueueGenericReceive are loops that leave and enter
    critical sections; their critical sections are functions here, and the loop around
    them is in [RtosQueueRun], where interrupts and other tasks come in between.

    The second half of the file shows that the ring of bytes is a bounded sequence of
    items ([contents]): at which end items enter, and that they leave at the front. *)

From S2P Require Import Prelude RtosList RtosHeap RtosTask.
Import RtosList RtosTask.

Module RtosQueue.

Definition queueUNLOCKED : Z := -1.
Definition queueLOCKED_UNMODIFIED : Z := 0.
Definition queueSEMAPHORE_QUEUE_ITEM_LENGTH : Z := 0.

Inductive position := queueSEND_TO_BACK | queueSEND_TO_FRONT | queueOVERWRITE.
#[export] Instance position_eq_dec : EqDecision position.
Proof. solve_decision. Defined.

(** Pointers are addresses of 32 bits; [bytes] is the memory from pcHead on that belongs to
    the queue. *)
Record Queue_t := Queue {
  pcHead : Z;
  pcTail : Z;
  pcWriteTo : Z;
  pcReadFrom : Z;
  uxMessagesWaiting : Z;
  uxLength : Z;
  uxItemSize : Z;
  cRxLock : Z;
  cTxLock : Z;
  bytes : list Z
}.

Definition with_write (p : Z) (q : Queue_t) : Queue_t :=
  Queue (pcHead q) (pcTail q) p (pcReadFrom q) (uxMessagesWaiting q) (uxLength q) (uxItemSize q) (cRxLock q) (cTxLock q) (bytes q).
Definition with_read (p : Z) (q : Queue_t) : Queue_t :=
  Queue (pcHead q) (pcTail q) (pcWriteTo q) p (uxMessagesWaiting q) (uxLength q) (uxItemSize q) (cRxLock q) (cTxLock q) (bytes q).
Definition with_count (n : Z) (q : Queue_t) : Queue_t :=
  Queue (pcHead q) (pcTail q) (pcWriteTo q) (pcReadFrom q) n (uxLength q) (uxItemSize q) (cRxLock q) (cTxLock q) (bytes q).
Definition with_rx (c : Z) (q : Queue_t) : Queue_t :=
  Queue (pcHead q) (pcTail q) (pcWriteTo q) (pcReadFrom q) (uxMessagesWaiting q) (uxLength q) (uxItemSize q) c (cTxLock q) (bytes q).
Definition with_tx (c : Z) (q : Queue_t) : Queue_t :=
  Queue (pcHead q) (pcTail q) (pcWriteTo q) (pcReadFrom q) (uxMessagesWaiting q) (uxLength q) (uxItemSize q) (cRxLock q) c (bytes q).
Definition with_bytes (b : list Z) (q : Queue_t) : Queue_t :=
  Queue (pcHead q) (pcTail q) (pcWriteTo q) (pcReadFrom q) (uxMessagesWaiting q) (uxLength q) (uxItemSize q) (cRxLock q) (cTxLock q) b.

(** The lists of the queue with handle [h] *)
Definition xTasksWaitingToSend (h : nat) : nat := event_list (2 * h).
Definition xTasksWaitingToReceive (h : nat) : nat := event_list (2 * h + 1).

(** ** The ring of bytes *)

(** memcpy of an item to address [p] *)
Definition copy_in (p : Z) (pvItemToQueue : list Z) (q : Queue_t) : option Queue_t :=
  item ← load 0 (uxItemSize q) pvItemToQueue;
  b ← store (p - pcHead q) item (bytes q);
  Some (with_bytes b q).

Definition prvCopyDataToQueue (q : Queue_t) (pvItemToQueue : list Z) (xPosition : position) : option (bool * Queue_t) :=
  let n := uxMessagesWaiting q in
  if uxItemSize q =? 0 then Some (false, with_count (u32 (n + 1)) q)
  else if decide (xPosition = queueSEND_TO_BACK) then
    q ← copy_in (pcWriteTo q) pvItemToQueue q;
    let q := with_write (u32 (pcWriteTo q + uxItemSize q)) q in
    let q := if pcTail q <=? pcWriteTo q then with_write (pcHead q) q else q in
    Some (false, with_count (u32 (n + 1)) q)
  else
    q ← copy_in (pcReadFrom q) pvItemToQueue q;
    let q := with_read (u32 (pcReadFrom q - uxItemSize q)) q in
    let q := if pcReadFrom q <? pcHead q then with_read (u32 (pcTail q - uxItemSize q)) q else q in
    let n := if decide (xPosition = queueOVERWRITE) then (if 0 <? n then u32 (n - 1) else n) else n in
    Some (false, with_count (u32 (n + 1)) q).

(** What is copied to the buffer, and the queue *)
Definition prvCopyDataFromQueue (q : Queue_t) : option (list Z * Queue_t) :=
  if negb (uxItemSize q =? 0) then
    let q := with_read (u32 (pcReadFrom q + uxItemSize q)) q in
    let q := if pcTail q <=? pcReadFrom q then with_read (pcHead q) q else q in
    item ← load (pcReadFrom q - pcHead q) (uxItemSize q) (bytes q);
    Some (item, q)
  else Some ([], q).

Definition prvIsQueueEmpty (q : Queue_t) : bool := uxMessagesWaiting q =? 0.
Definition prvIsQueueFull (q : Queue_t) : bool := uxMessagesWaiting q =? uxLength q.
Definition uxQueueMessagesWaiting (q : Queue_t) : Z := uxMessagesWaiting q.
Definition uxQueueSpacesAvailable (q : Queue_t) : Z := u32 (uxLength q - uxMessagesWaiting q).

Definition prvLockQueue (q : Queue_t) : Queue_t :=
  let q := if cRxLock q =? queueUNLOCKED then with_rx queueLOCKED_UNMODIFIED q else q in
  if cTxLock q =? queueUNLOCKED then with_tx queueLOCKED_UNMODIFIED q else q.

(** The assignments of xQueueGenericReset *)
Definition reset_fields (q : Queue_t) : Queue_t :=
  Queue (pcHead q) (u32 (pcHead q + u32 (uxLength q * uxItemSize q))) (pcHead q)
    (u32 (pcHead q + u32 (u32 (uxLength q - 1) * uxItemSize q))) 0 (uxLength q) (uxItemSize q)
    queueUNLOCKED queueUNLOCKED (bytes q).

(** ** Kernel calls *)

Section queue.
Context {M : Type} `{ListMem M}.
Abbreviation K := (kcall M).

Definition lift {X} (x : option X) : K X := match x with Some x => mret x | None => fail end.

(** A waiting task is made ready, and runs if it is more urgent. *)
Definition wake_yield (l : nat) (xYieldRequired : bool) : K unit :=
  e ← listLIST_IS_EMPTY l;
  if negb e then r ← xTaskRemoveFromEventList l; if r : bool then portYIELD else mret ()
  else if xYieldRequired then portYIELD else mret ().

(** In an interrupt handler, the answer says whether it is more urgent. *)
Definition wake_flag (l : nat) : K bool :=
  e ← listLIST_IS_EMPTY l;
  if negb e then xTaskRemoveFromEventList l else mret false.

Definition xQueueGenericReset (h : nat) (q : Queue_t) (xNewQueue : bool) : K Queue_t :=
  let q := reset_fields q in
  (if negb xNewQueue then wake_yield (xTasksWaitingToSend h) false
   else vListInitialise (xTasksWaitingToSend h);; vListInitialise (xTasksWaitingToReceive h));;
  mret q.

(** The contents of the memory of a new queue are what is [left] there. *)
Definition prvInitialiseNewQueue (h : nat) (uxQueueLength uxItemSize pucQueueStorage pxNewQueue : Z) (left : list Z) : K Queue_t :=
  let pcHead := if uxItemSize =? 0 then pxNewQueue else pucQueueStorage in
  xQueueGenericReset h (Queue pcHead 0 0 0 0 uxQueueLength uxItemSize 0 0 left) true.

(** sizeof( Queue_t ): four pointers, two lists of 20 bytes, three integers of 32 bits and
    two of 8, padded to a word *)
Definition sizeof_Queue_t : Z := 72.
Definition xQueueSizeInBytes (uxQueueLength uxItemSize : Z) : Z :=
  if uxItemSize =? 0 then 0 else u32 (uxQueueLength * uxItemSize).
(** What is asked of pvPortMalloc *)
Definition queue_request (uxQueueLength uxItemSize : Z) : Z := u32 (sizeof_Queue_t + xQueueSizeInBytes uxQueueLength uxItemSize).

(** [pxNewQueue] is what pvPortMalloc returned for that. *)
Definition xQueueGenericCreate (h : nat) (uxQueueLength uxItemSize pxNewQueue : Z) (left : list Z) : K (option Queue_t) :=
  if negb (pxNewQueue =? 0)
  then q ← prvInitialiseNewQueue h uxQueueLength uxItemSize (u32 (pxNewQueue + sizeof_Queue_t)) pxNewQueue left; mret (Some q)
  else mret None.

Definition xQueueCreateCountingSemaphore (h : nat) (uxMaxCount uxInitialCount pxNewQueue : Z) : K (option Queue_t) :=
  x ← xQueueGenericCreate h uxMaxCount queueSEMAPHORE_QUEUE_ITEM_LENGTH pxNewQueue [];
  match x with Some q => mret (Some (with_count uxInitialCount q)) | None => mret None end.

(** The first critical section of the loop in xQueueGenericSend: it returns, or goes on
    with the time of its first round. *)
Definition xQueueGenericSend_try (h : nat) (q : Queue_t) (pvItemToQueue : list Z) (xTicksToWait : Z) (xCopyPosition : position)
    (xTimeOut : option TimeOut_t) : K (Queue_t * (bool + TimeOut_t)) :=
  if (uxMessagesWaiting q <? uxLength q) || bool_decide (xCopyPosition = queueOVERWRITE) then
    '(xYieldRequired, q) ← lift (prvCopyDataToQueue q pvItemToQueue xCopyPosition);
    wake_yield (xTasksWaitingToReceive h) xYieldRequired;;
    mret (q, inl true)
  else if xTicksToWait =? 0 then mret (q, inl false)
  else match xTimeOut with
       | None => o ← vTaskSetTimeOutState; mret (q, inr o)
       | Some o => mret (q, inr o)
       end.

(** The same for xQueueGenericReceive; when it returns, the buffer is part of the answer. *)
Definition xQueueGenericReceive_try (h : nat) (q : Queue_t) (xTicksToWait : Z) (xJustPeeking : bool)
    (xTimeOut : option TimeOut_t) : K (Queue_t * (option (list Z) + TimeOut_t)) :=
  let n := uxMessagesWaiting q in
  if 0 <? n then
    let pcOriginalReadPosition := pcReadFrom q in
    '(buffer, q) ← lift (prvCopyDataFromQueue q);
    if negb xJustPeeking then
      let q := with_count (u32 (n - 1)) q in
      wake_yield (xTasksWaitingToSend h) false;; mret (q, inl (Some buffer))
    else
      let q := with_read pcOriginalReadPosition q in
      wake_yield (xTasksWaitingToReceive h) false;; mret (q, inl (Some buffer))
  else if xTicksToWait =? 0 then mret (q, inl None)
  else match xTimeOut with
       | None => o ← vTaskSetTimeOutState; mret (q, inr o)
       | Some o => mret (q, inr o)
       end.

(** A loop of prvUnlockQueue: as many waiting tasks are made ready as the lock counted. *)
Fixpoint unlock_loop (n : nat) (l : nat) : K unit :=
  match n with
  | O => mret ()
  | S n =>
      e ← listLIST_IS_EMPTY l;
      if negb e then
        r ← xTaskRemoveFromEventList l;
        (if r : bool then vTaskMissedYield else mret ());;
        unlock_loop n l
      else mret ()
  end.

(** prvUnlockQueue is two critical sections. *)
Definition prvUnlockQueue_tx (h : nat) (q : Queue_t) : K Queue_t :=
  unlock_loop (Z.to_nat (cTxLock q)) (xTasksWaitingToReceive h);; mret (with_tx queueUNLOCKED q).
Definition prvUnlockQueue_rx (h : nat) (q : Queue_t) : K Queue_t :=
  unlock_loop (Z.to_nat (cRxLock q)) (xTasksWaitingToSend h);; mret (with_rx queueUNLOCKED q).

(** The answers of the calls from interrupt handlers are what they return, and whether
    they set the variable behind pxHigherPriorityTaskWoken; [flag] says that there is one. *)
Definition xQueueGenericSendFromISR (h : nat) (q : Queue_t) (pvItemToQueue : list Z) (xCopyPosition : position) (flag : bool) :
    K (Queue_t * bool * bool) :=
  if (uxMessagesWaiting q <? uxLength q) || bool_decide (xCopyPosition = queueOVERWRITE) then
    let cTxLock := cTxLock q in
    '(_, q) ← lift (prvCopyDataToQueue q pvItemToQueue xCopyPosition);
    if cTxLock =? queueUNLOCKED
    then r ← wake_flag (xTasksWaitingToReceive h); mret (q, true, r && flag)
    else mret (with_tx (swrap 8 (cTxLock + 1)) q, true, false)
  else mret (q, false, false).

Definition xQueueGiveFromISR (h : nat) (q : Queue_t) (flag : bool) : K (Queue_t * bool * bool) :=
  let n := uxMessagesWaiting q in
  if n <? uxLength q then
    let cTxLock := cTxLock q in
    let q := with_count (u32 (n + 1)) q in
    if cTxLock =? queueUNLOCKED
    then r ← wake_flag (xTasksWaitingToReceive h); mret (q, true, r && flag)
    else mret (with_tx (swrap 8 (cTxLock + 1)) q, true, false)
  else mret (q, false, false).

Definition xQueueReceiveFromISR (h : nat) (q : Queue_t) (flag : bool) : K (Queue_t * option (list Z) * bool) :=
  let n := uxMessagesWaiting q in
  if 0 <? n then
    let cRxLock := cRxLock q in
    '(buffer, q) ← lift (prvCopyDataFromQueue q);
    let q := with_count (u32 (n - 1)) q in
    if cRxLock =? queueUNLOCKED
    then r ← wake_flag (xTasksWaitingToSend h); mret (q, Some buffer, r && flag)
    else mret (with_rx (swrap 8 (cRxLock + 1)) q, Some buffer, false)
  else mret (q, None, false).

Definition xQueuePeekFromISR (q : Queue_t) : K (Queue_t * option (list Z)) :=
  if 0 <? uxMessagesWaiting q then
    let pcOriginalReadPosition := pcReadFrom q in
    '(buffer, q) ← lift (prvCopyDataFromQueue q);
    mret (with_read pcOriginalReadPosition q, Some buffer)
  else mret (q, None).

End queue.

(** ** Kernel calls run over linked rings as over sequences *)

Lemma sim_lift {X} (x : option X) : sim (lift x) (lift x).
Proof. destruct x; [apply sim_ret|apply sim_fail]. Qed.
#[export] Hint Resolve @sim_lift : sim.
Lemma sim_wake_yield l b : sim (wake_yield l b) (wake_yield l b).
Proof. unfold wake_yield. solve_sim. Qed.
Lemma sim_wake_flag l : sim (wake_flag l) (wake_flag l).
Proof. unfold wake_flag. solve_sim. Qed.
#[export] Hint Resolve sim_wake_yield sim_wake_flag : sim.
Lemma sim_queue_reset h q b : sim (xQueueGenericReset h q b) (xQueueGenericReset h q b).
Proof. unfold xQueueGenericReset. solve_sim. Qed.
#[export] Hint Resolve sim_queue_reset : sim.
Lemma sim_queue_create h n z p b : sim (xQueueGenericCreate h n z p b) (xQueueGenericCreate h n z p b).
Proof. unfold xQueueGenericCreate, prvInitialiseNewQueue. solve_sim. Qed.
#[export] Hint Resolve sim_queue_create : sim.
Lemma sim_queue_counting h n c p : sim (xQueueCreateCountingSemaphore h n c p) (xQueueCreateCountingSemaphore h n c p).
Proof. unfold xQueueCreateCountingSemaphore. solve_sim. Qed.
Lemma sim_send_try h q x k p o : sim (xQueueGenericSend_try h q x k p o) (xQueueGenericSend_try h q x k p o).
Proof. unfold xQueueGenericSend_try, vTaskSetTimeOutState. solve_sim. Qed.
Lemma sim_receive_try h q k b o : sim (xQueueGenericReceive_try h q k b o) (xQueueGenericReceive_try h q k b o).
Proof. unfold xQueueGenericReceive_try, vTaskSetTimeOutState. solve_sim. Qed.
Lemma sim_unlock_loop n : ∀ l, sim (unlock_loop n l) (unlock_loop n l).
Proof. induction n; cbn [unlock_loop]; unfold vTaskMissedYield; solve_sim. Qed.
#[export] Hint Resolve sim_unlock_loop : sim.
Lemma sim_unlock_tx h q : sim (prvUnlockQueue_tx h q) (prvUnlockQueue_tx h q).
Proof. unfold prvUnlockQueue_tx. solve_sim. Qed.
Lemma sim_unlock_rx h q : sim (prvUnlockQueue_rx h q) (prvUnlockQueue_rx h q).
Proof. unfold prvUnlockQueue_rx. solve_sim. Qed.
Lemma sim_send_isr h q x p f : sim (xQueueGenericSendFromISR h q x p f) (xQueueGenericSendFromISR h q x p f).
Proof. unfold xQueueGenericSendFromISR. solve_sim. Qed.
Lemma sim_queue_give_isr h q f : sim (xQueueGiveFromISR h q f) (xQueueGiveFromISR h q f).
Proof. unfold xQueueGiveFromISR. solve_sim. Qed.
Lemma sim_receive_isr h q f : sim (xQueueReceiveFromISR h q f) (xQueueReceiveFromISR h q f).
Proof. unfold xQueueReceiveFromISR. solve_sim. Qed.
Lemma sim_peek_isr q : sim (xQueuePeekFromISR q) (xQueuePeekFromISR q).
Proof. unfold xQueuePeekFromISR. solve_sim. Qed.
#[export] Hint Resolve sim_queue_counting sim_send_try sim_receive_try sim_unlock_tx sim_unlock_rx sim_send_isr
  sim_queue_give_isr sim_receive_isr sim_peek_isr : sim.

(** ** The items of a queue *)

(** The slot that was read last *)
Definition last_read (q : Queue_t) : Z := (pcReadFrom q - pcHead q) / uxItemSize q.
Definition slot (q : Queue_t) (i : Z) : list Z := slice (i mod uxLength q * uxItemSize q) (uxItemSize q) (bytes q).
Definition contents (q : Queue_t) : list (list Z) :=
  if uxItemSize q =? 0 then replicate (Z.to_nat (uxMessagesWaiting q)) []
  else (λ i, slot q (last_read q + 1 + i)) <$> seqZ 0 (uxMessagesWaiting q).

(** Where an item goes; an item that overwrites is the only one. *)
Definition enqueue (xPosition : position) (x : list Z) (l : list (list Z)) : list (list Z) :=
  match xPosition with
  | queueSEND_TO_BACK => l ++ [x]
  | queueSEND_TO_FRONT => x :: l
  | queueOVERWRITE => [x]
  end.

(** The pointers of a queue that holds items; [r] is the slot that was read last. *)
Record ring (q : Queue_t) (r : Z) : Prop := {
  g_size : 0 < uxItemSize q;
  g_len : 0 < uxLength q;
  g_count : 0 ≤ uxMessagesWaiting q ≤ uxLength q;
  g_last : 0 ≤ r < uxLength q;
  g_read : pcReadFrom q = pcHead q + r * uxItemSize q;
  g_write : pcWriteTo q = pcHead q + (r + 1 + uxMessagesWaiting q) mod uxLength q * uxItemSize q;
  g_tail : pcTail q = pcHead q + uxLength q * uxItemSize q;
  g_low : uxItemSize q ≤ pcHead q;
  g_high : pcTail q < 2 ^ 32;
  g_bytes : zlen (bytes q) = uxLength q * uxItemSize q
}.

(** Every field in the range of its C type, the pointers at slots of the storage *)
Record queue_ok (q : Queue_t) : Prop := {
  q_len : 0 < uxLength q < 2 ^ 32;
  q_size : 0 ≤ uxItemSize q < 2 ^ 32;
  q_count : 0 ≤ uxMessagesWaiting q ≤ uxLength q;
  q_rx : -128 ≤ cRxLock q ≤ 127;
  q_tx : -128 ≤ cTxLock q ≤ 127;
  q_ring : 0 < uxItemSize q → ∃ r, ring q r
}.

Lemma ring_last q r : ring q r → last_read q = r.
Proof. intros [Hz _ _ _ Hr _ _ _ _ _]. unfold last_read. rewrite Hr. replace (pcHead q + r * uxItemSize q - pcHead q) with (r * uxItemSize q) by lia. apply Z.div_mul. lia. Qed.

Lemma ring_contents q r : ring q r → contents q = (λ i, slot q (r + 1 + i)) <$> seqZ 0 (uxMessagesWaiting q).
Proof. intros Hg. unfold contents. rewrite (ring_last _ _ Hg), (proj2 (Z.eqb_neq _ 0)); [done|]. pose proof (g_size _ _ Hg). lia. Qed.

Lemma queue_contents_length q : 0 ≤ uxMessagesWaiting q → zlen (contents q) = uxMessagesWaiting q.
Proof. intros Hn. unfold contents, zlen. destruct (_ =? 0); [rewrite length_replicate|rewrite length_fmap, length_seqZ]; lia. Qed.

(** Slots that are less than a turn apart are different. *)
Lemma slot_apart x d n : 0 < d < n → (x + d) mod n ≠ x mod n.
Proof.
  intros Hd E. assert ((x + d - x) mod n = 0) as E0 by (rewrite Zminus_mod, E, Z.sub_diag; apply Z.mod_0_l; lia).
  rewrite Z.add_simpl_l, Z.mod_small in E0; lia.
Qed.

Lemma slot_length q j item : 0 < uxLength q → zlen (bytes q) = uxLength q * uxItemSize q → zlen item = uxItemSize q →
  zlen (splice (j mod uxLength q * uxItemSize q) item (bytes q)) = zlen (bytes q).
Proof.
  intros HL Hb Hi. pose proof (Z.mod_pos_bound j (uxLength q) HL). pose proof (zlen_nonneg item). apply splice_length; nia.
Qed.

(** A slot keeps its item when another is written. *)
Lemma slot_splice q i j item : 0 < uxLength q → zlen (bytes q) = uxLength q * uxItemSize q → zlen item = uxItemSize q →
  i mod uxLength q ≠ j mod uxLength q →
  slot (with_bytes (splice (j mod uxLength q * uxItemSize q) item (bytes q)) q) i = slot q i.
Proof.
  intros HL Hb Hi Hne. unfold slot. cbn. pose proof (Z.mod_pos_bound i (uxLength q) HL). pose proof (Z.mod_pos_bound j (uxLength q) HL).
  pose proof (zlen_nonneg item). set (a := i mod uxLength q) in *. set (b := j mod uxLength q) in *.
  destruct (Z.lt_ge_cases a b); [apply slice_splice_before|apply slice_splice_after]; nia.
Qed.

Lemma slot_written q j item : 0 < uxLength q → zlen (bytes q) = uxLength q * uxItemSize q → zlen item = uxItemSize q →
  slot (with_bytes (splice (j mod uxLength q * uxItemSize q) item (bytes q)) q) j = item.
Proof.
  intros HL Hb Hi. unfold slot. cbn. pose proof (Z.mod_pos_bound j (uxLength q) HL). pose proof (zlen_nonneg item).
  rewrite <- Hi at 2. apply slice_splice_same; nia.
Qed.

Lemma slot_fields q q' i : uxLength q' = uxLength q → uxItemSize q' = uxItemSize q → bytes q' = bytes q → slot q' i = slot q i.
Proof. intros E1 E2 E3. unfold slot. by rewrite E1, E2, E3. Qed.

Lemma seqZ_cons_shift n : 0 ≤ n → seqZ 0 (n + 1) = 0 :: (Z.add 1 <$> seqZ 0 n).
Proof. intros Hn. rewrite seqZ_cons by lia. replace (Z.pred (n + 1)) with n by lia. by rewrite fmap_add_seqZ. Qed.

Lemma mod_add2 a b c n : (a mod n + b + c) mod n = (a + b + c) mod n.
Proof. rewrite <- !Z.add_assoc. apply Zplus_mod_idemp_l. Qed.

(** ** Copying *)

Lemma copy_in_slot q j item : 0 < uxLength q → zlen (bytes q) = uxLength q * uxItemSize q → zlen item = uxItemSize q →
  copy_in (pcHead q + j mod uxLength q * uxItemSize q) item q = Some (with_bytes (splice (j mod uxLength q * uxItemSize q) item (bytes q)) q).
Proof.
  intros HL Hb Hi. pose proof (Z.mod_pos_bound j (uxLength q) HL). pose proof (zlen_nonneg item). unfold copy_in.
  rewrite load_in_range by lia. cbn [mbind option_bind]. rewrite slice_all, Z.add_simpl_l, store_in_range by nia. done.
Qed.

(** A pointer that has come to the end of the ring goes on at its start. *)
Lemma next_slot q i : 0 < uxLength q → 0 < uxItemSize q → 0 ≤ i < uxLength q → 0 ≤ pcHead q →
  pcTail q = pcHead q + uxLength q * uxItemSize q → pcTail q < 2 ^ 32 →
  u32 (pcHead q + i * uxItemSize q + uxItemSize q) = pcHead q + (i + 1) * uxItemSize q ∧
  (if pcTail q <=? pcHead q + (i + 1) * uxItemSize q then pcHead q else pcHead q + (i + 1) * uxItemSize q) =
  pcHead q + (i + 1) mod uxLength q * uxItemSize q.
Proof.
  intros HL Hz Hi Hh Ht H32. split; [rewrite uwrap_id by (unfold fits_u; nia); lia|].
  destruct (Z.leb_spec (pcTail q) (pcHead q + (i + 1) * uxItemSize q)).
  - assert (i + 1 = uxLength q) as -> by nia. rewrite Z_mod_same_full. lia.
  - rewrite Z.mod_small by nia. done.
Qed.

Lemma wrap_write (b : bool) p x q : (if b then with_write p (with_write x q) else with_write x q) = with_write (if b then p else x) q.
Proof. by destruct b. Qed.
Lemma wrap_read (b : bool) p x q : (if b then with_read p (with_read x q) else with_read x q) = with_read (if b then p else x) q.
Proof. by destruct b. Qed.

Lemma seqZ_ext {X} (f g : Z → X) m n : (∀ i, m ≤ i < m + n → f i = g i) → f <$> seqZ m n = g <$> seqZ m n.
Proof. intros Hfg. apply list_fmap_ext. intros k i [-> ?]%lookup_seqZ. apply Hfg. lia. Qed.

(** What copying to a queue leaves alone *)
Definition same_queue (q q' : Queue_t) : Prop :=
  uxLength q' = uxLength q ∧ uxItemSize q' = uxItemSize q ∧ cRxLock q' = cRxLock q ∧ cTxLock q' = cTxLock q.

Section copying.
Context (q : Queue_t) (r : Z) (item : list Z).
Context (Hg : ring q r) (HL : uxLength q < 2 ^ 32) (Hi : zlen item = uxItemSize q).

Lemma send_back_ok : uxMessagesWaiting q < uxLength q →
  ∃ q', prvCopyDataToQueue q item queueSEND_TO_BACK = Some (false, q') ∧ ring q' r ∧ contents q' = contents q ++ [item] ∧
    uxMessagesWaiting q' = uxMessagesWaiting q + 1 ∧ same_queue q q'.
Proof using Hg HL Hi.
  intros Hn. pose proof Hg as [Gz Gl Gc Gr Grd Gw Gt Glo Ghi Gb]. set (w := r + 1 + uxMessagesWaiting q) in *.
  pose proof (Z.mod_pos_bound w (uxLength q) Gl) as Hw.
  unfold prvCopyDataToQueue. rewrite (proj2 (Z.eqb_neq _ 0)), decide_True by (done || lia). rewrite Gw, copy_in_slot by done.
  cbn [mbind option_bind]. rewrite wrap_write. cbn -[Z.pow uwrap]. rewrite Gw. destruct (next_slot q (w mod uxLength q)) as [-> ->]; [lia..|].
  rewrite (uwrap_id 32 (_ + 1)) by (unfold fits_u; lia). eexists. split; [done|].
  assert (ring (with_count (uxMessagesWaiting q + 1) (with_write (pcHead q + (w mod uxLength q + 1) mod uxLength q * uxItemSize q)
    (with_bytes (splice (w mod uxLength q * uxItemSize q) item (bytes q)) q))) r) as Hg'.
  { split; cbn; try done; try lia; [|by rewrite slot_length].
    rewrite Zplus_mod_idemp_l. do 3 f_equal. unfold w. lia. }
  split_and!; try done. rewrite (ring_contents _ _ Hg'), (ring_contents _ _ Hg). cbn [uxMessagesWaiting with_count].
  rewrite seqZ_app by lia. rewrite fmap_app. f_equal.
  - apply seqZ_ext. intros i Hin. erewrite slot_fields; [apply slot_splice|..]; try done.
    replace w with (r + 1 + i + (uxMessagesWaiting q - i)) by (unfold w; lia). apply not_eq_sym, slot_apart. lia.
  - change (seqZ (0 + uxMessagesWaiting q) 1) with [0 + uxMessagesWaiting q]. rewrite list_fmap_singleton. f_equal.
    erewrite slot_fields; [apply (slot_written q w)|..]; done.
Qed.

Lemma front_ptr : u32 (pcReadFrom q - uxItemSize q) = pcReadFrom q - uxItemSize q ∧
  (if pcReadFrom q - uxItemSize q <? pcHead q then u32 (pcTail q - uxItemSize q) else pcReadFrom q - uxItemSize q) =
  pcHead q + (r - 1) mod uxLength q * uxItemSize q.
Proof using Hg HL.
  pose proof Hg as [Gz Gl Gc Gr Grd Gw Gt Glo Ghi Gb]. rewrite Grd. split; [apply uwrap_id; unfold fits_u; nia|].
  destruct (Z.ltb_spec (pcHead q + r * uxItemSize q - uxItemSize q) (pcHead q)).
  - assert (r = 0) as -> by nia. rewrite uwrap_id by (unfold fits_u; nia). rewrite Gt.
    replace ((0 - 1) mod uxLength q) with (uxLength q - 1); [lia|].
    rewrite <- (Z_mod_plus_full (0 - 1) 1), Z.mod_small; lia.
  - rewrite Z.mod_small by nia. lia.
Qed.

Lemma copy_in_front : copy_in (pcReadFrom q) item q = Some (with_bytes (splice (r mod uxLength q * uxItemSize q) item (bytes q)) q).
Proof using Hg HL Hi.
  pose proof Hg as [Gz Gl Gc Gr Grd Gw Gt Glo Ghi Gb]. rewrite <- copy_in_slot by done. by rewrite Grd, Z.mod_small.
Qed.

Lemma send_front_ok : uxMessagesWaiting q < uxLength q →
  ∃ q', prvCopyDataToQueue q item queueSEND_TO_FRONT = Some (false, q') ∧ ring q' ((r - 1) mod uxLength q) ∧ contents q' = item :: contents q ∧
    uxMessagesWaiting q' = uxMessagesWaiting q + 1 ∧ same_queue q q'.
Proof using Hg HL Hi.
  intros Hn. pose proof Hg as [Gz Gl Gc Gr Grd Gw Gt Glo Ghi Gb]. pose proof (Z.mod_pos_bound (r - 1) (uxLength q) Gl) as Hr.
  unfold prvCopyDataToQueue. rewrite (proj2 (Z.eqb_neq _ 0)) by lia. do 2 (rewrite decide_False by done). rewrite copy_in_front.
  cbn [mbind option_bind]. rewrite wrap_read. cbn -[Z.pow uwrap]. destruct front_ptr as [-> ->].
  rewrite (uwrap_id 32 (_ + 1)) by (unfold fits_u; lia). eexists. split; [done|].
  assert (ring (with_count (uxMessagesWaiting q + 1) (with_read (pcHead q + (r - 1) mod uxLength q * uxItemSize q)
    (with_bytes (splice (r mod uxLength q * uxItemSize q) item (bytes q)) q))) ((r - 1) mod uxLength q)) as Hg'.
  { split; cbn; try done; try lia; [|by rewrite slot_length].
    rewrite Gw, mod_add2. do 3 f_equal. lia. }
  split_and!; try done. rewrite (ring_contents _ _ Hg'), (ring_contents _ _ Hg). cbn [uxMessagesWaiting with_count].
  rewrite seqZ_cons_shift by lia. rewrite fmap_cons, <- list_fmap_compose. f_equal.
  - erewrite slot_fields; [|done..]. unfold slot. cbn. rewrite mod_add2.
    replace (r - 1 + 1 + 0) with r by lia. apply (slot_written q r); done.
  - apply seqZ_ext. intros i Hin. cbn. erewrite slot_fields; [|done..].
    transitivity (slot (with_bytes (splice (r mod uxLength q * uxItemSize q) item (bytes q)) q) (r + 1 + i)).
    + unfold slot. cbn. rewrite mod_add2. do 3 f_equal. lia.
    + apply slot_splice; try done. replace (r + 1 + i) with (r + (1 + i)) by lia. apply slot_apart. lia.
Qed.

Lemma overwrite_ok : uxLength q = 1 →
  ∃ q', prvCopyDataToQueue q item queueOVERWRITE = Some (false, q') ∧ ring q' r ∧ contents q' = [item] ∧
    uxMessagesWaiting q' = 1 ∧ same_queue q q'.
Proof using Hg HL Hi.
  intros H1. pose proof Hg as [Gz Gl Gc Gr Grd Gw Gt Glo Ghi Gb]. assert (r = 0) as Hr0 by lia.
  unfold prvCopyDataToQueue. rewrite (proj2 (Z.eqb_neq _ 0)) by lia. rewrite decide_False by done. rewrite decide_True by done. rewrite copy_in_front.
  cbn [mbind option_bind]. rewrite wrap_read. cbn -[Z.pow uwrap]. destruct front_ptr as [-> ->].
  assert (u32 ((if 0 <? uxMessagesWaiting q then u32 (uxMessagesWaiting q - 1) else uxMessagesWaiting q) + 1) = 1) as ->.
  { assert (uxMessagesWaiting q = 0 ∨ uxMessagesWaiting q = 1) as [-> | ->] by lia; done. }
  eexists. split; [done|].
  assert (ring (with_count 1 (with_read (pcHead q + (r - 1) mod uxLength q * uxItemSize q)
    (with_bytes (splice (r mod uxLength q * uxItemSize q) item (bytes q)) q))) r) as Hg'.
  { split; cbn; try done; try lia; [..|by rewrite slot_length]; rewrite ?Gw, H1, !Z.mod_1_r; lia. }
  split_and!; try done. rewrite (ring_contents _ _ Hg'). cbn [uxMessagesWaiting with_count]. change (seqZ 0 1) with [0].
  rewrite list_fmap_singleton. f_equal. erewrite slot_fields; [|done..]. unfold slot at 1. cbn.
  replace ((r + 1 + 0) mod uxLength q) with (r mod uxLength q) by (by rewrite H1, !Z.mod_1_r). by apply (slot_written q r).
Qed.

End copying.

Lemma copy_from_ok q r : ring q r → 0 < uxMessagesWaiting q →
  ∃ q', prvCopyDataFromQueue q = Some (slot q (r + 1), q') ∧ contents q = slot q (r + 1) :: contents (with_count (uxMessagesWaiting q - 1) q') ∧
    ring (with_count (uxMessagesWaiting q - 1) q') ((r + 1) mod uxLength q) ∧ with_read (pcReadFrom q) q' = q.
Proof.
  intros Hg Hn. pose proof Hg as [Gz Gl Gc Gr Grd Gw Gt Glo Ghi Gb]. pose proof (Z.mod_pos_bound (r + 1) (uxLength q) Gl) as Hr.
  unfold prvCopyDataFromQueue. rewrite (proj2 (Z.eqb_neq _ 0)) by lia. cbn [negb]. rewrite wrap_read. cbn -[Z.pow uwrap]. rewrite Grd.
  destruct (next_slot q r) as [-> ->]; [lia..|]. rewrite Z.add_simpl_l, load_in_range by nia. cbn [mbind option_bind].
  eexists. split; [done|].
  assert (ring (with_count (uxMessagesWaiting q - 1) (with_read (pcHead q + (r + 1) mod uxLength q * uxItemSize q) q)) ((r + 1) mod uxLength q)) as Hg'.
  { split; cbn; try done; try lia. rewrite Gw, mod_add2. do 3 f_equal. lia. }
  split_and!; [|done|by destruct q; cbn in *; rewrite Grd].
  rewrite (ring_contents _ _ Hg'), (ring_contents _ _ Hg). cbn [uxMessagesWaiting with_count].
  replace (uxMessagesWaiting q) with (uxMessagesWaiting q - 1 + 1) at 1 by lia. rewrite seqZ_cons_shift by lia.
  rewrite fmap_cons, <- list_fmap_compose, Z.add_0_r. f_equal. apply seqZ_ext. intros i Hin. cbn. unfold slot. cbn. rewrite mod_add2. do 3 f_equal. lia.
Qed.

(** ** Every operation on the ring keeps it well formed and does to its items what it says *)

(** An item fits, or replaces the only one. *)
Definition fits (q : Queue_t) (xPosition : position) : Prop :=
  if decide (xPosition = queueOVERWRITE) then uxLength q = 1 ∧ 0 < uxItemSize q else uxMessagesWaiting q < uxLength q.
#[export] Instance fits_dec q p : Decision (fits q p).
Proof. unfold fits. destruct (decide (p = queueOVERWRITE)); apply _. Defined.

Lemma queue_ok_ring q q' r : queue_ok q → ring q' r → same_queue q q' → queue_ok q'.
Proof.
  intros [] Hg (E1 & E2 & E3 & E4). pose proof (g_count _ _ Hg). split; rewrite ?E1, ?E2, ?E3, ?E4; try done; [|eauto]. by rewrite <- E1.
Qed.

Lemma replicate_snoc {X} (x : X) n : replicate n x ++ [x] = replicate (S n) x.
Proof. symmetry. apply replicate_S_end. Qed.

(** A queue of items without bytes is a counter. *)
Lemma count_ok q n : queue_ok q → uxItemSize q = 0 → 0 ≤ n ≤ uxLength q → queue_ok (with_count n q) ∧ contents (with_count n q) = replicate (Z.to_nat n) [].
Proof.
  intros [] Hz Hn. split; [split; cbn; try done; rewrite Hz; lia|]. unfold contents. cbn. by rewrite Hz.
Qed.

Lemma put_ok q item xPosition : queue_ok q → zlen item = uxItemSize q → fits q xPosition →
  ∃ q', prvCopyDataToQueue q item xPosition = Some (false, q') ∧ queue_ok q' ∧ contents q' = enqueue xPosition item (contents q) ∧ same_queue q q' ∧
    uxMessagesWaiting q' ≤ uxMessagesWaiting q + 1.
Proof.
  intros Hq Hi Hf. pose proof Hq as [Ql Qs Qc _ _ Qr]. unfold fits in Hf. destruct (decide (uxItemSize q = 0)) as [Hz|Hz].
  - assert (xPosition ≠ queueOVERWRITE) as Hne by (intros E; rewrite decide_True in Hf by done; lia).
    rewrite decide_False in Hf by done. assert (item = []) as -> by (destruct item; [done|unfold zlen in Hi; cbn in Hi; lia]).
    destruct (count_ok q (uxMessagesWaiting q + 1) Hq Hz ltac:(lia)) as [Hok Hco].
    exists (with_count (uxMessagesWaiting q + 1) q). unfold prvCopyDataToQueue. rewrite Hz. cbn [Z.eqb].
    rewrite uwrap_id by (unfold fits_u; lia). split_and!; [done|done| |done|done]. rewrite Hco. unfold contents. rewrite Hz. cbn [Z.eqb].
    replace (Z.to_nat (uxMessagesWaiting q + 1)) with (S (Z.to_nat (uxMessagesWaiting q))) by lia.
    destruct xPosition; cbn [enqueue]; [by rewrite replicate_snoc|done|done].
  - destruct (Qr ltac:(lia)) as [r Hg]. destruct xPosition; cbn in Hf.
    + destruct (send_back_ok q r item Hg ltac:(lia) Hi Hf) as (q' & E & Hg' & Hc & Hn & Hs). exists q'. split_and!; try done; [by eapply queue_ok_ring|lia].
    + destruct (send_front_ok q r item Hg ltac:(lia) Hi Hf) as (q' & E & Hg' & Hc & Hn & Hs). exists q'. split_and!; try done; [by eapply queue_ok_ring|lia].
    + destruct (overwrite_ok q r item Hg ltac:(lia) Hi (proj1 Hf)) as (q' & E & Hg' & Hc & Hn & Hs). exists q'. split_and!; try done; [by eapply queue_ok_ring|lia].
Qed.

Lemma take_ok q : queue_ok q → 0 < uxMessagesWaiting q →
  ∃ x q', prvCopyDataFromQueue q = Some (x, q') ∧ contents q = x :: contents (with_count (uxMessagesWaiting q - 1) q') ∧
    queue_ok (with_count (uxMessagesWaiting q - 1) q') ∧ same_queue q q' ∧ with_read (pcReadFrom q) q' = q.
Proof.
  intros Hq Hn. pose proof Hq as [Ql Qs Qc _ _ Qr]. destruct (decide (uxItemSize q = 0)) as [Hz|Hz].
  - destruct (count_ok q (uxMessagesWaiting q - 1) Hq Hz ltac:(lia)) as [Hok Hco]. exists [], q.
    unfold prvCopyDataFromQueue. rewrite Hz. cbn [Z.eqb negb]. split_and!; try done; [|by destruct q].
    rewrite Hco. unfold contents. rewrite Hz. cbn [Z.eqb].
    by replace (Z.to_nat (uxMessagesWaiting q)) with (S (Z.to_nat (uxMessagesWaiting q - 1))) by lia.
  - destruct (Qr ltac:(lia)) as [r Hg]. destruct (copy_from_ok q r Hg Hn) as (q' & E & Hc & Hg' & Hb).
    assert (same_queue q q') as Hs by (rewrite <- Hb; by destruct q'). exists (slot q (r + 1)), q'. split_and!; try done.
    eapply queue_ok_ring; [exact Hq|exact Hg'|done].
Qed.

Lemma queue_ok_locks q rx tx : queue_ok q → -128 ≤ rx ≤ 127 → -128 ≤ tx ≤ 127 → queue_ok (with_rx rx (with_tx tx q)).
Proof. intros [? ? ? ? ? Hr] ? ?. split; try done. intros Hz. destruct (Hr Hz) as [r []]. exists r. by split. Qed.
Lemma queue_ok_rx q rx : queue_ok q → -128 ≤ rx ≤ 127 → queue_ok (with_rx rx q).
Proof. intros Hq Hr. apply (queue_ok_locks q rx (cTxLock q)) in Hr; [by destruct q|done|apply Hq]. Qed.
Lemma queue_ok_tx q tx : queue_ok q → -128 ≤ tx ≤ 127 → queue_ok (with_tx tx q).
Proof. intros Hq Ht. apply (queue_ok_locks q (cRxLock q) tx) in Ht; [by destruct q|done|apply Hq]. Qed.

Lemma lock_ok q : queue_ok q → queue_ok (prvLockQueue q) ∧ contents (prvLockQueue q) = contents q ∧ uxLength (prvLockQueue q) = uxLength q ∧
  uxMessagesWaiting (prvLockQueue q) = uxMessagesWaiting q ∧ uxItemSize (prvLockQueue q) = uxItemSize q ∧
  cTxLock (prvLockQueue q) = (if cTxLock q =? -1 then 0 else cTxLock q) ∧ cRxLock (prvLockQueue q) = (if cRxLock q =? -1 then 0 else cRxLock q).
Proof.
  intros Hq. pose proof (q_rx _ Hq). pose proof (q_tx _ Hq). unfold prvLockQueue, queueUNLOCKED, queueLOCKED_UNMODIFIED.
  assert (∀ b : bool, queue_ok (if b then with_rx 0 q else q)) as Hr by (intros []; [apply queue_ok_rx; [done|lia]|done]).
  assert (∀ (b : bool) (x : Queue_t), queue_ok x → queue_ok (if b then with_tx 0 x else x)) as Ht by (intros [] x Hx; [apply queue_ok_tx; [done|lia]|done]).
  split; [by apply Ht|]. destruct (Z.eqb_spec (cRxLock q) (-1)); cbn; destruct (Z.eqb_spec (cTxLock q) (-1)); cbn; split_and!; done || lia.
Qed.

(** A queue that is new or reset is empty. *)
Lemma reset_ok q : 0 < uxLength q < 2 ^ 32 → 0 ≤ uxItemSize q < 2 ^ 32 →
  (0 < uxItemSize q → zlen (bytes q) = uxLength q * uxItemSize q ∧ uxItemSize q ≤ pcHead q ∧ pcHead q + uxLength q * uxItemSize q < 2 ^ 32) →
  queue_ok (reset_fields q) ∧ contents (reset_fields q) = [].
Proof.
  intros HL Hz Hs. split; [|unfold contents; cbn; by destruct (_ =? 0)]. split; cbn; try done; try (unfold queueUNLOCKED; lia).
  intros Hp. destruct (Hs Hp) as (Hb & Hlo & Hhi). exists (uxLength q - 1).
  assert (u32 (uxLength q * uxItemSize q) = uxLength q * uxItemSize q) as E1 by (apply uwrap_id; unfold fits_u; nia).
  assert (u32 (u32 (uxLength q - 1) * uxItemSize q) = (uxLength q - 1) * uxItemSize q) as E2.
  { rewrite (uwrap_id 32 (uxLength q - 1)) by (unfold fits_u; lia). apply uwrap_id. unfold fits_u. nia. }
  split; cbn -[Z.pow]; rewrite ?E1, ?E2, ?uwrap_id by (unfold fits_u; nia); try done; try lia.
  replace (uxLength q - 1 + 1 + 0) with (uxLength q) by lia. rewrite Z_mod_same_full. lia.
Qed.

End RtosQueue.
