(* ===== verification/RtosQueueRun.v ===== *)
(** * Tasks and interrupt handlers that use FreeRTOS queues

    The loops of xQueueGenericSend and xQueueGenericReceive of queue.c around the critical
    sections in [RtosQueue], and the system in which they run: the scheduler, the queues
    and the tasks that are inside a queue call.  Any call of [RtosTask] that an application
    may make, and queue calls from interrupt handlers, come between the pieces of a loop:
    a piece is a critical section, or code that runs with the scheduler suspended and
    touches only what no interrupt handler touches then (vTaskPlaceOnEventList).

    Items are delivered as a bounded sequence keeps them, calls that may be made run to
    their end on the linked rings of list.c, and in [fair] runs no wake-up is lost. *)

From S2P Require Import Prelude RtosList RtosTask RtosSched RtosSys RtosCalls RtosRun RtosFrame RtosQueue.
Import RtosList RtosTask RtosSched RtosSys RtosCalls RtosRun RtosFrame RtosQueue.

Module RtosQueueRun.

#[local] Arguments xStateListItem : simpl never.
#[local] Arguments xEventListItem : simpl never.
#[local] Arguments pvOwner_task : simpl never.
#[local] Arguments xTasksWaitingToSend : simpl never.
#[local] Arguments xTasksWaitingToReceive : simpl never.

(** ** Tasks inside a queue call *)

Inductive request := Send (pvItemToQueue : list Z) (xCopyPosition : position) | Receive (xJustPeeking : bool).

(** Why the queue is unlocked again *)
Inductive outcome := Blocked | Again | TimedOut.
#[export] Instance outcome_eq_dec : EqDecision outcome.
Proof. solve_decision. Defined.

(** The next piece of the loop; xTimeOut is set by the first round that cannot go on. *)
Inductive stage :=
| Try (xTimeOut : option TimeOut_t)
| Suspend (xTimeOut : TimeOut_t)
| Lock (xTimeOut : TimeOut_t)
| Check (xTimeOut : TimeOut_t)
| Look (xTimeOut : TimeOut_t)
| Place (xTimeOut : TimeOut_t)
| UnlockTx (why : outcome) (xTimeOut : TimeOut_t)
| UnlockRx (why : outcome) (xTimeOut : TimeOut_t)
| Resume (why : outcome) (xTimeOut : TimeOut_t)
| Yield (xTimeOut : TimeOut_t)
| LookAgain (xTimeOut : TimeOut_t).

Record thread := Thread { xQueue : nat; what : request; xTicksToWait : Z; here : stage }.
Definition move (th : thread) (st : stage) : thread := Thread (xQueue th) (what th) (xTicksToWait th) st.
Definition retime (th : thread) (k : Z) (st : stage) : thread := Thread (xQueue th) (what th) k st.

(** What has happened to a queue: it was made or reset, with a count for a semaphore; an
    item was put, taken or looked at; a call returned errQUEUE_FULL or errQUEUE_EMPTY. *)
Inductive entry :=
| Made (h : nat) (uxInitialCount : Z)
| Put (h : nat) (xCopyPosition : position) (item : list Z)
| Took (h : nat) (item : list Z)
| Peeked (h : nat) (item : list Z)
| Full (h : nat)
| Empty (h : nat).

Section system.
Context {M : Type} `{ListMem M}.
Abbreviation K := (kcall M).

(** A task goes on until its call is over ([None]). *)
Definition advance (q : Queue_t) (th : thread) : K (Queue_t * option thread * list entry) :=
  let h := xQueue th in
  let k := xTicksToWait th in
  match here th with
  | Try xTimeOut =>
      match what th with
      | Send item xCopyPosition =>
          '(q, r) ← xQueueGenericSend_try h q item k xCopyPosition xTimeOut;
          match r with
          | inl true => mret (q, None, [Put h xCopyPosition item])
          | inl false => mret (q, None, [Full h])
          | inr o => mret (q, Some (move th (Suspend o)), [])
          end
      | Receive xJustPeeking =>
          '(q, r) ← xQueueGenericReceive_try h q k xJustPeeking xTimeOut;
          match r with
          | inl (Some buffer) => mret (q, None, [if xJustPeeking then Peeked h buffer else Took h buffer])
          | inl None => mret (q, None, [Empty h])
          | inr o => mret (q, Some (move th (Suspend o)), [])
          end
      end
  | Suspend o => vTaskSuspendAll;; mret (q, Some (move th (Lock o)), [])
  | Lock o => mret (prvLockQueue q, Some (move th (Check o)), [])
  | Check o =>
      '(over, o, k) ← xTaskCheckForTimeOut o k;
      mret (q, Some (retime th k (if over : bool then UnlockTx TimedOut o else Look o)), [])
  | Look o =>
      let no := match what th with Send _ _ => prvIsQueueFull q | Receive _ => prvIsQueueEmpty q end in
      mret (q, Some (move th (if no : bool then Place o else UnlockTx Again o)), [])
  | Place o =>
      let l := match what th with Send _ _ => xTasksWaitingToSend h | Receive _ => xTasksWaitingToReceive h end in
      vTaskPlaceOnEventList l k;; mret (q, Some (move th (UnlockTx Blocked o)), [])
  | UnlockTx why o => q ← prvUnlockQueue_tx h q; mret (q, Some (move th (UnlockRx why o)), [])
  | UnlockRx why o => q ← prvUnlockQueue_rx h q; mret (q, Some (move th (Resume why o)), [])
  | Resume why o =>
      xAlreadyYielded ← xTaskResumeAll;
      match why with
      | Blocked => mret (q, Some (move th (if xAlreadyYielded : bool then Try (Some o) else Yield o)), [])
      | Again => mret (q, Some (move th (Try (Some o))), [])
      | TimedOut =>
          match what th with
          | Send _ _ => mret (q, None, [Full h])
          | Receive _ => mret (q, Some (move th (LookAgain o)), [])
          end
      end
  | Yield o => portYIELD;; mret (q, Some (move th (Try (Some o))), [])
  | LookAgain o =>
      if prvIsQueueEmpty q then mret (q, None, [Empty h]) else mret (q, Some (move th (Try (Some o))), [])
  end.

(** ** The system *)

Record state := State {
  kernel : sched;
  lists : M;
  queues : gmap nat Queue_t;
  threads : gmap nat thread;
  history : list entry;
  owed : bool
}.

Inductive event :=
| Kernel (c : call)
| Create (h : nat) (uxQueueLength uxItemSize pxNewQueue : Z) (junk : list Z)
| CreateCounting (h : nat) (uxMaxCount uxInitialCount pxNewQueue : Z)
| Reset (h : nat)
| Begin (h : nat) (r : request) (xTicksToWait : Z)
| Go
| SendFromISR (h : nat) (item : list Z) (xCopyPosition : position) (flag : bool)
| GiveFromISR (h : nat) (flag : bool)
| ReceiveFromISR (h : nat) (flag : bool)
| PeekFromISR (h : nat).

(** A kernel call on the state, and the rest of the state after it *)
Definition call_kernel {X} (f : K X) (σ : state) (k : X → sched → M → state) : option state :=
  match f (kernel σ) (lists σ) with Some (x, s, m) => Some (k x s m) | None => None end.

Definition with_queue (h : nat) (q : Queue_t) (es : list entry) (σ : state) (s : sched) (m : M) : state :=
  State s m (<[h := q]> (queues σ)) (threads σ) (history σ ++ es) (owed σ).

Definition new_queue (h : nat) (n : Z) (σ : state) (x : option Queue_t) (s : sched) (m : M) : state :=
  match x with
  | Some q => with_queue h q [Made h n] σ s m
  | None => State s m (queues σ) (threads σ) (history σ) (owed σ)
  end.

(** A task that is deleted is no longer inside its queue call. *)
Definition forget (c : call) (s : sched) (P : gmap nat thread) : gmap nat thread :=
  match c with
  | CDelete h => match handle s h with Some t => delete t P | None => P end
  | _ => P
  end.

Definition step (e : event) (σ : state) : option state :=
  match e with
  | Kernel c => call_kernel (run_call c) σ (λ a s m,
      State s m (queues σ) (forget c (kernel σ) (threads σ)) (history σ) (owes c a (owed σ)))
  | Create h n z p junk => call_kernel (xQueueGenericCreate h n z p junk) σ (new_queue h 0 σ)
  | CreateCounting h n c p => call_kernel (xQueueCreateCountingSemaphore h n c p) σ (new_queue h c σ)
  | Reset h => q ← queues σ !! h; call_kernel (xQueueGenericReset h q false) σ (λ q, with_queue h q [Made h 0] σ)
  | Begin h r k =>
      t ← pxCurrentTCB (kernel σ);
      Some (State (kernel σ) (lists σ) (queues σ) (<[t := Thread h r k (Try None)]> (threads σ)) (history σ) (owed σ))
  | Go =>
      t ← pxCurrentTCB (kernel σ);
      th ← threads σ !! t;
      q ← queues σ !! xQueue th;
      call_kernel (advance q th) σ (λ '(q, x, es) s m,
        State s m (<[xQueue th := q]> (queues σ)) (match x with Some th => <[t := th]> (threads σ) | None => delete t (threads σ) end)
          (history σ ++ es) (owed σ))
  | SendFromISR h item pos flag => q ← queues σ !! h;
      call_kernel (xQueueGenericSendFromISR h q item pos flag) σ (λ '(q, r, _), with_queue h q (if r : bool then [Put h pos item] else [Full h]) σ)
  | GiveFromISR h flag => q ← queues σ !! h;
      call_kernel (xQueueGiveFromISR h q flag) σ (λ '(q, r, _), with_queue h q (if r : bool then [Put h queueSEND_TO_BACK []] else [Full h]) σ)
  | ReceiveFromISR h flag => q ← queues σ !! h;
      call_kernel (xQueueReceiveFromISR h q flag) σ (λ '(q, x, _), with_queue h q (match x with Some b => [Took h b] | None => [Empty h] end) σ)
  | PeekFromISR h => q ← queues σ !! h;
      call_kernel (xQueuePeekFromISR q) σ (λ '(q, x), with_queue h q (match x with Some b => [Peeked h b] | None => [Empty h] end) σ)
  end.

End system.
#[global] Arguments state M : clear implicits.

(** ** What a queue should hold

    The items after a history, [None] when the history is not one of a queue: an item that
    was taken or looked at was not the first, or a queue that was empty was not. *)
Definition play (h : nat) (x : option (list (list Z))) (e : entry) : option (list (list Z)) :=
  match e with
  | Made h' n => if decide (h' = h) then Some (replicate (Z.to_nat n) []) else x
  | Put h' pos item => if decide (h' = h) then enqueue pos item <$> x else x
  | Took h' item => if decide (h' = h) then match x with Some (y :: l) => if decide (y = item) then Some l else None | _ => None end else x
  | Peeked h' item => if decide (h' = h) then match x with Some (y :: l) => if decide (y = item) then x else None | _ => None end else x
  | Full h' => x
  | Empty h' => if decide (h' = h) then match x with Some [] => x | _ => None end else x
  end.
Definition replay (h : nat) (es : list entry) : option (list (list Z)) := fold_left (play h) es None.

(** ** The same run over the linked rings *)

Definition over {M N} (σ : state M) (m : N) : state N := State (kernel σ) m (queues σ) (threads σ) (history σ) (owed σ).

Lemma sim_advance q th : sim (advance q th) (advance q th).
Proof. unfold advance. cbv zeta. destruct (here th); solve_sim. Qed.
#[export] Hint Resolve sim_advance : sim.

Lemma sim_call_kernel {X} (fc : kcall mem X) fa (σ : state astate) m kc ka σ' : sim fc fa → rep m (lists σ) →
  (∀ x s A m', over (ka x s A) m' = kc x s m') → (∀ x s A, lists (ka x s A) = A) → call_kernel fa σ ka = Some σ' →
  ∃ m', call_kernel fc (over σ m) kc = Some (over σ' m') ∧ rep m' (lists σ').
Proof.
  intros Hs Hr Hk Hl. unfold call_kernel. cbn. destruct (fa (kernel σ) (lists σ)) as [[[x s] A]|] eqn:E; [|done]. intros [= <-].
  destruct (Hs _ _ _ _ _ _ Hr E) as (m' & -> & Hr'). exists m'. by rewrite Hk, Hl.
Qed.

Lemma sim_system e (σ : state astate) m σ' : rep m (lists σ) → step e σ = Some σ' → ∃ m', step e (over σ m) = Some (over σ' m') ∧ rep m' (lists σ').
Proof.
  intros Hr. destruct e as [c|h n z p b|h n c p|h|h r k| |h x p f|h f|h f|h]; cbn [step over queues threads kernel].
  - apply sim_call_kernel; [apply sim_call|done|done|done].
  - apply sim_call_kernel; [solve_sim|done|by intros []|by intros []].
  - apply sim_call_kernel; [solve_sim|done|by intros []|by intros []].
  - destruct (queues σ !! h); [|done]. cbn. apply sim_call_kernel; [solve_sim|done|done|done].
  - destruct (pxCurrentTCB (kernel σ)); [|done]. cbn. intros [= <-]. by exists m.
  - destruct (pxCurrentTCB (kernel σ)) as [t|]; [|done]. cbn. destruct (threads σ !! t) as [th|]; [|done]. cbn.
    destruct (queues σ !! xQueue th); [|done]. cbn. apply sim_call_kernel; [solve_sim|done|by intros [[]]|by intros [[]]].
  - destruct (queues σ !! h); [|done]. cbn. apply sim_call_kernel; [solve_sim|done|by intros [[]]|by intros [[]]].
  - destruct (queues σ !! h); [|done]. cbn. apply sim_call_kernel; [solve_sim|done|by intros [[]]|by intros [[]]].
  - destruct (queues σ !! h); [|done]. cbn. apply sim_call_kernel; [solve_sim|done|by intros [[]]|by intros [[]]].
  - destruct (queues σ !! h); [|done]. cbn. apply sim_call_kernel; [solve_sim|done|by intros []|by intros []].
Qed.

(** ** When a call may be made *)

Abbreviation spec := (state astate).

(** The running task is not inside a queue call. *)
Definition outside (σ : spec) : Prop := on_task (pxCurrentTCB (kernel σ)) (λ t, threads σ !! t = None).

Definition item_fits (q : Queue_t) (item : list Z) (pos : position) : Prop :=
  zlen item = uxItemSize q ∧ (pos = queueOVERWRITE → uxLength q = 1 ∧ 0 < uxItemSize q).
Definition on_queue (σ : spec) (h : nat) (P : Queue_t → Prop) : Prop := match queues σ !! h with Some q => P q | None => False end.
Definition request_fits (r : request) (q : Queue_t) : Prop := match r with Send item pos => item_fits q item pos | Receive _ => True end.

(** A handle and lists that are not in use yet *)
Definition new_handle (σ : spec) (h : nat) : Prop :=
  queues σ !! h = None ∧ seqs (lists σ) !! xTasksWaitingToSend h = None ∧ seqs (lists σ) !! xTasksWaitingToReceive h = None.
(** The caller asks for a size that 32 bits hold, and pvPortMalloc gives NULL or a block at
    [p] of as many bytes as it was asked for: [junk] is what is left in them behind the
    structure.  The block does not reach the last byte, and lies above an item's size. *)
Definition storage (n z p : Z) (junk : list Z) : Prop :=
  0 < n < 2 ^ 32 ∧ 0 ≤ z < 2 ^ 32 ∧
  (0 < z → p ≠ 0 → sizeof_Queue_t + n * z < 2 ^ 32 ∧ zlen junk = queue_request n z - sizeof_Queue_t ∧
    z ≤ p + sizeof_Queue_t ∧ 0 ≤ p ∧ p + queue_request n z < 2 ^ 32).

Definition ready_to_call (s : sched) (A : astate) (t : nat) : Prop :=
  cont A !! xEventListItem t = None ∧ on_task (cont A !! xStateListItem t) (λ l, (l < 5)%nat) ∧
  match tcbs s !! t with Some c => ucNotifyState c ≠ taskWAITING_NOTIFICATION | None => True end.

(** Handles are of queues, items have the size of the queue, only a queue of length one with
    item data is overwritten, and the assertions of the code hold.  A task that calls is
    ready (not suspended or blocked with the scheduler suspended), and blocks only with the
    scheduler running.

    A [fair] run keeps three more rules, on which waking depends: no task is deleted inside
    a queue call; while a queue is locked, interrupt handlers send or receive fewer than
    128 items; and a queue is reset when at most one task waits to send. *)
Definition permitted (fair : bool) (e : event) (σ : spec) : Prop :=
  let s := kernel σ in
  let A := lists σ in
  match e with
  | Kernel c => public c ∧ legal c s A ∧ (interrupt c = true ∨ outside σ) ∧
      (fair = true → match c with CDelete h => on_task (handle s h) (λ t, threads σ !! t = None) | _ => True end)
  | Create h n z p junk => outside σ ∧ new_handle σ h ∧ storage n z p junk
  | CreateCounting h n c p => outside σ ∧ new_handle σ h ∧ 0 < n < 2 ^ 32 ∧ 0 ≤ c ≤ n
  | Reset h => outside σ ∧ on_queue σ h (λ q, True) ∧ (fair = true → (length (items A (xTasksWaitingToSend h)) ≤ 1)%nat)
  | Begin h r k => outside σ ∧ on_queue σ h (request_fits r) ∧ 0 ≤ k ≤ portMAX_DELAY ∧ (k ≠ 0 → may_block s ∧ uxSchedulerSuspended s = 0) ∧
      on_task (pxCurrentTCB s) (ready_to_call s A)
  | Go => ¬ outside σ
  | SendFromISR h item pos _ => on_queue σ h (λ q, item_fits q item pos ∧ (fair = true → cTxLock q < 127))
  | GiveFromISR h _ => on_queue σ h (λ q, uxItemSize q = 0 ∧ (fair = true → cTxLock q < 127))
  | ReceiveFromISR h _ => on_queue σ h (λ q, fair = true → cRxLock q < 127)
  | PeekFromISR h => on_queue σ h (λ q, uxItemSize q ≠ 0)
  end.

#[export] Instance ready_to_call_dec s A t : Decision (ready_to_call s A t).
Proof. unfold ready_to_call. destruct (tcbs s !! t); apply _. Defined.
#[export] Instance on_queue_dec σ h P `{∀ q, Decision (P q)} : Decision (on_queue σ h P).
Proof. unfold on_queue. destruct (queues σ !! h); apply _. Defined.
#[export] Instance request_fits_dec r q : Decision (request_fits r q).
Proof. destruct r; unfold request_fits, item_fits; apply _. Defined.
#[export] Instance permitted_dec fair e σ : Decision (permitted fair e σ).
Proof.
  destruct e as [c|h n z p b|h n c p|h|h r k| |h x p f|h f|h f|h]; cbn [permitted];
    unfold outside, new_handle, storage, may_block, item_fits; try apply _. destruct c; cbn [public]; apply _.
Defined.

Lemma ready_to_call_calm s A t : ready_to_call s A t → calm s A t.
Proof.
  intros (H1 & (l & Hl & H2)%on_task_inv & H3). split_and!; [done|by exists l|]. intros (c & Hc & Hw). by rewrite Hc in H3.
Qed.

End RtosQueueRun.
