(* ===== verification/RtosQueueOk.v ===== *)
(** * Correctness of FreeRTOS queues with the scheduler

    The invariant of the system of [RtosQueueRun]: what every task inside a queue call may
    rely on, who locks a queue, that each message and each free place is matched by a task
    that was woken for it, and that the items are those of the history. *)

From S2P Require Import Prelude RtosList RtosTask RtosSched RtosSys RtosCalls RtosRun RtosFrame RtosQueue RtosQueueRun.
Import RtosList RtosTask RtosSched RtosSys RtosCalls RtosRun RtosFrame RtosQueue RtosQueueRun.

Module RtosQueueOk.

#[local] Arguments xStateListItem : simpl never.
#[local] Arguments xEventListItem : simpl never.
#[local] Arguments pvOwner_task : simpl never.
#[local] Arguments xTasksWaitingToSend : simpl never.
#[local] Arguments xTasksWaitingToReceive : simpl never.

(** ** Total and partial statements together *)

Lemma sane_sinv o s A : sinv o s A → xSchedulerRunning s = true → sane s.
Proof.
  intros Hi Hr. pose proof (i_base _ _ _ Hi) as Hb. pose proof (b_k _ _ Hb) as Hk. split; [done| |..].
  - destruct (b_current _ _ Hb) as (t & c & -> & _). by eexists.
  - destruct (k_two _ _ _ _ Hk) as [[-> _]|[-> _]]; unfold xDelayedTaskList1, xDelayedTaskList2; lia.
  - destruct (k_two _ _ _ _ Hk) as [[_ ->]|[_ ->]]; unfold xDelayedTaskList1, xDelayedTaskList2; lia.
  - apply Hk.
  - apply Hk.
Qed.

(** What the calls made for queues leave alone *)
Record calls_ok {X} (f : kcall astate X) : Prop := {
  co_gentle : keeps (gentle None) f;
  co_lands : lands f;
  co_soothing : keeps (soothing nobody) f
}.

Record framed (s : sched) (A : astate) (s' : sched) (A' : astate) : Prop := {
  fr_sane : sane s';
  fr_gentle : gentle None s A s' A';
  fr_lands : pxCurrentTCB s' = pxCurrentTCB s ∨ chosen s' A' ∧ uxSchedulerSuspended s' = 0;
  fr_soothing : soothing nobody s A s' A'
}.

Lemma wp_framed {X} (f : kcall astate X) Q s A : calls_ok f → sane s → wp f Q s A → wp f (λ x s' A', Q x s' A' ∧ framed s A s' A') s A.
Proof.
  intros [Hg Hl Hs] Hsn (x & s' & A' & E & HQ). exists x, s', A'. split; [done|]. split; [done|]. destruct (Hg _ _ _ _ _ Hsn E) as [? ?].
  split; [done|done|by eapply Hl|by eapply Hs].
Qed.

Lemma calls_ok_ret {X} (x : X) : calls_ok (mret x).
Proof. split; [solve_keeps|solve_lands|solve_keeps]. Qed.

Lemma framed_refl s A : sane s → framed s A s A.
Proof. intros Hs. split; [done|apply krel_refl|by left|by intros t]. Qed.

(** ** Waking waiting tasks *)

(** [n] tasks were taken from the list, unless it became empty. *)
Definition freed (l : nat) (n : nat) (A A' : astate) : Prop := items A' l ≠ [] →
  ∃ ts : gset nat, size ts = n ∧ ∀ t, t ∈ ts → cont A !! xEventListItem t = Some l ∧ ∀ m, (10 ≤ m)%nat → cont A' !! xEventListItem t ≠ Some m.

Lemma items_shrink A A' l : wf A → wf A' → shrink A A' → (10 ≤ l)%nat → items A' l ≠ [] → items A l ≠ [].
Proof.
  intros Hw Hw' [Hs _] Hl Hne E. destruct (items A' l) as [|x xs] eqn:Ex; [done|].
  assert (cont A' !! x = Some l) as Hx by (apply (items_cont _ _ _ Hw'); rewrite Ex; apply elem_of_cons; by left).
  apply Hs, (items_cont _ _ _ Hw) in Hx; [|done]. rewrite E in Hx. by apply elem_of_nil in Hx.
Qed.

Lemma items_nil A l : wf A → (∀ t, cont A !! t ≠ Some l) → items A l = [].
Proof.
  intros Hw Hc. destruct (items A l) as [|x xs] eqn:Ex; [done|]. destruct (Hc x). apply (items_cont _ _ _ Hw). rewrite Ex. apply elem_of_cons. by left.
Qed.

(** The first task of a list is taken out of it. *)
Lemma remove_event_frees o s A l x s' A' : sinv o s A → xSchedulerRunning s = true → (10 ≤ l)%nat →
  xTaskRemoveFromEventList l s A = Some (x, s', A') →
  ∃ t, cont A !! xEventListItem t = Some l ∧ ∀ m, (10 ≤ m)%nat → cont A' !! xEventListItem t ≠ Some m.
Proof.
  intros Hi Hr Hl E. pose proof (b_k _ _ (i_base _ _ _ Hi)) as Hk. revert E. unfold xTaskRemoveFromEventList. unfold mbind at 1, kcall_bind at 1.
  unfold listGET_OWNER_OF_HEAD_ENTRY, list_call, list_step, spec_lists. unfold mbind at 1, kcall_bind at 1. cbn [astep].
  destruct (seqs A !! l) as [[[|n xs] c]|] eqn:El; [done| |done]. cbn [mbind option_bind head owner_of mret kcall_ret].
  assert (cont A !! n = Some l) as Hn by (eapply (w_member _ (k_wf _ _ _ _ Hk)); [done|apply elem_of_cons; by left]).
  destruct (event_list_item _ _ _ _ _ Hk Hn Hl) as [En _]. set (t := pvOwner_task n) in *. rewrite En in Hn.
  unfold mret at 1, kcall_ret at 1. unfold mbind at 1, kcall_bind at 1.
  destruct (uxListRemove (xEventListItem t) s A) as [[[y s1] A1]|] eqn:E1; [|done]. destruct (remove_call_inv _ _ _ _ _ _ E1) as (-> & _ & Hc1).
  intros E. exists t. split; [done|]. assert (cont A1 !! xEventListItem t = None) as Hn1 by (rewrite Hc1; apply lookup_delete_eq).
  assert (sane s) as Hs by (by eapply sane_sinv).
  match type of E with ?f s A1 = _ => assert (keeps (gentle None) f) as Hg by solve_keeps end.
  destruct (Hg _ _ _ _ _ Hs E) as (_ & [Hsh _] & _). intros m Hm Hx. apply Hsh in Hx; [|done]. congruence.
Qed.

Lemma wp_remove_frees o s A l (Q : bool → sched → astate → Prop) : sinv o s A → xSchedulerRunning s = true → (10 ≤ l)%nat → items A l ≠ [] →
  (∀ r s' A', sinv o s' A' → xSchedulerRunning s' = true → shrink A A' → freed l 1 A A' → Q r s' A') → wp (xTaskRemoveFromEventList l) Q s A.
Proof.
  intros Hi Hr Hl Hne HQ. destruct (wp_remove_event o s A l (λ _, sinv o) Hi Hl Hne ltac:(done)) as (r & s' & A' & E & Hi').
  exists r, s', A'. split; [done|]. pose proof (sane_sinv _ _ _ Hi Hr) as Hs. destruct (gentle_remove_event None l _ _ _ _ _ Hs E) as (Hs' & Hsh & _).
  apply HQ; [done|apply Hs'|done|]. intros _. destruct (remove_event_frees _ _ _ _ _ _ _ Hi Hr Hl E) as (t & H1 & H2).
  exists {[t]}. split; [apply size_singleton|]. intros u ->%elem_of_singleton. done.
Qed.

Lemma freed_shrink l n A A1 A' : wf A1 → wf A' → (10 ≤ l)%nat → freed l n A A1 → shrink A1 A' → freed l n A A'.
Proof.
  intros Hw1 Hw Hl Hf Hs Hne. destruct (Hf (items_shrink _ _ _ Hw1 Hw Hs Hl Hne)) as (ts & Hn & Hts). exists ts. split; [done|].
  intros t Ht. destruct (Hts t Ht) as [? Hm]. split; [done|]. intros m Hm10 Hc. by apply (Hm m Hm10), Hs.
Qed.

Lemma freed_empty l n A A' : items A l = [] → wf A → wf A' → (10 ≤ l)%nat → shrink A A' → freed l n A A'.
Proof. intros He Hw Hw' Hl Hs Hne. by destruct (items_shrink _ _ _ Hw Hw' Hs Hl Hne). Qed.

Lemma shrink_refl A : shrink A A.
Proof. split; eauto. Qed.
Lemma shrink_trans A1 A2 A3 : shrink A1 A2 → shrink A2 A3 → shrink A1 A3.
Proof. intros [H1 H2] [H3 H4]. split; eauto. Qed.
Lemma sinv_wf o s A : sinv o s A → wf A.
Proof. intros Hi. apply (b_k _ _ (i_base _ _ _ Hi)). Qed.
#[local] Hint Resolve sinv_wf shrink_refl : core.

Section wake.
Context (o : bool) (s : sched) (A : astate) (l : nat).
Context (Hi : sinv o s A) (Hr : xSchedulerRunning s = true) (Hl : (10 ≤ l)%nat) (Hls : is_Some (seqs A !! l)).

Lemma wp_queue_wake_flag : wp (wake_flag l) (λ _ s' A', sinv o s' A' ∧ freed l 1 A A') s A.
Proof using Hi Hr Hl Hls.
  unfold wake_flag. apply wp_bind, wp_empty; [done|]. destruct (bool_decide_reflect (items A l = [])) as [He|He]; cbn [negb].
  - apply wp_ret. split; [done|]. apply freed_empty; eauto.
  - eapply wp_remove_frees; [done..|]. eauto.
Qed.

Lemma wp_wake_yield b : wp (wake_yield l b) (λ _ s' A', sinv o s' A' ∧ freed l 1 A A') s A.
Proof using Hi Hr Hl Hls.
  assert (∀ s1 A1 (Q : unit → sched → astate → Prop), sinv o s1 A1 → xSchedulerRunning s1 = true → shrink A A1 →
    (∀ s2 A2, sinv o s2 A2 → shrink A1 A2 → Q () s2 A2) → wp portYIELD Q s1 A1) as Hy.
  { intros s1 A1 Q Hi1 Hr1 Hs1 HQ. destruct (wp_yield s1 A1 (λ _ s2 A2, sinv false s2 A2) (i_base _ _ _ Hi1) Hr1 ltac:(done)) as ([] & s2 & A2 & E & Hi2).
    exists (), s2, A2. split; [done|]. destruct (gentle_switch None _ _ _ _ _ (sane_sinv _ _ _ Hi1 Hr1) E) as (_ & Hg & _).
    apply HQ; [by apply sinv_weaken|done]. }
  unfold wake_yield. apply wp_bind, wp_empty; [done|]. destruct (bool_decide_reflect (items A l = [])) as [He|He]; cbn [negb].
  - assert (∀ A', wf A' → shrink A A' → freed l 1 A A') as Hf by (intros; apply freed_empty; eauto).
    destruct b; [|apply wp_ret; split; eauto]. apply (Hy s A); [done|done|apply shrink_refl|]. intros s2 A2 Hi2 Hs2. split; eauto.
  - apply wp_bind. eapply wp_remove_frees; [done..|]. intros r s1 A1 Hi1 Hr1 Hs1 Hf1. destruct r; [|by apply wp_ret].
    apply (Hy s1 A1); [done|done|done|]. intros s2 A2 Hi2 Hs2. split; [done|]. exact (freed_shrink l 1 A A1 A2 (sinv_wf _ _ _ Hi1) (sinv_wf _ _ _ Hi2) Hl Hf1 Hs2).
Qed.

End wake.

Lemma wp_unlock_loop o n : ∀ s A l, sinv o s A → xSchedulerRunning s = true → (10 ≤ l)%nat → is_Some (seqs A !! l) →
  wp (unlock_loop n l) (λ _ s' A', sinv o s' A' ∧ freed l n A A') s A.
Proof.
  induction n as [|n IH]; intros s A l Hi Hr Hl Hls; cbn [unlock_loop].
  { apply wp_ret. split; [done|]. intros _. exists ∅. split; [apply size_empty|set_solver]. }
  apply wp_bind, wp_empty; [done|]. destruct (bool_decide_reflect (items A l = [])) as [He|He]; cbn [negb].
  { apply wp_ret. split; [done|]. apply freed_empty; eauto. }
  apply wp_bind. eapply wp_remove_frees; [done..|]. intros r s1 A1 Hi1 Hr1 Hs1 Hf1.
  assert (∀ s2, sinv o s2 A1 → xSchedulerRunning s2 = true → wp (unlock_loop n l) (λ _ s' A', sinv o s' A' ∧ freed l (S n) A A') s2 A1) as Hrest.
  { intros s2 Hi2 Hr2. destruct (IH s2 A1 l Hi2 Hr2 Hl ltac:(by apply Hs1)) as (x & s3 & A3 & E & Hi3 & Hf3). exists x, s3, A3. split; [done|]. split; [done|].
    intros Hne. destruct (Hf3 Hne) as (ts & Hn & Hts).
    assert (shrink A1 A3) as Hs3.
    { assert (keeps (gentle None) (unlock_loop n l)) as Hg by (clear; induction n; cbn [unlock_loop]; unfold vTaskMissedYield; solve_keeps).
      by destruct (Hg _ _ _ _ _ (sane_sinv _ _ _ Hi2 Hr2) E) as (_ & ? & _). }
    destruct (Hf1 (items_shrink _ _ _ (sinv_wf _ _ _ Hi2) (sinv_wf _ _ _ Hi3) Hs3 Hl Hne)) as (t1 & H1 & Ht1).
    exists (t1 ∪ ts). split.
    - rewrite size_union, H1, Hn; [done|]. intros t Ht Ht'. destruct (Ht1 t Ht) as [_ Hm]. destruct (Hts t Ht') as [Hc _]. by apply (Hm l Hl).
    - intros t [Ht|Ht]%elem_of_union.
      + destruct (Ht1 t Ht) as [? Hm]. split; [done|]. intros m Hm10 Hc. by apply (Hm m Hm10), Hs3.
      + destruct (Hts t Ht) as [Hc ?]. split; [|done]. by apply Hs1. }
  apply wp_bind. destruct r; [|apply wp_ret; eauto]. apply wp_modify. apply Hrest; [|done]. apply sinv_yield, Hi1.
Qed.

Lemma keeps_unlock_loop R `{!Still R} n : ∀ l, keeps R (xTaskRemoveFromEventList l) → keeps R (unlock_loop n l).
Proof. induction n; intros l Hl; cbn [unlock_loop]; unfold vTaskMissedYield; solve_keeps. Qed.
Lemma calls_ok_unlock_loop n l : calls_ok (unlock_loop n l).
Proof.
  split; [apply keeps_unlock_loop; [apply _|solve_keeps]| |apply keeps_unlock_loop; [apply _|solve_keeps]].
  apply lands_invar. induction n; cbn [unlock_loop]; unfold vTaskMissedYield; invar_unfold.
Qed.
Lemma calls_ok_wake_yield l b : calls_ok (wake_yield l b).
Proof. unfold wake_yield. split; [solve_keeps|solve_lands|solve_keeps]. Qed.
Lemma calls_ok_wake_flag l : calls_ok (wake_flag l) ∧ keeps steady (wake_flag l).
Proof.
  unfold wake_flag. split; [split; [solve_keeps|solve_lands|solve_keeps]|]. apply steady_invar; [solve_keeps|invar_unfold|invar_unfold].
Qed.
Lemma calls_ok_suspend_all : calls_ok vTaskSuspendAll.
Proof. split; [solve_keeps|apply lands_invar; eauto with invar|solve_keeps]. Qed.
Lemma calls_ok_resume_all : calls_ok xTaskResumeAll.
Proof. split; [solve_keeps|apply lands_resume_all|solve_keeps]. Qed.
Lemma calls_ok_yield : calls_ok portYIELD.
Proof. split; [solve_keeps|apply lands_yield|solve_keeps]. Qed.

(** ** The invariant *)

Inductive dir := ToSend | ToReceive.
#[export] Instance dir_eq_dec : EqDecision dir.
Proof. solve_decision. Defined.

Definition wait_list (d : dir) (h : nat) : nat := match d with ToSend => xTasksWaitingToSend h | ToReceive => xTasksWaitingToReceive h end.
Definition dir_of (r : request) : dir := match r with Send _ _ => ToSend | Receive _ => ToReceive end.
(** What the tasks wait for: places or messages; and where the lock counts them *)
Definition avail (d : dir) (q : Queue_t) : Z := match d with ToSend => uxLength q - uxMessagesWaiting q | ToReceive => uxMessagesWaiting q end.
Definition lock (d : dir) (q : Queue_t) : Z := match d with ToSend => cRxLock q | ToReceive => cTxLock q end.

Lemma wait_list_event d h : (10 ≤ wait_list d h)%nat.
Proof. destruct d; unfold wait_list, xTasksWaitingToSend, xTasksWaitingToReceive, event_list; lia. Qed.
Lemma wait_list_inj d h d' h' : wait_list d h = wait_list d' h' → d = d' ∧ h = h'.
Proof. destruct d, d'; unfold wait_list, xTasksWaitingToSend, xTasksWaitingToReceive, event_list; intros; split; (done || lia). Qed.
#[local] Hint Resolve wait_list_event : core.

(** With the scheduler suspended *)
Definition in_window (st : stage) : bool :=
  match st with Lock _ | Check _ | Look _ | Place _ | UnlockTx _ _ | UnlockRx _ _ | Resume _ _ => true | _ => false end.
(** Not in the list of waiting tasks since the last round *)
Definition early (st : stage) : bool :=
  match st with UnlockTx w _ | UnlockRx w _ | Resume w _ => bool_decide (w ≠ Blocked) | Yield _ => false | _ => true end.
(** The next thing it does with the queue is to try again. *)
Definition retrying (st : stage) : bool :=
  match st with Try _ | Yield _ => true | UnlockTx w _ | UnlockRx w _ | Resume w _ => bool_decide (w ≠ TimedOut) | _ => false end.
Definition parked_at (st : stage) : bool :=
  match st with Try (Some _) | Yield _ => true | UnlockTx w _ | UnlockRx w _ | Resume w _ => bool_decide (w = Blocked) | _ => false end.
Definition holds_lock (d : dir) (st : stage) : bool :=
  match st with Check _ | Look _ | Place _ | UnlockTx _ _ => true | UnlockRx _ _ => bool_decide (d = ToSend) | _ => false end.
Definition is_place (st : stage) : bool := match st with Place _ => true | _ => false end.

(** Whether the run is fair *)
Section fair.
Context (fair : bool).

(** A task that is inside a queue call *)
Record thread_ok (s : sched) (A : astate) (Q : gmap nat Queue_t) (t : nat) (th : thread) : Prop := {
  to_queue : ∃ q, Q !! xQueue th = Some q ∧ request_fits (what th) q ∧ (fair = true → ∀ d, holds_lock d (here th) = true → 0 ≤ lock d q);
  to_ticks : 0 ≤ xTicksToWait th ≤ portMAX_DELAY;
  to_wait : here th ≠ Try None → 0 < xTicksToWait th;
  to_notify : ¬ waiting s t;
  to_idle : xTicksToWait th ≠ 0 → xIdleTaskHandle s ≠ Some t;
  to_window : in_window (here th) = true → pxCurrentTCB s = Some t ∧ uxSchedulerSuspended s = 1;
  to_open : pxCurrentTCB s = Some t → in_window (here th) = false → xTicksToWait th ≠ 0 → uxSchedulerSuspended s = 0;
  to_calm : pxCurrentTCB s = Some t → early (here th) = true → calm s A t
}.

Definition on (h : nat) (d : dir) (th : thread) : bool := bool_decide (xQueue th = h) && bool_decide (dir_of (what th) = d).

(** The tasks that will try again and do not wait *)
Definition awake (A : astate) (P : gmap nat thread) (h : nat) (d : dir) : gset nat :=
  filter (λ t, cont A !! xEventListItem t ≠ Some (wait_list d h)) (dom (filter (λ kv, on h d kv.2 && retrying (here kv.2) = true) P)).
Definition placing (P : gmap nat thread) (h : nat) (d : dir) : Prop := ∃ t th, P !! t = Some th ∧ on h d th = true ∧ is_place (here th) = true.

(** Everything that tasks wait for, or are about to, has a task that was woken for it, or
    is counted by the lock. *)
Definition matched (A : astate) (P : gmap nat thread) (h : nat) (d : dir) (q : Queue_t) : Prop :=
  items A (wait_list d h) ≠ [] ∨ placing P h d → avail d q ≤ Z.of_nat (size (awake A P h d)) + Z.max 0 (lock d q).

Record qinv (σ : spec) : Prop := {
  v_sched : sinv (owed σ) (kernel σ) (lists σ);
  v_running : xSchedulerRunning (kernel σ) = true;
  v_queue : ∀ h q, queues σ !! h = Some q → queue_ok q ∧ ∀ d, is_Some (seqs (lists σ) !! wait_list d h);
  v_thread : ∀ t th, threads σ !! t = Some th → thread_ok (kernel σ) (lists σ) (queues σ) t th;
  v_member : ∀ h q d t, queues σ !! h = Some q → cont (lists σ) !! xEventListItem t = Some (wait_list d h) →
    ∃ th, threads σ !! t = Some th ∧ on h d th = true ∧ parked_at (here th) = true;
  v_lock : ∀ h q d, queues σ !! h = Some q → lock d q ≠ -1 → ∃ t th, threads σ !! t = Some th ∧ xQueue th = h ∧ holds_lock d (here th) = true;
  v_wake : fair = true → ∀ h q d, queues σ !! h = Some q → -1 ≤ lock d q ∧ matched (lists σ) (threads σ) h d q;
  v_history : ∀ h q, queues σ !! h = Some q → replay h (history σ) = Some (contents q)
}.

Lemma elem_of_awake A P h d t : t ∈ awake A P h d ↔ ∃ th, P !! t = Some th ∧ on h d th = true ∧ retrying (here th) = true ∧ cont A !! xEventListItem t ≠ Some (wait_list d h).
Proof.
  unfold awake. rewrite elem_of_filter, elem_of_dom. split.
  - intros [Hc [th Hth]]. apply map_lookup_filter_Some in Hth as [? ?]. cbn in *. exists th. destruct (on h d th), (retrying (here th)); done.
  - intros (th & Ht & H1 & H2 & H3). split; [done|]. exists th. apply map_lookup_filter_Some. cbn. by rewrite H1, H2.
Qed.

Lemma awake_shrink A A' P h d : shrink A A' → awake A P h d ⊆ awake A' P h d.
Proof.
  intros [Hs _] t. rewrite !elem_of_awake. intros (th & ? & ? & ? & Hc). exists th. split_and!; try done. intros Hc'. by apply Hc, Hs.
Qed.

(** Waking adds to those that are awake. *)
Lemma awake_freed A A' P h d n : shrink A A' → freed (wait_list d h) n A A' → items A' (wait_list d h) ≠ [] →
  (∀ t, cont A !! xEventListItem t = Some (wait_list d h) → ∃ th, P !! t = Some th ∧ on h d th = true ∧ parked_at (here th) = true) →
  (size (awake A P h d) + n ≤ size (awake A' P h d))%nat.
Proof.
  intros Hs Hf Hne HM. destruct (Hf Hne) as (ts & <- & Hts). rewrite <- size_union.
  - apply subseteq_size, union_subseteq. split; [by apply awake_shrink|]. intros t Ht. destruct (Hts t Ht) as [Hc Hm]. apply elem_of_awake.
    destruct (HM t Hc) as (th & ? & ? & Hp). exists th. split_and!; [done|done| |by apply Hm].
    destruct (here th) as [|?|?|?|?|?|w ?|w ?|w ?|?|?]; try done; cbn in *; destruct w; done.
  - intros t Ht Ht'. destruct (Hts t Ht') as [Hc _]. apply elem_of_awake in Ht as (? & _ & _ & _ & Hn). done.
Qed.

(** ** The kernel changes and the queues do not *)

Lemma chosen_calm o s A t : sinv o s A → chosen s A → uxSchedulerSuspended s = 0 → pxCurrentTCB s = Some t → ¬ waiting s t → calm s A t.
Proof.
  intros Hi Hc Hs Ht Hw. pose proof (i_base _ _ _ Hi) as Hb. destruct (chosen_ready _ _ _ _ _ (b_k _ _ Hb) Hc Ht) as (l & Hl & Hst).
  split_and!; [|by exists l|done]. destruct (cont A !! xEventListItem t) as [m|] eqn:E; [|done].
  destruct (b_event _ _ Hb _ _ E) as (m' & Hm' & [Hbl|[-> _]]).
  - assert (m' = l) as -> by congruence. apply blocked_above in Hbl. lia.
  - by apply (b_pending _ _ Hb Hs) in E.
Qed.

(** A task that does not run, and is so not in the middle of blocking *)
Lemma thread_ok_other o s A s' A' Q Q' t th : thread_ok s A Q t th → pxCurrentTCB s ≠ Some t → sinv o s' A' →
  (pxCurrentTCB s' = pxCurrentTCB s ∨ chosen s' A' ∧ uxSchedulerSuspended s' = 0) → xIdleTaskHandle s' = xIdleTaskHandle s →
  (waiting s' t → waiting s t) → (∃ q, Q' !! xQueue th = Some q ∧ request_fits (what th) q) → thread_ok s' A' Q' t th.
Proof.
  intros [Tq Tk Tw Tn Ti Tin To Tc] Hne Hi Hl Hid Hw (q' & Hq' & Hf).
  assert (in_window (here th) = false) as Hout by (destruct (in_window (here th)); [by destruct Tin|done]).
  assert (¬ waiting s' t) as Hn by auto. split; try done.
  - exists q'. split_and!; [done|done|]. intros _ d Hd. destruct (here th); cbn in *; done.
  - intros Hk. rewrite Hid. auto.
  - by rewrite Hout.
  - intros Ht. destruct Hl as [|[_ ?]]; [congruence|done].
  - intros Ht _. destruct Hl as [|[Hch Hs']]; [congruence|]. by eapply chosen_calm.
Qed.

(** The running task, across an interrupt *)
Lemma thread_ok_interrupted s A s' A' Q t th : thread_ok s A Q t th → steady s A s' A' → soothing nobody s A s' A' →
  pxCurrentTCB s = Some t → xIdleTaskHandle s' = xIdleTaskHandle s → (waiting s' t → waiting s t) → thread_ok s' A' Q t th.
Proof.
  intros [Tq Tk Tw Tn Ti Tin To Tc] [Hs1 Hs2] Hso Hcur Hid Hw. split; try done; try (by rewrite ?Hid).
  - auto.
  - intros Hwin. destruct (Tin Hwin) as [? Hs]. rewrite Hs1, Hs2; [done|lia].
  - intros _ Hout Hk. rewrite Hs1. auto.
  - intros _ He. apply Hso; [intros []|auto].
Qed.

Lemma matched_shrink A A' P h d q : wf A → wf A' → shrink A A' → matched A P h d q → matched A' P h d q.
Proof.
  intros Hw Hw' Hs Hm Hp. assert (items A (wait_list d h) ≠ [] ∨ placing P h d) as Hp0.
  { destruct Hp as [Hp|Hp]; [left; by eapply items_shrink|by right]. }
  specialize (Hm Hp0). pose proof (subseteq_size _ _ (awake_shrink A A' P h d Hs)). lia.
Qed.

Lemma gentle_interrupt c : interrupt c = true → keeps (gentle None) (run_call c).
Proof. destruct c; try done; intros _; cbn [run_call]; first [apply keeps_fmap; [apply _|]|idtac]; solve_keeps. Qed.

(** The part of the invariant that is about queues, when only the kernel changes *)
Lemma qinv_kernel σ s' A' o' : qinv σ → sinv o' s' A' → xSchedulerRunning s' = true → shrink (lists σ) A' →
  (∀ t th, threads σ !! t = Some th → thread_ok s' A' (queues σ) t th) →
  qinv (State s' A' (queues σ) (threads σ) (history σ) o').
Proof.
  intros [Vs Vr Vq Vt Vm Vl Vw Vh] Hi Hr Hs Ht. split; cbn; try done.
  - intros h q Hq. destruct (Vq h q Hq) as [? Hd]. split; [done|]. intros d. apply Hs; [done|apply Hd].
  - intros h q d t Hq Hc. apply (Vm h q d t Hq), Hs; done.
  - intros Hfa h q d Hq. destruct (Vw Hfa h q d Hq) as [? Hm]. split; [done|].
    exact (matched_shrink _ _ _ _ _ _ (sinv_wf _ _ _ Vs) (sinv_wf _ _ _ Hi) Hs Hm).
Qed.

(** A task that is deleted leaves its event list. *)
Lemma deleted_unlisted h t s A x s' A' m : sane s → handle s h = Some t → vTaskDelete h s A = Some (x, s', A') → (10 ≤ m)%nat →
  cont A' !! xEventListItem t ≠ Some m.
Proof.
  intros Hs Hh E Hm Hx. unfold vTaskDelete in E. revert E. unfold mbind at 1, kcall_bind at 1.
  assert (prvGetTCBFromHandle h s A = Some (t, s, A)) as ->.
  { unfold prvGetTCBFromHandle, current, gets, mbind, kcall_bind, mret, kcall_ret. destruct h; cbn in Hh; [by simplify_eq|]. by rewrite Hh. }
  unfold mbind at 1, kcall_bind at 1. destruct (uxListRemove (xStateListItem t) s A) as [[[y s1] A1]|] eqn:E1; [|done].
  destruct (remove_call_inv _ _ _ _ _ _ E1) as (-> & _ & _). unfold mbind at 1, kcall_bind at 1.
  destruct (leave_event_list t s A1) as [[[y2 s2] A2]|] eqn:E2; [|done]. destruct (leave_inv _ _ _ _ _ _ E2) as [-> Hc].
  intros E. assert (cont A2 !! xEventListItem t = None) as Hn by (rewrite Hc; apply lookup_delete_eq).
  match type of E with ?f s A2 = _ => assert (keeps (gentle None) f) as Hg by (pose proof (gentle_delete_tcb None t); solve_keeps) end.
  destruct (Hg _ _ _ _ _ Hs E) as (_ & [Hsh _] & _). apply Hsh in Hx; [|done]. congruence.
Qed.

(** The tasks inside queue calls, after a call of the kernel that is made outside of them *)
Lemma forget_ok σ c s' A' o : qinv σ → outside σ ∨ forget c (kernel σ) (threads σ) = threads σ → (fair = true → forget c (kernel σ) (threads σ) = threads σ) →
  (∀ h t m, c = CDelete h → handle (kernel σ) h = Some t → (10 ≤ m)%nat → cont A' !! xEventListItem t ≠ Some m) →
  qinv (State s' A' (queues σ) (threads σ) (history σ) o) → qinv (State s' A' (queues σ) (forget c (kernel σ) (threads σ)) (history σ) o).
Proof.
  intros Hv Hout Hfa Hun Hv'. destruct Hout as [Hout|Hid]; [|by rewrite Hid].
  assert (forget c (kernel σ) (threads σ) = threads σ ∨ ∃ h t, c = CDelete h ∧ handle (kernel σ) h = Some t ∧
    forget c (kernel σ) (threads σ) = delete t (threads σ)) as [->|(h & t & Hc & Hh & Hf)]; [|done|].
  { destruct c; cbn [forget]; try by left. destruct (handle _ _) eqn:E; [|by left]. right. eauto. }
  pose proof Hv' as [Vs Vr Vq Vt Vm Vl Vw Vh]. cbn in *. split; cbn; try done.
  - intros u th. rewrite Hf. intros [_ Hu]%lookup_delete_Some. by apply Vt.
  - intros h' q d u Hq Hc'. rewrite Hf. destruct (Vm h' q d u Hq Hc') as (th & ? & ?). exists th. split; [|done].
    rewrite lookup_delete_ne; [done|]. intros ->. by destruct (Hun h u (wait_list d h') Hc Hh (wait_list_event d h')).
  - intros h' q d Hq Hl. destruct (v_lock _ Hv h' q d Hq Hl) as (u & th & Hu & _ & Hd).
    assert (in_window (here th) = true) as Hw by by destruct (here th).
    destruct (to_window _ _ _ _ _ (v_thread _ Hv _ _ Hu) Hw) as [Hcur _]. unfold outside in Hout. rewrite Hcur in Hout. cbn in Hout. congruence.
  - intros Ht. rewrite (Hfa Ht). by apply Vw.
Qed.

Lemma step_kernel c σ : qinv σ → permitted fair (Kernel c) σ → ∃ σ', step (Kernel c) σ = Some σ' ∧ qinv σ'.
Proof.
  intros Hv (Hp & Hl & Hio & Hde). pose proof Hv as [Vs Vr Vq Vt _ _ _ _]. pose proof (sane_sinv _ _ _ Vs Vr) as Hsn.
  destruct (sched_call_ok c _ _ _ Vs Hl) as (a & s' & A' & E & Hi'). cbn [step]. unfold call_kernel. rewrite E. eexists. split; [done|].
  destruct (gentle_call c _ _ _ _ _ Hp Hsn E) as (Hsn' & Hsh & Hid & Hw). pose proof (lands_call c Hp _ _ _ _ _ Hsn E) as Hla.
  apply forget_ok; [done| | | |].
  { destruct Hio as [Hint|?]; [right|by left]. by destruct c. }
  { intros Ht. specialize (Hde Ht). destruct c; cbn [forget]; try done. apply on_task_inv in Hde as (t & -> & Hn). by apply delete_id. }
  { intros h t m -> Hh Hm. cbn [run_call] in E. apply then_ret_inv in E as [x E]. exact (deleted_unlisted _ _ _ _ _ _ _ m Hsn Hh E Hm). }
  apply qinv_kernel; [done|done|apply Hsn'|done|]. intros t th Ht. pose proof (Vt t th Ht) as Hok.
  destruct (decide (pxCurrentTCB (kernel σ) = Some t)) as [Hc|Hc].
  - destruct Hio as [Hint|Hout]; [|unfold outside in Hout; rewrite Hc in Hout; cbn in Hout; congruence].
    destruct (gentle_interrupt c Hint _ _ _ _ _ Hsn E) as (_ & _ & _ & Hw0).
    eapply thread_ok_interrupted; [done|by eapply (steady_call c Hint)|by eapply (soothing_call c Hint)|done|done|auto].
  - eapply thread_ok_other; [done|done|done|done|done|auto|]. destruct (to_queue _ _ _ _ _ Hok) as (q & ? & ? & _). eauto.
Qed.

(** ** One queue and one task change *)

Definition update (t : nat) (x : option thread) (P : gmap nat thread) : gmap nat thread :=
  match x with Some th => <[t := th]> P | None => delete t P end.

Lemma update_ne t x P u : u ≠ t → update t x P !! u = P !! u.
Proof. intros Hne. destruct x; cbn; [by rewrite lookup_insert_ne|by rewrite lookup_delete_ne]. Qed.
Lemma update_eq t x P : update t x P !! t = x.
Proof. destruct x; cbn; [apply lookup_insert_eq|apply lookup_delete_eq]. Qed.
Lemma update_id t th P : P !! t = Some th → update t (Some th) P = P.
Proof. apply insert_id. Qed.

Lemma awake_update A P t x h d : awake A P h d ∖ {[t]} ⊆ awake A (update t x P) h d.
Proof.
  intros u [Hu Hne]%elem_of_difference. rewrite elem_of_singleton in Hne. apply elem_of_awake in Hu as (th & Hth & ?).
  apply elem_of_awake. exists th. by rewrite update_ne.
Qed.
(** A task that goes on as it was *)
Lemma awake_update_keep A P t th x h d : P !! t = Some th →
  (on h d th = true → retrying (here th) = true → ∃ th', x = Some th' ∧ on h d th' = true ∧ retrying (here th') = true) →
  awake A P h d ⊆ awake A (update t x P) h d.
Proof.
  intros Ht Hk u Hu. destruct (decide (u = t)) as [-> |Hne]; [|by apply awake_update, elem_of_difference; rewrite elem_of_singleton].
  apply elem_of_awake in Hu as (th0 & Hth & H1 & H2 & H3). assert (th0 = th) as -> by congruence.
  destruct (Hk H1 H2) as (th' & -> & ? & ?). apply elem_of_awake. exists th'. by rewrite update_eq.
Qed.
Lemma size_minus_one (X : gset nat) t : (size X ≤ S (size (X ∖ {[t]})))%nat.
Proof.
  transitivity (size ({[t]} ∪ X ∖ {[t]})).
  - apply subseteq_size. intros u Hu. destruct (decide (u = t)); set_solver.
  - pose proof (size_union_alt {[t]} (X ∖ {[t]})) as E. rewrite E, size_singleton.
    assert (X ∖ {[t]} ∖ {[t]} ⊆ X ∖ {[t]}) as Hsub by set_solver. apply subseteq_size in Hsub. lia.
Qed.

Lemma placing_update P t x h d : placing (update t x P) h d → placing P h d ∨ ∃ th, x = Some th ∧ on h d th = true ∧ is_place (here th) = true.
Proof.
  intros (u & th & Hu & H1 & H2). destruct (decide (u = t)) as [-> |Hne]; [rewrite update_eq in Hu; right; by exists th|].
  rewrite update_ne in Hu by done. left. by exists u, th.
Qed.

Lemma holds_in_window d st : holds_lock d st = true → in_window st = true.
Proof. by destruct st. Qed.
Lemma place_in_window st : is_place st = true → in_window st = true.
Proof. by destruct st. Qed.
Lemma on_iff h d th : on h d th = true ↔ xQueue th = h ∧ dir_of (what th) = d.
Proof. unfold on. rewrite andb_true_iff, !bool_decide_eq_true. done. Qed.

Lemma request_fits_same r q q' : uxLength q' = uxLength q → uxItemSize q' = uxItemSize q → request_fits r q → request_fits r q'.
Proof. intros H1 H2. unfold request_fits, item_fits. by rewrite H1, H2. Qed.

Section running.
Context (σ : spec) (t : nat) (Hv : qinv σ) (Hcur : pxCurrentTCB (kernel σ) = Some t).

(** Only the running task is in the middle of blocking. *)
Lemma window_running u th : threads σ !! u = Some th → in_window (here th) = true → u = t.
Proof using Hv Hcur. intros Hu Hw. destruct (to_window _ _ _ _ _ (v_thread _ Hv _ _ Hu) Hw). congruence. Qed.
Lemma placing_running h d : placing (threads σ) h d → ∃ th, threads σ !! t = Some th ∧ on h d th = true ∧ is_place (here th) = true.
Proof using Hv Hcur.
  intros (u & th & Hu & H1 & H2). assert (u = t) as -> by (eapply window_running; [done|by apply place_in_window]). by exists th.
Qed.
Lemma locked_running h q d : queues σ !! h = Some q → lock d q ≠ -1 → ∃ th, threads σ !! t = Some th ∧ xQueue th = h ∧ holds_lock d (here th) = true.
Proof using Hv Hcur.
  intros Hq Hl. destruct (v_lock _ Hv _ _ _ Hq Hl) as (u & th & Hu & H1 & H2).
  assert (u = t) as -> by (eapply window_running; [done|by eapply holds_in_window]). by exists th.
Qed.

End running.

(** Event lists only lose members, apart from the running task *)
Definition shrink_but (t : nat) (A A' : astate) : Prop :=
  (∀ n l, (10 ≤ l)%nat → n ≠ xEventListItem t → cont A' !! n = Some l → cont A !! n = Some l) ∧
  (∀ l, (10 ≤ l)%nat → is_Some (seqs A !! l) → is_Some (seqs A' !! l)).
Lemma shrink_shrink_but t A A' : shrink A A' → shrink_but t A A'.
Proof. intros [H1 H2]. split; eauto. Qed.

Definition mine (h : nat) (e : entry) : Prop :=
  match e with Made h' _ | Put h' _ _ | Took h' _ | Peeked h' _ | Full h' | Empty h' => h' = h end.
Lemma replay_app h es fs : replay h (es ++ fs) = fold_left (play h) fs (replay h es).
Proof. apply fold_left_app. Qed.
Lemma replay_others h h' fs x : h ≠ h' → Forall (mine h) fs → fold_left (play h') fs x = x.
Proof.
  intros Hne. induction 1 as [|e fs He _ IH]; [done|]. cbn [fold_left]. assert (play h' x e = x) as ->; [|done].
  destruct e; cbn in *; subst; try done; by rewrite decide_False.
Qed.

(** Resuming the scheduler: when the call has yielded, the task that runs is ready. *)
Lemma wp_resume_top o s A : sinv o s A → xSchedulerRunning s = true → uxSchedulerSuspended s = 1 →
  wp xTaskResumeAll (λ r s' A', sinv o s' A' ∧ uxSchedulerSuspended s' = 0 ∧ (r = true → runs_top s' A')) s A.
Proof.
  intros Hi Hr Hs. eapply wp_resume_all; [apply Hi|done|lia|lia|]. intros H1 s1 A1 Hres. pose proof Hres as (_ & _ & Ht & _ & Hr1 & Hs1 & _). cbn in *. split.
  - intros _ s' A' Hi' Htop _ (t & p & ->). split_and!; [by apply sinv_weaken|cbn; lia|done].
  - intros Hy. split_and!; [by eapply resumed_sinv|lia|done].
Qed.

Lemma runs_top_calm o s A t : sinv o s A → runs_top s A → uxSchedulerSuspended s = 0 → pxCurrentTCB s = Some t → ¬ waiting s t → calm s A t.
Proof.
  intros Hi (t0 & Ht0 & c & Hc & Hst & _) Hs Ht Hw. assert (t0 = t) as -> by congruence. pose proof (i_base _ _ _ Hi) as Hb.
  pose proof (k_prio _ _ _ _ (b_k _ _ Hb) _ _ Hc). split_and!; [|by exists (uxPriority c)|done].
  destruct (cont A !! xEventListItem t) as [m|] eqn:E; [|done]. destruct (b_event _ _ Hb _ _ E) as (m' & Hm' & [Hbl|[-> _]]).
  - assert (m' = uxPriority c) as -> by congruence. apply blocked_above in Hbl. lia.
  - by apply (b_pending _ _ Hb Hs) in E.
Qed.

(** vTaskPlaceOnEventList puts the running task into the list. *)
Lemma place_inv l k s A x s' A' t : sane s → pxCurrentTCB s = Some t → vTaskPlaceOnEventList l k s A = Some (x, s', A') →
  sane s' ∧ (∀ n m, (10 ≤ m)%nat → cont A' !! n = Some m → n = xEventListItem t ∧ m = l ∨ cont A !! n = Some m) ∧
  (∀ m, (10 ≤ m)%nat → is_Some (seqs A !! m) → is_Some (seqs A' !! m)) ∧ xIdleTaskHandle s' = xIdleTaskHandle s ∧
  (∀ u, waiting s' u → waiting s u) ∧ pxCurrentTCB s' = Some t ∧ uxSchedulerSuspended s' = uxSchedulerSuspended s.
Proof.
  intros Hs Hc. unfold vTaskPlaceOnEventList, current, gets, mbind, kcall_bind, mret, kcall_ret. rewrite Hc.
  destruct (vListInsert l (xEventListItem t) s A) as [[[y s1] A1]|] eqn:E1; [|done]. intros E2.
  assert (s1 = s ∧ cont A1 = <[xEventListItem t := l]> (cont A) ∧ ∀ m, is_Some (seqs A !! m) → is_Some (seqs A1 !! m)) as (-> & Hc1 & Hl1).
  { revert E1. unfold vListInsert, mbind, kcall_bind. destruct (list_call _ s A) as [[[r s2] A2]|] eqn:E; [|done].
    apply list_call_inv in E as [-> E]. destruct (insert_inv A _ l _ _ _ (or_introl eq_refl) E) as (_ & H2 & H3). by intros [= <- <- <-]. }
  destruct (gentle_add_delayed None k true _ _ _ _ _ Hs E2) as (Hs' & [Hsh Hl2] & Hid & Hw).
  split_and!; [done| |auto|done|by intros u; apply Hw|..].
  - intros n m Hm Hn. apply Hsh in Hn; [|done]. rewrite Hc1 in Hn. apply lookup_insert_Some in Hn as [[<- <-]|[_ ?]]; [by left|by right].
  - rewrite (invar_add_delayed pxCurrentTCB k true _ _ _ _ _ E2). done.
  - apply (invar_add_delayed uxSchedulerSuspended k true _ _ _ _ _ E2).
Qed.

Lemma freed_none l A A' : freed l 0 A A'.
Proof. intros _. exists ∅. split; [apply size_empty|set_solver]. Qed.

Lemma matched_zero A' P h d q' : avail d q' ≤ 0 → matched A' P h d q'.
Proof. intros Ha _. lia. Qed.

Lemma contents_nil (q0 : Queue_t) : uxMessagesWaiting q0 = 0 → contents q0 = [].
Proof. intros E. unfold contents. rewrite E. by destruct (_ =? 0). Qed.

(** The running task takes a step inside its call. *)
Section step.
Context (σ : spec) (t : nat) (th : thread) (q : Queue_t).
Context (Hv : qinv σ) (Hcur : pxCurrentTCB (kernel σ) = Some t) (Hth : threads σ !! t = Some th) (Hq : queues σ !! xQueue th = Some q).

Lemma stepped s' A' x q' es : sinv (owed σ) s' A' → sane s' → shrink_but t (lists σ) A' →
  (pxCurrentTCB s' = pxCurrentTCB (kernel σ) ∨ chosen s' A' ∧ uxSchedulerSuspended s' = 0) → xIdleTaskHandle s' = xIdleTaskHandle (kernel σ) →
  (∀ u, waiting s' u → waiting (kernel σ) u) → queue_ok q' → uxLength q' = uxLength q → uxItemSize q' = uxItemSize q →
  (∀ th', x = Some th' → xQueue th' = xQueue th ∧ thread_ok s' A' (<[xQueue th := q']> (queues σ)) t th') →
  (∀ d h, is_Some (queues σ !! h) → cont A' !! xEventListItem t = Some (wait_list d h) → ∃ th', x = Some th' ∧ on h d th' = true ∧ parked_at (here th') = true) →
  (∀ d, lock d q' ≠ -1 → ∃ th', x = Some th' ∧ holds_lock d (here th') = true) →
  (fair = true → ∀ d, -1 ≤ lock d q' ∧ matched A' (update t x (threads σ)) (xQueue th) d q') →
  Forall (mine (xQueue th)) es → fold_left (play (xQueue th)) es (Some (contents q)) = Some (contents q') →
  qinv (State s' A' (<[xQueue th := q']> (queues σ)) (update t x (threads σ)) (history σ ++ es) (owed σ)).
Proof using Hv Hcur Hth Hq.
  intros Hi Hsn [Hs Hsl] Hla Hid Hw Hqo Hlen Hsz Hnew Hpark Hlock Hmat Hes Hrep. pose proof Hv as [Vs Vr Vq Vt Vm Vl Vw Vh].
  remember (xQueue th) as h eqn:Eh.
  assert (∀ h' d, h' ≠ h → is_Some (queues σ !! h') → cont A' !! xEventListItem t ≠ Some (wait_list d h')) as Hoff.
  { intros h' d Hne Hex Hc. destruct (Hpark d h' Hex Hc) as (th' & -> & Hon & _). destruct (Hnew th' eq_refl) as [E _].
    apply on_iff in Hon as [? _]. congruence. }
  split; cbn [kernel lists queues threads history owed].
  - done.
  - apply Hsn.
  - intros h' q'' [[<- <-]|[_ Hq'']]%lookup_insert_Some.
    + split; [done|]. intros d. apply Hsl; [done|]. by apply (Vq h q Hq).
    + destruct (Vq h' q'' Hq'') as [? Hd]. split; [done|]. intros d. apply Hsl; [done|apply Hd].
  - intros u thu Hu. destruct (decide (u = t)) as [-> |Hne]; [rewrite update_eq in Hu; by apply Hnew|]. rewrite update_ne in Hu by done.
    eapply thread_ok_other; [by apply Vt|congruence|done|done|done|apply Hw|]. destruct (to_queue _ _ _ _ _ (Vt _ _ Hu)) as (qu & Hqu & Hf & _).
    destruct (decide (xQueue thu = h)) as [E|E]; [|exists qu; by rewrite lookup_insert_ne].
    exists q'. rewrite E, lookup_insert_eq. split; [done|]. assert (qu = q) as -> by congruence. by eapply request_fits_same.
  - intros h' q'' d u Hq'' Hc. assert (∃ q0, queues σ !! h' = Some q0) as [q0 Hq0].
    { apply lookup_insert_Some in Hq'' as [[<- _]|[_ ?]]; eauto. }
    destruct (decide (u = t)) as [-> |Hne].
    + destruct (Hpark d h' (ex_intro _ _ Hq0) Hc) as (th' & -> & ? & ?). exists th'. by rewrite update_eq.
    + rewrite update_ne by done. apply (Vm h' q0 d u Hq0), Hs; [done|by intros ?%event_inj|done].
  - intros h' q'' d [[<- <-]|[Hne Hq'']]%lookup_insert_Some Hl.
    + destruct (Hlock d Hl) as (th' & -> & ?). exists t, th'. rewrite update_eq. split_and!; [done|by apply Hnew|done].
    + destruct (locked_running σ t Hv Hcur h' q'' d Hq'' Hl) as (th0 & Hth0 & E & _). congruence.
  - intros Hfa h' q'' d [[<- <-]|[Hne Hq'']]%lookup_insert_Some; [by apply Hmat|]. destruct (Vw Hfa h' q'' d Hq'') as [Hlow Hmt]. split; [done|]. intros Hp.
    assert (items (lists σ) (wait_list d h') ≠ [] ∨ placing (threads σ) h' d) as Hp0.
    { destruct Hp as [Hp|Hp].
      - left. intros E. apply Hp. apply items_nil; [by eapply sinv_wf|]. intros n Hn.
        destruct (event_list_item _ _ _ _ _ (b_k _ _ (i_base _ _ _ Hi)) Hn (wait_list_event d h')) as [En _].
        destruct (decide (n = xEventListItem t)) as [-> |Hnt]; [by apply (Hoff h' d); eauto|]. apply Hs in Hn; [|done|done].
        apply (items_cont _ _ _ (sinv_wf _ _ _ Vs)) in Hn. rewrite E in Hn. by apply elem_of_nil in Hn.
      - apply placing_update in Hp as [?|(th' & -> & Hon & _)]; [by right|]. destruct (Hnew th' eq_refl) as [E _]. apply on_iff in Hon as [? _]. congruence. }
    specialize (Hmt Hp0).
    assert (awake (lists σ) (threads σ) h' d ⊆ awake A' (update t x (threads σ)) h' d) as Hsub.
    { intros u (thu & Hu & H1 & H2 & H3)%elem_of_awake. assert (u ≠ t) as Hut by (intros ->; apply on_iff in H1 as [? _]; congruence).
      apply elem_of_awake. exists thu. rewrite update_ne by done. split_and!; try done. intros Hc. apply H3, Hs; [done|by intros ?%event_inj|done]. }
    apply subseteq_size in Hsub. lia.
  - intros h' q'' [[<- <-]|[Hne Hq'']]%lookup_insert_Some; rewrite replay_app.
    + by rewrite (Vh h q Hq).
    + rewrite (replay_others h) by done. by apply Vh.
Qed.

(** The state after the step *)
Definition after (r : Queue_t * option thread * list entry) (s' : sched) (A' : astate) : spec :=
  State s' A' (<[xQueue th := r.1.1]> (queues σ)) (update t r.1.2 (threads σ)) (history σ ++ r.2) (owed σ).

Lemma go_run : wp (advance q th) (λ r s' A', qinv (after r s' A')) (kernel σ) (lists σ) → ∃ σ', step Go σ = Some σ' ∧ qinv σ'.
Proof using Hcur Hth Hq.
  intros ([[q' x] es] & s' & A' & E & HQ). eexists. split; [|exact HQ]. cbn [step]. rewrite Hcur. cbn [mbind option_bind]. rewrite Hth.
  cbn [mbind option_bind]. rewrite Hq. cbn [mbind option_bind]. unfold call_kernel. rewrite E. done.
Qed.

(** What is waited for stays matched. *)
Lemma matched_step A' x d q' n (stays : bool) : fair = true → wf A' → shrink (lists σ) A' → freed (wait_list d (xQueue th)) n (lists σ) A' →
  (stays = true → on (xQueue th) d th = true → retrying (here th) = true → ∃ th', x = Some th' ∧ on (xQueue th) d th' = true ∧ retrying (here th') = true) →
  is_place (here th) = false → (∀ th', x = Some th' → on (xQueue th) d th' = true → is_place (here th') = false) →
  avail d q' + Z.max 0 (lock d q) + (if stays then 0 else 1) ≤ avail d q + Z.of_nat n + Z.max 0 (lock d q') →
  matched A' (update t x (threads σ)) (xQueue th) d q'.
Proof using Hv Hcur Hth Hq.
  intros Hfa Hw Hs Hf Hst Hnp Hnp' Hle Hp. pose proof Hv as [Vs _ _ _ Vm _ Vw _]. assert (items A' (wait_list d (xQueue th)) ≠ []) as Hne.
  { destruct Hp as [|Hp]; [done|]. apply placing_update in Hp as [Hp|(th' & Hx & Hon & Hpl)]; [|by rewrite (Hnp' th' Hx Hon) in Hpl].
    destruct (placing_running σ t Hv Hcur _ _ Hp) as (th0 & Hth0 & _ & Hpl). assert (th0 = th) as -> by congruence. congruence. }
  pose proof (items_shrink _ _ _ (sinv_wf _ _ _ Vs) Hw Hs (wait_list_event d (xQueue th)) Hne) as Hne0.
  destruct (Vw Hfa _ _ d Hq) as [_ Hmt]. specialize (Hmt (or_introl Hne0)).
  pose proof (awake_freed _ _ (threads σ) _ _ _ Hs Hf Hne (λ u Hu, Vm _ _ _ u Hq Hu)) as Hfr.
  destruct stays.
  - pose proof (subseteq_size _ _ (awake_update_keep A' (threads σ) t th x (xQueue th) d Hth (Hst eq_refl))). lia.
  - pose proof (subseteq_size _ _ (awake_update A' (threads σ) t x (xQueue th) d)). pose proof (size_minus_one (awake A' (threads σ) (xQueue th) d) t). lia.
Qed.

(** The running task goes on inside its call. *)
Lemma caller_moves s' A' q' th' : framed (kernel σ) (lists σ) s' A' → uxLength q' = uxLength q → uxItemSize q' = uxItemSize q →
  xQueue th' = xQueue th → what th' = what th → 0 ≤ xTicksToWait th' ≤ portMAX_DELAY → 0 < xTicksToWait th → (here th' ≠ Try None → 0 < xTicksToWait th') →
  (fair = true → ∀ d, holds_lock d (here th') = true → 0 ≤ lock d q') →
  (in_window (here th') = true → pxCurrentTCB s' = Some t ∧ uxSchedulerSuspended s' = 1) →
  (pxCurrentTCB s' = Some t → in_window (here th') = false → uxSchedulerSuspended s' = 0) →
  (pxCurrentTCB s' = Some t → early (here th') = true → calm s' A' t) →
  thread_ok s' A' (<[xQueue th := q']> (queues σ)) t th'.
Proof using Hv Hth Hq.
  intros [Hsn (_ & Hid & Hw) _ _] Hlen Hsz Hxq Hwh Hk0 Hk Hk' Hlk Hwin Hop Hca. destruct (v_thread _ Hv _ _ Hth) as [(q0 & Hq0 & Hf & _) ? ? ? ? ? ? ?].
  assert (q0 = q) as -> by congruence. split; try done.
  - exists q'. rewrite Hxq, Hwh, lookup_insert_eq. split_and!; [done|by eapply request_fits_same|done].
  - intros Hx. by apply to_notify0, Hw.
  - intros _. rewrite Hid. apply to_idle0. lia.
  - auto.
Qed.

(** It is still ready if it was. *)
Lemma still_calm s' A' : framed (kernel σ) (lists σ) s' A' → sinv (owed σ) s' A' → early (here th) = true → pxCurrentTCB s' = Some t → calm s' A' t.
Proof using Hv Hcur Hth.
  intros [Hsn (_ & _ & Hw) Hla Hso] Hi He Hc. pose proof (v_thread _ Hv _ _ Hth) as Hok. destruct Hla as [_|[Hch Hs0]].
  - apply Hso; [intros []|]. by apply (to_calm _ _ _ _ _ Hok).
  - eapply chosen_calm; [done|done|done|done|]. intros Hwt. apply (to_notify _ _ _ _ _ Hok), Hw; done.
Qed.

Lemma unlisted_early d h : early (here th) = true → cont (lists σ) !! xEventListItem t ≠ Some (wait_list d h).
Proof using Hv Hcur Hth. intros He Hc. destruct (to_calm _ _ _ _ _ (v_thread _ Hv _ _ Hth) Hcur He) as [Hn _]. congruence. Qed.

Lemma locked_here d : lock d q ≠ -1 → holds_lock d (here th) = true.
Proof using Hv Hcur Hth Hq. intros Hl. destruct (locked_running σ t Hv Hcur _ _ _ Hq Hl) as (th0 & Hth0 & _ & ?). assert (th0 = th) as -> by congruence. done. Qed.

(** The step of a task that is not put into a list *)
Lemma stepped_framed s' A' x q' es : sinv (owed σ) s' A' → framed (kernel σ) (lists σ) s' A' → queue_ok q' → uxLength q' = uxLength q → uxItemSize q' = uxItemSize q →
  (∀ th', x = Some th' → xQueue th' = xQueue th ∧ what th' = what th ∧ thread_ok s' A' (<[xQueue th := q']> (queues σ)) t th') →
  (early (here th) = true ∨ ∃ th', x = Some th' ∧ parked_at (here th') = true) →
  (∀ d, lock d q' ≠ -1 → ∃ th', x = Some th' ∧ holds_lock d (here th') = true) →
  (fair = true → ∀ d, -1 ≤ lock d q' ∧ matched A' (update t x (threads σ)) (xQueue th) d q') →
  Forall (mine (xQueue th)) es → fold_left (play (xQueue th)) es (Some (contents q)) = Some (contents q') →
  qinv (after (q', x, es) s' A').
Proof using Hv Hcur Hth Hq.
  intros Hi [Hsn (Hs & Hid & Hw) Hla _] Hqo Hlen Hsz Hnew Hpark Hlock Hmat Hes Hrep. unfold after. cbn [fst snd].
  eapply stepped; try done; [by apply shrink_shrink_but|intros u; by apply Hw|intros th' Hx; by destruct (Hnew th' Hx) as (? & _ & ?)|].
  intros d h [q0 Hq0] Hc. apply Hs in Hc; [|done]. destruct Hpark as [He|(th' & Hx & Hp)]; [by destruct (unlisted_early d h He)|].
  exists th'. split_and!; [done| |done]. destruct (v_member _ Hv h q0 d t Hq0 Hc) as (th0 & Hth0 & Hon & _). assert (th0 = th) as -> by congruence.
  destruct (Hnew th' Hx) as (E1 & E2 & _). apply on_iff in Hon as [? ?]. apply on_iff. by rewrite E1, E2.
Qed.

(** Only the stage changes, and perhaps the kernel. *)
Lemma stepped_stage s' A' th' : sinv (owed σ) s' A' → framed (kernel σ) (lists σ) s' A' →
  xQueue th' = xQueue th → what th' = what th → thread_ok s' A' (<[xQueue th := q]> (queues σ)) t th' →
  (early (here th) = true ∨ parked_at (here th') = true) → (∀ d, holds_lock d (here th) = true → holds_lock d (here th') = true) →
  (retrying (here th) = true → retrying (here th') = true ∨ avail (dir_of (what th)) q ≤ 0) → is_place (here th) = false →
  (is_place (here th') = true → avail (dir_of (what th)) q ≤ 0) → qinv (after (q, Some th', []) s' A').
Proof using Hv Hcur Hth Hq.
  intros Hi Hfr E1 E2 Hok Hpark Hlk Hret Hnp Hnp'. assert (queue_ok q) as Hqo by apply (v_queue _ Hv _ _ Hq).
  apply stepped_framed; try done.
  - intros th'' [= <-]. done.
  - destruct Hpark; [by left|right; eauto].
  - intros d Hl. exists th'. split; [done|]. by apply Hlk, locked_here.
  - intros Hfa d. split; [by apply (v_wake _ Hv Hfa _ _ d Hq)|].
    destruct (decide (d = dir_of (what th) ∧ avail d q ≤ 0)) as [[_ ?]|Hd]; [by apply matched_zero|].
    apply (matched_step A' _ d q 0 true); [done|by eapply sinv_wf|apply Hfr|apply freed_none| |done| |lia].
    + intros _ Hon Hr. exists th'. apply on_iff in Hon as [_ Hon]. split; [done|]. split; [apply on_iff; by rewrite E1, E2|]. destruct (Hret Hr); [done|].
      destruct Hd. by subst d.
    + intros th'' [= <-] [_ Hon]%on_iff. destruct (is_place (here th')); [|done]. destruct Hd. rewrite <- Hon, E2. auto.
Qed.

Lemma here_sane : sane (kernel σ).
Proof using Hv. by eapply sane_sinv; apply Hv. Qed.
Lemma here_ok : thread_ok (kernel σ) (lists σ) (queues σ) t th.
Proof using Hv Hth. by apply (v_thread _ Hv). Qed.
Lemma here_locks d : fair = true → holds_lock d (here th) = true → 0 ≤ lock d q.
Proof using Hv Hth Hq.
  intros Hfa Hd. destruct (to_queue _ _ _ _ _ here_ok) as (q0 & Hq0 & _ & Hl). assert (q0 = q) as -> by congruence. by apply Hl.
Qed.

(** A call of the kernel, and then the next stage *)
Lemma go_call {X} (f : kcall astate X) (k : X → Queue_t * option thread * list entry) Q : calls_ok f →
  (∀ s A, advance q th s A = (x ← f; mret (k x)) s A) → wp f (λ x s' A', sinv (owed σ) s' A' ∧ Q x s' A') (kernel σ) (lists σ) →
  (∀ x s' A', sinv (owed σ) s' A' → Q x s' A' → framed (kernel σ) (lists σ) s' A' → qinv (after (k x) s' A')) → ∃ σ', step Go σ = Some σ' ∧ qinv σ'.
Proof using Hv Hcur Hth Hq.
  intros Hf Ha Hwp Hk. apply go_run. unfold wp at 1. rewrite Ha. apply wp_bind. eapply wp_mono; [apply (wp_framed f _ _ _ Hf here_sane Hwp)|].
  intros x s' A' [[Hi HQ] Hfr]. apply wp_ret. by apply Hk.
Qed.

(** No call of the kernel *)
Lemma go_pure r : advance q th = mret r → qinv (after r (kernel σ) (lists σ)) → ∃ σ', step Go σ = Some σ' ∧ qinv σ'.
Proof using Hcur Hth Hq. intros Ha Hr. apply go_run. rewrite Ha. by apply wp_ret. Qed.

Lemma go_suspend o : here th = Suspend o → ∃ σ', step Go σ = Some σ' ∧ qinv σ'.
Proof using Hv Hcur Hth Hq.
  intros Hh. pose proof here_ok as Hok. assert (0 < xTicksToWait th) as Hk by (apply (to_wait _ _ _ _ _ Hok); by rewrite Hh).
  assert (uxSchedulerSuspended (kernel σ) = 0) as H0 by (apply (to_open _ _ _ _ _ Hok); [done|by rewrite Hh|lia]).
  eapply (go_call vTaskSuspendAll _ (λ _ s' A', s' = with_suspended 1 (kernel σ) ∧ A' = lists σ) calls_ok_suspend_all).
  { unfold advance. rewrite Hh. done. }
  { apply wp_suspend_all; [apply (v_sched _ Hv)|lia|]. rewrite H0. split; [|done]. apply sinv_suspended; [apply Hv|lia]. }
  intros [] s' A' Hi [-> ->] Hfr. apply stepped_stage; try done; cbn [move here]; rewrite ?Hh; try done; [|by left].
  apply caller_moves; try done; try apply Hok. intros _ _. apply still_calm; [done|done|by rewrite Hh|done].
Qed.

Lemma go_lock o : here th = Lock o → ∃ σ', step Go σ = Some σ' ∧ qinv σ'.
Proof using Hv Hcur Hth Hq.
  intros Hh. pose proof here_ok as Hok. assert (0 < xTicksToWait th) as Hk by (apply (to_wait _ _ _ _ _ Hok); by rewrite Hh).
  destruct (lock_ok q (proj1 (v_queue _ Hv _ _ Hq))) as (Hq1 & Hq2 & Hq3 & Hq4 & Hq5 & Hq6 & Hq7).
  assert (fair = true → ∀ d, 0 ≤ lock d (prvLockQueue q) ∧ lock d (prvLockQueue q) = Z.max 0 (lock d q)) as Hlow.
  { intros Hfa d. destruct (v_wake _ Hv Hfa _ _ d Hq) as [Hlo _]. destruct d; cbn [lock] in *; rewrite ?Hq6, ?Hq7;
      [destruct (Z.eqb_spec (cRxLock q) (-1))|destruct (Z.eqb_spec (cTxLock q) (-1))]; lia. }
  pose proof (framed_refl _ (lists σ) here_sane) as Hfr. eapply go_pure; [unfold advance; rewrite Hh; done|].
  apply stepped_framed; try done; [apply Hv|..].
  - intros th' [= <-]. split_and!; [done|done|]. apply caller_moves; try done; try apply Hok; cbn [move here].
    + intros Hfa d _. specialize (Hlow Hfa d). lia.
    + intros _. apply (to_window _ _ _ _ _ Hok). by rewrite Hh.
    + intros _ _. apply still_calm; [done|apply Hv|by rewrite Hh|done].
  - left. by rewrite Hh.
  - intros d _. eexists. split; [done|]. done.
  - intros Hfa d. specialize (Hlow Hfa d). split; [lia|].
    apply (matched_step _ _ d _ 0 true); try done; rewrite ?Hh; try done; [by eapply sinv_wf, Hv|apply freed_none|by intros th' [= <-]|].
    destruct d; cbn in *; lia.
  - cbn. by rewrite Hq2.
Qed.

Lemma go_check o : here th = Check o → ∃ σ', step Go σ = Some σ' ∧ qinv σ'.
Proof using Hv Hcur Hth Hq.
  intros Hh. pose proof here_ok as Hok. assert (0 < xTicksToWait th) as Hk by (apply (to_wait _ _ _ _ _ Hok); by rewrite Hh).
  pose proof (to_ticks _ _ _ _ _ Hok) as Hkm.
  assert (calls_ok (xTaskCheckForTimeOut (M := astate) o (xTicksToWait th))) as Hco.
  { split; [solve_keeps|apply lands_invar; unfold xTaskCheckForTimeOut, vTaskSetTimeOutState; invar_unfold|].
    unfold xTaskCheckForTimeOut, vTaskSetTimeOutState; solve_keeps. }
  eapply (go_call _ (λ '(over, o, k), (q, Some (retime th k (if over : bool then UnlockTx TimedOut o else Look o)), []))
    (λ r s' A', s' = kernel σ ∧ A' = lists σ ∧ 0 < r.2 ≤ portMAX_DELAY) Hco).
  { intros s A. unfold advance. rewrite Hh. unfold mbind, kcall_bind. by destruct (xTaskCheckForTimeOut _ _ s A) as [[[[[]] ?] ?]|]. }
  { assert (∀ r k, 0 < k ≤ portMAX_DELAY → wp (mret (r, k)) (λ (r : bool * TimeOut_t * Z) s' A', sinv (owed σ) s' A' ∧ s' = kernel σ ∧ A' = lists σ ∧ 0 < r.2 ≤ portMAX_DELAY) (kernel σ) (lists σ)) as Hret.
    { intros r k Hk'. apply wp_ret. by split; [apply Hv|]. }
    unfold xTaskCheckForTimeOut, vTaskSetTimeOutState. apply wp_bind, wp_gets, wp_bind, wp_gets. cbv zeta.
    destruct (_ =? portMAX_DELAY); [apply Hret; lia|]. destruct (_ && _); [apply Hret; lia|].
    destruct (Z.ltb_spec (u32 (xTickCount (kernel σ) - xTimeOnEntering o)) (xTicksToWait th)) as [Hlt|Hge]; [|apply Hret; lia].
    pose proof (uwrap_bound 32 (xTickCount (kernel σ) - xTimeOnEntering o) ltac:(lia)) as [Hb _].
    apply wp_bind, wp_gets, Hret. unfold portMAX_DELAY in *. rewrite uwrap_id; unfold fits_u; lia. }
  intros [[over o'] k'] s' A' Hi (-> & -> & Hk') Hfr. cbn in Hk'. apply stepped_stage; try done; cbn [retime here]; rewrite ?Hh; try done.
  - apply caller_moves; try done; cbn [retime here RtosQueueRun.xTicksToWait]; try lia.
    + intros Hfa d _. apply here_locks; [done|]. by rewrite Hh.
    + intros _. apply (to_window _ _ _ _ _ Hok). by rewrite Hh.
    + by destruct over.
    + intros Hc _. apply still_calm; [done|done|by rewrite Hh|done].
  - by left.
  - intros d _. by destruct over.
  - by destruct over.
Qed.

Lemma go_look o : here th = Look o → ∃ σ', step Go σ = Some σ' ∧ qinv σ'.
Proof using Hv Hcur Hth Hq.
  intros Hh. pose proof here_ok as Hok. assert (0 < xTicksToWait th) as Hk by (apply (to_wait _ _ _ _ _ Hok); by rewrite Hh).
  pose proof (framed_refl _ (lists σ) here_sane) as Hfr. eapply go_pure; [unfold advance; rewrite Hh; done|]. cbv zeta.
  set (no := match what th with Send _ _ => prvIsQueueFull q | Receive _ => prvIsQueueEmpty q end).
  assert (no = true → avail (dir_of (what th)) q ≤ 0) as Hno.
  { subst no. unfold prvIsQueueFull, prvIsQueueEmpty. destruct (what th); cbn; intros ?; zbool; lia. }
  apply stepped_stage; try done; try apply Hv; cbn [move here]; rewrite ?Hh; try done.
  - apply caller_moves; try done; try apply Hok; cbn [move here].
    + intros Hfa d _. apply here_locks; [done|]. by rewrite Hh.
    + intros _. apply (to_window _ _ _ _ _ Hok). by rewrite Hh.
    + by destruct no.
    + intros Hc _. apply still_calm; [done|apply Hv|by rewrite Hh|done].
  - by left.
  - intros d _. by destruct no.
  - destruct no; [auto|done].
Qed.

Lemma go_place o : here th = Place o → ∃ σ', step Go σ = Some σ' ∧ qinv σ'.
Proof using Hv Hcur Hth Hq.
  intros Hh. pose proof here_ok as Hok. assert (0 < xTicksToWait th) as Hk by (apply (to_wait _ _ _ _ _ Hok); by rewrite Hh).
  pose proof Hv as [Vs Vr Vq _ Vm _ Vw _]. destruct (b_current _ _ (i_base _ _ _ Vs)) as (t0 & cc & Hc0 & Hcc). assert (t0 = t) as -> by congruence.
  set (l := wait_list (dir_of (what th)) (xQueue th)).
  assert (calm (kernel σ) (lists σ) t) as [Hun _] by (apply (to_calm _ _ _ _ _ Hok); [done|by rewrite Hh]).
  assert (wp (vTaskPlaceOnEventList l (xTicksToWait th)) (λ _, sinv (owed σ)) (kernel σ) (lists σ)) as (x & s' & A' & E & Hi).
  { eapply (wp_place (owed σ)); [exact Vs|exact Hcur|exact Hcc| | |apply wait_list_event|by apply (Vq _ _ Hq)|exact Hun|done].
    - split; [done|]. apply (to_idle _ _ _ _ _ Hok). lia.
    - split; [lia|apply Hok]. }
  destruct (place_inv _ _ _ _ _ _ _ _ here_sane Hcur E) as (Hsn & Hsh & Hsl & Hid & Hw & Hc' & Hu').
  apply go_run. exists (q, Some (move th (UnlockTx Blocked o)), []), s', A'. split.
  { unfold advance. rewrite Hh. cbv zeta. unfold mbind, kcall_bind. assert (match what th with Send _ _ => xTasksWaitingToSend (xQueue th) | Receive _ => xTasksWaitingToReceive (xQueue th) end = l) as ->
      by (subst l; by destruct (what th)). by rewrite E. }
  unfold after. cbn [fst snd]. eapply stepped; try done; [split; [|done]|by left; congruence|apply (Vq _ _ Hq)|..].
  - intros n m Hm Hne Hn. destruct (Hsh n m Hm Hn) as [[? _]|?]; done.
  - intros th' [= <-]. split; [done|]. destruct (to_queue _ _ _ _ _ Hok) as (q0 & Hq0 & Hf & Hlk). assert (q0 = q) as -> by congruence.
    assert (uxSchedulerSuspended (kernel σ) = 1) as H1 by (apply (to_window _ _ _ _ _ Hok); by rewrite Hh).
    split; cbn [move here xQueue what RtosQueueRun.xTicksToWait]; try done; try apply Hok.
    + exists q. rewrite lookup_insert_eq. split_and!; [done|done|]. intros Hfa d _. apply Hlk; [done|]. by rewrite Hh.
    + intros Hx. apply (to_notify _ _ _ _ _ Hok), Hw, Hx.
    + rewrite Hid. apply Hok.
    + intros _. split; [done|congruence].
  - intros d h _ Hc. eexists. split; [done|]. split; [|done]. destruct (Hsh _ _ (wait_list_event d h) Hc) as [[_ Hl]|?]; [|congruence].
    apply wait_list_inj in Hl as [-> ->]. by apply on_iff.
  - intros d Hl. eexists. split; [done|]. apply locked_here in Hl. by rewrite Hh in Hl.
  - intros Hfa d. destruct (Vw Hfa _ _ d Hq) as [Hlow Hmt]. split; [done|]. intros Hp.
    assert (items (lists σ) (wait_list d (xQueue th)) ≠ [] ∨ placing (threads σ) (xQueue th) d) as Hp0.
    { destruct (decide (d = dir_of (what th))) as [-> |Hd]; [right; exists t, th; rewrite Hh; split_and!; [done|by apply on_iff|done]|].
      destruct Hp as [Hp|Hp]; [left|right].
      - intros En. apply Hp. apply items_nil; [by eapply sinv_wf|]. intros n Hn.
        destruct (Hsh _ _ (wait_list_event d _) Hn) as [[_ Hl]|Hn0]; [apply wait_list_inj in Hl as [? _]; done|].
        apply (items_cont _ _ _ (sinv_wf _ _ _ Vs)) in Hn0. rewrite En in Hn0. by apply elem_of_nil in Hn0.
      - apply placing_update in Hp as [?|(th' & [= <-] & _ & ?)]; done. }
    specialize (Hmt Hp0). assert (awake (lists σ) (threads σ) (xQueue th) d ⊆ awake A' (update t (Some (move th (UnlockTx Blocked o))) (threads σ)) (xQueue th) d) as Hsub.
    { intros u (thu & Hu & H1 & H2 & H3)%elem_of_awake. assert (u ≠ t) as Hut by (intros ->; assert (thu = th) as -> by congruence; by rewrite Hh in H2).
      apply elem_of_awake. exists thu. rewrite update_ne by done. split_and!; try done. intros Hc. destruct (Hsh _ _ (wait_list_event d _) Hc) as [[?%event_inj _]|?]; done. }
    apply subseteq_size in Hsub. lia.
Qed.

(** Half of prvUnlockQueue; [d] says whose list the lock counted for. *)
Lemma unlock_half d why o st q' : here th = (match d with ToReceive => UnlockTx | ToSend => UnlockRx end) why o →
  st = (match d with ToReceive => UnlockRx | ToSend => Resume end) why o →
  q' = (match d with ToReceive => with_tx | ToSend => with_rx end) queueUNLOCKED q →
  (∀ s A, advance q th s A = (_ ← unlock_loop (Z.to_nat (lock d q)) (wait_list d (xQueue th)); mret (q', Some (move th st), [])) s A) →
  ∃ σ', step Go σ = Some σ' ∧ qinv σ'.
Proof using Hv Hcur Hth Hq.
  intros Hh Hst Hq' Ha. pose proof here_ok as Hok. assert (0 < xTicksToWait th) as Hk by (apply (to_wait _ _ _ _ _ Hok); rewrite Hh; by destruct d).
  pose proof Hv as [Vs Vr Vq _ _ _ _ _]. destruct (Vq _ _ Hq) as [Hqo Hls].
  assert (pxCurrentTCB (kernel σ) = Some t ∧ uxSchedulerSuspended (kernel σ) = 1) as [_ H1] by (apply (to_window _ _ _ _ _ Hok); rewrite Hh; by destruct d).
  destruct (wp_unlock_loop (owed σ) (Z.to_nat (lock d q)) _ _ (wait_list d (xQueue th)) Vs Vr (wait_list_event _ _) (Hls d)) as (x & s' & A' & E & Hi & Hf).
  pose proof (calls_ok_unlock_loop (Z.to_nat (lock d q)) (wait_list d (xQueue th))) as [Hco1 Hco2 Hco3].
  assert (framed (kernel σ) (lists σ) s' A') as Hfr.
  { destruct (Hco1 _ _ _ _ _ here_sane E) as [? ?]. split; [done|done|by eapply Hco2; [apply here_sane|]|by eapply Hco3; [apply here_sane|]]. }
  assert (∀ V (v : sched → V), Core v → v s' = v (kernel σ)) as Hinv.
  { intros V v Hcv. assert (invar v (unlock_loop (Z.to_nat (lock d q)) (wait_list d (xQueue th)))) as Hin; [|by eapply Hin].
    clear - Hcv. induction (Z.to_nat (lock d q)); cbn [unlock_loop]; unfold vTaskMissedYield; invar_unfold. }
  apply go_run. exists (q', Some (move th st), []), s', A'. split; [rewrite Ha; unfold mbind, kcall_bind; by rewrite E|].
  assert (lock d q' = -1 ∧ (∀ d', d' ≠ d → lock d' q' = lock d' q) ∧ (∀ d', avail d' q' = avail d' q) ∧ uxLength q' = uxLength q ∧ uxItemSize q' = uxItemSize q ∧
    contents q' = contents q) as (Hl1 & Hl2 & Hav & Hlen & Hsz & Hcon).
  { subst q'. destruct d; cbn; (split_and!; [done|by intros []|by intros []|done|done|done]). }
  assert (∀ w d', holds_lock d' ((match d with ToReceive => UnlockTx | ToSend => UnlockRx end) w o) = true → d' ≠ d →
    holds_lock d' ((match d with ToReceive => UnlockRx | ToSend => Resume end) w o) = true) as Hkeep by (by intros w [] ; destruct d; cbn).
  apply stepped_framed; try done.
  - subst q'. destruct d; [apply queue_ok_rx|apply queue_ok_tx]; unfold queueUNLOCKED; done || lia.
  - intros th' [= <-]. split_and!; [done|done|]. apply caller_moves; try done; try apply Hok; cbn [move here].
    + intros Hfa d' Hd'. subst st. destruct (decide (d' = d)) as [-> |Hne]; [by destruct d|]. rewrite Hl2 by done. apply here_locks; [done|]. rewrite Hh. by destruct d, d'.
    + intros _. rewrite !Hinv by apply _. done.
    + subst st. by destruct d.
    + intros Hc Hea. apply still_calm; [done|done| |done]. subst st. rewrite Hh. by destruct d.
  - destruct (decide (why = Blocked)) as [-> |Hw]; [right; eexists; split; [done|]; subst st; by destruct d|left].
    rewrite Hh. destruct d; cbn; by rewrite bool_decide_eq_true.
  - intros d' Hl. eexists. split; [done|]. destruct (decide (d' = d)) as [-> |Hne]; [done|]. rewrite Hl2 in Hl by done. apply locked_here in Hl.
    rewrite Hh in Hl. cbn [move here]. subst st. by apply Hkeep.
  - intros Hfa d'. split.
    { destruct (decide (d' = d)) as [-> |Hne]; [lia|]. rewrite Hl2 by done. by apply (v_wake _ Hv Hfa _ _ d' Hq). }
    apply (matched_step A' _ d' q' (if decide (d' = d) then Z.to_nat (lock d q) else 0) true); try done.
    + by eapply sinv_wf.
    + apply Hfr.
    + destruct (decide (d' = d)) as [-> |Hne]; [done|apply freed_none].
    + intros _ Hon Hr. eexists. split; [done|]. split; [apply on_iff in Hon; by apply on_iff|]. cbn [move here]. subst st. rewrite Hh in Hr. by destruct d.
    + rewrite Hh. by destruct d.
    + intros th' [= <-] _. subst st. by destruct d.
    + rewrite Hav. destruct (decide (d' = d)) as [-> |Hne]; [rewrite Hl1; lia|rewrite Hl2 by done; lia].
  - cbn. by rewrite Hcon.
Qed.

Lemma go_unlock_tx why o : here th = UnlockTx why o → ∃ σ', step Go σ = Some σ' ∧ qinv σ'.
Proof using Hv Hcur Hth Hq.
  intros Hh. eapply (unlock_half ToReceive why o); [done|done|done|]. intros s A. unfold advance. rewrite Hh. unfold prvUnlockQueue_tx, mbind, kcall_bind.
  cbn [lock wait_list]. by destruct (unlock_loop _ _ s A) as [[[? ?] ?]|].
Qed.
Lemma go_unlock_rx why o : here th = UnlockRx why o → ∃ σ', step Go σ = Some σ' ∧ qinv σ'.
Proof using Hv Hcur Hth Hq.
  intros Hh. eapply (unlock_half ToSend why o); [done|done|done|]. intros s A. unfold advance. rewrite Hh. unfold prvUnlockQueue_rx, mbind, kcall_bind.
  cbn [lock wait_list]. by destruct (unlock_loop _ _ s A) as [[[? ?] ?]|].
Qed.

(** The call returns, with nothing done to the queue. *)
Lemma stepped_return s' A' e : sinv (owed σ) s' A' → framed (kernel σ) (lists σ) s' A' → early (here th) = true →
  (∀ d, holds_lock d (here th) = false) → is_place (here th) = false → (retrying (here th) = true → avail (dir_of (what th)) q ≤ 0) →
  mine (xQueue th) e → play (xQueue th) (Some (contents q)) e = Some (contents q) → qinv (after (q, None, [e]) s' A').
Proof using Hv Hcur Hth Hq.
  intros Hi Hfr He Hlk Hnp Hret Hm Hpl. assert (queue_ok q) as Hqo by apply (v_queue _ Hv _ _ Hq). apply stepped_framed; try done.
  - by left.
  - intros d Hl%locked_here. by rewrite Hlk in Hl.
  - intros Hfa d. split; [by apply (v_wake _ Hv Hfa _ _ d Hq)|].
    destruct (decide (d = dir_of (what th) ∧ avail d q ≤ 0)) as [[_ ?]|Hd]; [by apply matched_zero|].
    apply (matched_step A' _ d q 0 true); [done|by eapply sinv_wf|apply Hfr|apply freed_none| |done|done|lia].
    intros _ [_ Hon]%on_iff Hr. destruct Hd. subst d. auto.
  - by constructor.
Qed.

Lemma not_waiting s' A' : framed (kernel σ) (lists σ) s' A' → ¬ waiting s' t.
Proof using Hv Hth. intros [_ (_ & _ & Hw) _ _] Hx. apply (to_notify _ _ _ _ _ here_ok), Hw; done. Qed.

Lemma go_resume why o : here th = Resume why o → ∃ σ', step Go σ = Some σ' ∧ qinv σ'.
Proof using Hv Hcur Hth Hq.
  intros Hh. pose proof here_ok as Hok. assert (0 < xTicksToWait th) as Hk by (apply (to_wait _ _ _ _ _ Hok); by rewrite Hh).
  assert (uxSchedulerSuspended (kernel σ) = 1) as H1 by (apply (to_window _ _ _ _ _ Hok); by rewrite Hh).
  eapply (go_call xTaskResumeAll (λ r, match why with
      | Blocked => (q, Some (move th (if r : bool then Try (Some o) else Yield o)), [])
      | Again => (q, Some (move th (Try (Some o))), [])
      | TimedOut => match what th with Send _ _ => (q, None, [Full (xQueue th)]) | Receive _ => (q, Some (move th (LookAgain o)), []) end end)
    (λ r s' A', uxSchedulerSuspended s' = 0 ∧ (r = true → runs_top s' A')) calls_ok_resume_all).
  { intros s A. unfold advance. rewrite Hh. unfold mbind, kcall_bind. destruct (xTaskResumeAll s A) as [[[[] ?] ?]|]; destruct why, (what th); done. }
  { apply wp_resume_top; [apply Hv|apply Hv|done]. }
  intros r s' A' Hi [H0 Htop] Hfr. assert (∀ st, in_window st = false → st ≠ Try None → (early st = true → early (here th) = true ∨ r = true) → thread_ok s' A' (<[xQueue th := q]> (queues σ)) t (move th st)) as Hmv.
  { intros st Hwin Hne Hea. apply caller_moves; try done; try apply Hok; cbn [move here].
    - intros _ d Hd%holds_in_window. congruence.
    - by rewrite Hwin.
    - intros Hc He. destruct (Hea He) as [He'| ->]; [by apply still_calm|]. eapply runs_top_calm; [done|auto|done|done|by eapply not_waiting]. }
  destruct why.
  - apply stepped_stage; try done; cbn [move here]; rewrite ?Hh; try done.
    + apply Hmv; [by destruct r|by destruct r|]. destruct r; [by right|done].
    + right. by destruct r.
    + intros _. left. by destruct r.
    + by destruct r.
  - apply stepped_stage; try done; cbn [move here]; rewrite ?Hh; try done; [apply Hmv; rewrite ?Hh; by auto|by left|by left].
  - destruct (what th) eqn:Ew; [apply stepped_return; try done; by rewrite Hh|].
    apply stepped_stage; try done; cbn [move here]; rewrite ?Hh; try done; [|by left]. apply Hmv; rewrite ?Hh; by auto.
Qed.

Lemma go_yield o : here th = Yield o → ∃ σ', step Go σ = Some σ' ∧ qinv σ'.
Proof using Hv Hcur Hth Hq.
  intros Hh. pose proof here_ok as Hok. assert (0 < xTicksToWait th) as Hk by (apply (to_wait _ _ _ _ _ Hok); by rewrite Hh).
  assert (uxSchedulerSuspended (kernel σ) = 0) as H0 by (apply (to_open _ _ _ _ _ Hok); [done|by rewrite Hh|lia]).
  eapply (go_call portYIELD _ (λ _ s' A', uxSchedulerSuspended s' = 0 ∧ runs_top s' A') calls_ok_yield).
  { intros s A. unfold advance. rewrite Hh. done. }
  { apply wp_yield_now; [apply (v_sched _ Hv)|apply Hv|done|]. intros s' A' Hi Ht _ (u & p & ->). split_and!; [by apply sinv_weaken|done|done]. }
  intros [] s' A' Hi [H0' Htop] Hfr. apply stepped_stage; try done; cbn [move here]; rewrite ?Hh; try done; [|by right|by left].
  apply caller_moves; try done; try apply Hok; cbn [move here]. intros Hc _. eapply runs_top_calm; [done|done|done|done|by eapply not_waiting].
Qed.

Lemma go_look_again o : here th = LookAgain o → ∃ σ', step Go σ = Some σ' ∧ qinv σ'.
Proof using Hv Hcur Hth Hq.
  intros Hh. pose proof here_ok as Hok. assert (0 < xTicksToWait th) as Hk by (apply (to_wait _ _ _ _ _ Hok); by rewrite Hh).
  assert (uxSchedulerSuspended (kernel σ) = 0) as H0 by (apply (to_open _ _ _ _ _ Hok); [done|by rewrite Hh|lia]).
  pose proof (framed_refl _ (lists σ) here_sane) as Hfr.
  eapply (go_pure (if prvIsQueueEmpty q then (q, None, [Empty (xQueue th)]) else (q, Some (move th (Try (Some o))), []))).
  { unfold advance. rewrite Hh. by destruct (prvIsQueueEmpty q). }
  destruct (prvIsQueueEmpty q) eqn:Ee.
  - apply stepped_return; try done; rewrite ?Hh; try done; [apply Hv|]. unfold prvIsQueueEmpty in Ee. zbool. cbn. by rewrite decide_True, contents_nil.
  - apply stepped_stage; try done; cbn [move here]; rewrite ?Hh; try done; [apply Hv| |by left].
    apply caller_moves; try done; try apply Hok; cbn [move here]. intros Hc _. apply still_calm; [done|apply Hv|by rewrite Hh|done].
Qed.

(** The queue changes, a waiting task may be woken, and the call returns.  [n] says for which
    list. *)
Lemma stepped_done s' A' q' e (n : dir → nat) (stays : dir → bool) to : sinv (owed σ) s' A' → framed (kernel σ) (lists σ) s' A' → here th = Try to →
  queue_ok q' → same_queue q q' → (∀ d, freed (wait_list d (xQueue th)) (n d) (lists σ) A') → (∀ d, stays d = true → d ≠ dir_of (what th)) →
  (∀ d, avail d q' ≤ 0 ∨ avail d q' + (if stays d then 0 else 1) ≤ avail d q + Z.of_nat (n d)) →
  mine (xQueue th) e → play (xQueue th) (Some (contents q)) e = Some (contents q') → qinv (after (q', None, [e]) s' A').
Proof using Hv Hcur Hth Hq.
  intros Hi Hfr Hh Hqo (E1 & E2 & E3 & E4) Hf Hst Hav Hm Hpl. assert (∀ d, lock d q' = lock d q) as Hlk by (by intros []).
  apply stepped_framed; try done.
  - left. by rewrite Hh.
  - intros d. rewrite Hlk. intros Hl%locked_here. by rewrite Hh in Hl.
  - intros Hfa d. split; [rewrite Hlk; by apply (v_wake _ Hv Hfa _ _ d Hq)|]. destruct (Hav d) as [?|Hd]; [by apply matched_zero|].
    apply (matched_step A' _ d q' (n d) (stays d)); try done; rewrite ?Hh; try done; [by eapply sinv_wf|apply Hfr| |rewrite Hlk; lia].
    intros Hs [_ Hon]%on_iff. by destruct (Hst d Hs).
  - by constructor.
Qed.

(** The first round that cannot go on *)
Lemma stepped_wait to o : here th = Try to → xTicksToWait th ≠ 0 → avail (dir_of (what th)) q ≤ 0 →
  qinv (after (q, Some (move th (Suspend o)), []) (kernel σ) (lists σ)).
Proof using Hv Hcur Hth Hq.
  intros Hh Hk Ha. pose proof here_ok as Hok. pose proof (to_ticks _ _ _ _ _ Hok). pose proof (framed_refl _ (lists σ) here_sane) as Hfr.
  apply stepped_stage; try done; cbn [move here]; rewrite ?Hh; try done; [apply Hv| |by left|by right].
  apply caller_moves; try done; try lia; cbn [move here RtosQueueRun.xTicksToWait]; try done; try lia.
  - intros _ _. apply (to_open _ _ _ _ _ Hok); [done|by rewrite Hh|done].
  - intros Hc _. apply still_calm; [done|apply Hv|by rewrite Hh|done].
Qed.

Lemma here_fits : request_fits (what th) q.
Proof using Hv Hth Hq. destruct (to_queue _ _ _ _ _ here_ok) as (q0 & Hq0 & Hf & _). assert (q0 = q) as -> by congruence. done. Qed.

Lemma wp_wake d b : wp (wake_yield (wait_list d (xQueue th)) b)
  (λ _ s' A', (sinv (owed σ) s' A' ∧ freed (wait_list d (xQueue th)) 1 (lists σ) A') ∧ framed (kernel σ) (lists σ) s' A') (kernel σ) (lists σ).
Proof using Hv Hq.
  apply wp_framed; [apply calls_ok_wake_yield|apply here_sane|]. apply wp_wake_yield; [apply Hv|apply Hv|done|by apply (v_queue _ Hv _ _ Hq)].
Qed.

Lemma go_try_send to item pos : here th = Try to → what th = Send item pos → ∃ σ', step Go σ = Some σ' ∧ qinv σ'.
Proof using Hv Hcur Hth Hq.
  intros Hh Hw. pose proof here_ok as Hok. pose proof here_fits as Hfit. rewrite Hw in Hfit. destruct Hfit as [Hlen Hov].
  destruct (v_queue _ Hv _ _ Hq) as [Hqo _]. pose proof (q_count _ Hqo) as Hcnt. apply go_run. unfold advance. rewrite Hh, Hw. cbv zeta. apply wp_bind. unfold xQueueGenericSend_try.
  destruct ((uxMessagesWaiting q <? uxLength q) || bool_decide (pos = queueOVERWRITE)) eqn:Ef.
  - assert (fits q pos) as Hfits.
    { unfold fits. destruct (decide (pos = queueOVERWRITE)); [auto|]. apply orb_true_iff in Ef as [Ef|Ef]; [zbool; lia|]. by apply bool_decide_eq_true in Ef. }
    destruct (put_ok q item pos Hqo Hlen Hfits) as (q' & -> & Hqo' & Hcon & Hsame & Hmsg). apply wp_bind, wp_ret, wp_bind. eapply wp_mono; [apply (wp_wake ToReceive false)|].
    intros [] s' A' [[Hi Hf] Hfr]. apply wp_ret. cbn beta. apply wp_ret.
    eapply (stepped_done s' A' q' _ (λ d, match d with ToReceive => 1 | ToSend => 0 end)%nat (λ d, match d with ToReceive => true | ToSend => false end)); try done.
    + intros []; [apply freed_none|done].
    + rewrite Hw. by intros [].
    + destruct Hsame as (El & _). pose proof (queue_contents_length q ltac:(lia)) as Hc1. pose proof (q_count _ Hqo') as Hcnt'. pose proof (queue_contents_length q' ltac:(lia)) as Hc2.
      rewrite Hcon in Hc2. intros []; cbn; [|right; lia]. rewrite El. destruct pos; cbn [enqueue] in Hc2.
      * right. rewrite zlen_app in Hc2. change (zlen [item]) with 1 in Hc2. lia.
      * right. change (zlen (item :: contents q)) with (Z.of_nat (S (length (contents q)))) in Hc2. unfold zlen in Hc1. lia.
      * left. destruct (Hov eq_refl). change (zlen [item]) with 1 in Hc2. lia.
    + cbn. by rewrite decide_True, Hcon.
  - apply orb_false_iff in Ef as [Ef1 Ef2]. zbool. assert (avail (dir_of (what th)) q ≤ 0) as Ha by (rewrite Hw; cbn; lia).
    pose proof (framed_refl _ (lists σ) here_sane) as Hfr.
    destruct (Z.eqb_spec (xTicksToWait th) 0) as [Hk|Hk].
    + apply wp_ret. cbn beta. apply wp_ret. apply stepped_return; try done; rewrite ?Hh; try done. apply Hv.
    + destruct to as [o|]; [|apply wp_bind, wp_gets]; apply wp_ret; cbn beta; apply wp_ret; eapply stepped_wait; done.
Qed.

Lemma go_try_receive to peek : here th = Try to → what th = Receive peek → ∃ σ', step Go σ = Some σ' ∧ qinv σ'.
Proof using Hv Hcur Hth Hq.
  intros Hh Hw. pose proof here_ok as Hok. destruct (v_queue _ Hv _ _ Hq) as [Hqo _]. pose proof (q_count _ Hqo) as Hcnt.
  apply go_run. unfold advance. rewrite Hh, Hw. cbv zeta. apply wp_bind. unfold xQueueGenericReceive_try. cbv zeta.
  destruct (Z.ltb_spec 0 (uxMessagesWaiting q)) as [Hn|Hn].
  - destruct (take_ok q Hqo Hn) as (buf & q1 & -> & Hcon & Hqo1 & Hsame & Hback). apply wp_bind, wp_ret. destruct peek; cbn [negb].
    + apply wp_bind. eapply wp_mono; [apply (wp_wake ToReceive false)|]. intros [] s' A' [[Hi Hf] Hfr]. apply wp_ret. cbn beta. apply wp_ret. rewrite Hback.
      eapply (stepped_done s' A' q _ (λ d, match d with ToReceive => 1 | ToSend => 0 end)%nat (λ d, match d with ToSend => true | ToReceive => false end)); try done.
      * intros []; [apply freed_none|done].
      * rewrite Hw. by intros [].
      * intros []; cbn; right; lia.
      * cbn. rewrite decide_True by done. rewrite Hcon. by rewrite decide_True.
    + apply wp_bind. eapply wp_mono; [apply (wp_wake ToSend false)|]. intros [] s' A' [[Hi Hf] Hfr]. apply wp_ret. cbn beta. apply wp_ret.
      pose proof (q_len _ Hqo). rewrite uwrap_id by (unfold fits_u; lia).
      eapply (stepped_done s' A' _ _ (λ d, match d with ToReceive => 0 | ToSend => 1 end)%nat (λ d, match d with ToSend => true | ToReceive => false end)); try done.
      * intros []; [done|apply freed_none].
      * rewrite Hw. by intros [].
      * destruct Hsame as (El & _). intros []; cbn; right; lia.
      * cbn. rewrite decide_True by done. rewrite Hcon. by rewrite decide_True.
  - assert (avail (dir_of (what th)) q ≤ 0) as Ha by (rewrite Hw; cbn; lia). pose proof (framed_refl _ (lists σ) here_sane) as Hfr.
    destruct (Z.eqb_spec (xTicksToWait th) 0) as [Hk|Hk].
    + apply wp_ret. cbn beta. apply wp_ret. apply stepped_return; try done; rewrite ?Hh; try done; [apply Hv|]. cbn. rewrite decide_True, contents_nil; [done|lia|done].
    + destruct to as [o|]; [|apply wp_bind, wp_gets]; apply wp_ret; cbn beta; apply wp_ret; eapply stepped_wait; done.
Qed.

Lemma go_on : ∃ σ', step Go σ = Some σ' ∧ qinv σ'.
Proof using Hv Hcur Hth Hq.
  destruct (here th) eqn:Hh; [destruct (what th) eqn:Hw; [by eapply go_try_send|by eapply go_try_receive]|by eapply go_suspend|by eapply go_lock|by eapply go_check|
    by eapply go_look|by eapply go_place|by eapply go_unlock_tx|by eapply go_unlock_rx|by eapply go_resume|by eapply go_yield|by eapply go_look_again].
Qed.

End step.

Lemma step_go σ : qinv σ → permitted fair Go σ → ∃ σ', step Go σ = Some σ' ∧ qinv σ'.
Proof.
  intros Hv Hout. destruct (b_current _ _ (i_base _ _ _ (v_sched _ Hv))) as (t & c & Hcur & _).
  destruct (threads σ !! t) as [th|] eqn:Hth; [|destruct Hout; unfold outside; by rewrite Hcur].
  destruct (to_queue _ _ _ _ _ (v_thread _ Hv _ _ Hth)) as (q & Hq & _). by eapply go_on.
Qed.

End fair.

#[global] Arguments v_sched {fair} σ _.
#[global] Arguments v_running {fair} σ _.
#[global] Arguments v_queue {fair} σ _.
#[global] Arguments v_thread {fair} σ _.
#[global] Arguments v_member {fair} σ _.
#[global] Arguments v_lock {fair} σ _.
#[global] Arguments v_wake {fair} σ _.
#[global] Arguments v_history {fair} σ _.
#[global] Arguments to_queue {fair} _ _ _ _ _ _.
#[global] Arguments to_window {fair} _ _ _ _ _ _.
#[global] Arguments locked_running {fair} _ _ _.

End RtosQueueOk.
