(* ===== verification/RtosQueueThm.v ===== *)
(** * What FreeRTOS queues promise

    The events of the system of [RtosQueueRun] that are not steps of a task inside a queue
    call, with the invariant of [RtosQueueOk]; then runs of the system over the linked
    rings of list.c, and what holds in all of them. *)

From S2P Require Import Prelude RtosList RtosHeap RtosAlloc RtosTask RtosSched RtosSys RtosCalls RtosRun RtosFrame RtosQueue RtosQueueRun RtosQueueOk.
Import RtosList RtosAlloc RtosTask RtosSched RtosSys RtosCalls RtosRun RtosFrame RtosQueue RtosQueueRun RtosQueueOk.

Module RtosQueueThm.

#[local] Arguments xStateListItem : simpl never.
#[local] Arguments xEventListItem : simpl never.
#[local] Arguments pvOwner_task : simpl never.
#[local] Arguments xTasksWaitingToSend : simpl never.
#[local] Arguments xTasksWaitingToReceive : simpl never.
#[local] Hint Resolve wait_list_event : core.

(** Whether the run is fair *)
Section fair.
Context (fair : bool).
Abbreviation qinv := (RtosQueueOk.qinv fair).
Abbreviation thread_ok := (RtosQueueOk.thread_ok fair).

(** ** A queue changes, and no task inside a call moves *)

Section change.
Context (σ : spec) (h : nat) (q : Queue_t) (Hv : qinv σ) (Hq : queues σ !! h = Some q).

Lemma changed s' A' q' es : sinv (owed σ) s' A' → framed (kernel σ) (lists σ) s' A' → queue_ok q' →
  uxLength q' = uxLength q → uxItemSize q' = uxItemSize q → (∀ d, lock d q' ≠ -1 → lock d q ≠ -1) →
  (∀ t th, pxCurrentTCB (kernel σ) = Some t → threads σ !! t = Some th → thread_ok s' A' (<[h := q']> (queues σ)) t th) →
  (fair = true → ∀ d, -1 ≤ lock d q' ∧ matched A' (threads σ) h d q') →
  Forall (mine h) es → fold_left (play h) es (Some (contents q)) = Some (contents q') → qinv (with_queue h q' es σ s' A').
Proof using Hv Hq.
  intros Hi [Hsn (Hs & Hid & Hw) Hla _] Hqo Hlen Hsz Hlk Hrun Hmat Hes Hrep. pose proof Hv as [Vs Vr Vq Vt Vm Vl Vw Vh].
  assert (∀ h' q'', <[h := q']> (queues σ) !! h' = Some q'' → is_Some (queues σ !! h')) as Hold.
  { intros h' q'' [[<- _]|[_ ?]]%lookup_insert_Some; eauto. }
  unfold with_queue. split; cbn [kernel lists queues threads history owed].
  - done.
  - apply Hsn.
  - intros h' q'' Hq''. destruct (Hold _ _ Hq'') as [q0 Hq0]. split; [|intros d; apply Hs; [done|by apply (Vq h' q0)]].
    apply lookup_insert_Some in Hq'' as [[_ <-]|[_ ?]]; [done|by eapply Vq].
  - intros t th Ht. destruct (decide (pxCurrentTCB (kernel σ) = Some t)) as [Hc|Hc]; [by apply Hrun|].
    eapply thread_ok_other; [by apply Vt|done|done|done|done|by apply Hw|]. destruct (to_queue _ _ _ _ _ (Vt _ _ Ht)) as (q0 & Hq0 & Hf & _).
    destruct (decide (xQueue th = h)) as [E|E]; [|exists q0; by rewrite lookup_insert_ne].
    exists q'. rewrite E, lookup_insert_eq. split; [done|]. assert (q0 = q) as -> by congruence. by eapply request_fits_same.
  - intros h' q'' d t Hq'' Hc. destruct (Hold _ _ Hq'') as [q0 Hq0]. by apply (Vm h' q0 d t Hq0), Hs.
  - intros h' q'' d [[<- <-]|[_ Hq'']]%lookup_insert_Some Hl; [apply (Vl h q d Hq); auto|by eapply Vl].
  - intros Hfa h' q'' d [[<- <-]|[_ Hq'']]%lookup_insert_Some; [by apply Hmat|]. destruct (Vw Hfa h' q'' d Hq'') as [? Hmt]. split; [done|].
    exact (matched_shrink _ _ _ _ _ _ (sinv_wf _ _ _ Vs) (sinv_wf _ _ _ Hi) Hs Hmt).
  - intros h' q'' [[<- <-]|[Hne Hq'']]%lookup_insert_Some; rewrite replay_app; [by rewrite (Vh h q Hq)|].
    rewrite (replay_others h) by done. by apply Vh.
Qed.

(** Nobody puts itself into a list of a queue that is not locked. *)
Lemma placing_locked d : fair = true → placing (threads σ) h d → 0 ≤ lock d q.
Proof using Hv Hq.
  intros Hfa (t & th & Ht & [Hh _]%on_iff & Hp). destruct (to_queue _ _ _ _ _ (v_thread _ Hv _ _ Ht)) as (q0 & Hq0 & _ & Hl).
  assert (q0 = q) as -> by congruence. apply Hl; [done|]. by destruct (here th).
Qed.

(** What an interrupt handler adds is matched by a task that it wakes, or by the lock. *)
Lemma matched_change A' d q' n : fair = true → wf A' → shrink (lists σ) A' → freed (wait_list d h) n (lists σ) A' → (n ≠ 0%nat → lock d q = -1) →
  avail d q' + Z.max 0 (lock d q) ≤ avail d q + Z.of_nat n + Z.max 0 (lock d q') → matched A' (threads σ) h d q'.
Proof using Hv Hq.
  intros Hfa Hw Hs Hf Hn Hle Hp. pose proof Hv as [Vs _ _ _ Vm _ Vw' _]. destruct (Vw' Hfa _ _ d Hq) as [_ Vw]. destruct (decide (items A' (wait_list d h) = [])) as [He|Hne].
  - destruct Hp as [?|Hp]; [done|]. specialize (Vw (or_intror Hp)). apply placing_locked in Hp; [|done]. assert (n = 0%nat) as -> by lia.
    pose proof (subseteq_size _ _ (awake_shrink _ _ (threads σ) h d Hs)). lia.
  - specialize (Vw (or_introl (items_shrink _ _ _ (sinv_wf _ _ _ Vs) Hw Hs (wait_list_event d h) Hne))).
    pose proof (awake_freed _ _ (threads σ) _ _ _ Hs Hf Hne (λ u Hu, Vm _ _ _ u Hq Hu)). lia.
Qed.

(** ** Calls from interrupt handlers *)

(** The running task may be anywhere in a call. *)
Lemma handled s' A' q' e (n : dir → nat) : sinv (owed σ) s' A' → framed (kernel σ) (lists σ) s' A' → steady (kernel σ) (lists σ) s' A' → queue_ok q' →
  uxLength q' = uxLength q → uxItemSize q' = uxItemSize q → (∀ d, (fair = true → lock d q ≤ lock d q') ∧ (lock d q = -1 → lock d q' = -1)) →
  (∀ d, freed (wait_list d h) (n d) (lists σ) A' ∧ (n d ≠ 0%nat → lock d q = -1)) →
  (fair = true → ∀ d, avail d q' + Z.max 0 (lock d q) ≤ avail d q + Z.of_nat (n d) + Z.max 0 (lock d q')) →
  mine h e → play h (Some (contents q)) e = Some (contents q') → qinv (with_queue h q' [e] σ s' A').
Proof using Hv Hq.
  intros Hi Hfr Hst Hqo Hlen Hsz Hlk Hf Hav Hm Hpl. apply changed; try done.
  - intros d Hl Hu. by apply Hl, Hlk.
  - intros t th Hc Ht. pose proof Hfr as [_ (_ & Hid & Hw) _ Hso]. pose proof (v_thread _ Hv _ _ Ht) as Hok.
    destruct (thread_ok_interrupted _ _ _ s' A' _ _ _ Hok Hst Hso Hc Hid (Hw t ltac:(done))) as [(q0 & Hq0 & Hfit & Hl) ? ? ? ? ? ? ?]. split; try done.
    destruct (decide (xQueue th = h)) as [E|E]; [|exists q0; by rewrite lookup_insert_ne].
    exists q'. rewrite E, lookup_insert_eq. assert (q0 = q) as -> by congruence. split_and!; [done|by eapply request_fits_same|].
    intros Hfa d Hd. specialize (Hl Hfa d Hd). destruct (Hlk d) as [Hle _]. specialize (Hle Hfa). lia.
  - intros Hfa d. destruct (Hf d) as [Hfd Hnd]. split; [destruct (v_wake _ Hv Hfa _ _ d Hq), (Hlk d) as [Hle _]; specialize (Hle Hfa); lia|].
    eapply matched_change; [done|by eapply sinv_wf|apply Hfr|exact Hfd|exact Hnd|by apply Hav].
  - by constructor.
Qed.

Lemma sane_here : sane (kernel σ).
Proof using Hv. by eapply sane_sinv; apply Hv. Qed.

(** Nothing in the kernel changes. *)
Lemma handled_here q' e : queue_ok q' → uxLength q' = uxLength q → uxItemSize q' = uxItemSize q →
  (∀ d, (fair = true → lock d q ≤ lock d q') ∧ (lock d q = -1 → lock d q' = -1)) →
  (fair = true → ∀ d, avail d q' + Z.max 0 (lock d q) ≤ avail d q + Z.max 0 (lock d q')) →
  mine h e → play h (Some (contents q)) e = Some (contents q') → qinv (with_queue h q' [e] σ (kernel σ) (lists σ)).
Proof using Hv Hq.
  intros ? ? ? ? Hav ? ?. apply (handled _ _ _ _ (λ _, 0%nat)); try done; [apply Hv|apply framed_refl, sane_here| |].
  - intros d. split; [apply freed_none|done].
  - intros Hfa d. specialize (Hav Hfa d). lia.
Qed.

(** The queue is as before. *)
Lemma handled_same e : mine h e → play h (Some (contents q)) e = Some (contents q) → qinv (with_queue h q [e] σ (kernel σ) (lists σ)).
Proof using Hv Hq. intros. apply handled_here; try done; by apply (v_queue _ Hv _ _ Hq). Qed.

Lemma wp_flag d : wp (wake_flag (wait_list d h)) (λ _ s' A', sinv (owed σ) s' A' ∧ freed (wait_list d h) 1 (lists σ) A' ∧
  framed (kernel σ) (lists σ) s' A' ∧ steady (kernel σ) (lists σ) s' A') (kernel σ) (lists σ).
Proof using Hv Hq.
  destruct (calls_ok_wake_flag (wait_list d h)) as [Hc Hst].
  destruct (wp_framed _ _ _ _ Hc sane_here (wp_queue_wake_flag (owed σ) _ _ (wait_list d h) (v_sched _ Hv) (v_running _ Hv) (wait_list_event d h)
    (proj2 (v_queue _ Hv _ _ Hq) d))) as (x & s' & A' & E & [Hi Hf] & Hfr).
  exists x, s', A'. split; [done|]. split_and!; [done|done|done|]. by destruct (Hst _ _ _ _ _ sane_here E).
Qed.

(** A handler adds something that tasks in direction [d] wait for: it wakes one of them, or
    counts in the lock. *)
Lemma wp_handler {X} (f : Queue_t → bool → X) (Q : X → sched → astate → Prop) d q' e : queue_ok q' → same_queue q q' → (fair = true → lock d q < 127) →
  (∀ d', avail d' q' ≤ avail d' q + (if decide (d' = d) then 1 else 0)) → mine h e → play h (Some (contents q)) e = Some (contents q') →
  (∀ q1 r s' A', qinv (with_queue h q1 [e] σ s' A') → Q (f q1 r) s' A') →
  wp (if lock d q =? queueUNLOCKED then r ← wake_flag (wait_list d h); mret (f q' r)
      else mret (f ((match d with ToReceive => with_tx | ToSend => with_rx end) (swrap 8 (lock d q + 1)) q') false)) Q (kernel σ) (lists σ).
Proof using Hv Hq.
  intros Hqo (E1 & E2 & E3 & E4) Hlt Hav Hm Hpl HQ. assert (∀ d', lock d' q' = lock d' q) as Hlk by (by intros []).
  unfold queueUNLOCKED. destruct (Z.eqb_spec (lock d q) (-1)) as [Hu|Hu].
  - apply wp_bind. eapply wp_mono; [apply wp_flag|]. intros r s' A' (Hi & Hf & Hfr & Hst). apply wp_ret, HQ.
    apply (handled _ _ _ _ (λ d', if decide (d' = d) then 1 else 0)%nat); try done.
    + intros d'. rewrite Hlk. split; [lia|done].
    + intros d'. destruct (decide (d' = d)) as [-> |Hne]; [by split|split; [apply freed_none|done]].
    + intros _ d'. specialize (Hav d'). rewrite Hlk. destruct (decide (d' = d)); lia.
  - set (c := swrap 8 (lock d q + 1)). assert (-128 ≤ c ≤ 127) as Hc by (pose proof (swrap_bound 8 (lock d q + 1) ltac:(lia)) as Hsb; unfold fits_s in Hsb; subst c; lia).
    assert (fair = true → c = lock d q + 1) as Hfc.
    { intros Hfa. specialize (Hlt Hfa). destruct (v_wake _ Hv Hfa _ _ d Hq). apply swrap_id; [lia|unfold fits_s; lia]. }
    apply wp_ret, HQ. set (q1 := match d with ToReceive => _ | ToSend => _ end c q').
    assert (lock d q1 = c ∧ (∀ d', d' ≠ d → lock d' q1 = lock d' q) ∧ (∀ d', avail d' q1 = avail d' q')) as (L1 & L2 & L3).
    { subst q1. split_and!; [by destruct d|intros [] ?; destruct d; cbn; done|by intros []; destruct d]. }
    apply handled_here; try done.
    + subst q1. destruct d; [apply queue_ok_rx|apply queue_ok_tx]; (done || lia).
    + by destruct d.
    + by destruct d.
    + intros d'. destruct (decide (d' = d)) as [-> |Hne]; [|rewrite L2 by done; split; [lia|done]].
      split; [|done]. intros Hfa. rewrite L1, (Hfc Hfa). lia.
    + intros Hfa d'. specialize (Hfc Hfa). destruct (v_wake _ Hv Hfa _ _ d Hq) as [Hlo _]. rewrite L3. specialize (Hav d'). destruct (decide (d' = d)) as [-> |Hne]; [rewrite L1; lia|rewrite L2 by done; lia].
    + subst q1. by destruct d.
Qed.

End change.

Lemma step_run {X} (f : kcall astate X) k σ : wp f (λ x s' A', qinv (k x s' A')) (kernel σ) (lists σ) → ∃ σ', call_kernel f σ k = Some σ' ∧ qinv σ'.
Proof. intros (x & s' & A' & E & HQ). eexists. split; [|exact HQ]. unfold call_kernel. by rewrite E. Qed.

Lemma on_queue_inv σ h P : on_queue σ h P → ∃ q, queues σ !! h = Some q ∧ P q.
Proof. unfold on_queue. destruct (queues σ !! h); [eauto|done]. Qed.

Lemma fits_room q pos : (uxMessagesWaiting q <? uxLength q) || bool_decide (pos = queueOVERWRITE) = true →
  (pos = queueOVERWRITE → uxLength q = 1 ∧ 0 < uxItemSize q) → fits q pos.
Proof.
  intros Ef Hov. unfold fits. destruct (decide (pos = queueOVERWRITE)); [auto|]. apply orb_true_iff in Ef as [Ef|Ef]; [zbool; lia|].
  by apply bool_decide_eq_true in Ef.
Qed.

(** The places that are left after an item was put *)
Lemma put_room q q' item pos : queue_ok q → queue_ok q' → uxLength q' = uxLength q → contents q' = enqueue pos item (contents q) →
  uxLength q' - uxMessagesWaiting q' ≤ uxLength q - uxMessagesWaiting q ∨ pos = queueOVERWRITE.
Proof.
  intros Hq Hq' El Hc. pose proof (q_count _ Hq). pose proof (q_count _ Hq').
  pose proof (queue_contents_length q ltac:(lia)) as H1. pose proof (queue_contents_length q' ltac:(lia)) as H2. rewrite Hc in H2. destruct pos; cbn [enqueue] in H2; [left|left|by right].
  - rewrite zlen_app in H2. change (zlen [item]) with 1 in H2. lia.
  - unfold zlen in *. cbn [length] in H2. lia.
Qed.

Lemma put_room_any q q' item pos : queue_ok q → queue_ok q' → uxLength q' = uxLength q → contents q' = enqueue pos item (contents q) →
  (pos = queueOVERWRITE → uxLength q = 1) → uxLength q' - uxMessagesWaiting q' ≤ uxLength q - uxMessagesWaiting q.
Proof.
  intros Hq Hq' El Hc Hov. destruct (put_room q q' item pos) as [?| ->]; try done. specialize (Hov eq_refl). pose proof (q_count _ Hq). pose proof (q_count _ Hq').
  pose proof (queue_contents_length q' ltac:(lia)) as H2. rewrite Hc in H2. change (zlen (enqueue _ item _)) with 1 in H2. lia.
Qed.

Lemma step_send_isr h item pos flag σ : qinv σ → permitted fair (SendFromISR h item pos flag) σ → ∃ σ', step (SendFromISR h item pos flag) σ = Some σ' ∧ qinv σ'.
Proof.
  intros Hv (q & Hq & [Hlen Hov] & Hlt)%on_queue_inv. cbn [step]. rewrite Hq. cbn [mbind option_bind]. apply step_run. destruct (v_queue _ Hv _ _ Hq) as [Hqo _].
  unfold xQueueGenericSendFromISR. destruct (_ || _) eqn:Ef.
  - destruct (put_ok q item pos Hqo Hlen (fits_room _ _ Ef Hov)) as (q' & -> & Hqo' & Hcon & Hsame & Hmsg). cbv zeta. apply wp_bind, wp_ret.
    apply (wp_handler σ h q Hv Hq (λ q1 r, (q1, true, r && flag)) _ ToReceive q' (Put h pos item)); try done.
    + intros []; cbn -[Z.add]; [|rewrite decide_True by done; lia]. rewrite decide_False, Z.add_0_r by done.
      apply (put_room_any q q' item pos); [done|done|apply Hsame|done|]. intros E%Hov. apply E.
    + cbn. by rewrite decide_True, Hcon.
  - apply wp_ret. by apply (handled_same σ h q).
Qed.

Lemma step_give_isr h flag σ : qinv σ → permitted fair (GiveFromISR h flag) σ → ∃ σ', step (GiveFromISR h flag) σ = Some σ' ∧ qinv σ'.
Proof.
  intros Hv (q & Hq & Hz & Hlt)%on_queue_inv. cbn [step]. rewrite Hq. cbn [mbind option_bind]. apply step_run. destruct (v_queue _ Hv _ _ Hq) as [Hqo _].
  unfold xQueueGiveFromISR. destruct (Z.ltb_spec (uxMessagesWaiting q) (uxLength q)) as [Hn|Hn].
  - pose proof (q_len _ Hqo). pose proof (q_count _ Hqo). cbv zeta. rewrite u32_id by lia.
    destruct (count_ok q (uxMessagesWaiting q + 1) Hqo Hz ltac:(lia)) as [Hqo' Hcon].
    apply (wp_handler σ h q Hv Hq (λ q1 r, (q1, true, r && flag)) _ ToReceive (with_count (uxMessagesWaiting q + 1) q) (Put h queueSEND_TO_BACK [])); try done.
    + intros []; cbn -[Z.add]; [rewrite decide_False by done|rewrite decide_True by done]; lia.
    + cbn. rewrite decide_True, Hcon by done. unfold contents. rewrite Hz. cbn. f_equal. rewrite Z2Nat.inj_add by lia. change (Z.to_nat 1) with 1%nat. by rewrite replicate_add.
  - apply wp_ret. by apply (handled_same σ h q).
Qed.

Lemma step_receive_isr h flag σ : qinv σ → permitted fair (ReceiveFromISR h flag) σ → ∃ σ', step (ReceiveFromISR h flag) σ = Some σ' ∧ qinv σ'.
Proof.
  intros Hv (q & Hq & Hlt)%on_queue_inv. cbn [step]. rewrite Hq. cbn [mbind option_bind]. apply step_run. destruct (v_queue _ Hv _ _ Hq) as [Hqo _].
  unfold xQueueReceiveFromISR. cbv zeta. destruct (Z.ltb_spec 0 (uxMessagesWaiting q)) as [Hn|Hn].
  - destruct (take_ok q Hqo Hn) as (buf & q1 & -> & Hcon & Hqo1 & Hsame & _). apply wp_bind, wp_ret. pose proof (q_len _ Hqo). pose proof (q_count _ Hqo).
    rewrite u32_id by lia.
    apply (wp_handler σ h q Hv Hq (λ q1 r, (q1, Some buf, r && flag)) _ ToSend (with_count (uxMessagesWaiting q - 1) q1) (Took h buf)); try done.
    + destruct Hsame as (El & _). intros []; cbn -[Z.add]; [rewrite decide_True by done|rewrite decide_False by done]; lia.
    + cbn. rewrite decide_True by done. rewrite Hcon. by rewrite decide_True.
  - apply wp_ret. apply (handled_same σ h q); try done. pose proof (q_count _ Hqo). cbn. rewrite decide_True, contents_nil; [done|lia|done].
Qed.

Lemma step_peek_isr h σ : qinv σ → permitted fair (PeekFromISR h) σ → ∃ σ', step (PeekFromISR h) σ = Some σ' ∧ qinv σ'.
Proof.
  intros Hv (q & Hq & _)%on_queue_inv. cbn [step]. rewrite Hq. cbn [mbind option_bind]. apply step_run. destruct (v_queue _ Hv _ _ Hq) as [Hqo _].
  unfold xQueuePeekFromISR. destruct (Z.ltb_spec 0 (uxMessagesWaiting q)) as [Hn|Hn]; cbv zeta.
  - destruct (take_ok q Hqo Hn) as (buf & q1 & -> & Hcon & _ & _ & Hback). apply wp_bind, wp_ret, wp_ret. rewrite Hback.
    apply (handled_same σ h q); try done. cbn. rewrite decide_True by done. rewrite Hcon. by rewrite decide_True.
  - apply wp_ret. apply (handled_same σ h q); try done. pose proof (q_count _ Hqo). cbn. rewrite decide_True, contents_nil; [done|lia|done].
Qed.

(** ** Calls of tasks *)

Lemma outside_inv σ : outside σ → ∃ t, pxCurrentTCB (kernel σ) = Some t ∧ threads σ !! t = None.
Proof. apply on_task_inv. Qed.

Lemma step_begin h r k σ : qinv σ → permitted fair (Begin h r k) σ → ∃ σ', step (Begin h r k) σ = Some σ' ∧ qinv σ'.
Proof.
  intros Hv (Hout & (q & Hq & Hf)%on_queue_inv & Hk & Hbl & Hrc). apply outside_inv in Hout as (t & Hcur & Ht). cbn [step]. rewrite Hcur. cbn [mbind option_bind].
  eexists. split; [done|]. rewrite Hcur in Hrc. cbn in Hrc. pose proof (ready_to_call_calm _ _ _ Hrc) as Hca. pose proof Hv as [Vs Vr Vq Vt Vm Vl Vw Vh].
  split; cbn [kernel lists queues threads history owed]; try done.
  - intros u th [[<- <-]|[_ Hu]]%lookup_insert_Some; [|by apply Vt]. split; cbn [xQueue what here xTicksToWait in_window]; try done.
    + exists q. split_and!; [done|done|]. by intros _ [].
    + apply Hca.
    + intros Hk0. destruct (Hbl Hk0) as [(t' & Ht' & ?)%on_task_inv _]. assert (t' = t) as -> by congruence. done.
    + intros _ _ Hk0. by apply Hbl.
  - intros h' q' d u Hq' Hc. destruct (Vm h' q' d u Hq' Hc) as (th & Hu & ?). exists th. rewrite lookup_insert_ne by congruence. done.
  - intros h' q' d Hq' Hl. destruct (Vl h' q' d Hq' Hl) as (u & th & Hu & ?). exists u, th. rewrite lookup_insert_ne by congruence. done.
  - intros Hfa h' q' d Hq'. destruct (Vw Hfa h' q' d Hq') as [Hlow Hmt]. split; [done|]. intros Hp.
    assert (items (lists σ) (wait_list d h') ≠ [] ∨ placing (threads σ) h' d) as Hp0.
    { destruct Hp as [?|(u & th & Hu & ? & ?)]; [by left|right]. exists u, th. apply lookup_insert_Some in Hu as [[_ <-]|[_ ?]]; done. }
    specialize (Hmt Hp0). assert (awake (lists σ) (threads σ) h' d ⊆ awake (lists σ) (<[t := Thread h r k (Try None)]> (threads σ)) h' d) as Hsub.
    { intros u (th & Hu & ?)%elem_of_awake. apply elem_of_awake. exists th. rewrite lookup_insert_ne by congruence. done. }
    apply subseteq_size in Hsub. lia.
Qed.

Lemma wp_yield_framed σ l b : qinv σ → (10 ≤ l)%nat → is_Some (seqs (lists σ) !! l) →
  wp (wake_yield l b) (λ _ s' A', (sinv (owed σ) s' A' ∧ freed l 1 (lists σ) A') ∧ framed (kernel σ) (lists σ) s' A') (kernel σ) (lists σ).
Proof.
  intros Hv Hl Hs. apply wp_framed; [apply calls_ok_wake_yield|by eapply sane_here|]. apply wp_wake_yield; [apply Hv|apply Hv|done|done].
Qed.

(** The only task of a list was woken. *)
Lemma freed_last l A A' : wf A → wf A' → (10 ≤ l)%nat → shrink A A' → freed l 1 A A' → (length (items A l) ≤ 1)%nat → items A' l = [].
Proof.
  intros Hw Hw' Hl [Hs _] Hf Hlen. destruct (items A' l) as [|x xs] eqn:Ex; [done|]. destruct Hf as (ts & Hn & Hts); [congruence|].
  assert (cont A' !! x = Some l) as Hx by (apply (items_cont _ _ _ Hw'); rewrite Ex; apply elem_of_cons; by left).
  apply size_1_elem_of in Hn as [t Ht]. destruct (Hts t) as [Hc Hm]; [set_solver|].
  apply (items_cont _ _ _ Hw) in Hc. assert (x ∈ items A l) as Hxl by (apply (items_cont _ _ _ Hw); by apply Hs).
  destruct (items A l) as [|y [|]]; [by apply elem_of_nil in Hc| |cbn in Hlen; lia].
  apply list_elem_of_singleton in Hc, Hxl. subst x y. by destruct (Hm l Hl).
Qed.

Lemma unlocked_outside σ h q d : qinv σ → outside σ → queues σ !! h = Some q → lock d q = -1.
Proof.
  intros Hv (t & Hcur & Ht)%outside_inv Hq. destruct (decide (lock d q = -1)); [done|].
  destruct (locked_running σ t Hv Hcur h q d) as (th & Hth & _); try done. congruence.
Qed.

Lemma step_reset h σ : qinv σ → permitted fair (Reset h) σ → ∃ σ', step (Reset h) σ = Some σ' ∧ qinv σ'.
Proof.
  intros Hv (Hout & (q & Hq & _)%on_queue_inv & Hone). cbn [step]. rewrite Hq. cbn [mbind option_bind]. apply step_run.
  destruct (v_queue _ Hv _ _ Hq) as [Hqo Hls]. unfold xQueueGenericReset. cbv zeta. cbn [negb].
  apply wp_bind. eapply wp_mono; [apply (wp_yield_framed σ (wait_list ToSend h)); [done|done|apply Hls]|]. intros [] s' A' [[Hi Hf] Hfr]. apply wp_ret.
  destruct (reset_ok q) as [Hqo' Hcon]; [apply Hqo|apply Hqo| |].
  { intros Hp. destruct (q_ring _ Hqo Hp) as (r & Hg). rewrite <- (g_tail _ _ Hg). split_and!; apply Hg. }
  apply (changed σ h q); try done.
  - by intros [].
  - intros t th Hc Ht. apply outside_inv in Hout as (t' & ? & ?). congruence.
  - intros Hfa d. specialize (Hone Hfa). split; [by destruct d|]. destruct d; intros Hp; [|cbn; lia]. assert (items A' (wait_list ToSend h) = []) as He.
    { eapply freed_last; [by eapply sinv_wf, Hv|by eapply sinv_wf|done|apply Hfr|done|done]. }
    destruct Hp as [?|Hp]; [done|]. pose proof (placing_locked σ h q Hv Hq _ Hfa Hp). rewrite (unlocked_outside σ h q ToSend) in *; done.
  - by constructor.
  - cbn [fold_left play]. rewrite decide_True by done. by rewrite Hcon.
Qed.

(** ** New queues *)

Lemma sinv_list_init o s A l : sinv o s A → (10 ≤ l)%nat → seqs A !! l = None → sinv o s (with_seq l [] (End l) A).
Proof.
  intros Hi Hl Hn. destruct (wp_event_list o s A l (λ _ s' A', sinv o s' A') Hi Hl Hn ltac:(done)) as (x & s1 & A1 & E1 & Hi1).
  destruct (wp_list_init s A l (λ _ s' A', s' = s ∧ A' = with_seq l [] (End l) A) Hn ltac:(done)) as (y & s2 & A2 & E2 & -> & ->).
  assert (s1 = s ∧ A1 = with_seq l [] (End l) A) as [-> ->] by (split; congruence). done.
Qed.

(** The lists of a new queue *)
Definition new_lists (h : nat) (A : astate) : astate :=
  with_seq (xTasksWaitingToReceive h) [] (End (xTasksWaitingToReceive h)) (with_seq (xTasksWaitingToSend h) [] (End (xTasksWaitingToSend h)) A).

Lemma new_lists_seqs h A l : seqs (new_lists h A) !! l =
  if decide (l = wait_list ToReceive h) then Some ([], End l) else if decide (l = wait_list ToSend h) then Some ([], End l) else seqs A !! l.
Proof.
  unfold new_lists, with_seq, wait_list. cbn [seqs]. destruct (decide (l = xTasksWaitingToReceive h)) as [-> |H1]; [apply lookup_insert_eq|].
  rewrite lookup_insert_ne by done. destruct (decide (l = xTasksWaitingToSend h)) as [-> |H2]; [apply lookup_insert_eq|]. by rewrite lookup_insert_ne.
Qed.

Lemma queue_created σ h q c : qinv σ → new_handle σ h → queue_ok q → (∀ d, lock d q = -1) → contents q = replicate (Z.to_nat c) [] →
  qinv (with_queue h q [Made h c] σ (kernel σ) (new_lists h (lists σ))).
Proof.
  intros Hv (Hn & Hns & Hnr) Hqo Hlk Hcon. pose proof Hv as [Vs Vr Vq Vt Vm Vl Vw Vh].
  assert (sinv (owed σ) (kernel σ) (new_lists h (lists σ))) as Hi.
  { unfold new_lists. apply sinv_list_init; [apply sinv_list_init; [done|apply (wait_list_event ToSend h)|done]|apply (wait_list_event ToReceive h)|].
    cbn [with_seq seqs]. rewrite lookup_insert_ne; [done|]. intros E. by destruct (wait_list_inj ToSend h ToReceive h E). }
  assert (shrink (lists σ) (new_lists h (lists σ))) as Hs.
  { split; [done|]. intros l _ [x Hl]. rewrite new_lists_seqs. repeat case_decide; eauto. }
  assert (∀ d t, cont (lists σ) !! t ≠ Some (wait_list d h)) as Hnone.
  { intros d t Hc. destruct (w_cont _ (sinv_wf _ _ _ Vs) _ _ Hc) as (xs & e & Hx & _). destruct d; cbn [wait_list] in Hx; congruence. }
  unfold with_queue. split; cbn [kernel lists queues threads history owed]; try done.
  - intros h' q' [[<- <-]|[Hne Hq']]%lookup_insert_Some; (split; [done || by eapply Vq|]); intros d.
    + rewrite new_lists_seqs. destruct d; repeat case_decide; eauto; done.
    + apply Hs; [done|]. by eapply Vq.
  - intros t th Ht. destruct (Vt t th Ht) as [(q0 & Hq0 & ? & ?) ? ? ? ? ? ? ?]. split; try done.
    exists q0. rewrite lookup_insert_ne by congruence. done.
  - intros h' q' d t [[<- <-]|[Hne Hq']]%lookup_insert_Some Hc; [by destruct (Hnone d (xEventListItem t))|by eapply Vm].
  - intros h' q' d [[<- <-]|[Hne Hq']]%lookup_insert_Some Hl; [by destruct (Hlk d)|by eapply Vl].
  - intros Hfa h' q' d [[<- <-]|[Hne Hq']]%lookup_insert_Some.
    + split; [by rewrite Hlk|]. intros [Hp|(t & th & Ht & [Hon _]%on_iff & _)].
      * destruct Hp. apply items_nil; [by eapply sinv_wf|]. intros t. apply Hnone.
      * destruct (to_queue _ _ _ _ _ (Vt t th Ht)) as (q0 & Hq0 & _). congruence.
    + destruct (Vw Hfa h' q' d Hq') as [? Hmt]. split; [done|].
      exact (matched_shrink _ _ _ _ _ _ (sinv_wf _ _ _ Vs) (sinv_wf _ _ _ Hi) Hs Hmt).
  - intros h' q' [[<- <-]|[Hne Hq']]%lookup_insert_Some; rewrite replay_app; cbn [fold_left play].
    + rewrite decide_True by done. by rewrite Hcon.
    + rewrite decide_False by done. by apply Vh.
Qed.

(** What is asked of pvPortMalloc, when it does not overflow *)
Lemma queue_request_exact n z : 0 ≤ n → 0 ≤ z → sizeof_Queue_t + n * z < 2 ^ 32 → queue_request n z = sizeof_Queue_t + n * z.
Proof.
  intros Hn Hz Ho. pose proof (Z.mul_nonneg_nonneg n z Hn Hz). unfold queue_request, xQueueSizeInBytes, sizeof_Queue_t in *.
  destruct (Z.eqb_spec z 0) as [-> |_]; [rewrite Z.mul_0_r; done|]. by rewrite (u32_id (n * z)), u32_id by lia.
Qed.

(** The fields of a new queue *)
Definition new_fields (n z p : Z) (junk : list Z) : Queue_t := reset_fields (Queue (if z =? 0 then p else u32 (p + sizeof_Queue_t)) 0 0 0 0 n z 0 0 junk).

Lemma wp_queue_create σ h n z p junk (Q : option Queue_t → sched → astate → Prop) : new_handle σ h → storage n z p junk →
  (p = 0 → Q None (kernel σ) (lists σ)) →
  (p ≠ 0 → queue_ok (new_fields n z p junk) → contents (new_fields n z p junk) = [] → Q (Some (new_fields n z p junk)) (kernel σ) (new_lists h (lists σ))) →
  wp (xQueueGenericCreate h n z p junk) Q (kernel σ) (lists σ).
Proof.
  intros (Hn & Hns & Hnr) (Hlen & Hsz & Hst) H0 HQ. unfold xQueueGenericCreate. destruct (Z.eqb_spec p 0) as [-> |Hp]; cbn [negb]; [apply wp_ret; auto|].
  apply wp_bind. unfold prvInitialiseNewQueue, xQueueGenericReset. cbv zeta. cbn [negb]. do 2 apply wp_bind. apply wp_list_init; [done|]. apply wp_list_init.
  { cbn [with_seq seqs]. rewrite lookup_insert_ne; [done|]. intros E. by destruct (wait_list_inj ToSend h ToReceive h E). }
  apply wp_ret, wp_ret. unfold new_fields in HQ. set (q := Queue _ _ _ _ _ _ _ _ _ _) in *. destruct (reset_ok q) as [Hqo Hcon]; [done|done| |].
  { subst q. cbn [uxItemSize uxLength bytes pcHead]. intros Hz. destruct (Hst Hz Hp) as (? & ? & ? & ? & ?). assert ((z =? 0) = false) as -> by lia.
    pose proof (Z.mul_nonneg_nonneg n z). rewrite (queue_request_exact n z) in * by lia. unfold sizeof_Queue_t in *. rewrite u32_id by lia. split_and!; lia. }
  by apply HQ.
Qed.

Lemma qinv_same σ : qinv σ → qinv (State (kernel σ) (lists σ) (queues σ) (threads σ) (history σ) (owed σ)).
Proof. by destruct σ. Qed.

Lemma step_create h n z p junk σ : qinv σ → permitted fair (Create h n z p junk) σ → ∃ σ', step (Create h n z p junk) σ = Some σ' ∧ qinv σ'.
Proof.
  intros Hv (_ & Hn & Hst). cbn [step]. apply step_run, wp_queue_create; [done|done|intros _; by apply qinv_same|].
  intros _ Hqo Hc. cbn [new_queue]. apply queue_created; try done. by intros [].
Qed.

Lemma step_counting h n c p σ : qinv σ → permitted fair (CreateCounting h n c p) σ → ∃ σ', step (CreateCounting h n c p) σ = Some σ' ∧ qinv σ'.
Proof.
  intros Hv (_ & Hn & Hlen & Hc). cbn [step]. apply step_run. unfold xQueueCreateCountingSemaphore, queueSEMAPHORE_QUEUE_ITEM_LENGTH.
  apply wp_bind, wp_queue_create; [done|split_and!; lia|intros _; apply wp_ret; by apply qinv_same|].
  intros _ Hqo _. apply wp_ret. cbn [new_queue]. destruct (count_ok _ c Hqo eq_refl Hc) as [? ?]. apply queue_created; try done. by intros [].
Qed.

(** Every event that may happen leads to a state with the invariant. *)
Lemma step_ok e σ : qinv σ → permitted fair e σ → ∃ σ', step e σ = Some σ' ∧ qinv σ'.
Proof.
  destruct e; [apply step_kernel|apply step_create|apply step_counting|apply step_reset|apply step_begin|apply step_go|
    apply step_send_isr|apply step_give_isr|apply step_receive_isr|apply step_peek_isr].
Qed.

(** ** Runs over the linked rings *)

(** A system whose scheduler has been started makes queues and uses them. *)
Inductive reachq : spec → mem → Prop :=
| reachq_start o s m A : reach o s m A → xSchedulerRunning s = true → reachq (State s A ∅ ∅ [] o) m
| reachq_step σ m e σ' m' : reachq σ m → permitted fair e σ → step e σ = Some σ' → step e (over σ m) = Some (over σ' m') → reachq σ' m'.

Lemma reachq_inv σ m : reachq σ m → rep m (lists σ) ∧ qinv σ.
Proof.
  induction 1 as [o s m A Hre Hr|σ m e σ' m' _ [Hm Hv] Hp E Em].
  - destruct (reach_running _ _ _ _ Hre Hr) as [Hm Hi]. split; [done|]. split; cbn [kernel lists queues threads history owed]; intros *; (done || by rewrite lookup_empty).
  - destruct (sim_system e σ m σ' Hm E) as (m2 & Em2 & Hr2). assert (over σ' m2 = over σ' m') as Eo by congruence. injection Eo as ->. split; [done|].
    destruct (step_ok e σ Hv Hp) as (σ2 & E2 & ?). assert (σ2 = σ') as -> by congruence. done.
Qed.

Lemma reachq_next σ m e : reachq σ m → permitted fair e σ → ∃ σ' m', step e σ = Some σ' ∧ step e (over σ m) = Some (over σ' m') ∧ reachq σ' m'.
Proof.
  intros Hre Hp. destruct (reachq_inv _ _ Hre) as [Hm Hv]. destruct (step_ok e σ Hv Hp) as (σ' & E & _). destruct (sim_system e σ m σ' Hm E) as (m' & Em & _).
  exists σ', m'. split_and!; [done|done|by eapply reachq_step].
Qed.

(** C6. Queues and scheduler together are safe: in every run, fair or not, wherever tasks
    stand inside their queue calls, every call that is [permitted], and every next piece of
    a call that is under way, runs to its end on the linked rings of list.c: no item of a
    list is inserted twice or removed from none, no byte outside the block that
    pvPortMalloc gave is read or written.  The rings stay the sequences of the
    specification and the scheduler keeps its invariant.  Runs in which waiting tasks are
    deleted, lock counts wrap around or a reset leaves tasks waiting are included.

    [permitted] asks: handles are of queues and tasks that exist; items have the item size;
    overwriting only a queue of length one with item data ([queue_overwrite_semaphore] says
    why); a created queue's size, with the structure, fits 32 bits
    ([queue_size_overflow]), and its block is as large as the request and lies above one
    item size and below the last byte; the caller is ready and blocks only with the
    scheduler running; the assertions of tasks.c and queue.c hold. *)
Theorem queue_system_safe σ m e : reachq σ m → permitted fair e σ →
  ∃ σ' m', step e (over σ m) = Some (over σ' m') ∧ reachq σ' m' ∧ rep m' (lists σ') ∧ sinv (owed σ') (kernel σ') (lists σ').
Proof.
  intros Hre Hp. destruct (reachq_next σ m e Hre Hp) as (σ' & m' & _ & Em & Hre'). destruct (reachq_inv _ _ Hre') as [? Hv]. exists σ', m'. split_and!; [done|done|done|apply Hv].
Qed.


(** C4. A queue is a bounded sequence: in every run with any number of senders, receivers
    and interrupt handlers, fair or not, its items are the ones that its history gives, in
    which sent items enter at the end that was asked for or replace the only one, every
    item that a receiver took or looked at was the first, and a call that found the queue
    empty was right.  uxQueueMessagesWaiting and uxQueueSpacesAvailable count the items and
    the free places, and there are never more items than places.  Only a queue of length
    one with item data is overwritten. *)
Theorem queue_delivers σ m h q : reachq σ m → queues σ !! h = Some q →
  replay h (history σ) = Some (contents q) ∧ uxQueueMessagesWaiting q = zlen (contents q) ∧
  uxQueueSpacesAvailable q = uxLength q - zlen (contents q) ∧ zlen (contents q) ≤ uxLength q.
Proof.
  intros [_ Hv]%reachq_inv Hq. destruct (v_queue _ Hv _ _ Hq) as [Hqo _]. pose proof (q_count _ Hqo). pose proof (q_len _ Hqo).
  rewrite (queue_contents_length q) by lia. unfold uxQueueSpacesAvailable. rewrite u32_id by lia. split_and!; [by apply (v_history _ Hv)|done|done|lia].
Qed.

(** ** Calls that do not wait *)

(** What a call does and returns that finds the queue as it is *)
Definition reply (h : nat) (r : request) (q : Queue_t) : entry :=
  match r with
  | Send item pos => if decide (fits q pos) then Put h pos item else Full h
  | Receive peek => match contents q with [] => Empty h | x :: _ => if peek : bool then Peeked h x else Took h x end
  end.

Lemma bind_inv {X Y} (f : kcall astate X) (g : X → kcall astate Y) s A y s' A' : (x ← f; g x) s A = Some (y, s', A') →
  ∃ x s1 A1, f s A = Some (x, s1, A1) ∧ g x s1 A1 = Some (y, s', A').
Proof. unfold mbind, kcall_bind. destruct (f s A) as [[[x s1] A1]|]; [|done]. intros E. by exists x, s1, A1. Qed.

Lemma advance_poll q th s A q' x es s' A' : here th = Try None → xTicksToWait th = 0 → queue_ok q → request_fits (what th) q →
  advance q th s A = Some (q', x, es, s', A') → x = None ∧ es = [reply (xQueue th) (what th) q].
Proof.
  intros Hh Hk Hqo Hf. unfold advance. rewrite Hh, Hk. cbv zeta. pose proof (q_count _ Hqo) as Hcnt. destruct (what th) as [item pos|peek]; cbn [reply].
  - destruct Hf as [Hlen Hov]. intros ([q1 r] & s1 & A1 & E & E2)%bind_inv. revert E. unfold xQueueGenericSend_try. destruct (_ || _) eqn:Ef.
    + pose proof (fits_room _ _ Ef Hov) as Hfit. destruct (put_ok q item pos Hqo Hlen Hfit) as (q2 & -> & _).
      intros ([b q3] & s2 & A2 & _ & E)%bind_inv. apply bind_inv in E as ([] & s3 & A3 & _ & [= <- <- <- <-]). injection E2 as <- <- <- <- <-. by rewrite decide_True.
    + intros [= <- <- <- <-]. injection E2 as <- <- <- <- <-. split; [done|]. rewrite decide_False; [done|]. apply orb_false_iff in Ef as [Ef1 Ef2]. apply bool_decide_eq_false in Ef2.
      zbool. unfold fits. rewrite decide_False by done. lia.
  - intros ([q1 r] & s1 & A1 & E & E2)%bind_inv. revert E. unfold xQueueGenericReceive_try. cbv zeta. destruct (Z.ltb_spec 0 (uxMessagesWaiting q)) as [Hn|Hn].
    + destruct (take_ok q Hqo Hn) as (buf & q2 & -> & -> & _). intros ([b q3] & s2 & A2 & E1 & E)%bind_inv. injection E1 as <- <- <- <-.
      destruct peek; cbn [negb] in E; apply bind_inv in E as ([] & s3 & A3 & _ & [= <- <- <- <-]); by injection E2 as <- <- <- <- <-.
    + intros [= <- <- <- <-]. injection E2 as <- <- <- <- <-. rewrite contents_nil by lia. done.
Qed.

Lemma step_go_inv σ σ' t th q : pxCurrentTCB (kernel σ) = Some t → threads σ !! t = Some th → queues σ !! xQueue th = Some q → step Go σ = Some σ' →
  ∃ q' x es s' A', advance q th (kernel σ) (lists σ) = Some (q', x, es, s', A') ∧
    σ' = State s' A' (<[xQueue th := q']> (queues σ)) (update t x (threads σ)) (history σ ++ es) (owed σ).
Proof.
  intros Hcur Hth Hq. cbn [step]. rewrite Hcur. cbn [mbind option_bind]. rewrite Hth. cbn [mbind option_bind]. rewrite Hq. cbn [mbind option_bind].
  unfold call_kernel. destruct (advance q th (kernel σ) (lists σ)) as [[[[[q' x] es] s'] A']|]; [|done]. intros [= <-]. by exists q', x, es, s', A'.
Qed.

(** C29. A call with no time to wait returns at once with the answer that the queue
    determines: an item is sent if it fits and errQUEUE_FULL is returned if not; the first
    item is received or looked at, and errQUEUE_EMPTY is returned if there is none.  The
    task is then outside of the call, and nothing else is recorded. *)
Theorem queue_poll σ m h r : reachq σ m → permitted fair (Begin h r 0) σ →
  ∃ q (σ1 σ' : spec) m', queues σ !! h = Some q ∧ step (Begin h r 0) (over σ m) = Some (over σ1 m) ∧ step Go (over σ1 m) = Some (over σ' m') ∧ reachq σ' m' ∧
    threads σ' = threads σ ∧ history σ' = history σ ++ [reply h r q].
Proof.
  intros Hre Hp. destruct (reachq_next _ _ _ Hre Hp) as (σ1 & m1 & E1 & Em1 & Hre1). destruct Hp as (Hout & (q & Hq & Hf)%on_queue_inv & _).
  apply outside_inv in Hout as (t & Hcur & Ht). cbn [step over kernel] in E1, Em1. rewrite Hcur in E1, Em1. cbn [mbind option_bind] in E1, Em1.
  injection E1 as <-. injection Em1 as <-. set (th := Thread h r 0 (Try None)) in *. set (σ1 := State _ _ _ _ _ _) in Hre1.
  assert (threads σ1 !! t = Some th) as Hth by apply lookup_insert_eq.
  destruct (reachq_next σ1 m Go Hre1) as (σ' & m' & E2 & Em2 & Hre2); [unfold permitted, outside; subst σ1; cbn [kernel threads]; rewrite Hcur; cbn; by rewrite lookup_insert_eq|].
  exists q, σ1, σ', m'. destruct (reachq_inv _ _ Hre) as [_ Hv]. destruct (v_queue _ Hv _ _ Hq) as [Hqo _].
  destruct (step_go_inv σ1 σ' t th q Hcur Hth Hq E2) as (q' & x & es & s' & A' & E & ->).
  destruct (advance_poll q th _ _ _ _ _ _ _ eq_refl eq_refl Hqo Hf E) as [-> ->]. split_and!; [done|cbn [step over kernel]; by rewrite Hcur|done|done| |done].
  by apply delete_insert_id.
Qed.

(** ** Memory for a queue *)

Section creation.
Context {S : Type} `{Allocator S}.
(** The heap does not reach to the last byte, and lies above an item's size. *)
Context (heap_low : a_high ≤ 2 * a_low) (heap_high : a_high < 2 ^ 32) (heap_null : 0 < a_low).

(** What pvPortMalloc gives is enough, when the size does not overflow. *)
Lemma heap_storage s live n z : a_ok s live → 0 < n < 2 ^ 32 → 0 ≤ z < 2 ^ 32 → sizeof_Queue_t + n * z < 2 ^ 32 →
  ∃ p s', a_malloc (queue_request n z) s = Some (p, s') ∧ a_ok s' (if p =? 0 then live else <[p := sizeof_Queue_t + n * z]> live) ∧
    ∀ junk, zlen junk = n * z → storage n z p junk.
Proof using heap_low heap_high heap_null.
  intros Hs Hn Hz Ho. assert (0 ≤ n * z) as H0 by (apply Z.mul_nonneg_nonneg; lia).
  pose proof (queue_request_exact n z ltac:(lia) ltac:(lia) Ho) as Er. unfold sizeof_Queue_t in *. rewrite Er in *.
  destruct (a_answers s live (72 + n * z) Hs ltac:(lia)) as (p & s' & E & Hs'). exists p, s'.
  split_and!; [done|done|]. intros junk Hj. split_and!; [lia|lia|lia|lia|]. intros Hz0 Hp. rewrite (proj2 (Z.eqb_neq p 0)) in Hs' by done.
  destruct (a_inside s' _ p (72 + n * z) Hs' (lookup_insert_eq _ _ _)) as [Hlo Htop].
  assert (z ≤ n * z) by nia. unfold sizeof_Queue_t. rewrite Er. split_and!; lia.
Qed.

(** C28. xQueueGenericCreate and the heap fit together, for heap_1.c, heap_4.c and every
    other allocator that keeps the contract: when the size of the queue does not overflow
    32 bits, pvPortMalloc returns NULL, and then no queue is made, or a block in which the
    queue and its storage lie; the queue is empty, has the length and item size that were
    asked for, and every run may go on with it. *)
Theorem queue_create_fits s live σ m h n z : a_ok s live → reachq σ m → outside σ → new_handle σ h →
  0 < n < 2 ^ 32 → 0 ≤ z < 2 ^ 32 → sizeof_Queue_t + n * z < 2 ^ 32 →
  ∃ p s', a_malloc (queue_request n z) s = Some (p, s') ∧ a_ok s' (if p =? 0 then live else <[p := sizeof_Queue_t + n * z]> live) ∧
    ∀ junk, zlen junk = n * z → ∃ (σ' : spec) m', step (Create h n z p junk) (over σ m) = Some (over σ' m') ∧ reachq σ' m' ∧
      if p =? 0 then queues σ' !! h = None
      else ∃ q, queues σ' !! h = Some q ∧ contents q = [] ∧ uxLength q = n ∧ uxItemSize q = z ∧
        (0 < z → pcHead q = p + sizeof_Queue_t ∧ pcTail q = p + (sizeof_Queue_t + n * z)).
Proof using heap_low heap_high heap_null.
  intros Hre Hrq Hout Hnew Hn Hz Hs. destruct (heap_storage s live n z Hre Hn Hz Hs) as (p & s' & E & Hre' & Hst).
  exists p, s'. split_and!; [done|done|]. intros junk Hj. specialize (Hst junk Hj). destruct (reachq_next σ m (Create h n z p junk) Hrq (conj Hout (conj Hnew Hst))) as (σ' & m' & E1 & Em & Hrq').
  exists σ', m'. split_and!; [done|done|]. pose proof Hnew as (Hq & _). destruct (wp_queue_create σ h n z p junk
    (λ x _ _, if p =? 0 then x = None else x = Some (new_fields n z p junk) ∧ queue_ok (new_fields n z p junk) ∧ contents (new_fields n z p junk) = []) Hnew Hst) as (x & s1 & A1 & Ec & HQ).
  { by intros ->. }
  { intros Hp ? ?. by rewrite (proj2 (Z.eqb_neq _ _) Hp). }
  cbn [step] in E1. unfold call_kernel in E1. rewrite Ec in E1. injection E1 as <-. destruct (Z.eqb_spec p 0) as [_|Hp]; [by subst x|].
  destruct HQ as (-> & _ & Hcon). exists (new_fields n z p junk). split_and!; [apply lookup_insert_eq|done|done|done|]. intros Hz0.
  destruct Hst as (_ & _ & Hst). destruct (Hst Hz0 Hp) as (_ & _ & _ & ? & Htop). rewrite (queue_request_exact n z) in Htop by lia. unfold new_fields. cbn [reset_fields pcHead pcTail uxLength uxItemSize].
  rewrite (proj2 (Z.eqb_neq z 0)) by lia. assert (0 ≤ n * z) by nia. unfold sizeof_Queue_t in *. rewrite !(u32_id (p + 72)), (u32_id (n * z)), u32_id by lia. lia.
Qed.

End creation.

End fair.

(** C15. In a fair run no wake-up is lost: when no task is deleted inside a queue call,
    interrupt handlers transfer fewer than 128 items while a queue is locked and a queue is
    reset only when at most one task waits to send, then while a task waits in a list of a
    queue, every message (for a receiver) and every free place (for a sender) is matched by
    a task that was taken out of the list, or has just called, and whose next use of the
    queue is to try again, or it is counted in the lock, for which the running task will
    still wake one.  So when the running task is not inside a queue call and nobody is
    going to try, a task waits to receive only from an empty queue and to send only to a
    full one.  Without the three rules it is false of the code: [queue_lock_overflow] and
    [queue_reset_wakes_one]. *)
Theorem queue_no_lost_wakeup σ m h q d t : reachq true σ m → queues σ !! h = Some q → cont (lists σ) !! xEventListItem t = Some (wait_list d h) →
  (∃ th, threads σ !! t = Some th ∧ xQueue th = h ∧ dir_of (what th) = d) ∧
  avail d q ≤ Z.of_nat (size (awake (lists σ) (threads σ) h d)) + Z.max 0 (lock d q) ∧
  (outside σ → awake (lists σ) (threads σ) h d = ∅ → avail d q = 0).
Proof.
  intros [_ Hv]%reachq_inv Hq Hc. destruct (v_member _ Hv _ _ _ _ Hq Hc) as (th & Ht & Hon & _). apply on_iff in Hon as [? ?].
  assert (items (lists σ) (wait_list d h) ≠ []) as Hne.
  { apply (items_cont _ _ _ (sinv_wf _ _ _ (v_sched _ Hv))) in Hc. intros E. rewrite E in Hc. by apply elem_of_nil in Hc. }
  destruct (v_wake _ Hv eq_refl _ _ d Hq) as [_ Hw]. specialize (Hw (or_introl Hne)). split_and!; [by exists th|done|].
  intros Hout He. rewrite He, size_empty in Hw. rewrite (unlocked_outside true σ h q d Hv Hout Hq) in Hw.
  destruct (v_queue _ Hv _ _ Hq) as [Hqo _]. pose proof (q_count _ Hqo). destruct d; cbn in *; lia.
Qed.

(** ** A system with a queue *)

Definition play_event (e : event) (x : spec * mem) : option (spec * mem) :=
  let '(σ, m) := x in
  if decide (permitted true e σ) then match step e σ, step e (over σ m) with Some σ', Some c => Some (σ', lists c) | _, _ => None end else None.
Fixpoint play_events (es : list event) (x : spec * mem) : option (spec * mem) :=
  match es with [] => Some x | e :: es => x ← play_event e x; play_events es x end.

Lemma play_events_reachq es : ∀ σ m σ' m', reachq true σ m → play_events es (σ, m) = Some (σ', m') → reachq true σ' m'.
Proof.
  induction es as [|e es IH]; intros σ m σ' m' Hre; cbn [play_events]; [by intros [= <- <-]|].
  destruct (play_event e (σ, m)) as [[σ1 m1]|] eqn:E; [|done]. cbn [mbind option_bind]. apply IH. cbn in E. case_decide as Hp; [|done].
  destruct (reachq_next true σ m e Hre Hp) as (σ2 & m2 & E1 & E2 & Hre2). rewrite E1, E2 in E. by injection E as <- <-.
Qed.

Definition demo_start : spec * mem := (State demo_s demo_A ∅ ∅ [] false, demo_m).
(** The task 0 waits for an item and the task 1 runs. *)
Definition demo_wait : list event := [Create 1 2 1 65536 [0; 0]; Begin 1 (Receive false) portMAX_DELAY; Go; Go; Go; Go; Go; Go; Go; Go; Go; Go].
(** The task 0 is about to wait when an interrupt handler sends to the locked queue. *)
Definition demo_locked : list event := [Create 1 2 1 65536 [0; 0]; Begin 1 (Receive false) portMAX_DELAY; Go; Go; Go; Go; Go; SendFromISR 1 [5] queueSEND_TO_BACK true].
Definition run_demo (es : list event) : spec * mem := match play_events es demo_start with Some x => x | None => demo_start end.

Lemma demo_reachq es : play_events es demo_start ≠ None → reachq true (run_demo es).1 (run_demo es).2.
Proof.
  unfold run_demo. intros Hne. destruct (play_events es demo_start) as [[σ m]|] eqn:E; [|done]. eapply (play_events_reachq es); [|exact E].
  apply (reachq_start true false); [apply demo_reach|apply demo_facts].
Qed.

Definition demo_sigma (es : list event) : spec := (run_demo es).1.
Definition demo_mem (es : list event) : mem := (run_demo es).2.
Lemma demo_wait_reachq : reachq true (demo_sigma demo_wait) (demo_mem demo_wait).
Proof. apply demo_reachq. vm_compute. discriminate. Qed.
Lemma demo_locked_reachq : reachq true (demo_sigma demo_locked) (demo_mem demo_locked).
Proof. apply demo_reachq. vm_compute. discriminate. Qed.
Definition demo_queue : Queue_t := Queue 65608 65610 65608 65609 0 2 1 (-1) (-1) [0; 0].
Definition demo_queue_locked : Queue_t := Queue 65608 65610 65609 65609 1 2 1 0 1 [5; 0].
Lemma demo_wait_queue : queues (demo_sigma demo_wait) !! 1%nat = Some demo_queue.
Proof. vm_compute. reflexivity. Qed.
Lemma demo_locked_queue : queues (demo_sigma demo_locked) !! 1%nat = Some demo_queue_locked.
Proof. vm_compute. reflexivity. Qed.
Lemma demo_wait_list : cont (lists (demo_sigma demo_wait)) !! xEventListItem 0 = Some (wait_list ToReceive 1).
Proof. vm_compute. reflexivity. Qed.
Lemma demo_wait_history : history (demo_sigma demo_wait) = [Made 1 0].
Proof. vm_compute. reflexivity. Qed.
Lemma demo_locked_go : permitted true Go (demo_sigma demo_locked).
Proof. apply (bool_decide_unpack _). vm_compute. exact I. Qed.
Lemma demo_wait_send : permitted true (Begin 1 (Send [5] queueSEND_TO_BACK) 0) (demo_sigma demo_wait).
Proof. apply (bool_decide_unpack _). vm_compute. exact I. Qed.
Lemma demo_wait_current : pxCurrentTCB (kernel (demo_sigma demo_wait)) = Some 1%nat ∧ threads (demo_sigma demo_wait) !! 1%nat = None.
Proof. split; vm_compute; reflexivity. Qed.
Lemma demo_wait_outside : outside (demo_sigma demo_wait).
Proof. destruct demo_wait_current as [H1 H2]. unfold outside. rewrite H1. exact H2. Qed.
Lemma demo_wait_new : new_handle (demo_sigma demo_wait) 2.
Proof. split_and!; vm_compute; reflexivity. Qed.
Lemma demo_awake : awake (lists (demo_sigma demo_wait)) (threads (demo_sigma demo_wait)) 1 ToReceive = ∅.
Proof. vm_compute. reflexivity. Qed.

#[local] Opaque demo_sigma demo_mem.

Lemma queue_system_safe_witness : ∃ (σ' : spec) m', step Go (over (demo_sigma demo_locked) (demo_mem demo_locked)) = Some (over σ' m') ∧ rep m' (lists σ').
Proof.
  destruct (queue_system_safe _ _ _ Go demo_locked_reachq demo_locked_go) as (σ' & m' & E & _ & Hr & _). exists σ', m'. split; [exact E|exact Hr].
Defined.


Lemma queue_delivers_witness : replay 1 (history (demo_sigma demo_locked)) = Some [[5]] ∧ uxQueueSpacesAvailable demo_queue_locked = 1.
Proof.
  destruct (queue_delivers _ _ _ 1 _ demo_locked_reachq demo_locked_queue) as (H1 & _ & H3 & _). split; [exact H1|exact H3].
Defined.

Lemma queue_no_lost_wakeup_witness : avail ToReceive demo_queue = 0 ∧ cont (lists (demo_sigma demo_wait)) !! xEventListItem 0 = Some (wait_list ToReceive 1).
Proof.
  split; [|exact demo_wait_list].
  exact (proj2 (proj2 (queue_no_lost_wakeup _ _ 1 demo_queue ToReceive 0 demo_wait_reachq demo_wait_queue demo_wait_list)) demo_wait_outside demo_awake).
Defined.

Lemma queue_poll_witness : ∃ (σ1 σ' : spec) m', step (Begin 1 (Send [5] queueSEND_TO_BACK) 0) (over (demo_sigma demo_wait) (demo_mem demo_wait)) = Some (over σ1 (demo_mem demo_wait)) ∧
  step Go (over σ1 (demo_mem demo_wait)) = Some (over σ' m') ∧ history σ' = [Made 1 0; Put 1 queueSEND_TO_BACK [5]].
Proof.
  destruct (queue_poll _ _ _ 1 (Send [5] queueSEND_TO_BACK) demo_wait_reachq demo_wait_send) as (q & σ1 & σ' & m' & Hq & E1 & E2 & _ & _ & Hh).
  exists σ1, σ', m'. split; [exact E1|]. split; [exact E2|]. rewrite Hh, demo_wait_history. rewrite demo_wait_queue in Hq. injection Hq as <-. reflexivity.
Defined.

(** The heap at address 65536, with heap_1.c *)
Lemma demo_heap1 : 0 < 65536 ∧ 65536 + RtosHeap.configTOTAL_HEAP_SIZE < 2 ^ 32.
Proof. split; reflexivity. Qed.

Lemma queue_create_fits_witness : ∃ s' (σ' : spec) m', heap1_malloc 65536 (queue_request 3 4) heap1_reset = (65544, s') ∧
  step (Create 2 3 4 65544 (zeros 12)) (over (demo_sigma demo_wait) (demo_mem demo_wait)) = Some (over σ' m') ∧ is_Some (queues σ' !! 2%nat).
Proof.
  destruct (@queue_create_fits true heap1 (heap1_allocator 65536 demo_heap1) ltac:(discriminate) eq_refl eq_refl heap1_reset ∅ _ _ 2 3 4 (heap1_ok_reset 65536)
    demo_wait_reachq demo_wait_outside demo_wait_new ltac:(split; reflexivity) ltac:(split; [discriminate|reflexivity]) eq_refl) as (p & s' & E & _ & H).
  injection E as <- Es. destruct (H (zeros 12) eq_refl) as (σ' & m' & E' & _ & q & Hq & _). exists s', σ', m'. split; [rewrite <- Es; reflexivity|].
  split; [exact E'|]. exists q. exact Hq.
Defined.

(** ** Limits of the code *)

(** The lock counts with 8 bits: the item number 128 that interrupt handlers send to a
    locked queue makes the count negative, and unlocking wakes no waiting task. *)
Theorem queue_lock_overflow h q flag s (A : astate) : cTxLock q = 127 → uxMessagesWaiting q < uxLength q →
  ∃ q', xQueueGiveFromISR h q flag s A = Some (q', true, false, s, A) ∧ cTxLock q' = -128 ∧ prvUnlockQueue_tx h q' s A = Some (with_tx queueUNLOCKED q', s, A).
Proof.
  intros Hl Hn. unfold xQueueGiveFromISR. rewrite (proj2 (Z.ltb_lt _ _) Hn), Hl. eexists. split; [reflexivity|]. split; reflexivity.
Qed.

(** The size of the storage is computed with 32 bits: for 2^24 items of 256 bytes only the
    queue itself is allocated, and the first item is written behind the block. *)
Theorem queue_size_overflow : queue_request (2 ^ 24) 256 = sizeof_Queue_t ∧
  ∀ p item, prvCopyDataToQueue (new_fields (2 ^ 24) 256 p []) item queueSEND_TO_BACK = None.
Proof.
  split; [reflexivity|]. intros p item. unfold prvCopyDataToQueue, copy_in. cbn [new_fields reset_fields uxItemSize]. rewrite decide_True by done.
  change (256 =? 0) with false. cbn [bytes]. destruct (load 0 _ item) as [x|] eqn:E; [|done]. cbn [mbind option_bind].
  unfold new_fields, reset_fields. cbn [bytes]. match goal with |- context [store ?o x ?b] => destruct (store o x b) as [l|] eqn:Es end; [|done]. apply load_Some_inv in E as (_ & _ & Hl & ->). apply store_Some_inv in Es as (Hs & Hs2 & _).
  rewrite slice_length in Hs2 by lia. change (zlen []) with 0 in Hs2. lia.
Qed.

(** Overwriting in a queue without item data, a binary semaphore that is full, counts one
    more message than the queue has places. *)
Theorem queue_overwrite_semaphore : ∃ q, prvCopyDataToQueue (with_count 1 (new_fields 1 0 65536 [])) [] queueOVERWRITE = Some (false, q) ∧
  uxLength q = 1 ∧ uxMessagesWaiting q = 2.
Proof. eexists. split; [reflexivity|]. split; reflexivity. Qed.

(** Two tasks wait to send to a full queue that is then reset: only the first is woken and
    sends its item; the other waits on, although a place is free and nobody is left that
    was woken for it. *)
Definition demo_senders : list event :=
  [Create 1 2 1 65536 [0; 0]; Begin 1 (Send [4] queueSEND_TO_BACK) 0; Go; Begin 1 (Send [5] queueSEND_TO_BACK) 0; Go] ++
  (Begin 1 (Send [6] queueSEND_TO_BACK) portMAX_DELAY :: replicate 10 Go) ++ (Begin 1 (Send [7] queueSEND_TO_BACK) portMAX_DELAY :: replicate 10 Go).

Theorem queue_reset_wakes_one :
  ∃ (σ σ1 σ2 : spec) q, play_events demo_senders demo_start = Some (σ, (run_demo demo_senders).2) ∧ step (Reset 1) σ = Some σ1 ∧ step Go σ1 = Some σ2 ∧
    queues σ2 !! 1%nat = Some q ∧ avail ToSend q = 1 ∧ lock ToSend q = -1 ∧ cont (lists σ2) !! xEventListItem 1 = Some (wait_list ToSend 1) ∧
    awake (lists σ2) (threads σ2) 1 ToSend = ∅.
Proof.
  eexists _, _, _, _. split; [vm_compute; reflexivity|]. split; [vm_compute; reflexivity|]. split; [vm_compute; reflexivity|]. split_and!; vm_compute; reflexivity.
Qed.

End RtosQueueThm.
