(* ===== verification/RtosLibc.v ===== *)
(** * Memory functions of the FreeRTOS demo

    Models ldd-k4/arm/FreeRTOS-GCC-ARM926ejs/Demo/nostdlib.c, the memset, memcpy and strcpy
    that the demo is linked with.  Memory is a function from addresses of 32 bits to
    bytes; NULL is address 0.  memcpy copies overlapping blocks as if there were a buffer in
    between, as memmove does. *)

From S2P Require Import Prelude.

Module RtosLibc.

Definition memory : Type := Z → Z.
Definition SIZE_T_MAX : Z := 2 ^ 32 - 1.
Definition minval (x y : Z) : Z := if x <=? y then x else y.
Definition poke (a v : Z) (m : memory) : memory := λ b, if b =? a then v else m b.

(** while (n--) *(p++) = (unsigned char) value; *)
Fixpoint set_loop (n : nat) (p value : Z) (m : memory) : memory :=
  match n with O => m | S n => set_loop n (u32 (p + 1)) value (poke p (u8 value) m) end.

Definition memset (ptr value num : Z) (m : memory) : memory :=
  if ptr =? 0 then m
  else
    let n := if u32 (SIZE_T_MAX - ptr) <? num then u32 (SIZE_T_MAX - ptr) else num in
    set_loop (Z.to_nat n) ptr value m.

(** while (n--) *destptr++ = *srcptr++; *)
Fixpoint forward (n : nat) (destptr srcptr : Z) (m : memory) : memory :=
  match n with O => m | S n => forward n (u32 (destptr + 1)) (u32 (srcptr + 1)) (poke destptr (m srcptr) m) end.
(** while (n--) *destptr-- = *srcptr--; *)
Fixpoint backward (n : nat) (destptr srcptr : Z) (m : memory) : memory :=
  match n with O => m | S n => backward n (u32 (destptr - 1)) (u32 (srcptr - 1)) (poke destptr (m srcptr) m) end.

(** What is returned, and the memory *)
Definition memcpy (destination source num : Z) (m : memory) : Z * memory :=
  if (source =? 0) || (destination =? 0) then (0, m)
  else if source =? destination then (destination, m)
  else
    let n := if (u32 (SIZE_T_MAX - destination) <? num) || (u32 (SIZE_T_MAX - source) <? num)
             then minval (u32 (SIZE_T_MAX - destination)) (u32 (SIZE_T_MAX - source)) else num in
    if (destination <? source) || (u32 (source + n) <=? destination)
    then (destination, forward (Z.to_nat n) destination source m)
    else (destination, backward (Z.to_nat n) (u32 (destination + u32 (n - 1))) (u32 (source + u32 (n - 1))) m).

(** The loop of strcpy, [None] when the string is longer than the fuel *)
Fixpoint copy_string (fuel : nat) (destptr srcptr : Z) (m : memory) : option memory :=
  if m srcptr =? 0 then Some (poke destptr 0 m)
  else match fuel with O => None | S fuel => copy_string fuel (u32 (destptr + 1)) (u32 (srcptr + 1)) (poke destptr (m srcptr) m) end.

Definition strcpy (fuel : nat) (destination source : Z) (m : memory) : option (Z * memory) :=
  if (destination =? 0) || (source =? 0) then Some (0, m)
  else m ← copy_string fuel destination source m; Some (destination, m).

(** ** What they do *)

(** [n] bytes from [s] on appear at [d]. *)
Definition moved (d s n : Z) (m : memory) : memory := λ a, if (d <=? a) && (a <? d + n) then m (s + (a - d)) else m a.
Definition filled (p v n : Z) (m : memory) : memory := λ a, if (p <=? a) && (a <? p + n) then v else m a.

Lemma u32_small x : 0 ≤ x < 2 ^ 32 → u32 x = x.
Proof. intros. apply uwrap_id. unfold fits_u. lia. Qed.

(** Only the bytes that are still to be read matter. *)
Lemma forward_ok n : ∀ d s m, 0 ≤ d → 0 ≤ s → d + Z.of_nat n < 2 ^ 32 → s + Z.of_nat n < 2 ^ 32 → (d < s ∨ s + Z.of_nat n ≤ d) →
  ∀ a, forward n d s m a = moved d s (Z.of_nat n) m a.
Proof.
  induction n as [|n IH]; intros d s m Hd Hs Hdn Hsn Hap a; cbn [forward]; unfold moved.
  { destruct (Z.leb_spec d a), (Z.ltb_spec a (d + Z.of_nat 0)); cbn; (done || lia). }
  rewrite Nat2Z.inj_succ in *. rewrite !u32_small by lia. rewrite IH by lia. unfold moved, poke.
  destruct (Z.leb_spec (d + 1) a), (Z.ltb_spec a (d + 1 + Z.of_nat n)), (Z.leb_spec d a), (Z.ltb_spec a (d + Z.succ (Z.of_nat n))); cbn [andb]; try lia.
  - replace (s + 1 + (a - (d + 1))) with (s + (a - d)) by lia. destruct (Z.eqb_spec (s + (a - d)) d); [lia|done].
  - destruct (Z.eqb_spec a d); [lia|done].
  - destruct (Z.eqb_spec a d) as [-> |]; [f_equal; lia|lia].
  - destruct (Z.eqb_spec a d); [lia|done].
Qed.

Lemma backward_ok n : ∀ d s m, s ≤ d → -1 ≤ s - Z.of_nat n → d < 2 ^ 32 → (n ≠ 0%nat → Z.of_nat n ≤ s) →
  ∀ a, backward n d s m a = moved (d + 1 - Z.of_nat n) (s + 1 - Z.of_nat n) (Z.of_nat n) m a.
Proof.
  induction n as [|n IH]; intros d s m Hsd Hs Hd Hn a; cbn [backward].
  { unfold moved. destruct (Z.leb_spec (d + 1 - Z.of_nat 0) a), (Z.ltb_spec a (d + 1 - Z.of_nat 0 + Z.of_nat 0)); cbn; (done || lia). }
  specialize (Hn ltac:(done)). rewrite Nat2Z.inj_succ in *. rewrite !u32_small by lia. rewrite IH by lia. unfold moved, poke.
  destruct (Z.leb_spec (d - 1 + 1 - Z.of_nat n) a), (Z.ltb_spec a (d - 1 + 1 - Z.of_nat n + Z.of_nat n)),
    (Z.leb_spec (d + 1 - Z.succ (Z.of_nat n)) a), (Z.ltb_spec a (d + 1 - Z.succ (Z.of_nat n) + Z.succ (Z.of_nat n))); cbn [andb]; try lia.
  - destruct (Z.eqb_spec (s - 1 + 1 - Z.of_nat n + (a - (d - 1 + 1 - Z.of_nat n))) d); [lia|]. f_equal. lia.
  - destruct (Z.eqb_spec a d) as [-> |]; [f_equal; lia|lia].
  - destruct (Z.eqb_spec a d); [lia|done].
  - destruct (Z.eqb_spec a d); [lia|done].
Qed.

(** How many bytes memcpy copies: [num], unless a block ends at or behind the last address *)
Definition copied (d s num : Z) : Z := Z.min num (Z.min (SIZE_T_MAX - d) (SIZE_T_MAX - s)).

(** C30. memcpy is memmove of as many bytes as it copies, for any pointers and any size: a
    null pointer gives NULL and changes nothing; otherwise, whether the blocks overlap in
    either direction or not, the destination afterwards holds what the source held before,
    nothing else has changed, and the destination is returned.  All [num] bytes are copied
    unless one of the blocks reaches the last address: that byte is left out
    ([memcpy_last_byte]), as is all behind it. *)
Theorem memcpy_moves d s num m : 0 ≤ d < 2 ^ 32 → 0 ≤ s < 2 ^ 32 → 0 ≤ num < 2 ^ 32 →
  if (s =? 0) || (d =? 0) then memcpy d s num m = (0, m)
  else (memcpy d s num m).1 = d ∧ ∀ a, (memcpy d s num m).2 a = moved d s (copied d s num) m a.
Proof.
  unfold copied, SIZE_T_MAX. intros Hd Hs Hn. unfold memcpy, SIZE_T_MAX. destruct ((s =? 0) || (d =? 0)) eqn:E0; [done|].
  apply orb_false_iff in E0 as [Hs0%Z.eqb_neq Hd0%Z.eqb_neq]. destruct (Z.eqb_spec s d) as [-> |Hne].
  { split; [done|]. intros a. unfold moved. cbn [snd]. replace (d + (a - d)) with a by lia. by destruct (_ && _). }
  rewrite !(u32_small (2 ^ 32 - 1 - _)) by lia. unfold minval. set (n := if _ || _ then _ else num). set (k := Z.min num _).
  assert (n = k) as ->.
  { unfold n, k. destruct (Z.ltb_spec (2 ^ 32 - 1 - d) num), (Z.ltb_spec (2 ^ 32 - 1 - s) num), (Z.leb_spec (2 ^ 32 - 1 - d) (2 ^ 32 - 1 - s)); cbn [orb]; lia. }
  assert (0 ≤ k ∧ d + k < 2 ^ 32 ∧ s + k < 2 ^ 32) as (Hk & Hdk & Hsk) by lia. clearbody k.
  rewrite (u32_small (s + k)) by lia. destruct (Z.ltb_spec d s) as [Hlt|Hge]; cbn [orb].
  { split; [done|]. intros a. cbn [snd]. rewrite forward_ok, Z2Nat.id by lia. done. }
  destruct (Z.leb_spec (s + k) d) as [Hle|Hgt].
  { split; [done|]. intros a. cbn [snd]. rewrite forward_ok, Z2Nat.id by lia. done. }
  assert (0 < k) by lia. split; [done|]. intros a. cbn [snd]. rewrite (u32_small (k - 1)) by lia. rewrite (u32_small (d + (k - 1))), (u32_small (s + (k - 1))) by lia.
  rewrite backward_ok by lia. rewrite Z2Nat.id by lia. unfold moved. replace (d + (k - 1) + 1 - k) with d by lia. replace (s + (k - 1) + 1 - k) with s by lia. done.
Qed.

Lemma memcpy_moves_witness : (memcpy 101 100 3 (λ a, a)).2 102 = 101 ∧ copied 101 100 3 = 3.
Proof.
  split; [|reflexivity].
  pose proof (memcpy_moves 101 100 3 (λ a, a) ltac:(lia) ltac:(lia) ltac:(lia)) as H. cbn [Z.eqb orb] in H. rewrite (proj2 H). reflexivity.
Defined.

(** The last byte of the address space is never written. *)
Lemma memcpy_last_byte : (memcpy (2 ^ 32 - 2) 100 2 (λ a, a)).2 (2 ^ 32 - 1) = 2 ^ 32 - 1 ∧ copied (2 ^ 32 - 2) 100 2 = 1.
Proof. split; reflexivity. Qed.

Lemma set_loop_ok n : ∀ p v m, 0 ≤ p → p + Z.of_nat n < 2 ^ 32 → ∀ a, set_loop n p v m a = filled p (u8 v) (Z.of_nat n) m a.
Proof.
  induction n as [|n IH]; intros p v m Hp Hn a; cbn [set_loop]; unfold filled.
  { destruct (Z.leb_spec p a), (Z.ltb_spec a (p + Z.of_nat 0)); cbn; (done || lia). }
  rewrite Nat2Z.inj_succ in *. rewrite u32_small by lia. rewrite IH by lia. unfold filled, poke.
  destruct (Z.leb_spec (p + 1) a), (Z.ltb_spec a (p + 1 + Z.of_nat n)), (Z.leb_spec p a), (Z.ltb_spec a (p + Z.succ (Z.of_nat n))); cbn [andb]; try lia; try done;
    destruct (Z.eqb_spec a p); (done || lia).
Qed.

(** memset fills the block, except for the last byte of a block that ends at the end of
    the address space. *)
Lemma memset_fills p v num m : 0 < p → 0 ≤ num → p + num ≤ 2 ^ 32 → ∀ a, memset p v num m a = filled p (u8 v) (Z.min num (SIZE_T_MAX - p)) m a.
Proof.
  unfold memset, SIZE_T_MAX. intros Hp Hn Hpn a. rewrite (proj2 (Z.eqb_neq p 0)) by lia. destruct (decide (p = 2 ^ 32)) as [-> |Hne]; [|].
  - assert (num = 0) as -> by lia. change (u32 (2 ^ 32 - 1 - 2 ^ 32)) with (2 ^ 32 - 1). rewrite (proj2 (Z.ltb_ge _ 0)) by lia. cbn [Z.to_nat set_loop].
    unfold filled. destruct (Z.leb_spec (2 ^ 32) a), (Z.ltb_spec a (2 ^ 32 + Z.min 0 (2 ^ 32 - 1 - 2 ^ 32))); cbn [andb]; (done || lia).
  - rewrite u32_small by lia. destruct (Z.ltb_spec (2 ^ 32 - 1 - p) num); rewrite set_loop_ok, Z2Nat.id by lia; [rewrite Z.min_r by lia|rewrite Z.min_l by lia]; done.
Qed.

(** strcpy copies a terminated string that lies apart from its destination. *)
Lemma copy_string_ok n : ∀ fuel d s m, 0 ≤ d → 0 ≤ s → d + Z.of_nat n + 1 < 2 ^ 32 → s + Z.of_nat n + 1 < 2 ^ 32 → (d + Z.of_nat n < s ∨ s + Z.of_nat n < d) →
  m (s + Z.of_nat n) = 0 → (∀ i, 0 ≤ i < Z.of_nat n → m (s + i) ≠ 0) → (n ≤ fuel)%nat →
  ∃ m', copy_string fuel d s m = Some m' ∧ ∀ a, m' a = moved d s (Z.of_nat n + 1) m a.
Proof.
  induction n as [|n IH]; intros fuel d s m Hd Hs Hdn Hsn Hap Hz Hnz Hf.
  - rewrite Z.add_0_r in Hz. destruct fuel; cbn [copy_string]; rewrite Hz; cbn [Z.eqb]; eexists; (split; [done|]); intros a; unfold poke, moved;
      destruct (Z.eqb_spec a d) as [-> |Hne].
    1,3: rewrite (proj2 (Z.leb_le d d)), (proj2 (Z.ltb_lt d _)) by lia; cbn [andb]; by replace (s + (d - d)) with s by lia.
    1,2: destruct (Z.leb_spec d a), (Z.ltb_spec a (d + (Z.of_nat 0 + 1))); cbn [andb]; (done || lia).
  - destruct fuel as [|fuel]; [lia|]. rewrite Nat2Z.inj_succ in *. cbn [copy_string]. pose proof (Hnz 0 ltac:(lia)) as H0. rewrite Z.add_0_r in H0. rewrite (proj2 (Z.eqb_neq _ _) H0).
    rewrite !u32_small by lia. destruct (IH fuel (d + 1) (s + 1) (poke d (m s) m)) as (m' & E & Hm'); try lia.
    + unfold poke. destruct (Z.eqb_spec (s + 1 + Z.of_nat n) d); [lia|]. rewrite <- Hz. f_equal. lia.
    + intros i Hi. unfold poke. destruct (Z.eqb_spec (s + 1 + i) d); [lia|]. replace (s + 1 + i) with (s + (i + 1)) by lia. apply Hnz. lia.
    + exists m'. split; [done|]. intros a. rewrite Hm'. unfold moved, poke.
      destruct (Z.leb_spec (d + 1) a), (Z.ltb_spec a (d + 1 + (Z.of_nat n + 1))), (Z.leb_spec d a), (Z.ltb_spec a (d + (Z.succ (Z.of_nat n) + 1))); cbn [andb]; try lia.
      * replace (s + 1 + (a - (d + 1))) with (s + (a - d)) by lia. destruct (Z.eqb_spec (s + (a - d)) d); [lia|done].
      * destruct (Z.eqb_spec a d); [lia|done].
      * destruct (Z.eqb_spec a d) as [-> |]; [f_equal; lia|lia].
      * destruct (Z.eqb_spec a d); [lia|done].
Qed.

Lemma strcpy_copies n fuel d s m : 0 < d → 0 < s → d + Z.of_nat n + 1 < 2 ^ 32 → s + Z.of_nat n + 1 < 2 ^ 32 → (d + Z.of_nat n < s ∨ s + Z.of_nat n < d) →
  m (s + Z.of_nat n) = 0 → (∀ i, 0 ≤ i < Z.of_nat n → m (s + i) ≠ 0) → (n ≤ fuel)%nat →
  ∃ m', strcpy fuel d s m = Some (d, m') ∧ ∀ a, m' a = moved d s (Z.of_nat n + 1) m a.
Proof.
  intros Hd Hs Hdn Hsn Hap Hz Hnz Hf. unfold strcpy. rewrite (proj2 (Z.eqb_neq d 0)), (proj2 (Z.eqb_neq s 0)) by lia. cbn [orb].
  destruct (copy_string_ok n fuel d s m) as (m' & -> & Hm'); try lia; try done. by exists m'.
Qed.

(** A block that ends at the last address is not filled to its end. *)
Lemma memset_last_byte m : memset (2 ^ 32 - 2) 7 2 m (2 ^ 32 - 1) = m (2 ^ 32 - 1).
Proof. reflexivity. Qed.

End RtosLibc.
