(* ===== verification/RtosEcho.v ===== *)
(** * The FreeRTOS demo: a line editor and a print server

    Models Demo/receive.c and Demo/print.c of ldd-k4/arm/FreeRTOS-GCC-ARM926ejs, with
    uart_print of drivers/uart.c.  An interrupt handler puts received characters into a
    queue; the task recvTask edits them into one of three line buffers and sends a pointer
    to the finished line to the print queue; the task printGateKeeperTask takes pointers
    from there and prints what they point to, character by character.  Other tasks send
    pointers to constant texts.

    The line buffers are shared memory: recvTask may write a buffer again while a pointer
    to it is still in the queue or being printed.  So the steps are single accesses to the
    buffers, in any order of the two tasks.  The queues are bounded sequences, which is
    what [RtosQueueThm] shows of queue.c; the last section says how a queue is used. *)

From S2P Require Import Prelude RtosTask RtosQueue RtosQueueRun RtosQueueThm.

Module RtosEcho.

Definition RECV_BUFFER_SIZE : Z := 3.
Definition RECV_BUFFER_LEN : Z := 50.
Definition RECV_QUEUE_SIZE : Z := 10.
Definition PRINT_QUEUE_SIZE : Z := 10.
Definition MSG_OFFSET : Z := 14.
Definition RECV_TOTAL_BUFFER_LEN : Z := MSG_OFFSET + RECV_BUFFER_LEN + 3 + 1.
Definition CODE_BS : Z := 127.
Definition CODE_CR : Z := 13.
(** The text You entered: and a quote *)
Definition MSG_TEXT : list Z := [89; 111; 117; 32; 101; 110; 116; 101; 114; 101; 100; 58; 32; 34].
Definition BSP_NR_UARTS : Z := 3.

(** The labels of the switch: letters, digits, space and _ + - / . , *)
Definition ordinary (ch : Z) : bool :=
  ((65 <=? ch) && (ch <=? 90)) || ((97 <=? ch) && (ch <=? 122)) || ((48 <=? ch) && (ch <=? 57)) ||
  (ch =? 32) || (ch =? 95) || (ch =? 43) || (ch =? 45) || (ch =? 47) || (ch =? 46) || (ch =? 44).

(** A string: a line buffer, or a constant (without its terminator) *)
Inductive ptr := Line (i : nat) | Text (bs : list Z).
#[export] Instance ptr_eq_dec : EqDecision ptr.
Proof. solve_decision. Defined.

(** Where the two tasks are.  recvTask: it waits for a character, has one, writes the end of
    a line (how many characters of it are written), sends the line, or turns to the next
    buffer.  The gatekeeper waits, or has printed [cp] characters of a string. *)
Inductive receiver := RWait | RGot (ch : Z) | REnd (k : nat) | RSend | RNext.
Inductive gatekeeper := GWait | GPrint (message : ptr) (cp : Z).

(** What was given to vPrintMsg: by recvTask or not, and whether there was room for it *)
Record message := Msg { keyboard : bool; text : list Z; accepted : bool }.

(** [typed] and [log] record what happened. *)
Record state := State {
  buf : list (list Z);
  bufCntr : Z;
  bufPos : Z;
  recvQueue : list Z;
  printQueue : list ptr;
  recv : receiver;
  gate : gatekeeper;
  screen : list Z;
  typed : list Z;
  log : list message
}.

(** ** Operations *)

(** A send that does not wait *)
Definition push {X} (size : Z) (x : X) (q : list X) : bool * list X := if zlen q <? size then (true, q ++ [x]) else (false, q).

(** buf[ i ][ j ] = ch *)
Definition put_char (i j ch : Z) (b : list (list Z)) : option (list (list Z)) :=
  l ← b !! Z.to_nat i;
  if (0 <=? i) && (0 <=? j) && (j <? zlen l) then Some (<[Z.to_nat i := <[Z.to_nat j := ch]> l]> b) else None.

(** The characters up to the terminator *)
Fixpoint cstr (l : list Z) : list Z := match l with [] => [] | ch :: l => if ch =? 0 then [] else ch :: cstr l end.
Definition string_at (b : list (list Z)) (p : ptr) : list Z :=
  match p with Line i => match b !! i with Some l => cstr l | None => [] end | Text bs => bs end.
(** *cp *)
Definition char_at (b : list (list Z)) (p : ptr) (cp : Z) : option Z :=
  match p with Line i => l ← b !! i; l !! Z.to_nat cp | Text bs => (bs ++ [0]) !! Z.to_nat cp end.

Definition with_buf (b : list (list Z)) (σ : state) : state :=
  State b (bufCntr σ) (bufPos σ) (recvQueue σ) (printQueue σ) (recv σ) (gate σ) (screen σ) (typed σ) (log σ).
Definition with_pos (p : Z) (σ : state) : state :=
  State (buf σ) (bufCntr σ) p (recvQueue σ) (printQueue σ) (recv σ) (gate σ) (screen σ) (typed σ) (log σ).
Definition with_recv (r : receiver) (σ : state) : state :=
  State (buf σ) (bufCntr σ) (bufPos σ) (recvQueue σ) (printQueue σ) r (gate σ) (screen σ) (typed σ) (log σ).
Definition with_gate (g : gatekeeper) (σ : state) : state :=
  State (buf σ) (bufCntr σ) (bufPos σ) (recvQueue σ) (printQueue σ) (recv σ) g (screen σ) (typed σ) (log σ).
Definition type_char (ch : Z) (σ : state) : state :=
  State (buf σ) (bufCntr σ) (bufPos σ) (recvQueue σ) (printQueue σ) (recv σ) (gate σ) (screen σ) (typed σ ++ [ch]) (log σ).

(** vPrintMsg, for a pointer that is not NULL *)
Definition vPrintMsg (k : bool) (msg : ptr) (σ : state) : state :=
  let '(_, pq) := push PRINT_QUEUE_SIZE msg (printQueue σ) in
  let room := zlen (printQueue σ) <? PRINT_QUEUE_SIZE in
  State (buf σ) (bufCntr σ) (bufPos σ) (recvQueue σ) pq (recv σ) (gate σ) (screen σ) (typed σ) (log σ ++ [Msg k (string_at (buf σ) msg) room]).

(** [ch] is what uart_readChar returns. *)
Definition recvIsrHandler (ch : Z) (σ : state) : state :=
  let '(_, rq) := push RECV_QUEUE_SIZE ch (recvQueue σ) in
  State (buf σ) (bufCntr σ) (bufPos σ) rq (printQueue σ) (recv σ) (gate σ) (screen σ) (typed σ) (log σ).

(** The switch, up to the end of its case or to the first character that ends a line *)
Definition handle (ch : Z) (σ : state) : option state :=
  if ordinary ch then
    if bufPos σ <? RECV_BUFFER_LEN
    then b ← put_char (bufCntr σ) (MSG_OFFSET + bufPos σ) ch (buf σ); Some (with_recv RWait (type_char ch (with_pos (uwrap 16 (bufPos σ + 1)) (with_buf b σ))))
    else Some (with_recv RWait (type_char ch σ))
  else if ch =? CODE_BS then Some (with_recv RWait (type_char ch (if 0 <? bufPos σ then with_pos (uwrap 16 (bufPos σ - 1)) σ else σ)))
  else if ch =? CODE_CR then Some (with_recv (REnd 0) (with_pos (uwrap 16 (bufPos σ + MSG_OFFSET)) σ))
  else Some (with_recv RWait (type_char ch σ)).

(** The quote, carriage return, line feed and terminator *)
Definition ending : list Z := [34; 13; 10; 0].

(** recvTask, one access to memory or to a queue at a time *)
Definition recvTask (σ : state) : option state :=
  match recv σ with
  | RWait =>
      match recvQueue σ with
      | ch :: rq => Some (State (buf σ) (bufCntr σ) (bufPos σ) rq (printQueue σ) (RGot ch) (gate σ) (screen σ) (typed σ) (log σ))
      | [] => None
      end
  | RGot ch => handle ch σ
  | REnd k =>
      ch ← ending !! k;
      b ← put_char (bufCntr σ) (bufPos σ) ch (buf σ);
      Some (if decide (k = 3%nat) then with_recv RSend (with_buf b σ) else with_recv (REnd (S k)) (with_pos (uwrap 16 (bufPos σ + 1)) (with_buf b σ)))
  | RSend => Some (with_recv RNext (type_char CODE_CR (vPrintMsg true (Line (Z.to_nat (bufCntr σ))) σ)))
  | RNext =>
      Some (State (buf σ) (uwrap 16 (bufCntr σ + 1) mod RECV_BUFFER_SIZE) 0 (recvQueue σ) (printQueue σ) RWait (gate σ) (screen σ) (typed σ) (log σ))
  end.

(** printGateKeeperTask with the loop of uart_print *)
Definition printGateKeeperTask (σ : state) : option state :=
  match gate σ with
  | GWait =>
      match printQueue σ with
      | p :: pq => Some (State (buf σ) (bufCntr σ) (bufPos σ) (recvQueue σ) pq (recv σ) (GPrint p 0) (screen σ) (typed σ) (log σ))
      | [] => None
      end
  | GPrint p cp =>
      ch ← char_at (buf σ) p cp;
      Some (if ch =? 0 then with_gate GWait σ
            else State (buf σ) (bufCntr σ) (bufPos σ) (recvQueue σ) (printQueue σ) (recv σ) (GPrint p (cp + 1)) (screen σ ++ [ch]) (typed σ) (log σ))
  end.

(** memset and strcpy on every line *)
Definition init_line : list Z := MSG_TEXT ++ zeros (RECV_TOTAL_BUFFER_LEN - zlen MSG_TEXT).
(** [None] is pdFAIL: the number of the UART, whether the queue was made, and what
    pic_registerIrq returned *)
Definition recvInit (uart_nr : Z) (queue : bool) (irq : Z) : option (list (list Z) * Z * Z) :=
  let b := replicate (Z.to_nat RECV_BUFFER_SIZE) init_line in
  if BSP_NR_UARTS <=? uart_nr then None
  else if negb queue then None
  else if irq <? 0 then None
  else Some (b, 0, 0).
Definition printInit (uart_nr : Z) (queue : bool) : option (list ptr) :=
  if BSP_NR_UARTS <=? uart_nr then None else if negb queue then None else Some [].

Definition start (x : list (list Z) * Z * Z) (pq : list ptr) : state := State x.1.1 x.1.2 x.2 [] pq RWait GWait [] [] [].

Inductive event := Key (ch : Z) | Say (text : list Z) | Recv | Gate.
Definition step (e : event) (σ : state) : option state :=
  match e with
  | Key ch => Some (recvIsrHandler ch σ)
  | Say t => Some (vPrintMsg false (Text t) σ)
  | Recv => recvTask σ
  | Gate => printGateKeeperTask σ
  end.

(** ** What it should do *)

(** The finished lines, and the line that is being entered *)
Definition edit1 (s : list (list Z) * list Z) (ch : Z) : list (list Z) * list Z :=
  let '(ls, cur) := s in
  if ordinary ch then (ls, if zlen cur <? RECV_BUFFER_LEN then cur ++ [ch] else cur)
  else if ch =? CODE_BS then (ls, take (pred (length cur)) cur)
  else if ch =? CODE_CR then (ls ++ [cur], [])
  else (ls, cur).
Definition edit (chs : list Z) : list (list Z) * list Z := foldl edit1 ([], []) chs.
Definition frame (l : list Z) : list Z := MSG_TEXT ++ l ++ [34; 13; 10].

(** A task waits at an empty queue; texts of other tasks are strings. *)
Definition enabled (e : event) (σ : state) : Prop :=
  match e with
  | Key ch => True
  | Say t => Forall (λ ch, ch ≠ 0) t
  | Recv => recv σ = RWait → recvQueue σ ≠ []
  | Gate => gate σ = GWait → printQueue σ ≠ []
  end.

(** The strings that are queued or being printed *)
Definition outstanding (σ : state) : list ptr := match gate σ with GPrint p _ => [p] | GWait => [] end ++ printQueue σ.
(** recvTask does not write the buffer of a line that is still to be printed. *)
Definition unshared (e : event) (σ : state) : Prop :=
  match e, recv σ with Recv, RGot _ | Recv, REnd _ => Line (Z.to_nat (bufCntr σ)) ∉ outstanding σ | _, _ => True end.

#[export] Instance enabled_dec e σ : Decision (enabled e σ).
Proof.
  destruct e; cbn; try apply _.
  - destruct (recv σ); try (left; intros; done). destruct (recvQueue σ); [right; intros H; by apply H|by left].
  - destruct (gate σ); try (left; intros; done). destruct (printQueue σ); [right; intros H; by apply H|by left].
Defined.
#[export] Instance unshared_dec e σ : Decision (unshared e σ).
Proof. destruct e; cbn; try apply _. destruct (recv σ); apply _. Defined.

(** The key strokes that find room in the queue, seen from outside of the program: what
    is struck, not what the handler stores. *)
Definition struck (e : event) (σ : state) (ks : list Z) : list Z :=
  match e with Key ch => if zlen (recvQueue σ) <? RECV_QUEUE_SIZE then ks ++ [ch] else ks | _ => ks end.
(** The character the receiver has taken from the queue and not dealt with *)
Definition in_hand (r : receiver) : list Z :=
  match r with RGot ch => [ch] | REnd _ | RSend => [CODE_CR] | RWait | RNext => [] end.

(** Runs after a successful start, with the keys struck in them; with [calm], buffers are
    not written too early. *)
Inductive reach (calm : bool) : list Z → state → Prop :=
| reach_start x pq : recvInit 0 true 0 = Some x → printInit 0 true = Some pq → reach calm [] (start x pq)
| reach_step ks σ e σ' : reach calm ks σ → enabled e σ → (calm = true → unshared e σ) → step e σ = Some σ' → reach calm (struck e σ ks) σ'.

(** ** The invariant *)

Definition line_ok (l : list Z) : Prop := length l = 68%nat ∧ take 14 l = MSG_TEXT ∧ l !! 67%nat = Some 0.
Definition ptr_ok (p : ptr) : Prop := match p with Line i => (i < 3)%nat | Text bs => Forall (λ ch, ch ≠ 0) bs end.

(** What recvTask has written into its buffer *)
Definition written (r : receiver) (cur : list Z) : list Z :=
  MSG_TEXT ++ cur ++ match r with REnd k => take k ending | RSend | RNext => ending | _ => [] end.
Definition position (r : receiver) (cur : list Z) : Z :=
  match r with REnd k => 14 + zlen cur + Z.of_nat k | RSend | RNext => 17 + zlen cur | _ => zlen cur end.

Record inv (σ : state) : Prop := {
  n_buf : length (buf σ) = 3%nat ∧ Forall line_ok (buf σ);
  n_cntr : 0 ≤ bufCntr σ < 3;
  n_cur : zlen (edit (typed σ)).2 ≤ 50 ∧ Forall (λ ch, ch ≠ 0) (edit (typed σ)).2;
  n_line : recv σ ≠ RNext → bufPos σ = position (recv σ) (edit (typed σ)).2 ∧
    ∀ l, buf σ !! Z.to_nat (bufCntr σ) = Some l → take (length (written (recv σ) (edit (typed σ)).2)) l = written (recv σ) (edit (typed σ)).2;
  n_end : match recv σ with REnd k => (k < 4)%nat | RNext => (edit (typed σ)).2 = [] | _ => True end;
  n_ptrs : Forall ptr_ok (outstanding σ);
  n_gate : match gate σ with GPrint (Line _) cp => 0 ≤ cp ≤ 67 | GPrint (Text bs) cp => 0 ≤ cp ≤ zlen bs | GWait => True end;
  n_queues : zlen (recvQueue σ) ≤ RECV_QUEUE_SIZE ∧ zlen (printQueue σ) ≤ PRINT_QUEUE_SIZE;
  n_log : text <$> filter (λ m, keyboard m = true) (log σ) = frame <$> (edit (typed σ)).1
}.

(** ** Line buffers *)

Lemma take_insert_next (l : list Z) n ch : (n < length l)%nat → take (S n) (<[n := ch]> l) = take n l ++ [ch].
Proof.
  intros Hn. rewrite (take_S_r _ _ ch) by (by apply list_lookup_insert_eq). by rewrite take_insert_ge by lia.
Qed.

Lemma cstr_app x l : Forall (λ ch, ch ≠ 0) x → cstr (x ++ 0 :: l) = x.
Proof. induction 1 as [|ch x Hc _ IH]; [done|]. cbn. rewrite (proj2 (Z.eqb_neq _ _) Hc). by rewrite IH. Qed.

Lemma cstr_take x l : Forall (λ ch, ch ≠ 0) x → take (S (length x)) l = x ++ [0] → cstr l = x.
Proof. intros Hx Ht. rewrite <- (take_drop (S (length x)) l), Ht, <- app_assoc. by apply cstr_app. Qed.

(** Reading along a string *)
Lemma cstr_lookup l n : 0 ∈ l → (n ≤ length (cstr l))%nat → ∃ ch, l !! n = Some ch ∧ (ch = 0 ↔ n = length (cstr l)) ∧ (ch ≠ 0 → cstr l !! n = Some ch).
Proof.
  revert n. induction l as [|x l IH]; intros n Hin Hn; [by apply elem_of_nil in Hin|]. cbn in *. destruct (Z.eqb_spec x 0) as [-> |Hx].
  - cbn in Hn. assert (n = 0%nat) as -> by lia. by exists 0.
  - apply elem_of_cons in Hin as [?|Hin]; [done|]. cbn in Hn. destruct n as [|n]; [exists x; cbn; split_and!; [done|split; [done|lia]|done]|].
    destruct (IH n Hin ltac:(lia)) as (ch & H1 & H2 & H3). exists ch. cbn. split_and!; [done|rewrite H2; lia|done].
Qed.

Lemma line_ok_store l j ch : line_ok l → (14 ≤ j < 68)%nat → (j = 67%nat → ch = 0) → line_ok (<[j := ch]> l).
Proof.
  intros (H1 & H2 & H3) Hj Hch. split_and!; [by rewrite length_insert|rewrite take_insert_ge by lia; done|].
  destruct (decide (j = 67%nat)) as [-> |Hne]; [rewrite list_lookup_insert_eq by lia; by rewrite Hch|by rewrite list_lookup_insert_ne].
Qed.

Lemma line_length l : line_ok l → (length (cstr l) ≤ 67)%nat ∧ 0 ∈ l.
Proof.
  intros (H1 & _ & H3). split; [|by eapply list_elem_of_lookup_2]. assert (∀ k n, k !! n = Some 0 → (length (cstr k) ≤ n)%nat) as Hl; [|by eapply Hl].
  induction k as [|x k IH]; intros n Hn; [done|]. cbn. destruct (Z.eqb_spec x 0); [cbn; lia|]. destruct n; [by injection Hn as ->|]. apply IH in Hn. cbn. lia.
Qed.

(** What a write of recvTask does *)
Lemma put_char_ok σ j ch : inv σ → 14 ≤ j < 68 → (j = 67 → ch = 0) →
  ∃ l, buf σ !! Z.to_nat (bufCntr σ) = Some l ∧ line_ok l ∧
    put_char (bufCntr σ) j ch (buf σ) = Some (<[Z.to_nat (bufCntr σ) := <[Z.to_nat j := ch]> l]> (buf σ)) ∧
    line_ok (<[Z.to_nat j := ch]> l) ∧ Forall line_ok (<[Z.to_nat (bufCntr σ) := <[Z.to_nat j := ch]> l]> (buf σ)).
Proof.
  intros [[Hb Hf] Hc _ _ _ _ _ _ _] Hj Hch. destruct (lookup_lt_is_Some_2 (buf σ) (Z.to_nat (bufCntr σ)) ltac:(lia)) as [l Hl].
  pose proof (Forall_lookup_1 _ _ _ _ Hf Hl) as Hok. exists l. assert (line_ok (<[Z.to_nat j := ch]> l)) as Hok' by (apply line_ok_store; [done|lia|lia]).
  split_and!; [done|done| |done|by apply Forall_insert]. unfold put_char. rewrite Hl. cbn [mbind option_bind]. destruct Hok as (Hlen & _).
  unfold zlen. rewrite Hlen. rewrite (proj2 (Z.leb_le 0 (bufCntr σ))), (proj2 (Z.leb_le 0 j)), (proj2 (Z.ltb_lt j (Z.of_nat 68))) by lia. done.
Qed.

(** ** Every step keeps the invariant *)

Lemma u16_id x : 0 ≤ x < 2 ^ 16 → uwrap 16 x = x.
Proof. intros. apply uwrap_id. unfold fits_u. lia. Qed.

Lemma edit_snoc chs ch : edit (chs ++ [ch]) = edit1 (edit chs) ch.
Proof. unfold edit. by rewrite foldl_snoc. Qed.

Lemma ordinary_cases ch : ordinary ch = true → ch ≠ 0 ∧ ch ≠ CODE_BS ∧ ch ≠ CODE_CR.
Proof. unfold ordinary, CODE_BS, CODE_CR. intros H. repeat split; intros ->; done. Qed.

Lemma written_length r cur : length (written r cur) = (14 + length cur + match r with REnd k => Nat.min k 4 | RSend | RNext => 4 | _ => 0 end)%nat.
Proof. unfold written. rewrite !length_app. change (length MSG_TEXT) with 14%nat. destruct r; rewrite ?length_take; change (length ending) with 4%nat; cbn [length]; lia. Qed.

Lemma outstanding_push σ p b : ptr_ok p → Forall ptr_ok (outstanding σ) → Forall ptr_ok (outstanding (vPrintMsg b p σ)).
Proof.
  intros Hp Ho. unfold vPrintMsg, push. destruct (zlen (printQueue σ) <? PRINT_QUEUE_SIZE); [|done]. unfold outstanding in *. cbn. rewrite app_assoc. by apply Forall_app; split; [|constructor].
Qed.

Lemma push_size {X} size (x : X) q : zlen q ≤ size → zlen (push size x q).2 ≤ size.
Proof. intros Hq. unfold push. destruct (Z.ltb_spec (zlen q) size); [|done]. cbn. rewrite zlen_app. change (zlen [x]) with 1. lia. Qed.

Lemma inv_key ch σ : inv σ → inv (recvIsrHandler ch σ).
Proof.
  intros Hi. unfold recvIsrHandler. match goal with |- context [push ?n ?x ?q] => pose proof (push_size n x q (proj1 (n_queues _ Hi))) as Hq end.
  destruct (push _ _ _) as [ok rq]. destruct Hi. split; cbn [buf bufCntr bufPos recvQueue printQueue recv gate screen typed log]; try done. by split; [|apply n_queues0].
Qed.

Lemma inv_say t σ : inv σ → Forall (λ ch, ch ≠ 0) t → inv (vPrintMsg false (Text t) σ).
Proof.
  intros Hi Ht. pose proof (outstanding_push σ (Text t) false Ht (n_ptrs _ Hi)) as Ho. revert Ho. unfold vPrintMsg.
  pose proof (push_size PRINT_QUEUE_SIZE (Text t) (printQueue σ) (proj2 (n_queues _ Hi))) as Hq.
  destruct (push PRINT_QUEUE_SIZE (Text t) (printQueue σ)) as [ok pq]. intros Ho. destruct Hi. split; cbn [buf bufCntr bufPos recvQueue printQueue recv gate screen typed log]; try done.
  - by split; [apply n_queues0|].
  - rewrite filter_app. cbn. by rewrite app_nil_r.
Qed.

Lemma inv_gate σ : inv σ → enabled Gate σ → ∃ σ', printGateKeeperTask σ = Some σ' ∧ inv σ'.
Proof.
  intros Hi He. unfold printGateKeeperTask. cbn in He. pose proof (n_ptrs _ Hi) as Ho. unfold outstanding in Ho. destruct (gate σ) as [|p cp] eqn:Eg.
  - destruct (printQueue σ) as [|p pq] eqn:Ep; [by destruct He|]. eexists. split; [done|]. pose proof (n_queues _ Hi) as [Hq1 Hq2]. rewrite Ep in Hq2.
    destruct Hi. split; cbn [buf bufCntr bufPos recvQueue printQueue recv gate screen typed log]; try done.
    + by destruct p; split; try lia; apply zlen_nonneg.
    + split; [done|]. unfold zlen in *. cbn [length] in Hq2. lia.
  - apply Forall_app in Ho as [Hp Hpq]. rewrite Forall_singleton in Hp. pose proof (n_gate _ Hi) as Hg. rewrite Eg in Hg.
    assert (∃ ch, char_at (buf σ) p cp = Some ch ∧ (ch ≠ 0 → match p with Line _ => cp < 67 | Text bs => cp < zlen bs end)) as (ch & -> & Hch).
    { destruct p as [i|bs]; cbn in Hp |- *.
      - destruct (n_buf _ Hi) as [Hb Hf]. destruct (lookup_lt_is_Some_2 (buf σ) i ltac:(lia)) as [l Hl]. rewrite Hl. cbn [mbind option_bind].
        destruct (Forall_lookup_1 _ _ _ _ Hf Hl) as (Hlen & _ & H67). destruct (lookup_lt_is_Some_2 l (Z.to_nat cp) ltac:(lia)) as [ch Hch]. exists ch. split; [done|].
        intros Hne. destruct (decide (cp = 67)) as [-> |]; [|lia]. change (Z.to_nat 67) with 67%nat in Hch. congruence.
      - unfold zlen in *. destruct (lookup_lt_is_Some_2 (bs ++ [0]) (Z.to_nat cp)) as [ch Hch]; [rewrite length_app; cbn; lia|]. exists ch. split; [done|].
        intros Hne. destruct (decide (cp = Z.of_nat (length bs))) as [-> |]; [|lia]. rewrite Nat2Z.id, lookup_app_r, Nat.sub_diag in Hch by lia. cbn in Hch. congruence. }
    cbn [mbind option_bind]. eexists. split; [done|]. destruct (Z.eqb_spec ch 0) as [-> |Hne].
    + destruct Hi. by split.
    + specialize (Hch Hne). destruct Hi. split; cbn [buf bufCntr bufPos recvQueue printQueue recv gate screen typed log]; try done.
      * unfold outstanding. cbn. by constructor.
      * destruct p; lia.
Qed.

(** recvTask writes the next character of its line. *)
Lemma inv_write σ j ch r' chs p : inv σ → recv σ ≠ RNext → (∀ k, r' ≠ RGot k) → r' ≠ RNext → match r' with REnd k => (k < 4)%nat | _ => True end →
  (edit chs).1 = (edit (typed σ)).1 → zlen (edit chs).2 ≤ 50 → Forall (λ c, c ≠ 0) (edit chs).2 →
  j = zlen (written (recv σ) (edit (typed σ)).2) → 14 ≤ j < 68 → (j = 67 → ch = 0) → written r' (edit chs).2 = written (recv σ) (edit (typed σ)).2 ++ [ch] →
  p = position r' (edit chs).2 →
  ∃ b, put_char (bufCntr σ) j ch (buf σ) = Some b ∧
    inv (State b (bufCntr σ) p (recvQueue σ) (printQueue σ) r' (gate σ) (screen σ) chs (log σ)).
Proof.
  intros Hi Hr _ Hr' Hk E1 Hcur Hnz Ej Hj Hch Hw ->. destruct (put_char_ok σ j ch Hi Hj Hch) as (l & Hl & Hok & -> & Hok' & Hf'). eexists. split; [done|].
  destruct (n_line _ Hi Hr) as [_ Htk]. specialize (Htk l Hl). destruct Hi as [[Hb Hf] ? ? ? ? ? ? ? Hlog].
  split; cbn [buf bufCntr bufPos recvQueue printQueue recv gate screen typed log]; try done.
  - split; [by rewrite length_insert|done].
  - intros _. split; [done|]. intros l' Hl'. rewrite list_lookup_insert_eq in Hl' by lia. injection Hl' as <-. destruct Hok as (Hlen & _).
    rewrite Hw, length_app, Nat.add_1_r. unfold zlen in Ej. rewrite <- Htk at 2. replace (Z.to_nat j) with (length (written (recv σ) (edit (typed σ)).2)) by lia.
    apply take_insert_next. lia.
  - by destruct r'.
  - by rewrite E1.
Qed.

Lemma edit_ordinary chs ch : ordinary ch = true → edit (chs ++ [ch]) = ((edit chs).1, if zlen (edit chs).2 <? RECV_BUFFER_LEN then (edit chs).2 ++ [ch] else (edit chs).2).
Proof. intros Ho. rewrite edit_snoc. destruct (edit chs) as [ls cur]. cbn [edit1 fst snd]. by rewrite Ho. Qed.
Lemma edit_back chs : edit (chs ++ [CODE_BS]) = ((edit chs).1, take (pred (length (edit chs).2)) (edit chs).2).
Proof. rewrite edit_snoc. by destruct (edit chs). Qed.
Lemma edit_enter chs : edit (chs ++ [CODE_CR]) = ((edit chs).1 ++ [(edit chs).2], []).
Proof. rewrite edit_snoc. by destruct (edit chs). Qed.
Lemma edit_other chs ch : ordinary ch = false → ch ≠ CODE_BS → ch ≠ CODE_CR → edit (chs ++ [ch]) = edit chs.
Proof.
  intros Ho Hb Hc. rewrite edit_snoc. destruct (edit chs) as [ls cur]. unfold edit1. rewrite Ho, (proj2 (Z.eqb_neq _ _) Hb), (proj2 (Z.eqb_neq _ _) Hc). done.
Qed.

(** The line stays, and the character is done with. *)
Lemma inv_typed σ ch c p : inv σ → recv σ = RGot c → (edit (typed σ ++ [ch])).1 = (edit (typed σ)).1 → p = zlen (edit (typed σ ++ [ch])).2 →
  (∃ n, (edit (typed σ ++ [ch])).2 = take n (edit (typed σ)).2) →
  inv (State (buf σ) (bufCntr σ) p (recvQueue σ) (printQueue σ) RWait (gate σ) (screen σ) (typed σ ++ [ch]) (log σ)).
Proof.
  intros Hi Hr E1 -> (n & E2). destruct (n_line _ Hi) as [_ Htk]; [by rewrite Hr|]. destruct Hi as [[Hb Hf] ? [Hc1 Hc2] ? ? ? ? ? Hlog].
  split; cbn [buf bufCntr bufPos recvQueue printQueue recv gate screen typed log]; try done.
  - rewrite E2. split; [|by apply Forall_take]. unfold zlen in *. rewrite length_take. lia.
  - intros _. split; [done|]. intros l Hl. specialize (Htk l Hl). rewrite Hr in Htk. rewrite E2. unfold written in *. rewrite !app_nil_r in *.
    rewrite length_app in *. change (length MSG_TEXT) with 14%nat in *. set (cur := (edit (typed σ)).2) in *.
    transitivity (take (14 + length (take n cur)) (take (14 + length cur) l)); [rewrite take_take; f_equal; rewrite length_take; lia|].
    rewrite Htk. rewrite take_app. change (length MSG_TEXT) with 14%nat. rewrite take_ge by (cbn; lia). f_equal.
    replace (14 + length (take n cur) - 14)%nat with (length (take n cur)) by lia. rewrite length_take. destruct (decide (n ≤ length cur)%nat).
    + by rewrite Nat.min_l.
    + rewrite Nat.min_r by lia. rewrite !take_ge by lia. done.
  - by rewrite E1.
Qed.

Lemma inv_handle σ ch : inv σ → recv σ = RGot ch → ∃ σ', handle ch σ = Some σ' ∧ inv σ'.
Proof.
  intros Hi Hr. destruct (n_line _ Hi) as [Hp _]; [by rewrite Hr|]. rewrite Hr in Hp. cbn in Hp. pose proof (n_cur _ Hi) as [Hc1 Hc2].
  pose proof (zlen_nonneg (edit (typed σ)).2) as Hc0. unfold handle. destruct (ordinary ch) eqn:Ho.
  - pose proof (edit_ordinary (typed σ) ch Ho) as Ee. rewrite Hp. unfold RECV_BUFFER_LEN, MSG_OFFSET in *. destruct (Z.ltb_spec (zlen (edit (typed σ)).2) 50) as [Hlt|Hge].
    + destruct (inv_write σ (14 + zlen (edit (typed σ)).2) ch RWait (typed σ ++ [ch]) (uwrap 16 (zlen (edit (typed σ)).2 + 1))) as (b & -> & Hi'); rewrite ?Hr, ?Ee; cbn [fst snd]; try done; try lia.
      * rewrite zlen_app. change (zlen [ch]) with 1. lia.
      * apply Forall_app. split; [done|]. constructor; [|done]. by apply ordinary_cases.
      * unfold zlen. rewrite written_length. lia.
      * unfold written. by rewrite !app_nil_r, app_assoc.
      * cbn [position]. rewrite zlen_app. change (zlen [ch]) with 1. apply u16_id. lia.
      * cbn [mbind option_bind]. eexists. split; [done|]. exact Hi'.
    + eexists. split; [done|]. apply (inv_typed σ ch ch); rewrite ?Ee; try done. exists (length (edit (typed σ)).2). by rewrite take_ge.
  - destruct (Z.eqb_spec ch CODE_BS) as [-> |Hb].
    { eexists. split; [done|]. pose proof (edit_back (typed σ)) as Ee. rewrite Hp. destruct (Z.ltb_spec 0 (zlen (edit (typed σ)).2)) as [Hlt|Hge];
        apply (inv_typed σ CODE_BS CODE_BS); rewrite ?Ee; try done; cbn [snd]; try (by eexists).
      - cbn [bufPos type_char with_pos]. unfold zlen in *. rewrite u16_id, length_take by lia. lia.
      - cbn [bufPos type_char]. rewrite Hp. unfold zlen in *. rewrite length_take. lia. }
    destruct (Z.eqb_spec ch CODE_CR) as [-> |Hcr].
    { eexists. split; [done|]. rewrite Hp. unfold MSG_OFFSET. rewrite u16_id by lia. destruct (n_line _ Hi) as [_ Htk]; [by rewrite Hr|]. rewrite Hr in Htk.
      destruct Hi. split; cbn [buf bufCntr bufPos recvQueue printQueue recv gate screen typed log with_recv with_pos]; try done; [|lia].
      intros _. split; [cbn; lia|]. done. }
    eexists. split; [done|]. pose proof (edit_other (typed σ) ch Ho Hb Hcr) as Ee. unfold with_recv, type_char. cbn [buf bufCntr bufPos recvQueue printQueue recv gate screen typed log].
    apply (inv_typed σ ch ch); rewrite ?Ee; try done. exists (length (edit (typed σ)).2). by rewrite take_ge.
Qed.

Lemma frame_string l : Forall (λ ch, ch ≠ 0) l → Forall (λ ch, ch ≠ 0) (frame l).
Proof. intros Hl. apply Forall_app_2; [by repeat constructor|]. apply Forall_app_2; [done|by repeat constructor]. Qed.

(** The text of a finished line *)
Lemma line_text σ : inv σ → recv σ = RSend → string_at (buf σ) (Line (Z.to_nat (bufCntr σ))) = frame (edit (typed σ)).2.
Proof.
  intros Hi Hr. destruct (n_line _ Hi) as [_ Htk]; [by rewrite Hr|]. pose proof (n_cur _ Hi) as [_ Hnz]. pose proof (n_cntr _ Hi). destruct (n_buf _ Hi) as [Hb _]. cbn.
  destruct (lookup_lt_is_Some_2 (buf σ) (Z.to_nat (bufCntr σ)) ltac:(lia)) as [l Hl]. rewrite Hl. specialize (Htk l Hl). rewrite Hr in Htk.
  assert (written RSend (edit (typed σ)).2 = frame (edit (typed σ)).2 ++ [0]) as E by (unfold written, frame; by rewrite <- !app_assoc). rewrite E in Htk. apply cstr_take.
  - by apply frame_string.
  - rewrite length_app, Nat.add_1_r in Htk. done.
Qed.

Lemma inv_recv σ : inv σ → enabled Recv σ → ∃ σ', recvTask σ = Some σ' ∧ inv σ'.
Proof.
  intros Hi He. cbn in He. unfold recvTask. destruct (recv σ) as [|ch|k| |] eqn:Hr.
  - destruct (recvQueue σ) as [|ch rq] eqn:Eq; [by destruct He|]. eexists. split; [done|]. pose proof (n_queues _ Hi) as [Hq1 Hq2]. rewrite Eq in Hq1.
    destruct Hi. rewrite Hr in *. split; cbn [buf bufCntr bufPos recvQueue printQueue recv gate screen typed log]; try done.
    + intros _. by apply n_line0.
    + split; [|done]. unfold zlen in *. cbn [length] in Hq1. lia.
  - by apply inv_handle.
  - pose proof (n_end _ Hi) as Hk. rewrite Hr in Hk. destruct (lookup_lt_is_Some_2 ending k Hk) as [ch Hch]. rewrite Hch. cbn [mbind option_bind].
    destruct (n_line _ Hi) as [Hp _]; [by rewrite Hr|]. rewrite Hr in Hp. cbn in Hp. pose proof (n_cur _ Hi) as [Hc1 Hc2]. pose proof (zlen_nonneg (edit (typed σ)).2) as Hc0.
    destruct (inv_write σ (bufPos σ) ch (if decide (k = 3%nat) then RSend else REnd (S k)) (typed σ) (if decide (k = 3%nat) then bufPos σ else uwrap 16 (bufPos σ + 1)))
      as (b & -> & Hi'); rewrite ?Hr; try done.
    + by destruct (decide _).
    + by destruct (decide _).
    + destruct (decide _); [done|lia].
    + unfold zlen in *. rewrite written_length. lia.
    + lia.
    + intros E. assert (k = 3%nat) as -> by lia. by injection Hch.
    + unfold written. rewrite <- !app_assoc. do 2 f_equal. destruct (decide (k = 3%nat)) as [-> |]; [by injection Hch as <-|]. by rewrite (take_S_r _ _ ch).
    + rewrite Hp. destruct (decide (k = 3%nat)) as [-> |]; cbn [position]; [lia|]. rewrite u16_id; lia.
    + cbn [mbind option_bind]. eexists. split; [done|]. revert Hi'. by destruct (decide (k = 3%nat)).
  - eexists. split; [done|]. pose proof (n_cntr _ Hi) as Hcn. pose proof (line_text σ Hi Hr) as Ht. pose proof (outstanding_push σ (Line (Z.to_nat (bufCntr σ))) true ltac:(cbn; lia) (n_ptrs _ Hi)) as Ho.
    pose proof (push_size PRINT_QUEUE_SIZE (Line (Z.to_nat (bufCntr σ))) (printQueue σ) (proj2 (n_queues _ Hi))) as Hq. revert Ho. unfold vPrintMsg. rewrite Ht.
    destruct (push PRINT_QUEUE_SIZE (Line (Z.to_nat (bufCntr σ))) (printQueue σ)) as [ok pq]. intros Ho. destruct Hi as [? ? ? ? ? ? ? [? ?] Hlog].
    split; cbn [buf bufCntr bufPos recvQueue printQueue recv gate screen typed log with_recv type_char]; rewrite ?edit_enter; cbn [fst snd]; try done.
    rewrite filter_app, fmap_app, Hlog. cbn. by rewrite fmap_app.
  - eexists. split; [done|]. pose proof (n_end _ Hi) as He0. rewrite Hr in He0. destruct Hi as [[Hb Hf] Hcn ? ? ? ? ? ? ?].
    unfold RECV_BUFFER_SIZE. rewrite u16_id by lia. split; cbn [buf bufCntr bufPos recvQueue printQueue recv gate screen typed log]; rewrite ?He0; try done.
    + apply Z.mod_pos_bound. lia.
    + intros _. split; [done|]. intros l Hl. by destruct (Forall_lookup_1 _ _ _ _ Hf Hl) as (_ & ? & _).
Qed.

Lemma inv_step e σ : inv σ → enabled e σ → ∃ σ', step e σ = Some σ' ∧ inv σ'.
Proof.
  intros Hi He. destruct e; cbn [step]; [eexists; split; [done|by apply inv_key]|eexists; split; [done|by apply inv_say]|by apply inv_recv|by apply inv_gate].
Qed.

Lemma inv_start x pq : recvInit 0 true 0 = Some x → printInit 0 true = Some pq → inv (start x pq).
Proof.
  intros [= <-] [= <-]. split; cbn [buf bufCntr bufPos recvQueue printQueue recv gate screen typed log start]; try done.
  - split; [done|]. repeat constructor.
  - intros _. split; [done|]. intros l Hl. change (Z.to_nat 0) with 0%nat in Hl. injection Hl as <-. done.
Qed.

Lemma echo_reach_inv c ks σ : reach c ks σ → inv σ.
Proof.
  induction 1 as [x pq Hx Hpq|ks σ e σ' _ IH He _ E]; [by apply inv_start|]. destruct (inv_step e σ IH He) as (σ2 & E2 & ?). by assert (σ2 = σ') as -> by congruence.
Qed.

(** ** What is printed *)

(** The characters still to come *)
Definition unprinted (σ : state) : list Z :=
  match gate σ with GWait => [] | GPrint p cp => drop (Z.to_nat cp) (string_at (buf σ) p) end ++ concat (string_at (buf σ) <$> printQueue σ).
Definition accepted_text (l : list message) : list Z := concat (text <$> filter (λ m, accepted m = true) l).

Record faithful (σ : state) : Prop := {
  t_text : accepted_text (log σ) = screen σ ++ unprinted σ;
  t_gate : match gate σ with GWait => True | GPrint p cp => cp ≤ zlen (string_at (buf σ) p) end
}.

Lemma accepted_snoc l m : accepted_text (l ++ [m]) = accepted_text l ++ (if accepted m then text m else []).
Proof.
  unfold accepted_text. rewrite filter_app, fmap_app, concat_app. f_equal.
  destruct m as [k x []]; [rewrite filter_cons_True by done|rewrite filter_cons_False by done]; cbn; [by rewrite app_nil_r|done].
Qed.

(** One more message *)
Lemma faithful_print k p σ : faithful σ → faithful (vPrintMsg k p σ).
Proof.
  intros [Ht Hg]. unfold vPrintMsg, push. destruct (zlen (printQueue σ) <? PRINT_QUEUE_SIZE); split; cbn [log screen gate buf]; try done; rewrite accepted_snoc, Ht; cbn [accepted text].
  - unfold unprinted. cbn [gate buf printQueue]. rewrite fmap_app, concat_app. cbn. by rewrite app_nil_r, !app_assoc.
  - by rewrite app_nil_r.
Qed.

(** Only the buffer changes, and no line that is to be printed *)
Lemma faithful_buf σ σ' : faithful σ → (∀ p, p ∈ outstanding σ → string_at (buf σ') p = string_at (buf σ) p) →
  gate σ' = gate σ → printQueue σ' = printQueue σ → screen σ' = screen σ → log σ' = log σ → faithful σ'.
Proof.
  intros [Ht Hg] Hb E1 E2 E3 E4. assert (unprinted σ' = unprinted σ) as Eu.
  { unfold unprinted. rewrite E1, E2. assert (string_at (buf σ') <$> printQueue σ = string_at (buf σ) <$> printQueue σ) as ->.
    { apply list_fmap_ext. intros i p Hp. apply Hb. unfold outstanding. apply elem_of_app. right. by eapply list_elem_of_lookup_2. }
    destruct (gate σ) as [|p cp] eqn:Eg; [done|]. rewrite Hb; [done|]. unfold outstanding. rewrite Eg. apply elem_of_cons. by left. }
  split; [by rewrite E3, E4, Eu|]. rewrite E1. destruct (gate σ) as [|p cp] eqn:Eg; [done|]. rewrite Hb; [done|]. unfold outstanding. rewrite Eg. apply elem_of_cons. by left.
Qed.

Lemma string_at_store σ p j ch b : put_char (bufCntr σ) j ch (buf σ) = Some b → p ≠ Line (Z.to_nat (bufCntr σ)) → string_at b p = string_at (buf σ) p.
Proof.
  unfold put_char. destruct (buf σ !! Z.to_nat (bufCntr σ)); [|done]. cbn [mbind option_bind]. destruct (_ && _); [|done]. intros [= <-] Hne.
  destruct p as [i|bs]; [|done]. cbn. rewrite list_lookup_insert_ne; [done|]. congruence.
Qed.

Lemma faithful_store σ σ' j ch b : faithful σ → Line (Z.to_nat (bufCntr σ)) ∉ outstanding σ → put_char (bufCntr σ) j ch (buf σ) = Some b →
  buf σ' = b → gate σ' = gate σ → printQueue σ' = printQueue σ → screen σ' = screen σ → log σ' = log σ → faithful σ'.
Proof.
  intros Hf Hun Hb <- ? ? ? ?. apply (faithful_buf σ); try done. intros p Hp. eapply string_at_store; [done|]. congruence.
Qed.

Lemma faithful_same σ σ' : faithful σ → buf σ' = buf σ → gate σ' = gate σ → printQueue σ' = printQueue σ → screen σ' = screen σ → log σ' = log σ → faithful σ'.
Proof. intros Hf E ? ? ? ?. apply (faithful_buf σ); try done. intros p _. by rewrite E. Qed.

Lemma faithful_recv σ σ' : inv σ → faithful σ → unshared Recv σ → recvTask σ = Some σ' → faithful σ'.
Proof.
  intros Hi Hf Hun. cbn in Hun. unfold recvTask. destruct (recv σ) as [|ch|k| |] eqn:Hr.
  - destruct (recvQueue σ); [done|]. intros [= <-]. by apply (faithful_same σ).
  - unfold handle. destruct (ordinary ch).
    + destruct (bufPos σ <? RECV_BUFFER_LEN); [|intros [= <-]; by apply (faithful_same σ)].
      destruct (put_char _ _ _ _) as [b|] eqn:Eb; [|done]. intros [= <-]. by apply (faithful_store σ _ _ _ b Hf Hun Eb).
    + destruct (ch =? CODE_BS); [intros [= <-]; destruct (0 <? bufPos σ); by apply (faithful_same σ)|].
      destruct (ch =? CODE_CR); intros [= <-]; by apply (faithful_same σ).
  - destruct (ending !! k) as [ch|]; [|done]. cbn [mbind option_bind]. destruct (put_char _ _ _ _) as [b|] eqn:Eb; [|done]. cbn [mbind option_bind]. intros [= <-].
    destruct (decide (k = 3%nat)); by apply (faithful_store σ _ _ _ b Hf Hun Eb).
  - intros [= <-]. apply (faithful_same (vPrintMsg true (Line (Z.to_nat (bufCntr σ))) σ)); try done. by apply faithful_print.
  - intros [= <-]. by apply (faithful_same σ).
Qed.

Lemma string_read b p cp ch : Forall line_ok b → ptr_ok p → length b = 3%nat → 0 ≤ cp ≤ zlen (string_at b p) → char_at b p cp = Some ch →
  (ch = 0 → drop (Z.to_nat cp) (string_at b p) = []) ∧
  (ch ≠ 0 → cp < zlen (string_at b p) ∧ drop (Z.to_nat cp) (string_at b p) = ch :: drop (Z.to_nat (cp + 1)) (string_at b p)).
Proof.
  intros Hf Hp Hb Hcp Hch. assert (∃ l, cstr l = string_at b p ∧ 0 ∈ l ∧ l !! Z.to_nat cp = Some ch) as (l & El & Hin & Hl).
  { destruct p as [i|bs]; cbn in *.
    - destruct (b !! i) as [l|] eqn:E; [|done]. cbn in Hch. exists l. split_and!; [done| |done]. by apply line_length, (Forall_lookup_1 _ _ _ _ Hf E).
    - exists (bs ++ [0]). split_and!; [by apply cstr_app|apply elem_of_app; right; by apply list_elem_of_singleton|done]. }
  rewrite <- El in *. unfold zlen in *. destruct (cstr_lookup l (Z.to_nat cp) Hin ltac:(lia)) as (ch' & H1 & H2 & H3). assert (ch' = ch) as -> by congruence. split.
  - intros E0. apply H2 in E0. rewrite drop_ge by lia. done.
  - intros Hne. assert (cp ≠ Z.of_nat (length (cstr l))) by (intros E; apply Hne, H2; lia). split; [lia|].
    rewrite (drop_S _ ch) by auto. do 2 f_equal. lia.
Qed.

Lemma faithful_gate σ σ' : inv σ → faithful σ → printGateKeeperTask σ = Some σ' → faithful σ'.
Proof.
  intros Hi [Ht Hg]. pose proof (n_ptrs _ Hi) as Ho. pose proof (n_gate _ Hi) as Hcp. destruct (n_buf _ Hi) as [Hb Hf]. unfold printGateKeeperTask, outstanding, unprinted in *.
  destruct (gate σ) as [|p cp] eqn:Eg.
  - destruct (printQueue σ) as [|p pq] eqn:Ep; [done|]. intros [= <-]. split; cbn [log screen gate buf printQueue].
    + rewrite Ht. unfold unprinted. cbn [gate buf printQueue]. done.
    + apply zlen_nonneg.
  - apply Forall_app in Ho as [Hp _]. rewrite Forall_singleton in Hp. destruct (char_at (buf σ) p cp) as [ch|] eqn:Ech; [|done]. cbn [mbind option_bind]. intros [= <-].
    destruct (string_read (buf σ) p cp ch Hf Hp Hb) as [R1 R2]; [destruct p; lia|done|]. destruct (Z.eqb_spec ch 0) as [E0|Hne].
    + split; cbn [log screen gate buf with_gate]; [|done]. rewrite Ht, (R1 E0). unfold unprinted. cbn [gate buf printQueue]. done.
    + destruct (R2 Hne) as [Hlt Hd]. split; cbn [log screen gate buf]; [|lia]. rewrite Ht, Hd. unfold unprinted. cbn [gate buf printQueue]. by rewrite <- !app_assoc.
Qed.

Lemma reach_faithful ks σ : reach true ks σ → faithful σ.
Proof.
  induction 1 as [x pq Hx Hpq|ks σ e σ' Hre IH He Hun E]; [injection Hpq as <-; split; done|]. pose proof (echo_reach_inv _ _ _ Hre) as Hi.
  destruct e; cbn [step] in E.
  - injection E as <-. unfold recvIsrHandler. destruct (push _ _ _). by apply (faithful_same σ).
  - injection E as <-. by apply faithful_print.
  - eapply faithful_recv; eauto.
  - by eapply faithful_gate.
Qed.

(** The keys struck so far are those dealt with, the one in hand and those in the queue. *)
Lemma handled_keys ch σ σ' : handle ch σ = Some σ' → recvQueue σ' = recvQueue σ ∧
  typed σ' ++ in_hand (recv σ') = typed σ ++ [ch].
Proof.
  unfold handle. destruct (ordinary ch).
  - destruct (bufPos σ <? RECV_BUFFER_LEN); [destruct (put_char _ _ _ _) as [b|]; [|done]|]; intros [= <-]; (split; [done|cbn; by rewrite app_nil_r]).
  - destruct (ch =? CODE_BS); [intros [= <-]; destruct (0 <? bufPos σ); (split; [done|cbn; by rewrite app_nil_r])|].
    destruct (Z.eqb_spec ch CODE_CR) as [-> |]; intros [= <-]; (split; [done|cbn; by rewrite ?app_nil_r]).
Qed.

Lemma recv_keys σ σ' : recvTask σ = Some σ' →
  typed σ' ++ in_hand (recv σ') ++ recvQueue σ' = typed σ ++ in_hand (recv σ) ++ recvQueue σ.
Proof.
  unfold recvTask. destruct (recv σ) as [|ch|k| |] eqn:Hr.
  - destruct (recvQueue σ) as [|ch rq]; [done|]. by intros [= <-].
  - intros [Hq Ht]%handled_keys. rewrite Hq, !app_assoc, Ht. done.
  - destruct (ending !! k) as [c|]; [|done]. cbn [mbind option_bind]. destruct (put_char _ _ _ _) as [b|]; [|done]. cbn [mbind option_bind]. intros [= <-].
    by destruct (decide (k = 3%nat)).
  - intros [= <-]. unfold vPrintMsg. destruct (push _ _ _). cbn. by rewrite <- app_assoc.
  - by intros [= <-].
Qed.

Lemma reach_keys c ks σ : reach c ks σ → ks = typed σ ++ in_hand (recv σ) ++ recvQueue σ.
Proof.
  induction 1 as [x pq Hx Hpq|ks σ e σ' Hre IH He Hun E]; [done|]. destruct e; cbn [step struck] in *.
  - injection E as <-. unfold recvIsrHandler, push. rewrite IH. destruct (_ <? _); cbn; [|done]. by rewrite <- !app_assoc.
  - injection E as <-. unfold vPrintMsg. by destruct (push _ _ _).
  - rewrite IH. symmetry. by apply recv_keys.
  - rewrite IH. unfold printGateKeeperTask in E. destruct (gate σ) as [|p cp].
    + destruct (printQueue σ); [done|]. by injection E as <-.
    + destruct (char_at _ _ _) as [ch|]; [|done]. cbn [mbind option_bind] in E. injection E as <-. by destruct (ch =? 0).
Qed.

(** C31. The demo never accesses memory outside its line buffers: in every interleaving of
    key strokes, the receiver and the gatekeeper, every step can be taken; each buffer
    keeps a terminator in its last byte, so that the gatekeeper comes to the end of every
    string inside the buffer even if it is written at the same time; bufCntr is a line
    buffer and bufPos a position in it, and up to there the buffer holds the text in front,
    the line that the keys dealt with give, and what is written of its end ([position] and
    [written]; between the print of a line and the turn to the next buffer bufPos is not
    used).  The keys dealt with are the keys struck, without the one in hand and those in
    the queue. *)
Theorem echo_safe ks σ e : reach false ks σ → enabled e σ →
  is_Some (step e σ) ∧ Forall (λ l, length l = Z.to_nat RECV_TOTAL_BUFFER_LEN ∧ l !! 67%nat = Some 0) (buf σ) ∧
  ∃ done l, ks = done ++ in_hand (recv σ) ++ recvQueue σ ∧ 0 ≤ bufCntr σ < RECV_BUFFER_SIZE ∧ buf σ !! Z.to_nat (bufCntr σ) = Some l ∧
    zlen (edit done).2 ≤ RECV_BUFFER_LEN ∧
    (recv σ ≠ RNext → bufPos σ = position (recv σ) (edit done).2 ∧ 0 ≤ bufPos σ < RECV_TOTAL_BUFFER_LEN ∧
      take (length (written (recv σ) (edit done).2)) l = written (recv σ) (edit done).2).
Proof.
  intros Hre He. pose proof (echo_reach_inv _ _ _ Hre) as Hi. destruct (inv_step e σ Hi He) as (σ' & -> & _).
  pose proof (n_cntr _ Hi) as Hc. destruct (n_buf _ Hi) as [Hb Hf]. split_and!; [done| |].
  { eapply Forall_impl; [exact Hf|]. intros l (? & _ & ?). done. }
  destruct (lookup_lt_is_Some_2 (buf σ) (Z.to_nat (bufCntr σ)) ltac:(lia)) as [l Hl]. exists (typed σ), l.
  destruct (n_cur _ Hi) as [Hcur _]. split_and!; [by eapply reach_keys|apply Hc|apply Hc|done|done|].
  intros Hr. destruct (n_line _ Hi Hr) as [Hp Htk]. rewrite Hp. split_and!; [done| | |by apply Htk].
  all: pose proof (n_end _ Hi); pose proof (zlen_nonneg (edit (typed σ)).2); change RECV_TOTAL_BUFFER_LEN with 68; destruct (recv σ); cbn; lia.
Qed.

(** C22. What appears on the screen is what was sent, and what is sent is what was typed:
    as long as the receiver does not come back to a buffer whose line is still to be
    printed, the characters printed so far and those still to come are the accepted
    messages in their order, each as it was when it was sent; and the messages of the
    receiver are the lines that the editor makes of the keys struck (those that found room
    in the queue), without the one in hand and those still in the queue.  When nothing is
    queued, everything has been printed. *)
Theorem echo_prints ks σ : reach true ks σ →
  accepted_text (log σ) = screen σ ++ unprinted σ ∧
  (∃ done, ks = done ++ in_hand (recv σ) ++ recvQueue σ ∧ text <$> filter (λ m, keyboard m = true) (log σ) = frame <$> (edit done).1) ∧
  (outstanding σ = [] → screen σ = accepted_text (log σ)).
Proof.
  intros Hre. pose proof (echo_reach_inv _ _ _ Hre) as Hi. destruct (reach_faithful ks σ Hre) as [Ht _].
  split_and!; [done|exists (typed σ); split; [by eapply reach_keys|apply Hi]|].
  intros Ho. rewrite Ht. unfold outstanding, unprinted in *. destruct (gate σ); [|done]. cbn in Ho. rewrite Ho. by rewrite app_nil_r.
Qed.

(** ** Runs *)

Definition begin : state := start (replicate 3 init_line, 0, 0) [].
Fixpoint play (calm : bool) (es : list event) (kσ : list Z * state) : option (list Z * state) :=
  match es with
  | [] => Some kσ
  | e :: es => let '(ks, σ) := kσ in
      if decide (enabled e σ ∧ (calm = true → unshared e σ)) then σ' ← step e σ; play calm es (struck e σ ks, σ') else None
  end.

Lemma play_reach calm es : ∀ ks σ ks' σ', reach calm ks σ → play calm es (ks, σ) = Some (ks', σ') → reach calm ks' σ'.
Proof.
  induction es as [|e es IH]; intros ks σ ks' σ' Hre; cbn [play]; [by intros [= <- <-]|]. case_decide as Hp; [|done]. destruct Hp as [He Hu].
  destruct (step e σ) as [σ1|] eqn:E; [|done]. cbn [mbind option_bind]. apply IH. apply (reach_step calm ks σ e); [done|done|done|done].
Qed.

(** A line of one letter is typed and handled; the gatekeeper prints [n] lines of it. *)
Definition type_line (ch : Z) : list event := Key ch :: Key CODE_CR :: replicate 10 Recv.
Definition print_lines (n : nat) : list event := replicate (20 * n) Gate.

Definition demo_events : list event := type_line 65 ++ Say [84; 10] :: print_lines 1 ++ replicate 4 Gate.
Definition demo_state : state := (default ([], begin) (play true demo_events ([], begin))).2.

Lemma demo_reached : reach true [65; CODE_CR] demo_state.
Proof.
  apply (play_reach true demo_events [] begin); [apply (reach_start true (replicate 3 init_line, 0, 0) []); reflexivity|]. vm_compute. reflexivity.
Qed.
Lemma demo_idle : outstanding demo_state = [] ∧ accepted_text (log demo_state) = frame [65] ++ [84; 10].
Proof. vm_compute. split; reflexivity. Qed.

Definition half_events : list event := type_line 65 ++ type_line 66 ++ [Gate; Gate; Key 67; Key 68; Recv; Recv].
Definition demo_half : state := (default ([], begin) (play false half_events ([], begin))).2.
Lemma demo_half_reached : reach false [65; CODE_CR; 66; CODE_CR; 67; 68] demo_half.
Proof.
  apply (play_reach false half_events [] begin); [apply (reach_start false (replicate 3 init_line, 0, 0) []); reflexivity|].
  vm_compute. reflexivity.
Qed.
Lemma demo_half_enabled : enabled Gate demo_half.
Proof. vm_compute. discriminate. Qed.

Lemma echo_safe_witness : is_Some (step Gate demo_half) ∧ 0 ≤ bufCntr demo_half < RECV_BUFFER_SIZE.
Proof. destruct (echo_safe _ demo_half Gate demo_half_reached demo_half_enabled) as (H1 & _ & ks & l & _ & H2 & _). split; [exact H1|exact H2]. Defined.

Lemma echo_prints_witness : screen demo_state = frame [65] ++ [84; 10].
Proof.
  destruct (echo_prints _ demo_state demo_reached) as (_ & _ & H). destruct demo_idle as [H1 H2]. rewrite <- H2. exact (H H1).
Defined.

(** There are three line buffers and ten places in the print queue: when four lines are
    entered before the first is printed, the fourth is printed in place of the first. *)
Theorem echo_overwritten : ∃ ks σ, play false (type_line 65 ++ type_line 66 ++ type_line 67 ++ type_line 68 ++ print_lines 4) ([], begin) = Some (ks, σ) ∧
  accepted_text (log σ) = frame [65] ++ frame [66] ++ frame [67] ++ frame [68] ∧ screen σ = frame [68] ++ frame [66] ++ frame [67] ++ frame [68].
Proof. eexists _, _. split; [vm_compute; reflexivity|]. split; reflexivity. Qed.

(** ** The queues *)

(** A call that does not wait does to a queue of queue.c what [push] does to its items. *)
Lemma push_queue h q x : RtosQueue.queue_ok q → zlen x = RtosQueue.uxItemSize q →
  let e := RtosQueueThm.reply h (RtosQueueRun.Send x RtosQueue.queueSEND_TO_BACK) q in
  RtosQueueRun.play h (Some (RtosQueue.contents q)) e = Some (push (RtosQueue.uxLength q) x (RtosQueue.contents q)).2 ∧
  e = if (push (RtosQueue.uxLength q) x (RtosQueue.contents q)).1 then RtosQueueRun.Put h RtosQueue.queueSEND_TO_BACK x else RtosQueueRun.Full h.
Proof.
  intros Hq _. cbn zeta. pose proof (RtosQueue.q_count _ Hq). unfold push. rewrite (RtosQueue.queue_contents_length q) by lia.
  unfold RtosQueueThm.reply. destruct (Z.ltb_spec (RtosQueue.uxMessagesWaiting q) (RtosQueue.uxLength q)) as [Hlt|Hge]; [rewrite decide_True by (unfold RtosQueue.fits; by rewrite decide_False)|
    rewrite decide_False by (unfold RtosQueue.fits; rewrite decide_False by done; lia)]; cbn; [by rewrite decide_True|done].
Qed.

End RtosEcho.
